(* ===== verification/_CoqProject ===== *)
-Q . S2P
Prelude.v
Big.v
WireEncoding.v
WireTx.v
Sha256.v
Sha1.v
Chainhash.v
WireHeader.v
WireBlock.v
WireMsg.v
WireMessage.v
Pow.v
PrimeCert.v
Field.v
ScriptNum.v
Stack.v
Opcode.v
Script.v
SigHash.v
PubKey.v
Signature.v
Compress.v
SigCache.v
Engine.v
EngineFacts.v
EngineRun.v
EngineCache.v
EngineSpend.v
EngineEncoding.v
Standard.v
Utxo.v
UtxoSet.v
Validate.v
ValidateFacts.v
Supply.v
Coinbase.v
ChainStore.v
StoreFacts.v
StoreUtxo.v
StoreReorg.v
StoreIndex.v
Mmr.v
MmrStore.v
MmrTree.v
MmrOps.v
BlockNodes.v
ChainView.v
ViewFacts.v
Threshold.v
ThresholdFacts.v
Difficulty.v
ChainIndex.v
IndexFacts.v
Treap.v
TreapIter.v
TreapStore.v
TreapPut.v
TreapFacts.v
TreapMap.v
TreapWalk.v
UtxoFlow.v
ChainState.v
ChainRules.v
Chain.v
ChainFacts.v
ChainLedger.v
ChainExample.v
ChainTheorems.v
ChainWitness.v
