(* ===== verification/Prelude.v ===== *)
(** * A verification of jaxnetd

    jaxnetd is a node of a sharded chain derived from Bitcoin: a beacon chain and any number
    of shard chains that are mined together.  This library models, in Gallina, the code every
    node must agree on, and proves what makes it correct.  The definitions are executable and
    follow the Go code function by function, with its names; the theorems marked C1, C2, ...
    are the main results, and the lemmas around them are the library they rest on.

    ** How the code is modelled

    - Integers are in [Z].  The Go type of a value is a range ([is_uint], [is_int]) and every
      conversion or operation that can leave it is wrapped ([uwrap], [swrap]); [big.Int] is
      [Z] itself.  Byte slices and strings are lists of bytes; a slice that may be nil is an
      option where the code tells the difference.
    - A Go call that may fail is an [outcome]: a value, an error of [go_error], or [Panic],
      the run-time panic (an index out of range, a nil pointer, a slice too large).  The
      readers of a stream are a state monad over the remaining bytes, the writers a list of
      bytes or an error; both are in this file, with the lemmas and the hint databases the
      other files use.
    - A Go map is a finite map; where an iteration order matters the choice is a parameter.
    - Third-party code is a class with the laws the program relies on: [HashFunction]
      (SHA-256, with an executable instance for examples), [Crypto] (the verification of
      crypto/ecdsa and RIPEMD-160), [NetText] (parsing of IP addresses and URLs), [RandomId]
      (random identifiers), [MapOrder] (the first key of an iteration).
    - Loops are structural recursions on what they consume.  The loop of the script engine
      has fuel: 30520 steps are enough for any engine the constructor returns (C1), because
      three scripts of at most 10000 bytes have at most that many opcodes.  The fuel of the
      variable length quantities, ten bytes, is the length after which the 64-bit
      accumulator has wrapped.

    ** The files

    Wire format (types/wire, types/chainhash):
    - WireEncoding: encoder.list.go and encoder.go; integers, elements, variable length
      integers and byte strings.
    - WireTx: msg_tx.go.  WireHeader: the beacon, shard and bitcoin auxiliary headers.
      WireBlock: msg_block.go over any header ([HeaderImpl]).
    - WireMsg: the messages, one codec instance each.  WireMessage: message.go, the frame
      around them, proved against the class of codecs.
    - Chainhash: hash.go and merkle_tree.go.  Sha256, Sha1: the executable hash functions.

    Consensus arithmetic: Pow (types/pow), Big and PrimeCert (integers as bytes; the prime of
    secp256k1), Field, PubKey and Signature (btcec).

    Scripts (txscript):
    - ScriptNum, Stack, Opcode, Script, Standard: numbers, stacks, opcodes, parsing,
      templates, the builder, the classes of scripts.
    - SigHash, SigCache: signature hashes and the cache of verified signatures.
    - Engine: engine.go and the handlers of opcode.go.  The theorems about it are in
      EngineFacts (every handler keeps the invariant of the states), EngineRun (runs from
      [NewEngine]), EngineCache (a simulation between engines with and without a cache),
      EngineSpend (pay to public key hash) and EngineEncoding (signature encodings).

    Chain data (node/chaindata):
    - Compress: compress.go.
    - Utxo: utxoviewpoint.go; UtxoSet: the abstract set of unspent outputs and the
      refinement of it by the views.
    - Validate: the checks of transactions and blocks (validate.go, weight.go, merkle.go);
      ValidateFacts: what they accept; Supply: conservation of amounts.
    - Coinbase: the scripts of coinbases (validate_coinbase_tx.go).
    - ChainStore: the records of chaindb_io.go over buckets, which are finite maps.
      StoreFacts: their codecs; StoreUtxo: the bucket of unspent outputs represents the
      abstract set, and views are coherent with it; StoreReorg: blocks, views and the
      database together; StoreIndex: keys, cursors, the best state, shards.

    Merkle mountain range (node/mmr):
    - Mmr: node.go, tree_store.go, tree.go and container.go.  MmrStore: a reference definition
      of the range of a list of leaves, and the loops that compute it over slots and final
      marks.  MmrTree: the tree of a list of blocks, appending and removing.  MmrOps: the
      refinement of a list by the tree, the quick load of a stored chain, lookups and forks.

    Chain state (node/blocknodes, node/blockchain):
    - BlockNodes: the nodes of the tree of blocks, ancestors and median times.
    - ChainView: chainview.go; ViewFacts: views show branches, forks, locators.
    - Threshold: thresholdstate.go and the deployments of versionbits.go; ThresholdFacts: the
      state machine without its cache, its steps and what it comes to.
    - Difficulty: difficulty.go.
    - ChainIndex: blockindex.go, orphan_index.go and runtime_block_storage.go; IndexFacts: what a
      reorganization detaches and attaches.
    - ChainState: the state of a chain and the monad of its operations.  ChainRules: the checks of
      a block in its context (validate.go, versionbits.go, checkpoints.go), with what they call in
      other components as classes.  Chain: connecting and disconnecting blocks, reorganizations,
      the choice of the best chain, accepting blocks and orphans (chain.go, accept.go,
      process.go).  UtxoFlow: views in which a block was partly connected already.  ChainFacts: frames and
      the check of a reorganization.  ChainLedger: what the operations do to the database.
      ChainExample and ChainWitness: a chain that is reorganized, run by the model.  ChainTheorems:
      failures and the rules of validate.go.

    Database (database/internal/treap):
    - Treap: common.go, mutable.go and immutable.go, over a store of nodes with pointers;
      TreapIter: treapiter.go.  TreapStore: trees, contexts and what it means that a store holds
      a treap.  TreapPut and TreapFacts: insertion and removal.  TreapMap: the treaps as finite
      maps and the order of their priorities.  TreapWalk: the iterators.

    ** What the theorems show

    - Codecs: what is written is read back, exactly as many bytes are used as the size
      functions say, decoders are not malleable where the code checks it, do not panic where
      the code bounds what it allocates, and leave a stream at the next frame.
    - Scripts: execution of any script terminates without a panic inside the documented
      limits, the cache is transparent, and the standard payment is accepted exactly when
      hash and signature match.
    - Arithmetic: the field operations compute modulo the prime without overflow; targets
      and work are monotone; keys and signatures round trip.
    - Chain data: connecting and disconnecting a block are inverse on the abstract set, in
      memory and through the database;
      accepted transactions neither create nor lose amounts other than the fee; the checks
      of a block are equivalent to a declarative definition of a sane block.
    - Errors: the inputs on which the code panics or accepts what it should not, as theorems
      (swap transactions, shard addresses, signature operation counts).
    - Mountain range: the tree refines a list of blocks, for any sequence of operations in which
      only the last one sets a block (SetBlock keeps the lock, so that what follows it never returns), as
      long as the nodes above the leaves do not have the hash of a block; at most 2^30 leaves.
    - Chain state: a view shows the branch of its tip and its mountain range; a reorganization
      exchanges the ends of two branches after their fork and never enters an invalid one; the
      cache of threshold states cannot be observed, and rule changes are decided in the end;
      whatever branch a block is on, the stored outputs and the journal stay those of the branch
      the view shows, unless the write of a block fails; a failed check of a reorganization only marks
      blocks and fills caches; the weight in a snapshot is a pointer to that of the mountain range of the
      view and moves with it; retargets are bounded; time is monotone along a chain.
    - Database: both treaps implement finite maps, the immutable one without writing to a node
      that was there; iterators visit the entries of a range in order, also after changes; insertions keep
      the order of the priorities and removals do not.
      The loops that follow pointers have fuel, one more than the nodes allocated, which is
      enough for a treap of distinct nodes.
    ** What is not modelled

    Goroutines, locks (but the one SetBlock keeps), sockets, files and the database engine below the buckets; logging,
    string dumps, JSON and configuration; the recovery of compact signatures and signing
    (the group law of btcec); the K coefficient of types/pow/inflation_fix.go and the vote on
    it, which are computed with big.Float.

    In node/blockchain: the construction of a chain from its database, notifications (sent with the lock
    of the chain released) and queries; the block generators and the concurrent run of the scripts of a
    block are classes.  The orange tree of types/merge_mining_tree, addresses and their encodings, the
    memory pool, mining and the network are not modelled. *)

From stdpp Require Export base countable list option strings.
From coqutil Require Export Byte Word.LittleEndianList.
From Stdlib Require Export ZArith Lia.

#[global] Open Scope Z_scope.

(** * Bytes, machine integers *)

Abbreviation bytes := (list Init.Byte.byte).

#[export] Instance byte_eq_dec : EqDecision Init.Byte.byte := Byte.byte_eq_dec.
#[export] Program Instance byte_countable : Countable Init.Byte.byte :=
  inj_countable Byte.to_N Byte.of_N _.
Next Obligation. intros b. apply Byte.of_to_N. Qed.

(** The bytes with the given values, to write constants and examples. *)
Definition mkbytes (l : list Z) : bytes := map byte.of_Z l.

(** Proofs use the lemmas on these two; concrete inputs are evaluated by [vm_compute]. *)
#[global] Opaque le_split le_combine.

(** The Go [len] of a slice, as an integer. *)
Definition len {A} (l : list A) : Z := Z.of_nat (length l).

(** Conversion of an integer to an unsigned or a signed [w]-bit Go integer. *)
Definition uwrap (w z : Z) : Z := z mod 2 ^ w.
Definition swrap (w z : Z) : Z := (z + 2 ^ (w - 1)) mod 2 ^ w - 2 ^ (w - 1).

(** The values a [w]-bit Go integer can hold. *)
Definition is_uint (w z : Z) : Prop := 0 <= z < 2 ^ w.
Definition is_int (w z : Z) : Prop := - 2 ^ (w - 1) <= z < 2 ^ (w - 1).

(** * Errors, and the outcome of a Go call *)

(** [MessageError] is the error built by [wire.Error(func, description)], the
    formatted numbers of the description left out; [ScriptError] is the error built
    by [txscript.scriptError(code, description)], with the name of its code, and
    [RuleError] the one built by [chaindata.NewRuleError]; the other constructors are
    sentinel errors and error types of the packages that return them. *)
Inductive go_error :=
| io_EOF
| io_ErrUnexpectedEOF
| MessageError (Func Description : string)
| ScriptError (ErrorCode : string)
| RuleError (ErrorCode : string)
| AssertError
| ErrDeserialize
| ErrCorruption
| errorString (s : string).

(** A call returns a value, returns a non-nil error, or panics. *)
Inductive outcome (A : Type) :=
| Ok (a : A)
| Err (e : go_error)
| Panic.
Arguments Ok {A} a.
Arguments Err {A} e.
Arguments Panic {A}.

#[export] Instance outcome_ret : MRet outcome := @Ok.
#[export] Instance outcome_bind : MBind outcome := fun A B f m =>
  match m with Ok a => f a | Err e => Err e | Panic => Panic end.

(** The largest allocation of the Go runtime on a 64-bit platform, above which
    [make] panics with "makeslice: len out of range". *)
Definition maxAlloc : Z := 2 ^ 48.

(** [make([]T, n)] for elements of [size] bytes: [true] when it panics. *)
Definition make_panics (size n : Z) : bool := (n <? 0) || (maxAlloc <? size * n).

(** * Sequences of assignments

    A sequence of assignments to local variables.  Unlike [let], it is never
    unfolded by reduction tactics, so a proof can name the variables one by one. *)

Definition Let_In {A B : Type} (v : A) (k : A -> B) : B := k v.

Declare Scope go_scope.
Notation "'dlet' x := v 'in' k" := (Let_In v (fun x => k))
  (at level 10, x name, k at level 200,
   format "'dlet'  x  :=  v  'in' '//' k") : go_scope.

Lemma Let_In_elim {A B : Type} (P : B -> Prop) (v : A) (k : A -> B) :
  (forall x, x = v -> P (k x)) -> P (Let_In v k).
Proof. intros H. by apply H. Qed.

(** Names the next assignment of a goal [P (dlet x := v in k)]. *)
Ltac dlet_intro x Hx := apply Let_In_elim; intros x Hx; cbv beta.

(** * Readers

    An [io.Reader] over a finite input: a function from the bytes that are left
    to the value read and the bytes left after it. *)

Definition reader (A : Type) : Type := bytes -> outcome (A * bytes).

#[export] Instance reader_ret : MRet reader := fun A a inp => Ok (a, inp).
#[export] Instance reader_bind : MBind reader := fun A B f m inp =>
  match m inp with
  | Ok (a, inp') => f a inp'
  | Err e => Err e
  | Panic => Panic
  end.

Definition read_fail {A} (e : go_error) : reader A := fun _ => Err e.
Definition read_panic {A} : reader A := fun _ => Panic.

(** [io.ReadFull(r, buf)] with [len(buf) = n]. *)
Definition ReadFull (n : Z) : reader bytes := fun inp =>
  if len inp <? n
  then match inp with [] => Err io_EOF | _ => Err io_ErrUnexpectedEOF end
  else Ok (take (Z.to_nat n) inp, drop (Z.to_nat n) inp).

(** [for i := 0; i < n; i++ { x[i] = p(r) }], stopping at the first error. *)
Fixpoint read_n {A} (n : nat) (p : reader A) : reader (list A) :=
  match n with
  | O => mret []
  | S n => x ← p; xs ← read_n n p; mret (x :: xs)
  end.

(** * Writers

    A function that writes to an [io.Writer] is the sequence of its [Write]
    calls and the error it ends with. *)

Definition writer : Type := list bytes * option go_error.

Definition write (bs : bytes) : writer := ([bs], None).
Definition write_nil : writer := ([], None).
Definition write_fail (e : go_error) : writer := ([], Some e).

(** [if err := a; err != nil { return err }; b] *)
Definition wseq (a b : writer) : writer :=
  match a with
  | (c, Some e) => (c, Some e)
  | (c, None) => (c ++ fst b, snd b)
  end.

Definition wlist {A} (f : A -> writer) (l : list A) : writer :=
  foldr (fun a w => wseq (f a) w) write_nil l.

Declare Scope wire_scope.
Delimit Scope wire_scope with wire.
#[global] Open Scope wire_scope.
Infix "+++" := wseq (at level 60, right associativity) : wire_scope.

(** The bytes an in-memory buffer holds after the writes. *)
Definition wbytes (w : writer) : bytes := concat (fst w).

(** An arbitrary [io.Writer]: a state and a [Write] method that may fail.  The
    calls of a [writer] are made in order until one of them fails. *)
Fixpoint run_chunks {S} (Write : S -> bytes -> S * option go_error)
    (cs : list bytes) (s : S) : S * option go_error :=
  match cs with
  | [] => (s, None)
  | c :: cs =>
      match Write s c with
      | (s', Some e) => (s', Some e)
      | (s', None) => run_chunks Write cs s'
      end
  end.

Definition run_writer {S} (Write : S -> bytes -> S * option go_error)
    (w : writer) (s : S) : S * option go_error :=
  match run_chunks Write (fst w) s with
  | (s', Some e) => (s', Some e)
  | (s', None) => (s', snd w)
  end.

(** * The two halves of a round trip *)

(** [writes w bs]: [w] succeeds and leaves [bs] in the buffer. *)
Definition writes (w : writer) (bs : bytes) : Prop :=
  snd w = None /\ wbytes w = bs.

(** [reads r bs v]: [r] consumes exactly [bs], whatever follows, and returns [v]. *)
Definition reads {A} (r : reader A) (bs : bytes) (v : A) : Prop :=
  forall rest, r (bs ++ rest) = Ok (v, rest).

(** [accepts r w]: what [r] accepts is exactly what [w] writes. *)
Definition accepts {A} (r : reader A) (w : A -> writer) (P : A -> Prop) : Prop :=
  forall inp v rest, r inp = Ok (v, rest) ->
    P v /\ exists bs, writes (w v) bs /\ inp = bs ++ rest.

(** What one wire component promises to the next: an encoder, a decoder, the
    values they are for, the bytes of a value, and the value that comes back
    ([codec_norm] forgets what the encoding does not carry). *)
Class WireCodec (A : Type) := {
  codec_write : A -> writer;
  codec_read : reader A;
  codec_dom : A -> Prop;
  codec_norm : A -> A;
  codec_bytes : A -> bytes;
  codec_writes : forall a, codec_dom a -> writes (codec_write a) (codec_bytes a);
  codec_reads : forall a, codec_dom a -> reads codec_read (codec_bytes a) (codec_norm a)
}.

(** * Lemmas shared by the components *)

Section integers.
Lemma uwrap_id w z : is_uint w z -> uwrap w z = z.
Proof. intros; unfold uwrap. by apply Z.mod_small. Qed.

Lemma uwrap_range w z : 0 <= w -> is_uint w (uwrap w z).
Proof. intros; unfold uwrap, is_uint. apply Z.mod_pos_bound; lia. Qed.

Lemma lor_uint w a b : 0 <= w -> is_uint w a -> is_uint w b -> is_uint w (Z.lor a b).
Proof.
  intros Hw Ha Hb. rewrite <-(uwrap_id w a Ha), <-(uwrap_id w b Hb).
  unfold uwrap. rewrite <-!Z.land_ones, <-Z.land_lor_distr_l, Z.land_ones by done. by apply uwrap_range.
Qed.

Lemma pow2_half w : 0 < w -> 2 ^ w = 2 * 2 ^ (w - 1).
Proof. intros. rewrite <-Z.pow_succ_r by lia. f_equal; lia. Qed.

Lemma swrap_id w z : 0 < w -> is_int w z -> swrap w z = z.
Proof.
  unfold swrap, is_int; intros Hw ?. pose proof (pow2_half w Hw).
  rewrite Z.mod_small; lia.
Qed.

Lemma swrap_range w z : 0 < w -> is_int w (swrap w z).
Proof.
  unfold swrap, is_int; intros Hw. pose proof (pow2_half w Hw).
  pose proof (Z.mod_pos_bound (z + 2 ^ (w - 1)) (2 ^ w)). lia.
Qed.

(** The conversions [intN(uintN(x))] and [uintN(intN(x))]. *)
Lemma swrap_uwrap w z : 0 < w -> swrap w (uwrap w z) = swrap w z.
Proof. unfold swrap, uwrap; intros. by rewrite Zplus_mod_idemp_l. Qed.

Lemma uwrap_swrap w z : 0 < w -> uwrap w (swrap w z) = uwrap w z.
Proof.
  unfold swrap, uwrap; intros. rewrite Zminus_mod_idemp_l. f_equal; lia.
Qed.
End integers.

Section lengths.
Context {A : Type}.
Implicit Types l : list A.

Lemma len_nonneg l : 0 <= len l.
Proof. unfold len; lia. Qed.
Lemma len_nil : len (@nil A) = 0.
Proof. reflexivity. Qed.
Lemma len_cons a l : len (a :: l) = 1 + len l.
Proof. unfold len; simpl; lia. Qed.
Lemma len_app l k : len (l ++ k) = len l + len k.
Proof. unfold len; rewrite length_app; lia. Qed.
Lemma len_map {B} (f : A -> B) l : len (map f l) = len l.
Proof. unfold len. by rewrite length_map. Qed.
Lemma to_nat_len l : Z.to_nat (len l) = length l.
Proof. unfold len; lia. Qed.
Lemma len_zero_nil l : len l = 0 -> l = [].
Proof. destruct l; rewrite ?len_cons; [done|]. pose proof (len_nonneg l); lia. Qed.
End lengths.

Lemma len_le_split n z : len (le_split n z) = Z.of_nat n.
Proof. unfold len. by rewrite length_le_split. Qed.

Lemma le_combine_split_id (n : nat) z :
  is_uint (8 * Z.of_nat n) z -> le_combine (le_split n z) = z.
Proof.
  intros H. rewrite le_combine_split, (Z.mul_comm _ 8). by apply Z.mod_small.
Qed.

Lemma le_combine_is_uint (bs : bytes) : is_uint (8 * len bs) (le_combine bs).
Proof. apply le_combine_bound. Qed.

Lemma lor_shift a b k : 0 <= k -> 0 <= a < 2 ^ k -> Z.lor a (Z.shiftl b k) = a + b * 2 ^ k.
Proof.
  intros Hk Ha. rewrite <-Z.shiftl_mul_pow2 by done. symmetry. apply Z.add_nocarry_lor.
  apply Z.bits_inj'. intros i Hi. rewrite Z.land_spec, Z.bits_0.
  destruct (Z.lt_ge_cases i k) as [Hik|Hik].
  - rewrite (Z.shiftl_spec_low b k i Hik). apply andb_false_r.
  - rewrite <-(Z.mod_small a (2 ^ k)), Z.mod_pow2_bits_high by lia. done.
Qed.

#[local] Transparent le_combine.
Lemma le_combine_nil : le_combine [] = 0.
Proof. reflexivity. Qed.
Lemma le_combine_cons b bs : le_combine (b :: bs) = byte.unsigned b + le_combine bs * 2 ^ 8.
Proof. cbn [le_combine]. apply lor_shift; [lia|apply byte.unsigned_range]. Qed.
#[local] Opaque le_combine.

Lemma le_combine_snoc bs b : le_combine (bs ++ [b]) = le_combine bs + byte.unsigned b * 2 ^ (8 * len bs).
Proof.
  induction bs as [|c bs IH]; cbn [app].
  - rewrite le_combine_cons, le_combine_nil. unfold len. cbn [length]. change (2 ^ (8 * Z.of_nat 0)) with 1. lia.
  - rewrite !le_combine_cons, IH, len_cons. replace (8 * (1 + len bs)) with (8 * len bs + 8) by lia.
    rewrite Z.pow_add_r by (pose proof (len_nonneg bs); lia). lia.
Qed.

Create HintDb wire discriminated.
Create Rewrite HintDb len.
#[export] Hint Rewrite @len_app @len_cons @len_nil @len_map len_le_split : len.

(** Normalises the lengths of a goal and closes it by linear arithmetic. *)
Ltac len_solve := autorewrite with len in *; simpl in *; try lia.

Section readers.
Context {A B : Type}.

Lemma reads_ret (a : A) : reads (mret a) [] a.
Proof. intros rest. reflexivity. Qed.

Lemma reads_bind (p : reader A) (k : A -> reader B) e1 e2 a b :
  reads p e1 a -> reads (k a) e2 b -> reads (p ≫= k) (e1 ++ e2) b.
Proof.
  intros Hp Hk rest. rewrite <-app_assoc.
  unfold mbind, reader_bind. rewrite (Hp (e2 ++ rest)). apply Hk.
Qed.

(** A reader that consumes nothing between two others. *)
Lemma reads_bind_nil (p : reader A) (k : A -> reader B) e a b :
  reads p e a -> reads (k a) [] b -> reads (p ≫= k) e b.
Proof. intros. rewrite <-(app_nil_r e). by eapply reads_bind. Qed.

(** Inversion of a successful sequence. *)
Lemma reader_bind_ok (p : reader A) (k : A -> reader B) inp v rest :
  (p ≫= k) inp = Ok (v, rest) ->
  exists a mid, p inp = Ok (a, mid) /\ k a mid = Ok (v, rest).
Proof.
  unfold mbind, reader_bind. destruct (p inp) as [[a mid]| |] eqn:E; try done. eauto.
Qed.

Lemma reads_Ok (p : reader A) bs a rest : reads p bs a -> p (bs ++ rest) = Ok (a, rest).
Proof. intros H. apply H. Qed.
End readers.

Lemma ReadFull_reads bs : reads (ReadFull (len bs)) bs bs.
Proof.
  intros rest. unfold ReadFull.
  rewrite (proj2 (Z.ltb_ge _ _)) by (rewrite len_app; pose proof (len_nonneg rest); lia).
  by rewrite to_nat_len, take_app_length, drop_app_length.
Qed.

Lemma ReadFull_reads' n bs : n = len bs -> reads (ReadFull n) bs bs.
Proof. intros ->. apply ReadFull_reads. Qed.

Lemma ReadFull_ok n inp bs rest :
  0 <= n -> ReadFull n inp = Ok (bs, rest) -> len bs = n /\ inp = bs ++ rest.
Proof.
  unfold ReadFull. intros Hn. destruct (Z.ltb_spec (len inp) n) as [|Hle].
  - destruct inp; discriminate.
  - intros [= <- <-]. split; [|by rewrite take_drop].
    unfold len in *. rewrite length_take. lia.
Qed.

Lemma ReadFull_short n inp : len inp < n ->
  ReadFull n inp = Err (if decide (inp = []) then io_EOF else io_ErrUnexpectedEOF).
Proof.
  intros H. unfold ReadFull. rewrite (proj2 (Z.ltb_lt _ _)) by done.
  by destruct inp.
Qed.

Section writers.
Lemma writes_nil : writes write_nil [].
Proof. done. Qed.
Lemma writes_write bs : writes (write bs) bs.
Proof. split; [done|]. unfold wbytes; simpl. by rewrite app_nil_r. Qed.

Lemma writes_seq a b x y : writes a x -> writes b y -> writes (a +++ b) (x ++ y).
Proof.
  destruct a as [ca [ea|]], b as [cb eb]; intros [Ha <-] [Hb <-]; [done|].
  split; [done|]. unfold wbytes; simpl. by rewrite concat_app.
Qed.

Lemma wbytes_write bs : wbytes (write bs) = bs.
Proof. apply writes_write. Qed.
Lemma wbytes_write_seq bs w : wbytes (write bs +++ w) = bs ++ wbytes w.
Proof. reflexivity. Qed.

Lemma wbytes_seq a b : snd a = None -> wbytes (a +++ b) = wbytes a ++ wbytes b.
Proof.
  destruct a as [ca [ea|]]; intros H; [done|]. unfold wbytes; simpl. by rewrite concat_app.
Qed.

Lemma writes_det w x y : writes w x -> writes w y -> x = y.
Proof. by intros [_ <-] [_ <-]. Qed.

Lemma writes_list {A} (f : A -> writer) (g : A -> bytes) l :
  Forall (fun a => writes (f a) (g a)) l -> writes (wlist f l) (concat (map g l)).
Proof.
  induction 1; simpl; [apply writes_nil|]. by apply writes_seq.
Qed.

(** On a buffer that only grows, a program that writes [bs] appends [bs]. *)
Lemma run_writer_buffer w bs buf :
  writes w bs -> run_writer (fun b c => (b ++ c, None)) w buf = (buf ++ bs, None).
Proof.
  destruct w as [cs e]; intros [He <-]; unfold run_writer, wbytes; simpl in *; subst.
  assert (H : forall cs b, run_chunks (fun (b c : bytes) => (b ++ c, @None go_error)) cs b
                           = (b ++ concat cs, None)).
  { clear. induction cs as [|c cs IH]; intros b; simpl; [by rewrite app_nil_r|].
    by rewrite IH, app_assoc. }
  by rewrite H.
Qed.
End writers.

(** * Readers look at nothing beyond what they consume *)

Definition local {A} (r : reader A) : Prop :=
  forall inp v rest, r inp = Ok (v, rest) -> exists pre, inp = pre ++ rest /\ reads r pre v.

Section local.
Context {A B : Type}.

Lemma local_ret (a : A) : local (mret a).
Proof. intros inp v rest [= <- <-]. by exists []. Qed.
Lemma local_fail e : local (@read_fail A e).
Proof. done. Qed.
Lemma local_panic : local (@read_panic A).
Proof. done. Qed.

Lemma local_bind (p : reader A) (k : A -> reader B) :
  local p -> (forall a, local (k a)) -> local (p ≫= k).
Proof.
  intros Hp Hk inp v rest H. apply reader_bind_ok in H as (a & mid & H1 & H2).
  apply Hp in H1 as (pre1 & -> & R1). apply Hk in H2 as (pre2 & -> & R2).
  exists (pre1 ++ pre2). split; [by rewrite app_assoc|]. by eapply reads_bind.
Qed.
End local.

Lemma local_read_n {A} (p : reader A) n : local p -> local (read_n n p).
Proof.
  intros Hp. induction n as [|n IH]; simpl; [apply local_ret|].
  apply local_bind; [done|]. intros a. apply local_bind; [done|]. intros l. apply local_ret.
Qed.

Lemma local_ReadFull n : local (ReadFull n).
Proof.
  intros inp v rest H. destruct (Z.le_gt_cases 0 n) as [Hn|Hn].
  - apply ReadFull_ok in H as [Hl ->]; [|done]. exists v. split; [done|]. by apply ReadFull_reads'.
  - unfold ReadFull in *. replace (Z.to_nat n) with O in * by lia.
    destruct (Z.ltb_spec (len inp) n); [pose proof (len_nonneg inp); lia|].
    injection H as <- <-. exists []. split; [done|]. intros rest'. unfold ReadFull.
    rewrite (proj2 (Z.ltb_ge _ _)) by (pose proof (len_nonneg ([] ++ rest')); lia).
    by replace (Z.to_nat n) with O by lia.
Qed.

(** Proves locality by the structure of the reader; [local_db] has the rest. *)
Create HintDb local_db discriminated.
#[export] Hint Resolve local_ret local_fail local_panic local_read_n local_ReadFull : local_db.
Ltac local_step :=
  first
    [ solve [eauto 2 with local_db]
    | lazymatch goal with
      | |- local (mbind _ _) => apply local_bind; [|intros ?]
      | |- local (if ?b then _ else _) => destruct b
      | |- local (match ?x with (_, _) => _ end) => destruct x
      | |- local (read_n _ _) => apply local_read_n
      end ].
Ltac local_solve := cbv beta zeta; repeat (local_step; cbv beta zeta iota).

(** * Readers that never panic *)

Definition safe {A} (r : reader A) : Prop := forall inp, r inp <> Panic.

Lemma safe_ret {A} (a : A) : safe (mret a).
Proof. done. Qed.
Lemma safe_fail {A} e : safe (@read_fail A e).
Proof. done. Qed.
Lemma safe_bind {A B} (p : reader A) (k : A -> reader B) :
  safe p -> (forall a, safe (k a)) -> safe (p ≫= k).
Proof.
  intros Hp Hk inp. unfold mbind, reader_bind. specialize (Hp inp).
  destruct (p inp) as [[a mid]| |]; [apply Hk|done|done].
Qed.
Lemma safe_read_n {A} (p : reader A) n : safe p -> safe (read_n n p).
Proof.
  intros Hp. induction n as [|n IH]; simpl; [apply safe_ret|].
  apply safe_bind; [done|]. intros a. apply safe_bind; [done|]. intros l. apply safe_ret.
Qed.
Lemma safe_ReadFull n : safe (ReadFull n).
Proof. intros inp. unfold ReadFull. destruct (len inp <? n); [by destruct inp|done]. Qed.

Create HintDb safe_db discriminated.
#[export] Hint Resolve safe_ret safe_fail safe_read_n safe_ReadFull : safe_db.
Ltac safe_step :=
  first
    [ solve [eauto 2 with safe_db]
    | lazymatch goal with
      | |- safe (mbind _ _) => apply safe_bind; [|intros ?]
      | |- safe (if ?b then _ else _) => destruct b
      | |- safe (match ?x with (_, _) => _ end) => destruct x
      | |- safe (match ?x with None => _ | Some _ => _ end) => destruct x
      | |- safe (read_n _ _) => apply safe_read_n
      end ].
Ltac safe_solve := cbv beta zeta; repeat (safe_step; cbv beta zeta iota).

(** A list of items, read and written one after the other. *)
Lemma read_n_reads {A B} (p : reader B) (g : A -> bytes) (h : A -> B) l :
  Forall (fun a => reads p (g a) (h a)) l ->
  reads (read_n (length l) p) (concat (map g l)) (map h l).
Proof.
  induction 1 as [|a l Ha _ IH]; simpl; [apply reads_ret|].
  eapply reads_bind; [exact Ha|]. eapply reads_bind_nil; [exact IH|]. apply reads_ret.
Qed.

Lemma read_n_reads_id {A} (p : reader A) (g : A -> bytes) l :
  Forall (fun a => reads p (g a) a) l -> reads (read_n (length l) p) (concat (map g l)) l.
Proof. intros H. rewrite <-(map_id l) at 3. by apply read_n_reads. Qed.

Lemma read_n_accepts {A} (p : reader A) (w : A -> writer) (P : A -> Prop) n inp l rest :
  accepts p w P -> read_n n p inp = Ok (l, rest) ->
  length l = n /\ Forall P l /\ exists bs, writes (wlist w l) bs /\ inp = bs ++ rest.
Proof.
  intros Hp. revert inp l rest.
  induction n as [|n IH]; intros inp l rest H; simpl in H.
  - injection H as <- <-. split_and!; [done|done|]. exists []. split; [apply writes_nil|done].
  - apply reader_bind_ok in H as (a & mid & Ha & H).
    apply reader_bind_ok in H as (l' & mid' & Hl & H). injection H as <- <-.
    destruct (Hp _ _ _ Ha) as (? & bs1 & Hw1 & ->).
    destruct (IH _ _ _ Hl) as (<- & ? & bs2 & Hw2 & ->).
    split_and!; [done|by constructor|]. exists (bs1 ++ bs2).
    split; [by apply writes_seq|by rewrite app_assoc].
Qed.

(** * A writer and the reader that gives a value back

    [codes w r v]: [w] succeeds, and [r] reads [v] from what it wrote, consuming
    exactly that.  The relation follows the structure of an encoder and of its
    decoder. *)
Definition codes {A} (w : writer) (r : reader A) (v : A) : Prop :=
  exists bs, writes w bs /\ reads r bs v.

Section codes.
Context {A B : Type}.

Lemma codes_nil (a : A) : codes write_nil (mret a) a.
Proof. exists []. split; [apply writes_nil|apply reads_ret]. Qed.

Lemma codes_bind w1 w2 (r : reader A) (k : A -> reader B) a b :
  codes w1 r a -> codes w2 (k a) b -> codes (w1 +++ w2) (r ≫= k) b.
Proof.
  intros (b1 & Hw1 & Hr1) (b2 & Hw2 & Hr2). exists (b1 ++ b2).
  split; [by apply writes_seq|by eapply reads_bind].
Qed.

(** The last item of a sequence. *)
Lemma codes_last w (r : reader A) (k : A -> reader B) a b :
  codes w r a -> k a = mret b -> codes w (r ≫= k) b.
Proof.
  intros (bs & Hw & Hr) Hk. exists bs. split; [done|].
  eapply reads_bind_nil; [exact Hr|]. rewrite Hk. apply reads_ret.
Qed.

(** A reader that consumes nothing, where the writer has nothing to write. *)
Lemma codes_skip w (a : A) (k : A -> reader B) b :
  codes w (k a) b -> codes w (mret a ≫= k) b.
Proof. done. Qed.

Lemma codes_guard w (limit c : Z) (e : reader A) r v :
  c <= limit -> codes w r v -> codes w (if limit <? c then e else r) v.
Proof. intros. by rewrite (proj2 (Z.ltb_ge _ _)). Qed.

Lemma codes_wguard w (limit c : Z) e (r : reader A) v :
  c <= limit -> codes w r v -> codes (if limit <? c then e else w) r v.
Proof. intros. by rewrite (proj2 (Z.ltb_ge _ _)). Qed.
End codes.

Lemma codes_wbytes {A} w (r : reader A) v : codes w r v -> snd w = None /\ reads r (wbytes w) v.
Proof. intros (bs & [? <-] & Hr). done. Qed.

Lemma codes_read_n {A B} (w : A -> writer) (r : reader B) (h : A -> B) l n :
  n = length l -> Forall (fun a => codes (w a) r (h a)) l -> codes (wlist w l) (read_n n r) (map h l).
Proof.
  intros -> Hl. exists (concat (map (fun a => wbytes (w a)) l)). split.
  - apply writes_list. eapply Forall_impl; [exact Hl|]. intros a [? ?]%codes_wbytes. by split.
  - apply read_n_reads. eapply Forall_impl; [exact Hl|]. by intros a []%codes_wbytes.
Qed.

Lemma codes_codec `{WireCodec A} a : codec_dom a -> codes (codec_write a) codec_read (codec_norm a).
Proof. exists (codec_bytes a). split; [by apply codec_writes|by apply codec_reads]. Qed.

#[export] Hint Resolve reads_ret writes_nil writes_write ReadFull_reads : wire.

(** Splits a successful run of a chain of readers into its steps. *)
Ltac reader_inv H :=
  lazymatch type of H with
  | (mbind _ _) _ = Ok (_, _) =>
      let a := fresh "a" in let mid := fresh "mid" in let H1 := fresh "Hr" in
      apply reader_bind_ok in H as (a & mid & H1 & H); reader_inv H
  | _ => idtac
  end.
