(* ===== verification/Big.v ===== *)
(** The parts of math/big the program uses on byte strings: the conversions of a
    nonnegative integer to and from its big-endian bytes. *)

From S2P Require Import Prelude.

(** math/big: [Int.Bytes] is the absolute value, big-endian, without leading
    zeros; [Int.SetBytes] reads it back. *)
Definition big_Bytes (v : Z) : bytes :=
  if v =? 0 then [] else rev (le_split (Z.to_nat (Z.log2 (Z.abs v) / 8 + 1)) (Z.abs v)).
Definition big_SetBytes (buf : bytes) : Z := le_combine (rev buf).

Definition big_size (v : Z) : nat := if v =? 0 then O else Z.to_nat (Z.log2 v / 8 + 1).

Lemma big_size_fits v : 0 <= v -> is_uint (8 * Z.of_nat (big_size v)) v.
Proof.
  intros Hv. unfold big_size, is_uint. destruct (Z.eqb_spec v 0) as [->|]; [done|].
  split; [done|]. pose proof (Z.log2_nonneg v). pose proof (Z.log2_spec v) as [_ Hs]; [lia|].
  eapply Z.lt_le_trans; [exact Hs|]. apply Z.pow_le_mono_r; [lia|].
  pose proof (Z.div_pos (Z.log2 v) 8). rewrite Z2Nat.id by lia.
  Z.to_euclidean_division_equations; lia.
Qed.

Lemma big_SetBytes_Bytes v : 0 <= v -> big_SetBytes (big_Bytes v) = v.
Proof.
  intros Hv. pose proof (big_size_fits v Hv) as Hf.
  unfold big_SetBytes, big_Bytes, big_size in *. rewrite Z.abs_eq by done.
  destruct (Z.eqb_spec v 0) as [->|]; [done|]. rewrite rev_involutive.
  by apply le_combine_split_id.
Qed.

Lemma big_Bytes_len n : 0 < n ->
  len (big_Bytes n) = Z.log2 n / 8 + 1 /\
  2 ^ (8 * (len (big_Bytes n) - 1)) <= n < 2 ^ (8 * len (big_Bytes n)).
Proof.
  intros Hn. unfold big_Bytes, len. rewrite (proj2 (Z.eqb_neq n 0)), Z.abs_eq by lia.
  rewrite length_rev, length_le_split. pose proof (Z.log2_nonneg n).
  pose proof (Z.div_pos (Z.log2 n) 8). rewrite Z2Nat.id by lia. split; [done|].
  pose proof (Z.log2_spec n Hn) as [Hlo Hhi].
  pose proof (Z.div_mod (Z.log2 n) 8). pose proof (Z.mod_pos_bound (Z.log2 n) 8). split.
  - eapply Z.le_trans; [|exact Hlo]. apply Z.pow_le_mono_r; lia.
  - eapply Z.lt_le_trans; [exact Hhi|]. apply Z.pow_le_mono_r; lia.
Qed.

Lemma big_len_unique n k : 0 < n -> 1 <= k -> 2 ^ (8 * (k - 1)) <= n < 2 ^ (8 * k) ->
  len (big_Bytes n) = k.
Proof.
  intros Hn Hk [Hlo Hhi]. destruct (big_Bytes_len n Hn) as [-> _].
  apply Z.log2_le_pow2 in Hlo; [|lia]. apply Z.log2_lt_pow2 in Hhi; [|lia].
  assert (Z.log2 n / 8 = k - 1); [|lia].
  symmetry. apply Z.div_unique with (Z.log2 n - 8 * (k - 1)); lia.
Qed.

Lemma big_Bytes_le v n : 0 <= v < 2 ^ (8 * n) -> 0 <= n -> len (big_Bytes v) <= n.
Proof.
  intros Hv Hn. destruct (decide (v = 0)) as [->|Hz]; [done|].
  destruct (big_Bytes_len v) as [_ [Hlo _]]; [lia|].
  assert (8 * (len (big_Bytes v) - 1) < 8 * n); [|lia].
  apply (Z.pow_lt_mono_r_iff 2); lia.
Qed.

Lemma replicate_repeat {A} k (x : A) : replicate k x = repeat x k.
Proof. induction k; cbn; congruence. Qed.

(** Leading zeros do not matter. *)
Lemma big_SetBytes_zeros k b : big_SetBytes (replicate k Byte.x00 ++ b) = big_SetBytes b.
Proof.
  unfold big_SetBytes. rewrite rev_app_distr, replicate_repeat, rev_repeat. apply le_combine_app_0.
Qed.

Lemma big_SetBytes_range b : 0 <= big_SetBytes b < 2 ^ (8 * len b).
Proof.
  unfold big_SetBytes. pose proof (le_combine_is_uint (rev b)) as H. unfold is_uint, len in *.
  by rewrite length_rev in H.
Qed.

(** Two strings of one length with one value are equal. *)
Lemma big_SetBytes_inj b c : len b = len c -> big_SetBytes b = big_SetBytes c -> b = c.
Proof.
  unfold big_SetBytes, len. intros Hl E. apply le_combine_inj in E; [|rewrite !length_rev; lia].
  apply (f_equal (@rev _)) in E. by rewrite !rev_involutive in E.
Qed.
