(* ===== verification/WireEncoding.v ===== *)
(** The primitive wire encoding: types/wire/encoder.list.go (the integer
    serializer) and types/wire/encoder.go (elements, variable length integers,
    byte strings and inventory vectors), with their round trips.

    The free list of buffers that [binaryFreeList] borrows from only recycles
    memory: every buffer is overwritten before it is read, so a call is the
    read or the write of the integer.  The protocol version argument [pver] of
    the source is not used by any of these functions and is left out. *)

From S2P Require Import Prelude.

(** * encoder.list.go: BinarySerializer *)

Inductive byteOrder := littleEndian | bigEndian.

Definition bo_put (o : byteOrder) (n : nat) (v : Z) : bytes :=
  match o with littleEndian => le_split n v | bigEndian => rev (le_split n v) end.
Definition bo_get (o : byteOrder) (bs : bytes) : Z :=
  match o with littleEndian => le_combine bs | bigEndian => le_combine (rev bs) end.

Definition Uint8 : reader Z := buf ← ReadFull 1; mret (le_combine buf).
Definition Uint16 (o : byteOrder) : reader Z := buf ← ReadFull 2; mret (bo_get o buf).
Definition Uint32 (o : byteOrder) : reader Z := buf ← ReadFull 4; mret (bo_get o buf).
Definition Uint64 (o : byteOrder) : reader Z := buf ← ReadFull 8; mret (bo_get o buf).

Definition PutUint8 (v : Z) : writer := write (le_split 1 v).
Definition PutUint16 (o : byteOrder) (v : Z) : writer := write (bo_put o 2 v).
Definition PutUint32 (o : byteOrder) (v : Z) : writer := write (bo_put o 4 v).
Definition PutUint64 (o : byteOrder) (v : Z) : writer := write (bo_put o 8 v).

(** * encoder.go: elements

    The dynamic types on which [ReadElement] and [WriteElement] switch.
    [T_named n] is an integer of [n] bytes whose named type has no case of its
    own ([BVersion], [FilterType], a pointer on the writing side): it goes
    through encoding/binary, as does [T_array n], an array [[n]byte]. *)
Inductive elem_type :=
| T_uint8 | T_int32 | T_uint32 | T_int64 | T_uint64 | T_bool
| T_Uint32Time | T_Int64Time | T_Hash
| T_ServiceFlag | T_InvType | T_JaxNet | T_BloomUpdateType | T_RejectCode
| T_slice
| T_named (signed : bool) (n : nat)
| T_array (n : nat).

(** [time.Time] values are their Unix seconds. *)
Definition elem_val (t : elem_type) : Type :=
  match t with
  | T_bool => bool
  | T_Hash | T_slice | T_array _ => bytes
  | _ => Z
  end.

Definition HashSize : Z := 32.

(** encoding/binary's [Read] and [Write] on the types that reach them. *)
Definition binary_Read (t : elem_type) : reader (elem_val t) :=
  match t return reader (elem_val t) with
  | T_uint8 => buf ← ReadFull 1; mret (le_combine buf)
  | T_named false n => buf ← ReadFull (Z.of_nat n); mret (le_combine buf)
  | T_named true n => buf ← ReadFull (Z.of_nat n); mret (swrap (8 * Z.of_nat n) (le_combine buf))
  | T_array n => ReadFull (Z.of_nat n)
  | _ => read_fail (errorString "binary.Read: invalid type")
  end.

Definition binary_Write (t : elem_type) : elem_val t -> writer :=
  match t return elem_val t -> writer with
  | T_named _ n => fun v => write (le_split n v)
  | T_array _ => fun v => write v
  | _ => fun _ => write_fail (errorString "binary.Write: invalid type")
  end.

(** The case of [*uint8] stores the byte and leaves the switch without
    returning, so that [binary.Read] runs on the same element after it. *)
Definition ReadElement (t : elem_type) : reader (elem_val t) :=
  match t return reader (elem_val t) with
  | T_uint8 => rv ← Uint8; binary_Read T_uint8
  | T_int32 => rv ← Uint32 littleEndian; mret (swrap 32 rv)
  | T_uint32 => Uint32 littleEndian
  | T_int64 => rv ← Uint64 littleEndian; mret (swrap 64 rv)
  | T_uint64 => Uint64 littleEndian
  | T_bool => rv ← Uint8; mret (negb (rv =? 0))
  | T_Uint32Time => rv ← Uint32 littleEndian; mret (swrap 64 rv)
  | T_Int64Time => rv ← Uint64 littleEndian; mret (swrap 64 rv)
  | T_Hash => ReadFull HashSize
  | T_ServiceFlag => Uint64 littleEndian
  | T_InvType => Uint32 littleEndian
  | T_JaxNet => Uint32 littleEndian
  | T_BloomUpdateType => Uint8
  | T_RejectCode => Uint8
  | T_slice => length ← Uint32 littleEndian; ReadFull length
  | T_named s n => binary_Read (T_named s n)
  | T_array n => binary_Read (T_array n)
  end.

Definition WriteElement (t : elem_type) : elem_val t -> writer :=
  match t return elem_val t -> writer with
  | T_uint8 => fun e => PutUint8 e
  | T_int32 => fun e => PutUint32 littleEndian (uwrap 32 e)
  | T_uint32 => fun e => PutUint32 littleEndian e
  | T_int64 => fun e => PutUint64 littleEndian (uwrap 64 e)
  | T_uint64 => fun e => PutUint64 littleEndian e
  | T_bool => fun e => if e then PutUint8 1 else PutUint8 0
  | T_Uint32Time => binary_Write T_Uint32Time
  | T_Int64Time => binary_Write T_Int64Time
  | T_Hash => fun e => write e
  | T_ServiceFlag => fun e => PutUint64 littleEndian e
  | T_InvType => fun e => PutUint32 littleEndian e
  | T_JaxNet => fun e => PutUint32 littleEndian e
  | T_BloomUpdateType => fun e => PutUint8 e
  | T_RejectCode => fun e => PutUint8 e
  | T_slice => fun e => PutUint32 littleEndian (uwrap 32 (len e)) +++ write e
  | T_named s n => binary_Write (T_named s n)
  | T_array n => binary_Write (T_array n)
  end.

(** The variadic versions: the values as a nested tuple that ends in [tt]. *)
Fixpoint elems_val (ts : list elem_type) : Type :=
  match ts with [] => unit | t :: ts => (elem_val t * elems_val ts)%type end.

Fixpoint ReadElements (ts : list elem_type) : reader (elems_val ts) :=
  match ts return reader (elems_val ts) with
  | [] => mret tt
  | t :: ts => e ← ReadElement t; es ← ReadElements ts; mret (e, es)
  end.

Fixpoint WriteElements (ts : list elem_type) : elems_val ts -> writer :=
  match ts return elems_val ts -> writer with
  | [] => fun _ => write_nil
  | t :: ts => fun '(e, es) => WriteElement t e +++ WriteElements ts es
  end.

(** * encoder.go: variable length integers and byte strings *)

Definition errNonCanonicalVarInt : go_error := MessageError "ReadVarInt" "non-canonical varint".

Definition ReadVarInt : reader Z :=
  discriminant ← Uint8;
  if discriminant =? 0xff then
    rv ← Uint64 littleEndian;
    if rv <? 0x100000000 then read_fail errNonCanonicalVarInt else mret rv
  else if discriminant =? 0xfe then
    rv ← Uint32 littleEndian;
    if rv <? 0x10000 then read_fail errNonCanonicalVarInt else mret rv
  else if discriminant =? 0xfd then
    rv ← Uint16 littleEndian;
    if rv <? 0xfd then read_fail errNonCanonicalVarInt else mret rv
  else mret discriminant.

Definition MaxUint16 : Z := 2 ^ 16 - 1.
Definition MaxUint32 : Z := 2 ^ 32 - 1.

Definition WriteVarInt (val : Z) : writer :=
  if val <? 0xfd then PutUint8 (uwrap 8 val)
  else if val <=? MaxUint16 then PutUint8 0xfd +++ PutUint16 littleEndian (uwrap 16 val)
  else if val <=? MaxUint32 then PutUint8 0xfe +++ PutUint32 littleEndian (uwrap 32 val)
  else PutUint8 0xff +++ PutUint64 littleEndian val.

Definition VarIntSerializeSize (val : Z) : Z :=
  if val <? 0xfd then 1
  else if val <=? MaxUint16 then 3
  else if val <=? MaxUint32 then 5
  else 9.

(** message.go: const MaxMessagePayload. *)
Definition MaxMessagePayload : Z := 1024 * 1024 * 1024 * 2 - 1.

Definition ReadVarString : reader bytes :=
  count ← ReadVarInt;
  if MaxMessagePayload <? count
  then read_fail (MessageError "ReadVarString" "variable length string is too long")
  else ReadFull count.

Definition WriteVarString (str : bytes) : writer :=
  WriteVarInt (len str) +++ write str.

Definition ReadVarBytes (maxAllowed : Z) (fieldName : string) : reader bytes :=
  count ← ReadVarInt;
  if maxAllowed <? count
  then read_fail (MessageError "ReadVarBytes"
                    (fieldName +:+ " is larger than the max allowed size"))
  else ReadFull count.

Definition WriteVarBytes (bs : bytes) : writer :=
  WriteVarInt (len bs) +++ write bs.

(** [randomUint64] of a reader of random bytes. *)
Definition randomUint64 : reader Z := Uint64 bigEndian.

(** invvect.go and the inventory vectors of encoder.go *)
Record InvVect := { Iv_Type : Z; Iv_Hash : bytes }.

Definition ReadInvVect : reader InvVect :=
  '(ty, (h, _)) ← ReadElements [T_InvType; T_Hash];
  mret {| Iv_Type := ty; Iv_Hash := h |}.

Definition WriteInvVect (iv : InvVect) : writer :=
  WriteElements [T_InvType; T_Hash] (Iv_Type iv, (Iv_Hash iv, tt)).

(** * Integers *)

Lemma bo_get_put o n v : is_uint (8 * Z.of_nat n) v -> bo_get o (bo_put o n v) = v.
Proof.
  intros; destruct o; unfold bo_put, bo_get; rewrite ?rev_involutive; by apply le_combine_split_id.
Qed.

Lemma bo_put_get o n bs : length bs = n -> bo_put o n (bo_get o bs) = bs.
Proof.
  intros <-; destruct o; unfold bo_put, bo_get; [by apply split_le_combine|].
  rewrite <-(length_rev bs), split_le_combine. apply rev_involutive.
Qed.

Lemma len_bo_put o n v : len (bo_put o n v) = Z.of_nat n.
Proof. unfold len; destruct o; unfold bo_put, bo_get; by rewrite ?length_rev, length_le_split. Qed.

Lemma bo_get_is_uint o bs : is_uint (8 * len bs) (bo_get o bs).
Proof.
  unfold len; destruct o; unfold bo_put, bo_get; [apply le_combine_bound|].
  rewrite <-length_rev. apply le_combine_bound.
Qed.

#[export] Hint Rewrite len_bo_put : len.

(** The shape of all the fixed width readers. *)
Definition uint_reader (o : byteOrder) (n : nat) : reader Z :=
  buf ← ReadFull (Z.of_nat n); mret (bo_get o buf).

Lemma uint_reader_reads o n v :
  is_uint (8 * Z.of_nat n) v -> reads (uint_reader o n) (bo_put o n v) v.
Proof.
  intros H. eapply reads_bind_nil; [apply ReadFull_reads'; by rewrite len_bo_put|].
  rewrite bo_get_put by done. apply reads_ret.
Qed.

Lemma uint_reader_ok o n inp v rest :
  uint_reader o n inp = Ok (v, rest) ->
  is_uint (8 * Z.of_nat n) v /\ inp = bo_put o n v ++ rest.
Proof.
  intros H. apply reader_bind_ok in H as (bs & mid & Hr & H). injection H as <- <-.
  apply ReadFull_ok in Hr as [Hl ->]; [|lia].
  pose proof (bo_get_is_uint o bs) as Hu. rewrite Hl in Hu.
  split; [done|]. f_equal. symmetry. apply bo_put_get. unfold len in Hl; lia.
Qed.

Lemma Uint8_reads v : is_uint 8 v -> reads Uint8 (le_split 1 v) v.
Proof. apply (uint_reader_reads littleEndian 1). Qed.
Lemma Uint16_reads o v : is_uint 16 v -> reads (Uint16 o) (bo_put o 2 v) v.
Proof. apply (uint_reader_reads o 2). Qed.
Lemma Uint32_reads o v : is_uint 32 v -> reads (Uint32 o) (bo_put o 4 v) v.
Proof. apply (uint_reader_reads o 4). Qed.
Lemma Uint64_reads o v : is_uint 64 v -> reads (Uint64 o) (bo_put o 8 v) v.
Proof. apply (uint_reader_reads o 8). Qed.
#[export] Hint Resolve Uint8_reads Uint16_reads Uint32_reads Uint64_reads : wire.

Lemma Uint8_ok inp v rest :
  Uint8 inp = Ok (v, rest) -> is_uint 8 v /\ inp = le_split 1 v ++ rest.
Proof. apply (uint_reader_ok littleEndian 1). Qed.
Lemma Uint16_ok o inp v rest :
  Uint16 o inp = Ok (v, rest) -> is_uint 16 v /\ inp = bo_put o 2 v ++ rest.
Proof. apply (uint_reader_ok o 2). Qed.
Lemma Uint32_ok o inp v rest :
  Uint32 o inp = Ok (v, rest) -> is_uint 32 v /\ inp = bo_put o 4 v ++ rest.
Proof. apply (uint_reader_ok o 4). Qed.
Lemma Uint64_ok o inp v rest :
  Uint64 o inp = Ok (v, rest) -> is_uint 64 v /\ inp = bo_put o 8 v ++ rest.
Proof. apply (uint_reader_ok o 8). Qed.

(** * Variable length integers *)

(** The bytes of a variable length integer. *)
Definition varint_bytes (v : Z) : bytes := wbytes (WriteVarInt v).

Lemma WriteVarInt_writes v : writes (WriteVarInt v) (varint_bytes v).
Proof. split; [|done]. unfold WriteVarInt. by repeat case_match. Qed.

Lemma len_varint_bytes v : len (varint_bytes v) = VarIntSerializeSize v.
Proof.
  unfold varint_bytes, WriteVarInt, VarIntSerializeSize.
  repeat case_match; unfold wbytes, PutUint8, PutUint16, PutUint32, PutUint64, wseq, write;
    simpl concat; len_solve.
Qed.
#[export] Hint Rewrite len_varint_bytes : len.

(** The encoding, one equation per branch of the writer. *)
Lemma varint_bytes_eq v : is_uint 64 v ->
  varint_bytes v =
    if v <? 0xfd then le_split 1 v
    else if v <=? MaxUint16 then le_split 1 0xfd ++ le_split 2 v
    else if v <=? MaxUint32 then le_split 1 0xfe ++ le_split 4 v
    else le_split 1 0xff ++ le_split 8 v.
Proof.
  intros [Hlo Hhi]. unfold varint_bytes, WriteVarInt, MaxUint16, MaxUint32.
  destruct (Z.ltb_spec v 0xfd), (Z.leb_spec v (2 ^ 16 - 1)), (Z.leb_spec v (2 ^ 32 - 1));
    unfold wbytes, PutUint8, PutUint16, PutUint32, PutUint64, write, wseq, bo_put; simpl concat;
    rewrite ?app_nil_r; try done; rewrite ?uwrap_id by (unfold is_uint; lia); done.
Qed.

Lemma ReadVarInt_reads v : is_uint 64 v -> reads ReadVarInt (varint_bytes v) v.
Proof.
  intros Hv. rewrite varint_bytes_eq by done. destruct Hv as [Hlo Hhi].
  unfold MaxUint16, MaxUint32, ReadVarInt.
  destruct (Z.ltb_spec v 0xfd); [|destruct (Z.leb_spec v (2 ^ 16 - 1));
    [|destruct (Z.leb_spec v (2 ^ 32 - 1))]].
  - eapply reads_bind_nil; [apply Uint8_reads; unfold is_uint; lia|].
    rewrite !(proj2 (Z.eqb_neq _ _)) by lia. apply reads_ret.
  - eapply reads_bind; [apply Uint8_reads; unfold is_uint; lia|]. simpl.
    eapply reads_bind_nil; [apply (Uint16_reads littleEndian); unfold is_uint; lia|].
    rewrite (proj2 (Z.ltb_ge _ _)) by lia. apply reads_ret.
  - eapply reads_bind; [apply Uint8_reads; unfold is_uint; lia|]. simpl.
    eapply reads_bind_nil; [apply (Uint32_reads littleEndian); unfold is_uint; lia|].
    rewrite (proj2 (Z.ltb_ge _ _)) by lia. apply reads_ret.
  - eapply reads_bind; [apply Uint8_reads; unfold is_uint; lia|]. simpl.
    eapply reads_bind_nil; [apply (Uint64_reads littleEndian); unfold is_uint; lia|].
    rewrite (proj2 (Z.ltb_ge _ _)) by lia. apply reads_ret.
Qed.
#[export] Hint Resolve ReadVarInt_reads WriteVarInt_writes : wire.

Lemma ReadVarInt_ok inp v rest :
  ReadVarInt inp = Ok (v, rest) -> is_uint 64 v /\ inp = varint_bytes v ++ rest.
Proof.
  intros H. unfold ReadVarInt in H. apply reader_bind_ok in H as (d & mid & Hd & H).
  apply Uint8_ok in Hd as [[Hd0 Hd1] ->].
  destruct (Z.eqb_spec d 0xff) as [->|]; [|destruct (Z.eqb_spec d 0xfe) as [->|];
    [|destruct (Z.eqb_spec d 0xfd) as [->|]]].
  1: apply reader_bind_ok in H as (w & mid' & Hw & H); apply Uint64_ok in Hw as [[? ?] ->].
  2: apply reader_bind_ok in H as (w & mid' & Hw & H); apply Uint32_ok in Hw as [[? ?] ->].
  3: apply reader_bind_ok in H as (w & mid' & Hw & H); apply Uint16_ok in Hw as [[? ?] ->].
  1-3: case_match eqn:Hmin; [done|]; apply Z.ltb_ge in Hmin.
  all: injection H as <- <-; (split; [unfold is_uint; lia|]);
    rewrite varint_bytes_eq by (unfold is_uint; lia); unfold MaxUint16, MaxUint32.
  all: repeat case_match; rewrite ?Z.ltb_lt, ?Z.ltb_ge, ?Z.leb_le, ?Z.leb_gt in *; try lia;
    by rewrite ?app_assoc.
Qed.

(** * Elements *)

(** The values an element of type [t] takes, for the types that [WriteElement]
    can write and [ReadElement] reads back. *)
Definition elem_dom (t : elem_type) : elem_val t -> Prop :=
  match t return elem_val t -> Prop with
  | T_uint8 | T_Uint32Time | T_Int64Time => fun _ => False
  | T_int32 => is_int 32
  | T_uint32 | T_InvType | T_JaxNet => is_uint 32
  | T_int64 => is_int 64
  | T_uint64 | T_ServiceFlag => is_uint 64
  | T_bool => fun _ => True
  | T_Hash => fun h => len h = HashSize
  | T_BloomUpdateType | T_RejectCode => is_uint 8
  | T_slice => fun bs => is_uint 32 (len bs)
  | T_named false n => is_uint (8 * Z.of_nat n)
  | T_named true n => fun v => (0 < n)%nat /\ is_int (8 * Z.of_nat n) v
  | T_array n => fun bs => len bs = Z.of_nat n
  end.

Definition elem_bytes (t : elem_type) (v : elem_val t) : bytes := wbytes (WriteElement t v).

Lemma WriteElement_writes t v : elem_dom t v -> writes (WriteElement t v) (elem_bytes t v).
Proof. intros H. split; [|done]. by destruct t, v. Qed.

(** The bytes of a signed integer of [n] bytes, and reading them back. *)
Lemma le_split_uwrap n v : le_split n (uwrap (8 * Z.of_nat n) v) = le_split n v.
Proof.
  rewrite (le_split_mod v). unfold uwrap. by rewrite (Z.mul_comm 8).
Qed.

Lemma swrap_le_combine n v :
  0 < n -> is_int (8 * n) v ->
  swrap (8 * n) (le_combine (le_split (Z.to_nat n) v)) = v.
Proof.
  intros Hn Hv. rewrite le_combine_split, Z2Nat.id, (Z.mul_comm n) by lia.
  fold (uwrap (8 * n) v). rewrite swrap_uwrap by lia. apply swrap_id; [lia|done].
Qed.

Lemma reads_signed (n : nat) v :
  (0 < n)%nat -> is_int (8 * Z.of_nat n) v ->
  reads (buf ← ReadFull (Z.of_nat n); mret (swrap (8 * Z.of_nat n) (le_combine buf)))
        (le_split n v) v.
Proof.
  intros Hn Hv. eapply reads_bind_nil; [apply ReadFull_reads'; by rewrite len_le_split|].
  rewrite <-(Nat2Z.id n) at 2. rewrite swrap_le_combine by (done || lia). apply reads_ret.
Qed.

Lemma reads_sign_conv w (r : reader Z) bs v :
  0 < w -> is_int w v -> reads r bs (uwrap w v) -> reads (rv ← r; mret (swrap w rv)) bs v.
Proof.
  intros Hw Hv Hr. eapply reads_bind_nil; [exact Hr|].
  rewrite swrap_uwrap, swrap_id by done. apply reads_ret.
Qed.

Lemma ReadElement_reads t v :
  elem_dom t v -> reads (ReadElement t) (elem_bytes t v) v.
Proof.
  unfold elem_bytes; intros H; destruct t; cbn [WriteElement binary_Write];
    unfold PutUint8, PutUint32, PutUint64; rewrite ?wbytes_write_seq, ?wbytes_write;
    cbn [elem_dom ReadElement] in *; try done; auto with wire.
  - apply reads_sign_conv; [lia|done|]. apply (Uint32_reads littleEndian). by apply uwrap_range.
  - apply reads_sign_conv; [lia|done|]. apply (Uint64_reads littleEndian). by apply uwrap_range.
  - destruct v; rewrite wbytes_write; (eapply reads_bind_nil;
      [apply Uint8_reads; unfold is_uint; lia|apply reads_ret]).
  - by apply ReadFull_reads'.
  - rewrite uwrap_id by done. eapply reads_bind; [by apply (Uint32_reads littleEndian)|].
    apply ReadFull_reads.
  - destruct signed; simpl.
    + destruct H. by apply reads_signed.
    + by apply (uint_reader_reads littleEndian n).
  - by apply ReadFull_reads'.
Qed.

Fixpoint elems_dom (ts : list elem_type) : elems_val ts -> Prop :=
  match ts return elems_val ts -> Prop with
  | [] => fun _ => True
  | t :: ts => fun '(e, es) => elem_dom t e /\ elems_dom ts es
  end.

Fixpoint elems_bytes (ts : list elem_type) : elems_val ts -> bytes :=
  match ts return elems_val ts -> bytes with
  | [] => fun _ => []
  | t :: ts => fun '(e, es) => elem_bytes t e ++ elems_bytes ts es
  end.

Lemma WriteElements_writes ts es :
  elems_dom ts es -> writes (WriteElements ts es) (elems_bytes ts es).
Proof.
  induction ts as [|t ts IH]; simpl; [intros; apply writes_nil|].
  destruct es as [e es]; intros [? ?]. apply writes_seq; [by apply WriteElement_writes|auto].
Qed.

Lemma ReadElements_reads ts es :
  elems_dom ts es -> reads (ReadElements ts) (elems_bytes ts es) es.
Proof.
  induction ts as [|t ts IH]; simpl; [destruct es; intros; apply reads_ret|].
  destruct es as [e es]; intros [? ?].
  eapply reads_bind; [by apply ReadElement_reads|].
  eapply reads_bind_nil; [by apply IH|]. apply reads_ret.
Qed.

(** The two lemmas with the element types read off the goal. *)
Ltac elems_reads :=
  lazymatch goal with
  | |- reads (ReadElements ?ts) (elems_bytes _ ?es) _ => apply (ReadElements_reads ts es)
  | |- reads (ReadElement ?t) (elem_bytes _ ?e) _ => apply (ReadElement_reads t e)
  end.

(** The size of an element, none for a slice. *)
Definition elem_size (t : elem_type) : option Z :=
  match t with
  | T_uint8 | T_bool | T_BloomUpdateType | T_RejectCode => Some 1
  | T_int32 | T_uint32 | T_Uint32Time | T_InvType | T_JaxNet => Some 4
  | T_int64 | T_uint64 | T_Int64Time | T_ServiceFlag => Some 8
  | T_Hash => Some HashSize
  | T_slice => None
  | T_named _ n | T_array n => Some (Z.of_nat n)
  end.

Lemma len_elem_bytes t v n : elem_dom t v -> elem_size t = Some n -> len (elem_bytes t v) = n.
Proof.
  unfold elem_bytes; intros Hd Hs; destruct t; cbn [WriteElement binary_Write elem_size] in *;
    try done; injection Hs as <-; unfold PutUint8, PutUint32, PutUint64;
    rewrite ?wbytes_write, ?len_bo_put, ?len_le_split; try done.
  by destruct v; rewrite wbytes_write, len_le_split.
Qed.

Fixpoint elems_size (ts : list elem_type) : option Z :=
  match ts with
  | [] => Some 0
  | t :: ts => match elem_size t, elems_size ts with Some a, Some b => Some (a + b) | _, _ => None end
  end.

Lemma len_elems_bytes ts es n : elems_dom ts es -> elems_size ts = Some n -> len (elems_bytes ts es) = n.
Proof.
  revert n. induction ts as [|t ts IH]; intros n Hd Hn; cbn [elems_size elems_bytes elems_dom] in *.
  - by injection Hn as <-.
  - destruct es as [e es], Hd as [He Hes]. destruct (elem_size t) eqn:E; [|done].
    destruct (elems_size ts); [|done]. injection Hn as <-.
    rewrite len_app, (len_elem_bytes t e _ He E). f_equal. by apply IH.
Qed.

(** What [ReadElement] accepts.  A boolean is read from any byte, and a named
    time type is never written, so they are left out. *)
Definition elem_canonical (t : elem_type) : bool :=
  match t with
  | T_uint8 | T_bool | T_Uint32Time | T_Int64Time | T_named true O => false
  | _ => true
  end.

Lemma ReadElement_ok t inp v rest :
  elem_canonical t = true -> ReadElement t inp = Ok (v, rest) ->
  elem_dom t v /\ inp = elem_bytes t v ++ rest.
Proof.
  unfold elem_bytes; intros Hc H; destruct t; cbn [WriteElement binary_Write];
    unfold PutUint8, PutUint32, PutUint64; rewrite ?wbytes_write_seq, ?wbytes_write;
    cbn [elem_dom ReadElement elem_canonical] in *; try done; try by apply Uint8_ok in H || apply Uint32_ok in H || apply Uint64_ok in H.
  - apply reader_bind_ok in H as (a & mid & Hr & H). injection H as <- <-.
    apply Uint32_ok in Hr as [? ->]. split; [by apply swrap_range|].
    by rewrite uwrap_swrap, uwrap_id by done.
  - apply reader_bind_ok in H as (a & mid & Hr & H). injection H as <- <-.
    apply Uint64_ok in Hr as [? ->]. split; [by apply swrap_range|].
    by rewrite uwrap_swrap, uwrap_id by done.
  - by apply ReadFull_ok in H.
  - apply reader_bind_ok in H as (a & mid & Hr & H).
    apply Uint32_ok in Hr as [Ha ->]. apply ReadFull_ok in H as [<- ->]; [|apply Ha].
    split; [done|]. by rewrite uwrap_id, app_assoc by done.
  - destruct signed; simpl in H.
    + apply reader_bind_ok in H as (bs & mid & Hr & H). injection H as <- <-.
      apply ReadFull_ok in Hr as [Hl ->]; [|lia]. destruct n as [|n]; [done|].
      split; [split; [lia|apply swrap_range; lia]|].
      rewrite <-le_split_uwrap, uwrap_swrap, uwrap_id; [|rewrite <-Hl; apply le_combine_is_uint|lia].
      f_equal. symmetry. apply (bo_put_get littleEndian). unfold len in Hl; lia.
    + by apply (uint_reader_ok littleEndian) in H.
  - by apply ReadFull_ok in H; [|lia].
Qed.

Lemma ReadElements_ok ts inp es rest :
  forallb elem_canonical ts = true -> ReadElements ts inp = Ok (es, rest) ->
  elems_dom ts es /\ inp = elems_bytes ts es ++ rest.
Proof.
  revert inp. induction ts as [|t ts IH]; intros inp Hc H; simpl in *.
  - by injection H as <- <-.
  - apply andb_prop in Hc as [? ?].
    apply reader_bind_ok in H as (e & mid & He & H).
    apply reader_bind_ok in H as (es' & mid' & Hes & H). injection H as <- <-.
    apply ReadElement_ok in He as [? ->]; [|done]. apply IH in Hes as [? ->]; [|done].
    split; [done|]. by rewrite app_assoc.
Qed.

(** * Byte strings *)

Definition varbytes (bs : bytes) : bytes := varint_bytes (len bs) ++ bs.

Lemma WriteVarBytes_writes bs : writes (WriteVarBytes bs) (varbytes bs).
Proof. apply writes_seq; auto with wire. Qed.

(** The two guarded readers of encoder.go and the one of msg_tx.go differ in
    the bound and in the error alone. *)
Definition guarded_bytes (bound : Z) (e : go_error) : reader bytes :=
  count ← ReadVarInt; if bound <? count then read_fail e else ReadFull count.

Lemma guarded_bytes_reads bound e bs :
  len bs <= bound -> is_uint 64 (len bs) -> reads (guarded_bytes bound e) (varbytes bs) bs.
Proof.
  intros. eapply reads_bind; [auto with wire|].
  rewrite (proj2 (Z.ltb_ge _ _)) by done. apply ReadFull_reads.
Qed.

Lemma guarded_bytes_ok bound e inp bs rest :
  guarded_bytes bound e inp = Ok (bs, rest) ->
  len bs <= bound /\ is_uint 64 (len bs) /\ inp = varbytes bs ++ rest.
Proof.
  intros H. apply reader_bind_ok in H as (c & mid & Hc & H).
  apply ReadVarInt_ok in Hc as [Hc ->]. case_match eqn:E; [done|].
  apply Z.ltb_ge in E. apply ReadFull_ok in H as [<- ->]; [|apply Hc].
  split; [done|]. split; [done|]. unfold varbytes. by rewrite app_assoc.
Qed.

Lemma guarded_bytes_too_long bound e c rest :
  is_uint 64 c -> bound < c -> guarded_bytes bound e (varint_bytes c ++ rest) = Err e.
Proof.
  intros Hc Hb. unfold guarded_bytes, mbind, reader_bind.
  rewrite (ReadVarInt_reads c Hc rest). by rewrite (proj2 (Z.ltb_lt _ _)) by done.
Qed.

#[export] Hint Resolve WriteVarBytes_writes WriteElements_writes ReadElements_reads : wire.

(** * Locality of the readers *)

Lemma local_Uint8 : local Uint8.
Proof. unfold Uint8. local_solve. Qed.
Lemma local_Uint16 o : local (Uint16 o).
Proof. unfold Uint16. local_solve. Qed.
Lemma local_Uint32 o : local (Uint32 o).
Proof. unfold Uint32. local_solve. Qed.
Lemma local_Uint64 o : local (Uint64 o).
Proof. unfold Uint64. local_solve. Qed.
#[export] Hint Resolve local_Uint8 local_Uint16 local_Uint32 local_Uint64 : local_db.

Lemma local_binary_Read t : local (binary_Read t).
Proof. destruct t as [| | | | | | | | | | | | | | |[]|]; cbn [binary_Read]; local_solve. Qed.
#[export] Hint Resolve local_binary_Read : local_db.

Lemma local_ReadElement t : local (ReadElement t).
Proof. destruct t; cbn [ReadElement]; local_solve. Qed.
(** The type of the value is known only after the element type is. *)
#[export] Hint Extern 1 (local (ReadElement ?t)) => exact (local_ReadElement t) : local_db.

Lemma local_ReadElements ts : local (ReadElements ts).
Proof. induction ts as [|t ts IH]; cbn [ReadElements]; local_solve. Qed.
Lemma local_ReadVarInt : local ReadVarInt.
Proof. unfold ReadVarInt. local_solve. Qed.
#[export] Hint Resolve local_ReadElements local_ReadVarInt : local_db.

(** * Absence of panics *)

Lemma safe_Uint8 : safe Uint8.
Proof. unfold Uint8. safe_solve. Qed.
Lemma safe_Uint16 o : safe (Uint16 o).
Proof. unfold Uint16. safe_solve. Qed.
Lemma safe_Uint32 o : safe (Uint32 o).
Proof. unfold Uint32. safe_solve. Qed.
Lemma safe_Uint64 o : safe (Uint64 o).
Proof. unfold Uint64. safe_solve. Qed.
#[export] Hint Resolve safe_Uint8 safe_Uint16 safe_Uint32 safe_Uint64 : safe_db.
Lemma safe_binary_Read t : safe (binary_Read t).
Proof. destruct t as [| | | | | | | | | | | | | | |[]|]; cbn [binary_Read]; safe_solve. Qed.
#[export] Hint Resolve safe_binary_Read : safe_db.
Lemma safe_ReadElement t : safe (ReadElement t).
Proof. destruct t; cbn [ReadElement]; safe_solve. Qed.
#[export] Hint Extern 1 (safe (ReadElement ?t)) => exact (safe_ReadElement t) : safe_db.
Lemma safe_ReadElements ts : safe (ReadElements ts).
Proof. induction ts as [|t ts IH]; cbn [ReadElements]; safe_solve. Qed.
#[export] Hint Extern 1 (safe (ReadElements ?ts)) => exact (safe_ReadElements ts) : safe_db.
Lemma safe_ReadVarInt : safe ReadVarInt.
Proof. unfold ReadVarInt. safe_solve. Qed.
#[export] Hint Resolve safe_ReadVarInt : safe_db.
Lemma safe_ReadVarString : safe ReadVarString.
Proof. unfold ReadVarString. safe_solve. Qed.
Lemma safe_ReadVarBytes bound f : safe (ReadVarBytes bound f).
Proof. unfold ReadVarBytes. safe_solve. Qed.
#[export] Hint Resolve safe_ReadVarString safe_ReadVarBytes : safe_db.

(** * Properties *)

(** A 64-bit value written by [WriteVarInt] takes [VarIntSerializeSize]
    bytes and is read back by [ReadVarInt], whatever follows it in the stream. *)
Theorem varint_roundtrip v :
  is_uint 64 v ->
  exists bs, writes (WriteVarInt v) bs /\ len bs = VarIntSerializeSize v /\
             reads ReadVarInt bs v.
Proof.
  intros. exists (varint_bytes v). split_and!; auto with wire. apply len_varint_bytes.
Qed.

Lemma varint_roundtrip_witness :
  is_uint 64 515 /\
  exists bs, writes (WriteVarInt 515) bs /\ len bs = VarIntSerializeSize 515 /\
             reads ReadVarInt bs 515.
Proof. split; [unfold is_uint; lia|apply varint_roundtrip; unfold is_uint; lia]. Defined.

(** Variable length integers are canonical.  What [ReadVarInt] accepts is a
    64-bit value followed by the rest of the stream, and the bytes it consumed
    are the ones [WriteVarInt] writes for that value: no value has a second
    encoding. *)
Theorem varint_canonical : accepts ReadVarInt WriteVarInt (is_uint 64).
Proof.
  intros inp v rest H. apply ReadVarInt_ok in H as [? ->].
  split; [done|]. eauto with wire.
Qed.

(** A sequence of elements written by [WriteElements] is read back by
    [ReadElements] with the same list of types, for all the element types that
    have a writer, integers, booleans, hashes, byte slices and arrays. *)
Theorem elements_roundtrip ts (es : elems_val ts) :
  elems_dom ts es ->
  exists bs, writes (WriteElements ts es) bs /\ reads (ReadElements ts) bs es.
Proof. exists (elems_bytes ts es). auto with wire. Qed.

Lemma elements_roundtrip_witness :
  elems_dom [T_int32; T_bool; T_slice] (-7, (true, (mkbytes [1; 2], tt))) /\
  exists bs, writes (WriteElements [T_int32; T_bool; T_slice] (-7, (true, (mkbytes [1; 2], tt)))) bs
    /\ reads (ReadElements [T_int32; T_bool; T_slice]) bs (-7, (true, (mkbytes [1; 2], tt))).
Proof.
  split; [|apply elements_roundtrip]; repeat split; simpl; unfold is_int, is_uint; vm_compute; done.
Defined.

(** [ReadElement] on a [*uint8] takes two bytes from the stream and stores
    the second one: the case of the type switch does not return, and
    encoding/binary reads the element again.  The byte [WriteElement] wrote for
    the value is lost. *)
Theorem uint8_element_reads_twice v w rest :
  is_uint 8 v -> is_uint 8 w ->
  exists bs, writes (WriteElement T_uint8 v) bs /\ len bs = 1 /\
    ReadElement T_uint8 (bs ++ le_split 1 w ++ rest) = Ok (w, rest) /\
    ReadElement T_uint8 bs = Err io_EOF.
Proof.
  intros Hv Hw. exists (le_split 1 v). split; [apply writes_write|]. split; [done|].
  assert (Hr : reads (ReadElement T_uint8) (le_split 1 v ++ le_split 1 w) w).
  { eapply reads_bind; [by apply Uint8_reads|]. by apply Uint8_reads. }
  split; [by rewrite app_assoc; apply Hr|].
  pose proof (Uint8_reads v Hv []) as H1. rewrite app_nil_r in H1.
  simpl. unfold mbind, reader_bind. by rewrite H1.
Qed.

Lemma uint8_element_reads_twice_witness :
  is_uint 8 7 /\ is_uint 8 9 /\
  exists bs, writes (WriteElement T_uint8 7) bs /\ len bs = 1 /\
    ReadElement T_uint8 (bs ++ le_split 1 9 ++ []) = Ok (9, []) /\
    ReadElement T_uint8 bs = Err io_EOF.
Proof.
  split_and!; [unfold is_uint; lia|unfold is_uint; lia|].
  apply uint8_element_reads_twice; unfold is_uint; lia.
Defined.

(** [ReadVarBytes] reads back what [WriteVarBytes] wrote when the length is
    within the caller's bound; a stream that announces a longer string is
    refused before any of its bytes is read, and an accepted stream is within
    the bound and is the encoding of the string returned. *)
Theorem varbytes_guarded maxAllowed field bs :
  maxAllowed < 2 ^ 32 ->
  (len bs <= maxAllowed ->
     writes (WriteVarBytes bs) (varbytes bs) /\
     reads (ReadVarBytes maxAllowed field) (varbytes bs) bs) /\
  (forall c rest, is_uint 64 c -> maxAllowed < c ->
     exists e, ReadVarBytes maxAllowed field (varint_bytes c ++ rest) = Err e) /\
  (forall inp out rest, ReadVarBytes maxAllowed field inp = Ok (out, rest) ->
     len out <= maxAllowed /\ inp = varbytes out ++ rest).
Proof.
  intros Hm. split_and!.
  - intros Hle. split; [apply WriteVarBytes_writes|]. apply guarded_bytes_reads; [done|].
    split; [apply len_nonneg|lia].
  - intros c rest Hc Hlt. eexists. by apply guarded_bytes_too_long.
  - intros inp out rest H. apply guarded_bytes_ok in H as (? & _ & ?). done.
Qed.

Lemma varbytes_guarded_witness :
  let bs := mkbytes [10; 11] in
  100 < 2 ^ 32 /\
  reads (ReadVarBytes 100 "f") (varbytes bs) bs.
Proof.
  split; [lia|]. apply (varbytes_guarded 100 "f"); [lia|]. vm_compute; done.
Defined.
