(* ===== verification/WireTx.v ===== *)
(** Transactions: types/wire/msg_tx.go.

    The state of a [MsgTx] as a record, its encoder and decoder in the base and
    in the witness format, its sizes, its deep copy and the offsets of its
    output scripts.  A nil slice of witness items is told apart from an empty
    one ([None] and [Some []]), because [PkScriptLocs] does; nil and empty
    scripts are never told apart by the code.

    The pool of script buffers only recycles memory and is not modelled; the
    single buffer to which [BtcDecode] moves the scripts at the end is. *)

From S2P Require Import Prelude WireEncoding.

(** * Constants *)

(** message.go: [BaseEncoding] and [WitnessEncoding]. *)
Inductive MessageEncoding := BaseEncoding | WitnessEncoding.

Definition is_WitnessEncoding (e : MessageEncoding) : bool :=
  match e with WitnessEncoding => true | BaseEncoding => false end.

(** msg_block.go: const MaxBlockPayload. *)
Definition MaxBlockPayload : Z := 768 * 1024.

Definition TxVerRegular : Z := 1.
Definition TxVerTimeLock : Z := 2.
Definition TxVerEADAction : Z := 3.
Definition TxVerCrossShardSwap : Z := 4.
Definition MaxTxInSequenceNum : Z := 0xffffffff.
Definition minTxInPayload : Z := 9 + HashSize.
Definition maxTxInPerMessage : Z := MaxBlockPayload / minTxInPayload + 1.
Definition MinTxOutPayload : Z := 9.
Definition maxTxOutPerMessage : Z := MaxBlockPayload / MinTxOutPayload + 1.
Definition minTxPayload : Z := 10.
Definition maxWitnessItemsPerInput : Z := 500000.
Definition maxWitnessItemSize : Z := 11000.
Definition witessMarkerBytes : bytes := mkbytes [0; 1].

(** * Data *)

Record OutPoint := { Op_Hash : bytes; Op_Index : Z }.

Record TxIn := {
  PreviousOutPoint : OutPoint;
  SignatureScript : bytes;
  Witness : option (list bytes);
  Sequence : Z;
  Age : Z
}.

Record TxOut := { Value : Z; PkScript : bytes }.

Record MsgTx := {
  Version : Z;
  Tx_TxIn : list TxIn;
  Tx_TxOut : list TxOut;
  LockTime : Z
}.

(** The items of a witness, none when it is nil. *)
Definition wit_items (w : option (list bytes)) : list bytes := default [] w.

Definition NewOutPoint (hash : bytes) (index : Z) : OutPoint :=
  {| Op_Hash := hash; Op_Index := index |}.

Definition NewTxIn (prevOut : OutPoint) (signatureScript : bytes)
    (witness : option (list bytes)) : TxIn :=
  {| PreviousOutPoint := prevOut; SignatureScript := signatureScript;
     Witness := witness; Sequence := MaxTxInSequenceNum; Age := 0 |}.

Definition NewTxOut (value : Z) (pkScript : bytes) : TxOut :=
  {| Value := value; PkScript := pkScript |}.

Definition NewMsgTx (version : Z) : MsgTx :=
  {| Version := version; Tx_TxIn := []; Tx_TxOut := []; LockTime := 0 |}.

Definition AddTxIn (ti : TxIn) (msg : MsgTx) : MsgTx :=
  {| Version := Version msg; Tx_TxIn := Tx_TxIn msg ++ [ti];
     Tx_TxOut := Tx_TxOut msg; LockTime := LockTime msg |}.

Definition AddTxOut (to : TxOut) (msg : MsgTx) : MsgTx :=
  {| Version := Version msg; Tx_TxIn := Tx_TxIn msg;
     Tx_TxOut := Tx_TxOut msg ++ [to]; LockTime := LockTime msg |}.

Definition SwapTx (msg : MsgTx) : bool := Version msg =? TxVerCrossShardSwap.

Definition HasWitness (msg : MsgTx) : bool :=
  existsb (fun txIn => negb (len (wit_items (Witness txIn)) =? 0)) (Tx_TxIn msg).

(** * Sizes *)

Definition sumZ {A} (f : A -> Z) (l : list A) : Z := foldr (fun a n => f a + n) 0 l.

Definition TxIn_SerializeSize (t : TxIn) : Z :=
  40 + VarIntSerializeSize (len (SignatureScript t)) + len (SignatureScript t).

Definition TxWitness_SerializeSize (t : option (list bytes)) : Z :=
  VarIntSerializeSize (len (wit_items t)) +
  sumZ (fun witItem => VarIntSerializeSize (len witItem) + len witItem) (wit_items t).

Definition TxOut_SerializeSize (t : TxOut) : Z :=
  8 + VarIntSerializeSize (len (PkScript t)) + len (PkScript t).

Definition baseSize (msg : MsgTx) : Z :=
  8 + VarIntSerializeSize (len (Tx_TxIn msg)) + VarIntSerializeSize (len (Tx_TxOut msg)) +
  sumZ TxIn_SerializeSize (Tx_TxIn msg) + sumZ TxOut_SerializeSize (Tx_TxOut msg).

Definition MsgTx_SerializeSize (msg : MsgTx) : Z :=
  if HasWitness msg
  then baseSize msg + 2 + sumZ (fun txin => TxWitness_SerializeSize (Witness txin)) (Tx_TxIn msg)
  else baseSize msg.

Definition MsgTx_SerializeSizeStripped (msg : MsgTx) : Z := baseSize msg.

(** The offsets of the output scripts; the loop carries the running offset. *)
Fixpoint pkScriptLocs_loop (n : Z) (outs : list TxOut) : list Z :=
  match outs with
  | [] => []
  | txOut :: outs =>
      let n := n + (8 + VarIntSerializeSize (len (PkScript txOut))) in
      n :: pkScriptLocs_loop (n + len (PkScript txOut)) outs
  end.

Definition PkScriptLocs (msg : MsgTx) : list Z :=
  let numTxOut := len (Tx_TxOut msg) in
  if numTxOut =? 0 then []
  else
    let n := 4 + VarIntSerializeSize (len (Tx_TxIn msg)) + VarIntSerializeSize numTxOut in
    let n := match Tx_TxIn msg with
             | txIn0 :: _ => if decide (Witness txIn0 = None) then n else n + 2
             | [] => n
             end in
    pkScriptLocs_loop (n + sumZ TxIn_SerializeSize (Tx_TxIn msg)) (Tx_TxOut msg).

(** * Copy *)

Definition TxIn_copy (oldTxIn : TxIn) : TxIn :=
  {| PreviousOutPoint := {| Op_Hash := Op_Hash (PreviousOutPoint oldTxIn);
                            Op_Index := Op_Index (PreviousOutPoint oldTxIn) |};
     SignatureScript := SignatureScript oldTxIn;
     Witness := if len (wit_items (Witness oldTxIn)) =? 0 then None
                else Some (wit_items (Witness oldTxIn));
     Sequence := Sequence oldTxIn;
     Age := 0 |}.

Definition MsgTx_Copy (msg : MsgTx) : MsgTx :=
  {| Version := Version msg;
     Tx_TxIn := map TxIn_copy (Tx_TxIn msg);
     Tx_TxOut := map (fun o => {| Value := Value o; PkScript := PkScript o |}) (Tx_TxOut msg);
     LockTime := LockTime msg |}.

(** * Encoding *)

Definition writeOutPoint (op : OutPoint) : writer :=
  write (Op_Hash op) +++ PutUint32 littleEndian (Op_Index op).

Definition writeTxIn (ti : TxIn) : writer :=
  writeOutPoint (PreviousOutPoint ti) +++ WriteVarBytes (SignatureScript ti) +++
  PutUint32 littleEndian (Sequence ti).

Definition WriteTxOut (to : TxOut) : writer :=
  PutUint64 littleEndian (uwrap 64 (Value to)) +++ WriteVarBytes (PkScript to).

Definition writeTxWitness (wit : list bytes) : writer :=
  WriteVarInt (len wit) +++ wlist WriteVarBytes wit.

Definition MsgTx_BtcEncode (enc : MessageEncoding) (msg : MsgTx) : writer :=
  let doWitness := is_WitnessEncoding enc && HasWitness msg in
  PutUint32 littleEndian (uwrap 32 (Version msg)) +++
  (if doWitness then write witessMarkerBytes else write_nil) +++
  WriteVarInt (len (Tx_TxIn msg)) +++
  wlist writeTxIn (Tx_TxIn msg) +++
  WriteVarInt (len (Tx_TxOut msg)) +++
  wlist WriteTxOut (Tx_TxOut msg) +++
  (if doWitness then wlist (fun ti => writeTxWitness (wit_items (Witness ti))) (Tx_TxIn msg)
   else write_nil) +++
  PutUint32 littleEndian (LockTime msg).

Definition MsgTx_Serialize (msg : MsgTx) : writer := MsgTx_BtcEncode WitnessEncoding msg.
Definition MsgTx_SerializeNoWitness (msg : MsgTx) : writer := MsgTx_BtcEncode BaseEncoding msg.

(** * Decoding *)

Definition readOutPoint : reader OutPoint :=
  h ← ReadFull HashSize;
  i ← Uint32 littleEndian;
  mret {| Op_Hash := h; Op_Index := i |}.

Definition readScript (maxAllowed : Z) (fieldName : string) : reader bytes :=
  count ← ReadVarInt;
  if maxAllowed <? count
  then read_fail (MessageError "readScript" (fieldName +:+ " is larger than the max allowed size"))
  else ReadFull count.

Definition readTxIn : reader TxIn :=
  op ← readOutPoint;
  s ← readScript MaxMessagePayload "transaction input signature script";
  seq ← ReadElement T_uint32;
  mret {| PreviousOutPoint := op; SignatureScript := s; Witness := None;
          Sequence := seq; Age := 0 |}.

Definition readTxOut : reader TxOut :=
  v ← ReadElement T_int64;
  s ← readScript MaxMessagePayload "transaction output public key script";
  mret {| Value := v; PkScript := s |}.

(** The witness of one input: the body of the loop over the inputs. *)
Definition readTxWitness (txin : TxIn) : reader TxIn :=
  witCount ← ReadVarInt;
  if maxWitnessItemsPerInput <? witCount
  then read_fail (MessageError "MsgTx.BtcDecode" "too many witness items to fit into max message size")
  else
    items ← read_n (Z.to_nat witCount) (readScript maxWitnessItemSize "script witness item");
    mret {| PreviousOutPoint := PreviousOutPoint txin; SignatureScript := SignatureScript txin;
            Witness := Some items; Sequence := Sequence txin; Age := Age txin |}.

Fixpoint readTxWitnesses (txIns : list TxIn) : reader (list TxIn) :=
  match txIns with
  | [] => mret []
  | ti :: tis => ti' ← readTxWitness ti; tis' ← readTxWitnesses tis; mret (ti' :: tis')
  end.

(** ** The contiguous script buffer

    A slice [scripts[a:b]] of the buffer is the pair of its bounds, resolved in
    the buffer as it is when decoding is done. *)

Definition slice_ref : Type := nat * nat.

Definition resolve (scripts : bytes) (s : slice_ref) : bytes :=
  take (snd s - fst s) (drop (fst s) scripts).

(** [copy(scripts[offset:], src)] *)
Definition copy_at (scripts : bytes) (offset : nat) (src : bytes) : bytes :=
  let n := Nat.min (length scripts - offset) (length src) in
  take offset scripts ++ take n src ++ drop (offset + n) scripts.

Definition buffer_state : Type := bytes * nat.

(** Copies one script into the buffer and replaces it by its slice. *)
Definition relocate_script (s : bytes) (st : buffer_state) : slice_ref * buffer_state :=
  let '(scripts, offset) := st in
  let stop := (offset + length s)%nat in
  ((offset, stop), (copy_at scripts offset s, stop)).

Fixpoint relocate_scripts (ss : list bytes) (st : buffer_state) : list slice_ref * buffer_state :=
  match ss with
  | [] => ([], st)
  | s :: ss =>
      let '(r, st) := relocate_script s st in
      let '(rs, st) := relocate_scripts ss st in
      (r :: rs, st)
  end.

(** The loop over the inputs: the signature script, then the witness items. *)
Fixpoint relocate_ins (tis : list TxIn) (st : buffer_state)
    : list (slice_ref * list slice_ref) * buffer_state :=
  match tis with
  | [] => ([], st)
  | ti :: tis =>
      let '(r, st) := relocate_script (SignatureScript ti) st in
      let '(ws, st) := relocate_scripts (wit_items (Witness ti)) st in
      let '(rs, st) := relocate_ins tis st in
      ((r, ws) :: rs, st)
  end.

Definition resolve_in (scripts : bytes) (ti : TxIn) (r : slice_ref * list slice_ref) : TxIn :=
  {| PreviousOutPoint := PreviousOutPoint ti;
     SignatureScript := resolve scripts (fst r);
     Witness := match Witness ti with
                | None => None
                | Some _ => Some (map (resolve scripts) (snd r))
                end;
     Sequence := Sequence ti; Age := Age ti |}.

Definition resolve_out (scripts : bytes) (to : TxOut) (r : slice_ref) : TxOut :=
  {| Value := Value to; PkScript := resolve scripts r |}.

Definition relocate (totalScriptSize : Z) (tis : list TxIn) (tos : list TxOut)
    : list TxIn * list TxOut :=
  let '(rins, st) := relocate_ins tis (replicate (Z.to_nat totalScriptSize) Byte.x00, O) in
  let '(routs, st) := relocate_scripts (map PkScript tos) st in
  (zip_with (resolve_in (fst st)) tis rins, zip_with (resolve_out (fst st)) tos routs).

(** [totalScriptSize], a uint64 that is added to as the scripts are read. *)
Definition script_size (tis : list TxIn) (tos : list TxOut) : Z :=
  sumZ (fun ti => len (SignatureScript ti)) tis + sumZ (fun to => len (PkScript to)) tos +
  sumZ (fun ti => sumZ len (wit_items (Witness ti))) tis.

Definition read_txin_count (enc : MessageEncoding) : reader (bool * Z) :=
  count ← ReadVarInt;
  if (count =? 0) && is_WitnessEncoding enc then
    flag ← Uint8;
    if negb (flag =? 1)
    then read_fail (MessageError "MsgTx.BtcDecode" "witness tx but flag byte is")
    else count ← ReadVarInt; mret (true, count)
  else mret (false, count).

Definition MsgTx_BtcDecode (enc : MessageEncoding) : reader MsgTx :=
  version ← Uint32 littleEndian;
  '(flag, count) ← read_txin_count enc;
  if maxTxInPerMessage <? count
  then read_fail (MessageError "MsgTx.BtcDecode" "too many input transactions to fit into max message size")
  else
  txIns ← read_n (Z.to_nat count) readTxIn;
  count ← ReadVarInt;
  if maxTxOutPerMessage <? count
  then read_fail (MessageError "MsgTx.BtcDecode" "too many output transactions to fit into max message size")
  else
  txOuts ← read_n (Z.to_nat count) readTxOut;
  txIns ← (if flag && is_WitnessEncoding enc then readTxWitnesses txIns else mret txIns);
  lockTime ← Uint32 littleEndian;
  let totalScriptSize := uwrap 64 (script_size txIns txOuts) in
  if make_panics 1 totalScriptSize then read_panic
  else
  let '(txIns, txOuts) := relocate totalScriptSize txIns txOuts in
  mret {| Version := swrap 32 version; Tx_TxIn := txIns; Tx_TxOut := txOuts; LockTime := lockTime |}.

Definition MsgTx_Deserialize : reader MsgTx := MsgTx_BtcDecode WitnessEncoding.
Definition MsgTx_DeserializeNoWitness : reader MsgTx := MsgTx_BtcDecode BaseEncoding.

(** * The contiguous buffer holds every script *)

Definition zeros (k : nat) : bytes := replicate k Byte.x00.

Section relocation.
Implicit Types (pre t : bytes) (ss : list bytes).

Lemma copy_at_fresh pre k (s : bytes) :
  (length s <= k)%nat ->
  copy_at (pre ++ zeros k) (length pre) s = (pre ++ s) ++ zeros (k - length s).
Proof.
  intros H. unfold copy_at, zeros. rewrite length_app, length_replicate.
  replace (Nat.min _ _) with (length s) by lia.
  rewrite take_app_length, take_ge, <-app_assoc by lia. do 2 f_equal.
  rewrite drop_app_ge by lia. rewrite drop_replicate. f_equal; lia.
Qed.

Lemma resolve_mid pre (s : bytes) t :
  resolve ((pre ++ s) ++ t) (length pre, (length pre + length s)%nat) = s.
Proof.
  unfold resolve; simpl. rewrite <-app_assoc, drop_app_length.
  replace (_ + _ - _)%nat with (length s) by lia. apply take_app_length.
Qed.

Lemma relocate_script_spec pre k (s : bytes) :
  (length s <= k)%nat ->
  exists r, relocate_script s (pre ++ zeros k, length pre) =
              (r, ((pre ++ s) ++ zeros (k - length s), length (pre ++ s))) /\
            forall t, resolve ((pre ++ s) ++ t) r = s.
Proof.
  intros H. eexists. split; [|apply resolve_mid].
  unfold relocate_script. by rewrite copy_at_fresh, length_app by done.
Qed.

Lemma relocate_scripts_spec ss pre k :
  (length (concat ss) <= k)%nat ->
  exists rs, relocate_scripts ss (pre ++ zeros k, length pre) =
               (rs, ((pre ++ concat ss) ++ zeros (k - length (concat ss)),
                     length (pre ++ concat ss))) /\
             forall t, map (resolve ((pre ++ concat ss) ++ t)) rs = ss.
Proof.
  revert pre k. induction ss as [|s ss IH]; intros pre k H; cbn [relocate_scripts concat] in *.
  - exists []. by rewrite !app_nil_r, Nat.sub_0_r.
  - rewrite length_app in H.
    destruct (relocate_script_spec pre k s) as (r & -> & Hr); [lia|].
    destruct (IH (pre ++ s) (k - length s)%nat) as (rs & -> & Hrs); [lia|].
    exists (r :: rs). rewrite (length_app s), Nat.sub_add_distr, !app_assoc.
    split; [done|]. intros t; simpl. rewrite Hrs. f_equal.
    rewrite <-!app_assoc, app_assoc. apply Hr.
Qed.

Definition in_scripts (ti : TxIn) : list bytes := SignatureScript ti :: wit_items (Witness ti).

Lemma resolve_in_id buf ti r ws :
  resolve buf r = SignatureScript ti -> map (resolve buf) ws = wit_items (Witness ti) ->
  resolve_in buf ti (r, ws) = ti.
Proof.
  destruct ti as [op s [w|] sq ag]; unfold resolve_in; simpl; intros -> Hw; by rewrite ?Hw.
Qed.

Lemma relocate_ins_spec tis pre k :
  let cat := concat (concat (map in_scripts tis)) in
  (length cat <= k)%nat ->
  exists rs, relocate_ins tis (pre ++ zeros k, length pre) =
               (rs, ((pre ++ cat) ++ zeros (k - length cat), length (pre ++ cat))) /\
             forall t, zip_with (resolve_in ((pre ++ cat) ++ t)) tis rs = tis.
Proof.
  revert pre k. induction tis as [|ti tis IH]; intros pre k cat H; subst cat;
    cbn [relocate_ins map concat in_scripts app] in *.
  - exists []. by rewrite !app_nil_r, Nat.sub_0_r.
  - rewrite concat_app, app_assoc in *. rewrite !length_app in H.
    set (s := SignatureScript ti) in *. set (w := wit_items (Witness ti)) in *.
    destruct (relocate_script_spec pre k s) as (r & -> & Hr); [lia|].
    destruct (relocate_scripts_spec w (pre ++ s) (k - length s)%nat) as (ws & -> & Hws); [lia|].
    destruct (IH ((pre ++ s) ++ concat w) (k - length s - length (concat w))%nat)
      as (rs & -> & Hrs); [lia|].
    exists ((r, ws) :: rs). set (c := concat (concat (map in_scripts tis))) in *.
    rewrite (app_assoc (pre ++ s)). split.
    + do 3 f_equal. rewrite !length_app. unfold zeros. f_equal. lia.
    + intros t; cbn [zip_with]. rewrite Hrs. f_equal. apply resolve_in_id.
      * rewrite <-!app_assoc, app_assoc. apply Hr.
      * rewrite <-(app_assoc _ c t). apply Hws.
Qed.

Lemma len_concat ss : len (concat ss) = sumZ len ss.
Proof. induction ss; simpl; [done|]. by rewrite len_app, IHss. Qed.

Lemma len_in_scripts tis :
  len (concat (concat (map in_scripts tis))) =
  sumZ (fun ti => len (SignatureScript ti)) tis +
  sumZ (fun ti => sumZ len (wit_items (Witness ti))) tis.
Proof.
  induction tis as [|ti tis IH]; simpl; [done|].
  rewrite concat_app, !len_app, IH, len_concat. lia.
Qed.

Lemma sumZ_map {A B} (f : A -> B) (g : B -> Z) l : sumZ g (map f l) = sumZ (fun a => g (f a)) l.
Proof. induction l; simpl; congruence. Qed.

Lemma resolve_outs_id buf tos rs :
  map (resolve buf) rs = map PkScript tos -> zip_with (resolve_out buf) tos rs = tos.
Proof.
  revert rs. induction tos as [|to tos IH]; intros [|r rs] H; simpl in *; try done.
  injection H as H1 H2. rewrite IH by done. f_equal.
  unfold resolve_out. rewrite H1. by destruct to.
Qed.

(** Moving the scripts to the contiguous buffer changes none of them. *)
Lemma relocate_id tis tos : relocate (script_size tis tos) tis tos = (tis, tos).
Proof.
  pose proof (len_in_scripts tis) as Hins.
  pose proof (len_concat (map PkScript tos)) as Houts. rewrite sumZ_map in Houts.
  unfold relocate, script_size. set (k := Z.to_nat _).
  set (cat := concat (concat (map in_scripts tis))) in *.
  set (outs := concat (map PkScript tos)) in *.
  assert (Hk : k = (length cat + length outs)%nat) by (unfold k, len in *; lia).
  destruct (relocate_ins_spec tis [] k) as (rins & E1 & H1); [simpl; fold cat; lia|].
  simpl in E1, H1. fold cat in E1, H1. unfold zeros in *. rewrite E1. clear E1.
  destruct (relocate_scripts_spec (map PkScript tos) cat (k - length cat)%nat)
    as (routs & E2 & H2); [fold outs; lia|].
  fold outs in E2, H2. unfold zeros in *. rewrite E2. simpl.
  rewrite <-app_assoc, H1. f_equal. apply resolve_outs_id. rewrite app_assoc. apply H2.
Qed.
End relocation.

(** * Round trips of the parts *)

Definition outpoint_dom (op : OutPoint) : Prop := len (Op_Hash op) = HashSize /\ is_uint 32 (Op_Index op).
Definition txin_dom (ti : TxIn) : Prop :=
  outpoint_dom (PreviousOutPoint ti) /\ len (SignatureScript ti) <= MaxMessagePayload /\
  is_uint 32 (Sequence ti).
Definition txout_dom (to : TxOut) : Prop :=
  is_int 64 (Value to) /\ len (PkScript to) <= MaxMessagePayload.
Definition witness_dom (w : list bytes) : Prop :=
  len w <= maxWitnessItemsPerInput /\ Forall (fun item => len item <= maxWitnessItemSize) w.

Definition outpoint_bytes (op : OutPoint) : bytes := Op_Hash op ++ bo_put littleEndian 4 (Op_Index op).
Definition txin_bytes (ti : TxIn) : bytes :=
  outpoint_bytes (PreviousOutPoint ti) ++ varbytes (SignatureScript ti) ++
  bo_put littleEndian 4 (Sequence ti).
Definition txout_bytes (to : TxOut) : bytes :=
  bo_put littleEndian 8 (uwrap 64 (Value to)) ++ varbytes (PkScript to).
Definition witness_bytes (w : list bytes) : bytes :=
  varint_bytes (len w) ++ concat (map varbytes w).

Definition with_witness (w : option (list bytes)) (ti : TxIn) : TxIn :=
  {| PreviousOutPoint := PreviousOutPoint ti; SignatureScript := SignatureScript ti;
     Witness := w; Sequence := Sequence ti; Age := 0 |}.

(** What the reader of an input returns before the witnesses are read. *)
Definition txin_stripped (ti : TxIn) : TxIn := with_witness None ti.

Lemma len_is_uint64 {A} (l : list A) bound : len l <= bound -> bound < 2 ^ 64 -> is_uint 64 (len l).
Proof. pose proof (len_nonneg l). unfold is_uint; lia. Qed.

Lemma writeTxIn_writes ti : writes (writeTxIn ti) (txin_bytes ti).
Proof. repeat apply writes_seq; auto with wire; apply writes_write. Qed.
Lemma WriteTxOut_writes to : writes (WriteTxOut to) (txout_bytes to).
Proof. repeat apply writes_seq; auto with wire; apply writes_write. Qed.
Lemma writeTxWitness_writes w : writes (writeTxWitness w) (witness_bytes w).
Proof.
  apply writes_seq; [auto with wire|]. apply writes_list, Forall_forall. auto with wire.
Qed.

Lemma readScript_reads bound f bs :
  len bs <= bound -> bound < 2 ^ 64 -> reads (readScript bound f) (varbytes bs) bs.
Proof. intros. apply guarded_bytes_reads; [done|]. by eapply len_is_uint64. Qed.

Lemma readOutPoint_reads op : outpoint_dom op -> reads readOutPoint (outpoint_bytes op) op.
Proof.
  destruct op as [h i]; intros [Hh Hi]; simpl in *.
  eapply reads_bind; [by apply ReadFull_reads'|].
  eapply reads_bind_nil; [by apply Uint32_reads|]. apply reads_ret.
Qed.

Lemma readTxIn_reads ti : txin_dom ti -> reads readTxIn (txin_bytes ti) (txin_stripped ti).
Proof.
  intros (Hop & Hs & Hq).
  eapply reads_bind; [by apply readOutPoint_reads|].
  eapply reads_bind; [by apply readScript_reads|].
  eapply reads_bind_nil; [by apply (Uint32_reads littleEndian)|]. apply reads_ret.
Qed.

Lemma readTxOut_reads to : txout_dom to -> reads readTxOut (txout_bytes to) to.
Proof.
  destruct to as [v s]; intros [Hv Hs]; simpl in *.
  eapply reads_bind.
  - pose proof (ReadElement_reads T_int64 v Hv) as H. unfold elem_bytes in H.
    cbn [WriteElement] in H. unfold PutUint64 in H. rewrite wbytes_write in H. exact H.
  - eapply reads_bind_nil; [by apply readScript_reads|]. apply reads_ret.
Qed.

Lemma readTxWitness_reads ti w :
  witness_dom w -> Age ti = 0 ->
  reads (readTxWitness ti) (witness_bytes w) (with_witness (Some w) ti).
Proof.
  intros [Hl Hi] Hage. eapply reads_bind.
  { apply ReadVarInt_reads. by eapply len_is_uint64. }
  rewrite (proj2 (Z.ltb_ge _ _)) by done. eapply reads_bind_nil.
  { rewrite to_nat_len. apply (read_n_reads_id _ varbytes).
    eapply Forall_impl; [exact Hi|]. intros item Hitem. by apply readScript_reads. }
  unfold with_witness. rewrite Hage. apply reads_ret.
Qed.

Lemma readTxWitnesses_reads tis :
  Forall (fun ti => witness_dom (wit_items (Witness ti))) tis ->
  reads (readTxWitnesses (map txin_stripped tis))
        (concat (map (fun ti => witness_bytes (wit_items (Witness ti))) tis))
        (map (fun ti => with_witness (Some (wit_items (Witness ti))) ti) tis).
Proof.
  induction 1 as [|ti tis Hw _ IH]; simpl; [apply reads_ret|].
  eapply reads_bind; [by apply (readTxWitness_reads (txin_stripped ti))|].
  eapply reads_bind_nil; [exact IH|]. apply reads_ret.
Qed.

(** * Sizes *)

Lemma len_varbytes bs : len (varbytes bs) = VarIntSerializeSize (len bs) + len bs.
Proof. unfold varbytes. by rewrite len_app, len_varint_bytes. Qed.

Lemma len_concat_map {A} (f : A -> bytes) l : len (concat (map f l)) = sumZ (fun a => len (f a)) l.
Proof. by rewrite len_concat, sumZ_map. Qed.

Lemma sumZ_ext {A} (f g : A -> Z) l :
  Forall (fun a => f a = g a) l -> sumZ f l = sumZ g l.
Proof. induction 1; simpl; congruence. Qed.

Lemma len_txin_bytes ti : txin_dom ti -> len (txin_bytes ti) = TxIn_SerializeSize ti.
Proof.
  intros ((Hh & _) & _). unfold txin_bytes, outpoint_bytes, TxIn_SerializeSize.
  rewrite !len_app, len_varbytes, !len_bo_put, Hh. unfold HashSize. lia.
Qed.

Lemma len_txout_bytes to : len (txout_bytes to) = TxOut_SerializeSize to.
Proof.
  unfold txout_bytes, TxOut_SerializeSize. rewrite !len_app, len_varbytes, len_bo_put. lia.
Qed.

Lemma len_witness_bytes w : len (witness_bytes (wit_items w)) = TxWitness_SerializeSize w.
Proof.
  unfold witness_bytes, TxWitness_SerializeSize. rewrite len_app, len_varint_bytes, len_concat_map.
  f_equal. apply sumZ_ext, Forall_forall. intros; apply len_varbytes.
Qed.

(** * Round trip of a transaction *)

Section transaction.
Context (enc : MessageEncoding) (tx : MsgTx).

Definition do_witness : bool := is_WitnessEncoding enc && HasWitness tx.

(** A decoded transaction: the ages, which are not serialized, are zero, and
    an input has a witness, possibly empty, exactly when one was serialized. *)
Definition normal_txin (ti : TxIn) : TxIn :=
  with_witness (if do_witness then Some (wit_items (Witness ti)) else None) ti.
Definition tx_normal : MsgTx :=
  {| Version := Version tx; Tx_TxIn := map normal_txin (Tx_TxIn tx);
     Tx_TxOut := Tx_TxOut tx; LockTime := LockTime tx |}.

(** The transactions that the decoder is able to return: the counts and the
    script sizes within the limits of msg_tx.go, and, in the witness format,
    at least one input when there is no witness, since an input count of zero
    is the marker of that format. *)
Definition tx_dom : Prop :=
  is_int 32 (Version tx) /\ is_uint 32 (LockTime tx) /\
  len (Tx_TxIn tx) <= maxTxInPerMessage /\ len (Tx_TxOut tx) <= maxTxOutPerMessage /\
  Forall txin_dom (Tx_TxIn tx) /\ Forall txout_dom (Tx_TxOut tx) /\
  script_size (Tx_TxIn tx_normal) (Tx_TxOut tx) <= maxAlloc /\
  (if do_witness then Forall (fun ti => witness_dom (wit_items (Witness ti))) (Tx_TxIn tx)
   else enc = WitnessEncoding -> Tx_TxIn tx <> []).

Definition tx_bytes : bytes :=
  bo_put littleEndian 4 (uwrap 32 (Version tx)) ++
  (if do_witness then witessMarkerBytes else []) ++
  varint_bytes (len (Tx_TxIn tx)) ++
  concat (map txin_bytes (Tx_TxIn tx)) ++
  varint_bytes (len (Tx_TxOut tx)) ++
  concat (map txout_bytes (Tx_TxOut tx)) ++
  (if do_witness then concat (map (fun ti => witness_bytes (wit_items (Witness ti))) (Tx_TxIn tx))
   else []) ++
  bo_put littleEndian 4 (LockTime tx).

Lemma MsgTx_BtcEncode_writes : writes (MsgTx_BtcEncode enc tx) tx_bytes.
Proof.
  unfold MsgTx_BtcEncode, tx_bytes. fold do_witness.
  repeat apply writes_seq; auto with wire; try apply writes_write.
  - destruct do_witness; auto with wire.
  - apply writes_list, Forall_forall. intros; apply writeTxIn_writes.
  - apply writes_list, Forall_forall. intros; apply WriteTxOut_writes.
  - destruct do_witness; auto with wire.
    apply (writes_list (fun ti => writeTxWitness _)), Forall_forall.
    intros; apply writeTxWitness_writes.
Qed.

Lemma len_tx_bytes :
  Forall txin_dom (Tx_TxIn tx) ->
  len tx_bytes = if is_WitnessEncoding enc then MsgTx_SerializeSize tx else baseSize tx.
Proof.
  intros Hins. unfold tx_bytes, MsgTx_SerializeSize, baseSize, do_witness.
  rewrite !len_app, !len_bo_put, !len_varint_bytes, !len_concat_map.
  rewrite (sumZ_ext _ TxIn_SerializeSize (Tx_TxIn tx));
    [|eapply Forall_impl; [exact Hins|apply len_txin_bytes]].
  rewrite (sumZ_ext _ TxOut_SerializeSize (Tx_TxOut tx));
    [|apply Forall_forall; intros; apply len_txout_bytes].
  destruct (is_WitnessEncoding enc), (HasWitness tx); simpl; rewrite ?len_nil; try lia.
  rewrite len_concat_map, (sumZ_ext (fun ti => len (witness_bytes _))
    (fun ti => TxWitness_SerializeSize (Witness ti)));
    [|apply Forall_forall; intros; apply len_witness_bytes].
  replace (len witessMarkerBytes) with 2 by done. lia.
Qed.

(** The marker, the flag and the count of inputs. *)
Lemma read_txin_count_reads :
  tx_dom ->
  reads (read_txin_count enc)
    ((if do_witness then witessMarkerBytes else []) ++ varint_bytes (len (Tx_TxIn tx)))
    (do_witness, len (Tx_TxIn tx)).
Proof.
  intros (_ & _ & Hc & _ & _ & _ & _ & Hw).
  assert (Hu : is_uint 64 (len (Tx_TxIn tx))) by (eapply len_is_uint64; [exact Hc|done]).
  unfold read_txin_count. destruct do_witness eqn:Ed.
  - replace witessMarkerBytes with (varint_bytes 0 ++ le_split 1 1) by done.
    rewrite <-app_assoc. eapply reads_bind; [apply ReadVarInt_reads; unfold is_uint; lia|].
    apply andb_prop in Ed as [-> _]. simpl (_ && _).
    eapply reads_bind; [apply Uint8_reads; unfold is_uint; lia|]. simpl (negb _).
    eapply reads_bind_nil; [by apply ReadVarInt_reads|]. apply reads_ret.
  - eapply reads_bind_nil; [by apply ReadVarInt_reads|].
    destruct ((len (Tx_TxIn tx) =? 0) && is_WitnessEncoding enc) eqn:E; [|apply reads_ret].
    apply andb_prop in E as [E%Z.eqb_eq%len_zero_nil Ew].
    destruct enc; [done|]. by apply Hw in E.
Qed.

Lemma relocate_normal :
  script_size (Tx_TxIn tx_normal) (Tx_TxOut tx) <= maxAlloc ->
  let total := uwrap 64 (script_size (Tx_TxIn tx_normal) (Tx_TxOut tx)) in
  make_panics 1 total = false /\
  relocate total (Tx_TxIn tx_normal) (Tx_TxOut tx) = (Tx_TxIn tx_normal, Tx_TxOut tx).
Proof.
  intros H total.
  assert (0 <= script_size (Tx_TxIn tx_normal) (Tx_TxOut tx)).
  { unfold script_size. pose proof (len_in_scripts (Tx_TxIn tx_normal)) as H1.
    pose proof (len_concat (map PkScript (Tx_TxOut tx))) as H2. rewrite sumZ_map in H2.
    pose proof (len_nonneg (concat (map PkScript (Tx_TxOut tx)))).
    pose proof (len_nonneg (concat (concat (map in_scripts (Tx_TxIn tx_normal))))). lia. }
  assert (total = script_size (Tx_TxIn tx_normal) (Tx_TxOut tx)) as ->.
  { apply uwrap_id. unfold is_uint, maxAlloc in *; lia. }
  split; [|apply relocate_id]. unfold make_panics.
  apply orb_false_iff; rewrite !Z.ltb_ge; lia.
Qed.

Lemma MsgTx_BtcDecode_reads : tx_dom -> reads (MsgTx_BtcDecode enc) tx_bytes tx_normal.
Proof.
  intros Hdom. pose proof (read_txin_count_reads Hdom) as Hcount.
  destruct Hdom as (Hv & Hlk & Hci & Hco & Hin & Hout & Hsz & Hw).
  destruct (relocate_normal Hsz) as [Hpanic Hrel].
  unfold MsgTx_BtcDecode, tx_bytes. rewrite app_assoc, <-(app_assoc _ _ (varint_bytes _ ++ _)).
  eapply reads_bind; [apply Uint32_reads; by apply uwrap_range|].
  rewrite app_assoc. eapply reads_bind; [exact Hcount|]. cbv beta iota.
  rewrite (proj2 (Z.ltb_ge _ _)) by done. rewrite to_nat_len.
  eapply reads_bind.
  { apply (read_n_reads readTxIn txin_bytes txin_stripped).
    eapply Forall_impl; [exact Hin|apply readTxIn_reads]. }
  eapply reads_bind; [apply ReadVarInt_reads; by eapply len_is_uint64|].
  rewrite (proj2 (Z.ltb_ge _ _)) by done. rewrite to_nat_len.
  eapply reads_bind.
  { apply (read_n_reads_id readTxOut txout_bytes).
    eapply Forall_impl; [exact Hout|apply readTxOut_reads]. }
  eapply (reads_bind _ _ _ _ (Tx_TxIn tx_normal)).
  { unfold tx_normal, normal_txin; simpl. destruct do_witness eqn:Ed; [|apply reads_ret].
    apply andb_prop in Ed as [-> _]. by apply readTxWitnesses_reads. }
  eapply reads_bind_nil; [by apply Uint32_reads|].
  cbv zeta. rewrite Hpanic, Hrel. rewrite swrap_uwrap, swrap_id by done. apply reads_ret.
Qed.
End transaction.

(** * What the decoder accepts in the base format *)

Lemma readScript_ok bound f inp s rest :
  readScript bound f inp = Ok (s, rest) -> len s <= bound /\ inp = varbytes s ++ rest.
Proof. intros H. by apply guarded_bytes_ok in H as (? & _ & ?). Qed.

Lemma readTxIn_accepts :
  accepts readTxIn writeTxIn (fun ti => txin_dom ti /\ ti = txin_stripped ti).
Proof.
  intros inp ti rest H. unfold readTxIn, readOutPoint in H.
  apply reader_bind_ok in H as (op & mid & Hop & H). reader_inv Hop. injection Hop as <- <-.
  apply ReadFull_ok in Hr as [Hh ->]; [|done]. apply Uint32_ok in Hr0 as [Hi ->].
  reader_inv H. injection H as <- <-. apply readScript_ok in Hr as [Hs ->].
  apply Uint32_ok in Hr0 as [Hq ->]. split; [split; [split; [by split|by split]|done]|].
  eexists. split; [apply writeTxIn_writes|]. unfold txin_bytes, outpoint_bytes; simpl.
  by rewrite !app_assoc.
Qed.

Lemma readTxOut_accepts : accepts readTxOut WriteTxOut txout_dom.
Proof.
  intros inp to rest H. unfold readTxOut in H. reader_inv H. injection H as <- <-.
  apply (ReadElement_ok T_int64) in Hr as [Hv ->]; [|done]. apply readScript_ok in Hr0 as [Hs ->].
  split; [by split|]. eexists. split; [apply WriteTxOut_writes|].
  unfold txout_bytes, elem_bytes; cbn [WriteElement]; unfold PutUint64.
  by rewrite wbytes_write, !app_assoc.
Qed.

Lemma sumZ_bound {A} (f : A -> Z) c l : Forall (fun a => f a <= c) l -> sumZ f l <= len l * c.
Proof.
  induction 1 as [|a l Ha _ IH]; [done|]. rewrite len_cons.
  change (sumZ f (a :: l)) with (f a + sumZ f l). lia.
Qed.

Lemma sumZ_nonneg {A} (f : A -> Z) l : (forall a, 0 <= f a) -> 0 <= sumZ f l.
Proof. intros Hf. induction l; simpl; [lia|]. specialize (Hf a). lia. Qed.

(** The sum of the script sizes does not overflow a uint64. *)
Lemma script_size_fits tis tos :
  len tis <= maxTxInPerMessage -> len tos <= maxTxOutPerMessage ->
  Forall txin_dom tis -> Forall txout_dom tos ->
  Forall (fun ti => Witness ti = None) tis ->
  is_uint 64 (script_size tis tos).
Proof.
  intros Hi Ho Hti Hto Hw. unfold script_size.
  rewrite (sumZ_ext (fun ti => sumZ len (wit_items (Witness ti))) (fun _ => 0));
    [|eapply Forall_impl; [exact Hw|]; simpl; by intros ti ->].
  pose proof (sumZ_bound (fun _ : TxIn => 0) 0 tis) as H0.
  pose proof (sumZ_nonneg (fun _ : TxIn => 0) tis) as H0'.
  pose proof (sumZ_bound (fun ti => len (SignatureScript ti)) MaxMessagePayload tis) as H1.
  pose proof (sumZ_bound (fun to => len (PkScript to)) MaxMessagePayload tos) as H2.
  pose proof (sumZ_nonneg (fun ti => len (SignatureScript ti)) tis) as H3.
  pose proof (sumZ_nonneg (fun to => len (PkScript to)) tos) as H4.
  lapply H0; [|apply Forall_forall; lia]. clear H0; intros H0.
  lapply H1; [|eapply Forall_impl; [exact Hti|]; by intros ti (_ & ? & _)]. clear H1; intros H1.
  lapply H2; [|eapply Forall_impl; [exact Hto|]; by intros to (_ & ?)]. clear H2; intros H2.
  specialize (H0' ltac:(lia)). specialize (H3 ltac:(intros; apply len_nonneg)).
  specialize (H4 ltac:(intros; apply len_nonneg)).
  replace maxTxInPerMessage with 19182 in Hi by done.
  replace maxTxOutPerMessage with 87382 in Ho by done.
  replace MaxMessagePayload with 2147483647 in * by done. unfold is_uint. lia.
Qed.

Lemma base_normal tx :
  Forall (fun ti => ti = txin_stripped ti) (Tx_TxIn tx) -> tx_normal BaseEncoding tx = tx.
Proof.
  intros H. unfold tx_normal.
  assert (map (normal_txin BaseEncoding tx) (Tx_TxIn tx) = Tx_TxIn tx) as ->; [|by destruct tx].
  change (normal_txin BaseEncoding tx) with txin_stripped.
  induction H as [|ti ins Hti _ IH]; simpl; [done|]. by rewrite IH, <-Hti.
Qed.

Lemma MsgTx_BtcDecode_base_accepts :
  accepts (MsgTx_BtcDecode BaseEncoding) (MsgTx_BtcEncode BaseEncoding)
    (fun tx => tx_dom BaseEncoding tx /\ tx_normal BaseEncoding tx = tx).
Proof.
  intros inp tx rest H. unfold MsgTx_BtcDecode, read_txin_count in H.
  apply reader_bind_ok in H as (v & m1 & Hv & H). apply Uint32_ok in Hv as [Hv ->].
  apply reader_bind_ok in H as ([flag c] & m2 & Hc & H).
  apply reader_bind_ok in Hc as (c' & m2' & Hc & Hb). rewrite andb_false_r in Hb.
  injection Hb as <- -> ->. apply ReadVarInt_ok in Hc as [Hcu ->].
  case_match eqn:Emax; [done|]. apply Z.ltb_ge in Emax.
  apply reader_bind_ok in H as (ins & m3 & Hins & H).
  apply (read_n_accepts _ writeTxIn _ _ _ _ _ readTxIn_accepts) in Hins
    as (Hil & Hins & ib & Hib & ->).
  apply reader_bind_ok in H as (co & m4 & Hc & H). apply ReadVarInt_ok in Hc as [Hco ->].
  case_match eqn:Emaxo; [done|]. apply Z.ltb_ge in Emaxo.
  apply reader_bind_ok in H as (outs & m5 & Houts & H).
  apply (read_n_accepts _ WriteTxOut _ _ _ _ _ readTxOut_accepts) in Houts
    as (Hol & Houts & ob & Hob & ->).
  apply reader_bind_ok in H as (ins' & m6 & Hw & H). injection Hw as <- <-.
  apply reader_bind_ok in H as (lk & m7 & Hlk & H). apply Uint32_ok in Hlk as [Hlk ->].
  apply Forall_and in Hins as [Hd Hstr].
  assert (Hc1 : len ins = c) by (unfold len; destruct Hcu; lia).
  assert (Hc2 : len outs = co) by (unfold len; destruct Hco; lia). subst c co.
  assert (Hnone : Forall (fun ti => Witness ti = None) ins)
    by (eapply Forall_impl; [exact Hstr|]; by intros ti ->).
  pose proof (script_size_fits ins outs Emax Emaxo Hd Houts Hnone) as Hfit.
  rewrite uwrap_id in H by done. case_match eqn:Ep; [done|].
  rewrite relocate_id in H. injection H as <- <-.
  apply orb_false_iff in Ep as [_ Ep%Z.ltb_ge].
  pose proof (fun t => base_normal {| Version := swrap 32 v; Tx_TxIn := ins; Tx_TxOut := outs;
                                      LockTime := t |} Hstr) as Hn.
  split; [split; [|by rewrite Hn]|].
  - unfold tx_dom. rewrite Hn. simpl. split_and!; try done; [by apply swrap_range|lia].
  - eexists. split; [apply MsgTx_BtcEncode_writes|]. unfold tx_bytes; simpl.
    rewrite uwrap_swrap, uwrap_id by done.
    rewrite (writes_det _ _ _ Hib (writes_list writeTxIn txin_bytes ins ltac:(
      apply Forall_forall; intros; apply writeTxIn_writes))).
    rewrite (writes_det _ _ _ Hob (writes_list WriteTxOut txout_bytes outs ltac:(
      apply Forall_forall; intros; apply WriteTxOut_writes))).
    by rewrite <-!app_assoc.
Qed.

(** * The offsets of the output scripts *)

(** [s] lies at offset [off] of [bs]. *)
Definition bytes_at (bs : bytes) (off : Z) (s : bytes) : Prop :=
  take (length s) (drop (Z.to_nat off) bs) = s.

Lemma bytes_at_mid a s b : bytes_at (a ++ s ++ b) (len a) s.
Proof. unfold bytes_at. by rewrite to_nat_len, drop_app_length, take_app_length. Qed.

Lemma pkScriptLocs_loop_at outs pre suf n d i out :
  n + d = len pre -> outs !! i = Some out ->
  exists loc, pkScriptLocs_loop n outs !! i = Some loc /\
    bytes_at (pre ++ concat (map txout_bytes outs) ++ suf) (loc + d) (PkScript out).
Proof.
  revert pre n i. induction outs as [|o outs IH]; intros pre n i Hn Hi; [done|].
  set (hd := pre ++ bo_put littleEndian 8 (uwrap 64 (Value o)) ++ varint_bytes (len (PkScript o))).
  assert (Hhd : len hd = n + d + (8 + VarIntSerializeSize (len (PkScript o)))).
  { unfold hd. rewrite !len_app, len_bo_put, len_varint_bytes. lia. }
  assert (Hcat : pre ++ concat (map txout_bytes (o :: outs)) ++ suf =
                 hd ++ PkScript o ++ concat (map txout_bytes outs) ++ suf).
  { unfold hd; simpl; unfold txout_bytes at 1, varbytes. by rewrite <-!app_assoc. }
  rewrite Hcat. destruct i as [|i]; simpl in Hi |- *.
  - injection Hi as ->. eexists; split; [done|].
    replace (_ + d) with (len hd) by lia. apply bytes_at_mid.
  - destruct (IH (hd ++ PkScript o) (n + (8 + VarIntSerializeSize (len (PkScript o))) +
      len (PkScript o)) i) as (loc & Hl & Hat); [rewrite len_app; lia|done|].
    exists loc. split; [done|]. by rewrite <-app_assoc in Hat.
Qed.

(** How far [PkScriptLocs] is from the start of the scripts: it adds the marker
    and flag bytes when the first input has a non-nil witness, the encoder
    writes them when some input has a witness item. *)
Definition marker_shift (tx : MsgTx) : Z :=
  (if HasWitness tx then 2 else 0) -
  match Tx_TxIn tx with
  | txIn0 :: _ => if decide (Witness txIn0 = None) then 0 else 2
  | [] => 0
  end.

Lemma PkScriptLocs_at tx i out :
  Forall txin_dom (Tx_TxIn tx) -> Tx_TxOut tx !! i = Some out ->
  exists loc, PkScriptLocs tx !! i = Some loc /\
    bytes_at (tx_bytes WitnessEncoding tx) (loc + marker_shift tx) (PkScript out).
Proof.
  intros Hdom Hi. unfold PkScriptLocs, tx_bytes.
  assert (Hne : (len (Tx_TxOut tx) =? 0) = false).
  { apply Z.eqb_neq. intros E%len_zero_nil. by rewrite E in Hi. }
  rewrite Hne. set (w := do_witness WitnessEncoding tx).
  rewrite app_assoc, app_assoc, app_assoc, app_assoc.
  apply pkScriptLocs_loop_at; [|done].
  rewrite !len_app, len_bo_put, !len_varint_bytes, len_concat_map.
  rewrite (sumZ_ext (fun ti => len (txin_bytes ti)) TxIn_SerializeSize (Tx_TxIn tx));
    [|eapply Forall_impl; [exact Hdom|apply len_txin_bytes]].
  unfold marker_shift. assert (w = HasWitness tx) as -> by done.
  replace (len (if HasWitness tx then witessMarkerBytes else [])) with
    (if HasWitness tx then 2 else 0) by (by destruct (HasWitness tx)).
  destruct (Tx_TxIn tx) as [|ti0 tis]; [lia|]. destruct (decide _); lia.
Qed.

(** * Copies *)

Lemma wit_items_copy ti : wit_items (Witness (TxIn_copy ti)) = wit_items (Witness ti).
Proof.
  unfold TxIn_copy; simpl. destruct (Z.eqb_spec (len (wit_items (Witness ti))) 0) as [E|]; [|done].
  by rewrite (len_zero_nil _ E).
Qed.

Lemma HasWitness_copy tx : HasWitness (MsgTx_Copy tx) = HasWitness tx.
Proof.
  unfold HasWitness, MsgTx_Copy; simpl. induction (Tx_TxIn tx) as [|ti tis IH]; [done|].
  cbn [map existsb]. by rewrite IH, wit_items_copy.
Qed.

Lemma wlist_map {A B} (f : B -> writer) (g : A -> B) l :
  wlist f (map g l) = wlist (fun a => f (g a)) l.
Proof. induction l; simpl; congruence. Qed.

Lemma wlist_ext {A} (f g : A -> writer) l : (forall a, f a = g a) -> wlist f l = wlist g l.
Proof. intros H. induction l; simpl; congruence. Qed.

Lemma MsgTx_BtcEncode_copy enc tx : MsgTx_BtcEncode enc (MsgTx_Copy tx) = MsgTx_BtcEncode enc tx.
Proof.
  unfold MsgTx_BtcEncode. rewrite HasWitness_copy. unfold MsgTx_Copy; cbn [Version Tx_TxIn Tx_TxOut LockTime].
  rewrite !len_map, !wlist_map.
  rewrite (wlist_ext (fun a => writeTxIn (TxIn_copy a)) writeTxIn) by done.
  rewrite (wlist_ext (fun a => WriteTxOut {| Value := Value a; PkScript := PkScript a |}) WriteTxOut) by done.
  rewrite (wlist_ext (fun a => writeTxWitness (wit_items (Witness (TxIn_copy a))))
             (fun a => writeTxWitness (wit_items (Witness a)))) by (intros; by rewrite wit_items_copy).
  done.
Qed.

(** * Locality of the decoder *)

Lemma local_readScript bound f : local (readScript bound f).
Proof. unfold readScript. local_solve. Qed.
Lemma local_readOutPoint : local readOutPoint.
Proof. unfold readOutPoint. local_solve. Qed.
#[export] Hint Resolve local_readScript local_readOutPoint : local_db.
Lemma local_readTxIn : local readTxIn.
Proof. unfold readTxIn. local_solve. Qed.
Lemma local_readTxOut : local readTxOut.
Proof. unfold readTxOut. local_solve. Qed.
Lemma local_readTxWitness ti : local (readTxWitness ti).
Proof. unfold readTxWitness. local_solve. Qed.
Lemma local_read_txin_count enc : local (read_txin_count enc).
Proof. unfold read_txin_count. local_solve. Qed.
#[export] Hint Resolve local_readTxIn local_readTxOut local_readTxWitness local_read_txin_count : local_db.
Lemma local_readTxWitnesses tis : local (readTxWitnesses tis).
Proof. induction tis as [|ti tis IH]; cbn [readTxWitnesses]; local_solve. Qed.
#[export] Hint Resolve local_readTxWitnesses : local_db.
Lemma local_MsgTx_BtcDecode enc : local (MsgTx_BtcDecode enc).
Proof. unfold MsgTx_BtcDecode. local_solve. Qed.
#[export] Hint Resolve local_MsgTx_BtcDecode : local_db.

(** * Properties *)

(** C18: a transaction within the limits of the package is encoded in exactly
    [SerializeSize] bytes (in the base format [SerializeSizeStripped] bytes)
    and [BtcDecode] with the same encoding reads it back, with the ages reset
    and the witnesses nil or not as the format says. *)
Theorem tx_roundtrip enc tx :
  tx_dom enc tx ->
  exists bs, writes (MsgTx_BtcEncode enc tx) bs /\
    len bs = (if is_WitnessEncoding enc then MsgTx_SerializeSize tx
              else MsgTx_SerializeSizeStripped tx) /\
    reads (MsgTx_BtcDecode enc) bs (tx_normal enc tx).
Proof.
  intros Hd. exists (tx_bytes enc tx). split; [apply MsgTx_BtcEncode_writes|].
  split; [apply len_tx_bytes; apply Hd|]. by apply MsgTx_BtcDecode_reads.
Qed.

(** A segwit transaction with two inputs, the second one with an empty witness. *)
Definition example_tx : MsgTx :=
  let hash := mkbytes (map Z.of_nat (seq 1 32)) in
  {| Version := 1;
     Tx_TxIn := [{| PreviousOutPoint := NewOutPoint hash 3; SignatureScript := mkbytes [0x51];
                    Witness := Some [mkbytes [7; 8]; []]; Sequence := 0xffffffff; Age := 12 |};
                 {| PreviousOutPoint := NewOutPoint hash 0; SignatureScript := [];
                    Witness := None; Sequence := 5; Age := 0 |}];
     Tx_TxOut := [{| Value := 5000; PkScript := mkbytes [0x76; 0xa9] |}];
     LockTime := 99 |}.

Lemma tx_roundtrip_witness :
  tx_dom WitnessEncoding example_tx /\
  exists bs, writes (MsgTx_BtcEncode WitnessEncoding example_tx) bs /\
    len bs = MsgTx_SerializeSize example_tx /\
    reads (MsgTx_BtcDecode WitnessEncoding) bs (tx_normal WitnessEncoding example_tx).
Proof.
  assert (H : tx_dom WitnessEncoding example_tx).
  { unfold tx_dom; split_and!; repeat constructor; vm_compute; done. }
  split; [exact H|]. exact (tx_roundtrip WitnessEncoding example_tx H).
Defined.

(** In the base format, the one that is hashed for the transaction id, the
    encoding is not malleable.  What [BtcDecode] accepts is the encoding of the
    transaction it returns, the transaction is within the limits, and decoding
    never returns a witness or an age. *)
Theorem tx_base_canonical inp tx rest :
  MsgTx_BtcDecode BaseEncoding inp = Ok (tx, rest) ->
  tx_dom BaseEncoding tx /\ tx_normal BaseEncoding tx = tx /\
  exists bs, writes (MsgTx_BtcEncode BaseEncoding tx) bs /\ inp = bs ++ rest.
Proof. intros H. destruct (MsgTx_BtcDecode_base_accepts _ _ _ H) as ([? ?] & ?). done. Qed.

Lemma tx_base_canonical_witness :
  let bs := wbytes (MsgTx_BtcEncode BaseEncoding example_tx) in
  exists tx, MsgTx_BtcDecode BaseEncoding bs = Ok (tx, []) /\
  (tx_dom BaseEncoding tx /\ tx_normal BaseEncoding tx = tx /\
   exists bs', writes (MsgTx_BtcEncode BaseEncoding tx) bs' /\ bs = bs' ++ []).
Proof.
  intros bs. eexists. split; [vm_compute; reflexivity|].
  apply (tx_base_canonical bs _ []). vm_compute; reflexivity.
Defined.

(** Moving the scripts of a decoded transaction to one contiguous buffer of
    [totalScriptSize] bytes gives back every signature script, witness item and
    output script unchanged: the slices are in range and do not overlap. *)
Theorem script_buffer_faithful tis tos :
  relocate (script_size tis tos) tis tos = (tis, tos).
Proof. apply relocate_id. Qed.

(** [PkScriptLocs] gives, for each output, the offset of its script in the
    serialized transaction, when the first input has a non-nil witness exactly
    if the transaction has a witness.  When the witness is on a later input
    only, every offset is two bytes short. *)
Theorem pk_script_locs tx i out :
  Forall txin_dom (Tx_TxIn tx) -> Tx_TxOut tx !! i = Some out ->
  exists loc, PkScriptLocs tx !! i = Some loc /\
    bytes_at (wbytes (MsgTx_Serialize tx)) (loc + marker_shift tx) (PkScript out).
Proof.
  intros Hd Hi. destruct (PkScriptLocs_at tx i out Hd Hi) as (loc & ? & ?).
  exists loc. split; [done|]. unfold MsgTx_Serialize.
  by rewrite (proj2 (MsgTx_BtcEncode_writes WitnessEncoding tx)).
Qed.

(** The transaction with its inputs in the other order: the offset is short. *)
Definition example_tx_swapped : MsgTx :=
  {| Version := 1; Tx_TxIn := rev (Tx_TxIn example_tx);
     Tx_TxOut := Tx_TxOut example_tx; LockTime := 99 |}.

Lemma pk_script_locs_witness :
  (marker_shift example_tx = 0 /\ marker_shift example_tx_swapped = 2) /\
  exists loc, PkScriptLocs example_tx_swapped !! 0%nat = Some loc /\
    bytes_at (wbytes (MsgTx_Serialize example_tx_swapped)) (loc + 2) (mkbytes [0x76; 0xa9]).
Proof.
  split; [vm_compute; done|].
  apply (pk_script_locs example_tx_swapped 0 {| Value := 5000; PkScript := mkbytes [0x76; 0xa9] |});
    [repeat constructor; vm_compute; done|reflexivity].
Defined.

(** A deep copy serializes to the same bytes as the original, in both
    formats, so it has the same transaction id and witness hash. *)
Theorem tx_copy_same_encoding enc tx :
  MsgTx_BtcEncode enc (MsgTx_Copy tx) = MsgTx_BtcEncode enc tx.
Proof. apply MsgTx_BtcEncode_copy. Qed.
