(* ===== verification/Sha256.v ===== *)
(** SHA-256 (FIPS 180-4), executable: the instance of the hash parameter that
    the examples of the development evaluate.  Nothing is proved about it but
    the length of its result. *)

From S2P Require Import Prelude.

Definition add32 (a b : Z) : Z := uwrap 32 (a + b).
Definition rotr (n x : Z) : Z := Z.lor (Z.shiftr x n) (uwrap 32 (Z.shiftl x (32 - n))).
Definition not32 (x : Z) : Z := Z.lxor x 0xffffffff.

Definition Ch x y z := Z.lxor (Z.land x y) (Z.land (not32 x) z).
Definition Maj x y z := Z.lxor (Z.lxor (Z.land x y) (Z.land x z)) (Z.land y z).
Definition bsig0 x := Z.lxor (Z.lxor (rotr 2 x) (rotr 13 x)) (rotr 22 x).
Definition bsig1 x := Z.lxor (Z.lxor (rotr 6 x) (rotr 11 x)) (rotr 25 x).
Definition ssig0 x := Z.lxor (Z.lxor (rotr 7 x) (rotr 18 x)) (Z.shiftr x 3).
Definition ssig1 x := Z.lxor (Z.lxor (rotr 17 x) (rotr 19 x)) (Z.shiftr x 10).

(** The constants of the standard: the first 32 bits of the fractional parts of
    the cube roots of the first 64 primes, and of the square roots of the first 8. *)
Definition is_prime (n : Z) : bool :=
  forallb (fun d => negb (n mod (Z.of_nat d) =? 0)) (seq 2 (Z.to_nat n - 2)).
Definition first_primes : list Z := List.filter is_prime (map Z.of_nat (seq 2 310)).

Fixpoint integer_root (k bits : nat) (n acc : Z) : Z :=
  match bits with
  | O => acc
  | S bits =>
      let c := acc + 2 ^ Z.of_nat bits in
      integer_root k bits n (if c ^ Z.of_nat k <=? n then c else acc)
  end.
Definition fractional_root (k : nat) (p : Z) : Z :=
  uwrap 32 (integer_root k 40 (p * 2 ^ (32 * Z.of_nat k)) 0).

Definition round_constants : list Z :=
  Eval vm_compute in map (fractional_root 3) first_primes.
Definition initial_hash : list Z :=
  Eval vm_compute in map (fractional_root 2) (take 8 first_primes).

(** The message schedule, most recent word first. *)
Fixpoint schedule (n : nat) (w : list Z) : list Z :=
  match n with
  | O => w
  | S n =>
      let at_ i := nth i w 0 in
      schedule n (add32 (add32 (ssig1 (at_ 1%nat)) (at_ 6%nat)) (add32 (ssig0 (at_ 14%nat)) (at_ 15%nat)) :: w)
  end.

Definition round (st : list Z) (kw : Z * Z) : list Z :=
  match st with
  | [a; b; c; d; e; f; g; h] =>
      let t1 := add32 (add32 h (bsig1 e)) (add32 (Ch e f g) (add32 (fst kw) (snd kw))) in
      let t2 := add32 (bsig0 a) (Maj a b c) in
      [add32 t1 t2; a; b; c; add32 d t1; e; f; g]
  | _ => st
  end.

Fixpoint words (n : nat) (bs : bytes) : list Z :=
  match n with
  | O => []
  | S n => le_combine (rev (take 4 bs)) :: words n (drop 4 bs)
  end.

Definition compress (st : list Z) (block : bytes) : list Z :=
  let w := rev (schedule 48 (rev (words 16 block))) in
  zip_with add32 st (fold_left round (zip round_constants w) st).

Fixpoint blocks (n : nat) (st : list Z) (bs : bytes) : list Z :=
  match n with
  | O => st
  | S n => blocks n (compress st (take 64 bs)) (drop 64 bs)
  end.

Definition padding (n : nat) : bytes :=
  Byte.x80 :: replicate (Z.to_nat ((55 - Z.of_nat n) mod 64)) Byte.x00 ++
  rev (le_split 8 (8 * Z.of_nat n)).

Definition digest_bytes (st : list Z) : bytes :=
  take 32 (concat (map (fun w => rev (le_split 4 w)) st) ++ replicate 32 Byte.x00).

Definition sha256 (msg : bytes) : bytes :=
  let padded := msg ++ padding (length msg) in
  digest_bytes (blocks (length padded / 64) initial_hash padded).

Lemma len_sha256 msg : len (sha256 msg) = 32.
Proof.
  unfold sha256, digest_bytes, len. rewrite length_take, length_app, length_replicate. lia.
Qed.

(** The test vector of the standard for the message "abc". *)
Example sha256_abc :
  map byte.unsigned (sha256 (mkbytes [97; 98; 99])) =
  [0xba; 0x78; 0x16; 0xbf; 0x8f; 0x01; 0xcf; 0xea; 0x41; 0x41; 0x40; 0xde; 0x5d; 0xae; 0x22; 0x23;
   0xb0; 0x03; 0x61; 0xa3; 0x96; 0x17; 0x7a; 0x9c; 0xb4; 0x10; 0xff; 0x61; 0xf2; 0x00; 0x15; 0xad].
Proof. vm_compute. reflexivity. Qed.
