(* ===== verification/Sha1.v ===== *)
(** The function of Go's crypto/sha1 that OP_SHA1 calls. *)

From S2P Require Import Prelude Sha256.

Definition rotl (n x : Z) : Z := rotr (32 - n) x.

(** The round function and constant of each group of twenty rounds. *)
Definition sha1_f (t : nat) (b c d : Z) : Z :=
  match (t / 20)%nat with
  | 0%nat => Ch b c d
  | 2%nat => Maj b c d
  | _ => Z.lxor (Z.lxor b c) d
  end.
Definition sha1_k (t : nat) : Z :=
  match (t / 20)%nat with
  | 0%nat => 0x5A827999 | 1%nat => 0x6ED9EBA1 | 2%nat => 0x8F1BBCDC | _ => 0xCA62C1D6
  end.

(** The last [n] words of the schedule, from a window of the sixteen words before them. *)
Fixpoint sha1_schedule (n : nat) (w : list Z) : list Z :=
  match n with
  | O => []
  | S n =>
      let at_back k := nth (16 - k) w 0 in
      let x := rotl 1 (Z.lxor (Z.lxor (at_back 3%nat) (at_back 8%nat)) (Z.lxor (at_back 14%nat) (at_back 16%nat))) in
      x :: sha1_schedule n (drop 1 w ++ [x])
  end.

Definition sha1_round (st : Z * Z * Z * Z * Z) (tw : nat * Z) : Z * Z * Z * Z * Z :=
  let '(a, b, c, d, e) := st in let '(t, w) := tw in
  (add32 (add32 (add32 (rotl 5 a) (sha1_f t b c d)) (add32 e (sha1_k t))) w, a, rotl 30 b, c, d).

Definition sha1_block (st : Z * Z * Z * Z * Z) (block : bytes) : Z * Z * Z * Z * Z :=
  let w := words 16 block in
  let '(a, b, c, d, e) := st in
  let '(a', b', c', d', e') := fold_left sha1_round (zip (seq 0 80) (w ++ sha1_schedule 64 w)) st in
  (add32 a a', add32 b b', add32 c c', add32 d d', add32 e e').

Fixpoint sha1_blocks (n : nat) (st : Z * Z * Z * Z * Z) (bs : bytes) : Z * Z * Z * Z * Z :=
  match n with
  | O => st
  | S n => sha1_blocks n (sha1_block st (take 64 bs)) (drop 64 bs)
  end.

Definition sha1 (msg : bytes) : bytes :=
  let padded := msg ++ padding (length msg) in
  let '(a, b, c, d, e) :=
    sha1_blocks (length padded / 64) (0x67452301, 0xEFCDAB89, 0x98BADCFE, 0x10325476, 0xC3D2E1F0) padded in
  take 20 (digest_bytes [a; b; c; d; e]).

Lemma len_sha1 msg : len (sha1 msg) = 20.
Proof.
  unfold sha1, digest_bytes, len. destruct (sha1_blocks _ _ _) as [[[[? ?] ?] ?] ?].
  rewrite !length_take, length_app, length_replicate. lia.
Qed.

Example sha1_abc :
  sha1 (mkbytes [0x61; 0x62; 0x63]) =
  mkbytes [0xa9; 0x99; 0x3e; 0x36; 0x47; 0x06; 0x81; 0x6a; 0xba; 0x3e;
           0x25; 0x71; 0x78; 0x50; 0xc2; 0x6c; 0x9c; 0xd0; 0xd8; 0x9d].
Proof. vm_compute. reflexivity. Qed.
