(* ===== verification/Chainhash.v ===== *)
(** Hashes and merkle trees: types/chainhash.

    The hash function is the third-party package github.com/minio/sha256-simd:
    it is the parameter [sha256_Sum256] of a class, with the length of its
    digest as the only assumption.  The merkle tree stored in a linear array and
    the coinbase proof are shown to agree with the merkle root defined level by
    level. *)

From S2P Require Import Prelude WireEncoding Sha256.

Class HashFunction := {
  sha256_Sum256 : bytes -> bytes;
  sha256_size : forall b, len (sha256_Sum256 b) = HashSize
}.

(** The instance on which examples are evaluated. *)
Definition sha256_instance : HashFunction := {| sha256_Sum256 := sha256; sha256_size := len_sha256 |}.

(** * hash.go *)

Definition ZeroHash : bytes := replicate 32 Byte.x00.

Definition Hash_IsEqual (hash target : bytes) : bool := bool_decide (hash = target).
Definition Hash_IsZero (hash : bytes) : bool := Hash_IsEqual hash ZeroHash.

(** The new value of the hash, or the error. *)
Definition Hash_SetBytes (newHash : bytes) : outcome bytes :=
  if negb (len newHash =? HashSize) then Err (errorString "invalid hash length")
  else Ok newHash.

(** encoding/hex: the two digits of a byte, and their value. *)
Definition hex_digit (n : Z) : Z := if n <? 10 then 0x30 + n else 0x61 + (n - 10).
Definition hex_value (c : Z) : option Z :=
  if (0x30 <=? c) && (c <=? 0x39) then Some (c - 0x30)
  else if (0x61 <=? c) && (c <=? 0x66) then Some (c - 0x61 + 10)
  else if (0x41 <=? c) && (c <=? 0x46) then Some (c - 0x41 + 10)
  else None.

Fixpoint hex_EncodeToString (bs : bytes) : bytes :=
  match bs with
  | [] => []
  | b :: bs => byte.of_Z (hex_digit (byte.unsigned b / 16)) ::
               byte.of_Z (hex_digit (byte.unsigned b mod 16)) :: hex_EncodeToString bs
  end.

Fixpoint hex_Decode (src : bytes) : outcome bytes :=
  match src with
  | [] => Ok []
  | [_] => Err (errorString "encoding/hex: odd length hex string")
  | a :: b :: src =>
      match hex_value (byte.unsigned a), hex_value (byte.unsigned b) with
      | Some x, Some y => r ← hex_Decode src; Ok (byte.of_Z (16 * x + y) :: r)
      | _, _ => Err (errorString "encoding/hex: invalid byte")
      end
  end.

Definition Hash_String (hash : bytes) : bytes := hex_EncodeToString (rev hash).

Definition MaxHashStringSize : Z := HashSize * 2.

(** [Decode(dst, src)]: the hash stored in [dst].  The digits are decoded into
    the end of a zeroed array, which is then reversed. *)
Definition Hash_Decode (src : bytes) : outcome bytes :=
  if MaxHashStringSize <? len src then Err (errorString "max hash string length is 64 bytes")
  else
    let srcBytes := if Z.even (len src) then src else byte.of_Z 0x30 :: src in
    decoded ← hex_Decode srcBytes;
    Ok (rev (replicate (Z.to_nat (HashSize - len srcBytes / 2)) Byte.x00 ++ decoded)).

Definition NewHashFromStr (hash : bytes) : outcome bytes := Hash_Decode hash.

(** * hashfuncs.go *)

Section hashing.
Context `{HashFunction}.

Definition HashB (b : bytes) : bytes := sha256_Sum256 b.
Definition HashH (b : bytes) : bytes := sha256_Sum256 b.
Definition DoubleHashB (b : bytes) : bytes := sha256_Sum256 (sha256_Sum256 b).
Definition DoubleHashH (b : bytes) : bytes := sha256_Sum256 (sha256_Sum256 b).

(** * merkle_tree.go *)

Definition HashMerkleBranches (left right : bytes) : bytes := DoubleHashH (left ++ right).

(** [uint(math.Log2(float64(n)))] is the integer part of the logarithm for the
    lengths of slices, which are below 2^47. *)
Definition NextPowerOfTwo (n : Z) : Z :=
  if Z.land n (n - 1) =? 0 then n
  else let exponent := Z.log2 n + 1 in Z.shiftl 1 exponent.

(** One node of the array from its two children. *)
Definition merkle_parent (left right : option bytes) : option bytes :=
  match left, right with
  | None, _ => None
  | Some l, None => Some (HashMerkleBranches l l)
  | Some l, Some r => Some (HashMerkleBranches l r)
  end.

(** [for i := 0; i < arraySize-1; i += 2 { ...; offset++ }] *)
Fixpoint merkle_loop (iters i offset : nat) (merkles : list (option bytes)) : list (option bytes) :=
  match iters with
  | O => merkles
  | S iters =>
      let node := merkle_parent (mjoin (merkles !! i)) (mjoin (merkles !! S i)) in
      merkle_loop iters (i + 2) (S offset) (<[offset := node]> merkles)
  end.

Definition BuildMerkleTreeStore (txHashes : list bytes) : outcome (list (option bytes)) :=
  let nextPoT := NextPowerOfTwo (len txHashes) in
  let arraySize := nextPoT * 2 - 1 in
  if make_panics 8 arraySize then Panic
  else
    let merkles := map Some txHashes ++ replicate (Z.to_nat arraySize - length txHashes) None in
    Ok (merkle_loop (Z.to_nat (arraySize - 1) / 2) 0 (Z.to_nat nextPoT) merkles).

(** [*tree[len(tree)-1]] *)
Definition MerkleTreeRoot (txHashes : list bytes) : outcome bytes :=
  tree ← BuildMerkleTreeStore txHashes;
  match mjoin (last tree) with Some r => Ok r | None => Panic end.

Definition ValidateMerkleTreeRoot (txHashes : list bytes) (expectedRoot : bytes) : outcome bool :=
  tree ← BuildMerkleTreeStore txHashes;
  match mjoin (last tree) with
  | Some r => Ok (Hash_IsEqual r expectedRoot)
  | None => Ok false
  end.

(** The loop of [rangeSteps], which adds at most [fuel] members. *)
Fixpoint rangeSteps_loop (fuel : nat) (i stop step : Z) : list Z :=
  match fuel with
  | O => []
  | S fuel =>
      if 0 <? step
      then if i <? stop then i :: rangeSteps_loop fuel (i + step) stop step else []
      else if stop <? i then i :: rangeSteps_loop fuel (i + step) stop step else []
  end.

Definition rangeSteps (start stop step : Z) : list Z :=
  if ((0 <? step) && (stop <=? start)) || ((step <? 0) && (start <=? stop)) then []
  else rangeSteps_loop (Z.to_nat (Z.abs (stop - start)) + 1) start stop step.

(** The loop [for Ll > 1]: the members added to [steps]. *)
Fixpoint coinbase_proof_loop (fuel : nat) (merkleHashes : list bytes) : list bytes :=
  match fuel with
  | O => []
  | S fuel =>
      let Ll := len merkleHashes in
      if 1 <? Ll then
        let step := nth 1 merkleHashes ZeroHash in
        let merkleHashes := if negb (Z.rem Ll 2 =? 0)
                            then merkleHashes ++ [List.last merkleHashes ZeroHash]
                            else merkleHashes in
        let Ld := map (fun r => HashMerkleBranches (nth (Z.to_nat r) merkleHashes ZeroHash)
                                  (nth (Z.to_nat (r + 1)) merkleHashes ZeroHash))
                      (rangeSteps 2 Ll 2) in
        step :: coinbase_proof_loop fuel (ZeroHash :: Ld)
      else []
  end.

Definition BuildCoinbaseMerkleTreeProof (txHashes : list bytes) : list bytes :=
  coinbase_proof_loop (length txHashes) txHashes.

Definition CoinbaseMerkleTreeProofRoot (txHash : bytes) (proof : list bytes) : bytes :=
  fold_left HashMerkleBranches proof txHash.

Definition ValidateCoinbaseMerkleTreeProof (txHash : bytes) (proof : list bytes)
    (expectedRoot : bytes) : bool :=
  Hash_IsEqual (fold_left HashMerkleBranches proof txHash) expectedRoot.

(** * Specification: the merkle root, level by level

    The nodes of a level are paired from the left; a last node without a right
    neighbour is paired with itself. *)

Fixpoint pair_up (l : list bytes) : list bytes :=
  match l with
  | a :: b :: l => HashMerkleBranches a b :: pair_up l
  | [a] => [HashMerkleBranches a a]
  | [] => []
  end.

Fixpoint merkle_root_levels (fuel : nat) (l : list bytes) : bytes :=
  match l with
  | [] => ZeroHash
  | [a] => a
  | _ => match fuel with
         | O => ZeroHash
         | S fuel => merkle_root_levels fuel (pair_up l)
         end
  end.

Definition merkle_root_spec (l : list bytes) : bytes := merkle_root_levels (length l) l.

End hashing.

(** * Powers of two *)

Lemma land_pred_zero n : 0 < n -> (Z.land n (n - 1) = 0 <-> n = 2 ^ Z.log2 n).
Proof.
  intros Hn. pose proof (Z.log2_spec n Hn) as [Hlo Hhi]. pose proof (Z.log2_nonneg n).
  remember (Z.log2 n) as k eqn:Hk. clear Hk.
  rewrite Z.pow_succ_r in Hhi by done. split; intros E.
  - destruct (Z.eq_dec n (2 ^ k)) as [|Hne]; [done|]. exfalso.
    assert (Hb : forall m, 2 ^ k <= m < 2 * 2 ^ k -> Z.testbit m k = true).
    { intros m Hm. rewrite Z.testbit_true by done.
      replace (m / 2 ^ k) with 1; [done|]. apply Z.div_unique with (m - 2 ^ k); lia. }
    assert (Z.testbit (Z.land n (n - 1)) k = true) as Ht
      by (rewrite Z.land_spec, !Hb by lia; done).
    rewrite E, Z.bits_0 in Ht. done.
  - rewrite E, Z.sub_1_r, <-Z.ones_equiv, Z.land_ones by done.
    apply Z.mod_same. lia.
Qed.

(** [NextPowerOfTwo n] is the least power of two that is not below [n]. *)
Lemma NextPowerOfTwo_log2_up n : 0 < n -> NextPowerOfTwo n = 2 ^ Z.log2_up n.
Proof.
  intros Hn. unfold NextPowerOfTwo. pose proof (land_pred_zero n Hn) as Hp.
  destruct (Z.eqb_spec (Z.land n (n - 1)) 0) as [E|E].
  - apply Hp in E. rewrite E at 2. rewrite Z.log2_up_pow2 by apply Z.log2_nonneg. done.
  - rewrite Z.shiftl_1_l. f_equal. pose proof (Z.le_log2_log2_up n).
    pose proof (Z.le_log2_up_succ_log2 n).
    destruct (Z.eq_dec (Z.log2 n) (Z.log2_up n)) as [Heq|]; [|lia].
    apply Z.log2_log2_up_exact in Heq as [b ->]; [|done].
    destruct (Z.lt_ge_cases b 0) as [|]; [by rewrite Z.pow_neg_r in Hn|].
    destruct E. apply Hp. by rewrite Z.log2_pow2.
Qed.

Lemma NextPowerOfTwo_nat (n : nat) : (0 < n)%nat ->
  exists d : nat, NextPowerOfTwo (Z.of_nat n) = Z.of_nat (2 ^ d) /\ (n <= 2 ^ d)%nat /\
                  (2 ^ d < 2 * n)%nat.
Proof.
  intros Hn. exists (Z.to_nat (Z.log2_up (Z.of_nat n))).
  rewrite NextPowerOfTwo_log2_up, Nat2Z.inj_pow by lia. simpl (Z.of_nat 2).
  pose proof (Z.log2_up_nonneg (Z.of_nat n)) as Hd. rewrite Z2Nat.id by done. split; [done|].
  assert (Hp : Z.of_nat (2 ^ Z.to_nat (Z.log2_up (Z.of_nat n))) = 2 ^ Z.log2_up (Z.of_nat n))
    by (rewrite Nat2Z.inj_pow, Z2Nat.id by done; done).
  destruct (decide (n = 1)%nat) as [->|]; [split; vm_compute; lia|].
  pose proof (Z.log2_up_spec (Z.of_nat n)) as [H1 H2]; [lia|].
  assert (2 ^ Z.log2_up (Z.of_nat n) = 2 * 2 ^ Z.pred (Z.log2_up (Z.of_nat n))).
  { rewrite <-Z.pow_succ_r; [f_equal; lia|].
    pose proof (Z.log2_up_pos (Z.of_nat n)); lia. }
  lia.
Qed.

(** * The linear array *)

Section merkle.
Context `{HashFunction}.
Implicit Types (m lv : list (option bytes)) (l : list bytes).

(** The node at index [n + j] of an array is the parent of those at [2j], [2j+1]. *)
Definition parent_at m (j : nat) : option bytes :=
  merkle_parent (mjoin (m !! (2 * j)%nat)) (mjoin (m !! S (2 * j))).

Lemma merkle_loop_spec iters n j m :
  (j + iters = n - 1)%nat -> length m = (2 * n - 1)%nat ->
  let m' := merkle_loop iters (2 * j) (n + j) m in
  length m' = length m /\
  (forall t, (t < n + j)%nat -> m' !! t = m !! t) /\
  (forall t, (j <= t < n - 1)%nat -> m' !! (n + t)%nat = Some (parent_at m' t)).
Proof.
  revert j m. induction iters as [|iters IH]; intros j m Hj Hl; cbn [merkle_loop].
  - split; [done|]. split; [done|]. intros; lia.
  - set (node := merkle_parent _ _). set (m1 := <[(n + j)%nat := node]> m).
    assert (Hl1 : length m1 = length m) by apply length_insert.
    destruct (IH (S j) m1) as (H1 & H2 & H3); [lia|lia|].
    replace (2 * S j)%nat with (2 * j + 2)%nat in * by lia.
    replace (n + S j)%nat with (S (n + j)) in * by lia.
    set (m' := merkle_loop iters _ _ m1) in *.
    assert (Hold : forall t, (t < n + j)%nat -> m' !! t = m !! t).
    { intros t Ht. rewrite H2 by lia. apply list_lookup_insert_ne. lia. }
    split; [lia|]. split; [exact Hold|]. intros t Ht.
    destruct (decide (t = j)) as [->|]; [|apply H3; lia].
    rewrite H2 by lia. unfold m1. rewrite list_lookup_insert_eq by lia.
    unfold parent_at. rewrite !Hold by lia. done.
Qed.

(** One level up, on a level padded with nil nodes. *)
Fixpoint next_level lv : list (option bytes) :=
  match lv with
  | a :: b :: lv => merkle_parent a b :: next_level lv
  | _ => []
  end.

Lemma next_level_lookup lv (t : nat) :
  (S (2 * t) < length lv)%nat -> next_level lv !! t = Some (parent_at lv t).
Proof.
  unfold parent_at. revert lv. induction t as [|t IH]; intros [|a [|b lv]] Ht; simpl in *; try lia.
  - done.
  - rewrite IH by lia. by replace (t + S (t + 0))%nat with (S (2 * t)) by lia.
Qed.

Lemma length_next_level lv (k : nat) : length lv = (2 * k)%nat -> length (next_level lv) = k.
Proof.
  revert lv. induction k as [|k IH]; intros [|a [|b lv]] Hl; simpl in *; try lia.
  rewrite IH by lia. done.
Qed.

(** The array of a tree of depth [d] holds the levels one after the other. *)
Lemma array_levels d m k t :
  let n := (2 ^ d)%nat in
  (forall t, (t < n - 1)%nat -> m !! (n + t)%nat = Some (parent_at m t)) ->
  (k <= d)%nat -> (n <= length m)%nat -> (t < 2 ^ (d - k))%nat ->
  m !! (2 * n - 2 * 2 ^ (d - k) + t)%nat = Nat.iter k next_level (take n m) !! t.
Proof.
  intros n Hm. revert t. induction k as [|k IH]; intros t Hk Hn Ht.
  - rewrite Nat.sub_0_r in *. fold n in Ht |- *. simpl. rewrite lookup_take.
    rewrite decide_True by done. f_equal; lia.
  - assert (Hpow : (2 ^ (d - k) = 2 * 2 ^ (d - S k))%nat).
    { rewrite <-Nat.pow_succ_r'. f_equal. lia. }
    assert (Hle : (2 ^ (d - k) <= n)%nat) by (apply Nat.pow_le_mono_r; lia).
    set (p := (2 ^ (d - S k))%nat) in *. simpl Nat.iter.
    assert (Hlen : length (Nat.iter k next_level (take n m)) = (2 ^ (d - k))%nat).
    { clear -Hn Hk. induction k as [|k IH]; simpl.
      - rewrite length_take, Nat.sub_0_r. fold n. lia.
      - rewrite (length_next_level _ (2 ^ (d - S k))%nat); [done|].
        rewrite IH by lia. rewrite <-Nat.pow_succ_r'. f_equal. lia. }
    rewrite next_level_lookup by lia.
    replace (2 * n - 2 * p + t)%nat with (n + (n - 2 * p + t))%nat by lia.
    rewrite Hm by lia. unfold parent_at. f_equal.
    rewrite <-(IH (2 * t)%nat), <-(IH (S (2 * t))%nat) by lia.
    rewrite Hpow. f_equal; f_equal; f_equal; lia.
Qed.

(** Levels with hashes on the left and nil nodes on the right. *)
Lemma next_level_none k : next_level (replicate (2 * k) None) = replicate k None.
Proof.
  induction k as [|k IH]; [done|]. replace (2 * S k)%nat with (S (S (2 * k))) by lia.
  cbn [replicate next_level merkle_parent]. by rewrite IH.
Qed.

Lemma half_even k : (2 * k / 2 = k)%nat.
Proof. rewrite Nat.mul_comm. by apply Nat.div_mul. Qed.
Lemma half_odd k : (S (2 * k) / 2 = k)%nat.
Proof. symmetry. apply Nat.div_unique with 1%nat; lia. Qed.

Lemma next_level_pair_up l p :
  Nat.Even (length l + p) ->
  next_level (map Some l ++ replicate p None) = map Some (pair_up l) ++ replicate (p / 2) None.
Proof.
  revert p. induction l as [l IH] using (induction_ltof1 _ (@length _)); unfold ltof in IH.
  intros p [k Hk]. destruct l as [|a [|b l]]; cbn [map app pair_up length] in *.
  - rewrite Nat.add_0_l in Hk. subst p. by rewrite next_level_none, half_even.
  - destruct p as [|p]; [lia|]. assert (p = 2 * (k - 1))%nat as -> by lia.
    rewrite half_odd. cbn [replicate next_level merkle_parent]. by rewrite next_level_none.
  - cbn [next_level merkle_parent]. f_equal. apply IH; [lia|]. exists (k - 1)%nat. lia.
Qed.

Lemma length_pair_up l : length (pair_up l) = Nat.div2 (S (length l)).
Proof.
  induction l as [l IH] using (induction_ltof1 _ (@length _)); unfold ltof in IH.
  destruct l as [|a [|b l]]; [done|done|]. simpl. f_equal. apply IH. simpl; lia.
Qed.

Lemma iter_next_level d l p :
  (length l + p = 2 ^ d)%nat -> l <> [] ->
  Nat.iter d next_level (map Some l ++ replicate p None) =
  map Some (Nat.iter d pair_up l).
Proof.
  revert l p. induction d as [|d IH]; intros l p Hl Hne.
  - simpl in *. destruct l as [|a [|b l]]; simpl in *; try lia; [done|].
    assert (p = O) as -> by lia. done.
  - rewrite !Nat.iter_succ_r. rewrite Nat.pow_succ_r' in Hl.
    rewrite next_level_pair_up by (exists (2 ^ d)%nat; lia). apply IH.
    + rewrite length_pair_up, Nat.div2_div.
      pose proof (Nat.div_mod_eq p 2). pose proof (Nat.div_mod_eq (S (length l)) 2).
      pose proof (Nat.mod_upper_bound p 2). pose proof (Nat.mod_upper_bound (S (length l)) 2). lia.
    + by destruct l as [|? [|? ?]].
Qed.

(** The level by level root, after exactly [d] levels. *)
Lemma merkle_root_levels_iter d fuel l :
  (length l <= 2 ^ d)%nat -> (2 ^ d < 2 * length l)%nat -> (d <= fuel)%nat ->
  Nat.iter d pair_up l = [merkle_root_levels fuel l].
Proof.
  revert fuel l. induction d as [|d IH]; intros fuel l Hle Hlt Hf.
  - simpl in *. destruct l as [|a [|b l]]; simpl in *; try lia. by destruct fuel.
  - rewrite Nat.iter_succ_r. rewrite Nat.pow_succ_r' in *.
    assert (0 < 2 ^ d)%nat by (apply Nat.neq_0_lt_0, Nat.pow_nonzero; lia).
    destruct l as [|a [|b l]]; simpl length in *; [lia|lia|].
    destruct fuel as [|fuel]; [lia|]. cbn [merkle_root_levels].
    pose proof (length_pair_up (a :: b :: l)) as Hp. simpl length in Hp at 2.
    rewrite Nat.div2_div in Hp. pose proof (Nat.div_mod_eq (S (S (S (length l)))) 2).
    pose proof (Nat.mod_upper_bound (S (S (S (length l)))) 2). apply IH; lia.
Qed.

Lemma pow2_gt (d : nat) : (d < 2 ^ d)%nat.
Proof. apply Nat.pow_gt_lin_r; lia. Qed.

Lemma merkle_root_spec_iter d l :
  (length l <= 2 ^ d)%nat -> (2 ^ d < 2 * length l)%nat ->
  Nat.iter d pair_up l = [merkle_root_spec l].
Proof.
  intros Hle Hlt. apply merkle_root_levels_iter; [done|done|].
  destruct d as [|d]; [lia|]. rewrite Nat.pow_succ_r' in Hlt. pose proof (pow2_gt d). lia.
Qed.

(** The array before the loop, cut at the first level. *)
Lemma take_leaves (n k : nat) l :
  (length l <= n <= k)%nat ->
  take n (map Some l ++ replicate (k - length l) None) =
  map (@Some bytes) l ++ replicate (n - length l) None.
Proof.
  intros Hn. rewrite take_app, take_ge by (rewrite length_map; lia).
  rewrite length_map, take_replicate. do 2 f_equal. lia.
Qed.

Lemma BuildMerkleTreeStore_last l :
  l <> [] -> len l <= 2 ^ 43 ->
  exists tree, BuildMerkleTreeStore l = Ok tree /\ last tree = Some (Some (merkle_root_spec l)).
Proof.
  intros Hne Hlen. assert (Hpos : (0 < length l)%nat) by (destruct l; simpl; [done|lia]).
  destruct (NextPowerOfTwo_nat (length l) Hpos) as (d & Hd & Hle & Hlt).
  unfold BuildMerkleTreeStore, len in *. rewrite Hd. set (n := (2 ^ d)%nat) in *.
  assert (Hmk : make_panics 8 (Z.of_nat n * 2 - 1) = false).
  { unfold make_panics, maxAlloc. apply orb_false_intro; [apply Z.ltb_ge|apply Z.ltb_ge]; lia. }
  rewrite Hmk. eexists; split; [reflexivity|].
  replace (Z.to_nat (Z.of_nat n * 2 - 1)) with (2 * n - 1)%nat by lia. rewrite Nat2Z.id.
  replace (Z.to_nat (Z.of_nat n * 2 - 1 - 1) / 2)%nat with (n - 1)%nat
    by (apply Nat.div_unique with O; lia).
  set (m := map Some l ++ _).
  assert (Hm : length m = (2 * n - 1)%nat).
  { unfold m. rewrite length_app, length_map, length_replicate. lia. }
  destruct (merkle_loop_spec (n - 1) n 0 m) as (H1 & H2 & H3); [lia|done|].
  rewrite Nat.add_0_r in *. simpl (2 * 0)%nat in *. set (m' := merkle_loop _ _ _ m) in *.
  assert (Ht : take n m' = map Some l ++ replicate (n - length l) None).
  { rewrite <-(take_leaves n (2 * n - 1) l) by lia. apply list_eq; intros i.
    rewrite !lookup_take. destruct (decide (i < n)%nat); [by apply H2|done]. }
  rewrite last_lookup, H1, Hm.
  pose proof (array_levels d m' d 0) as Ha. cbv zeta in Ha. fold n in Ha.
  rewrite Nat.sub_diag in Ha. simpl (2 ^ 0)%nat in Ha.
  replace (Init.Nat.pred (2 * n - 1)) with (2 * n - 2 * 1 + 0)%nat by lia.
  rewrite Ha by (try lia; intros; apply H3; lia).
  rewrite Ht, (iter_next_level d) by (first [done|fold n; lia]).
  rewrite merkle_root_spec_iter by done. done.
Qed.

(** * The coinbase proof *)

(** The level above the coinbase, without its first node. *)
Definition pad_level l : list bytes :=
  if negb (Z.rem (len l) 2 =? 0) then l ++ [List.last l ZeroHash] else l.

Lemma pad_level_cons2 a b l : l <> [] -> pad_level (a :: b :: l) = a :: b :: pad_level l.
Proof.
  intros Hl. unfold pad_level. rewrite !len_cons.
  replace (1 + (1 + len l)) with (len l + 1 * 2) by lia.
  rewrite Z.rem_add by (pose proof (len_nonneg l); lia).
  destruct (negb _); [|done]. by destruct l.
Qed.

Lemma nth_at_len pre a l : nth (Z.to_nat (len pre)) (pre ++ a :: l) ZeroHash = a.
Proof. by rewrite to_nat_len, app_nth2, Nat.sub_diag by lia. Qed.
Lemma nth_after_len pre a b l : nth (Z.to_nat (len pre + 1)) (pre ++ a :: b :: l) ZeroHash = b.
Proof.
  replace (Z.to_nat (len pre + 1)) with (length pre + 1)%nat by (unfold len; lia).
  by rewrite app_nth2_plus.
Qed.

Lemma rangeSteps_pair_up fuel l pre :
  (length l <= fuel)%nat ->
  map (fun r => HashMerkleBranches (nth (Z.to_nat r) (pre ++ pad_level l) ZeroHash)
                  (nth (Z.to_nat (r + 1)) (pre ++ pad_level l) ZeroHash))
      (rangeSteps_loop fuel (len pre) (len pre + len l) 2) = pair_up l.
Proof.
  revert l pre. induction fuel as [|fuel IH]; intros l pre Hf.
  { destruct l; [done|simpl in Hf; lia]. }
  cbn [rangeSteps_loop Z.ltb Z.compare]. destruct l as [|a [|b l]].
  - rewrite len_nil, Z.add_0_r, Z.ltb_irrefl. done.
  - rewrite len_cons, len_nil. destruct (Z.ltb_spec (len pre) (len pre + (1 + 0))); [|lia].
    simpl map. change (pad_level [a]) with [a; a]. destruct fuel; cbn [rangeSteps_loop].
    all: rewrite ?(proj2 (Z.ltb_ge (len pre + 2) (len pre + (1 + 0)))) by lia; simpl.
    all: by rewrite nth_at_len, nth_after_len.
  - rewrite !len_cons. pose proof (len_nonneg l).
    destruct (Z.ltb_spec (len pre) (len pre + (1 + (1 + len l)))); [|lia].
    cbn [map pair_up]. f_equal.
    + destruct l as [|c l]; [change (pad_level [a; b]) with [a; b]|rewrite pad_level_cons2 by done].
      all: by rewrite ?(nth_at_len pre), ?(nth_after_len pre).
    + replace (len pre + 2) with (len (pre ++ [a; b])) by len_solve.
      replace (len pre + (1 + (1 + len l))) with (len (pre ++ [a; b]) + len l) by len_solve.
      rewrite <-(IH l (pre ++ [a; b])) by (simpl in Hf; lia). destruct l as [|c l].
      { rewrite len_nil, Z.add_0_r.
        by destruct fuel; cbn [rangeSteps_loop]; rewrite ?Z.ltb_irrefl. }
      rewrite pad_level_cons2 by done. by rewrite <-app_assoc.
Qed.

Lemma coinbase_proof_root fuel c x l :
  (length l <= fuel)%nat ->
  fold_left HashMerkleBranches (coinbase_proof_loop fuel (x :: l)) c =
  merkle_root_levels fuel (c :: l).
Proof.
  revert c x l. induction fuel as [|fuel IH]; intros c x l Hf.
  { destruct l; [done|simpl in Hf; lia]. }
  destruct l as [|y l]; [done|]. cbn [coinbase_proof_loop].
  pose proof (len_nonneg l). rewrite (proj2 (Z.ltb_lt 1 _)) by len_solve.
  cbv zeta. cbn [fold_left nth]. fold (pad_level (x :: y :: l)).
  unfold rangeSteps. rewrite !len_cons.
  replace (_ && _ || _) with (len l =? 0) by (destruct (Z.eqb_spec (len l) 0); destruct (Z.leb_spec (1 + (1 + len l)) 2); simpl; lia).
  replace (map _ _) with (pair_up l).
  - rewrite IH; [done|]. rewrite length_pair_up. apply Nat.div2_decr. simpl in Hf. lia.
  - destruct (Z.eqb_spec (len l) 0) as [E|E]; [by apply len_zero_nil in E as ->|].
    rewrite pad_level_cons2 by (intros ->; done).
    rewrite <-(rangeSteps_pair_up (Z.to_nat (Z.abs (1 + (1 + len l) - 2)) + 1) l [x; y])
      by (unfold len; lia).
    do 2 f_equal. len_solve.
Qed.
End merkle.

(** * Properties *)

Section properties.
Context `{HashFunction}.

(** C24: [MerkleTreeRoot] of a non-empty list of at most 2^43 hashes returns the
    merkle root defined level by level (the array of BuildMerkleTreeStore, padded
    with nil nodes to a power of two, holds that root in its last cell), and
    [ValidateMerkleTreeRoot] accepts exactly that root. *)
Theorem merkle_tree_root (l : list bytes) (expected : bytes) :
  l <> [] -> len l <= 2 ^ 43 ->
  MerkleTreeRoot l = Ok (merkle_root_spec l) /\
  ValidateMerkleTreeRoot l expected = Ok (bool_decide (merkle_root_spec l = expected)).
Proof.
  intros Hne Hlen. destruct (BuildMerkleTreeStore_last l Hne Hlen) as (tree & E & Hl).
  unfold MerkleTreeRoot, ValidateMerkleTreeRoot. rewrite E; cbn. by rewrite Hl.
Qed.

(** The coinbase proof is complete: folding the hashes of
    [BuildCoinbaseMerkleTreeProof] onto the first hash of a non-empty list gives
    the merkle root of the list, also when the proof was built from a list whose
    first hash is another one (the proof never mentions the coinbase), and
    [ValidateCoinbaseMerkleTreeProof] accepts it against [MerkleTreeRoot]. *)
Theorem coinbase_merkle_proof (c x : bytes) (l : list bytes) :
  let proof := BuildCoinbaseMerkleTreeProof (x :: l) in
  CoinbaseMerkleTreeProofRoot c proof = merkle_root_spec (c :: l) /\
  (len (c :: l) <= 2 ^ 43 ->
   forall root, MerkleTreeRoot (c :: l) = Ok root ->
   ValidateCoinbaseMerkleTreeProof c proof root = true).
Proof.
  cbv zeta. unfold BuildCoinbaseMerkleTreeProof, ValidateCoinbaseMerkleTreeProof, CoinbaseMerkleTreeProofRoot.
  rewrite coinbase_proof_root by (simpl; lia). split; [done|]. intros Hlen root E.
  destruct (BuildMerkleTreeStore_last (c :: l) ltac:(done) Hlen) as (tree & Et & Hl).
  unfold MerkleTreeRoot in E. rewrite Et in E; cbn in E. rewrite Hl in E. injection E as <-.
  by apply bool_decide_eq_true.
Qed.
End properties.

(** * The textual form of a hash *)

Lemma hex_value_digit n : 0 <= n < 16 ->
  hex_value (byte.unsigned (byte.of_Z (hex_digit n))) = Some n.
Proof.
  intros Hn. rewrite byte.unsigned_of_Z. unfold byte.wrap.
  assert (E : forall k, 0 <= k < 16 -> k = 0 \/ k = 1 \/ k = 2 \/ k = 3 \/ k = 4 \/ k = 5 \/
    k = 6 \/ k = 7 \/ k = 8 \/ k = 9 \/ k = 10 \/ k = 11 \/ k = 12 \/ k = 13 \/ k = 14 \/ k = 15)
    by lia.
  specialize (E n Hn). by repeat destruct E as [->|E]; [..|subst].
Qed.

Lemma hex_roundtrip bs : hex_Decode (hex_EncodeToString bs) = Ok bs.
Proof.
  induction bs as [|b bs IH]; [done|]. cbn [hex_EncodeToString hex_Decode].
  pose proof (byte.unsigned_range b).
  rewrite !hex_value_digit by (Z.to_euclidean_division_equations; lia).
  rewrite IH. cbn. rewrite <-Z.div_mod by lia. by rewrite byte.of_Z_unsigned.
Qed.

Lemma len_hex bs : len (hex_EncodeToString bs) = 2 * len bs.
Proof. induction bs; [done|]. cbn [hex_EncodeToString]. rewrite !len_cons. lia. Qed.

(** The textual form of a hash decodes back to it: [NewHashFromStr] of
    [Hash.String] is the hash, and a shorter string decodes to the bytes of its
    digits, least significant first, padded with zeros to 32 bytes. *)
Theorem hash_string_roundtrip (bs : bytes) :
  len bs <= HashSize ->
  NewHashFromStr (Hash_String bs) = Ok (bs ++ replicate (Z.to_nat (HashSize - len bs)) Byte.x00).
Proof.
  intros Hb. unfold NewHashFromStr, Hash_Decode, Hash_String.
  assert (Hl : len (rev bs) = len bs) by (unfold len; by rewrite length_rev).
  rewrite len_hex, Hl, (proj2 (Z.ltb_ge _ _)) by (unfold MaxHashStringSize; lia).
  rewrite Z.even_even, len_hex, Hl, hex_roundtrip. cbn [mbind outcome_bind].
  rewrite Z.mul_comm, Z.div_mul, rev_app_distr, rev_involutive by lia. do 2 f_equal.
  rewrite rev_alt. apply reverse_replicate.
Qed.

Lemma hash_string_roundtrip_witness :
  NewHashFromStr (Hash_String (mkbytes [0xab; 0xcd])) =
  Ok (mkbytes [0xab; 0xcd] ++ replicate 30 Byte.x00).
Proof. apply (hash_string_roundtrip (mkbytes [0xab; 0xcd])). vm_compute. discriminate. Defined.

(** The hypotheses of the merkle theorems hold on three hashes. *)
Lemma merkle_tree_root_witness :
  let l := [replicate 32 Byte.x01; replicate 32 Byte.x02; replicate 32 Byte.x03] in
  @MerkleTreeRoot sha256_instance l = Ok (@merkle_root_spec sha256_instance l) /\
  @ValidateMerkleTreeRoot sha256_instance l ZeroHash =
    Ok (bool_decide (@merkle_root_spec sha256_instance l = ZeroHash)).
Proof. intros l. apply merkle_tree_root; [done|]. vm_compute. discriminate. Defined.

(** The arrays are evaluated with SHA-256 on three leaves. *)
Lemma coinbase_merkle_proof_witness :
  let l := [replicate 32 Byte.x01; replicate 32 Byte.x02; replicate 32 Byte.x03] in
  let proof := @BuildCoinbaseMerkleTreeProof sha256_instance l in
  @ValidateCoinbaseMerkleTreeProof sha256_instance (replicate 32 Byte.x01) proof
    (@merkle_root_spec sha256_instance l) = true.
Proof.
  intros l proof. apply (coinbase_merkle_proof (replicate 32 Byte.x01) (replicate 32 Byte.x01)
    [replicate 32 Byte.x02; replicate 32 Byte.x03]).
  - vm_compute. discriminate.
  - vm_compute. reflexivity.
Defined.
