(* ===== verification/WireHeader.v ===== *)
(** Block headers: types/wire/block_header.go, block_header_btc.go,
    block_header_beacon.go and block_header_shard.go, and the hashes of
    transactions (types/wire/msg_tx.go).

    A header is a record; [BlockHeader] is the sum of the two implementations of
    the interface.  The pointer [chainWeight] is non-nil in every header here
    (serializing a nil one is a nil dereference); times are Unix seconds. *)

From S2P Require Import Prelude Big WireEncoding WireTx Sha256 Chainhash.

(** * BVersion: the version and its flag bits *)

Definition flagsReserve : Z := 4.
Definition ExpansionApprove : Z := Z.shiftl 1 1.
Definition ExpansionMade : Z := Z.shiftl 1 2.

Definition NewBVersion (version : Z) : Z := swrap 32 (Z.shiftl version flagsReserve).
Definition BVersion_Version (bv : Z) : Z := Z.shiftr bv flagsReserve.
Definition ExpansionApproved (bv : Z) : bool := Z.land bv ExpansionApprove =? ExpansionApprove.
Definition SetExpansionApproved (bv : Z) : Z := Z.lor bv ExpansionApprove.
Definition UnsetExpansionApproved (bv : Z) : Z :=
  if Z.land bv ExpansionApprove =? ExpansionApprove then Z.lxor bv ExpansionApprove else bv.
Definition BVersion_ExpansionMade (bv : Z) : bool := Z.land bv ExpansionMade =? ExpansionMade.
Definition SetExpansionMade (bv : Z) : Z := Z.lor bv ExpansionMade.
Definition UnsetExpansionMade (bv : Z) : Z :=
  if Z.land bv ExpansionMade =? ExpansionMade then Z.lxor bv ExpansionMade else bv.

(** * Hash arrays and big integers (block_header_beacon.go) *)

Definition ReadHashArray : reader (list bytes) :=
  count ← ReadVarInt;
  if make_panics 32 count then read_panic
  else read_n (Z.to_nat count) (ReadElement T_Hash).

Definition WriteHashArray (data : list bytes) : writer :=
  WriteVarInt (len data) +++ wlist (WriteElement T_Hash) data.

Definition ReadBigInt : reader Z :=
  count ← ReadVarInt;
  if make_panics 1 count then read_panic
  else buf ← ReadElement T_slice; mret (big_SetBytes buf).

Definition WriteBigInt (val : Z) : writer :=
  let data := big_Bytes val in
  WriteVarInt (len data) +++ WriteElement T_slice data.

(** * Data *)

Record CoinbaseAux := { Ca_Tx : MsgTx; TxMerkleProof : list bytes }.

Record BTCBlockAux := {
  Aux_Version : Z; Aux_PrevBlock : bytes; Aux_MerkleRoot : bytes; Aux_Timestamp : Z;
  Aux_Bits : Z; Aux_Nonce : Z; Aux_CoinbaseAux : CoinbaseAux
}.

Record BeaconHeader := {
  bh_version : Z; bh_prevMMRRoot : bytes; bh_height : Z; bh_prevBlock : bytes;
  bh_merkleRoot : bytes; bh_bits : Z; bh_chainWeight : Z; bh_shards : Z; bh_k : Z; bh_voteK : Z;
  bh_mergeMiningRoot : bytes; bh_mergeMiningNumber : Z; bh_treeEncoding : bytes;
  bh_mergeMiningProof : list bytes; bh_treeCodingLengthBits : Z; bh_btcAux : BTCBlockAux
}.

Record ShardHeader := {
  sh_height : Z; sh_prevMMRRoot : bytes; sh_prevBlock : bytes; sh_merkleRoot : bytes;
  sh_bits : Z; sh_chainWeight : Z; sh_shardMerkleProof : list bytes;
  sh_beaconHeader : BeaconHeader; sh_beaconCoinbase : CoinbaseAux
}.

Inductive BlockHeader := HBeacon (h : BeaconHeader) | HShard (h : ShardHeader).

(** * CoinbaseAux and BTCBlockAux *)

Definition CoinbaseAux_Deserialize : reader CoinbaseAux :=
  tx ← MsgTx_BtcDecode BaseEncoding;
  proof ← ReadHashArray;
  mret {| Ca_Tx := tx; TxMerkleProof := proof |}.

Definition CoinbaseAux_Serialize (h : CoinbaseAux) : writer :=
  MsgTx_BtcEncode BaseEncoding (Ca_Tx h) +++ WriteHashArray (TxMerkleProof h).

Definition readBTCBlockHeader : reader BTCBlockAux :=
  '(v, (prev, (root, (ts, (bits, (nonce, _)))))) ←
    ReadElements [T_int32; T_Hash; T_Hash; T_Uint32Time; T_uint32; T_uint32];
  aux ← CoinbaseAux_Deserialize;
  mret {| Aux_Version := v; Aux_PrevBlock := prev; Aux_MerkleRoot := root; Aux_Timestamp := ts;
          Aux_Bits := bits; Aux_Nonce := nonce; Aux_CoinbaseAux := aux |}.

(** The header without the coinbase, as Bitcoin has it. *)
Definition writeBTCFields (bh : BTCBlockAux) : writer :=
  WriteElements [T_int32; T_Hash; T_Hash; T_uint32; T_uint32; T_uint32]
    (Aux_Version bh, (Aux_PrevBlock bh, (Aux_MerkleRoot bh, (uwrap 32 (Aux_Timestamp bh),
     (Aux_Bits bh, (Aux_Nonce bh, tt)))))).

Definition writeBTCBlockHeader (bh : BTCBlockAux) : writer :=
  writeBTCFields bh +++ CoinbaseAux_Serialize (Aux_CoinbaseAux bh).

Definition CoinbaseAux_Copy (h : CoinbaseAux) : CoinbaseAux :=
  {| Ca_Tx := MsgTx_Copy (Ca_Tx h); TxMerkleProof := TxMerkleProof h |}.

Definition BTCBlockAux_Copy (h : BTCBlockAux) : BTCBlockAux :=
  {| Aux_Version := Aux_Version h; Aux_PrevBlock := Aux_PrevBlock h;
     Aux_MerkleRoot := Aux_MerkleRoot h; Aux_Timestamp := Aux_Timestamp h; Aux_Bits := Aux_Bits h;
     Aux_Nonce := Aux_Nonce h; Aux_CoinbaseAux := CoinbaseAux_Copy (Aux_CoinbaseAux h) |}.

(** * Beacon headers *)

Definition beaconMagicByte : Init.Byte.byte := Byte.x6d.
Definition shardMagic : Init.Byte.byte := Byte.x73.

Definition read_magic (expected : Init.Byte.byte) (err : string) (skipMagicCheck : bool) : reader unit :=
  if skipMagicCheck then mret tt
  else magicN ← ReadElement (T_array 1);
       if decide (magicN = [expected]) then mret tt else read_fail (errorString err).

(** The fields after the magic byte; the writer passes some of them by pointer. *)
Definition beacon_read_types : list elem_type :=
  [T_named true 4; T_int32; T_Hash; T_Hash; T_Hash; T_Hash; T_uint32; T_uint32; T_uint32; T_uint32;
   T_uint32; T_slice; T_uint32].
Definition beacon_write_types : list elem_type :=
  [T_named true 4; T_int32; T_Hash; T_Hash; T_Hash; T_Hash; T_uint32; T_uint32; T_uint32; T_uint32;
   T_named false 4; T_slice; T_uint32].

Definition readBeaconBlockHeader (skipMagicCheck : bool) : reader BeaconHeader :=
  _ ← read_magic beaconMagicByte "invalid magic byte, expected beacon" skipMagicCheck;
  '(version, (height, (prevMMRRoot, (prevBlock, (merkleRoot, (mergeMiningRoot, (bits, (shards,
    (k, (voteK, (mergeMiningNumber, (treeEncoding, (treeCodingLengthBits, _))))))))))))) ←
    ReadElements beacon_read_types;
  chainWeight ← ReadBigInt;
  mergeMiningProof ← ReadHashArray;
  btcAux ← readBTCBlockHeader;
  mret {| bh_version := version; bh_prevMMRRoot := prevMMRRoot; bh_height := height;
          bh_prevBlock := prevBlock; bh_merkleRoot := merkleRoot; bh_bits := bits;
          bh_chainWeight := chainWeight; bh_shards := shards; bh_k := k; bh_voteK := voteK;
          bh_mergeMiningRoot := mergeMiningRoot; bh_mergeMiningNumber := mergeMiningNumber;
          bh_treeEncoding := treeEncoding; bh_mergeMiningProof := mergeMiningProof;
          bh_treeCodingLengthBits := treeCodingLengthBits; bh_btcAux := btcAux |}.

Definition beacon_fields (bh : BeaconHeader) : elems_val beacon_write_types :=
  (bh_version bh, (bh_height bh, (bh_prevMMRRoot bh, (bh_prevBlock bh, (bh_merkleRoot bh,
  (bh_mergeMiningRoot bh, (bh_bits bh, (bh_shards bh, (bh_k bh, (bh_voteK bh,
  (bh_mergeMiningNumber bh, (bh_treeEncoding bh, (bh_treeCodingLengthBits bh, tt))))))))))))).

Definition writeBeaconBlockHeader (bh : BeaconHeader) : writer :=
  WriteElements (T_array 1 :: beacon_write_types) ([beaconMagicByte], beacon_fields bh) +++
  WriteBigInt (bh_chainWeight bh) +++
  WriteHashArray (bh_mergeMiningProof bh) +++
  writeBTCBlockHeader (bh_btcAux bh).

(** A record update: the header with another bitcoin auxiliary header. *)
Definition bh_set_btcAux (aux : BTCBlockAux) (h : BeaconHeader) : BeaconHeader :=
  {| bh_version := bh_version h; bh_prevMMRRoot := bh_prevMMRRoot h; bh_height := bh_height h;
     bh_prevBlock := bh_prevBlock h; bh_merkleRoot := bh_merkleRoot h; bh_bits := bh_bits h;
     bh_chainWeight := bh_chainWeight h; bh_shards := bh_shards h; bh_k := bh_k h;
     bh_voteK := bh_voteK h; bh_mergeMiningRoot := bh_mergeMiningRoot h;
     bh_mergeMiningNumber := bh_mergeMiningNumber h; bh_treeEncoding := bh_treeEncoding h;
     bh_mergeMiningProof := bh_mergeMiningProof h;
     bh_treeCodingLengthBits := bh_treeCodingLengthBits h; bh_btcAux := aux |}.

Definition bh_set_merkleRoot (root : bytes) (h : BeaconHeader) : BeaconHeader :=
  {| bh_version := bh_version h; bh_prevMMRRoot := bh_prevMMRRoot h; bh_height := bh_height h;
     bh_prevBlock := bh_prevBlock h; bh_merkleRoot := root; bh_bits := bh_bits h;
     bh_chainWeight := bh_chainWeight h; bh_shards := bh_shards h; bh_k := bh_k h;
     bh_voteK := bh_voteK h; bh_mergeMiningRoot := bh_mergeMiningRoot h;
     bh_mergeMiningNumber := bh_mergeMiningNumber h; bh_treeEncoding := bh_treeEncoding h;
     bh_mergeMiningProof := bh_mergeMiningProof h;
     bh_treeCodingLengthBits := bh_treeCodingLengthBits h; bh_btcAux := bh_btcAux h |}.

Definition BeaconHeader_Copy (h : BeaconHeader) : BeaconHeader :=
  bh_set_btcAux (BTCBlockAux_Copy (bh_btcAux h)) h.

(** * Shard headers *)

Definition shard_read_types : list elem_type := [T_int32; T_Hash; T_Hash; T_Hash; T_uint32].
Definition shard_write_types : list elem_type := [T_int32; T_Hash; T_Hash; T_Hash; T_named false 4].

Definition readShardBlockHeader (skipMagicCheck : bool) : reader ShardHeader :=
  _ ← read_magic shardMagic "invalid magic byte, expected shard" skipMagicCheck;
  '(height, (prevMMRRoot, (prevBlock, (merkleRoot, (bits, _))))) ← ReadElements shard_read_types;
  chainWeight ← ReadBigInt;
  shardMerkleProof ← ReadHashArray;
  beaconHeader ← readBeaconBlockHeader false;
  beaconCoinbase ← CoinbaseAux_Deserialize;
  mret {| sh_height := height; sh_prevMMRRoot := prevMMRRoot; sh_prevBlock := prevBlock;
          sh_merkleRoot := merkleRoot; sh_bits := bits; sh_chainWeight := chainWeight;
          sh_shardMerkleProof := shardMerkleProof; sh_beaconHeader := beaconHeader;
          sh_beaconCoinbase := beaconCoinbase |}.

Definition shard_fields (bh : ShardHeader) : elems_val shard_write_types :=
  (sh_height bh, (sh_prevMMRRoot bh, (sh_prevBlock bh, (sh_merkleRoot bh, (sh_bits bh, tt))))).

Definition WriteShardBlockHeader (bh : ShardHeader) : writer :=
  WriteElements (T_array 1 :: shard_write_types) ([shardMagic], shard_fields bh) +++
  WriteBigInt (sh_chainWeight bh) +++
  WriteHashArray (sh_shardMerkleProof bh) +++
  writeBeaconBlockHeader (sh_beaconHeader bh) +++
  CoinbaseAux_Serialize (sh_beaconCoinbase bh).

Definition sh_set_beacon (b : BeaconHeader) (aux : CoinbaseAux) (h : ShardHeader) : ShardHeader :=
  {| sh_height := sh_height h; sh_prevMMRRoot := sh_prevMMRRoot h; sh_prevBlock := sh_prevBlock h;
     sh_merkleRoot := sh_merkleRoot h; sh_bits := sh_bits h; sh_chainWeight := sh_chainWeight h;
     sh_shardMerkleProof := sh_shardMerkleProof h; sh_beaconHeader := b;
     sh_beaconCoinbase := aux |}.

Definition ShardHeader_Copy (h : ShardHeader) : ShardHeader :=
  sh_set_beacon (BeaconHeader_Copy (sh_beaconHeader h)) (sh_beaconCoinbase h) h.

(** * The interface *)

Definition DecodeHeader : reader BlockHeader :=
  magicN ← ReadElement (T_array 1);
  if decide (magicN = [beaconMagicByte]) then
    h ← readBeaconBlockHeader true; mret (HBeacon h)
  else if decide (magicN = [shardMagic]) then
    h ← readShardBlockHeader true; mret (HShard h)
  else read_fail (errorString "invalid magic byte, expected beacon or shard").

Definition Header_Write (h : BlockHeader) : writer :=
  match h with
  | HBeacon h => writeBeaconBlockHeader h
  | HShard h => WriteShardBlockHeader h
  end.

(** [h.Read(r)]: the implementation of the receiver reads its own format. *)
Definition Header_Read (h : BlockHeader) : reader BlockHeader :=
  match h with
  | HBeacon _ => h ← readBeaconBlockHeader false; mret (HBeacon h)
  | HShard _ => h ← readShardBlockHeader false; mret (HShard h)
  end.

Definition Header_Copy (h : BlockHeader) : BlockHeader :=
  match h with
  | HBeacon h => HBeacon (BeaconHeader_Copy h)
  | HShard h => HShard (ShardHeader_Copy h)
  end.

Definition MaxBeaconBlockHeaderPayload : Z := 1024.
Definition MaxShardBlockHeaderPayload : Z := MaxBeaconBlockHeaderPayload * 2.

Definition Header_MaxLength (h : BlockHeader) : Z :=
  match h with HBeacon _ => MaxBeaconBlockHeaderPayload | HShard _ => MaxShardBlockHeaderPayload end.

(** * Hashes *)

Section hashes.
Context `{HashFunction}.

Definition TxHash (msg : MsgTx) : bytes := DoubleHashH (wbytes (MsgTx_SerializeNoWitness msg)).

Definition WitnessHash (msg : MsgTx) : bytes :=
  if HasWitness msg then DoubleHashH (wbytes (MsgTx_Serialize msg)) else TxHash msg.

(** [for i, tx := range transactions { switch ... }] *)
Definition CollectTxHashes (transactions : list MsgTx) (witness : bool) : list bytes :=
  imap (fun i tx => if witness && (i =? 0)%nat then ZeroHash
                    else if witness then WitnessHash tx
                    else TxHash tx) transactions.

Definition CoinbaseAux_New : CoinbaseAux :=
  let tx := {| Version := 0;
               Tx_TxIn := [{| PreviousOutPoint := {| Op_Hash := ZeroHash; Op_Index := MaxUint32 |};
                              SignatureScript := []; Witness := None; Sequence := 0; Age := 0 |}];
               Tx_TxOut := []; LockTime := 0 |} in
  {| Ca_Tx := tx; TxMerkleProof := [TxHash tx] |}.

(** [CoinbaseAux{}.FromBlock(block, witness)]: panics without transactions. *)
Definition CoinbaseAux_FromBlock (transactions : list MsgTx) (witness : bool) : outcome CoinbaseAux :=
  match transactions with
  | [] => Panic
  | tx :: _ =>
      Ok {| Ca_Tx := MsgTx_Copy tx;
            TxMerkleProof := BuildCoinbaseMerkleTreeProof (CollectTxHashes transactions witness) |}
  end.

Definition UpdatedMerkleRoot (h : CoinbaseAux) : bytes :=
  if len (TxMerkleProof h) =? 0 then TxHash (Ca_Tx h)
  else CoinbaseMerkleTreeProofRoot (TxHash (Ca_Tx h)) (TxMerkleProof h).

Definition CoinbaseAux_Validate (h : CoinbaseAux) (merkleRoot : bytes) : option go_error :=
  if negb (ValidateCoinbaseMerkleTreeProof (TxHash (Ca_Tx h)) (TxMerkleProof h) merkleRoot)
  then Some (errorString "tx_merkle tree root is not match with blockMerkle root")
  else None.

(** [tx.TxIn[0].SignatureScript = script]: panics without inputs. *)
Definition set_coinbase_script (script : bytes) (tx : MsgTx) : outcome MsgTx :=
  match Tx_TxIn tx with
  | [] => Panic
  | ti :: tis =>
      Ok {| Version := Version tx;
            Tx_TxIn := {| PreviousOutPoint := PreviousOutPoint ti; SignatureScript := script;
                          Witness := Witness ti; Sequence := Sequence ti; Age := Age ti |} :: tis;
            Tx_TxOut := Tx_TxOut tx; LockTime := LockTime tx |}
  end.

Definition UpdateCoinbaseScript (coinbaseScript : bytes) (h : BTCBlockAux) : outcome BTCBlockAux :=
  tx ← set_coinbase_script coinbaseScript (Ca_Tx (Aux_CoinbaseAux h));
  let aux := {| Ca_Tx := tx; TxMerkleProof := TxMerkleProof (Aux_CoinbaseAux h) |} in
  Ok {| Aux_Version := Aux_Version h; Aux_PrevBlock := Aux_PrevBlock h;
        Aux_MerkleRoot := UpdatedMerkleRoot aux; Aux_Timestamp := Aux_Timestamp h;
        Aux_Bits := Aux_Bits h; Aux_Nonce := Aux_Nonce h; Aux_CoinbaseAux := aux |}.

Definition BTCBlockAux_BlockHash (h : BTCBlockAux) : bytes := DoubleHashH (wbytes (writeBTCFields h)).

Definition BeaconExclusiveHash (h : BeaconHeader) : bytes :=
  DoubleHashH (wbytes (WriteElements
    [T_named true 4; T_int32; T_Hash; T_Hash; T_Hash; T_Hash; T_uint32; T_named false 4;
     T_named false 4; T_named false 4; T_named false 4; T_slice; T_named false 4]
    (bh_version h, (bh_height h, (bh_prevMMRRoot h, (bh_prevBlock h, (bh_merkleRoot h,
    (bh_mergeMiningRoot h, (bh_bits h, (bh_shards h, (bh_k h, (bh_voteK h,
    (bh_mergeMiningNumber h, (bh_treeEncoding h, (bh_treeCodingLengthBits h, tt))))))))))))))).

Definition BeaconHeader_BlockHash (h : BeaconHeader) : bytes :=
  DoubleHashH (wbytes (
    WriteElements
      [T_named true 4; T_int32; T_Hash; T_Hash; T_Hash; T_uint32; T_named false 4;
       T_named false 4; T_named false 4; T_named false 4; T_slice; T_named false 4]
      (bh_version h, (bh_height h, (bh_prevMMRRoot h, (bh_merkleRoot h,
      (bh_mergeMiningRoot h, (bh_bits h, (bh_shards h, (bh_k h, (bh_voteK h,
      (bh_mergeMiningNumber h, (bh_treeEncoding h, (bh_treeCodingLengthBits h, tt)))))))))))) +++
    WriteElements [T_Hash] (BTCBlockAux_BlockHash (bh_btcAux h), tt))).

Definition ShardHeader_ExclusiveHash (h : ShardHeader) : bytes :=
  DoubleHashH (wbytes (WriteElements [T_int32; T_Hash; T_Hash; T_Hash; T_uint32]
    (sh_height h, (sh_prevMMRRoot h, (sh_prevBlock h, (sh_merkleRoot h, (sh_bits h, tt))))))).

Definition ShardHeader_BlockHash (h : ShardHeader) : bytes :=
  DoubleHashH (wbytes (WriteElements [T_int32; T_Hash; T_Hash; T_Hash; T_uint32; T_Hash]
    (sh_height h, (sh_prevMMRRoot h, (sh_prevBlock h, (sh_merkleRoot h, (sh_bits h,
    (BeaconHeader_BlockHash (sh_beaconHeader h), tt)))))))).

Definition Header_BlockHash (h : BlockHeader) : bytes :=
  match h with HBeacon h => BeaconHeader_BlockHash h | HShard h => ShardHeader_BlockHash h end.

Definition PoWHash (h : BlockHeader) : bytes :=
  match h with
  | HBeacon h => BTCBlockAux_BlockHash (bh_btcAux h)
  | HShard h => BTCBlockAux_BlockHash (bh_btcAux (sh_beaconHeader h))
  end.

(** [h.SetBeaconHeader(bh, beaconAux)]: the new receiver and the new value of
    [*bh], which is another header than the one stored in the receiver. *)
Definition ShardHeader_SetBeaconHeader (bh : BeaconHeader) (beaconAux : CoinbaseAux)
    (h : ShardHeader) : ShardHeader * BeaconHeader :=
  let h' := sh_set_beacon bh beaconAux h in
  (h', bh_set_merkleRoot (UpdatedMerkleRoot (sh_beaconCoinbase h')) bh).

End hashes.

(** * Version flags *)

Section flags.
Implicit Types b n : Z.

Lemma land_flag b n : 0 <= n -> Z.land b (2 ^ n) = if Z.testbit b n then 2 ^ n else 0.
Proof.
  intros Hn. apply Z.bits_inj'; intros i Hi. rewrite Z.land_spec, Z.pow2_bits_eqb by done.
  destruct (Z.testbit b n) eqn:E; rewrite ?Z.bits_0, ?Z.pow2_bits_eqb by done;
    destruct (Z.eqb_spec n i) as [<-|]; rewrite ?E; by rewrite ?andb_false_r.
Qed.

Lemma flag_test b n : 0 <= n -> (Z.land b (2 ^ n) =? 2 ^ n) = Z.testbit b n.
Proof.
  intros Hn. rewrite land_flag by done. destruct (Z.testbit b n); [apply Z.eqb_refl|].
  apply Z.eqb_neq. pose proof (Z.pow_pos_nonneg 2 n). lia.
Qed.

Definition unset_flag b n : Z := if Z.land b (2 ^ n) =? 2 ^ n then Z.lxor b (2 ^ n) else b.

Lemma set_flag_bits b n i : 0 <= n -> 0 <= i ->
  Z.testbit (Z.lor b (2 ^ n)) i = if n =? i then true else Z.testbit b i.
Proof.
  intros. rewrite Z.lor_spec, Z.pow2_bits_eqb by done.
  destruct (n =? i); [apply orb_true_r|apply orb_false_r].
Qed.

Lemma unset_flag_bits b n i : 0 <= n -> 0 <= i ->
  Z.testbit (unset_flag b n) i = if n =? i then false else Z.testbit b i.
Proof.
  intros Hn Hi. unfold unset_flag. rewrite flag_test by done.
  destruct (Z.testbit b n) eqn:E.
  - rewrite Z.lxor_spec, Z.pow2_bits_eqb by done.
    destruct (Z.eqb_spec n i) as [<-|]; [by rewrite E|apply xorb_false_r].
  - destruct (Z.eqb_spec n i) as [<-|]; done.
Qed.

(** The bits from [k] on do not change when the flag is below [k]. *)
Lemma shiftr_same_bits x y k : 0 <= k ->
  (forall i, k <= i -> Z.testbit x i = Z.testbit y i) -> Z.shiftr x k = Z.shiftr y k.
Proof.
  intros Hk Hxy. apply Z.bits_inj'; intros i Hi. rewrite !Z.shiftr_spec by done. apply Hxy; lia.
Qed.

Lemma shiftr_set_flag b n k : 0 <= n < k -> Z.shiftr (Z.lor b (2 ^ n)) k = Z.shiftr b k.
Proof.
  intros. apply shiftr_same_bits; [lia|]. intros i Hi. rewrite set_flag_bits by lia.
  by rewrite (proj2 (Z.eqb_neq n i)) by lia.
Qed.
Lemma shiftr_unset_flag b n k : 0 <= n < k -> Z.shiftr (unset_flag b n) k = Z.shiftr b k.
Proof.
  intros. apply shiftr_same_bits; [lia|]. intros i Hi. rewrite unset_flag_bits by lia.
  by rewrite (proj2 (Z.eqb_neq n i)) by lia.
Qed.

Lemma is_int32_shiftr x : is_int 32 x <-> -1 <= Z.shiftr x 31 <= 0.
Proof.
  unfold is_int. rewrite Z.shiftr_div_pow2 by lia. simpl (32 - 1).
  Z.to_euclidean_division_equations; lia.
Qed.
End flags.

(** The flag bits of a block version are independent of each other and of
    the version number.  Setting or clearing the approve flag or the made flag
    sets or clears that flag alone, keeps the number and stays within an int32;
    a version built from a 28-bit number gives the number back with both flags
    clear. *)
Theorem bversion_flags bv :
  (ExpansionApproved (SetExpansionApproved bv) = true /\
   ExpansionApproved (UnsetExpansionApproved bv) = false /\
   BVersion_ExpansionMade (SetExpansionApproved bv) = BVersion_ExpansionMade bv /\
   BVersion_ExpansionMade (UnsetExpansionApproved bv) = BVersion_ExpansionMade bv) /\
  (BVersion_ExpansionMade (SetExpansionMade bv) = true /\
   BVersion_ExpansionMade (UnsetExpansionMade bv) = false /\
   ExpansionApproved (SetExpansionMade bv) = ExpansionApproved bv /\
   ExpansionApproved (UnsetExpansionMade bv) = ExpansionApproved bv) /\
  Forall (fun f => BVersion_Version (f bv) = BVersion_Version bv /\
                   (is_int 32 bv -> is_int 32 (f bv)))
    [SetExpansionApproved; UnsetExpansionApproved; SetExpansionMade; UnsetExpansionMade] /\
  (forall v, -2 ^ 27 <= v < 2 ^ 27 ->
     BVersion_Version (NewBVersion v) = v /\ ExpansionApproved (NewBVersion v) = false /\
     BVersion_ExpansionMade (NewBVersion v) = false).
Proof.
  unfold ExpansionApproved, BVersion_ExpansionMade, SetExpansionApproved, SetExpansionMade,
    UnsetExpansionApproved, UnsetExpansionMade, BVersion_Version, NewBVersion, flagsReserve.
  change ExpansionApprove with (2 ^ 1). change ExpansionMade with (2 ^ 2).
  fold (unset_flag bv 1). fold (unset_flag bv 2).
  rewrite !flag_test, !set_flag_bits, !unset_flag_bits by lia.
  do 2 (split; [done|]). split.
  - rewrite !Forall_cons. split_and!; [..|done].
    all: rewrite ?is_int32_shiftr; fold (unset_flag bv 1); fold (unset_flag bv 2).
    all: by rewrite ?shiftr_set_flag, ?shiftr_unset_flag by lia.
  - intros v Hv. rewrite !flag_test by lia.
    rewrite swrap_id by (unfold is_int; rewrite ?Z.shiftl_mul_pow2; lia).
    rewrite Z.shiftr_shiftl_l, Z.shiftl_0_r by lia.
    by rewrite !Z.shiftl_spec_low by lia.
Qed.

Lemma bversion_flags_witness :
  BVersion_Version (NewBVersion (-5)) = -5 /\
  BVersion_Version (SetExpansionMade (NewBVersion 3)) = BVersion_Version (NewBVersion 3).
Proof.
  split; [apply (bversion_flags 0); lia|].
  destruct (bversion_flags (NewBVersion 3)) as (_ & _ & H & _).
  rewrite !Forall_cons in H. apply H.
Defined.

(** * Hash arrays and big integers *)

Definition hashes_dom (l : list bytes) : Prop :=
  Forall (fun h => len h = HashSize) l /\ len l <= 2 ^ 43.
Definition hashes_bytes (l : list bytes) : bytes := varint_bytes (len l) ++ concat l.

Lemma WriteHashArray_writes l : writes (WriteHashArray l) (hashes_bytes l).
Proof.
  apply writes_seq; [auto with wire|]. rewrite <-(map_id l) at 2.
  apply (writes_list _ (fun h => h)), Forall_forall. intros; apply writes_write.
Qed.

Lemma ReadHashArray_reads l : hashes_dom l -> reads ReadHashArray (hashes_bytes l) l.
Proof.
  intros [Hl Hn]. pose proof (len_nonneg l).
  eapply reads_bind; [apply ReadVarInt_reads; unfold is_uint; lia|].
  replace (make_panics 32 (len l)) with false
    by (symmetry; apply orb_false_intro; apply Z.ltb_ge; unfold maxAlloc; lia).
  rewrite to_nat_len. rewrite <-(map_id l) at 2.
  apply (read_n_reads_id _ (fun h => h)). eapply Forall_impl; [exact Hl|].
  intros h Hh. by apply ReadFull_reads'.
Qed.

Lemma ReadHashArray_panic c rest : is_uint 64 c -> 2 ^ 43 < c ->
  ReadHashArray (varint_bytes c ++ rest) = Panic.
Proof.
  intros Hc Hlt. unfold ReadHashArray, mbind, reader_bind. rewrite (ReadVarInt_reads c Hc rest).
  replace (make_panics 32 c) with true; [done|].
  symmetry. apply orb_true_intro. right. apply Z.ltb_lt. unfold maxAlloc. lia.
Qed.

(** Weights whose byte string has a 32-bit length. *)
Definition weight_dom (v : Z) : Prop := 0 <= v /\ len (big_Bytes v) < 2 ^ 32.
Definition bigint_bytes (v : Z) : bytes :=
  varint_bytes (len (big_Bytes v)) ++ elem_bytes T_slice (big_Bytes v).

Lemma weight_len v : weight_dom v -> is_uint 32 (len (big_Bytes v)).
Proof. intros [Hv Hlt]. split; [apply len_nonneg|done]. Qed.

Lemma WriteBigInt_writes v : weight_dom v -> writes (WriteBigInt v) (bigint_bytes v).
Proof.
  intros Hv. apply writes_seq; [auto with wire|]. apply (WriteElement_writes T_slice).
  by apply weight_len.
Qed.

(** The count in front of the data is read and not used. *)
Lemma ReadBigInt_any_count c data : 0 <= c <= maxAlloc -> is_uint 32 (len data) ->
  reads ReadBigInt (varint_bytes c ++ elem_bytes T_slice data) (big_SetBytes data).
Proof.
  intros Hc Hd. unfold maxAlloc in *.
  eapply reads_bind; [apply ReadVarInt_reads; unfold is_uint; lia|].
  replace (make_panics 1 c) with false
    by (symmetry; apply orb_false_intro; apply Z.ltb_ge; unfold maxAlloc; lia).
  eapply reads_bind_nil; [by apply (ReadElement_reads T_slice)|]. apply reads_ret.
Qed.

Lemma ReadBigInt_reads v : weight_dom v -> reads ReadBigInt (bigint_bytes v) v.
Proof.
  intros Hv. pose proof (weight_len v Hv) as Hl. rewrite <-(big_SetBytes_Bytes v) at 2 by apply Hv.
  apply ReadBigInt_any_count; [|done]. unfold is_uint, maxAlloc in *; lia.
Qed.

(** * Codecs of the auxiliary headers *)

Definition coinbase_dom (c : CoinbaseAux) : Prop :=
  tx_dom BaseEncoding (Ca_Tx c) /\ hashes_dom (TxMerkleProof c).
Definition coinbase_norm (c : CoinbaseAux) : CoinbaseAux :=
  {| Ca_Tx := tx_normal BaseEncoding (Ca_Tx c); TxMerkleProof := TxMerkleProof c |}.
Definition coinbase_bytes (c : CoinbaseAux) : bytes :=
  tx_bytes BaseEncoding (Ca_Tx c) ++ hashes_bytes (TxMerkleProof c).

Lemma coinbase_writes c : writes (CoinbaseAux_Serialize c) (coinbase_bytes c).
Proof. apply writes_seq; [apply MsgTx_BtcEncode_writes|apply WriteHashArray_writes]. Qed.

Lemma coinbase_reads c :
  coinbase_dom c -> reads CoinbaseAux_Deserialize (coinbase_bytes c) (coinbase_norm c).
Proof.
  intros [Ht Hp]. eapply reads_bind; [by apply MsgTx_BtcDecode_reads|].
  eapply reads_bind_nil; [by apply ReadHashArray_reads|]. apply reads_ret.
Qed.

#[export] Instance CoinbaseAux_codec : WireCodec CoinbaseAux := {|
  codec_write := CoinbaseAux_Serialize; codec_read := CoinbaseAux_Deserialize;
  codec_dom := coinbase_dom; codec_norm := coinbase_norm; codec_bytes := coinbase_bytes;
  codec_writes := fun c _ => coinbase_writes c; codec_reads := coinbase_reads
|}.

Lemma ReadElements_cons t ts bs1 bs2 e es :
  reads (ReadElement t) bs1 e -> reads (ReadElements ts) bs2 es ->
  reads (ReadElements (t :: ts)) (bs1 ++ bs2) (e, es).
Proof.
  intros H1 H2. eapply reads_bind; [exact H1|]. eapply reads_bind_nil; [exact H2|apply reads_ret].
Qed.

(** A time written as a uint32 is read back as a time. *)
Lemma ReadElement_Uint32Time v :
  is_uint 32 v -> reads (ReadElement T_Uint32Time) (elem_bytes T_uint32 v) v.
Proof.
  intros Hv. eapply reads_bind_nil; [by apply (ReadElement_reads T_uint32)|].
  rewrite swrap_id by (unfold is_uint, is_int in *; lia). apply reads_ret.
Qed.

(** One element of a list; the types are read off the goal. *)
Ltac read_elem :=
  lazymatch goal with
  | |- reads (ReadElements (?t :: ?ts)) (?b ++ ?bs) (?e, ?es) =>
      apply (ReadElements_cons t ts b bs e es);
      [first [by apply (ReadElement_reads t)|by apply ReadElement_Uint32Time]|]
  end.

Definition btc_dom (h : BTCBlockAux) : Prop :=
  is_int 32 (Aux_Version h) /\ len (Aux_PrevBlock h) = HashSize /\
  len (Aux_MerkleRoot h) = HashSize /\ is_uint 32 (Aux_Timestamp h) /\ is_uint 32 (Aux_Bits h) /\
  is_uint 32 (Aux_Nonce h) /\ coinbase_dom (Aux_CoinbaseAux h).
Definition btc_norm (h : BTCBlockAux) : BTCBlockAux :=
  {| Aux_Version := Aux_Version h; Aux_PrevBlock := Aux_PrevBlock h;
     Aux_MerkleRoot := Aux_MerkleRoot h; Aux_Timestamp := Aux_Timestamp h; Aux_Bits := Aux_Bits h;
     Aux_Nonce := Aux_Nonce h; Aux_CoinbaseAux := coinbase_norm (Aux_CoinbaseAux h) |}.
Definition btc_fields_bytes (h : BTCBlockAux) : bytes := wbytes (writeBTCFields h).
Definition btc_bytes (h : BTCBlockAux) : bytes :=
  btc_fields_bytes h ++ coinbase_bytes (Aux_CoinbaseAux h).

Lemma btc_writes h : writes (writeBTCBlockHeader h) (btc_bytes h).
Proof. apply writes_seq; [by split|apply coinbase_writes]. Qed.

Lemma btc_fields_bytes_eq h : is_uint 32 (Aux_Timestamp h) ->
  btc_fields_bytes h =
    elem_bytes T_int32 (Aux_Version h) ++ elem_bytes T_Hash (Aux_PrevBlock h) ++
    elem_bytes T_Hash (Aux_MerkleRoot h) ++ elem_bytes T_uint32 (Aux_Timestamp h) ++
    elem_bytes T_uint32 (Aux_Bits h) ++ elem_bytes T_uint32 (Aux_Nonce h) ++ [].
Proof.
  intros Ht. unfold btc_fields_bytes, writeBTCFields. rewrite uwrap_id by done.
  unfold elem_bytes. cbn [WriteElements WriteElement]. unfold PutUint32.
  by rewrite ?wbytes_write_seq, ?wbytes_write.
Qed.

Lemma btc_reads h : btc_dom h -> reads readBTCBlockHeader (btc_bytes h) (btc_norm h).
Proof.
  intros (Hv & Hp & Hm & Ht & Hb & Hn & Hc). unfold readBTCBlockHeader, btc_bytes.
  eapply (reads_bind _ _ _ _ (Aux_Version h, (Aux_PrevBlock h, (Aux_MerkleRoot h,
    (Aux_Timestamp h, (Aux_Bits h, (Aux_Nonce h, tt))))))).
  - rewrite btc_fields_bytes_eq by done.
    repeat read_elem. apply reads_ret.
  - eapply reads_bind_nil; [by apply coinbase_reads|]. apply reads_ret.
Qed.

#[export] Instance BTCBlockAux_codec : WireCodec BTCBlockAux := {|
  codec_write := writeBTCBlockHeader; codec_read := readBTCBlockHeader;
  codec_dom := btc_dom; codec_norm := btc_norm; codec_bytes := btc_bytes;
  codec_writes := fun h _ => btc_writes h; codec_reads := btc_reads
|}.

(** * Codecs of the block headers *)

Definition beacon_dom (h : BeaconHeader) : Prop :=
  elems_dom beacon_write_types (beacon_fields h) /\ weight_dom (bh_chainWeight h) /\
  hashes_dom (bh_mergeMiningProof h) /\ btc_dom (bh_btcAux h).
Definition beacon_norm (h : BeaconHeader) : BeaconHeader := bh_set_btcAux (btc_norm (bh_btcAux h)) h.
Definition beacon_fields_bytes (h : BeaconHeader) : bytes :=
  elems_bytes beacon_write_types (beacon_fields h).
(** The encoding after the magic byte. *)
Definition beacon_body (h : BeaconHeader) : bytes :=
  beacon_fields_bytes h ++ bigint_bytes (bh_chainWeight h) ++
  hashes_bytes (bh_mergeMiningProof h) ++ btc_bytes (bh_btcAux h).
Definition beacon_bytes (h : BeaconHeader) : bytes := [beaconMagicByte] ++ beacon_body h.

Lemma beacon_writes h : beacon_dom h -> writes (writeBeaconBlockHeader h) (beacon_bytes h).
Proof.
  intros (Hf & Hw & _). unfold beacon_bytes, beacon_body, beacon_fields_bytes. rewrite app_assoc.
  apply writes_seq.
  - apply (WriteElements_writes (T_array 1 :: beacon_write_types) ([beaconMagicByte], beacon_fields h)).
    split; [done|exact Hf].
  - apply writes_seq; [by apply WriteBigInt_writes|].
    apply writes_seq; [apply WriteHashArray_writes|apply btc_writes].
Qed.

(** The fields the writer passes by pointer have the same encoding. *)
Lemma beacon_fields_reads h : elems_dom beacon_write_types (beacon_fields h) ->
  reads (ReadElements beacon_read_types) (beacon_fields_bytes h) (beacon_fields h).
Proof. intros Hf. apply (ReadElements_reads beacon_read_types (beacon_fields h)), Hf. Qed.

Lemma beacon_reads_body h :
  beacon_dom h -> reads (readBeaconBlockHeader true) (beacon_body h) (beacon_norm h).
Proof.
  intros (Hf & Hw & Hp & Ha). unfold readBeaconBlockHeader, beacon_body.
  rewrite <-(app_nil_l (beacon_fields_bytes h ++ _)).
  eapply reads_bind; [apply reads_ret|].
  eapply reads_bind; [by apply beacon_fields_reads|].
  eapply reads_bind; [by apply ReadBigInt_reads|].
  eapply reads_bind; [by apply ReadHashArray_reads|].
  eapply reads_bind_nil; [by apply btc_reads|]. apply reads_ret.
Qed.

Lemma read_magic_reads m e : reads (read_magic m e false) [m] tt.
Proof.
  eapply (reads_bind_nil _ _ _ [m]); [by apply ReadFull_reads'|].
  rewrite decide_True by done. apply reads_ret.
Qed.

Lemma beacon_reads h :
  beacon_dom h -> reads (readBeaconBlockHeader false) (beacon_bytes h) (beacon_norm h).
Proof.
  intros Hd. pose proof (beacon_reads_body h Hd) as Hb.
  eapply reads_bind; [apply read_magic_reads|]. intros rest. apply (Hb rest).
Qed.

#[export] Instance BeaconHeader_codec : WireCodec BeaconHeader := {|
  codec_write := writeBeaconBlockHeader; codec_read := readBeaconBlockHeader false;
  codec_dom := beacon_dom; codec_norm := beacon_norm; codec_bytes := beacon_bytes;
  codec_writes := beacon_writes; codec_reads := beacon_reads
|}.

Definition shard_dom (h : ShardHeader) : Prop :=
  elems_dom shard_write_types (shard_fields h) /\ weight_dom (sh_chainWeight h) /\
  hashes_dom (sh_shardMerkleProof h) /\ beacon_dom (sh_beaconHeader h) /\
  coinbase_dom (sh_beaconCoinbase h).
Definition shard_norm (h : ShardHeader) : ShardHeader :=
  sh_set_beacon (beacon_norm (sh_beaconHeader h)) (coinbase_norm (sh_beaconCoinbase h)) h.
Definition shard_body (h : ShardHeader) : bytes :=
  elems_bytes shard_write_types (shard_fields h) ++ bigint_bytes (sh_chainWeight h) ++
  hashes_bytes (sh_shardMerkleProof h) ++ beacon_bytes (sh_beaconHeader h) ++
  coinbase_bytes (sh_beaconCoinbase h).
Definition shard_bytes (h : ShardHeader) : bytes := [shardMagic] ++ shard_body h.

Lemma shard_writes h : shard_dom h -> writes (WriteShardBlockHeader h) (shard_bytes h).
Proof.
  intros (Hf & Hw & _ & Hb & _). unfold shard_bytes, shard_body. rewrite app_assoc.
  apply writes_seq.
  - apply (WriteElements_writes (T_array 1 :: shard_write_types) ([shardMagic], shard_fields h)).
    split; [done|exact Hf].
  - apply writes_seq; [by apply WriteBigInt_writes|].
    apply writes_seq; [apply WriteHashArray_writes|].
    apply writes_seq; [by apply beacon_writes|apply coinbase_writes].
Qed.

Lemma shard_reads_body h :
  shard_dom h -> reads (readShardBlockHeader true) (shard_body h) (shard_norm h).
Proof.
  intros (Hf & Hw & Hp & Hb & Hc). unfold readShardBlockHeader, shard_body.
  rewrite <-(app_nil_l (elems_bytes _ _ ++ _)).
  eapply reads_bind; [apply reads_ret|].
  eapply reads_bind; [apply (ReadElements_reads shard_read_types (shard_fields h)), Hf|].
  eapply reads_bind; [by apply ReadBigInt_reads|].
  eapply reads_bind; [by apply ReadHashArray_reads|].
  eapply reads_bind; [by apply beacon_reads|].
  eapply reads_bind_nil; [by apply coinbase_reads|]. apply reads_ret.
Qed.

Lemma shard_reads h :
  shard_dom h -> reads (readShardBlockHeader false) (shard_bytes h) (shard_norm h).
Proof.
  intros Hd. pose proof (shard_reads_body h Hd) as Hb.
  eapply reads_bind; [apply read_magic_reads|]. intros rest. apply (Hb rest).
Qed.

#[export] Instance ShardHeader_codec : WireCodec ShardHeader := {|
  codec_write := WriteShardBlockHeader; codec_read := readShardBlockHeader false;
  codec_dom := shard_dom; codec_norm := shard_norm; codec_bytes := shard_bytes;
  codec_writes := shard_writes; codec_reads := shard_reads
|}.

Definition header_dom (h : BlockHeader) : Prop :=
  match h with HBeacon h => beacon_dom h | HShard h => shard_dom h end.
Definition header_norm (h : BlockHeader) : BlockHeader :=
  match h with HBeacon h => HBeacon (beacon_norm h) | HShard h => HShard (shard_norm h) end.
Definition header_bytes (h : BlockHeader) : bytes :=
  match h with HBeacon h => beacon_bytes h | HShard h => shard_bytes h end.

Lemma header_writes h : header_dom h -> writes (Header_Write h) (header_bytes h).
Proof. destruct h; [apply beacon_writes|apply shard_writes]. Qed.

Lemma header_decode h : header_dom h -> reads DecodeHeader (header_bytes h) (header_norm h).
Proof.
  destruct h as [h|h]; intros Hd.
  - eapply (reads_bind _ _ _ _ [beaconMagicByte]); [by apply ReadFull_reads'|].
    rewrite decide_True by done. eapply reads_bind_nil; [by apply beacon_reads_body|]. apply reads_ret.
  - eapply (reads_bind _ _ _ _ [shardMagic]); [by apply ReadFull_reads'|].
    rewrite decide_False, decide_True by done.
    eapply reads_bind_nil; [by apply shard_reads_body|]. apply reads_ret.
Qed.

#[export] Instance BlockHeader_codec : WireCodec BlockHeader := {|
  codec_write := Header_Write; codec_read := DecodeHeader;
  codec_dom := header_dom; codec_norm := header_norm; codec_bytes := header_bytes;
  codec_writes := header_writes; codec_reads := header_decode
|}.

(** Reading with the reader of the other implementation fails on the magic byte. *)
Lemma header_read_same h : header_dom h ->
  reads (Header_Read h) (header_bytes h) (header_norm h).
Proof.
  destruct h as [h|h]; intros Hd; (eapply reads_bind_nil;
    [first [by apply beacon_reads|by apply shard_reads]|apply reads_ret]).
Qed.

Lemma read_magic_wrong m m' e rest : m <> m' ->
  read_magic m e false (m' :: rest) = Err (errorString e).
Proof.
  intros Hm. unfold read_magic, mbind, reader_bind. cbn [ReadElement binary_Read].
  rewrite (ReadFull_reads' 1 [m'] eq_refl rest : ReadFull (Z.of_nat 1) (m' :: rest) = _).
  by rewrite decide_False by congruence.
Qed.

Lemma local_ReadHashArray : local ReadHashArray.
Proof. unfold ReadHashArray. local_solve. Qed.
Lemma local_ReadBigInt : local ReadBigInt.
Proof. unfold ReadBigInt. local_solve. Qed.
Lemma local_read_magic m e skip : local (read_magic m e skip).
Proof. unfold read_magic. local_solve. Qed.
#[export] Hint Resolve local_ReadHashArray local_ReadBigInt local_read_magic : local_db.
Lemma local_CoinbaseAux_Deserialize : local CoinbaseAux_Deserialize.
Proof. unfold CoinbaseAux_Deserialize. local_solve. Qed.
#[export] Hint Resolve local_CoinbaseAux_Deserialize : local_db.

(** Destructs the tuple of a list of elements before going on. *)
Ltac local_elems :=
  lazymatch goal with
  | |- local (mbind _ (ReadElements ?ts)) => apply local_bind; [exact (local_ReadElements ts)|]
  end;
  let es := fresh in intros es; cbn [elems_val elem_val] in es;
  repeat match type of es with (_ * _)%type => destruct es as [? es] end; local_solve.

Lemma local_readBTCBlockHeader : local readBTCBlockHeader.
Proof. unfold readBTCBlockHeader. local_elems. Qed.
#[export] Hint Resolve local_readBTCBlockHeader : local_db.
Lemma local_readBeaconBlockHeader skip : local (readBeaconBlockHeader skip).
Proof.
  unfold readBeaconBlockHeader, beacon_read_types.
  apply local_bind; [apply local_read_magic|]. intros _. local_elems.
Qed.
#[export] Hint Resolve local_readBeaconBlockHeader : local_db.
Lemma local_readShardBlockHeader skip : local (readShardBlockHeader skip).
Proof.
  unfold readShardBlockHeader, shard_read_types.
  apply local_bind; [apply local_read_magic|]. intros _. local_elems.
Qed.
#[export] Hint Resolve local_readShardBlockHeader : local_db.
Lemma local_DecodeHeader : local DecodeHeader.
Proof. unfold DecodeHeader. local_solve. Qed.
Lemma local_Header_Read h : local (Header_Read h).
Proof. destruct h; unfold Header_Read; local_solve. Qed.
#[export] Hint Resolve local_DecodeHeader local_Header_Read : local_db.

(** * The hashes do not see what the wire does not carry *)

Section hash_lemmas.
Context `{HashFunction}.

Lemma wlist_writeTxIn_normal enc tx tis :
  wlist writeTxIn (map (normal_txin enc tx) tis) = wlist writeTxIn tis.
Proof. rewrite wlist_map. by apply wlist_ext. Qed.

Lemma TxHash_base_normal tx : TxHash (tx_normal BaseEncoding tx) = TxHash tx.
Proof.
  unfold TxHash, MsgTx_SerializeNoWitness, MsgTx_BtcEncode. simpl.
  by rewrite len_map, wlist_writeTxIn_normal.
Qed.

Lemma TxHash_Copy tx : TxHash (MsgTx_Copy tx) = TxHash tx.
Proof. unfold TxHash, MsgTx_SerializeNoWitness. by rewrite MsgTx_BtcEncode_copy. Qed.

Lemma Header_Copy_Write h : Header_Write (Header_Copy h) = Header_Write h.
Proof.
  assert (Hb : forall b, writeBeaconBlockHeader (BeaconHeader_Copy b) = writeBeaconBlockHeader b).
  { intros b. unfold writeBeaconBlockHeader, writeBTCBlockHeader, CoinbaseAux_Serialize.
    change (Ca_Tx (Aux_CoinbaseAux (bh_btcAux (BeaconHeader_Copy b))))
      with (MsgTx_Copy (Ca_Tx (Aux_CoinbaseAux (bh_btcAux b)))).
    by rewrite MsgTx_BtcEncode_copy. }
  destruct h as [h|h]; [apply Hb|].
  unfold Header_Copy, Header_Write, WriteShardBlockHeader.
  change (sh_beaconHeader (ShardHeader_Copy h)) with (BeaconHeader_Copy (sh_beaconHeader h)).
  by rewrite Hb.
Qed.

Lemma CollectTxHashes_tx txs : CollectTxHashes txs false = map TxHash txs.
Proof. unfold CollectTxHashes. simpl. apply imap_const. Qed.

Lemma UpdatedMerkleRoot_fold c :
  UpdatedMerkleRoot c = CoinbaseMerkleTreeProofRoot (TxHash (Ca_Tx c)) (TxMerkleProof c).
Proof.
  unfold UpdatedMerkleRoot. destruct (Z.eqb_spec (len (TxMerkleProof c)) 0) as [E|]; [|done].
  by rewrite (len_zero_nil _ E).
Qed.
End hash_lemmas.

(** * Properties *)

Definition other_kind (h h' : BlockHeader) : Prop :=
  match h, h' with HBeacon _, HShard _ | HShard _, HBeacon _ => True | _, _ => False end.

Lemma header_read_other h h' rest : other_kind h h' ->
  exists e, Header_Read h' (header_bytes h ++ rest) = Err (errorString e).
Proof.
  destruct h as [h|h], h' as [h'|h']; intros Hk; try done;
    unfold Header_Read, readBeaconBlockHeader, readShardBlockHeader, mbind, reader_bind; simpl app;
    rewrite read_magic_wrong by done; eauto.
Qed.

Section properties.
Context `{HashFunction}.

(** C19: a beacon or shard header within the limits of [header_dom] (the ranges of its
    fields and the bounds of the decoder on its lists) is written by its [Write]
    method and read back, by [DecodeHeader] from the magic byte and by the [Read]
    method of the same implementation; the reader of the other implementation
    refuses it.  Reading loses only what is not serialized (the witnesses and
    ages of the coinbase transactions), which changes neither the block hash nor
    the proof-of-work hash. *)
Theorem header_roundtrip h :
  header_dom h ->
  exists bs, writes (Header_Write h) bs /\
    reads DecodeHeader bs (header_norm h) /\
    reads (Header_Read h) bs (header_norm h) /\
    (forall h' rest, other_kind h h' -> exists e, Header_Read h' (bs ++ rest) = Err (errorString e)) /\
    Header_BlockHash (header_norm h) = Header_BlockHash h /\ PoWHash (header_norm h) = PoWHash h.
Proof.
  intros Hd. exists (header_bytes h). split_and!.
  - by apply header_writes.
  - by apply header_decode.
  - by apply header_read_same.
  - intros h' rest. apply header_read_other.
  - by destruct h.
  - by destruct h.
Qed.

(** The number of proof hashes of a header is not bounded before the slice
    is allocated.  A stream that starts like the encoding of any valid beacon
    header and announces more than 2^43 hashes makes [DecodeHeader] panic in
    [make], whatever follows. *)
Theorem header_proof_count_panics h c rest :
  beacon_dom h -> is_uint 64 c -> 2 ^ 43 < c ->
  DecodeHeader ([beaconMagicByte] ++ beacon_fields_bytes h ++ bigint_bytes (bh_chainWeight h) ++
                varint_bytes c ++ rest) = Panic.
Proof.
  intros (Hf & Hw & _) Hc Hlt. unfold DecodeHeader, mbind, reader_bind.
  cbn [ReadElement binary_Read].
  rewrite (ReadFull_reads' (Z.of_nat 1) [beaconMagicByte] eq_refl _). rewrite decide_True by done.
  unfold readBeaconBlockHeader, mbind, reader_bind. cbn [read_magic mret reader_ret].
  rewrite (beacon_fields_reads h Hf _). cbn [beacon_fields]. rewrite (ReadBigInt_reads _ Hw _).
  by rewrite ReadHashArray_panic.
Qed.

(** The count in front of a chain weight is redundant and is not checked:
    with any count up to 2^48 in its place, the header is still accepted and is
    the same header, so a header has many encodings. *)
Theorem header_weight_count_ignored h c :
  beacon_dom h -> 0 <= c <= maxAlloc ->
  reads DecodeHeader
    ([beaconMagicByte] ++ beacon_fields_bytes h ++
     (varint_bytes c ++ elem_bytes T_slice (big_Bytes (bh_chainWeight h))) ++
     hashes_bytes (bh_mergeMiningProof h) ++ btc_bytes (bh_btcAux h))
    (HBeacon (beacon_norm h)).
Proof.
  intros (Hf & Hw & Hp & Ha) Hc.
  eapply (reads_bind _ _ _ _ [beaconMagicByte]); [by apply ReadFull_reads'|].
  rewrite decide_True by done. eapply reads_bind_nil; [|apply reads_ret].
  rewrite <-(app_nil_l (beacon_fields_bytes h ++ _)). eapply reads_bind; [apply reads_ret|].
  eapply reads_bind; [by apply beacon_fields_reads|].
  eapply reads_bind; [apply ReadBigInt_any_count; [done|by apply weight_len]|].
  eapply reads_bind; [by apply ReadHashArray_reads|].
  eapply reads_bind_nil; [by apply btc_reads|].
  rewrite big_SetBytes_Bytes by apply Hw. apply reads_ret.
Qed.

Lemma set_coinbase_script_copy s cb cb' :
  set_coinbase_script s cb = Ok cb' ->
  set_coinbase_script s (MsgTx_Copy cb) = Ok (MsgTx_Copy cb').
Proof.
  unfold set_coinbase_script. destruct cb as [v [|ti tis] outs lk]; simpl; [done|].
  by intros [= <-].
Qed.

(** The auxiliary coinbase taken from a block commits to the block, also
    after its script is changed.  [UpdateCoinbaseScript] on a header that
    carries [CoinbaseAux.FromBlock] of a block sets the merkle root of the block
    whose coinbase has the new script, and the updated auxiliary data passes
    [Validate] against that root. *)
Theorem update_coinbase_script (cb cb' : MsgTx) (txs : list MsgTx) s h aux :
  CoinbaseAux_FromBlock (cb :: txs) false = Ok aux -> Aux_CoinbaseAux h = aux ->
  set_coinbase_script s cb = Ok cb' ->
  exists h', UpdateCoinbaseScript s h = Ok h' /\
    Aux_MerkleRoot h' = merkle_root_spec (map TxHash (cb' :: txs)) /\
    CoinbaseAux_Validate (Aux_CoinbaseAux h') (Aux_MerkleRoot h') = None.
Proof.
  intros Ha Hh Hs. injection Ha as <-. apply set_coinbase_script_copy in Hs.
  unfold UpdateCoinbaseScript. rewrite Hh. cbn [Ca_Tx TxMerkleProof]. rewrite Hs.
  eexists. split; [reflexivity|]. cbn [Aux_MerkleRoot Aux_CoinbaseAux].
  rewrite UpdatedMerkleRoot_fold. cbn [Ca_Tx TxMerkleProof].
  rewrite CollectTxHashes_tx, TxHash_Copy. unfold BuildCoinbaseMerkleTreeProof, CoinbaseMerkleTreeProofRoot.
  cbn [map length]. split; [by rewrite coinbase_proof_root by (rewrite length_map; simpl; lia)|].
  unfold CoinbaseAux_Validate, ValidateCoinbaseMerkleTreeProof, Hash_IsEqual. cbn [Ca_Tx TxMerkleProof].
  rewrite TxHash_Copy. by rewrite bool_decide_true by done.
Qed.

(** A copy of a header has the same serialization, the same block hash and
    the same proof-of-work hash. *)
Theorem header_copy h :
  Header_Write (Header_Copy h) = Header_Write h /\
  Header_BlockHash (Header_Copy h) = Header_BlockHash h /\ PoWHash (Header_Copy h) = PoWHash h.
Proof. split; [apply Header_Copy_Write|]. by destruct h. Qed.

(** The block hash of a beacon header, its identifier, does not depend on
    the hash of the previous block nor on the chain weight: two headers that
    differ in these two fields only are told apart by their serialization and
    have one identifier. *)
Theorem beacon_block_hash_ignores_prev_block h prev weight :
  let h' := {| bh_version := bh_version h; bh_prevMMRRoot := bh_prevMMRRoot h;
     bh_height := bh_height h; bh_prevBlock := prev; bh_merkleRoot := bh_merkleRoot h;
     bh_bits := bh_bits h; bh_chainWeight := weight; bh_shards := bh_shards h;
     bh_k := bh_k h; bh_voteK := bh_voteK h; bh_mergeMiningRoot := bh_mergeMiningRoot h;
     bh_mergeMiningNumber := bh_mergeMiningNumber h; bh_treeEncoding := bh_treeEncoding h;
     bh_mergeMiningProof := bh_mergeMiningProof h;
     bh_treeCodingLengthBits := bh_treeCodingLengthBits h; bh_btcAux := bh_btcAux h |} in
  BeaconHeader_BlockHash h' = BeaconHeader_BlockHash h /\
  (beacon_dom h -> beacon_dom h' -> bh_prevBlock h <> prev ->
   wbytes (writeBeaconBlockHeader h') <> wbytes (writeBeaconBlockHeader h)).
Proof.
  intros h'. split; [done|]. intros Hd Hd' Hne E.
  rewrite (proj2 (beacon_writes _ Hd)), (proj2 (beacon_writes _ Hd')) in E.
  pose proof (beacon_reads h Hd []) as H1. pose proof (beacon_reads h' Hd' []) as H2.
  rewrite E, H1 in H2. assert (Hn : beacon_norm h = beacon_norm h') by congruence.
  apply (f_equal bh_prevBlock) in Hn. done.
Qed.

(** [SetBeaconHeader] of a shard header stores the beacon header as it was
    given; the merkle root recomputed from the auxiliary coinbase is assigned to
    the caller's header after the copy was taken, so the stored header keeps the
    old root. *)
Theorem set_beacon_header_keeps_root h bh aux :
  let '(h', bh') := ShardHeader_SetBeaconHeader bh aux h in
  bh_merkleRoot (sh_beaconHeader h') = bh_merkleRoot bh /\
  sh_beaconCoinbase h' = aux /\
  bh_merkleRoot bh' = UpdatedMerkleRoot aux /\
  (CoinbaseAux_Validate aux (bh_merkleRoot (sh_beaconHeader h')) = None <->
   bh_merkleRoot bh = UpdatedMerkleRoot aux).
Proof.
  simpl. split_and!; try done. rewrite UpdatedMerkleRoot_fold.
  unfold CoinbaseAux_Validate, ValidateCoinbaseMerkleTreeProof, Hash_IsEqual.
  destruct (bool_decide_reflect (fold_left HashMerkleBranches (TxMerkleProof aux)
    (TxHash (Ca_Tx aux)) = bh_merkleRoot bh)) as [E|E]; simpl; split; done || congruence.
Qed.
End properties.

(** * Concrete headers *)

Definition example_hash (n : Z) : bytes := mkbytes (map (fun i => n + Z.of_nat i) (seq 0 32)).

Definition example_coinbase : CoinbaseAux :=
  {| Ca_Tx := example_tx; TxMerkleProof := [example_hash 1; example_hash 2] |}.

Definition example_beacon : BeaconHeader :=
  {| bh_version := 16; bh_prevMMRRoot := example_hash 3; bh_height := 77;
     bh_prevBlock := example_hash 4; bh_merkleRoot := example_hash 5; bh_bits := 0x1d00ffff;
     bh_chainWeight := 123456789; bh_shards := 3; bh_k := 5; bh_voteK := 6;
     bh_mergeMiningRoot := example_hash 6; bh_mergeMiningNumber := 2;
     bh_treeEncoding := mkbytes [1; 2; 3]; bh_mergeMiningProof := [example_hash 7];
     bh_treeCodingLengthBits := 20;
     bh_btcAux := {| Aux_Version := -1; Aux_PrevBlock := example_hash 8;
                     Aux_MerkleRoot := example_hash 9; Aux_Timestamp := 1600000000;
                     Aux_Bits := 0x1d00ffff; Aux_Nonce := 42; Aux_CoinbaseAux := example_coinbase |} |}.

Definition example_shard : ShardHeader :=
  {| sh_height := 12; sh_prevMMRRoot := example_hash 10; sh_prevBlock := example_hash 11;
     sh_merkleRoot := example_hash 12; sh_bits := 0x1d00ffff; sh_chainWeight := 99;
     sh_shardMerkleProof := [example_hash 13]; sh_beaconHeader := example_beacon;
     sh_beaconCoinbase := example_coinbase |}.

(** Closes the domain of a concrete value by evaluation. *)
Ltac solve_dom := repeat (constructor || (vm_compute; done)).

Lemma example_coinbase_dom : coinbase_dom example_coinbase.
Proof. solve_dom. Qed.
Lemma example_beacon_dom : beacon_dom example_beacon.
Proof.
  split; [solve_dom|]. split; [solve_dom|]. split; [solve_dom|].
  split; [solve_dom|]. do 5 (split; [solve_dom|]). apply example_coinbase_dom.
Qed.
Lemma example_shard_dom : shard_dom example_shard.
Proof.
  split; [solve_dom|]. split; [solve_dom|]. split; [solve_dom|].
  split; [apply example_beacon_dom|apply example_coinbase_dom].
Qed.

Lemma header_roundtrip_witness :
  header_dom (HShard example_shard) /\
  exists bs, writes (Header_Write (HShard example_shard)) bs /\
    reads DecodeHeader bs (header_norm (HShard example_shard)).
Proof.
  split; [apply example_shard_dom|].
  destruct (@header_roundtrip sha256_instance (HShard example_shard) example_shard_dom)
    as (bs & Hw & Hr & _). by exists bs.
Defined.

Lemma header_proof_count_panics_witness :
  DecodeHeader ([beaconMagicByte] ++ beacon_fields_bytes example_beacon ++
                bigint_bytes (bh_chainWeight example_beacon) ++
                varint_bytes (2 ^ 62) ++ []) = Panic.
Proof.
  apply header_proof_count_panics; [apply example_beacon_dom|unfold is_uint; lia|lia].
Defined.

Lemma header_weight_count_ignored_witness :
  reads DecodeHeader
    ([beaconMagicByte] ++ beacon_fields_bytes example_beacon ++
     (varint_bytes 500 ++ elem_bytes T_slice (big_Bytes (bh_chainWeight example_beacon))) ++
     hashes_bytes (bh_mergeMiningProof example_beacon) ++ btc_bytes (bh_btcAux example_beacon))
    (HBeacon (beacon_norm example_beacon)).
Proof.
  apply header_weight_count_ignored; [apply example_beacon_dom|unfold maxAlloc; lia].
Defined.

Lemma update_coinbase_script_witness :
  let tx2 := example_tx_swapped in
  exists aux cb', @CoinbaseAux_FromBlock sha256_instance [example_tx; tx2] false = Ok aux /\
  set_coinbase_script (mkbytes [9; 9]) example_tx = Ok cb' /\
  exists h', @UpdateCoinbaseScript sha256_instance (mkbytes [9; 9])
      {| Aux_Version := 1; Aux_PrevBlock := ZeroHash; Aux_MerkleRoot := ZeroHash;
         Aux_Timestamp := 0; Aux_Bits := 0; Aux_Nonce := 0; Aux_CoinbaseAux := aux |} = Ok h' /\
    Aux_MerkleRoot h' = @merkle_root_spec sha256_instance (map (@TxHash sha256_instance) [cb'; tx2]) /\
    @CoinbaseAux_Validate sha256_instance (Aux_CoinbaseAux h') (Aux_MerkleRoot h') = None.
Proof.
  intros tx2. eexists _, _. split; [reflexivity|]. split; [reflexivity|].
  eapply (@update_coinbase_script sha256_instance example_tx _ [tx2]); reflexivity.
Defined.

Lemma beacon_block_hash_ignores_prev_block_witness :
  exists h', bh_prevBlock h' = example_hash 30 /\
  @BeaconHeader_BlockHash sha256_instance h' = @BeaconHeader_BlockHash sha256_instance example_beacon /\
  wbytes (writeBeaconBlockHeader h') <> wbytes (writeBeaconBlockHeader example_beacon).
Proof.
  destruct (@beacon_block_hash_ignores_prev_block sha256_instance example_beacon (example_hash 30)
    (bh_chainWeight example_beacon)) as [H1 H2].
  eexists. split; [|split; [exact H1|apply H2]]; [reflexivity|apply example_beacon_dom|..|vm_compute; done].
  split; [solve_dom|apply example_beacon_dom].
Defined.
