(* ===== verification/WireBlock.v ===== *)
(** Blocks: types/wire/msg_block.go.

    A block is a header and its transactions.  The Go interface [BlockHeader] is
    the class [HeaderImpl]; the block code is written and proved against the
    class, and the sum of the two header implementations is its instance. *)

From S2P Require Import Prelude WireEncoding WireTx Sha256 Chainhash WireHeader.

(** * The interface *)

Class HeaderImpl (Hdr : Type) := {
  hdr_codec :: WireCodec Hdr;
  hdr_Read : Hdr -> reader Hdr;
  hdr_Copy : Hdr -> Hdr;
  hdr_MaxLength : Hdr -> Z;
  hdr_Read_reads : forall h, codec_dom h -> reads (hdr_Read h) (codec_bytes h) (codec_norm h);
  hdr_Copy_write : forall h, codec_write (hdr_Copy h) = codec_write h;
  hdr_read_local : local codec_read;
  hdr_Read_local : forall h, local (hdr_Read h)
}.

(** * Data *)

Definition maxTxPerBlock : Z := MaxBlockPayload / minTxPayload + 1.

Record TxLoc := { TxStart : Z; TxLen : Z }.

Record MsgBlock (Hdr : Type) := { Header : Hdr; Transactions : list MsgTx }.
Arguments Header {Hdr}.
Arguments Transactions {Hdr}.
Arguments Build_MsgBlock {Hdr}.

Record MsgBlockBox (Hdr : Type) := { Block : MsgBlock Hdr; BlockActualMMR : bytes }.
Arguments Block {Hdr}.
Arguments BlockActualMMR {Hdr}.
Arguments Build_MsgBlockBox {Hdr}.

Section block.
Context {Hdr : Type} `{!HeaderImpl Hdr}.
Implicit Types (msg : MsgBlock Hdr) (header : option Hdr).

(** * Operations *)

Definition MsgBlock_Copy msg : MsgBlock Hdr :=
  {| Header := hdr_Copy (Header msg); Transactions := map MsgTx_Copy (Transactions msg) |}.

Definition AddTransaction (tx : MsgTx) msg : MsgBlock Hdr :=
  {| Header := Header msg; Transactions := Transactions msg ++ [tx] |}.

Definition ClearTransactions msg : MsgBlock Hdr :=
  {| Header := Header msg; Transactions := [] |}.

Definition NewMsgBlock (blockHeader : Hdr) : MsgBlock Hdr :=
  {| Header := blockHeader; Transactions := [] |}.

Definition MsgBlock_BtcEncode (enc : MessageEncoding) msg : writer :=
  codec_write (Header msg) +++
  WriteVarInt (len (Transactions msg)) +++
  wlist (MsgTx_BtcEncode enc) (Transactions msg).

(** The header of the receiver, when there is one, does the reading. *)
Definition read_block_header header : reader Hdr :=
  match header with None => codec_read | Some h => hdr_Read h end.

Definition MsgBlock_BtcDecode header (enc : MessageEncoding) : reader (MsgBlock Hdr) :=
  h ← read_block_header header;
  txCount ← ReadVarInt;
  if maxTxPerBlock <? txCount
  then read_fail (MessageError "MsgBlock.BtcDecode" "too many transactions to fit into a block")
  else
    txs ← read_n (Z.to_nat txCount) (MsgTx_BtcDecode enc);
    mret {| Header := h; Transactions := txs |}.

Definition MsgBlock_Deserialize header := MsgBlock_BtcDecode header WitnessEncoding.
Definition MsgBlock_DeserializeNoWitness header := MsgBlock_BtcDecode header BaseEncoding.
Definition MsgBlock_Serialize := MsgBlock_BtcEncode WitnessEncoding.
Definition MsgBlock_SerializeNoWitness := MsgBlock_BtcEncode BaseEncoding.

(** The loop of [DeserializeTxLoc]; [r.Len()] is the length of what is left. *)
Fixpoint txLoc_loop (fullLen : Z) (txCount : nat) : reader (list (MsgTx * TxLoc)) :=
  match txCount with
  | O => mret []
  | S txCount => fun r =>
      let txStart := fullLen - len r in
      match MsgTx_Deserialize r with
      | Ok (tx, r') =>
          let loc := {| TxStart := txStart; TxLen := (fullLen - len r') - txStart |} in
          (rest ← txLoc_loop fullLen txCount; mret ((tx, loc) :: rest)) r'
      | Err e => Err e
      | Panic => Panic
      end
  end.

Definition DeserializeTxLoc header : reader (MsgBlock Hdr * list TxLoc) := fun r =>
  let fullLen := len r in
  (h ← read_block_header header;
   txCount ← ReadVarInt;
   if maxTxPerBlock <? txCount
   then read_fail (MessageError "MsgBlock.DeserializeTxLoc" "too many transactions to fit into a block")
   else
     txs ← txLoc_loop fullLen (Z.to_nat txCount);
     mret ({| Header := h; Transactions := map fst txs |}, map snd txs)) r.

Definition MsgBlock_SerializeSize msg : Z :=
  hdr_MaxLength (Header msg) + VarIntSerializeSize (len (Transactions msg)) +
  sumZ MsgTx_SerializeSize (Transactions msg).

Definition MsgBlock_SerializeSizeStripped msg : Z :=
  hdr_MaxLength (Header msg) + VarIntSerializeSize (len (Transactions msg)) +
  sumZ MsgTx_SerializeSizeStripped (Transactions msg).

Definition MsgBlock_TxHashes `{HashFunction} msg : list bytes := map TxHash (Transactions msg).

Definition MsgBlockBox_BtcDecode header (enc : MessageEncoding) : reader (MsgBlockBox Hdr) :=
  b ← MsgBlock_BtcDecode header enc;
  mmr ← ReadElement T_Hash;
  mret {| Block := b; BlockActualMMR := mmr |}.

Definition MsgBlockBox_BtcEncode (enc : MessageEncoding) (b : MsgBlockBox Hdr) : writer :=
  MsgBlock_BtcEncode enc (Block b) +++ WriteElement T_Hash (BlockActualMMR b).

(** * Round trip *)

Definition block_dom (enc : MessageEncoding) msg : Prop :=
  codec_dom (Header msg) /\ len (Transactions msg) <= maxTxPerBlock /\
  Forall (tx_dom enc) (Transactions msg).
Definition block_normal (enc : MessageEncoding) msg : MsgBlock Hdr :=
  {| Header := codec_norm (Header msg); Transactions := map (tx_normal enc) (Transactions msg) |}.
Definition block_bytes (enc : MessageEncoding) msg : bytes :=
  codec_bytes (Header msg) ++ varint_bytes (len (Transactions msg)) ++
  concat (map (tx_bytes enc) (Transactions msg)).

Lemma block_writes enc msg :
  codec_dom (Header msg) -> writes (MsgBlock_BtcEncode enc msg) (block_bytes enc msg).
Proof.
  intros Hh. apply writes_seq; [by apply codec_writes|]. apply writes_seq; [auto with wire|].
  apply writes_list, Forall_forall. intros; apply MsgTx_BtcEncode_writes.
Qed.

Lemma read_block_header_reads header h :
  codec_dom h -> header = None \/ header = Some h ->
  reads (read_block_header header) (codec_bytes h) (codec_norm h).
Proof. intros Hh [->| ->]; [by apply codec_reads|by apply hdr_Read_reads]. Qed.

Lemma maxTxPerBlock_uint l : len l <= maxTxPerBlock -> is_uint 64 (@len MsgTx l).
Proof. intros. by eapply len_is_uint64. Qed.

Lemma block_reads enc msg header :
  block_dom enc msg -> header = None \/ header = Some (Header msg) ->
  reads (MsgBlock_BtcDecode header enc) (block_bytes enc msg) (block_normal enc msg).
Proof.
  intros (Hh & Hn & Ht) Hd. eapply reads_bind; [by apply read_block_header_reads|].
  eapply reads_bind; [by apply ReadVarInt_reads, maxTxPerBlock_uint|].
  rewrite (proj2 (Z.ltb_ge _ _)) by done. rewrite to_nat_len.
  eapply reads_bind_nil; [|apply reads_ret]. apply read_n_reads.
  eapply Forall_impl; [exact Ht|]. apply MsgTx_BtcDecode_reads.
Qed.

Lemma len_block_bytes msg : block_dom WitnessEncoding msg ->
  len (block_bytes WitnessEncoding msg) =
  MsgBlock_SerializeSize msg - hdr_MaxLength (Header msg) + len (codec_bytes (Header msg)).
Proof.
  intros (_ & _ & Ht). unfold block_bytes, MsgBlock_SerializeSize.
  rewrite !len_app, len_varint_bytes, len_concat_map.
  rewrite (sumZ_ext (fun a => len (tx_bytes WitnessEncoding a)) MsgTx_SerializeSize); [lia|].
  eapply Forall_impl; [exact Ht|]. intros tx (_ & _ & _ & _ & Hi & _).
  by apply (len_tx_bytes WitnessEncoding).
Qed.

(** * Transaction locations *)

(** The bytes at a location. *)
Definition loc_bytes (inp : bytes) (l : TxLoc) : bytes :=
  take (Z.to_nat (TxLen l)) (drop (Z.to_nat (TxStart l)) inp).

(** Location [l] of [inp] holds the encoding of [tx] and nothing else. *)
Definition located (inp : bytes) (p : MsgTx * TxLoc) : Prop :=
  0 <= TxStart (snd p) /\ 0 <= TxLen (snd p) /\ TxStart (snd p) + TxLen (snd p) <= len inp /\
  reads MsgTx_Deserialize (loc_bytes inp (snd p)) (fst p).

(** The locations follow each other from [start] to [stop]. *)
Fixpoint consecutive (start stop : Z) (ls : list TxLoc) : Prop :=
  match ls with
  | [] => start = stop
  | l :: ls => TxStart l = start /\ consecutive (start + TxLen l) stop ls
  end.

Lemma located_mid a b c tx :
  reads MsgTx_Deserialize b tx ->
  located (a ++ b ++ c) (tx, {| TxStart := len a; TxLen := len b |}).
Proof.
  intros Hr. pose proof (len_nonneg a). pose proof (len_nonneg b). pose proof (len_nonneg c).
  split_and!; simpl; rewrite ?len_app; try lia.
  unfold loc_bytes; simpl. by rewrite !to_nat_len, drop_app_length, take_app_length.
Qed.

Lemma txLoc_loop_spec n pre inp :
  match txLoc_loop (len (pre ++ inp)) n inp, read_n n MsgTx_Deserialize inp with
  | Ok (ps, r1), Ok (txs, r2) =>
      map fst ps = txs /\ r1 = r2 /\ Forall (located (pre ++ inp)) ps /\
      consecutive (len pre) (len (pre ++ inp) - len r1) (map snd ps)
  | Err e1, Err e2 => e1 = e2
  | Panic, Panic => True
  | _, _ => False
  end.
Proof.
  revert pre inp. induction n as [|n IH]; intros pre inp; cbn [txLoc_loop read_n].
  - cbn. split_and!; try done. rewrite len_app; lia.
  - unfold mbind, reader_bind. destruct (MsgTx_Deserialize inp) as [[tx mid]| |] eqn:E; [|done|done].
    apply local_MsgTx_BtcDecode in E as (b & -> & Hr).
    specialize (IH (pre ++ b) mid). rewrite <-app_assoc in IH.
    destruct (txLoc_loop _ n mid) as [[ps r1]| |], (read_n n _ mid) as [[txs r2]| |]; try done.
    destruct IH as (<- & <- & Hl & Hc). cbn [mret reader_ret].
    replace (len (pre ++ b ++ mid) - len (b ++ mid)) with (len pre) by (rewrite !len_app; lia).
    replace (len (pre ++ b ++ mid) - len mid - len pre) with (len b) by (rewrite !len_app; lia).
    split_and!; try done.
    + constructor; [by apply located_mid|done].
    + simpl. split; [done|]. rewrite len_app in Hc at 1. exact Hc.
Qed.

Lemma read_block_header_local header : local (read_block_header header).
Proof. destruct header; [apply hdr_Read_local|apply hdr_read_local]. Qed.

Lemma map_fst_snd_zip {A B} (ps : list (A * B)) : zip (map fst ps) (map snd ps) = ps.
Proof. induction ps as [|[] ps IH]; simpl; congruence. Qed.

(** What [DeserializeTxLoc] returns, next to what [Deserialize] returns. *)
Lemma DeserializeTxLoc_spec header inp :
  match DeserializeTxLoc header inp, MsgBlock_Deserialize header inp with
  | Ok ((b, locs), r1), Ok (b', r2) =>
      b = b' /\ r1 = r2 /\ length locs = length (Transactions b) /\
      Forall (located inp) (zip (Transactions b) locs) /\
      exists start, consecutive start (len inp - len r1) locs
  | Err _, Err _ => True
  | Panic, Panic => True
  | _, _ => False
  end.
Proof.
  unfold DeserializeTxLoc, MsgBlock_Deserialize, MsgBlock_BtcDecode.
  unfold mbind, reader_bind.
  destruct (read_block_header header inp) as [[h m1]| |] eqn:E1; [|done|done].
  apply read_block_header_local in E1 as (p1 & -> & _).
  destruct (ReadVarInt m1) as [[c m2]| |] eqn:E2; [|done|done].
  apply local_ReadVarInt in E2 as (p2 & -> & _).
  destruct (maxTxPerBlock <? c); [done|].
  pose proof (txLoc_loop_spec (Z.to_nat c) (p1 ++ p2) m2) as Hs. rewrite <-app_assoc in Hs.
  unfold MsgTx_Deserialize in Hs.
  destruct (txLoc_loop _ (Z.to_nat c) m2) as [[ps r1]| |],
    (read_n (Z.to_nat c) _ m2) as [[txs r2]| |]; try done.
  destruct Hs as (<- & <- & Hl & Hc). cbn [mret reader_ret Transactions].
  split_and!; try done; [by rewrite !length_map|by rewrite map_fst_snd_zip|eauto].
Qed.

End block.

(** * The instance: the two implementations of the interface *)

#[export] Instance BlockHeader_impl : HeaderImpl BlockHeader := {|
  hdr_codec := BlockHeader_codec; hdr_Read := Header_Read; hdr_Copy := Header_Copy;
  hdr_MaxLength := Header_MaxLength; hdr_Read_reads := header_read_same;
  hdr_Copy_write := Header_Copy_Write; hdr_read_local := local_DecodeHeader;
  hdr_Read_local := local_Header_Read
|}.

(** [DecodeBlock] of block_header.go: an empty block has no header yet. *)
Definition DecodeBlock : reader (MsgBlock BlockHeader) := MsgBlock_Deserialize None.

(** * Properties *)

Section properties.
Context {Hdr : Type} `{!HeaderImpl Hdr}.

(** For any implementation of the header interface, a block within the
    limits is encoded and read back, into an empty block or into a block that
    already has a header, up to the fields that are not serialized; the encoding
    is as long as [SerializeSize] says except for the header, which
    [SerializeSize] counts at its maximum length. *)
Theorem block_roundtrip enc (msg : MsgBlock Hdr) header :
  block_dom enc msg -> header = None \/ header = Some (Header msg) ->
  exists bs, writes (MsgBlock_BtcEncode enc msg) bs /\
    reads (MsgBlock_BtcDecode header enc) bs (block_normal enc msg) /\
    (enc = WitnessEncoding ->
     len bs = MsgBlock_SerializeSize msg - hdr_MaxLength (Header msg) +
              len (codec_bytes (Header msg))).
Proof.
  intros Hd Hh. exists (block_bytes enc msg). split_and!.
  - apply block_writes, Hd.
  - by apply block_reads.
  - intros ->. by apply len_block_bytes.
Qed.

(** [DeserializeTxLoc] decodes what [Deserialize] decodes, on every input:
    the same block and the same rest, or an error or a panic where [Deserialize]
    has one.  The locations it returns, one per transaction, are in range,
    follow each other up to the end of the block, and the bytes at location [i]
    decode by themselves to transaction [i]. *)
Theorem tx_locations (header : option Hdr) inp :
  match DeserializeTxLoc header inp, MsgBlock_Deserialize header inp with
  | Ok ((b, locs), r1), Ok (b', r2) =>
      b = b' /\ r1 = r2 /\ length locs = length (Transactions b) /\
      Forall (located inp) (zip (Transactions b) locs) /\
      exists start, consecutive start (len inp - len r1) locs
  | Err _, Err _ => True
  | Panic, Panic => True
  | _, _ => False
  end.
Proof. apply DeserializeTxLoc_spec. Qed.

(** A copy of a block has the same encoding as the block, and a block box
    with a 32-byte root is read back with its root after the block. *)
Theorem block_copy_and_box enc (msg : MsgBlock Hdr) (mmr : bytes) :
  MsgBlock_BtcEncode enc (MsgBlock_Copy msg) = MsgBlock_BtcEncode enc msg /\
  (block_dom enc msg -> len mmr = HashSize ->
   exists bs, writes (MsgBlockBox_BtcEncode enc {| Block := msg; BlockActualMMR := mmr |}) bs /\
     reads (MsgBlockBox_BtcDecode None enc) bs
       {| Block := block_normal enc msg; BlockActualMMR := mmr |}).
Proof.
  split.
  - unfold MsgBlock_BtcEncode, MsgBlock_Copy; cbn [Header Transactions].
    rewrite hdr_Copy_write, len_map, wlist_map. do 2 f_equal.
    apply wlist_ext. apply MsgTx_BtcEncode_copy.
  - intros Hd Hm. exists (block_bytes enc msg ++ mmr). split.
    + apply writes_seq; [apply block_writes, Hd|apply writes_write].
    + eapply reads_bind; [apply block_reads; [done|by left]|].
      eapply reads_bind_nil; [by apply (ReadFull_reads' HashSize)|]. apply reads_ret.
Qed.
End properties.

Definition example_block : MsgBlock BlockHeader :=
  {| Header := HBeacon example_beacon; Transactions := [example_tx; example_tx_swapped] |}.

Lemma example_block_dom : block_dom WitnessEncoding example_block.
Proof.
  split; [apply example_beacon_dom|]. split; [vm_compute; discriminate|].
  repeat constructor; vm_compute; done.
Qed.

Lemma block_roundtrip_witness :
  block_dom WitnessEncoding example_block /\
  exists bs, writes (MsgBlock_BtcEncode WitnessEncoding example_block) bs /\
    reads (MsgBlock_BtcDecode None WitnessEncoding) bs (block_normal WitnessEncoding example_block).
Proof.
  split; [apply example_block_dom|].
  destruct (block_roundtrip WitnessEncoding example_block None example_block_dom (or_introl eq_refl))
    as (bs & Hw & Hr & _). by exists bs.
Defined.

(** Locations of the two transactions of the example, by evaluation. *)
Example example_tx_locations :
  let bs := wbytes (MsgBlock_Serialize example_block) in
  exists b, DeserializeTxLoc None bs =
    Ok ((b, [{| TxStart := 460; TxLen := 112 |}; {| TxStart := 572; TxLen := 112 |}]), []).
Proof. vm_compute. eexists. reflexivity. Qed.

Lemma block_copy_and_box_witness :
  exists bs, writes (MsgBlockBox_BtcEncode WitnessEncoding
      {| Block := example_block; BlockActualMMR := example_hash 3 |}) bs /\
    reads (MsgBlockBox_BtcDecode None WitnessEncoding) bs
      {| Block := block_normal WitnessEncoding example_block; BlockActualMMR := example_hash 3 |}.
Proof.
  apply (block_copy_and_box WitnessEncoding example_block (example_hash 3));
    [apply example_block_dom|reflexivity].
Defined.
