(* ===== verification/WireMsg.v ===== *)
(** Protocol messages: the msg_*.go files of types/wire and net_address.go.

    One record per message with its encoder, its decoder and its size bound, and
    a codec instance for each of them.  Protocol version arguments are not used
    by the code and are left out; strings are their bytes; a net.IP is [None]
    for nil. *)

From S2P Require Import Prelude WireEncoding WireTx Sha256 Chainhash WireHeader WireBlock.

Definition MaxVarIntPayload : Z := 9.

(** * Lists with a limit *)

(** [AddX]: refuses an item beyond the limit. *)
Definition add_limited {A} (limit : Z) (e : go_error) (a : A) (l : list A) : outcome (list A) :=
  if limit <? len l + 1 then Err e else Ok (l ++ [a]).

(** [for i := 0; i < count; i++ { read(r, &item); msg.AddX(item) }] *)
Fixpoint read_add {A} (n : nat) (item : reader A) (add : A -> list A -> outcome (list A))
    (acc : list A) : reader (list A) :=
  match n with
  | O => mret acc
  | S n =>
      a ← item;
      match add a acc with
      | Ok acc => read_add n item add acc
      | Err e => read_fail e
      | Panic => read_panic
      end
  end.

(** The same with the error of [AddX] ignored, as in getblocks. *)
Fixpoint read_add_ignore {A} (n : nat) (item : reader A) (add : A -> list A -> outcome (list A))
    (acc : list A) : reader (list A) :=
  match n with
  | O => mret acc
  | S n =>
      a ← item;
      read_add_ignore n item add (match add a acc with Ok acc => acc | _ => acc end)
  end.

(** Below the limit both loops read the list of items. *)
Lemma read_add_read_n {A} n limit e (item : reader A) acc inp :
  len acc + Z.of_nat n <= limit ->
  read_add n item (add_limited limit e) acc inp = (l ← read_n n item; mret (acc ++ l)) inp /\
  read_add_ignore n item (add_limited limit e) acc inp = (l ← read_n n item; mret (acc ++ l)) inp.
Proof.
  revert acc inp. induction n as [|n IH]; intros acc inp Hlim.
  { unfold mbind, reader_bind; simpl. unfold mret, reader_ret. by rewrite app_nil_r. }
  cbn [read_add read_add_ignore read_n]. unfold mbind, reader_bind.
  destruct (item inp) as [[a mid]| |]; [|done|done].
  replace (add_limited limit e a acc) with (Ok (acc ++ [a]))
    by (unfold add_limited; by rewrite (proj2 (Z.ltb_ge _ _)) by lia).
  destruct (IH (acc ++ [a]) mid) as [-> ->]; [rewrite len_app, len_cons, len_nil; lia|].
  unfold mbind, reader_bind, mret, reader_ret.
  destruct (read_n n item mid) as [[l r]| |]; [|done|done]. by rewrite <-app_assoc.
Qed.

Lemma safe_read_add {A} (item : reader A) limit e n acc :
  safe item -> safe (read_add n item (add_limited limit e) acc).
Proof.
  intros Hi. revert acc. induction n as [|n IH]; intros acc; cbn [read_add]; [apply safe_ret|].
  apply safe_bind; [done|]. intros a. unfold add_limited at 1.
  destruct (limit <? _); [apply safe_fail|apply IH].
Qed.
Lemma safe_read_add_ignore {A} (item : reader A) add n acc :
  safe item -> safe (read_add_ignore n item add acc).
Proof.
  intros Hi. revert acc. induction n as [|n IH]; intros acc; cbn [read_add_ignore]; [apply safe_ret|].
  apply safe_bind; [done|]. intros a. apply IH.
Qed.
#[export] Hint Resolve safe_read_add_ignore : safe_db.

Lemma codes_read_add {A} (w : A -> writer) (item : reader A) (h : A -> A) limit e l n :
  n = length l -> len l <= limit -> Forall (fun a => codes (w a) item (h a)) l ->
  codes (wlist w l) (read_add n item (add_limited limit e) []) (map h l) /\
  codes (wlist w l) (read_add_ignore n item (add_limited limit e) []) (map h l).
Proof.
  intros Hn Hlim Hl. destruct (codes_read_n w item h l n Hn Hl) as (bs & Hw & Hr).
  split; exists bs; (split; [done|]); intros rest;
    destruct (read_add_read_n n limit e item [] (bs ++ rest)) as [E1 E2];
    try (rewrite len_nil; unfold len in Hlim; lia); rewrite ?E1, ?E2;
    unfold mbind, reader_bind; by rewrite (Hr rest).
Qed.

(** * Network addresses (net_address.go) *)

Record NetAddress := { Na_Timestamp : Z; Na_Services : Z; Na_IP : option bytes; Na_Port : Z }.
Record ShardAddress := { Sa_ShardID : Z; Sa_Address : NetAddress }.

Definition HasService (service : Z) (na : NetAddress) : bool :=
  Z.land (Na_Services na) service =? service.
Definition AddService (service : Z) (na : NetAddress) : NetAddress :=
  {| Na_Timestamp := Na_Timestamp na; Na_Services := Z.lor (Na_Services na) service;
     Na_IP := Na_IP na; Na_Port := Na_Port na |}.

(** net.IP.To16. *)
Definition v4InV6Prefix : bytes := mkbytes [0; 0; 0; 0; 0; 0; 0; 0; 0; 0; 0xff; 0xff].
Definition To16 (ip : bytes) : option bytes :=
  if len ip =? 4 then Some (v4InV6Prefix ++ ip)
  else if len ip =? 16 then Some ip else None.

(** [var ip [16]byte; if IP != nil { copy(ip[:], IP.To16()) }] *)
Definition ip16 (ip : option bytes) : bytes :=
  match ip with
  | None => replicate 16 Byte.x00
  | Some ip => default (replicate 16 Byte.x00) (To16 ip)
  end.

Definition maxNetAddressPayload : Z := 26 + 4.

(** The Unix time of the zero [time.Time]. *)
Definition zeroTime : Z := -62135596800.

(** [readNetAddress(r, na, ts)] into an address that has timestamp [old]. *)
Definition readNetAddress (old : Z) (ts : bool) : reader NetAddress :=
  t ← (if ts then ReadElement T_Uint32Time else mret old);
  '(services, (ip, _)) ← ReadElements [T_ServiceFlag; T_array 16];
  port ← Uint16 bigEndian;
  mret {| Na_Timestamp := t; Na_Services := services; Na_IP := Some ip; Na_Port := port |}.

Definition writeNetAddress (na : NetAddress) (ts : bool) : writer :=
  (if ts then WriteElement T_uint32 (uwrap 32 (Na_Timestamp na)) else write_nil) +++
  WriteElements [T_ServiceFlag; T_array 16] (Na_Services na, (ip16 (Na_IP na), tt)) +++
  PutUint16 bigEndian (Na_Port na).

Definition netaddr_dom (ts : bool) (na : NetAddress) : Prop :=
  (if ts then is_uint 32 (Na_Timestamp na) else True) /\ is_uint 64 (Na_Services na) /\
  is_uint 16 (Na_Port na).
Definition netaddr_norm (ts : bool) (na : NetAddress) : NetAddress :=
  {| Na_Timestamp := if ts then Na_Timestamp na else zeroTime; Na_Services := Na_Services na;
     Na_IP := Some (ip16 (Na_IP na)); Na_Port := Na_Port na |}.
Definition netaddr_bytes (ts : bool) (na : NetAddress) : bytes :=
  (if ts then elem_bytes T_uint32 (Na_Timestamp na) else []) ++
  elems_bytes [T_ServiceFlag; T_array 16] (Na_Services na, (ip16 (Na_IP na), tt)) ++
  bo_put bigEndian 2 (Na_Port na).

Lemma len_ip16 ip : len (ip16 ip) = 16.
Proof.
  destruct ip as [ip|]; [|done]. unfold ip16, To16.
  destruct (Z.eqb_spec (len ip) 4) as [E|].
  - change (len (v4InV6Prefix ++ ip) = 16). by rewrite len_app, E.
  - by destruct (Z.eqb_spec (len ip) 16).
Qed.

Lemma netaddr_writes ts na :
  netaddr_dom ts na -> writes (writeNetAddress na ts) (netaddr_bytes ts na).
Proof.
  intros (Ht & Hs & Hp). unfold writeNetAddress, netaddr_bytes.
  apply writes_seq; [|apply writes_seq; [|apply writes_write]].
  - destruct ts; [|auto with wire]. rewrite uwrap_id by done. by apply (WriteElement_writes T_uint32).
  - apply WriteElements_writes. split; [done|]. split; [apply len_ip16|done].
Qed.

Lemma netaddr_reads ts na :
  netaddr_dom ts na -> reads (readNetAddress zeroTime ts) (netaddr_bytes ts na) (netaddr_norm ts na).
Proof.
  intros (Ht & Hs & Hp). unfold readNetAddress, netaddr_bytes, netaddr_norm.
  eapply (reads_bind _ _ _ _ (if ts then Na_Timestamp na else zeroTime)).
  { destruct ts; [by apply ReadElement_Uint32Time|apply reads_ret]. }
  eapply (reads_bind _ _ _ _ (Na_Services na, (ip16 (Na_IP na), tt))).
  { elems_reads. split; [done|]. split; [apply len_ip16|done]. }
  eapply reads_bind_nil; [by apply Uint16_reads|]. apply reads_ret.
Qed.

Lemma len_netaddr_bytes ts na : len (netaddr_bytes ts na) = 26 + if ts then 4 else 0.
Proof.
  unfold netaddr_bytes. rewrite !len_app, len_bo_put. unfold elem_bytes. cbn [elems_bytes].
  unfold elem_bytes; cbn [WriteElement binary_Write]; unfold PutUint32, PutUint64.
  rewrite ?len_app, ?wbytes_write, ?len_ip16, ?len_bo_put.
  by destruct ts; rewrite ?wbytes_write, ?len_bo_put.
Qed.

(** * Inventory messages: inv, getdata, notfound *)

Definition MaxInvPerMsg : Z := 50000.
Definition MaxInvVectPayload : Z := 4 + HashSize.

Record MsgInv := { InvList : list InvVect }.

(** The three messages have the same code up to the name in their errors. *)
Section inv.
Variable name : string.

Definition AddInvVect (iv : InvVect) (msg : list InvVect) : outcome (list InvVect) :=
  add_limited MaxInvPerMsg (MessageError (name +:+ ".AddInvVect") "too many invvect in message") iv msg.

Definition MsgInv_BtcDecode : reader MsgInv :=
  count ← ReadVarInt;
  if MaxInvPerMsg <? count
  then read_fail (MessageError (name +:+ ".BtcDecode") "too many invvect in message")
  else
    l ← read_add (Z.to_nat count) ReadInvVect AddInvVect [];
    mret {| InvList := l |}.

Definition MsgInv_BtcEncode (msg : MsgInv) : writer :=
  if MaxInvPerMsg <? len (InvList msg)
  then write_fail (MessageError (name +:+ ".BtcEncode") "too many invvect in message")
  else WriteVarInt (len (InvList msg)) +++ wlist WriteInvVect (InvList msg).
End inv.

Definition MsgGetData_AddInvVect := AddInvVect "MsgGetData".
Definition MsgGetData_BtcDecode := MsgInv_BtcDecode "MsgGetData".
Definition MsgGetData_BtcEncode := MsgInv_BtcEncode "MsgGetData".
Definition MsgNotFound_AddInvVect := AddInvVect "MsgNotFound".
Definition MsgNotFound_BtcDecode := MsgInv_BtcDecode "MsgNotFound".
Definition MsgNotFound_BtcEncode := MsgInv_BtcEncode "MsgNotFound".

Definition MsgInv_MaxPayloadLength : Z := MaxVarIntPayload + MaxInvPerMsg * MaxInvVectPayload.

(** * Block locators: getblocks, getheaders *)

Definition MaxBlockLocatorsPerMsg : Z := 500.

(** A [BlockLocatorMeta] is its hash. *)
Definition BlockLocatorMeta_Serialize (meta : bytes) : writer := WriteElements [T_Hash] (meta, tt).
Definition BlockLocatorMeta_Deserialize : reader bytes := '(h, _) ← ReadElements [T_Hash]; mret h.

Record MsgGetBlocks := { Gb_ProtocolVersion : Z; BlockLocatorMetas : list bytes; HashStop : bytes }.

Definition AddBlockLocatorMeta (name : string) : bytes -> list bytes -> outcome (list bytes) :=
  add_limited MaxBlockLocatorsPerMsg
    (MessageError (name +:+ ".AddBlockLocatorMeta") "too many block locator metas for message").

Definition MsgGetBlocks_BtcDecode : reader MsgGetBlocks :=
  pv ← ReadElement T_uint32;
  count ← ReadVarInt;
  if MaxBlockLocatorsPerMsg <? count
  then read_fail (MessageError "MsgGetBlocks.BtcDecode" "too many block locator hashes for message")
  else
    metas ← read_add_ignore (Z.to_nat count) BlockLocatorMeta_Deserialize
              (AddBlockLocatorMeta "MsgGetBlocks") [];
    stop ← ReadElement T_Hash;
    mret {| Gb_ProtocolVersion := pv; BlockLocatorMetas := metas; HashStop := stop |}.

Definition MsgGetHeaders_BtcDecode : reader MsgGetBlocks :=
  pv ← ReadElement T_uint32;
  count ← ReadVarInt;
  if MaxBlockLocatorsPerMsg <? count
  then read_fail (MessageError "MsgGetHeaders.BtcDecode" "too many block locator hashes for message")
  else
    metas ← read_add (Z.to_nat count) BlockLocatorMeta_Deserialize
              (AddBlockLocatorMeta "MsgGetHeaders") [];
    stop ← ReadElement T_Hash;
    mret {| Gb_ProtocolVersion := pv; BlockLocatorMetas := metas; HashStop := stop |}.

(** The encoders of getblocks and getheaders, [name] is in their errors. *)
Definition MsgGetBlocks_BtcEncode (name : string) (msg : MsgGetBlocks) : writer :=
  let count := len (BlockLocatorMetas msg) in
  if MaxBlockLocatorsPerMsg <? count
  then write_fail (MessageError (name +:+ ".BtcEncode") "too many block locator metas for message")
  else
    WriteElement T_uint32 (Gb_ProtocolVersion msg) +++
    WriteVarInt count +++
    wlist BlockLocatorMeta_Serialize (BlockLocatorMetas msg) +++
    WriteElement T_Hash (HashStop msg).

Definition MsgGetHeaders_AddBlockLocatorMeta := AddBlockLocatorMeta "MsgGetHeaders".
Definition MsgGetHeaders_BtcEncode := MsgGetBlocks_BtcEncode "MsgGetHeaders".

Definition MsgGetBlocks_MaxPayloadLength : Z :=
  4 + MaxVarIntPayload + MaxBlockLocatorsPerMsg * HashSize + HashSize.

(** * headers *)

Definition MaxBlockHeadersPerMsg : Z := 1000.
Record HeaderBox := { ActualMMRRoot : bytes; Hb_Header : BlockHeader }.
Record MsgHeaders := { Headers : list HeaderBox }.

Definition AddBlockHeader (bh : BlockHeader) (mmrRoot : bytes) (msg : MsgHeaders) : outcome MsgHeaders :=
  if MaxBlockHeadersPerMsg <? len (Headers msg) + 1
  then Err (MessageError "MsgHeaders.AddBlockHeader" "too many block headers in message")
  else Ok {| Headers := Headers msg ++ [{| ActualMMRRoot := mmrRoot; Hb_Header := bh |}] |}.

(** The body of the decoding loop. *)
Definition readHeaderBox : reader HeaderBox :=
  root ← ReadElement T_Hash;
  bh ← DecodeHeader;
  txCount ← ReadVarInt;
  if 0 <? txCount
  then read_fail (MessageError "MsgHeaders.BtcDecode" "block headers may not contain transactions")
  else mret {| ActualMMRRoot := root; Hb_Header := bh |}.

Definition writeHeaderBox (bh : HeaderBox) : writer :=
  WriteElement T_Hash (ActualMMRRoot bh) +++ Header_Write (Hb_Header bh) +++ WriteVarInt 0.

Definition MsgHeaders_BtcDecode : reader MsgHeaders :=
  count ← ReadVarInt;
  if MaxBlockHeadersPerMsg <? count
  then read_fail (MessageError "MsgHeaders.BtcDecode" "too many block headers for message")
  else l ← read_n (Z.to_nat count) readHeaderBox; mret {| Headers := l |}.

Definition MsgHeaders_BtcEncode (msg : MsgHeaders) : writer :=
  if MaxBlockHeadersPerMsg <? len (Headers msg)
  then write_fail (MessageError "MsgHeaders.BtcEncode" "too many block headers for message")
  else WriteVarInt (len (Headers msg)) +++ wlist writeHeaderBox (Headers msg).

Definition MsgHeaders_MaxPayloadLength : Z :=
  MaxVarIntPayload + (MaxShardBlockHeaderPayload + 1) * MaxBlockHeadersPerMsg.

(** * addr and portredirect *)

Definition MaxAddrPerMsg : Z := 1000.
Record MsgAddr := { AddrList : list NetAddress; Shards : list ShardAddress }.

Definition AddAddress (na : NetAddress) (l : list NetAddress) : outcome (list NetAddress) :=
  add_limited MaxAddrPerMsg (MessageError "MsgAddr.AddAddress" "too many addresses in message") na l.

(** The loop over the shards: [shards] is a slice of nil pointers, so that the
    first assignment through an element is a nil dereference. *)
Definition read_addr_shards (count : Z) : reader (list ShardAddress) :=
  if make_panics 8 count then read_panic
  else if 0 <? count then id ← ReadVarInt; read_panic
  else mret [].

Definition MsgAddr_BtcDecode : reader MsgAddr :=
  count ← ReadVarInt;
  if MaxAddrPerMsg <? count
  then read_fail (MessageError "MsgAddr.BtcDecode" "too many addresses for message")
  else
    l ← read_add (Z.to_nat count) (readNetAddress zeroTime true) AddAddress [];
    count ← ReadVarInt;
    shards ← read_addr_shards count;
    mret {| AddrList := l; Shards := shards |}.

Definition MsgAddr_BtcEncode (msg : MsgAddr) : writer :=
  if MaxAddrPerMsg <? len (AddrList msg)
  then write_fail (MessageError "MsgAddr.BtcEncode" "too many addresses for message")
  else
    WriteVarInt (len (AddrList msg)) +++
    wlist (fun na => writeNetAddress na true) (AddrList msg) +++
    WriteVarInt (len (Shards msg)) +++
    wlist (fun na => WriteVarInt (Sa_ShardID na) +++ writeNetAddress (Sa_Address na) true) (Shards msg).

Definition MsgAddr_MaxPayloadLength : Z := MaxVarIntPayload + MaxAddrPerMsg * maxNetAddressPayload.

Record MsgPortRedirect := { Pr_ShardID : Z; Pr_Port : Z; Pr_IP : option bytes }.

Definition MsgPortRedirect_BtcDecode : reader MsgPortRedirect :=
  '(id, (port, (ip, _))) ← ReadElements [T_uint32; T_uint32; T_array 16];
  mret {| Pr_ShardID := id; Pr_Port := port; Pr_IP := Some ip |}.

Definition MsgPortRedirect_BtcEncode (m : MsgPortRedirect) : writer :=
  WriteElements [T_uint32; T_uint32; T_array 16] (Pr_ShardID m, (Pr_Port m, (ip16 (Pr_IP m), tt))).

Definition MsgPortRedirect_MaxPayloadLength : Z := 4 + 4 + 16.

(** * version *)

Definition MaxUserAgentLen : Z := 256.

Record MsgVersion := {
  Mv_ProtocolVersion : Z; IsBeacon : bool; Shard : Z; Services : Z; Mv_Timestamp : Z;
  AddrYou : NetAddress; AddrMe : NetAddress; Mv_Nonce : Z; UserAgent : bytes; LastBlock : Z;
  Mv_ChainWeight : option Z; DisableRelayTx : bool
}.

Definition validateUserAgent (userAgent : bytes) : option go_error :=
  if MaxUserAgentLen <? len userAgent then Some (MessageError "MsgVersion" "user agent too long")
  else None.

(** [if buf.Len() > 0 { p }], with [d] for the field that keeps its zero value. *)
Definition if_more {A} (p : reader A) (d : A) : reader A := fun buf =>
  if 0 <? len buf then p buf else Ok (d, buf).

Definition zeroNetAddress : NetAddress :=
  {| Na_Timestamp := zeroTime; Na_Services := 0; Na_IP := None; Na_Port := 0 |}.

Definition read_user_agent : reader bytes :=
  userAgent ← ReadVarString;
  match validateUserAgent userAgent with Some e => read_fail e | None => mret userAgent end.

Definition MsgVersion_BtcDecode : reader MsgVersion :=
  '(pv, (services, (t, _))) ← ReadElements [T_int32; T_ServiceFlag; T_Int64Time];
  isBeacon ← if_more (ReadElement T_bool) false;
  shard ← if_more (ReadElement T_uint32) 0;
  you ← readNetAddress zeroTime false;
  me ← if_more (readNetAddress zeroTime false) zeroNetAddress;
  nonce ← if_more (ReadElement T_uint64) 0;
  agent ← if_more read_user_agent [];
  last ← if_more (ReadElement T_int32) 0;
  weight ← if_more (w ← ReadBigInt; mret (Some w)) None;
  disable ← if_more (relay ← ReadElement T_bool; mret (negb relay)) false;
  mret {| Mv_ProtocolVersion := pv; IsBeacon := isBeacon; Shard := shard; Services := services;
          Mv_Timestamp := t; AddrYou := you; AddrMe := me; Mv_Nonce := nonce; UserAgent := agent;
          LastBlock := last; Mv_ChainWeight := weight; DisableRelayTx := disable |}.

(** [WriteBigInt] of a nil weight is a nil dereference. *)
Definition MsgVersion_BtcEncode (msg : MsgVersion) : outcome writer :=
  match validateUserAgent (UserAgent msg), Mv_ChainWeight msg with
  | Some e, _ => Ok (write_fail e)
  | None, None => Panic
  | None, Some weight => Ok (
      WriteElements [T_int32; T_ServiceFlag; T_int64]
        (Mv_ProtocolVersion msg, (Services msg, (Mv_Timestamp msg, tt))) +++
      WriteElement T_bool (IsBeacon msg) +++
      WriteElement T_uint32 (Shard msg) +++
      writeNetAddress (AddrYou msg) false +++
      writeNetAddress (AddrMe msg) false +++
      WriteElement T_uint64 (Mv_Nonce msg) +++
      WriteVarString (UserAgent msg) +++
      WriteElement T_int32 (LastBlock msg) +++
      WriteBigInt weight +++
      WriteElement T_bool (negb (DisableRelayTx msg)))
  end.

Definition MsgVersion_MaxPayloadLength : Z :=
  33 + maxNetAddressPayload * 2 + MaxVarIntPayload + MaxUserAgentLen.

(** * Messages with a fixed list of elements *)

(** ping, pong: [Nonce]; feefilter: [MinFee]; getaddr: [ShardID]. *)
Definition MsgPing_BtcDecode : reader Z := ReadElement T_uint64.
Definition MsgPing_BtcEncode (nonce : Z) : writer := WriteElement T_uint64 nonce.
Definition MsgPong_BtcDecode : reader Z := ReadElement T_uint64.
Definition MsgPong_BtcEncode (nonce : Z) : writer := WriteElement T_uint64 nonce.
Definition MsgFeeFilter_BtcDecode : reader Z := ReadElement T_int64.
Definition MsgFeeFilter_BtcEncode (minFee : Z) : writer := WriteElement T_int64 minFee.
Definition MsgGetAddr_BtcDecode : reader Z := ReadElement T_uint32.
Definition MsgGetAddr_BtcEncode (shardID : Z) : writer := WriteElement T_uint32 shardID.

(** getcfilters and getcfheaders; a [FilterType] is a named uint8, and the
    encoders pass [StartHeight] by pointer. *)
Record MsgGetCFilters := { Gcf_FilterType : Z; Gcf_StartHeight : Z; Gcf_StopHash : bytes }.

Definition MsgGetCFilters_BtcDecode : reader MsgGetCFilters :=
  t ← ReadElement (T_named false 1);
  h ← ReadElement T_uint32;
  s ← ReadElement T_Hash;
  mret {| Gcf_FilterType := t; Gcf_StartHeight := h; Gcf_StopHash := s |}.

Definition MsgGetCFilters_BtcEncode (msg : MsgGetCFilters) : writer :=
  WriteElement (T_named false 1) (Gcf_FilterType msg) +++
  WriteElement (T_named false 4) (Gcf_StartHeight msg) +++
  WriteElement T_Hash (Gcf_StopHash msg).

Definition MsgGetCFHeaders_BtcDecode : reader MsgGetCFilters :=
  t ← ReadElement (T_named false 1);
  h ← ReadElement T_uint32;
  s ← ReadElement T_Hash;
  mret {| Gcf_FilterType := t; Gcf_StartHeight := h; Gcf_StopHash := s |}.

Definition MsgGetCFHeaders_BtcEncode (msg : MsgGetCFilters) : writer :=
  WriteElement (T_named false 1) (Gcf_FilterType msg) +++
  WriteElement (T_named false 4) (Gcf_StartHeight msg) +++
  WriteElement T_Hash (Gcf_StopHash msg).

Record MsgGetCFCheckpt := { Gck_FilterType : Z; Gck_StopHash : bytes }.

Definition MsgGetCFCheckpt_BtcDecode : reader MsgGetCFCheckpt :=
  t ← ReadElement (T_named false 1);
  s ← ReadElement T_Hash;
  mret {| Gck_FilterType := t; Gck_StopHash := s |}.

Definition MsgGetCFCheckpt_BtcEncode (msg : MsgGetCFCheckpt) : writer :=
  WriteElement (T_named false 1) (Gck_FilterType msg) +++ WriteElement T_Hash (Gck_StopHash msg).

(** * Committed filters: cfilter, cfheaders, cfcheckpt

    The encoders pass the hashes by value, which goes through encoding/binary. *)

Definition MaxCFilterDataSize : Z := 256 * 1024.
Record MsgCFilter := { Cf_FilterType : Z; Cf_BlockHash : bytes; Cf_Data : bytes }.

Definition MsgCFilter_BtcDecode : reader MsgCFilter :=
  t ← ReadElement (T_named false 1);
  h ← ReadElement T_Hash;
  d ← ReadVarBytes MaxCFilterDataSize "cfilter data";
  mret {| Cf_FilterType := t; Cf_BlockHash := h; Cf_Data := d |}.

Definition MsgCFilter_BtcEncode (msg : MsgCFilter) : writer :=
  if MaxCFilterDataSize <? len (Cf_Data msg)
  then write_fail (MessageError "MsgCFilter.BtcEncode" "cfilter size too large for message")
  else
    WriteElement (T_named false 1) (Cf_FilterType msg) +++
    WriteElement (T_array 32) (Cf_BlockHash msg) +++
    WriteVarBytes (Cf_Data msg).

Definition MaxCFHeadersPerMsg : Z := 2000.
Record MsgCFHeaders := {
  Ch_FilterType : Z; Ch_StopHash : bytes; PrevFilterHeader : bytes; FilterHashes : list bytes
}.

Definition AddCFHash : bytes -> list bytes -> outcome (list bytes) :=
  add_limited MaxCFHeadersPerMsg
    (MessageError "MsgCFHeaders.AddCFHash" "too many block headers in message").

Definition MsgCFHeaders_BtcDecode : reader MsgCFHeaders :=
  t ← ReadElement (T_named false 1);
  stop ← ReadElement T_Hash;
  prev ← ReadElement T_Hash;
  count ← ReadVarInt;
  if MaxCFHeadersPerMsg <? count
  then read_fail (MessageError "MsgCFHeaders.BtcDecode" "too many committed filter headers for message")
  else
    l ← read_add (Z.to_nat count) (ReadElement T_Hash) AddCFHash [];
    mret {| Ch_FilterType := t; Ch_StopHash := stop; PrevFilterHeader := prev; FilterHashes := l |}.

(** The limit is checked after the first fields have been written. *)
Definition MsgCFHeaders_BtcEncode (msg : MsgCFHeaders) : writer :=
  WriteElement (T_named false 1) (Ch_FilterType msg) +++
  WriteElement (T_array 32) (Ch_StopHash msg) +++
  WriteElement (T_array 32) (PrevFilterHeader msg) +++
  (if MaxCFHeadersPerMsg <? len (FilterHashes msg)
   then write_fail (MessageError "MsgCFHeaders.BtcEncode" "too many committed filter headers for message")
   else WriteVarInt (len (FilterHashes msg)) +++ wlist (WriteElement T_Hash) (FilterHashes msg)).

Definition maxCFHeadersLen : Z := 100000.
Record MsgCFCheckpt := { Cc_FilterType : Z; Cc_StopHash : bytes; FilterHeaders : list bytes }.

Definition MsgCFCheckpt_BtcDecode : reader MsgCFCheckpt :=
  t ← ReadElement (T_named false 1);
  stop ← ReadElement T_Hash;
  count ← ReadVarInt;
  if maxCFHeadersLen <? count
  then read_fail (errorString "refusing to decode unreasonable number of filter headers")
  else
    l ← read_n (Z.to_nat count) (ReadElement T_Hash);
    mret {| Cc_FilterType := t; Cc_StopHash := stop; FilterHeaders := l |}.

Definition MsgCFCheckpt_BtcEncode (msg : MsgCFCheckpt) : writer :=
  WriteElement (T_named false 1) (Cc_FilterType msg) +++
  WriteElement (T_array 32) (Cc_StopHash msg) +++
  WriteVarInt (len (FilterHeaders msg)) +++ wlist (WriteElement T_Hash) (FilterHeaders msg).

(** * Bloom filters: filteradd, filterload, merkleblock *)

Definition MaxFilterAddDataSize : Z := 520.

Definition MsgFilterAdd_BtcDecode : reader bytes := ReadVarBytes MaxFilterAddDataSize "filteradd data".
Definition MsgFilterAdd_BtcEncode (data : bytes) : writer :=
  if MaxFilterAddDataSize <? len data
  then write_fail (MessageError "MsgFilterAdd.BtcEncode" "filteradd size too large for message")
  else WriteVarBytes data.

Definition MaxFilterLoadHashFuncs : Z := 50.
Definition MaxFilterLoadFilterSize : Z := 36000.
Record MsgFilterLoad := { Filter : bytes; HashFuncs : Z; Tweak : Z; Fl_Flags : Z }.

Definition MsgFilterLoad_BtcDecode : reader MsgFilterLoad :=
  f ← ReadVarBytes MaxFilterLoadFilterSize "filterload filter size";
  '(n, (t, (fl, _))) ← ReadElements [T_uint32; T_uint32; T_BloomUpdateType];
  if MaxFilterLoadHashFuncs <? n
  then read_fail (MessageError "MsgFilterLoad.BtcDecode" "too many filter hash functions for message")
  else mret {| Filter := f; HashFuncs := n; Tweak := t; Fl_Flags := fl |}.

Definition MsgFilterLoad_BtcEncode (msg : MsgFilterLoad) : writer :=
  if MaxFilterLoadFilterSize <? len (Filter msg)
  then write_fail (MessageError "MsgFilterLoad.BtcEncode" "filterload filter size too large for message")
  else if MaxFilterLoadHashFuncs <? HashFuncs msg
  then write_fail (MessageError "MsgFilterLoad.BtcEncode" "too many filter hash functions for message")
  else
    WriteVarBytes (Filter msg) +++
    WriteElements [T_uint32; T_uint32; T_BloomUpdateType]
      (HashFuncs msg, (Tweak msg, (Fl_Flags msg, tt))).

Definition maxFlagsPerMerkleBlock : Z := maxTxPerBlock / 8.
Record MsgMerkleBlock := {
  Mb_Header : BlockHeader; Mb_Transactions : Z; Mb_Hashes : list bytes; Mb_Flags : bytes
}.

Definition AddTxHash : bytes -> list bytes -> outcome (list bytes) :=
  add_limited maxTxPerBlock (MessageError "MsgMerkleBlock.AddTxHash" "too many tx hashes for message").

Definition MsgMerkleBlock_BtcDecode (header : option BlockHeader) : reader MsgMerkleBlock :=
  h ← read_block_header header;
  txs ← ReadElement T_uint32;
  count ← ReadVarInt;
  if maxTxPerBlock <? count
  then read_fail (MessageError "MsgMerkleBlock.BtcDecode" "too many transaction hashes for message")
  else
    hashes ← read_add (Z.to_nat count) (ReadElement T_Hash) AddTxHash [];
    flags ← ReadVarBytes maxFlagsPerMerkleBlock "merkle block flags size";
    mret {| Mb_Header := h; Mb_Transactions := txs; Mb_Hashes := hashes; Mb_Flags := flags |}.

Definition MsgMerkleBlock_BtcEncode (msg : MsgMerkleBlock) : writer :=
  if maxTxPerBlock <? len (Mb_Hashes msg)
  then write_fail (MessageError "MsgMerkleBlock.BtcDecode" "too many transaction hashes for message")
  else if maxFlagsPerMerkleBlock <? len (Mb_Flags msg)
  then write_fail (MessageError "MsgMerkleBlock.BtcDecode" "too many flag bytes for message")
  else
    Header_Write (Mb_Header msg) +++
    WriteElement T_uint32 (Mb_Transactions msg) +++
    WriteVarInt (len (Mb_Hashes msg)) +++ wlist (WriteElement T_Hash) (Mb_Hashes msg) +++
    WriteVarBytes (Mb_Flags msg).

(** * reject *)

Definition CmdTx : bytes := String.list_byte_of_string "tx".
Definition CmdBlock : bytes := String.list_byte_of_string "block".

Record MsgReject := { Cmd : bytes; Code : Z; Reason : bytes; Rj_Hash : bytes }.

Definition reject_has_hash (cmd : bytes) : bool := bool_decide (cmd = CmdBlock) || bool_decide (cmd = CmdTx).

Definition MsgReject_BtcDecode : reader MsgReject :=
  cmd ← ReadVarString;
  code ← ReadElement T_RejectCode;
  reason ← ReadVarString;
  hash ← (if reject_has_hash cmd then ReadElement T_Hash else mret ZeroHash);
  mret {| Cmd := cmd; Code := code; Reason := reason; Rj_Hash := hash |}.

Definition MsgReject_BtcEncode (msg : MsgReject) : writer :=
  WriteVarString (Cmd msg) +++
  WriteElement T_RejectCode (Code msg) +++
  WriteVarString (Reason msg) +++
  (if reject_has_hash (Cmd msg) then WriteElement T_Hash (Rj_Hash msg) else write_nil).

(** * EAD addresses: eadip, eaddresses *)

Definition MaxEADDomainLen : Z := 256.

Record EADAddress := {
  Ea_IP : option bytes; Ea_Port : Z; Ea_URL : bytes; ExpiresAt : Z; Ea_Shard : Z;
  Ea_TxHash : bytes; TxOutIndex : Z
}.
Record EADAddresses := { Ead_ID : Z; OwnerPubKey : bytes; Addresses : list EADAddress }.

Definition EADAddress_BtcDecode : reader EADAddress :=
  '(t, (shard, (hash, (port, (index, (isURL, _)))))) ←
    ReadElements [T_Uint32Time; T_uint32; T_Hash; T_uint32; T_uint64; T_bool];
  '(ip, url) ←
    (if negb isURL then ip ← ReadElement (T_array 16); mret (Some ip, [])
     else domain ← ReadVarBytes MaxEADDomainLen "TxHash"; mret (None, domain));
  mret {| Ea_IP := ip; Ea_Port := uwrap 16 port; Ea_URL := url; ExpiresAt := t; Ea_Shard := shard;
          Ea_TxHash := hash; TxOutIndex := swrap 64 index |}.

Definition EADAddress_BtcEncode (msg : EADAddress) : writer :=
  WriteElements [T_uint32; T_uint32; T_Hash; T_uint32; T_uint64; T_bool]
    (uwrap 32 (ExpiresAt msg), (Ea_Shard msg, (Ea_TxHash msg, (Ea_Port msg,
    (uwrap 64 (TxOutIndex msg), (bool_decide (Ea_IP msg = None), tt)))))) +++
  match Ea_IP msg with
  | Some ip => WriteElement (T_array 16) (ip16 (Some ip))
  | None => WriteVarBytes (Ea_URL msg)
  end.

Definition EADAddresses_BtcDecode : reader EADAddresses :=
  alias ← ReadVarInt;
  key ← ReadVarBytes (65 * 2) "OwnerPubKey";
  count ← ReadVarInt;
  if make_panics 96 count then read_panic
  else
    l ← read_n (Z.to_nat count) EADAddress_BtcDecode;
    mret {| Ead_ID := alias; OwnerPubKey := key; Addresses := l |}.

Definition EADAddresses_BtcEncode (msg : EADAddresses) : writer :=
  WriteVarInt (Ead_ID msg) +++
  WriteVarBytes (OwnerPubKey msg) +++
  WriteVarInt (len (Addresses msg)) +++
  wlist EADAddress_BtcEncode (Addresses msg).

Definition EADAddress_MaxPayloadLength : Z := 16 + 4 + 8.

(** net.IP.Equal: a 4-byte address equals its 16-byte form. *)
Definition IP_Equal (ip x : bytes) : bool :=
  if len ip =? len x then bool_decide (ip = x)
  else if (len ip =? 4) && (len x =? 16) then bool_decide (x = v4InV6Prefix ++ ip)
  else if (len ip =? 16) && (len x =? 4) then bool_decide (ip = v4InV6Prefix ++ x)
  else false.

Definition EADAddress_Eq (ip : option bytes) (url : bytes) (shardID : Z) (msg : EADAddress) : bool :=
  let ipEq := match Ea_IP msg with None => true | Some i => IP_Equal i (default [] ip) end in
  let urlEq := bool_decide (Ea_URL msg = []) || bool_decide (Ea_URL msg = url) in
  ipEq && urlEq && (Ea_Shard msg =? shardID).

Definition EADAddresses_AddAddress (ip : option bytes) (url : bytes) (port expiresAt shardID : Z)
    (hash : bytes) (ind : Z) (msg : EADAddresses) : EADAddresses :=
  {| Ead_ID := Ead_ID msg; OwnerPubKey := OwnerPubKey msg;
     Addresses := List.filter (fun p => negb (EADAddress_Eq ip url shardID p)) (Addresses msg) ++
       [{| Ea_IP := ip; Ea_Port := port; Ea_URL := url; ExpiresAt := expiresAt; Ea_Shard := shardID;
           Ea_TxHash := hash; TxOutIndex := ind |}] |}.

Definition HasShard (shards : list Z) (msg : EADAddress) : bool :=
  existsb (fun shard => shard =? Ea_Shard msg) shards.

(** * alert *)

Definition fixedAlertSize : Z := 45.
Definition maxSignatureSize : Z := 72.
Definition maxAlertSize : Z := MaxMessagePayload - maxSignatureSize - MaxVarIntPayload - 1.
Definition maxCountSetCancel : Z := (maxAlertSize - fixedAlertSize - MaxVarIntPayload + 1) / 4.
Definition maxCountSetSubVer : Z := (maxAlertSize - fixedAlertSize - MaxVarIntPayload + 1) / 256.

Record Alert := {
  Al_Version : Z; RelayUntil : Z; Expiration : Z; Al_ID : Z; Cancel : Z; SetCancel : list Z;
  MinVer : Z; MaxVer : Z; SetSubVer : list bytes; Priority : Z; Comment : bytes;
  StatusBar : bytes; Reserved : bytes
}.

Definition Alert_Serialize (alert : Alert) : writer :=
  WriteElements [T_int32; T_int64; T_int64; T_int32; T_int32]
    (Al_Version alert, (RelayUntil alert, (Expiration alert, (Al_ID alert, (Cancel alert, tt))))) +++
  (if maxCountSetCancel <? len (SetCancel alert)
   then write_fail (MessageError "Alert.Serialize" "too many cancel alert IDs for alert")
   else WriteVarInt (len (SetCancel alert)) +++ wlist (WriteElement T_int32) (SetCancel alert)) +++
  WriteElements [T_int32; T_int32] (MinVer alert, (MaxVer alert, tt)) +++
  (if maxCountSetSubVer <? len (SetSubVer alert)
   then write_fail (MessageError "Alert.Serialize" "too many sub versions for alert")
   else WriteVarInt (len (SetSubVer alert)) +++ wlist WriteVarString (SetSubVer alert)) +++
  WriteElement T_int32 (Priority alert) +++
  WriteVarString (Comment alert) +++ WriteVarString (StatusBar alert) +++
  WriteVarString (Reserved alert).

Definition Alert_Deserialize : reader Alert :=
  '(v, (ru, (ex, (id, (ca, _))))) ← ReadElements [T_int32; T_int64; T_int64; T_int32; T_int32];
  sc ← (count ← ReadVarInt;
        if maxCountSetCancel <? count
        then read_fail (MessageError "Alert.Deserialize" "too many cancel alert IDs for alert")
        else read_n (Z.to_nat count) (ReadElement T_int32));
  '(minv, (maxv, _)) ← ReadElements [T_int32; T_int32];
  sv ← (count ← ReadVarInt;
        if maxCountSetSubVer <? count
        then read_fail (MessageError "Alert.Deserialize" "too many sub versions for alert")
        else read_n (Z.to_nat count) ReadVarString);
  pr ← ReadElement T_int32;
  co ← ReadVarString;
  sb ← ReadVarString;
  rs ← ReadVarString;
  mret {| Al_Version := v; RelayUntil := ru; Expiration := ex; Al_ID := id; Cancel := ca;
          SetCancel := sc; MinVer := minv; MaxVer := maxv; SetSubVer := sv; Priority := pr;
          Comment := co; StatusBar := sb; Reserved := rs |}.

(** Bytes after the alert in its payload are ignored. *)
Definition NewAlertFromPayload (serializedPayload : bytes) : outcome Alert :=
  match Alert_Deserialize serializedPayload with
  | Ok (alert, _) => Ok alert
  | Err e => Err e
  | Panic => Panic
  end.

Record MsgAlert := { SerializedPayload : bytes; Signature : bytes; Payload : option Alert }.

Definition MsgAlert_BtcDecode : reader MsgAlert :=
  sp ← ReadVarBytes MaxMessagePayload "alert serialized payload";
  payload ← (match NewAlertFromPayload sp with
             | Ok a => mret (Some a) | Err _ => mret None | Panic => read_panic end);
  sig ← ReadVarBytes MaxMessagePayload "alert signature";
  mret {| SerializedPayload := sp; Signature := sig; Payload := payload |}.

Definition alert_payload (msg : MsgAlert) : bytes :=
  match Payload msg with
  | Some a => match snd (Alert_Serialize a) with
              | Some _ => SerializedPayload msg
              | None => wbytes (Alert_Serialize a)
              end
  | None => SerializedPayload msg
  end.

Definition MsgAlert_BtcEncode (msg : MsgAlert) : writer :=
  let serializedpayload := alert_payload msg in
  if len serializedpayload =? 0
  then write_fail (MessageError "MsgAlert.BtcEncode" "empty serialized payload")
  else WriteVarBytes serializedpayload +++ WriteVarBytes (Signature msg).

(** * The encoders and decoders agree *)

Section codes_basic.
Lemma codes_elem t v : elem_dom t v -> codes (WriteElement t v) (ReadElement t) v.
Proof. intros. exists (elem_bytes t v). split; [by apply WriteElement_writes|by apply ReadElement_reads]. Qed.
Lemma codes_elems ts es : elems_dom ts es -> codes (WriteElements ts es) (ReadElements ts) es.
Proof. exists (elems_bytes ts es). auto with wire. Qed.
Lemma codes_varint v : is_uint 64 v -> codes (WriteVarInt v) ReadVarInt v.
Proof. exists (varint_bytes v). auto with wire. Qed.
Lemma codes_len {A} (l : list A) limit :
  len l <= limit -> limit < 2 ^ 64 -> codes (WriteVarInt (len l)) ReadVarInt (len l).
Proof. intros. apply codes_varint. by eapply len_is_uint64. Qed.
Lemma codes_varbytes limit f bs :
  len bs <= limit -> limit < 2 ^ 64 -> codes (WriteVarBytes bs) (ReadVarBytes limit f) bs.
Proof.
  intros. exists (varbytes bs). split; [apply WriteVarBytes_writes|].
  apply guarded_bytes_reads; [done|]. by eapply len_is_uint64.
Qed.
Lemma codes_varstring bs : len bs <= MaxMessagePayload -> codes (WriteVarString bs) ReadVarString bs.
Proof.
  intros. exists (varbytes bs). split; [apply WriteVarBytes_writes|].
  apply guarded_bytes_reads; [done|]. by eapply len_is_uint64.
Qed.
Lemma codes_netaddr ts na : netaddr_dom ts na ->
  codes (writeNetAddress na ts) (readNetAddress zeroTime ts) (netaddr_norm ts na).
Proof. exists (netaddr_bytes ts na). split; [by apply netaddr_writes|by apply netaddr_reads]. Qed.
Lemma codes_hash_elem h : len h = HashSize -> codes (WriteElement T_Hash h) (ReadElement T_Hash) h.
Proof. apply (codes_elem T_Hash). Qed.
(** A hash written by value, through encoding/binary. *)
Lemma codes_hash_value h :
  len h = HashSize -> codes (WriteElement (T_array 32) h) (ReadElement T_Hash) h.
Proof. apply (codes_elem T_Hash). Qed.
Lemma codes_hashes l limit e n :
  n = Z.to_nat (len l) -> len l <= limit -> Forall (fun h => len h = HashSize) l ->
  codes (wlist (WriteElement T_Hash) l) (read_add n (ReadElement T_Hash) (add_limited limit e) []) l.
Proof.
  intros -> Hl Hh. rewrite <-(map_id l) at 3.
  apply (codes_read_add (WriteElement T_Hash) (ReadElement T_Hash) id); [apply to_nat_len|done|].
  eapply Forall_impl; [exact Hh|]. intros h. apply codes_hash_elem.
Qed.
Lemma codes_hashes_n l n :
  n = Z.to_nat (len l) -> Forall (fun h => len h = HashSize) l ->
  codes (wlist (WriteElement T_Hash) l) (read_n n (ReadElement T_Hash)) l.
Proof.
  intros -> Hh. rewrite <-(map_id l) at 3.
  apply (codes_read_n _ (ReadElement T_Hash) id); [apply to_nat_len|].
  eapply Forall_impl; [exact Hh|]. intros h. apply codes_hash_elem.
Qed.
End codes_basic.

(** One step of an encoder against one step of its decoder. *)
Ltac codes_leaf :=
  first
    [ lazymatch goal with
      | |- codes (WriteElement ?t ?v) (ReadElement ?t) _ => apply (codes_elem t v)
      | |- codes (WriteElements ?ts ?es) (ReadElements ?ts) _ => apply (codes_elems ts es)
      end
    | apply codes_hash_value | apply codes_varstring | apply codes_netaddr
    | eapply codes_len | apply codes_varint | apply codes_varbytes | apply codes_nil
    | eapply codes_hashes | eapply codes_hashes_n ].
Ltac codes_step :=
  cbv beta zeta;
  lazymatch goal with
  | |- codes _ (if _ <? _ then _ else _) _ => apply codes_guard
  | |- codes (if _ <? _ then _ else _) _ _ => apply codes_wguard
  | |- codes (_ +++ _) (mbind _ _) _ => eapply codes_bind
  | |- codes _ (mbind _ _) _ => eapply codes_last
  | |- codes _ _ _ => codes_leaf
  end.
Ltac codes_solve := repeat codes_step; try reflexivity; try done.

Definition invvect_dom (iv : InvVect) : Prop := is_uint 32 (Iv_Type iv) /\ len (Iv_Hash iv) = HashSize.

Lemma codes_invvect iv : invvect_dom iv -> codes (WriteInvVect iv) ReadInvVect iv.
Proof.
  intros [Ht Hh]. unfold WriteInvVect, ReadInvVect. eapply codes_last.
  - apply (codes_elems [T_InvType; T_Hash] (Iv_Type iv, (Iv_Hash iv, tt))). by split_and!.
  - by destruct iv.
Qed.

Lemma Forall_map_id {A} (f : A -> A) l : (forall a, f a = a) -> map f l = l.
Proof. intros Hf. induction l; simpl; congruence. Qed.

Lemma codes_inv name msg :
  len (InvList msg) <= MaxInvPerMsg -> Forall invvect_dom (InvList msg) ->
  codes (MsgInv_BtcEncode name msg) (MsgInv_BtcDecode name) msg.
Proof.
  intros Hl Hd. unfold MsgInv_BtcEncode, MsgInv_BtcDecode.
  apply codes_wguard; [done|]. eapply codes_bind; [by eapply codes_len|].
  apply codes_guard; [done|]. eapply codes_last.
  - rewrite to_nat_len. apply (codes_read_add WriteInvVect ReadInvVect id); [done|done|].
    eapply Forall_impl; [exact Hd|apply codes_invvect].
  - rewrite Forall_map_id by done. by destruct msg.
Qed.

Definition locators_dom (msg : MsgGetBlocks) : Prop :=
  is_uint 32 (Gb_ProtocolVersion msg) /\ len (BlockLocatorMetas msg) <= MaxBlockLocatorsPerMsg /\
  Forall (fun h => len h = HashSize) (BlockLocatorMetas msg) /\ len (HashStop msg) = HashSize.

Lemma codes_locator h :
  len h = HashSize -> codes (BlockLocatorMeta_Serialize h) BlockLocatorMeta_Deserialize h.
Proof.
  intros Hh. eapply codes_last; [apply (codes_elems [T_Hash] (h, tt)); by split|reflexivity].
Qed.

Lemma codes_locators name msg : locators_dom msg ->
  codes (MsgGetBlocks_BtcEncode name msg) MsgGetBlocks_BtcDecode msg /\
  codes (MsgGetBlocks_BtcEncode name msg) MsgGetHeaders_BtcDecode msg.
Proof.
  intros (Hp & Hl & Hd & Hs).
  pose proof (fun e => codes_read_add BlockLocatorMeta_Serialize BlockLocatorMeta_Deserialize id
    MaxBlockLocatorsPerMsg e (BlockLocatorMetas msg) _ (to_nat_len _) Hl
    (Forall_impl _ _ _ Hd codes_locator)) as Hlist. rewrite Forall_map_id in Hlist by done.
  unfold MsgGetBlocks_BtcEncode, MsgGetBlocks_BtcDecode, MsgGetHeaders_BtcDecode.
  split; apply codes_wguard; [done| |done|].
  all: eapply codes_bind; [by apply (codes_elem T_uint32)|].
  all: eapply codes_bind; [by eapply codes_len|]; apply codes_guard; [done|].
  all: eapply codes_bind; [apply Hlist|].
  all: eapply codes_last; [by apply codes_hash_elem|]; by destruct msg.
Qed.

Lemma codes_header h : header_dom h -> codes (Header_Write h) DecodeHeader (header_norm h).
Proof. exact (@codes_codec _ BlockHeader_codec h). Qed.

Definition headers_dom (msg : MsgHeaders) : Prop :=
  len (Headers msg) <= MaxBlockHeadersPerMsg /\
  Forall (fun b => len (ActualMMRRoot b) = HashSize /\ header_dom (Hb_Header b)) (Headers msg).
Definition headerbox_norm (b : HeaderBox) : HeaderBox :=
  {| ActualMMRRoot := ActualMMRRoot b; Hb_Header := header_norm (Hb_Header b) |}.
Definition headers_norm (msg : MsgHeaders) : MsgHeaders :=
  {| Headers := map headerbox_norm (Headers msg) |}.

Lemma codes_headers msg : headers_dom msg ->
  codes (MsgHeaders_BtcEncode msg) MsgHeaders_BtcDecode (headers_norm msg).
Proof.
  intros [Hl Hd]. unfold MsgHeaders_BtcEncode, MsgHeaders_BtcDecode.
  apply codes_wguard; [done|]. eapply codes_bind; [by eapply codes_len|].
  apply codes_guard; [done|].
  apply (codes_last _ _ _ (map headerbox_norm (Headers msg))); [|reflexivity].
  rewrite to_nat_len. apply codes_read_n; [done|]. eapply Forall_impl; [exact Hd|].
  intros b [Hr Hh]. eapply codes_bind; [by apply codes_hash_elem|].
  eapply codes_bind; [by apply codes_header|].
  eapply codes_last; [apply codes_varint; unfold is_uint; lia|]. reflexivity.
Qed.

(** The addresses of an addr message without shards come back; with shards the
    decoder dereferences a nil pointer. *)
Definition addr_dom (msg : MsgAddr) : Prop :=
  len (AddrList msg) <= MaxAddrPerMsg /\ Forall (netaddr_dom true) (AddrList msg).

Lemma codes_addr msg : addr_dom msg -> Shards msg = [] ->
  codes (MsgAddr_BtcEncode msg) MsgAddr_BtcDecode
    {| AddrList := map (netaddr_norm true) (AddrList msg); Shards := [] |}.
Proof.
  intros [Hl Hd] Hs. unfold MsgAddr_BtcEncode, MsgAddr_BtcDecode. rewrite Hs.
  apply codes_wguard; [done|]. eapply codes_bind; [by eapply codes_len|].
  apply codes_guard; [done|]. eapply codes_bind.
  { rewrite to_nat_len.
    apply (codes_read_add (fun na => writeNetAddress na true) (readNetAddress zeroTime true)
      (netaddr_norm true)); [done|done|]. eapply Forall_impl; [exact Hd|apply codes_netaddr]. }
  eapply codes_bind; [by eapply (codes_len [] 0)|]. apply codes_skip, codes_nil.
Qed.

Lemma MsgAddr_shards_panic msg rest :
  addr_dom msg -> 0 < len (Shards msg) <= 2 ^ 45 ->
  Forall (fun sa => is_uint 32 (Sa_ShardID sa) /\ netaddr_dom true (Sa_Address sa)) (Shards msg) ->
  exists bs, writes (MsgAddr_BtcEncode msg) bs /\ MsgAddr_BtcDecode (bs ++ rest) = Panic.
Proof.
  intros [Hl Hd] Hs Hsd. destruct (Shards msg) as [|sa sas] eqn:Es; [simpl in Hs; unfold len in Hs; simpl in Hs; lia|].
  destruct (codes_read_add (fun na => writeNetAddress na true) (readNetAddress zeroTime true)
    (netaddr_norm true) MaxAddrPerMsg
    (MessageError "MsgAddr.AddAddress" "too many addresses in message") (AddrList msg) _
    eq_refl Hl (Forall_impl _ _ _ Hd (codes_netaddr true))) as [(b1 & Hw1 & Hr1) _].
  set (item := fun na => WriteVarInt (Sa_ShardID na) +++ writeNetAddress (Sa_Address na) true).
  set (g := fun sa => varint_bytes (Sa_ShardID sa) ++ netaddr_bytes true (Sa_Address sa)).
  assert (Hitems : writes (wlist item (sa :: sas)) (concat (map g (sa :: sas)))).
  { apply writes_list. eapply Forall_impl; [exact Hsd|]. intros x [_ Hx].
    apply writes_seq; [apply WriteVarInt_writes|by apply netaddr_writes]. }
  exists (varint_bytes (len (AddrList msg)) ++ b1 ++ varint_bytes (len (sa :: sas)) ++
          concat (map g (sa :: sas))). split.
  - unfold MsgAddr_BtcEncode. rewrite Es, (proj2 (Z.ltb_ge _ _)) by done.
    repeat (apply writes_seq; [first [apply WriteVarInt_writes|exact Hw1]|]). exact Hitems.
  - unfold MsgAddr_BtcDecode, mbind, reader_bind. rewrite <-!app_assoc.
    rewrite (ReadVarInt_reads (len (AddrList msg)) ltac:(by eapply len_is_uint64)).
    rewrite (proj2 (Z.ltb_ge _ _)), to_nat_len by done. rewrite (Hr1 _).
    rewrite (ReadVarInt_reads (len (sa :: sas)) ltac:(eapply len_is_uint64; [apply Hs|done])).
    unfold read_addr_shards.
    replace (make_panics 8 (len (sa :: sas))) with false
      by (symmetry; apply orb_false_intro; apply Z.ltb_ge; unfold maxAlloc; lia).
    rewrite (proj2 (Z.ltb_lt 0 _)) by lia. unfold mbind, reader_bind.
    apply Forall_cons in Hsd as [[Hid _] _]. cbn [map concat]. unfold g at 1. rewrite <-!app_assoc.
    by rewrite (ReadVarInt_reads (Sa_ShardID sa) ltac:(unfold is_uint in *; lia)).
Qed.

Definition portredirect_dom (m : MsgPortRedirect) : Prop :=
  is_uint 32 (Pr_ShardID m) /\ is_uint 32 (Pr_Port m).
Definition portredirect_norm (m : MsgPortRedirect) : MsgPortRedirect :=
  {| Pr_ShardID := Pr_ShardID m; Pr_Port := Pr_Port m; Pr_IP := Some (ip16 (Pr_IP m)) |}.

Lemma codes_portredirect m : portredirect_dom m ->
  codes (MsgPortRedirect_BtcEncode m) MsgPortRedirect_BtcDecode (portredirect_norm m).
Proof.
  intros [Hs Hp]. apply (codes_last _ _ _ (Pr_ShardID m, (Pr_Port m, (ip16 (Pr_IP m), tt)))); [|reflexivity].
  apply (codes_elems [T_uint32; T_uint32; T_array 16]).
  split; [done|]. split; [done|]. split; [apply len_ip16|done].
Qed.

Lemma codes_if_more {A} w (r : reader A) d v :
  (forall x, r [] <> Ok x) -> codes w r v -> codes w (if_more r d) v.
Proof.
  intros Hne (bs & Hw & Hr). exists bs. split; [done|]. intros rest. unfold if_more.
  destruct bs as [|b bs].
  - pose proof (Hr []) as H0. by apply Hne in H0.
  - rewrite (proj2 (Z.ltb_lt _ _)); [apply Hr|].
    pose proof (len_nonneg (bs ++ rest)). simpl. rewrite len_cons. lia.
Qed.

Definition version_dom (msg : MsgVersion) : Prop :=
  is_int 32 (Mv_ProtocolVersion msg) /\ is_uint 64 (Services msg) /\ is_int 64 (Mv_Timestamp msg) /\
  is_uint 32 (Shard msg) /\ netaddr_dom false (AddrYou msg) /\ netaddr_dom false (AddrMe msg) /\
  is_uint 64 (Mv_Nonce msg) /\ len (UserAgent msg) <= MaxUserAgentLen /\
  is_int 32 (LastBlock msg) /\ weight_dom (default (-1) (Mv_ChainWeight msg)).
Definition version_norm (msg : MsgVersion) : MsgVersion :=
  {| Mv_ProtocolVersion := Mv_ProtocolVersion msg; IsBeacon := IsBeacon msg; Shard := Shard msg;
     Services := Services msg; Mv_Timestamp := Mv_Timestamp msg;
     AddrYou := netaddr_norm false (AddrYou msg); AddrMe := netaddr_norm false (AddrMe msg);
     Mv_Nonce := Mv_Nonce msg; UserAgent := UserAgent msg; LastBlock := LastBlock msg;
     Mv_ChainWeight := Mv_ChainWeight msg; DisableRelayTx := DisableRelayTx msg |}.

Lemma codes_user_agent ua : len ua <= MaxUserAgentLen -> codes (WriteVarString ua) read_user_agent ua.
Proof.
  intros Hu. eapply codes_last; [apply codes_varstring; unfold MaxUserAgentLen, MaxMessagePayload in *; lia|].
  unfold validateUserAgent. by rewrite (proj2 (Z.ltb_ge _ _)).
Qed.

Lemma codes_bigint v : weight_dom v -> codes (WriteBigInt v) ReadBigInt v.
Proof. exists (bigint_bytes v). split; [by apply WriteBigInt_writes|by apply ReadBigInt_reads]. Qed.

Lemma codes_version msg : version_dom msg ->
  exists w, MsgVersion_BtcEncode msg = Ok w /\ codes w MsgVersion_BtcDecode (version_norm msg).
Proof.
  intros (Hp & Hs & Ht & Hsh & Hy & Hm & Hn & Hu & Hl & Hw).
  unfold MsgVersion_BtcEncode, MsgVersion_BtcDecode, validateUserAgent.
  rewrite (proj2 (Z.ltb_ge _ _)) by done.
  destruct (Mv_ChainWeight msg) as [weight|] eqn:Ew; [|destruct Hw as [Hw _]; simpl in Hw; lia].
  simpl in Hw. eexists. split; [reflexivity|].
  eapply (codes_bind _ _ _ _ (Mv_ProtocolVersion msg, (Services msg, (Mv_Timestamp msg, tt)))).
  { apply (codes_elems [T_int32; T_ServiceFlag; T_int64]). by split_and!. }
  cbv beta iota.
  eapply codes_bind; [apply codes_if_more; [done|by apply (codes_elem T_bool)]|].
  eapply codes_bind; [apply codes_if_more; [done|by apply (codes_elem T_uint32)]|].
  eapply codes_bind; [by apply codes_netaddr|].
  eapply codes_bind; [apply codes_if_more; [done|by apply codes_netaddr]|].
  eapply codes_bind; [apply codes_if_more; [done|by apply (codes_elem T_uint64)]|].
  eapply codes_bind; [apply codes_if_more; [done|by apply codes_user_agent]|].
  eapply codes_bind; [apply codes_if_more; [done|by apply (codes_elem T_int32)]|].
  eapply codes_bind; [apply codes_if_more; [done|]|].
  { eapply codes_last; [by apply codes_bigint|reflexivity]. }
  eapply codes_last; [apply codes_if_more; [done|]|].
  { eapply codes_last; [by apply (codes_elem T_bool)|reflexivity]. }
  unfold version_norm. by rewrite negb_involutive, Ew.
Qed.

(** * Filters and filter headers *)

Lemma codes_getcfilters msg :
  is_uint 8 (Gcf_FilterType msg) -> is_uint 32 (Gcf_StartHeight msg) -> len (Gcf_StopHash msg) = HashSize ->
  codes (MsgGetCFilters_BtcEncode msg) MsgGetCFilters_BtcDecode msg.
Proof.
  intros. eapply codes_bind; [by apply (codes_elem (T_named false 1))|].
  eapply codes_bind; [by apply (codes_elem T_uint32)|].
  eapply codes_last; [by apply codes_hash_elem|by destruct msg].
Qed.

Lemma codes_getcfcheckpt msg :
  is_uint 8 (Gck_FilterType msg) -> len (Gck_StopHash msg) = HashSize ->
  codes (MsgGetCFCheckpt_BtcEncode msg) MsgGetCFCheckpt_BtcDecode msg.
Proof.
  intros. eapply codes_bind; [by apply (codes_elem (T_named false 1))|].
  eapply codes_last; [by apply codes_hash_elem|by destruct msg].
Qed.

Lemma codes_cfilter msg :
  is_uint 8 (Cf_FilterType msg) -> len (Cf_BlockHash msg) = HashSize ->
  len (Cf_Data msg) <= MaxCFilterDataSize ->
  codes (MsgCFilter_BtcEncode msg) MsgCFilter_BtcDecode msg.
Proof.
  intros. apply codes_wguard; [done|]. eapply codes_bind; [by apply (codes_elem (T_named false 1))|].
  eapply codes_bind; [by apply codes_hash_value|].
  eapply codes_last; [by apply codes_varbytes|by destruct msg].
Qed.

Definition cfheaders_dom (msg : MsgCFHeaders) : Prop :=
  is_uint 8 (Ch_FilterType msg) /\ len (Ch_StopHash msg) = HashSize /\
  len (PrevFilterHeader msg) = HashSize /\ len (FilterHashes msg) <= MaxCFHeadersPerMsg /\
  Forall (fun h => len h = HashSize) (FilterHashes msg).

Lemma codes_cfheaders msg :
  cfheaders_dom msg -> codes (MsgCFHeaders_BtcEncode msg) MsgCFHeaders_BtcDecode msg.
Proof.
  intros (Ht & Hs & Hp & Hl & Hh). eapply codes_bind; [by apply (codes_elem (T_named false 1))|].
  eapply codes_bind; [by apply codes_hash_value|]. eapply codes_bind; [by apply codes_hash_value|].
  apply codes_wguard; [done|]. eapply codes_bind; [by eapply codes_len|].
  apply codes_guard; [done|]. eapply codes_last; [by apply codes_hashes|by destruct msg].
Qed.

Definition cfcheckpt_dom (msg : MsgCFCheckpt) : Prop :=
  is_uint 8 (Cc_FilterType msg) /\ len (Cc_StopHash msg) = HashSize /\
  len (FilterHeaders msg) <= maxCFHeadersLen /\ Forall (fun h => len h = HashSize) (FilterHeaders msg).

Lemma codes_cfcheckpt msg :
  cfcheckpt_dom msg -> codes (MsgCFCheckpt_BtcEncode msg) MsgCFCheckpt_BtcDecode msg.
Proof.
  intros (Ht & Hs & Hl & Hh). eapply codes_bind; [by apply (codes_elem (T_named false 1))|].
  eapply codes_bind; [by apply codes_hash_value|]. eapply codes_bind; [by eapply codes_len|].
  apply codes_guard; [done|]. eapply codes_last; [by apply codes_hashes_n|by destruct msg].
Qed.

Lemma codes_filteradd data :
  len data <= MaxFilterAddDataSize -> codes (MsgFilterAdd_BtcEncode data) MsgFilterAdd_BtcDecode data.
Proof. intros. apply codes_wguard; [done|]. by apply codes_varbytes. Qed.

Definition filterload_dom (msg : MsgFilterLoad) : Prop :=
  len (Filter msg) <= MaxFilterLoadFilterSize /\ is_uint 32 (HashFuncs msg) /\
  HashFuncs msg <= MaxFilterLoadHashFuncs /\ is_uint 32 (Tweak msg) /\ is_uint 8 (Fl_Flags msg).

Lemma codes_filterload msg :
  filterload_dom msg -> codes (MsgFilterLoad_BtcEncode msg) MsgFilterLoad_BtcDecode msg.
Proof.
  intros (Hf & Hn & Hm & Ht & Hl). do 2 (apply codes_wguard; [done|]).
  eapply codes_bind; [by apply codes_varbytes|].
  apply (codes_last _ _ _ (HashFuncs msg, (Tweak msg, (Fl_Flags msg, tt)))).
  - apply (codes_elems [T_uint32; T_uint32; T_BloomUpdateType]). by split_and!.
  - rewrite (proj2 (Z.ltb_ge _ _)) by done. by destruct msg.
Qed.

Definition merkleblock_dom (msg : MsgMerkleBlock) : Prop :=
  header_dom (Mb_Header msg) /\ is_uint 32 (Mb_Transactions msg) /\
  len (Mb_Hashes msg) <= maxTxPerBlock /\ Forall (fun h => len h = HashSize) (Mb_Hashes msg) /\
  len (Mb_Flags msg) <= maxFlagsPerMerkleBlock.
Definition merkleblock_norm (msg : MsgMerkleBlock) : MsgMerkleBlock :=
  {| Mb_Header := header_norm (Mb_Header msg); Mb_Transactions := Mb_Transactions msg;
     Mb_Hashes := Mb_Hashes msg; Mb_Flags := Mb_Flags msg |}.

Lemma codes_merkleblock msg : merkleblock_dom msg ->
  codes (MsgMerkleBlock_BtcEncode msg) (MsgMerkleBlock_BtcDecode None) (merkleblock_norm msg).
Proof.
  intros (Hh & Ht & Hl & Hd & Hf). do 2 (apply codes_wguard; [done|]).
  eapply codes_bind; [by apply codes_header|]. eapply codes_bind; [by apply (codes_elem T_uint32)|].
  eapply codes_bind; [by eapply codes_len|]. apply codes_guard; [done|].
  eapply codes_bind; [by apply codes_hashes|].
  eapply codes_last; [by apply codes_varbytes|reflexivity].
Qed.

Definition reject_dom (msg : MsgReject) : Prop :=
  len (Cmd msg) <= MaxMessagePayload /\ is_uint 8 (Code msg) /\
  len (Reason msg) <= MaxMessagePayload /\ len (Rj_Hash msg) = HashSize.
Definition reject_norm (msg : MsgReject) : MsgReject :=
  {| Cmd := Cmd msg; Code := Code msg; Reason := Reason msg;
     Rj_Hash := if reject_has_hash (Cmd msg) then Rj_Hash msg else ZeroHash |}.

Lemma codes_reject msg : reject_dom msg ->
  codes (MsgReject_BtcEncode msg) MsgReject_BtcDecode (reject_norm msg).
Proof.
  intros (Hc & Hd & Hr & Hh). eapply codes_bind; [by apply codes_varstring|].
  eapply codes_bind; [by apply (codes_elem T_RejectCode)|].
  eapply codes_bind; [by apply codes_varstring|].
  apply (codes_last _ _ _ (if reject_has_hash (Cmd msg) then Rj_Hash msg else ZeroHash)); [|done].
  destruct (reject_has_hash (Cmd msg)); [by apply codes_hash_elem|apply codes_nil].
Qed.

(** * EAD addresses *)

Definition ead_dom (msg : EADAddress) : Prop :=
  is_uint 32 (ExpiresAt msg) /\ is_uint 32 (Ea_Shard msg) /\ len (Ea_TxHash msg) = HashSize /\
  is_uint 16 (Ea_Port msg) /\ is_int 64 (TxOutIndex msg) /\
  (Ea_IP msg = None -> len (Ea_URL msg) <= MaxEADDomainLen).
(** An address has an IP or a URL on the wire, never both. *)
Definition ead_norm (msg : EADAddress) : EADAddress :=
  {| Ea_IP := match Ea_IP msg with None => None | Some ip => Some (ip16 (Some ip)) end;
     Ea_Port := Ea_Port msg;
     Ea_URL := match Ea_IP msg with None => Ea_URL msg | Some _ => [] end;
     ExpiresAt := ExpiresAt msg; Ea_Shard := Ea_Shard msg; Ea_TxHash := Ea_TxHash msg;
     TxOutIndex := TxOutIndex msg |}.

Lemma codes_ead_fields msg : ead_dom msg ->
  let fields := (ExpiresAt msg, (Ea_Shard msg, (Ea_TxHash msg, (Ea_Port msg,
    (uwrap 64 (TxOutIndex msg), (bool_decide (Ea_IP msg = None), tt)))))) in
  codes (WriteElements [T_uint32; T_uint32; T_Hash; T_uint32; T_uint64; T_bool] fields)
    (ReadElements [T_Uint32Time; T_uint32; T_Hash; T_uint32; T_uint64; T_bool]) fields.
Proof.
  intros (Ht & Hs & Hh & Hp & Hi & _) fields.
  assert (Hp32 : is_uint 32 (Ea_Port msg)) by (unfold is_uint in *; lia).
  exists (elems_bytes [T_uint32; T_uint32; T_Hash; T_uint32; T_uint64; T_bool] fields). split.
  - apply (WriteElements_writes [T_uint32; T_uint32; T_Hash; T_uint32; T_uint64; T_bool] fields).
    unfold fields; cbn [elems_dom elem_dom snd]. split_and!; try done. by apply uwrap_range.
  - apply (ReadElements_cons T_Uint32Time [T_uint32; T_Hash; T_uint32; T_uint64; T_bool]);
      [by apply ReadElement_Uint32Time|].
    apply (ReadElements_reads [T_uint32; T_Hash; T_uint32; T_uint64; T_bool] (snd fields)).
    unfold fields; cbn [elems_dom elem_dom snd]. split_and!; try done. by apply uwrap_range.
Qed.

Lemma codes_ead msg : ead_dom msg ->
  codes (EADAddress_BtcEncode msg) EADAddress_BtcDecode (ead_norm msg).
Proof.
  intros Hd. pose proof (codes_ead_fields msg Hd) as Hf. destruct Hd as (Ht & Hs & Hh & Hp & Hi & Hu).
  unfold EADAddress_BtcEncode. rewrite (uwrap_id 32) by done.
  eapply codes_bind; [exact Hf|]. cbv beta iota. unfold ead_norm.
  rewrite uwrap_id, swrap_uwrap, swrap_id by (done || lia).
  destruct (Ea_IP msg) as [ip|].
  - rewrite bool_decide_false by done. cbn [negb].
    apply (codes_last _ _ _ (Some (ip16 (Some ip)), [])); [|done].
    eapply codes_last; [apply (codes_elem (T_array 16)), len_ip16|done].
  - rewrite bool_decide_true by done. cbn [negb].
    apply (codes_last _ _ _ (None, Ea_URL msg)); [|done].
    eapply codes_last; [apply codes_varbytes; [by apply Hu|done]|done].
Qed.

Definition eads_dom (msg : EADAddresses) : Prop :=
  is_uint 64 (Ead_ID msg) /\ len (OwnerPubKey msg) <= 65 * 2 /\ len (Addresses msg) <= 2 ^ 41 /\
  Forall ead_dom (Addresses msg).
Definition eads_norm (msg : EADAddresses) : EADAddresses :=
  {| Ead_ID := Ead_ID msg; OwnerPubKey := OwnerPubKey msg; Addresses := map ead_norm (Addresses msg) |}.

Lemma codes_eads msg : eads_dom msg ->
  codes (EADAddresses_BtcEncode msg) EADAddresses_BtcDecode (eads_norm msg).
Proof.
  intros (Hi & Hk & Hl & Hd). eapply codes_bind; [by apply codes_varint|].
  eapply codes_bind; [by apply codes_varbytes|]. eapply codes_bind; [by eapply codes_len|].
  pose proof (len_nonneg (Addresses msg)).
  replace (make_panics 96 (len (Addresses msg))) with false
    by (symmetry; apply orb_false_intro; apply Z.ltb_ge; unfold maxAlloc; lia).
  apply (codes_last _ _ _ (map ead_norm (Addresses msg))); [|done]. rewrite to_nat_len.
  apply codes_read_n; [done|]. eapply Forall_impl; [exact Hd|apply codes_ead].
Qed.

(** The smallest encoding of an address is longer than its payload limit. *)
Lemma ead_exceeds_payload msg bs : ead_dom msg ->
  writes (EADAddress_BtcEncode msg) bs -> EADAddress_MaxPayloadLength < len bs.
Proof.
  intros (Ht & Hs & Hh & Hp & Hi & _) [_ <-].
  unfold EADAddress_BtcEncode, EADAddress_MaxPayloadLength.
  set (ts := [T_uint32; T_uint32; T_Hash; T_uint32; T_uint64; T_bool]).
  set (w2 := match Ea_IP msg with Some ip => _ | None => _ end). set (es := (_, _)).
  assert (Hd : elems_dom ts es).
  { unfold es, ts. cbn [elems_dom elem_dom]. unfold is_uint in *.
    split_and!; try done; try lia; by apply uwrap_range. }
  destruct (WriteElements_writes ts es Hd) as [Hn Hb].
  rewrite wbytes_seq, Hb, len_app, (len_elems_bytes ts es 53 Hd eq_refl) by done.
  pose proof (len_nonneg (wbytes w2)). lia.
Qed.

(** * alert *)

Definition alert_dom (a : Alert) : Prop :=
  is_int 32 (Al_Version a) /\ is_int 64 (RelayUntil a) /\ is_int 64 (Expiration a) /\
  is_int 32 (Al_ID a) /\ is_int 32 (Cancel a) /\ len (SetCancel a) <= maxCountSetCancel /\
  Forall (is_int 32) (SetCancel a) /\ is_int 32 (MinVer a) /\ is_int 32 (MaxVer a) /\
  len (SetSubVer a) <= maxCountSetSubVer /\
  Forall (fun v => len v <= MaxMessagePayload) (SetSubVer a) /\ is_int 32 (Priority a) /\
  len (Comment a) <= MaxMessagePayload /\ len (StatusBar a) <= MaxMessagePayload /\
  len (Reserved a) <= MaxMessagePayload.

Lemma codes_alert a : alert_dom a -> codes (Alert_Serialize a) Alert_Deserialize a.
Proof.
  intros (Hv & Hr & He & Hi & Hc & Hcl & Hcs & Hmi & Hma & Hsl & Hss & Hp & Hco & Hst & Hre).
  eapply (codes_bind _ _ _ _ (Al_Version a, (RelayUntil a, (Expiration a, (Al_ID a, (Cancel a, tt)))))).
  { apply (codes_elems [T_int32; T_int64; T_int64; T_int32; T_int32]). by split_and!. }
  apply (codes_bind _ _ _ _ (map id (SetCancel a))).
  { apply codes_wguard; [done|]. eapply codes_bind; [by eapply codes_len|].
    apply codes_guard; [done|]. rewrite to_nat_len. apply codes_read_n; [done|].
    eapply Forall_impl; [exact Hcs|]. intros z. apply (codes_elem T_int32). }
  apply (codes_bind _ _ _ _ (MinVer a, (MaxVer a, tt))).
  { apply (codes_elems [T_int32; T_int32]). by split_and!. }
  apply (codes_bind _ _ _ _ (map id (SetSubVer a))).
  { apply codes_wguard; [done|]. eapply codes_bind; [by eapply codes_len|].
    apply codes_guard; [done|]. rewrite to_nat_len. apply codes_read_n; [done|].
    eapply Forall_impl; [exact Hss|]. apply codes_varstring. }
  eapply codes_bind; [by apply (codes_elem T_int32)|].
  do 2 (eapply codes_bind; [by apply codes_varstring|]).
  eapply codes_last; [by apply codes_varstring|].
  rewrite !Forall_map_id by done. by destruct a.
Qed.

Lemma safe_Alert_Deserialize : safe Alert_Deserialize.
Proof.
  unfold Alert_Deserialize.
  assert (Hl : forall c m e, safe (if c <? m then @read_fail (list Z) e else read_n (Z.to_nat m) (ReadElement T_int32)))
    by (intros; destruct (_ <? _); safe_solve).
  repeat (safe_step; cbv beta zeta iota).
Qed.

(** The payload of a decoded alert message. *)
Definition alert_norm (msg : MsgAlert) : MsgAlert :=
  {| SerializedPayload := alert_payload msg; Signature := Signature msg;
     Payload := match NewAlertFromPayload (alert_payload msg) with Ok a => Some a | _ => None end |}.
Definition alertmsg_dom (msg : MsgAlert) : Prop :=
  0 < len (alert_payload msg) <= MaxMessagePayload /\ len (Signature msg) <= MaxMessagePayload.

Lemma codes_alertmsg msg : alertmsg_dom msg ->
  codes (MsgAlert_BtcEncode msg) MsgAlert_BtcDecode (alert_norm msg).
Proof.
  intros [Hp Hs]. unfold MsgAlert_BtcEncode. rewrite (proj2 (Z.eqb_neq _ _)) by lia.
  eapply codes_bind; [apply codes_varbytes; [apply Hp|done]|]. unfold alert_norm.
  destruct (NewAlertFromPayload (alert_payload msg)) as [a|e|] eqn:E.
  - apply codes_skip. eapply codes_last; [by apply codes_varbytes|done].
  - apply codes_skip. eapply codes_last; [by apply codes_varbytes|done].
  - exfalso. unfold NewAlertFromPayload in E. pose proof (safe_Alert_Deserialize (alert_payload msg)).
    by destruct (Alert_Deserialize (alert_payload msg)) as [[]| |].
Qed.
