(* ===== verification/WireMessage.v ===== *)
(** Message framing: types/wire/message.go.

    A message on the wire is a 24-byte header (network, command, length of the
    payload, checksum) and its payload.  The Go interface [Message] is a table
    indexed by the message kind; framing is defined and proved over that table. *)

From S2P Require Import Prelude WireEncoding WireTx Sha256 Chainhash WireHeader WireBlock WireMsg.

(** * The messages *)

Inductive MsgKind :=
| KVersion | KVerAck | KGetAddr | KAddr | KPortRedirect | KGetBlocks | KBlock | KBlockBox | KInv
| KGetData | KNotFound | KTx | KPing | KPong | KGetHeaders | KHeaders | KAlert | KMemPool
| KFilterAdd | KFilterClear | KFilterLoad | KMerkleBlock | KReject | KSendHeaders | KFeeFilter
| KGetCFilters | KGetCFHeaders | KGetCFCheckpt | KCFilter | KCFHeaders | KCFCheckpt | KEadIP
| KEadAddresses.

#[export] Instance MsgKind_eq_dec : EqDecision MsgKind.
Proof. solve_decision. Defined.

(** In the order of the switch of [makeEmptyMessage]. *)
Definition all_kinds : list MsgKind :=
  [KVersion; KVerAck; KGetAddr; KAddr; KPortRedirect; KGetBlocks; KBlock; KBlockBox; KInv;
   KGetData; KNotFound; KTx; KPing; KPong; KGetHeaders; KHeaders; KAlert; KMemPool; KFilterAdd;
   KFilterClear; KFilterLoad; KMerkleBlock; KReject; KSendHeaders; KFeeFilter; KGetCFilters;
   KGetCFHeaders; KGetCFCheckpt; KCFilter; KCFHeaders; KCFCheckpt; KEadIP; KEadAddresses].

Definition Command (k : MsgKind) : bytes :=
  String.list_byte_of_string
    match k with
    | KVersion => "version" | KVerAck => "verack" | KGetAddr => "getaddr" | KAddr => "addr"
    | KPortRedirect => "portredirect" | KGetBlocks => "getblocks" | KBlock => "block"
    | KBlockBox => "blockbox" | KInv => "inv" | KGetData => "getdata" | KNotFound => "notfound"
    | KTx => "tx" | KPing => "ping" | KPong => "pong" | KGetHeaders => "getheaders"
    | KHeaders => "headers" | KAlert => "alert" | KMemPool => "mempool"
    | KFilterAdd => "filteradd" | KFilterClear => "filterclear" | KFilterLoad => "filterload"
    | KMerkleBlock => "merkleblock" | KReject => "reject" | KSendHeaders => "sendheaders"
    | KFeeFilter => "feefilter" | KGetCFilters => "getcfilters" | KGetCFHeaders => "getcfheaders"
    | KGetCFCheckpt => "getcfcheckpt" | KCFilter => "cfilter" | KCFHeaders => "cfheaders"
    | KCFCheckpt => "cfcheckpt" | KEadIP => "eadip" | KEadAddresses => "eaddresses"
    end.

Definition makeEmptyMessage (command : bytes) : outcome MsgKind :=
  match List.find (fun k => bool_decide (Command k = command)) all_kinds with
  | Some k => Ok k
  | None => Err (errorString "unhandled command")
  end.

Definition msg_type (k : MsgKind) : Type :=
  match k with
  | KVersion => MsgVersion
  | KVerAck | KMemPool | KFilterClear | KSendHeaders => unit
  | KGetAddr | KPing | KPong | KFeeFilter => Z
  | KAddr => MsgAddr
  | KPortRedirect => MsgPortRedirect
  | KGetBlocks | KGetHeaders => MsgGetBlocks
  | KBlock => MsgBlock BlockHeader
  | KBlockBox => MsgBlockBox BlockHeader
  | KInv | KGetData | KNotFound => MsgInv
  | KTx => MsgTx
  | KHeaders => MsgHeaders
  | KAlert => MsgAlert
  | KFilterAdd => bytes
  | KFilterLoad => MsgFilterLoad
  | KMerkleBlock => MsgMerkleBlock
  | KReject => MsgReject
  | KGetCFilters | KGetCFHeaders => MsgGetCFilters
  | KGetCFCheckpt => MsgGetCFCheckpt
  | KCFilter => MsgCFilter
  | KCFHeaders => MsgCFHeaders
  | KCFCheckpt => MsgCFCheckpt
  | KEadIP => EADAddress
  | KEadAddresses => EADAddresses
  end.

Definition msg_BtcEncode (enc : MessageEncoding) (k : MsgKind) : msg_type k -> outcome writer :=
  match k return msg_type k -> outcome writer with
  | KVersion => MsgVersion_BtcEncode
  | KVerAck | KMemPool | KFilterClear | KSendHeaders => fun _ => Ok write_nil
  | KGetAddr => fun m => Ok (MsgGetAddr_BtcEncode m)
  | KAddr => fun m => Ok (MsgAddr_BtcEncode m)
  | KPortRedirect => fun m => Ok (MsgPortRedirect_BtcEncode m)
  | KGetBlocks => fun m => Ok (MsgGetBlocks_BtcEncode "MsgGetBlocks" m)
  | KGetHeaders => fun m => Ok (MsgGetHeaders_BtcEncode m)
  | KBlock => fun m => Ok (MsgBlock_BtcEncode enc m)
  | KBlockBox => fun m => Ok (MsgBlockBox_BtcEncode enc m)
  | KInv => fun m => Ok (MsgInv_BtcEncode "MsgInv" m)
  | KGetData => fun m => Ok (MsgGetData_BtcEncode m)
  | KNotFound => fun m => Ok (MsgNotFound_BtcEncode m)
  | KTx => fun m => Ok (MsgTx_BtcEncode enc m)
  | KPing => fun m => Ok (MsgPing_BtcEncode m)
  | KPong => fun m => Ok (MsgPong_BtcEncode m)
  | KHeaders => fun m => Ok (MsgHeaders_BtcEncode m)
  | KAlert => fun m => Ok (MsgAlert_BtcEncode m)
  | KFilterAdd => fun m => Ok (MsgFilterAdd_BtcEncode m)
  | KFilterLoad => fun m => Ok (MsgFilterLoad_BtcEncode m)
  | KMerkleBlock => fun m => Ok (MsgMerkleBlock_BtcEncode m)
  | KReject => fun m => Ok (MsgReject_BtcEncode m)
  | KFeeFilter => fun m => Ok (MsgFeeFilter_BtcEncode m)
  | KGetCFilters => fun m => Ok (MsgGetCFilters_BtcEncode m)
  | KGetCFHeaders => fun m => Ok (MsgGetCFHeaders_BtcEncode m)
  | KGetCFCheckpt => fun m => Ok (MsgGetCFCheckpt_BtcEncode m)
  | KCFilter => fun m => Ok (MsgCFilter_BtcEncode m)
  | KCFHeaders => fun m => Ok (MsgCFHeaders_BtcEncode m)
  | KCFCheckpt => fun m => Ok (MsgCFCheckpt_BtcEncode m)
  | KEadIP => fun m => Ok (EADAddress_BtcEncode m)
  | KEadAddresses => fun m => Ok (EADAddresses_BtcEncode m)
  end.

(** [makeEmptyMessage] gives a message without a header to BtcDecode. *)
Definition msg_BtcDecode (enc : MessageEncoding) (k : MsgKind) : reader (msg_type k) :=
  match k return reader (msg_type k) with
  | KVersion => MsgVersion_BtcDecode
  | KVerAck | KMemPool | KFilterClear | KSendHeaders => mret tt
  | KGetAddr => MsgGetAddr_BtcDecode
  | KAddr => MsgAddr_BtcDecode
  | KPortRedirect => MsgPortRedirect_BtcDecode
  | KGetBlocks => MsgGetBlocks_BtcDecode
  | KGetHeaders => MsgGetHeaders_BtcDecode
  | KBlock => MsgBlock_BtcDecode None enc
  | KBlockBox => MsgBlockBox_BtcDecode None enc
  | KInv => MsgInv_BtcDecode "MsgInv"
  | KGetData => MsgGetData_BtcDecode
  | KNotFound => MsgNotFound_BtcDecode
  | KTx => MsgTx_BtcDecode enc
  | KPing => MsgPing_BtcDecode
  | KPong => MsgPong_BtcDecode
  | KHeaders => MsgHeaders_BtcDecode
  | KAlert => MsgAlert_BtcDecode
  | KFilterAdd => MsgFilterAdd_BtcDecode
  | KFilterLoad => MsgFilterLoad_BtcDecode
  | KMerkleBlock => MsgMerkleBlock_BtcDecode None
  | KReject => MsgReject_BtcDecode
  | KFeeFilter => MsgFeeFilter_BtcDecode
  | KGetCFilters => MsgGetCFilters_BtcDecode
  | KGetCFHeaders => MsgGetCFHeaders_BtcDecode
  | KGetCFCheckpt => MsgGetCFCheckpt_BtcDecode
  | KCFilter => MsgCFilter_BtcDecode
  | KCFHeaders => MsgCFHeaders_BtcDecode
  | KCFCheckpt => MsgCFCheckpt_BtcDecode
  | KEadIP => EADAddress_BtcDecode
  | KEadAddresses => EADAddresses_BtcDecode
  end.

Definition MaxPayloadLength (k : MsgKind) : Z :=
  match k with
  | KVersion => MsgVersion_MaxPayloadLength
  | KVerAck | KMemPool | KFilterClear | KSendHeaders => 0
  | KGetAddr => 4
  | KPing | KPong | KFeeFilter => 8
  | KAddr => MsgAddr_MaxPayloadLength
  | KPortRedirect => MsgPortRedirect_MaxPayloadLength
  | KGetBlocks | KGetHeaders => MsgGetBlocks_MaxPayloadLength
  | KBlock | KTx | KMerkleBlock | KEadAddresses => MaxBlockPayload
  | KBlockBox => MaxBlockPayload + 32
  | KInv | KGetData | KNotFound => MsgInv_MaxPayloadLength
  | KHeaders => MsgHeaders_MaxPayloadLength
  | KAlert | KReject | KCFCheckpt => MaxMessagePayload
  | KFilterAdd => VarIntSerializeSize MaxFilterAddDataSize + MaxFilterAddDataSize
  | KFilterLoad => VarIntSerializeSize MaxFilterLoadFilterSize + MaxFilterLoadFilterSize + 9
  | KGetCFilters | KGetCFHeaders => 1 + 4 + HashSize
  | KGetCFCheckpt => 1 + HashSize
  | KCFilter => VarIntSerializeSize MaxCFilterDataSize + MaxCFilterDataSize + HashSize + 1
  | KCFHeaders => 1 + HashSize + HashSize + MaxVarIntPayload + HashSize * MaxCFHeadersPerMsg
  | KEadIP => EADAddress_MaxPayloadLength
  end.

(** * Framing *)

Definition MessageHeaderSize : Z := 24.
Definition CommandSize : Z := 12.

Record messageHeader := { magic : Z; command : bytes; length_ : Z; checksum : bytes }.

(** bytes.TrimRight with the zero byte. *)
Fixpoint trim_left_zeros (bs : bytes) : bytes :=
  match bs with Byte.x00 :: bs => trim_left_zeros bs | _ => bs end.
Definition TrimRight (bs : bytes) : bytes := rev (trim_left_zeros (rev bs)).

(** The number of bytes read, the header or the error, and what is left. *)
Definition readMessageHeader (r : bytes) : Z * outcome messageHeader * bytes :=
  match ReadFull MessageHeaderSize r with
  | Ok (headerBytes, rest) =>
      match ReadElements [T_JaxNet; T_array 12; T_uint32; T_array 4] headerBytes with
      | Ok ((m, (c, (l, (s, _)))), _) =>
          (MessageHeaderSize,
           Ok {| magic := m; command := TrimRight c; length_ := l; checksum := s |}, rest)
      | _ => (MessageHeaderSize,
              Ok {| magic := 0; command := []; length_ := 0; checksum := replicate 4 Byte.x00 |}, rest)
      end
  | Err e => (len r, Err e, [])
  | Panic => (0, Panic, r)
  end.

(** Reads and discards [n] bytes in chunks; errors are ignored. *)
Definition discard_full (n : Z) (r : bytes) : bytes :=
  match ReadFull n r with Ok (_, rest) => rest | _ => [] end.

Definition discardInput (n : Z) (r : bytes) : bytes :=
  let maxSize := 10 * 1024 in
  let numReads := n / maxSize in
  let bytesRemaining := n mod maxSize in
  let r := Nat.iter (Z.to_nat numReads) (discard_full maxSize) r in
  if 0 <? bytesRemaining then discard_full bytesRemaining r else r.

(** unicode/utf8.ValidString. *)
Definition utf8_cont (b : Init.Byte.byte) : bool := (0x80 <=? byte.unsigned b) && (byte.unsigned b <=? 0xbf).
Definition in_range (lo hi : Z) (b : Init.Byte.byte) : bool :=
  (lo <=? byte.unsigned b) && (byte.unsigned b <=? hi).
Fixpoint utf8_ValidString (fuel : nat) (s : bytes) : bool :=
  match fuel with
  | O => match s with [] => true | _ => false end
  | S fuel =>
      match s with
      | [] => true
      | a :: s =>
          let z := byte.unsigned a in
          if z <? 0x80 then utf8_ValidString fuel s
          else if in_range 0xc2 0xdf a then
            match s with b :: s => utf8_cont b && utf8_ValidString fuel s | _ => false end
          else if in_range 0xe0 0xef a then
            match s with
            | b :: c :: s =>
                in_range (if z =? 0xe0 then 0xa0 else 0x80) (if z =? 0xed then 0x9f else 0xbf) b &&
                utf8_cont c && utf8_ValidString fuel s
            | _ => false
            end
          else if in_range 0xf0 0xf4 a then
            match s with
            | b :: c :: d :: s =>
                in_range (if z =? 0xf0 then 0x90 else 0x80) (if z =? 0xf4 then 0x8f else 0xbf) b &&
                utf8_cont c && utf8_cont d && utf8_ValidString fuel s
            | _ => false
            end
          else false
      end
  end.
Definition ValidString (s : bytes) : bool := utf8_ValidString (length s) s.

Section framing.
Context `{HashFunction}.

(** [copy(command[:], cmd)] *)
Definition command_field (cmd : bytes) : bytes :=
  cmd ++ replicate (Z.to_nat (CommandSize - len cmd)) Byte.x00.

Definition header_field_bytes (btcnet : Z) (cmd : bytes) (length : Z) (sum : bytes) : bytes :=
  wbytes (WriteElements [T_JaxNet; T_array 12; T_uint32; T_array 4]
    (btcnet, (command_field cmd, (length, (sum, tt))))).

Definition WriteMessageWithEncodingN (btcnet : Z) (enc : MessageEncoding) (k : MsgKind)
    (msg : msg_type k) : outcome writer :=
  let cmd := Command k in
  if CommandSize <? len cmd then Ok (write_fail (MessageError "WriteMessage" "command is too long"))
  else
    w ← msg_BtcEncode enc k msg;
    match snd w with
    | Some e => Ok (write_fail e)
    | None =>
        let payload := wbytes w in
        let lenp := len payload in
        if MaxMessagePayload <? lenp
        then Ok (write_fail (MessageError "WriteMessage" "message payload is too large"))
        else if MaxPayloadLength k <? uwrap 32 lenp
        then Ok (write_fail (MessageError "WriteMessage" "message payload is too large for its type"))
        else Ok (write (header_field_bytes btcnet cmd (uwrap 32 lenp) (take 4 (DoubleHashB payload))) +++
                 (if 0 <? lenp then write payload else write_nil))
    end.

(** The number of bytes read, the message with its payload or the error, and
    what is left of the stream. *)
Definition read_result : Type := Z * outcome ({k : MsgKind & msg_type k} * bytes) * bytes.

Definition ReadMessageWithEncodingN (btcnet : Z) (enc : MessageEncoding) (r : bytes) : read_result :=
  match readMessageHeader r with
  | (n, Err e, r) => (n, Err e, r)
  | (n, Panic, r) => (n, Panic, r)
  | (n, Ok hdr, r) =>
      if MaxMessagePayload <? length_ hdr
      then (n, Err (MessageError "ReadMessage" "message payload is too large"), r)
      else if negb (magic hdr =? btcnet)
      then (n, Err (MessageError "ReadMessage" "message from other network"), discardInput (length_ hdr) r)
      else if negb (ValidString (command hdr))
      then (n, Err (MessageError "ReadMessage" "invalid command"), discardInput (length_ hdr) r)
      else
      match makeEmptyMessage (command hdr) with
      | Err _ => (n, Err (MessageError "ReadMessage" "unhandled command"), discardInput (length_ hdr) r)
      | Panic => (n, Panic, r)
      | Ok k =>
          if MaxPayloadLength k <? length_ hdr
          then (n, Err (MessageError "ReadMessage" "payload exceeds max length"), discardInput (length_ hdr) r)
          else
          match ReadFull (length_ hdr) r with
          | Err e => (n + len r, Err e, [])
          | Panic => (n, Panic, r)
          | Ok (payload, r) =>
              let n := n + len payload in
              if bool_decide (take 4 (DoubleHashB payload) = checksum hdr)
              then
                match msg_BtcDecode enc k payload with
                | Ok (msg, _) => (n, Ok (existT k msg, payload), r)
                | Err e => (n, Err e, r)
                | Panic => (n, Panic, r)
                end
              else (n, Err (MessageError "ReadMessage" "payload checksum failed"), r)
          end
      end
  end.

Definition WriteMessage (btcnet : Z) (k : MsgKind) (msg : msg_type k) : outcome writer :=
  WriteMessageWithEncodingN btcnet BaseEncoding k msg.
Definition ReadMessage (btcnet : Z) (r : bytes) : outcome ({k : MsgKind & msg_type k} * bytes) :=
  snd (fst (ReadMessageWithEncodingN btcnet BaseEncoding r)).

End framing.

(** * Every message is read back *)

Definition msg_dom (enc : MessageEncoding) (k : MsgKind) : msg_type k -> Prop :=
  match k return msg_type k -> Prop with
  | KVersion => version_dom
  | KVerAck | KMemPool | KFilterClear | KSendHeaders => fun _ => True
  | KGetAddr => is_uint 32
  | KPing | KPong => is_uint 64
  | KFeeFilter => is_int 64
  | KAddr => fun m => addr_dom m /\ Shards m = []
  | KPortRedirect => portredirect_dom
  | KGetBlocks | KGetHeaders => locators_dom
  | KBlock => block_dom enc
  | KBlockBox => fun m => block_dom enc (Block m) /\ len (BlockActualMMR m) = HashSize
  | KInv | KGetData | KNotFound => fun m => len (InvList m) <= MaxInvPerMsg /\ Forall invvect_dom (InvList m)
  | KTx => tx_dom enc
  | KHeaders => headers_dom
  | KAlert => alertmsg_dom
  | KFilterAdd => fun m => len m <= MaxFilterAddDataSize
  | KFilterLoad => filterload_dom
  | KMerkleBlock => merkleblock_dom
  | KReject => reject_dom
  | KGetCFilters | KGetCFHeaders => fun m =>
      is_uint 8 (Gcf_FilterType m) /\ is_uint 32 (Gcf_StartHeight m) /\ len (Gcf_StopHash m) = HashSize
  | KGetCFCheckpt => fun m => is_uint 8 (Gck_FilterType m) /\ len (Gck_StopHash m) = HashSize
  | KCFilter => fun m => is_uint 8 (Cf_FilterType m) /\ len (Cf_BlockHash m) = HashSize /\
                         len (Cf_Data m) <= MaxCFilterDataSize
  | KCFHeaders => cfheaders_dom
  | KCFCheckpt => cfcheckpt_dom
  | KEadIP => ead_dom
  | KEadAddresses => eads_dom
  end.

Definition msg_norm (enc : MessageEncoding) (k : MsgKind) : msg_type k -> msg_type k :=
  match k return msg_type k -> msg_type k with
  | KVersion => version_norm
  | KAddr => fun m => {| AddrList := map (netaddr_norm true) (AddrList m); Shards := [] |}
  | KPortRedirect => portredirect_norm
  | KBlock => block_normal enc
  | KBlockBox => fun m => {| Block := block_normal enc (Block m); BlockActualMMR := BlockActualMMR m |}
  | KTx => tx_normal enc
  | KHeaders => headers_norm
  | KAlert => alert_norm
  | KMerkleBlock => merkleblock_norm
  | KReject => reject_norm
  | KEadIP => ead_norm
  | KEadAddresses => eads_norm
  | _ => fun m => m
  end.

Lemma codes_block enc (msg : MsgBlock BlockHeader) : block_dom enc msg ->
  codes (MsgBlock_BtcEncode enc msg) (MsgBlock_BtcDecode None enc) (block_normal enc msg).
Proof.
  intros Hd. exists (block_bytes enc msg). split; [apply block_writes, Hd|].
  apply block_reads; [done|by left].
Qed.

Lemma codes_unit (u : unit) : codes write_nil (mret tt) u.
Proof. destruct u. apply codes_nil. Qed.

Lemma msg_codes enc k (m : msg_type k) : msg_dom enc k m ->
  exists w, msg_BtcEncode enc k m = Ok w /\ codes w (msg_BtcDecode enc k) (msg_norm enc k m).
Proof.
  destruct k; cbn [msg_dom msg_BtcEncode msg_BtcDecode msg_norm msg_type] in *; intros Hd;
    try by apply codes_version.
  all: eexists; split; [reflexivity|]; try apply codes_unit.
  all: try by first [apply codes_inv|apply codes_locators|apply codes_headers|apply codes_portredirect
    |apply codes_alertmsg|apply codes_filteradd|apply codes_filterload|apply codes_merkleblock
    |apply codes_reject|apply codes_cfheaders|apply codes_cfcheckpt|apply codes_ead|apply codes_eads
    |apply codes_block].
  all: try by first [apply (codes_elem T_uint32)|apply (codes_elem T_uint64)|apply (codes_elem T_int64)].
  all: repeat match type of Hd with _ /\ _ => destruct Hd as [? Hd] end.
  all: try by first [apply codes_addr|apply codes_inv|apply codes_getcfilters|apply codes_getcfcheckpt
    |apply codes_cfilter].
  - eapply codes_bind; [by apply codes_block|].
    eapply codes_last; [by apply codes_hash_elem|reflexivity].
  - exists (tx_bytes enc m). split; [apply MsgTx_BtcEncode_writes|by apply MsgTx_BtcDecode_reads].
Qed.

(** * Which decoders can panic *)

(** The messages that carry a header, a big integer, a transaction or a list
    allocated from an unchecked count. *)
Definition may_panic (k : MsgKind) : bool :=
  match k with
  | KVersion | KAddr | KBlock | KBlockBox | KTx | KHeaders | KMerkleBlock | KEadAddresses => true
  | _ => false
  end.

Lemma safe_ReadInvVect : safe ReadInvVect.
Proof.
  unfold ReadInvVect. apply (safe_bind (ReadElements [T_InvType; T_Hash])).
  - apply safe_ReadElements.
  - intros [ty [h u]]. apply safe_ret.
Qed.
Lemma safe_BlockLocatorMeta : safe BlockLocatorMeta_Deserialize.
Proof.
  apply (safe_bind (ReadElements [T_Hash])); [apply safe_ReadElements|].
  intros [h u]. apply safe_ret.
Qed.
#[export] Hint Resolve safe_ReadInvVect safe_BlockLocatorMeta : safe_db.
#[export] Hint Extern 2 (safe (read_add _ _ _ _)) => apply safe_read_add; solve [eauto 2 with safe_db] : safe_db.

(** A list of elements, then the rest. *)
Ltac safe_elems :=
  lazymatch goal with
  | |- safe (mbind _ (ReadElements ?ts)) =>
      apply (safe_bind (ReadElements ts)); [apply safe_ReadElements|];
      let es := fresh in intros es; cbn [elems_val elem_val] in es;
      repeat match type of es with (_ * _)%type => destruct es as [? es] end
  end.

Lemma msg_BtcDecode_safe enc k : may_panic k = false -> safe (msg_BtcDecode enc k).
Proof.
  intros Hk. destruct k; try discriminate Hk; cbn [msg_BtcDecode].
  all: try apply safe_ret; try apply safe_ReadVarBytes.
  all: try first [exact (safe_ReadElement T_uint32)|exact (safe_ReadElement T_uint64)
                 |exact (safe_ReadElement T_int64)].
  - unfold MsgPortRedirect_BtcDecode. safe_elems. apply safe_ret.
  - unfold MsgGetBlocks_BtcDecode. safe_solve.
  - unfold MsgGetData_BtcDecode, MsgNotFound_BtcDecode, MsgInv_BtcDecode, AddInvVect. safe_solve.
  - unfold MsgGetData_BtcDecode, MsgNotFound_BtcDecode, MsgInv_BtcDecode, AddInvVect. safe_solve.
  - unfold MsgGetData_BtcDecode, MsgNotFound_BtcDecode, MsgInv_BtcDecode, AddInvVect. safe_solve.
  - unfold MsgGetHeaders_BtcDecode, AddBlockLocatorMeta. safe_solve.
  - unfold MsgAlert_BtcDecode. apply safe_bind; [apply safe_ReadVarBytes|]. intros sp.
    unfold NewAlertFromPayload. pose proof (safe_Alert_Deserialize sp) as Ha.
    destruct (Alert_Deserialize sp) as [[a r]|e|]; [safe_solve|safe_solve|done].
  - unfold MsgFilterLoad_BtcDecode. apply safe_bind; [apply safe_ReadVarBytes|]. intros f.
    safe_elems. safe_solve.
  - unfold MsgReject_BtcDecode. safe_solve.
  - unfold MsgGetCFilters_BtcDecode. safe_solve.
  - unfold MsgGetCFHeaders_BtcDecode. safe_solve.
  - unfold MsgGetCFCheckpt_BtcDecode. safe_solve.
  - unfold MsgCFilter_BtcDecode. safe_solve.
  - unfold MsgCFHeaders_BtcDecode, AddCFHash. safe_solve.
  - unfold MsgCFCheckpt_BtcDecode. safe_solve.
  - unfold EADAddress_BtcDecode. safe_elems. safe_solve.
Qed.

(** * Discarding input *)

Lemma discard_full_drop n r : 0 <= n -> discard_full n r = drop (Z.to_nat n) r.
Proof.
  intros Hn. unfold discard_full, ReadFull. destruct (Z.ltb_spec (len r) n) as [Hlt|]; [|done].
  rewrite drop_ge by (unfold len in Hlt; lia). by destruct r.
Qed.

Lemma iter_discard m n r : 0 <= n ->
  Nat.iter m (discard_full n) r = drop (m * Z.to_nat n) r.
Proof.
  intros Hn. induction m as [|m IH]; [by rewrite drop_0|]. simpl Nat.iter.
  rewrite IH, discard_full_drop, drop_drop by done. f_equal. lia.
Qed.

(** The chunks add up: [discardInput] skips [n] bytes, or all there is. *)
Lemma discardInput_drop n r : 0 <= n -> discardInput n r = drop (Z.to_nat n) r.
Proof.
  intros Hn. unfold discardInput. cbv zeta.
  pose proof (Z.mod_pos_bound n (10 * 1024)). pose proof (Z.div_mod n (10 * 1024)).
  pose proof (Z.div_pos n (10 * 1024)).
  rewrite iter_discard by lia. destruct (Z.ltb_spec 0 (n mod (10 * 1024))).
  - rewrite discard_full_drop, drop_drop by lia. f_equal. lia.
  - f_equal. lia.
Qed.

(** * The header of a frame *)

Lemma len_command_field cmd : len cmd <= CommandSize -> len (command_field cmd) = 12.
Proof.
  intros Hc. unfold command_field. rewrite len_app. unfold len at 2. rewrite length_replicate.
  unfold CommandSize in *. lia.
Qed.

Section framing_lemmas.
Context `{HashFunction}.

(** A header that parses: the four fields. *)
Definition is_header (hb : bytes) (m : Z) (c : bytes) (l : Z) (s : bytes) : Prop :=
  is_uint 32 m /\ len c = 12 /\ is_uint 32 l /\ len s = 4 /\
  hb = elems_bytes [T_JaxNet; T_array 12; T_uint32; T_array 4] (m, (c, (l, (s, tt)))).

Lemma is_header_dom hb m c l s : is_header hb m c l s ->
  elems_dom [T_JaxNet; T_array 12; T_uint32; T_array 4] (m, (c, (l, (s, tt)))) /\ len hb = 24.
Proof.
  intros (Hm & Hc & Hl & Hs & ->).
  assert (Hd : elems_dom [T_JaxNet; T_array 12; T_uint32; T_array 4] (m, (c, (l, (s, tt)))))
    by by split_and!.
  split; [done|]. by rewrite (len_elems_bytes _ _ 24 Hd).
Qed.

Lemma readMessageHeader_ok hb m c l s rest : is_header hb m c l s ->
  readMessageHeader (hb ++ rest) =
  (MessageHeaderSize, Ok {| magic := m; command := TrimRight c; length_ := l; checksum := s |}, rest).
Proof.
  intros Hh. destruct (is_header_dom _ _ _ _ _ Hh) as [Hd Hlen].
  destruct Hh as (_ & _ & _ & _ & ->). unfold readMessageHeader.
  rewrite (ReadFull_reads' MessageHeaderSize _ (eq_sym Hlen) rest).
  pose proof (ReadElements_reads _ _ Hd []) as Hr. rewrite app_nil_r in Hr. by rewrite Hr.
Qed.

Lemma header_field_is_header btcnet cmd l s :
  is_uint 32 btcnet -> len cmd <= CommandSize -> is_uint 32 l -> len s = 4 ->
  is_header (header_field_bytes btcnet cmd l s) btcnet (command_field cmd) l s.
Proof.
  intros Hb Hc Hl Hs. pose proof (len_command_field cmd Hc) as Hf. split_and!; try done.
  apply (WriteElements_writes [T_JaxNet; T_array 12; T_uint32; T_array 4]). by split_and!.
Qed.

(** Facts about the commands, by enumeration. *)
Lemma Command_facts k :
  len (Command k) <= CommandSize /\ TrimRight (command_field (Command k)) = Command k /\
  ValidString (Command k) = true /\ makeEmptyMessage (Command k) = Ok k.
Proof. destruct k; vm_compute; done. Qed.

Lemma len_checksum p : len (take 4 (DoubleHashB p)) = 4.
Proof.
  unfold len. rewrite length_take. pose proof (sha256_size (sha256_Sum256 p)) as Hs.
  unfold DoubleHashB, len, HashSize in *. lia.
Qed.

(** A well-formed frame of any kind, read with the right network. *)
Lemma ReadMessage_frame btcnet enc hb c l s payload rest :
  is_header hb btcnet c l s -> l = len payload -> l <= MaxMessagePayload ->
  ReadMessageWithEncodingN btcnet enc (hb ++ payload ++ rest) =
  if negb (ValidString (TrimRight c))
  then (24, Err (MessageError "ReadMessage" "invalid command"), rest)
  else match makeEmptyMessage (TrimRight c) with
       | Err _ => (24, Err (MessageError "ReadMessage" "unhandled command"), rest)
       | Panic => (24, Panic, payload ++ rest)
       | Ok k =>
           if MaxPayloadLength k <? l
           then (24, Err (MessageError "ReadMessage" "payload exceeds max length"), rest)
           else if bool_decide (take 4 (DoubleHashB payload) = s)
           then match msg_BtcDecode enc k payload with
                | Ok (msg, _) => (24 + len payload, Ok (existT k msg, payload), rest)
                | Err e => (24 + len payload, Err e, rest)
                | Panic => (24 + len payload, Panic, rest)
                end
           else (24 + len payload, Err (MessageError "ReadMessage" "payload checksum failed"), rest)
       end.
Proof.
  intros Hh -> Hmax. unfold ReadMessageWithEncodingN. rewrite (readMessageHeader_ok _ _ _ _ _ _ Hh).
  cbn [length_ magic command checksum]. rewrite (proj2 (Z.ltb_ge _ _)), Z.eqb_refl by done.
  cbn [negb]. rewrite discardInput_drop, to_nat_len, drop_app_length by apply len_nonneg.
  destruct (ValidString (TrimRight c)); cbn [negb]; [|done].
  destruct (makeEmptyMessage (TrimRight c)) as [k|e|] eqn:Ek; [|done|done].
  destruct (MaxPayloadLength k <? len payload); [done|].
  rewrite (ReadFull_reads payload rest). destruct (bool_decide _); [|done].
  by destruct (msg_BtcDecode enc k payload) as [[msg r]| |].
Qed.

Lemma ReadMessage_other_net btcnet enc hb m c l s payload rest :
  is_header hb m c l s -> m <> btcnet -> l = len payload -> l <= MaxMessagePayload ->
  ReadMessageWithEncodingN btcnet enc (hb ++ payload ++ rest) =
  (24, Err (MessageError "ReadMessage" "message from other network"), rest).
Proof.
  intros Hh Hne -> Hmax. unfold ReadMessageWithEncodingN. rewrite (readMessageHeader_ok _ _ _ _ _ _ Hh).
  cbn [length_ magic command checksum].
  rewrite (proj2 (Z.ltb_ge _ _)), (proj2 (Z.eqb_neq _ _)) by done. cbn [negb].
  by rewrite discardInput_drop, to_nat_len, drop_app_length by apply len_nonneg.
Qed.

(** What [WriteMessage] writes for a message within its limits. *)
Lemma WriteMessage_writes btcnet enc k m w :
  is_uint 32 btcnet -> msg_BtcEncode enc k m = Ok w -> snd w = None ->
  len (wbytes w) <= MaxMessagePayload -> len (wbytes w) <= MaxPayloadLength k ->
  exists wr, WriteMessageWithEncodingN btcnet enc k m = Ok wr /\
    writes wr (header_field_bytes btcnet (Command k) (len (wbytes w))
                 (take 4 (DoubleHashB (wbytes w))) ++ wbytes w).
Proof.
  intros Hb Hw Hn Hmax Hk. destruct (Command_facts k) as (Hc & _).
  unfold WriteMessageWithEncodingN. rewrite (proj2 (Z.ltb_ge CommandSize _)) by done.
  rewrite Hw; cbn [mbind outcome_bind]. rewrite Hn. cbv zeta.
  rewrite (proj2 (Z.ltb_ge MaxMessagePayload _)) by done. pose proof (len_nonneg (wbytes w)).
  rewrite uwrap_id by (unfold is_uint, MaxMessagePayload in *; lia).
  rewrite (proj2 (Z.ltb_ge (MaxPayloadLength k) _)) by done. eexists. split; [reflexivity|].
  apply writes_seq; [apply writes_write|]. destruct (Z.ltb_spec 0 (len (wbytes w))) as [|Hz];
    [apply writes_write|].
  rewrite (len_zero_nil (wbytes w)) by lia. apply writes_nil.
Qed.

Lemma WriteMessage_too_large btcnet enc k m w :
  msg_BtcEncode enc k m = Ok w -> snd w = None -> len (wbytes w) <= MaxMessagePayload ->
  MaxPayloadLength k < len (wbytes w) ->
  WriteMessageWithEncodingN btcnet enc k m =
  Ok (write_fail (MessageError "WriteMessage" "message payload is too large for its type")).
Proof.
  intros Hw Hn Hmax Hk. destruct (Command_facts k) as (Hc & _).
  unfold WriteMessageWithEncodingN. rewrite (proj2 (Z.ltb_ge CommandSize _)) by done.
  rewrite Hw; cbn [mbind outcome_bind]. rewrite Hn. cbv zeta.
  rewrite (proj2 (Z.ltb_ge MaxMessagePayload _)) by done. pose proof (len_nonneg (wbytes w)).
  rewrite uwrap_id by (unfold is_uint, MaxMessagePayload in *; lia).
  by rewrite (proj2 (Z.ltb_lt (MaxPayloadLength k) _)).
Qed.

(** * Properties *)

(** C20: a message of any kind that is within the limits of its type and whose
    payload fits is written as a frame, and reading that frame back, whatever
    follows it, gives the kind, the message (without what the wire does not
    carry), the payload and the number of bytes of the frame, and leaves exactly
    what follows. *)
Theorem message_roundtrip btcnet enc k (m : msg_type k) :
  is_uint 32 btcnet -> msg_dom enc k m ->
  exists w, msg_BtcEncode enc k m = Ok w /\
    (len (wbytes w) <= MaxMessagePayload -> len (wbytes w) <= MaxPayloadLength k ->
     exists wr bs, WriteMessageWithEncodingN btcnet enc k m = Ok wr /\ writes wr bs /\
       forall rest, ReadMessageWithEncodingN btcnet enc (bs ++ rest) =
         (len bs, Ok (existT k (msg_norm enc k m), wbytes w), rest)).
Proof.
  intros Hb Hd. destruct (msg_codes enc k m Hd) as (w & Hw & Hcodes). exists w. split; [done|].
  apply codes_wbytes in Hcodes as [Hn Hr]. intros Hmax Hk.
  destruct (WriteMessage_writes btcnet enc k m w Hb Hw Hn Hmax Hk) as (wr & Hwr & Hws).
  eexists wr, _. split; [done|]. split; [exact Hws|]. intros rest.
  destruct (Command_facts k) as (Hc & Ht & Hv & Hm). rewrite <-app_assoc. pose proof (len_nonneg (wbytes w)).
  assert (Hh := header_field_is_header btcnet (Command k) (len (wbytes w)) _ Hb Hc
    ltac:(unfold is_uint, MaxMessagePayload in *; lia) (len_checksum (wbytes w))).
  rewrite (ReadMessage_frame _ enc _ _ _ _ _ rest Hh eq_refl Hmax), Ht, Hv, Hm. cbn [negb].
  rewrite (proj2 (Z.ltb_ge _ _)), bool_decide_true by done.
  pose proof (Hr []) as Hr'. rewrite app_nil_r in Hr'. rewrite Hr'.
  rewrite len_app, (proj2 (is_header_dom _ _ _ _ _ Hh)). done.
Qed.

(** C32: the reader stays in step with the frames whose announced length is within
    [MaxMessagePayload].  On such a frame, when the length is that of the payload, whatever the
    network, the command, the checksum and the payload are, the reader leaves exactly the bytes
    after the frame, and if it panics it is in the decoder of the message.  A frame that announces
    more is not skipped: the reader refuses it after the header and leaves the payload unread. *)
Theorem message_resync btcnet enc hb m c l s :
  is_header hb m c l s ->
  (forall payload rest, l = len payload -> l <= MaxMessagePayload ->
     let '(n, res, remaining) := ReadMessageWithEncodingN btcnet enc (hb ++ payload ++ rest) in
     remaining = rest /\ 24 <= n <= 24 + len payload /\
     (res = Panic -> exists k, makeEmptyMessage (TrimRight c) = Ok k /\ msg_BtcDecode enc k payload = Panic)) /\
  (forall stream, MaxMessagePayload < l ->
     ReadMessageWithEncodingN btcnet enc (hb ++ stream) =
       (24, Err (MessageError "ReadMessage" "message payload is too large"), stream)).
Proof.
  intros Hh. split.
  - intros payload rest Hl Hmax. pose proof (len_nonneg payload).
    destruct (decide (m = btcnet)) as [->|Hne].
    + rewrite (ReadMessage_frame _ enc _ _ _ _ _ rest Hh Hl Hmax).
      destruct (negb _); [split_and!; done || lia|].
      destruct (makeEmptyMessage (TrimRight c)) as [k|e|] eqn:Ek; [|split_and!; done || lia|].
      * destruct (_ <? l); [split_and!; done || lia|].
        destruct (bool_decide _); [|split_and!; done || lia].
        destruct (msg_BtcDecode enc k payload) as [[msg r]| |] eqn:E; split_and!; try done; try lia. eauto.
      * exfalso. unfold makeEmptyMessage in Ek. by destruct (List.find _ _).
    + rewrite (ReadMessage_other_net _ enc _ _ _ _ _ _ rest Hh Hne Hl Hmax).
      split_and!; done || lia.
  - intros stream Hmax. unfold ReadMessageWithEncodingN. rewrite (readMessageHeader_ok _ _ _ _ _ _ Hh).
    cbn [length_]. by rewrite (proj2 (Z.ltb_lt _ _)).
Qed.

(** An EAD address can be neither sent nor received as a message: every
    encoding is longer than the payload limit of its type, so [WriteMessage]
    refuses it, and [ReadMessage] refuses the frame that would carry it. *)
Theorem ead_address_never_sent btcnet enc (m : EADAddress) hb s rest :
  ead_dom m -> is_uint 32 btcnet ->
  exists w, msg_BtcEncode enc KEadIP m = Ok w /\ snd w = None /\
    (len (wbytes w) <= MaxMessagePayload ->
     WriteMessageWithEncodingN btcnet enc KEadIP m =
       Ok (write_fail (MessageError "WriteMessage" "message payload is too large for its type")) /\
     (is_header hb btcnet (command_field (Command KEadIP)) (len (wbytes w)) s ->
      ReadMessageWithEncodingN btcnet enc (hb ++ wbytes w ++ rest) =
        (24, Err (MessageError "ReadMessage" "payload exceeds max length"), rest))).
Proof.
  intros Hd Hb. destruct (msg_codes enc KEadIP m Hd) as (w & Hw & Hcodes). exists w.
  apply codes_wbytes in Hcodes as [Hn _]. split_and!; [done|done|]. intros Hmax.
  assert (Hlong : MaxPayloadLength KEadIP < len (wbytes w)).
  { injection Hw as <-. apply (ead_exceeds_payload m); [done|by split]. }
  split; [by eapply WriteMessage_too_large|]. intros Hh.
  rewrite (ReadMessage_frame _ enc _ _ _ _ _ rest Hh eq_refl Hmax).
  destruct (Command_facts KEadIP) as (_ & -> & -> & ->). cbn [negb].
  by rewrite (proj2 (Z.ltb_lt _ _)).
Qed.

(** An addr message with at least one shard address is encoded, and its
    receiver panics on it: the decoder assigns through a nil pointer. *)
Theorem addr_with_shards_panics enc (msg : MsgAddr) rest :
  addr_dom msg -> 0 < len (Shards msg) <= 2 ^ 45 ->
  Forall (fun sa => is_uint 32 (Sa_ShardID sa) /\ netaddr_dom true (Sa_Address sa)) (Shards msg) ->
  exists w bs, msg_BtcEncode enc KAddr msg = Ok w /\ writes w bs /\
    msg_BtcDecode enc KAddr (bs ++ rest) = Panic.
Proof.
  intros Hd Hs Hsd. destruct (MsgAddr_shards_panic msg rest Hd Hs Hsd) as (bs & Hw & Hp).
  exists (MsgAddr_BtcEncode msg), bs. done.
Qed.
End framing_lemmas.

(** On any payload whatever, the decoders of the messages that carry no
    block header, no transaction, no big integer and no unchecked count return a
    message or an error: none of them panics. *)
Theorem decoders_never_panic enc k payload :
  may_panic k = false -> msg_BtcDecode enc k payload <> Panic.
Proof. intros Hk. by apply msg_BtcDecode_safe. Qed.

(** * Concrete messages *)

Lemma decoders_never_panic_witness :
  may_panic KGetCFilters = false /\ msg_BtcDecode BaseEncoding KGetCFilters (mkbytes [1; 2]) <> Panic.
Proof. split; [reflexivity|]. apply decoders_never_panic. reflexivity. Defined.

Definition example_inv : MsgInv :=
  {| InvList := [{| Iv_Type := 2; Iv_Hash := example_hash 1 |}; {| Iv_Type := 1; Iv_Hash := example_hash 2 |}] |}.

Lemma message_roundtrip_witness :
  is_uint 32 0x12121212 /\ msg_dom BaseEncoding KInv example_inv /\
  exists wr bs, @WriteMessageWithEncodingN sha256_instance 0x12121212 BaseEncoding KInv example_inv = Ok wr /\
    writes wr bs /\
    forall rest, @ReadMessageWithEncodingN sha256_instance 0x12121212 BaseEncoding (bs ++ rest) =
      (len bs, Ok (existT KInv example_inv, wbytes (MsgInv_BtcEncode "MsgInv" example_inv)), rest).
Proof.
  assert (Hb : is_uint 32 0x12121212) by (unfold is_uint; lia).
  assert (Hd : msg_dom BaseEncoding KInv example_inv)
    by (split; [vm_compute; discriminate|repeat constructor; vm_compute; done]).
  split; [exact Hb|]. split; [exact Hd|].
  destruct (@message_roundtrip sha256_instance 0x12121212 BaseEncoding KInv example_inv Hb Hd)
    as (w & Hw & Hr).
  injection Hw as <-. apply Hr; vm_compute; discriminate.
Defined.

Lemma message_resync_witness :
  let payload := mkbytes [1; 2; 3] in
  let hb l := header_field_bytes 7 (Command KPing) l (mkbytes [0; 0; 0; 0]) in
  (let '(n, res, remaining) :=
     @ReadMessageWithEncodingN sha256_instance 9 BaseEncoding (hb 3 ++ payload ++ mkbytes [5]) in
   remaining = mkbytes [5]) /\
  @ReadMessageWithEncodingN sha256_instance 9 BaseEncoding (hb (2 ^ 31) ++ payload ++ mkbytes [5]) =
    (24, Err (MessageError "ReadMessage" "message payload is too large"), payload ++ mkbytes [5]).
Proof.
  intros payload hb.
  assert (Hh : forall l, is_uint 32 l -> is_header (hb l) 7 (command_field (Command KPing)) l (mkbytes [0; 0; 0; 0]))
    by (intros l Hl; apply header_field_is_header; [vm_compute; done|vm_compute; done|exact Hl|vm_compute; done]).
  split.
  - destruct (@message_resync sha256_instance 9 BaseEncoding (hb 3) 7 (command_field (Command KPing)) 3
      (mkbytes [0; 0; 0; 0]) (Hh 3 ltac:(unfold is_uint; lia))) as [Hs _].
    specialize (Hs payload (mkbytes [5]) eq_refl ltac:(vm_compute; discriminate)).
    destruct (ReadMessageWithEncodingN _ _ _) as [[n res] remaining]. apply Hs.
  - destruct (@message_resync sha256_instance 9 BaseEncoding (hb (2 ^ 31)) 7 (command_field (Command KPing)) (2 ^ 31)
      (mkbytes [0; 0; 0; 0]) (Hh (2 ^ 31) ltac:(unfold is_uint; lia))) as [_ Hs].
    apply Hs. vm_compute. done.
Defined.

Definition example_ead : EADAddress :=
  {| Ea_IP := Some (mkbytes [127; 0; 0; 1]); Ea_Port := 8333; Ea_URL := []; ExpiresAt := 1700000000;
     Ea_Shard := 2; Ea_TxHash := example_hash 5; TxOutIndex := 1 |}.

Lemma ead_address_never_sent_witness :
  ead_dom example_ead /\
  @WriteMessageWithEncodingN sha256_instance 7 BaseEncoding KEadIP example_ead =
    Ok (write_fail (MessageError "WriteMessage" "message payload is too large for its type")).
Proof.
  assert (Hd : ead_dom example_ead) by (repeat split; vm_compute; done).
  split; [exact Hd|].
  destruct (@ead_address_never_sent sha256_instance 7 BaseEncoding example_ead [] [] [] Hd
    ltac:(unfold is_uint; lia)) as (w & Hw & _ & Hr).
  injection Hw as <-. apply Hr. vm_compute. discriminate.
Defined.

Lemma addr_with_shards_panics_witness :
  let msg' := {| AddrList := [];
                 Shards := [{| Sa_ShardID := 1; Sa_Address := netaddr_norm true
                   {| Na_Timestamp := 5; Na_Services := 1; Na_IP := None; Na_Port := 80 |} |}] |} in
  exists w bs, msg_BtcEncode BaseEncoding KAddr msg' = Ok w /\ writes w bs /\
    msg_BtcDecode BaseEncoding KAddr (bs ++ []) = Panic.
Proof.
  intros msg'. apply addr_with_shards_panics; [split; [vm_compute; discriminate|constructor]|vm_compute; done|].
  repeat constructor; vm_compute; done.
Defined.
