(* ===== verification/Pow.v ===== *)
(** Proof of work: types/pow (difficulty.go, hashsorting.go and the epochs of
    inflation_fix.go).

    A big.Int is an integer; [big_Div] is its Euclidean division, which panics
    on zero.  A function that changes an argument returns its new value. *)

From S2P Require Import Prelude Big WireEncoding Chainhash WireHeader.

(** * Definitions *)

Definition oneLsh256 : Z := Z.shiftl 1 256.

(** The words of a big.Int: the lowest one, of the absolute value. *)
Definition big_word0 (n : Z) : Z := Z.abs n mod 2 ^ 64.

Definition big_Div (x y : Z) : outcome Z :=
  if y =? 0 then Panic else if y <? 0 then Ok (- (x / - y)) else Ok (x / y).

(** The bytes of the array are swapped in place, then read big-endian. *)
Definition HashToBig (hash : bytes) : Z := big_SetBytes (rev hash).

Definition CompactToBig (compact : Z) : Z :=
  let mantissa := Z.land compact 0x007fffff in
  let isNegative := negb (Z.land compact 0x00800000 =? 0) in
  let exponent := Z.shiftr compact 24 in
  let bn := if exponent <=? 3
            then Z.shiftr mantissa (8 * (3 - exponent))
            else Z.shiftl mantissa (8 * (exponent - 3)) in
  if isNegative then - bn else bn.

Definition BigToCompact (n : Z) : Z :=
  if n =? 0 then 0
  else
    let exponent := len (big_Bytes n) in
    let mantissa := if exponent <=? 3
                    then uwrap 32 (Z.shiftl (uwrap 32 (big_word0 n)) (8 * (3 - exponent)))
                    else uwrap 32 (big_word0 (Z.shiftr n (8 * (exponent - 3)))) in
    let '(mantissa, exponent) :=
      if negb (Z.land mantissa 0x00800000 =? 0)
      then (Z.shiftr mantissa 8, exponent + 1) else (mantissa, exponent) in
    let compact := Z.lor (uwrap 32 (Z.shiftl exponent 24)) mantissa in
    if n <? 0 then Z.lor compact 0x00800000 else compact.

Definition CalcWork (bits : Z) : Z :=
  let hashSortingBits := 10 in
  let difficultyNum := CompactToBig bits in
  if difficultyNum <=? 0 then 0
  else (oneLsh256 / (difficultyNum + 1)) * Z.shiftl 1 hashSortingBits.

Definition BTCCalcWork (bits : Z) : Z :=
  let difficultyNum := CompactToBig bits in
  if difficultyNum <=? 0 then 0 else oneLsh256 / (difficultyNum + 1).

Definition CalcPowWeight (powLimit bits hashSortingBits : Z) : Z :=
  let difficultyNum := CompactToBig bits in
  if difficultyNum <=? 0 then 1
  else
    let work := (powLimit / (difficultyNum + 1)) * Z.shiftl 1 hashSortingBits in
    let res := big_word0 work in
    if res =? 0 then 1 else res.

Definition GetDifficultyRatio (genesisBits bits : Z) : outcome Z :=
  d ← big_Div (CompactToBig genesisBits) (CompactToBig bits);
  if d <? 1 then Ok 1 else Ok d.

(** The result, and the new value of the argument [powHash]. *)
Definition HashSortingLastBits (powHash hashSortingSlotNumber : Z) : outcome (Z * Z) :=
  let lastBitsMask := uwrap 32 (hashSortingSlotNumber - 1) in
  let res := Z.land powHash lastBitsMask in
  if res =? 0 then Ok (0, res)
  else
    let low := uwrap 32 (big_word0 res) in
    if low <? hashSortingSlotNumber then Ok (low, res)
    else if hashSortingSlotNumber =? 0 then Panic
    else Ok (low mod hashSortingSlotNumber, res).

Definition ValidateHashSortingRule (powHash hashSortingSlotNumber chainID : Z) : outcome bool :=
  '(bits, _) ← HashSortingLastBits powHash hashSortingSlotNumber;
  if hashSortingSlotNumber =? 0 then Panic
  else Ok (bits =? chainID mod hashSortingSlotNumber).

Definition KBeaconEpochLen : Z := 4096.
Definition ShardEpochLen : Z := 16 * 4096.

Definition BeaconEpoch (height : Z) : Z := swrap 32 (Z.quot height KBeaconEpochLen + 1).
Definition ShardEpoch (height : Z) : Z := swrap 32 (Z.quot height ShardEpochLen + 1).

(** * The compact form *)

(** The three components of a compact number. *)
Definition pack (exponent mantissa : Z) : Z := exponent * 2 ^ 24 + mantissa.

Lemma CompactToBig_pack e m : 0 <= e -> 0 <= m < 2 ^ 23 ->
  CompactToBig (pack e m) = if e <=? 3 then m / 2 ^ (8 * (3 - e)) else m * 2 ^ (8 * (e - 3)).
Proof.
  intros He Hm. unfold CompactToBig, pack.
  assert (E1 : Z.land (e * 2 ^ 24 + m) 0x7fffff = m).
  { change 0x7fffff with (Z.ones 23). rewrite Z.land_ones by lia.
    replace (e * 2 ^ 24 + m) with (m + e * 2 * 2 ^ 23) by lia.
    rewrite Z.mod_add, Z.mod_small by lia. done. }
  assert (E2 : Z.land (e * 2 ^ 24 + m) 0x800000 = 0).
  { change 0x800000 with (2 ^ 23). rewrite land_flag by lia.
    replace (Z.testbit (e * 2 ^ 24 + m) 23) with false; [done|]. symmetry.
    apply Z.testbit_false; [lia|].
    replace (e * 2 ^ 24 + m) with (m + e * 2 * 2 ^ 23) by lia.
    rewrite Z.div_add, (Z.div_small m) by lia.
    replace (0 + e * 2) with (e * 2) by lia. by rewrite Z.mod_mul. }
  assert (E3 : Z.shiftr (e * 2 ^ 24 + m) 24 = e).
  { rewrite Z.shiftr_div_pow2, Z.add_comm, Z.div_add, Z.div_small by lia. lia. }
  rewrite E1, E2, E3. cbn [Z.eqb negb].
  destruct (Z.leb_spec e 3); [by rewrite Z.shiftr_div_pow2 by lia|by rewrite Z.shiftl_mul_pow2 by lia].
Qed.

(** The number of bytes of a positive number. *)
(** The mantissa [BigToCompact] starts from. *)
Definition raw_mantissa (n e : Z) : Z :=
  if e <=? 3 then n * 2 ^ (8 * (3 - e)) else n / 2 ^ (8 * (e - 3)).

Lemma raw_mantissa_range n e :
  0 < n -> 1 <= e -> 2 ^ (8 * (e - 1)) <= n < 2 ^ (8 * e) -> 2 ^ 16 <= raw_mantissa n e < 2 ^ 24.
Proof.
  intros Hn He [Hlo Hhi]. unfold raw_mantissa. destruct (Z.leb_spec e 3) as [H3|H3].
  - assert (e = 1 \/ e = 2 \/ e = 3) as [->|[->| ->]] by lia; simpl in *; lia.
  - assert (0 < 2 ^ (8 * (e - 3))) by (apply Z.pow_pos_nonneg; lia). split.
    + apply Z.div_le_lower_bound; [done|]. rewrite <-Z.pow_add_r by lia.
      replace (8 * (e - 3) + 16) with (8 * (e - 1)) by lia. done.
    + apply Z.div_lt_upper_bound; [done|]. rewrite <-Z.pow_add_r by lia.
      by replace (8 * (e - 3) + 24) with (8 * e) by lia.
Qed.

Lemma lor_pack e m : 0 <= m < 2 ^ 24 -> Z.lor (e * 2 ^ 24) m = pack e m.
Proof.
  intros Hm. unfold pack.
  assert (Hland : Z.land (e * 2 ^ 24) m = 0).
  { apply Z.bits_inj'; intros i Hi. rewrite Z.land_spec, Z.bits_0.
    destruct (Z.lt_ge_cases i 24); [by rewrite Z.mul_pow2_bits_low by lia|].
    rewrite (Z.bits_above_log2 m), andb_false_r; [done|lia|].
    destruct (Z.eq_dec m 0) as [->|]; [simpl; lia|]. apply Z.log2_lt_pow2; [lia|].
    eapply Z.lt_le_trans; [apply Hm|apply Z.pow_le_mono_r; lia]. }
  by rewrite (Z.add_nocarry_lxor _ _ Hland), Z.lxor_lor.
Qed.

(** Bit 23 of a 24-bit mantissa. *)
Lemma mantissa_sign m : 0 <= m < 2 ^ 24 ->
  negb (Z.land m 0x800000 =? 0) = negb (m <? 2 ^ 23).
Proof.
  intros Hm. f_equal. change 0x800000 with (2 ^ 23). rewrite land_flag by lia.
  destruct (Z.ltb_spec m (2 ^ 23)).
  - replace (Z.testbit m 23) with false; [done|].
    symmetry. apply Z.testbit_false; [lia|]. by rewrite Z.div_small by lia.
  - replace (Z.testbit m 23) with true; [done|].
    symmetry. apply Z.testbit_true; [lia|].
    replace (m / 2 ^ 23) with 1; [done|]. apply Z.div_unique with (m - 2 ^ 23); lia.
Qed.

(** [BigToCompact] of a positive number of at most 254 bytes. *)
Lemma BigToCompact_eq n : 0 < n -> len (big_Bytes n) <= 254 ->
  let e := len (big_Bytes n) in
  BigToCompact n = if raw_mantissa n e <? 2 ^ 23 then pack e (raw_mantissa n e)
                   else pack (e + 1) (raw_mantissa n e / 2 ^ 8).
Proof.
  intros Hn He e. destruct (big_Bytes_len n Hn) as [Hl Hr]. fold e in He, Hl, Hr.
  pose proof (Z.div_pos (Z.log2 n) 8). pose proof (Z.log2_nonneg n).
  assert (He1 : 1 <= e) by lia. pose proof (raw_mantissa_range n e Hn He1 Hr) as Hm.
  assert (Hraw : (if e <=? 3 then uwrap 32 (Z.shiftl (uwrap 32 (big_word0 n)) (8 * (3 - e)))
                  else uwrap 32 (big_word0 (Z.shiftr n (8 * (e - 3))))) = raw_mantissa n e).
  { unfold raw_mantissa, big_word0 in *. destruct (Z.leb_spec e 3).
    - assert (2 ^ (8 * e) <= 2 ^ 24) by (apply Z.pow_le_mono_r; lia).
      rewrite Z.abs_eq, (Z.mod_small n), (uwrap_id 32 n) by (unfold is_uint; lia).
      rewrite Z.shiftl_mul_pow2 by lia. apply uwrap_id. unfold is_uint; lia.
    - rewrite Z.shiftr_div_pow2 by lia. rewrite Z.abs_eq by lia.
      rewrite Z.mod_small by lia. apply uwrap_id. unfold is_uint; lia. }
  unfold BigToCompact. fold e. rewrite (proj2 (Z.eqb_neq n 0)), (proj2 (Z.ltb_ge n 0)), Hraw by lia.
  rewrite mantissa_sign by lia. destruct (Z.ltb_spec (raw_mantissa n e) (2 ^ 23)); cbn [negb].
  - rewrite Z.shiftl_mul_pow2, uwrap_id by (unfold is_uint; lia). apply lor_pack. lia.
  - rewrite Z.shiftl_mul_pow2, uwrap_id, Z.shiftr_div_pow2 by (unfold is_uint; lia).
    apply lor_pack. split; [apply Z.div_pos; lia|]. apply Z.div_lt_upper_bound; lia.
Qed.

#[local] Opaque CompactToBig BigToCompact pack.

(** At most three bytes: exact, except for three bytes with the sign bit set. *)
Lemma CompactToBig_small n e : 0 < n -> 1 <= e <= 3 -> 2 ^ (8 * (e - 1)) <= n < 2 ^ (8 * e) ->
  let m := n * 2 ^ (8 * (3 - e)) in
  let t := CompactToBig (if m <? 2 ^ 23 then pack e m else pack (e + 1) (m / 2 ^ 8)) in
  (t = n /\ n < 2 ^ 23) \/ (2 ^ 23 <= n /\ t = n / 256 * 256).
Proof.
  intros Hn He Hr m t.
  assert (Hq : 2 ^ 23 <= m < 2 ^ 24 -> 0 <= m / 2 ^ 8 < 2 ^ 23).
  { intros. split; [apply Z.div_pos; lia|apply Z.div_lt_upper_bound; lia]. }
  assert (e = 1 \/ e = 2 \/ e = 3) as [->|[->| ->]] by lia; unfold t; clear t;
    [change (2 ^ (8 * (3 - 1))) with 65536 in *|change (2 ^ (8 * (3 - 2))) with 256 in *
    |change (2 ^ (8 * (3 - 3))) with 1 in *]; simpl in Hr;
    destruct (Z.ltb_spec m (2 ^ 23)); rewrite CompactToBig_pack by (try apply Hq; unfold m in *; lia);
    simpl; unfold m in *; rewrite ?Z.div_div, ?Z.div_mul, ?Z.div_1_r, ?Z.mul_1_r by lia; try (left; split; [done|lia]).
  right. split; [lia|done].
Qed.

Lemma CompactToBig_BigToCompact n : 0 < n -> len (big_Bytes n) <= 254 ->
  exists k, 0 <= k /\ CompactToBig (BigToCompact n) = n / 256 ^ k * 256 ^ k /\
            (k = 0 \/ 2 ^ 15 <= n / 256 ^ k) /\ n / 256 ^ k < 2 ^ 23.
Proof.
  intros Hn He. rewrite BigToCompact_eq by done. cbv zeta.
  destruct (big_Bytes_len n Hn) as [Hl Hr]. set (e := len (big_Bytes n)) in *.
  pose proof (Z.div_pos (Z.log2 n) 8). pose proof (Z.log2_nonneg n).
  assert (He1 : 1 <= e) by lia. pose proof (raw_mantissa_range n e Hn He1 Hr) as Hm.
  assert (Hpow : forall k, 0 <= k -> 2 ^ (8 * k) = 256 ^ k) by (intros; by rewrite Z.pow_mul_r by lia).
  unfold raw_mantissa in *. destruct (Z.leb_spec e 3) as [H3|H3].
  - destruct (CompactToBig_small n e Hn) as [[E Hs]|[Hbig E]]; [lia|done|..]; rewrite E.
    + exists 0. rewrite Z.div_1_r, Z.mul_1_r. split_and!; [done|done|by left|done].
    + exists 1. split; [lia|]. split; [done|]. assert (n < 2 ^ 24) by (eapply Z.lt_le_trans; [apply Hr|]; apply (Z.pow_le_mono_r 2 (8 * e) 24); lia).
      split; [right; apply Z.div_le_lower_bound; lia|apply Z.div_lt_upper_bound; lia].
  - destruct (Z.ltb_spec (n / 2 ^ (8 * (e - 3))) (2 ^ 23)).
    + exists (e - 3). rewrite CompactToBig_pack, (proj2 (Z.leb_gt e 3)), <-Hpow by lia.
      split; [lia|]. split; [done|]. split; [right; lia|done].
    + exists (e - 2). assert (0 < 2 ^ (8 * (e - 3))) by (apply Z.pow_pos_nonneg; lia).
      assert (Hd : n / 2 ^ (8 * (e - 3)) / 2 ^ 8 = n / 256 ^ (e - 2)).
      { rewrite Z.div_div, <-Z.pow_add_r, <-Hpow by lia. do 2 f_equal. lia. }
      assert (2 ^ 15 <= n / 2 ^ (8 * (e - 3)) / 2 ^ 8) by (apply Z.div_le_lower_bound; lia).
      assert (n / 2 ^ (8 * (e - 3)) / 2 ^ 8 < 2 ^ 16) by (apply Z.div_lt_upper_bound; lia).
      rewrite CompactToBig_pack, (proj2 (Z.leb_gt (e + 1) 3)), Hd by lia.
      replace (8 * (e + 1 - 3)) with (8 * (e - 2)) by lia. rewrite Hpow by lia.
      split; [lia|]. split; [done|]. rewrite <-Hd. split; [right; lia|lia].
Qed.

Lemma BigToCompact_pack e m : 3 <= e <= 254 -> 2 ^ 15 <= m < 2 ^ 23 ->
  BigToCompact (m * 256 ^ (e - 3)) = pack e m.
Proof.
  intros He Hm. set (n := m * 256 ^ (e - 3)).
  assert (Hp : 256 ^ (e - 3) = 2 ^ (8 * (e - 3))) by (by rewrite Z.pow_mul_r by lia).
  assert (0 < 256 ^ (e - 3)) by (apply Z.pow_pos_nonneg; lia). assert (Hn : 0 < n) by (unfold n; nia).
  assert (Hsp : forall a, 0 <= a -> 2 ^ (8 * (e - 3) + a) = 2 ^ (8 * (e - 3)) * 2 ^ a)
    by (intros; apply Z.pow_add_r; lia).
  destruct (Z.lt_ge_cases m (2 ^ 16)).
  - assert (Hl : len (big_Bytes n) = e - 1).
    { apply big_len_unique; [done|lia|]. unfold n. rewrite Hp.
      replace (8 * (e - 1)) with (8 * (e - 3) + 16) by lia.
      replace (8 * (e - 1 - 1)) with (8 * (e - 3) + 8) by lia. rewrite !Hsp by lia. nia. }
    rewrite BigToCompact_eq by (try done; lia). cbv zeta. rewrite Hl.
    assert (Hraw : raw_mantissa n (e - 1) = m * 2 ^ 8).
    { unfold raw_mantissa, n. rewrite Hp. destruct (Z.leb_spec (e - 1) 3).
      - assert (e = 3 \/ e = 4) as [->| ->] by lia; simpl; lia.
      - replace (8 * (e - 3)) with (8 * (e - 1 - 3) + 8) by lia. rewrite Z.pow_add_r by lia.
        rewrite Z.mul_assoc, (Z.mul_comm m), <-Z.mul_assoc, Z.mul_comm, Z.div_mul; [done|].
        apply Z.pow_nonzero; lia. }
    rewrite Hraw, (proj2 (Z.ltb_ge _ _)), Z.div_mul by lia. f_equal. lia.
  - assert (Hl : len (big_Bytes n) = e).
    { apply big_len_unique; [done|lia|]. unfold n. rewrite Hp.
      replace (8 * e) with (8 * (e - 3) + 24) by lia.
      replace (8 * (e - 1)) with (8 * (e - 3) + 16) by lia. rewrite !Hsp by lia. nia. }
    rewrite BigToCompact_eq by (try done; lia). cbv zeta. rewrite Hl.
    assert (Hraw : raw_mantissa n e = m).
    { unfold raw_mantissa, n. rewrite Hp. destruct (Z.leb_spec e 3).
      - assert (e = 3) as -> by lia. simpl. lia.
      - rewrite Z.div_mul; [done|]. apply Z.pow_nonzero; lia. }
    by rewrite Hraw, (proj2 (Z.ltb_lt _ _)) by lia.
Qed.

(** * Properties *)

(** A difficulty in normal form (a mantissa of 16 to 23 bits, an exponent
    between 3 and 254, no sign) survives the round trip through the integer
    target, and any positive target of at most 254 bytes is rounded down by the
    compact form at a byte boundary, with at least 16 significant bits kept and
    no change at all below 2^23. *)
Theorem compact_target_roundtrip :
  (forall e m, 3 <= e <= 254 -> 2 ^ 15 <= m < 2 ^ 23 ->
     BigToCompact (CompactToBig (pack e m)) = pack e m) /\
  (forall n, 0 < n -> len (big_Bytes n) <= 254 ->
     let t := CompactToBig (BigToCompact n) in
     t <= n /\ n - t < n / 2 ^ 15 + 1 /\ (n < 2 ^ 23 -> t = n)).
Proof.
  split.
  - intros e m He Hm. rewrite CompactToBig_pack by lia. destruct (Z.leb_spec e 3).
    + assert (e = 3) as -> by lia. simpl. rewrite Z.div_1_r.
      rewrite <-(BigToCompact_pack 3 m) by lia. simpl. by rewrite Z.mul_1_r.
    + rewrite <-(BigToCompact_pack e m) by lia. f_equal. by rewrite Z.pow_mul_r by lia.
  - intros n Hn He t. destruct (CompactToBig_BigToCompact n Hn He) as (k & Hk & Et & Hq & _).
    unfold t. rewrite Et. assert (Hp : 0 < 256 ^ k) by (apply Z.pow_pos_nonneg; lia).
    pose proof (Z.div_mod n (256 ^ k)) as Hdm. pose proof (Z.mod_pos_bound n (256 ^ k) Hp).
    split; [lia|]. destruct Hq as [->|Hq].
    { rewrite Z.div_1_r. pose proof (Z.div_pos n (2 ^ 15)). split; [lia|]. intros; lia. }
    split.
    + assert (256 ^ k <= n / 2 ^ 15) by (apply Z.div_le_lower_bound; nia). lia.
    + intros Hs. destruct (Z.eq_dec k 0) as [->|]; [by rewrite Z.div_1_r, Z.mul_1_r|].
      assert (256 ^ 1 <= 256 ^ k) by (apply Z.pow_le_mono_r; lia). nia.
Qed.

(** Rounding keeps the order: what a compact form can hold below a target stays below it. *)
Lemma compact_round_mono y x : 0 < y <= x -> len (big_Bytes x) <= 254 -> CompactToBig (BigToCompact y) = y -> y <= CompactToBig (BigToCompact x).
Proof.
  intros Hy Hx Hr. assert (Hly : len (big_Bytes y) <= 254).
  { destruct (big_Bytes_len x) as [_ [_ Hu]]; [lia|]. pose proof (len_nonneg (big_Bytes x)). apply (Z.le_trans _ (len (big_Bytes x))); [|done].
    apply big_Bytes_le; [|done]. lia. }
  destruct (CompactToBig_BigToCompact x) as (k & Hk & Ex & Hlo & _); [lia|done|].
  destruct (CompactToBig_BigToCompact y) as (j & Hj & Ey & _ & Hup); [lia|done|]. rewrite Hr in Ey. rewrite Ex.
  assert (Hpk : 0 < 256 ^ k) by (apply Z.pow_pos_nonneg; lia). assert (Hpj : 0 < 256 ^ j) by (apply Z.pow_pos_nonneg; lia).
  destruct Hlo as [->|Hlo]; [rewrite Z.div_1_r; lia|]. destruct (Z.le_gt_cases k j) as [Hkj|Hkj].
  - rewrite Ey. replace (256 ^ j) with (256 ^ (j - k) * 256 ^ k) by (rewrite <-Z.pow_add_r by lia; f_equal; lia).
    rewrite Z.mul_assoc. apply Z.mul_le_mono_nonneg_r; [lia|]. apply Z.div_le_lower_bound; [done|].
    replace (256 ^ (j - k) * 256 ^ k) with (256 ^ j) by (rewrite <-Z.pow_add_r by lia; f_equal; lia).
    rewrite (Z.mul_comm (256 ^ k)), <-Z.mul_assoc, <-Z.pow_add_r by lia. replace (j - k + k) with j by lia. lia.
  - assert (E : 256 ^ k = 256 ^ (k - 1 - j) * 256 ^ j * 256).
    { rewrite <-Z.pow_add_r by lia. replace (k - 1 - j + j) with (k - 1) by lia. rewrite Z.mul_comm, <-Z.pow_succ_r by lia. f_equal. lia. }
    assert (0 < 256 ^ (k - 1 - j)) by (apply Z.pow_pos_nonneg; lia). assert (y < 2 ^ 23 * 256 ^ j) by nia. nia.
Qed.

(** C33: work is the inverse of the target.  [CalcWork] is 1024 times the Bitcoin
    work of the same bits, is zero exactly for a target that is not positive or
    does not fit in 256 bits, and never grows with the target. *)
Theorem work_antitone bits bits' :
  CalcWork bits = 2 ^ 10 * BTCCalcWork bits /\
  (0 < CompactToBig bits <= CompactToBig bits' -> CalcWork bits' <= CalcWork bits) /\
  (CalcWork bits = 0 <-> CompactToBig bits <= 0 \/ 2 ^ 256 <= CompactToBig bits) /\
  0 <= CalcWork bits.
Proof.
  assert (E : forall b, CalcWork b = 2 ^ 10 * BTCCalcWork b).
  { intros b. unfold CalcWork, BTCCalcWork. destruct (CompactToBig b <=? 0); [done|].
    rewrite Z.shiftl_mul_pow2 by lia. lia. }
  assert (Hpos : forall b, 0 <= BTCCalcWork b).
  { intros b. unfold BTCCalcWork. destruct (Z.leb_spec (CompactToBig b) 0); [done|].
    apply Z.div_pos; [done|lia]. }
  split; [apply E|]. rewrite !E. split.
  - intros Hle. unfold BTCCalcWork. rewrite !(proj2 (Z.leb_gt _ _)) by lia.
    apply Z.mul_le_mono_nonneg_l; [done|]. apply Z.div_le_compat_l; [done|lia].
  - split; [|specialize (Hpos bits); lia]. unfold BTCCalcWork.
    destruct (Z.leb_spec (CompactToBig bits) 0) as [|Hp]; [lia|].
    change oneLsh256 with (2 ^ 256). split.
    + intros Hz. right. destruct (Z.lt_ge_cases (CompactToBig bits) (2 ^ 256)) as [Hlt|]; [|done].
      assert (1 <= 2 ^ 256 / (CompactToBig bits + 1)) by (apply Z.div_le_lower_bound; lia). lia.
    + intros [|Hb]; [lia|]. rewrite Z.div_small; lia.
Qed.

(** The weight of a block and its difficulty ratio are at least one:
    [CalcPowWeight] is a positive uint64 whatever the bits are, and
    [GetDifficultyRatio] is at least one and panics exactly on a zero target. *)
Theorem weight_and_ratio_positive powLimit bits hsb genesisBits :
  (1 <= CalcPowWeight powLimit bits hsb < 2 ^ 64) /\
  (GetDifficultyRatio genesisBits bits = Panic <-> CompactToBig bits = 0) /\
  (CompactToBig bits <> 0 -> exists d, GetDifficultyRatio genesisBits bits = Ok d /\ 1 <= d).
Proof.
  split.
  - unfold CalcPowWeight, big_word0. destruct (_ <=? 0); [lia|].
    set (w := Z.abs _). pose proof (Z.mod_pos_bound w (2 ^ 64)).
    destruct (Z.eqb_spec (w mod 2 ^ 64) 0); lia.
  - unfold GetDifficultyRatio, big_Div. destruct (Z.eqb_spec (CompactToBig bits) 0) as [->|Hne].
    + split; [done|]. done.
    + assert (E : forall z, exists d, (if z <? 1 then Ok 1 else Ok z) = Ok d /\ 1 <= d).
      { intros z. destruct (Z.ltb_spec z 1); eexists; (split; [reflexivity|lia]). }
      destruct (CompactToBig bits <? 0); cbn [mbind outcome_bind];
        [destruct (E (- (CompactToBig genesisBits / - CompactToBig bits))) as (d & -> & Hd)
        |destruct (E (CompactToBig genesisBits / CompactToBig bits)) as (d & -> & Hd)];
        (split; [split; intros; [discriminate|congruence]|eauto]).
Qed.

(** With a power of two of slots, the hash sorting rule assigns a hash to the
    chains congruent to it: [ValidateHashSortingRule] accepts a chain id exactly
    when the hash and the id agree modulo the number of slots, so that among the
    ids below that number one and only one is accepted.  The call overwrites the
    hash with its remainder. *)
Theorem hash_sorting_slots powHash k :
  0 <= powHash -> 0 <= k < 32 ->
  HashSortingLastBits powHash (2 ^ k) = Ok (powHash mod 2 ^ k, powHash mod 2 ^ k) /\
  (forall chainID, ValidateHashSortingRule powHash (2 ^ k) chainID =
     Ok (bool_decide (powHash mod 2 ^ k = chainID mod 2 ^ k))) /\
  (forall chainID, 0 <= chainID < 2 ^ k ->
     (ValidateHashSortingRule powHash (2 ^ k) chainID = Ok true <-> chainID = powHash mod 2 ^ k)).
Proof.
  intros Hh Hk. assert (Hp : 0 < 2 ^ k) by (apply Z.pow_pos_nonneg; lia).
  assert (Hp32 : 2 ^ k < 2 ^ 32) by (apply Z.pow_lt_mono_r; lia).
  pose proof (Z.mod_pos_bound powHash (2 ^ k) Hp) as Hm.
  assert (E : HashSortingLastBits powHash (2 ^ k) = Ok (powHash mod 2 ^ k, powHash mod 2 ^ k)).
  { unfold HashSortingLastBits, big_word0. rewrite uwrap_id by (unfold is_uint; lia).
    rewrite Z.sub_1_r, <-Z.ones_equiv, Z.land_ones by lia. set (r := powHash mod 2 ^ k) in *.
    destruct (Z.eqb_spec r 0) as [->|]; [done|]. rewrite Z.abs_eq, (Z.mod_small r) by lia.
    rewrite uwrap_id by (unfold is_uint; lia). by rewrite (proj2 (Z.ltb_lt _ _)) by lia. }
  assert (V : forall chainID, ValidateHashSortingRule powHash (2 ^ k) chainID =
     Ok (bool_decide (powHash mod 2 ^ k = chainID mod 2 ^ k))).
  { intros c. unfold ValidateHashSortingRule. rewrite E; cbn [mbind outcome_bind].
    rewrite (proj2 (Z.eqb_neq _ 0)) by lia. f_equal.
    destruct (Z.eqb_spec (powHash mod 2 ^ k) (c mod 2 ^ k)); symmetry;
      [by apply bool_decide_true|by apply bool_decide_false]. }
  split; [done|]. split; [done|]. intros c Hc. rewrite V, (Z.mod_small c) by done.
  split; [intros [= Hb]; symmetry; by apply bool_decide_eq_true in Hb|].
  intros ->. by rewrite bool_decide_true.
Qed.

(** For the heights of blocks, the beacon epoch [m] is the range of heights
    from [(m-1)*4096] to [m*4096 - 1] and the shard epoch the same with 65536;
    in particular the genesis block is in epoch one, and the block [m*L] opens
    epoch [m+1]. *)
Theorem epoch_ranges h m :
  0 <= h < 2 ^ 31 ->
  (BeaconEpoch h = m <-> (m - 1) * 4096 <= h < m * 4096) /\
  (ShardEpoch h = m <-> (m - 1) * 65536 <= h < m * 65536).
Proof.
  intros Hh. unfold BeaconEpoch, ShardEpoch, KBeaconEpochLen, ShardEpochLen.
  rewrite !Z.quot_div_nonneg by lia. change (16 * 4096) with 65536.
  rewrite !swrap_id by (try lia; unfold is_int; Z.to_euclidean_division_equations; lia).
  split; split; intros; Z.to_euclidean_division_equations; lia.
Qed.

Lemma epoch_ranges_witness : BeaconEpoch 4096 = 2 /\ BeaconEpoch 0 = 1.
Proof.
  split; [apply (epoch_ranges 4096 2); lia|apply (epoch_ranges 0 1); lia].
Defined.

Lemma hash_sorting_slots_witness :
  HashSortingLastBits 123456 (2 ^ 12) = Ok (123456 mod 2 ^ 12, 123456 mod 2 ^ 12).
Proof. apply hash_sorting_slots; lia. Defined.
Lemma compact_target_roundtrip_witness :
  BigToCompact (CompactToBig (pack 0x1d 0xffff)) = pack 0x1d 0xffff /\
  CompactToBig (BigToCompact 123456789) <= 123456789.
Proof.
  split; [apply (proj1 compact_target_roundtrip); lia|].
  apply (proj2 compact_target_roundtrip); vm_compute; [reflexivity|discriminate].
Defined.
Lemma work_antitone_witness : CalcWork (pack 0x1d 0xffff) <= CalcWork (pack 0x1c 0xffff).
Proof.
  apply (proj1 (proj2 (work_antitone (pack 0x1c 0xffff) (pack 0x1d 0xffff)))).
  split; vm_compute; [reflexivity|discriminate].
Defined.
Lemma weight_and_ratio_positive_witness :
  exists d, GetDifficultyRatio (pack 0x1d 0xffff) (pack 0x1c 0xffff) = Ok d /\ 1 <= d.
Proof.
  apply (weight_and_ratio_positive 0 (pack 0x1c 0xffff) 0 (pack 0x1d 0xffff)). vm_compute. discriminate.
Defined.
