(* ===== verification/PrimeCert.v ===== *)
(** Primality certificates: Pocklington's criterion with an executable checker,
    and the certificate of the field prime of secp256k1. *)

From Stdlib Require Import Znumtheory Zmod.
From S2P Require Import Prelude.

(** * Modular exponentiation *)

Fixpoint pow_mod_pos (a : Z) (k : positive) (n : Z) : Z :=
  match k with
  | xH => a mod n
  | xO k => let b := pow_mod_pos a k n in (b * b) mod n
  | xI k => let b := pow_mod_pos a k n in ((b * b) mod n * a) mod n
  end.

Definition pow_mod (a k n : Z) : Z :=
  match k with Zpos k => pow_mod_pos a k n | _ => 1 mod n end.

Lemma pow_mod_pos_spec a k n : 0 < n -> pow_mod_pos a k n = a ^ Zpos k mod n.
Proof.
  intros Hn. induction k as [k IH|k IH|]; cbn [pow_mod_pos].
  - rewrite IH, <-Zmult_mod, Zmult_mod_idemp_l, <-Z.pow_twice_r, Z.mul_comm, <-Z.pow_succ_r by lia.
    reflexivity.
  - rewrite IH, <-Zmult_mod, <-Z.pow_twice_r. reflexivity.
  - by rewrite Z.pow_1_r.
Qed.

Lemma pow_mod_spec a k n : 0 < n -> 0 <= k -> pow_mod a k n = a ^ k mod n.
Proof. destruct k; intros; [done|by apply pow_mod_pos_spec|lia]. Qed.

(** * Congruence to one *)

Lemma pow_one_mod r x k : (r | x - 1) -> 0 <= k -> (r | x ^ k - 1).
Proof.
  intros Hx Hk. pattern k. apply natlike_ind; [by exists 0| |done].
  intros i Hi [c Hc]. rewrite Z.pow_succ_r by done. destruct Hx as [d Hd].
  exists (x * c + d). nia.
Qed.

Lemma mod_one_divide n x : 1 < n -> x mod n = 1 -> (n | x - 1).
Proof. intros Hn H. exists (x / n). pose proof (Z.div_mod x n). lia. Qed.

(** Every prime divisor of [n] is one more than a multiple of [q]. *)
Section divisor.
Context (n r q m a : Z).
Hypothesis (Hr : Z.prime r) (Hrn : (r | n)) (Hq : Z.prime q) (Ha : 0 <= a) (Hm : 0 < m).
Hypothesis (Hn : n - 1 = q * m).
Hypothesis (Hone : (n | a ^ (n - 1) - 1)) (Hgcd : Z.gcd (a ^ m - 1) n = 1).

Lemma order_power : (r | (a ^ m) ^ q - 1).
Proof.
  pose proof (Z.prime_ge_2 _ Hq). rewrite <-Z.pow_mul_r, (Z.mul_comm m), <-Hn by lia.
  by eapply Z.divide_trans.
Qed.

Lemma order_fermat : (r | (a ^ m) ^ (r - 1) - 1).
Proof.
  pose proof (Z.prime_ge_2 _ Hr). pose proof (Z.prime_ge_2 _ Hq).
  apply mod_one_divide; [lia|]. apply Z.fermat_nz; [done|].
  intros Hd%Z.mod_divide; [|lia]. assert (r | 1) as []%Z.divide_1_r; [|lia..].
  replace 1 with ((a ^ m) ^ q - ((a ^ m) ^ q - 1)) by lia.
  apply Z.divide_sub_r; [|apply order_power].
  replace q with (1 + (q - 1)) by lia. rewrite Z.pow_add_r, Z.pow_1_r by lia.
  by apply Z.divide_mul_l.
Qed.

Lemma factor_divides_pred : (q | r - 1).
Proof.
  pose proof (Z.prime_ge_2 _ Hr). pose proof (Z.prime_ge_2 _ Hq).
  destruct (Z.BoolSpec_divide q (r - 1)) as [?|Hnd]; [done|]. exfalso.
  destruct (Z.Bezout_coprime q (r - 1)) as (u & v & Huv); [by apply Z.coprime_prime_l|].
  set (t := Z.abs u + Z.abs v + 1).
  assert (Hx : (u + t * (r - 1)) * q = 1 + (r - 1) * (t * q - v)) by lia.
  assert (Hu : 0 <= u + t * (r - 1)) by (unfold t; nia).
  assert (Hv : 0 <= t * q - v) by (unfold t; nia).
  pose proof (pow_one_mod _ _ _ order_power Hu) as H1.
  pose proof (pow_one_mod _ _ _ order_fermat Hv) as H2.
  rewrite <-Z.pow_mul_r in H1 by lia. rewrite <-Z.pow_mul_r in H2 by lia.
  rewrite (Z.mul_comm q), Hx, Z.pow_add_r, Z.pow_1_r in H1 by nia.
  assert (H3 : (r | a ^ m - 1)).
  { replace (a ^ m - 1) with ((a ^ m * (a ^ m) ^ ((r - 1) * (t * q - v)) - 1) -
      a ^ m * ((a ^ m) ^ ((r - 1) * (t * q - v)) - 1)) by ring.
    apply Z.divide_sub_r; [done|by apply Z.divide_mul_r]. }
  assert (r | 1) as []%Z.divide_1_r; [|lia..]. rewrite <-Hgcd. by apply Z.gcd_greatest.
Qed.
End divisor.

(** * Products of distinct primes *)

Definition product (l : list Z) : Z := foldr Z.mul 1 l.

Lemma product_pos l : Forall Z.prime l -> 0 < product l.
Proof.
  induction 1 as [|q l Hq _ IH]; cbn [product foldr]; [lia|].
  pose proof (Z.prime_ge_2 _ Hq). fold (product l). nia.
Qed.

Lemma prime_divides_product q l : Z.prime q -> Forall Z.prime l -> (q | product l) -> q ∈ l.
Proof.
  intros Hq. induction 1 as [|x l Hx _ IH]; cbn [product foldr].
  - intros [H|H]%Z.divide_1_r; pose proof (Z.prime_ge_2 _ Hq); lia.
  - rewrite Z.divide_prime_mul by done. intros [H|H]; [|right; by apply IH].
    rewrite (Z.divide_prime_prime q x); [left|done..].
Qed.

Lemma product_divides l c :
  Forall Z.prime l -> NoDup l -> Forall (fun q => (q | c)) l -> (product l | c).
Proof.
  intros Hp Hnd. revert c. induction l as [|q l IH]; intros c Hd; cbn [product foldr]; [apply Z.divide_1_l|].
  apply Forall_cons in Hp as [Hq Hp]. apply Forall_cons in Hd as [[k ->] Hd].
  apply NoDup_cons in Hnd as [Hin Hnd].
  rewrite (Z.mul_comm k). apply Z.mul_divide_mono_l. apply (Z.gauss _ q).
  - rewrite (Z.mul_comm q). by apply IH.
  - apply Z.Symmetric_coprime, Z.coprime_prime_l; [done|].
    intros H. by apply Hin, prime_divides_product.
Qed.

(** * A composite number has a small prime divisor *)

Lemma prime_or_divisor n : 1 < n -> Z.prime n \/ exists d, 1 < d < n /\ (d | n).
Proof.
  intros Hn. destruct (prime_dec n) as [?%prime_alt|Hnp]; [by left|right].
  by apply not_prime_divide.
Qed.

Lemma prime_divisor n : 1 < n -> exists r, Z.prime r /\ (r | n).
Proof.
  intros Hn. assert (exists k, n < Z.of_nat k) as [k Hk] by (exists (S (Z.to_nat n)); lia).
  revert n Hn Hk. induction k as [|k IH]; intros n Hn Hk; [lia|].
  destruct (prime_or_divisor n Hn) as [?|(d & Hd & Hdn)]; [by exists n; split; [|exists 1; lia]|].
  destruct (IH d) as (r & Hr & Hrd); [lia..|]. exists r. split; [done|by eapply Z.divide_trans].
Qed.

Lemma composite_divisor n : 1 < n -> ~ Z.prime n -> exists r, Z.prime r /\ (r | n) /\ r * r <= n.
Proof.
  intros Hn Hnp. destruct (prime_or_divisor n Hn) as [?|(d & Hd & [k Hk])]; [done|].
  assert (exists s, 1 < s /\ (s | n) /\ s * s <= n) as (s & Hs & Hsn & Hss).
  { destruct (Z.le_ge_cases d k); [exists d|exists k]; split_and!; try nia; [by exists k|].
    exists d. lia. }
  destruct (prime_divisor s Hs) as (r & Hr & Hrs). exists r. split_and!; [done|by eapply Z.divide_trans|].
  apply Z.divide_pos_le in Hrs; [|lia]. pose proof (Z.prime_ge_2 _ Hr). nia.
Qed.

(** * The checkers *)

(** Trial division by [d], [d+1], ... up to the square root. *)
Fixpoint trial_division (fuel : nat) (d n : Z) : bool :=
  match fuel with
  | O => false
  | S fuel =>
      if n <? d * d then true
      else if n mod d =? 0 then false else trial_division fuel (d + 1) n
  end.

Lemma trial_division_no_divisor fuel d n e :
  trial_division fuel d n = true -> 0 < d <= e -> e * e <= n -> ~ (e | n).
Proof.
  revert d. induction fuel as [|fuel IH]; intros d; cbn [trial_division]; [done|].
  destruct (Z.ltb_spec n (d * d)); [nia|]. destruct (Z.eqb_spec (n mod d) 0) as [|Hd]; [done|].
  intros Ht Hde He Hen. destruct (decide (e = d)) as [->|Hne].
  - by apply Hd, Z.mod_divide; [lia|].
  - by apply (IH (d + 1)); [|lia|..].
Qed.

Lemma trial_division_prime fuel n : 1 < n -> trial_division fuel 2 n = true -> Z.prime n.
Proof.
  intros Hn Ht. destruct (prime_dec n) as [?%prime_alt|Hnp]; [done|]. rewrite <-prime_alt in Hnp. exfalso.
  destruct (composite_divisor n Hn Hnp) as (r & Hr & Hrn & Hrr). pose proof (Z.prime_ge_2 _ Hr).
  by eapply (trial_division_no_divisor fuel 2 n r); [|lia|..].
Qed.

Definition pocklington_check (n a : Z) (qs : list Z) : bool :=
  (1 <? n) && (0 <=? a) && (n <? product qs * product qs) && bool_decide (NoDup qs) &&
  (pow_mod a (n - 1) n =? 1) &&
  forallb (fun q => ((n - 1) mod q =? 0) && (Z.gcd (pow_mod a ((n - 1) / q) n - 1) n =? 1)) qs.

Lemma gcd_mod_pred x n : 0 < n -> Z.gcd (x mod n - 1) n = Z.gcd (x - 1) n.
Proof.
  intros Hn. rewrite !(Z.gcd_comm _ n), <-!(Z.gcd_mod _ n) by lia.
  by rewrite Zminus_mod_idemp_l.
Qed.

Lemma pocklington n a qs : pocklington_check n a qs = true -> Forall Z.prime qs -> Z.prime n.
Proof.
  unfold pocklington_check. rewrite !andb_true_iff, Z.ltb_lt, Z.leb_le, Z.ltb_lt, Z.eqb_eq.
  intros [[[[[Hn Ha] Hbig] Hnd] Hone] Hall] Hqs. apply bool_decide_eq_true in Hnd.
  rewrite pow_mod_spec in Hone by lia. apply mod_one_divide in Hone; [|done].
  destruct (prime_dec n) as [?%prime_alt|Hnp]; [done|]. rewrite <-prime_alt in Hnp. exfalso.
  destruct (composite_divisor n Hn Hnp) as (r & Hr & Hrn & Hrr). pose proof (Z.prime_ge_2 _ Hr).
  assert (Hd : (product qs | r - 1)).
  { apply product_divides; [done..|]. rewrite Forall_forall in Hqs |- *. intros q Hin.
    pose proof (Z.prime_ge_2 _ (Hqs q Hin)).
    rewrite forallb_forall in Hall. specialize (Hall q ltac:(by apply list_elem_of_In)).
    rewrite andb_true_iff, !Z.eqb_eq in Hall. destruct Hall as [Hm Hg].
    apply Z_div_exact_full_2 in Hm; [|lia].
    rewrite pow_mod_spec, gcd_mod_pred in Hg by (try apply Z.div_pos; lia).
    by apply (factor_divides_pred n r q ((n - 1) / q) a); try done; [by apply Hqs|nia]. }
  pose proof (product_pos qs Hqs). apply Z.divide_pos_le in Hd; [nia|lia].
Qed.

(** * The field prime of secp256k1 *)

Definition secp256k1_P : Z := 2 ^ 256 - 2 ^ 32 - 977.

Lemma secp256k1_factor2_prime : Z.prime 255515944373312847190720520512484175977.
Proof.
  apply (pocklington _ 2 [107590001; 7240687; 96557]); [vm_compute; reflexivity|].
  repeat constructor; (eapply (trial_division_prime (Z.to_nat 11000)); [lia|vm_compute; reflexivity]).
Qed.

Lemma secp256k1_factor1_prime :
  Z.prime 205115282021455665897114700593932402728804164701536103180137503955397371.
Proof.
  apply (pocklington _ 2 [255515944373312847190720520512484175977]); [vm_compute; reflexivity|].
  repeat constructor; apply secp256k1_factor2_prime.
Qed.

Lemma secp256k1_P_prime : Z.prime secp256k1_P.
Proof.
  apply (pocklington _ 2 [205115282021455665897114700593932402728804164701536103180137503955397371]);
    [vm_compute; reflexivity|].
  repeat constructor; apply secp256k1_factor1_prime.
Qed.
