(* ===== verification/Field.v ===== *)
(** Model of btcec/field.go: the field of secp256k1 in ten 32-bit words of base
    2^26.  Every operation is unrolled as in the source, with the wrap-around of
    [uint32] and [uint64] written out; the theorems say which integer modulo the
    prime each one computes and which magnitudes it accepts. *)

From Stdlib Require Import Zmod.
From S2P Require Import Prelude Big PrimeCert.

#[local] Open Scope go_scope.

(** * Constants and data *)

Definition twoBitsMask : Z := 0x3.
Definition fourBitsMask : Z := 0xf.
Definition sixBitsMask : Z := 0x3f.
Definition eightBitsMask : Z := 0xff.
Definition fieldWords : Z := 10.
Definition fieldBase : Z := 26.
Definition fieldBaseMask : Z := Z.shiftl 1 fieldBase - 1.
Definition fieldMSBBits : Z := 256 - fieldBase * (fieldWords - 1).
Definition fieldMSBMask : Z := Z.shiftl 1 fieldMSBBits - 1.
Definition fieldPrimeWordZero : Z := 0x3fffc2f.
Definition fieldPrimeWordOne : Z := 0x3ffffbf.

Definition fieldQBytes : list Z :=
  [0x3f] ++ replicate 27 0xff ++ [0xbf; 0xff; 0xff; 0x0c].

(** [n] is an array of ten [uint32]. *)
Record fieldVal := FieldVal {
  n0 : Z; n1 : Z; n2 : Z; n3 : Z; n4 : Z; n5 : Z; n6 : Z; n7 : Z; n8 : Z; n9 : Z
}.

#[local] Abbreviation u32 := (uwrap 32).
#[local] Abbreviation u64 := (uwrap 64).
#[local] Notation "a '.&' b" := (Z.land a b) (at level 40, left associativity).
#[local] Notation "a '.|' b" := (Z.lor a b) (at level 50, left associativity).
#[local] Notation "a '.>>' b" := (Z.shiftr a b) (at level 34, left associativity).
#[local] Notation "a '.<<' b" := (Z.shiftl a b) (at level 34, left associativity).

(** * Setters *)

Definition Zero : fieldVal := FieldVal 0 0 0 0 0 0 0 0 0 0.
Definition SetInt (ui : Z) : fieldVal := FieldVal (u32 ui) 0 0 0 0 0 0 0 0 0.

(** [b] is a 32-byte array; a [uint32] conversion of a byte and the shifts below
    stay within 32 bits. *)
Definition SetBytes (b : bytes) : fieldVal :=
  let at_ i := byte.unsigned (nth i b Byte.x00) in
  FieldVal
    (at_ 31%nat .| at_ 30%nat .<< 8 .| at_ 29%nat .<< 16 .| (at_ 28%nat .& twoBitsMask) .<< 24)
    (at_ 28%nat .>> 2 .| at_ 27%nat .<< 6 .| at_ 26%nat .<< 14 .| (at_ 25%nat .& fourBitsMask) .<< 22)
    (at_ 25%nat .>> 4 .| at_ 24%nat .<< 4 .| at_ 23%nat .<< 12 .| (at_ 22%nat .& sixBitsMask) .<< 20)
    (at_ 22%nat .>> 6 .| at_ 21%nat .<< 2 .| at_ 20%nat .<< 10 .| at_ 19%nat .<< 18)
    (at_ 18%nat .| at_ 17%nat .<< 8 .| at_ 16%nat .<< 16 .| (at_ 15%nat .& twoBitsMask) .<< 24)
    (at_ 15%nat .>> 2 .| at_ 14%nat .<< 6 .| at_ 13%nat .<< 14 .| (at_ 12%nat .& fourBitsMask) .<< 22)
    (at_ 12%nat .>> 4 .| at_ 11%nat .<< 4 .| at_ 10%nat .<< 12 .| (at_ 9%nat .& sixBitsMask) .<< 20)
    (at_ 9%nat .>> 6 .| at_ 8%nat .<< 2 .| at_ 7%nat .<< 10 .| at_ 6%nat .<< 18)
    (at_ 5%nat .| at_ 4%nat .<< 8 .| at_ 3%nat .<< 16 .| (at_ 2%nat .& twoBitsMask) .<< 24)
    (at_ 2%nat .>> 2 .| at_ 1%nat .<< 6 .| at_ 0%nat .<< 14).

(** [for i := range b { if i < 32 { b32[i+(32-len(b))] = b[i] } }]: the index is
    out of range, and the assignment panics, when [b] is longer than 32 bytes. *)
Definition SetByteSlice (b : bytes) : outcome fieldVal :=
  if 32 <? len b then Panic
  else Ok (SetBytes (replicate (32 - length b) Byte.x00 ++ b)).

(** * Normalization *)

(** The final reduction, on words in range but the last one: [m] is one when the
    value is at least the prime. *)
Definition normalize_final (t0 t1 t2 t3 t4 t5 t6 t7 t8 t9 : Z) : fieldVal :=
  dlet m := 1 in
  dlet m := m .& (if t9 =? fieldMSBMask then 1 else 0) in
  dlet m := m .& (if t2 .& t3 .& t4 .& t5 .& t6 .& t7 .& t8 =? fieldBaseMask then 1 else 0) in
  dlet m := m .& (if fieldBaseMask <? u32 (u32 (t0 + 977) .>> fieldBase + t1 + 64) then 1 else 0) in
  dlet m := m .| (if negb (t9 .>> fieldMSBBits =? 0) then 1 else 0) in
  dlet t0 := u32 (t0 + m * 977) in
  dlet t1 := u32 (t0 .>> fieldBase + t1 + m .<< 6) in
  dlet t0 := t0 .& fieldBaseMask in
  dlet t2 := u32 (t1 .>> fieldBase + t2) in
  dlet t1 := t1 .& fieldBaseMask in
  dlet t3 := u32 (t2 .>> fieldBase + t3) in
  dlet t2 := t2 .& fieldBaseMask in
  dlet t4 := u32 (t3 .>> fieldBase + t4) in
  dlet t3 := t3 .& fieldBaseMask in
  dlet t5 := u32 (t4 .>> fieldBase + t5) in
  dlet t4 := t4 .& fieldBaseMask in
  dlet t6 := u32 (t5 .>> fieldBase + t6) in
  dlet t5 := t5 .& fieldBaseMask in
  dlet t7 := u32 (t6 .>> fieldBase + t7) in
  dlet t6 := t6 .& fieldBaseMask in
  dlet t8 := u32 (t7 .>> fieldBase + t8) in
  dlet t7 := t7 .& fieldBaseMask in
  dlet t9 := u32 (t8 .>> fieldBase + t9) in
  dlet t8 := t8 .& fieldBaseMask in
  dlet t9 := t9 .& fieldMSBMask in
  FieldVal t0 t1 t2 t3 t4 t5 t6 t7 t8 t9.

Definition Normalize (f : fieldVal) : fieldVal :=
  dlet t9 := n9 f in
  dlet m := t9 .>> fieldMSBBits in
  dlet t9 := t9 .& fieldMSBMask in
  dlet t0 := u32 (n0 f + m * 977) in
  dlet t1 := u32 (t0 .>> fieldBase + n1 f + m .<< 6) in
  dlet t0 := t0 .& fieldBaseMask in
  dlet t2 := u32 (t1 .>> fieldBase + n2 f) in
  dlet t1 := t1 .& fieldBaseMask in
  dlet t3 := u32 (t2 .>> fieldBase + n3 f) in
  dlet t2 := t2 .& fieldBaseMask in
  dlet t4 := u32 (t3 .>> fieldBase + n4 f) in
  dlet t3 := t3 .& fieldBaseMask in
  dlet t5 := u32 (t4 .>> fieldBase + n5 f) in
  dlet t4 := t4 .& fieldBaseMask in
  dlet t6 := u32 (t5 .>> fieldBase + n6 f) in
  dlet t5 := t5 .& fieldBaseMask in
  dlet t7 := u32 (t6 .>> fieldBase + n7 f) in
  dlet t6 := t6 .& fieldBaseMask in
  dlet t8 := u32 (t7 .>> fieldBase + n8 f) in
  dlet t7 := t7 .& fieldBaseMask in
  dlet t9 := u32 (t8 .>> fieldBase + t9) in
  dlet t8 := t8 .& fieldBaseMask in
  normalize_final t0 t1 t2 t3 t4 t5 t6 t7 t8 t9.

(** * Bytes and tests *)

Definition PutBytes (f : fieldVal) : bytes :=
  map byte.of_Z
    [(n9 f .>> 14) .& eightBitsMask; (n9 f .>> 6) .& eightBitsMask;
     (n8 f .>> 24) .& twoBitsMask .| (n9 f .& sixBitsMask) .<< 2;
     (n8 f .>> 16) .& eightBitsMask; (n8 f .>> 8) .& eightBitsMask; n8 f .& eightBitsMask;
     (n7 f .>> 18) .& eightBitsMask; (n7 f .>> 10) .& eightBitsMask; (n7 f .>> 2) .& eightBitsMask;
     (n6 f .>> 20) .& sixBitsMask .| (n7 f .& twoBitsMask) .<< 6;
     (n6 f .>> 12) .& eightBitsMask; (n6 f .>> 4) .& eightBitsMask;
     (n5 f .>> 22) .& fourBitsMask .| (n6 f .& fourBitsMask) .<< 4;
     (n5 f .>> 14) .& eightBitsMask; (n5 f .>> 6) .& eightBitsMask;
     (n4 f .>> 24) .& twoBitsMask .| (n5 f .& sixBitsMask) .<< 2;
     (n4 f .>> 16) .& eightBitsMask; (n4 f .>> 8) .& eightBitsMask; n4 f .& eightBitsMask;
     (n3 f .>> 18) .& eightBitsMask; (n3 f .>> 10) .& eightBitsMask; (n3 f .>> 2) .& eightBitsMask;
     (n2 f .>> 20) .& sixBitsMask .| (n3 f .& twoBitsMask) .<< 6;
     (n2 f .>> 12) .& eightBitsMask; (n2 f .>> 4) .& eightBitsMask;
     (n1 f .>> 22) .& fourBitsMask .| (n2 f .& fourBitsMask) .<< 4;
     (n1 f .>> 14) .& eightBitsMask; (n1 f .>> 6) .& eightBitsMask;
     (n0 f .>> 24) .& twoBitsMask .| (n1 f .& sixBitsMask) .<< 2;
     (n0 f .>> 16) .& eightBitsMask; (n0 f .>> 8) .& eightBitsMask; n0 f .& eightBitsMask].

Definition Bytes (f : fieldVal) : bytes := PutBytes f.

Definition IsZero (f : fieldVal) : bool :=
  n0 f .| n1 f .| n2 f .| n3 f .| n4 f .| n5 f .| n6 f .| n7 f .| n8 f .| n9 f =? 0.

Definition IsOdd (f : fieldVal) : bool := n0 f .& 1 =? 1.

Definition Equals (f val : fieldVal) : bool :=
  let x := Z.lxor in
  x (n0 f) (n0 val) .| x (n1 f) (n1 val) .| x (n2 f) (n2 val) .| x (n3 f) (n3 val) .|
  x (n4 f) (n4 val) .| x (n5 f) (n5 val) .| x (n6 f) (n6 val) .| x (n7 f) (n7 val) .|
  x (n8 f) (n8 val) .| x (n9 f) (n9 val) =? 0.

(** * Addition and negation *)

Definition NegateVal (val : fieldVal) (magnitude : Z) : fieldVal :=
  FieldVal
    (u32 ((magnitude + 1) * fieldPrimeWordZero - n0 val))
    (u32 ((magnitude + 1) * fieldPrimeWordOne - n1 val))
    (u32 ((magnitude + 1) * fieldBaseMask - n2 val))
    (u32 ((magnitude + 1) * fieldBaseMask - n3 val))
    (u32 ((magnitude + 1) * fieldBaseMask - n4 val))
    (u32 ((magnitude + 1) * fieldBaseMask - n5 val))
    (u32 ((magnitude + 1) * fieldBaseMask - n6 val))
    (u32 ((magnitude + 1) * fieldBaseMask - n7 val))
    (u32 ((magnitude + 1) * fieldBaseMask - n8 val))
    (u32 ((magnitude + 1) * fieldMSBMask - n9 val)).

Definition AddInt (ui : Z) (f : fieldVal) : fieldVal :=
  FieldVal (u32 (n0 f + u32 ui)) (n1 f) (n2 f) (n3 f) (n4 f) (n5 f) (n6 f) (n7 f) (n8 f) (n9 f).

Definition Add (f val : fieldVal) : fieldVal :=
  FieldVal
    (u32 (n0 f + n0 val))
    (u32 (n1 f + n1 val))
    (u32 (n2 f + n2 val))
    (u32 (n3 f + n3 val))
    (u32 (n4 f + n4 val))
    (u32 (n5 f + n5 val))
    (u32 (n6 f + n6 val))
    (u32 (n7 f + n7 val))
    (u32 (n8 f + n8 val))
    (u32 (n9 f + n9 val)).

Definition Add2 (val val2 : fieldVal) : fieldVal := Add val val2.

Definition MulInt (val : Z) (f : fieldVal) : fieldVal :=
  FieldVal
    (u32 (n0 f * u32 val))
    (u32 (n1 f * u32 val))
    (u32 (n2 f * u32 val))
    (u32 (n3 f * u32 val))
    (u32 (n4 f * u32 val))
    (u32 (n5 f * u32 val))
    (u32 (n6 f * u32 val))
    (u32 (n7 f * u32 val))
    (u32 (n8 f * u32 val))
    (u32 (n9 f * u32 val)).

(** * Multiplication and squaring

    The two functions of the source differ in their column sums [s0], ..., [s18]
    only: the propagation of the carries and the reduction are the same code.  The
    products and sums of a column are taken in [uint64]; as every step wraps, one
    wrap around the sum is the same. *)

(** From the twenty terms to ten words: the terms above 2^260 are folded back with
    2^260 = 68719492368, then the bits above 2^256 with 2^256 = 4294968273. *)
Definition field_fold (t0 t1 t2 t3 t4 t5 t6 t7 t8 t9 t10 t11 t12 t13 t14 t15 t16 t17 t18 t19 : Z)
    : fieldVal :=
  dlet m := u64 (t0 + t10 * 15632) in
  dlet t0 := m .& fieldBaseMask in
  dlet m := u64 (m .>> fieldBase + t1 + t10 * 1024 + t11 * 15632) in
  dlet t1 := m .& fieldBaseMask in
  dlet m := u64 (m .>> fieldBase + t2 + t11 * 1024 + t12 * 15632) in
  dlet t2 := m .& fieldBaseMask in
  dlet m := u64 (m .>> fieldBase + t3 + t12 * 1024 + t13 * 15632) in
  dlet t3 := m .& fieldBaseMask in
  dlet m := u64 (m .>> fieldBase + t4 + t13 * 1024 + t14 * 15632) in
  dlet t4 := m .& fieldBaseMask in
  dlet m := u64 (m .>> fieldBase + t5 + t14 * 1024 + t15 * 15632) in
  dlet t5 := m .& fieldBaseMask in
  dlet m := u64 (m .>> fieldBase + t6 + t15 * 1024 + t16 * 15632) in
  dlet t6 := m .& fieldBaseMask in
  dlet m := u64 (m .>> fieldBase + t7 + t16 * 1024 + t17 * 15632) in
  dlet t7 := m .& fieldBaseMask in
  dlet m := u64 (m .>> fieldBase + t8 + t17 * 1024 + t18 * 15632) in
  dlet t8 := m .& fieldBaseMask in
  dlet m := u64 (m .>> fieldBase + t9 + t18 * 1024 + t19 * 68719492368) in
  dlet t9 := m .& fieldMSBMask in
  dlet m := m .>> fieldMSBBits in
  dlet d := u64 (t0 + m * 977) in
  dlet r0 := u32 (d .& fieldBaseMask) in
  dlet d := u64 (d .>> fieldBase + t1 + m * 64) in
  FieldVal r0 (u32 (d .& fieldBaseMask)) (u32 (u64 (d .>> fieldBase + t2))) (u32 t3) (u32 t4) (u32 t5)
    (u32 t6) (u32 t7) (u32 t8) (u32 t9).

Definition field_reduce (s0 s1 s2 s3 s4 s5 s6 s7 s8 s9 s10 s11 s12 s13 s14 s15 s16 s17 s18 : Z) : fieldVal :=
  dlet m := u64 s0 in
  dlet t0 := m .& fieldBaseMask in
  dlet m := u64 (m .>> fieldBase + s1) in
  dlet t1 := m .& fieldBaseMask in
  dlet m := u64 (m .>> fieldBase + s2) in
  dlet t2 := m .& fieldBaseMask in
  dlet m := u64 (m .>> fieldBase + s3) in
  dlet t3 := m .& fieldBaseMask in
  dlet m := u64 (m .>> fieldBase + s4) in
  dlet t4 := m .& fieldBaseMask in
  dlet m := u64 (m .>> fieldBase + s5) in
  dlet t5 := m .& fieldBaseMask in
  dlet m := u64 (m .>> fieldBase + s6) in
  dlet t6 := m .& fieldBaseMask in
  dlet m := u64 (m .>> fieldBase + s7) in
  dlet t7 := m .& fieldBaseMask in
  dlet m := u64 (m .>> fieldBase + s8) in
  dlet t8 := m .& fieldBaseMask in
  dlet m := u64 (m .>> fieldBase + s9) in
  dlet t9 := m .& fieldBaseMask in
  dlet m := u64 (m .>> fieldBase + s10) in
  dlet t10 := m .& fieldBaseMask in
  dlet m := u64 (m .>> fieldBase + s11) in
  dlet t11 := m .& fieldBaseMask in
  dlet m := u64 (m .>> fieldBase + s12) in
  dlet t12 := m .& fieldBaseMask in
  dlet m := u64 (m .>> fieldBase + s13) in
  dlet t13 := m .& fieldBaseMask in
  dlet m := u64 (m .>> fieldBase + s14) in
  dlet t14 := m .& fieldBaseMask in
  dlet m := u64 (m .>> fieldBase + s15) in
  dlet t15 := m .& fieldBaseMask in
  dlet m := u64 (m .>> fieldBase + s16) in
  dlet t16 := m .& fieldBaseMask in
  dlet m := u64 (m .>> fieldBase + s17) in
  dlet t17 := m .& fieldBaseMask in
  dlet m := u64 (m .>> fieldBase + s18) in
  dlet t18 := m .& fieldBaseMask in
  dlet t19 := m .>> fieldBase in
  field_fold t0 t1 t2 t3 t4 t5 t6 t7 t8 t9 t10 t11 t12 t13 t14 t15 t16 t17 t18 t19.

Definition Mul2 (val val2 : fieldVal) : fieldVal :=
  field_reduce
    (n0 val * n0 val2)
    (n0 val * n1 val2 + n1 val * n0 val2)
    (n0 val * n2 val2 + n1 val * n1 val2 + n2 val * n0 val2)
    (n0 val * n3 val2 + n1 val * n2 val2 + n2 val * n1 val2 + n3 val * n0 val2)
    (n0 val * n4 val2 + n1 val * n3 val2 + n2 val * n2 val2 + n3 val * n1 val2 + n4 val * n0 val2)
    (n0 val * n5 val2 + n1 val * n4 val2 + n2 val * n3 val2 + n3 val * n2 val2 +
     n4 val * n1 val2 + n5 val * n0 val2)
    (n0 val * n6 val2 + n1 val * n5 val2 + n2 val * n4 val2 + n3 val * n3 val2 +
     n4 val * n2 val2 + n5 val * n1 val2 + n6 val * n0 val2)
    (n0 val * n7 val2 + n1 val * n6 val2 + n2 val * n5 val2 + n3 val * n4 val2 +
     n4 val * n3 val2 + n5 val * n2 val2 + n6 val * n1 val2 + n7 val * n0 val2)
    (n0 val * n8 val2 + n1 val * n7 val2 + n2 val * n6 val2 + n3 val * n5 val2 +
     n4 val * n4 val2 + n5 val * n3 val2 + n6 val * n2 val2 + n7 val * n1 val2 + n8 val * n0 val2)
    (n0 val * n9 val2 + n1 val * n8 val2 + n2 val * n7 val2 + n3 val * n6 val2 +
     n4 val * n5 val2 + n5 val * n4 val2 + n6 val * n3 val2 + n7 val * n2 val2 +
     n8 val * n1 val2 + n9 val * n0 val2)
    (n1 val * n9 val2 + n2 val * n8 val2 + n3 val * n7 val2 + n4 val * n6 val2 +
     n5 val * n5 val2 + n6 val * n4 val2 + n7 val * n3 val2 + n8 val * n2 val2 + n9 val * n1 val2)
    (n2 val * n9 val2 + n3 val * n8 val2 + n4 val * n7 val2 + n5 val * n6 val2 +
     n6 val * n5 val2 + n7 val * n4 val2 + n8 val * n3 val2 + n9 val * n2 val2)
    (n3 val * n9 val2 + n4 val * n8 val2 + n5 val * n7 val2 + n6 val * n6 val2 +
     n7 val * n5 val2 + n8 val * n4 val2 + n9 val * n3 val2)
    (n4 val * n9 val2 + n5 val * n8 val2 + n6 val * n7 val2 + n7 val * n6 val2 +
     n8 val * n5 val2 + n9 val * n4 val2)
    (n5 val * n9 val2 + n6 val * n8 val2 + n7 val * n7 val2 + n8 val * n6 val2 + n9 val * n5 val2)
    (n6 val * n9 val2 + n7 val * n8 val2 + n8 val * n7 val2 + n9 val * n6 val2)
    (n7 val * n9 val2 + n8 val * n8 val2 + n9 val * n7 val2)
    (n8 val * n9 val2 + n9 val * n8 val2)
    (n9 val * n9 val2).

Definition Mul (f val : fieldVal) : fieldVal := Mul2 f val.

Definition SquareVal (val : fieldVal) : fieldVal :=
  field_reduce
    (n0 val * n0 val)
    (2 * n0 val * n1 val)
    (2 * n0 val * n2 val + n1 val * n1 val)
    (2 * n0 val * n3 val + 2 * n1 val * n2 val)
    (2 * n0 val * n4 val + 2 * n1 val * n3 val + n2 val * n2 val)
    (2 * n0 val * n5 val + 2 * n1 val * n4 val + 2 * n2 val * n3 val)
    (2 * n0 val * n6 val + 2 * n1 val * n5 val + 2 * n2 val * n4 val + n3 val * n3 val)
    (2 * n0 val * n7 val + 2 * n1 val * n6 val + 2 * n2 val * n5 val + 2 * n3 val * n4 val)
    (2 * n0 val * n8 val + 2 * n1 val * n7 val + 2 * n2 val * n6 val + 2 * n3 val * n5 val +
     n4 val * n4 val)
    (2 * n0 val * n9 val + 2 * n1 val * n8 val + 2 * n2 val * n7 val + 2 * n3 val * n6 val +
     2 * n4 val * n5 val)
    (2 * n1 val * n9 val + 2 * n2 val * n8 val + 2 * n3 val * n7 val + 2 * n4 val * n6 val +
     n5 val * n5 val)
    (2 * n2 val * n9 val + 2 * n3 val * n8 val + 2 * n4 val * n7 val + 2 * n5 val * n6 val)
    (2 * n3 val * n9 val + 2 * n4 val * n8 val + 2 * n5 val * n7 val + n6 val * n6 val)
    (2 * n4 val * n9 val + 2 * n5 val * n8 val + 2 * n6 val * n7 val)
    (2 * n5 val * n9 val + 2 * n6 val * n8 val + n7 val * n7 val)
    (2 * n6 val * n9 val + 2 * n7 val * n8 val)
    (2 * n7 val * n9 val + n8 val * n8 val)
    (2 * n8 val * n9 val)
    (n9 val * n9 val).

Definition Square (f : fieldVal) : fieldVal := SquareVal f.

(** * Inverse and square root *)

(** [f.Square().Square().Square().Square().Square()] *)
Definition Square5 (f : fieldVal) : fieldVal := Square (Square (Square (Square (Square f)))).

Definition Inverse (f : fieldVal) : fieldVal :=
  dlet a2 := SquareVal f in
  dlet a3 := Mul2 a2 f in
  dlet a4 := SquareVal a2 in
  dlet a10 := Mul (SquareVal a4) a2 in
  dlet a11 := Mul2 a10 f in
  dlet a21 := Mul2 a10 a11 in
  dlet a42 := SquareVal a21 in
  dlet a45 := Mul2 a42 a3 in
  dlet a63 := Mul2 a42 a21 in
  dlet a1019 := Mul (Square (Square (Square (SquareVal a63)))) a11 in
  dlet a1023 := Mul2 a1019 a4 in
  dlet f := a63 in
  dlet f := Square5 f in
  dlet f := Square5 f in
  dlet f := Mul f a1023 in
  dlet f := Square5 f in
  dlet f := Square5 f in
  dlet f := Mul f a1023 in
  dlet f := Square5 f in
  dlet f := Square5 f in
  dlet f := Mul f a1023 in
  dlet f := Square5 f in
  dlet f := Square5 f in
  dlet f := Mul f a1023 in
  dlet f := Square5 f in
  dlet f := Square5 f in
  dlet f := Mul f a1023 in
  dlet f := Square5 f in
  dlet f := Square5 f in
  dlet f := Mul f a1023 in
  dlet f := Square5 f in
  dlet f := Square5 f in
  dlet f := Mul f a1023 in
  dlet f := Square5 f in
  dlet f := Square5 f in
  dlet f := Mul f a1023 in
  dlet f := Square5 f in
  dlet f := Square5 f in
  dlet f := Mul f a1023 in
  dlet f := Square5 f in
  dlet f := Square5 f in
  dlet f := Mul f a1023 in
  dlet f := Square5 f in
  dlet f := Square5 f in
  dlet f := Mul f a1023 in
  dlet f := Square5 f in
  dlet f := Square5 f in
  dlet f := Mul f a1023 in
  dlet f := Square5 f in
  dlet f := Square5 f in
  dlet f := Mul f a1023 in
  dlet f := Square5 f in
  dlet f := Square5 f in
  dlet f := Mul f a1023 in
  dlet f := Square5 f in
  dlet f := Square5 f in
  dlet f := Mul f a1023 in
  dlet f := Square5 f in
  dlet f := Square5 f in
  dlet f := Mul f a1023 in
  dlet f := Square5 f in
  dlet f := Square5 f in
  dlet f := Mul f a1023 in
  dlet f := Square5 f in
  dlet f := Square5 f in
  dlet f := Mul f a1023 in
  dlet f := Square5 f in
  dlet f := Square5 f in
  dlet f := Mul f a1023 in
  dlet f := Square5 f in
  dlet f := Square5 f in
  dlet f := Mul f a1023 in
  dlet f := Square5 f in
  dlet f := Square5 f in
  dlet f := Mul f a1023 in
  dlet f := Square5 f in
  dlet f := Square5 f in
  dlet f := Mul f a1019 in
  dlet f := Square5 f in
  dlet f := Square5 f in
  dlet f := Mul f a1023 in
  dlet f := Square5 f in
  dlet f := Square5 f in
  dlet f := Mul f a1023 in
  dlet f := Square5 f in
  dlet f := Square5 f in
  Mul f a45.

(** The body of the loop of [SqrtVal].  [x] is a pointer: [x_of f] is what it
    points to while the receiver holds [f], a constant unless [x] is the receiver
    itself. *)
Definition sqrt_byte (x_of : fieldVal -> fieldVal) (f : fieldVal) (b : Z) : fieldVal :=
  let mul f := Mul f (x_of f) in
  let square_mul f := mul (Square f) in
  if b =? 0xff then
    square_mul (square_mul (square_mul (square_mul (square_mul (square_mul (square_mul (square_mul f)))))))
  else if b =? 0x3f then
    square_mul (square_mul (square_mul (square_mul (square_mul (mul f)))))
  else if b =? 0xbf then
    square_mul (square_mul (square_mul (square_mul (square_mul (square_mul (Square (square_mul f)))))))
  else
    Square (Square (square_mul (square_mul (Square (Square (Square (Square f))))))).

Definition sqrt_loop (x_of : fieldVal -> fieldVal) : fieldVal :=
  fold_left (sqrt_byte x_of) fieldQBytes (SetInt 1).

(** [f.SqrtVal(x)] with [x] another variable, and [f.Sqrt()], where it is [f]. *)
Definition SqrtVal (x : fieldVal) : fieldVal := sqrt_loop (fun _ => x).
Definition Sqrt (f : fieldVal) : fieldVal := sqrt_loop (fun f => f).

(** * Values, magnitudes *)

(** The integer a field value stands for. *)
Definition value (f : fieldVal) : Z :=
  n0 f + 2 ^ 26 * n1 f + 2 ^ 52 * n2 f + 2 ^ 78 * n3 f + 2 ^ 104 * n4 f + 2 ^ 130 * n5 f +
  2 ^ 156 * n6 f + 2 ^ 182 * n7 f + 2 ^ 208 * n8 f + 2 ^ 234 * n9 f.

(** The bound of a word of magnitude one: a product leaves up to 19 bits above
    the 26 bits of word two. *)
Definition wordMax : Z := 2 ^ 26 + 2 ^ 19.

Definition magnitude (k : Z) (f : fieldVal) : Prop :=
  0 <= n0 f <= k * wordMax /\ 0 <= n1 f <= k * wordMax /\ 0 <= n2 f <= k * wordMax /\
  0 <= n3 f <= k * wordMax /\ 0 <= n4 f <= k * wordMax /\ 0 <= n5 f <= k * wordMax /\
  0 <= n6 f <= k * wordMax /\ 0 <= n7 f <= k * wordMax /\ 0 <= n8 f <= k * wordMax /\
  0 <= n9 f <= k * fieldMSBMask.

(** Every word within its own bits: the value is below 2^256. *)
Definition normalized (f : fieldVal) : Prop :=
  (0 <= n0 f < 2 ^ 26 /\ 0 <= n1 f < 2 ^ 26 /\ 0 <= n2 f < 2 ^ 26 /\ 0 <= n3 f < 2 ^ 26 /\
   0 <= n4 f < 2 ^ 26 /\ 0 <= n5 f < 2 ^ 26 /\ 0 <= n6 f < 2 ^ 26 /\ 0 <= n7 f < 2 ^ 26 /\
   0 <= n8 f < 2 ^ 26 /\ 0 <= n9 f < 2 ^ 22).

(** * Splitting a word *)

Lemma land_base m : m .& fieldBaseMask = m mod 2 ^ 26.
Proof. apply (Z.land_ones m 26). lia. Qed.
Lemma land_msb m : m .& fieldMSBMask = m mod 2 ^ 22.
Proof. apply (Z.land_ones m 22). lia. Qed.
Lemma shiftr_base m : m .>> fieldBase = m / 2 ^ 26.
Proof. apply (Z.shiftr_div_pow2 m 26). lia. Qed.
Lemma shiftr_msb m : m .>> fieldMSBBits = m / 2 ^ 22.
Proof. apply (Z.shiftr_div_pow2 m 22). lia. Qed.

(** Low and high part of a word, as one equation. *)
Lemma split_base m : m = 2 ^ 26 * (m .>> fieldBase) + m .& fieldBaseMask /\ 0 <= m .& fieldBaseMask < 2 ^ 26.
Proof. rewrite land_base, shiftr_base. split; [apply Z.div_mod; lia|apply Z.mod_pos_bound; lia]. Qed.
Lemma split_msb m : m = 2 ^ 22 * (m .>> fieldMSBBits) + m .& fieldMSBMask /\ 0 <= m .& fieldMSBMask < 2 ^ 22.
Proof. rewrite land_msb, shiftr_msb. split; [apply Z.div_mod; lia|apply Z.mod_pos_bound; lia]. Qed.

(** * The reduction *)

Definition word (t : Z) : Prop := 0 <= t < 2 ^ 26.

(** A sum that fits its [uint64], its low part and its carry. *)
Lemma fold_step e b :
  0 <= e <= b -> b < 2 ^ 64 ->
  exists m, m = u64 e /\ m = e /\ m = 2 ^ 26 * (m .>> fieldBase) + m .& fieldBaseMask /\
    word (m .& fieldBaseMask) /\ 0 <= m .>> fieldBase <= b / 2 ^ 26.
Proof.
  intros He Hb. exists e. rewrite uwrap_id by (unfold is_uint; lia).
  pose proof (split_base e) as [E ?]. split_and!; try done.
  - rewrite shiftr_base. by apply Z.div_pos; lia.
  - rewrite shiftr_base. apply Z.div_le_mono; lia.
Qed.

(** Names a sum [m], its low part [t] and its carry [h], given a bound of the sum. *)
Ltac carry_step b m t h :=
  let Em := fresh in let Et := fresh in let m' := fresh in let Em' := fresh in
  let Ee := fresh "E" m in let Hs := fresh "S" m in let Hh := fresh "H" h in
  let Ht := fresh "H" t in
  dlet_intro m Em;
  lazymatch type of Em with
  | _ = u64 ?e => destruct (fold_step e b ltac:(lia) ltac:(reflexivity)) as (m' & Em' & Ee & Hs & Ht & Hh)
  end;
  rewrite <-Em' in Em; subst m'; clear Em';
  dlet_intro t Et; rewrite <-Et in Hs, Ht; clear Et;
  set (h := m .>> fieldBase) in *; clearbody h; unfold word in Ht.

(** Puts the goal of the two lemmas below in the form [P (dlet ...)]. *)
Ltac as_predicate :=
  match goal with |- magnitude 1 ?x /\ (exists k, ?l = _) =>
    change ((fun r => magnitude 1 r /\ exists k, l = value r + secp256k1_P * k) x) end.

Lemma field_fold_spec t0 t1 t2 t3 t4 t5 t6 t7 t8 t9 t10 t11 t12 t13 t14 t15 t16 t17 t18 t19 :
  Forall word [t0; t1; t2; t3; t4; t5; t6; t7; t8; t9; t10; t11; t12; t13; t14; t15; t16; t17; t18] ->
  0 <= t19 <= 2 ^ 24 + 2 ^ 12 ->
  let r := field_fold t0 t1 t2 t3 t4 t5 t6 t7 t8 t9 t10 t11 t12 t13 t14 t15 t16 t17 t18 t19 in
  magnitude 1 r /\
  exists k,
    t0 + 2 ^ 26 * t1 + 2 ^ 52 * t2 + 2 ^ 78 * t3 + 2 ^ 104 * t4 + 2 ^ 130 * t5 + 2 ^ 156 * t6 +
    2 ^ 182 * t7 + 2 ^ 208 * t8 + 2 ^ 234 * t9 + 2 ^ 260 * t10 + 2 ^ 286 * t11 + 2 ^ 312 * t12 +
    2 ^ 338 * t13 + 2 ^ 364 * t14 + 2 ^ 390 * t15 + 2 ^ 416 * t16 + 2 ^ 442 * t17 + 2 ^ 468 * t18 +
    2 ^ 494 * t19 = value r + secp256k1_P * k.
Proof.
  rewrite !Forall_cons. unfold word at 1 2 3 4 5 6 7 8 9 10 11 12 13 14 15 16 17 18 19.
  intros Hw Ht19. destruct_and! Hw. cbv zeta. unfold field_fold.
  as_predicate.
  carry_step (2 ^ 41) m0 u0 h0. carry_step (2 ^ 41) m1 u1 h1. carry_step (2 ^ 41) m2 u2 h2.
  carry_step (2 ^ 41) m3 u3 h3. carry_step (2 ^ 41) m4 u4 h4. carry_step (2 ^ 41) m5 u5 h5.
  carry_step (2 ^ 41) m6 u6 h6. carry_step (2 ^ 41) m7 u7 h7. carry_step (2 ^ 41) m8 u8 h8.
  dlet_intro m9 E9. rewrite uwrap_id in E9 by (unfold is_uint; lia).
  destruct (split_msb m9) as [S9 R9]. dlet_intro u9 Eu9. rewrite <-Eu9 in S9, R9. clear Eu9.
  dlet_intro q Q9. rewrite <-Q9 in S9. clear Q9. assert (Hq : 0 <= q <= 2 ^ 38 + 2 ^ 27) by lia.
  dlet_intro d Ed. rewrite uwrap_id in Ed by (unfold is_uint; lia).
  destruct (split_base d) as [Sd Rd]. dlet_intro r0 Er0.
  rewrite uwrap_id in Er0 by (unfold is_uint; lia). rewrite <-Er0 in Sd, Rd. clear Er0.
  set (hd := d .>> fieldBase) in *. clearbody hd.
  dlet_intro d' Ed'. rewrite uwrap_id in Ed' by (unfold is_uint; lia).
  destruct (split_base d') as [Sd' Rd']. set (r1 := d' .& fieldBaseMask) in *. clearbody r1.
  set (hd' := d' .>> fieldBase) in *. clearbody hd'.
  rewrite (uwrap_id 64) by (unfold is_uint; lia). repeat rewrite uwrap_id by (unfold is_uint; lia).
  unfold magnitude, value, wordMax, fieldMSBMask; cbn [n0 n1 n2 n3 n4 n5 n6 n7 n8 n9].
  change (Z.shiftl 1 fieldMSBBits) with (2 ^ 22). split; [lia|].
  exists (16 * (t10 + 2 ^ 26 * t11 + 2 ^ 52 * t12 + 2 ^ 78 * t13 + 2 ^ 104 * t14 + 2 ^ 130 * t15 +
                2 ^ 156 * t16 + 2 ^ 182 * t17 + 2 ^ 208 * t18 + 2 ^ 234 * t19) + q).
  unfold secp256k1_P. lia.
Qed.

Definition columns_value (s0 s1 s2 s3 s4 s5 s6 s7 s8 s9 s10 s11 s12 s13 s14 s15 s16 s17 s18 : Z) : Z :=
  s0 + 2 ^ 26 * s1 + 2 ^ 52 * s2 + 2 ^ 78 * s3 + 2 ^ 104 * s4 + 2 ^ 130 * s5 + 2 ^ 156 * s6 +
  2 ^ 182 * s7 + 2 ^ 208 * s8 + 2 ^ 234 * s9 + 2 ^ 260 * s10 + 2 ^ 286 * s11 + 2 ^ 312 * s12 +
  2 ^ 338 * s13 + 2 ^ 364 * s14 + 2 ^ 390 * s15 + 2 ^ 416 * s16 + 2 ^ 442 * s17 + 2 ^ 468 * s18.

Definition column (s : Z) : Prop := 0 <= s <= 2 ^ 63.

Lemma field_reduce_spec s0 s1 s2 s3 s4 s5 s6 s7 s8 s9 s10 s11 s12 s13 s14 s15 s16 s17 s18 :
  Forall column [s0; s1; s2; s3; s4; s5; s6; s7; s8; s9; s10; s11; s12; s13; s14; s15; s16; s17] ->
  0 <= s18 <= 2 ^ 50 ->
  let r := field_reduce s0 s1 s2 s3 s4 s5 s6 s7 s8 s9 s10 s11 s12 s13 s14 s15 s16 s17 s18 in
  magnitude 1 r /\
  exists k, columns_value s0 s1 s2 s3 s4 s5 s6 s7 s8 s9 s10 s11 s12 s13 s14 s15 s16 s17 s18 =
            value r + secp256k1_P * k.
Proof.
  rewrite !Forall_cons. unfold column. intros Hs Hs18. destruct_and! Hs. cbv zeta.
  unfold field_reduce. as_predicate.
  carry_step (2 ^ 63) m0 t0 h0. carry_step (2 ^ 63 + 2 ^ 38) m1 t1 h1.
  carry_step (2 ^ 63 + 2 ^ 38) m2 t2 h2. carry_step (2 ^ 63 + 2 ^ 38) m3 t3 h3.
  carry_step (2 ^ 63 + 2 ^ 38) m4 t4 h4. carry_step (2 ^ 63 + 2 ^ 38) m5 t5 h5.
  carry_step (2 ^ 63 + 2 ^ 38) m6 t6 h6. carry_step (2 ^ 63 + 2 ^ 38) m7 t7 h7.
  carry_step (2 ^ 63 + 2 ^ 38) m8 t8 h8. carry_step (2 ^ 63 + 2 ^ 38) m9 t9 h9.
  carry_step (2 ^ 63 + 2 ^ 38) m10 t10 h10. carry_step (2 ^ 63 + 2 ^ 38) m11 t11 h11.
  carry_step (2 ^ 63 + 2 ^ 38) m12 t12 h12. carry_step (2 ^ 63 + 2 ^ 38) m13 t13 h13.
  carry_step (2 ^ 63 + 2 ^ 38) m14 t14 h14. carry_step (2 ^ 63 + 2 ^ 38) m15 t15 h15.
  carry_step (2 ^ 63 + 2 ^ 38) m16 t16 h16. carry_step (2 ^ 63 + 2 ^ 38) m17 t17 h17.
  carry_step (2 ^ 50 + 2 ^ 38) m18 t18 h18.
  dlet_intro t19 E19.
  destruct (field_fold_spec t0 t1 t2 t3 t4 t5 t6 t7 t8 t9 t10 t11 t12 t13 t14 t15 t16 t17 t18 t19)
    as [Hm [k Hk]]; [rewrite !Forall_cons; unfold word; split_and!; try lia; done|lia|].
  split; [exact Hm|]. exists k. rewrite <-Hk. unfold columns_value. lia.
Qed.

(** * The product and the square *)

Lemma product_bound a b A B : 0 <= a <= A -> 0 <= b <= B -> 0 <= a * b <= A * B.
Proof. nia. Qed.
Lemma double_product_bound a b A B : 0 <= a <= A -> 0 <= b <= B -> 0 <= 2 * a * b <= 2 * (A * B).
Proof. nia. Qed.

(** Replaces the products of a column by variables with their bounds. *)
Ltac column_bound :=
  unfold column;
  repeat match goal with
  | |- context [2 * ?x * ?y] =>
      generalize (double_product_bound x y (8 * wordMax) (8 * wordMax) ltac:(assumption) ltac:(assumption));
      generalize (2 * x * y); intros ? ?
  | |- context [?x * ?y] =>
      generalize (product_bound x y (8 * wordMax) (8 * wordMax) ltac:(assumption) ltac:(assumption));
      generalize (x * y); intros ? ?
  end;
  unfold wordMax in *; lia.

Lemma magnitude_mono k k' f : magnitude k f -> k <= k' -> magnitude k' f.
Proof. unfold magnitude, wordMax, fieldMSBMask. change (1 .<< fieldMSBBits) with (2 ^ 22). lia. Qed.

(** The last word of a value of magnitude 8, with the bound of the other words. *)
Lemma last_word x : 0 <= x <= 8 * fieldMSBMask -> 0 <= x <= 8 * wordMax.
Proof. unfold fieldMSBMask, wordMax. change (1 .<< fieldMSBBits) with (2 ^ 22). lia. Qed.

Lemma last_product x y :
  0 <= x <= 8 * fieldMSBMask -> 0 <= y <= 8 * fieldMSBMask -> 0 <= x * y <= 2 ^ 50.
Proof.
  intros Hx Hy. pose proof (product_bound _ _ _ _ Hx Hy). 
  assert (8 * fieldMSBMask * (8 * fieldMSBMask) <= 2 ^ 50) by (vm_compute; discriminate). lia.
Qed.

Lemma Mul2_columns a b :
  magnitude 8 a -> magnitude 8 b ->
  magnitude 1 (Mul2 a b) /\ exists k, value a * value b = value (Mul2 a b) + secp256k1_P * k.
Proof.
  destruct a as [a0 a1 a2 a3 a4 a5 a6 a7 a8 a9], b as [b0 b1 b2 b3 b4 b5 b6 b7 b8 b9].
  unfold magnitude at 1 2; cbn [n0 n1 n2 n3 n4 n5 n6 n7 n8 n9]. 
  intros (A0 & A1 & A2 & A3 & A4 & A5 & A6 & A7 & A8 & A9) (B0 & B1 & B2 & B3 & B4 & B5 & B6 & B7 & B8 & B9).
  pose proof (last_product _ _ A9 B9). apply last_word in A9, B9.
  unfold Mul2; cbn [n0 n1 n2 n3 n4 n5 n6 n7 n8 n9].
  match goal with |- magnitude 1 (field_reduce ?s0 ?s1 ?s2 ?s3 ?s4 ?s5 ?s6 ?s7 ?s8 ?s9 ?s10 ?s11 ?s12
      ?s13 ?s14 ?s15 ?s16 ?s17 ?s18) /\ _ =>
    destruct (field_reduce_spec s0 s1 s2 s3 s4 s5 s6 s7 s8 s9 s10 s11 s12 s13 s14 s15 s16 s17 s18)
      as [Hm [k Hk]] end; [|assumption|].
  - rewrite !Forall_cons, Forall_nil. split_and!; [column_bound..|exact I].
  - split; [exact Hm|]. exists k. rewrite <-Hk. unfold columns_value, value.
    cbn [n0 n1 n2 n3 n4 n5 n6 n7 n8 n9]. ring.
Qed.

Lemma SquareVal_Mul2 a : SquareVal a = Mul2 a a.
Proof. unfold SquareVal, Mul2. f_equal; ring. Qed.

Lemma Mul2_value f g :
  magnitude 8 f -> magnitude 8 g ->
  magnitude 1 (Mul2 f g) /\
  value (Mul2 f g) mod secp256k1_P = (value f * value g) mod secp256k1_P.
Proof.
  intros Hf Hg. destruct (Mul2_columns f g Hf Hg) as [Hm [k Hk]]. split; [done|].
  by rewrite Hk, (Z.mul_comm secp256k1_P), Z.mod_add.
Qed.

(** * Normalization *)

Lemma land_max a b :
  word a -> word b -> a .& b = fieldBaseMask <-> a = fieldBaseMask /\ b = fieldBaseMask.
Proof.
  intros Ha Hb. split; [|by intros [-> ->]]. intros H.
  assert (Hid : forall x, word x -> x .& fieldBaseMask = x)
    by (intros x Hx; rewrite land_base; by apply Z.mod_small).
  split.
  - transitivity (a .& (a .& b)); [rewrite H; symmetry; auto|].
    by rewrite Z.land_assoc, Z.land_diag.
  - transitivity (b .& (a .& b)); [rewrite H; symmetry; auto|].
    by rewrite Z.land_comm, <-Z.land_assoc, Z.land_diag.
Qed.

Lemma word_land a b : word a -> word b -> word (a .& b).
Proof.
  intros Ha Hb. assert (E : a .& b = (a .& b) .& fieldBaseMask).
  { rewrite <-Z.land_assoc. f_equal. rewrite land_base. symmetry. by apply Z.mod_small. }
  rewrite E, land_base. apply Z.mod_pos_bound. lia.
Qed.

(** Names a 32-bit sum that does not overflow, then its low part. *)
Ltac carry32 x :=
  let Ex := fresh "E" x in let Sx := fresh "S" x in let Rx := fresh "R" x in
  dlet_intro x Ex; rewrite uwrap_id in Ex by (unfold is_uint; lia);
  destruct (split_base x) as [Sx Rx].
Ltac low32 x t :=
  let Et := fresh in
  dlet_intro t Et;
  match goal with Sx : x = _ + x .& fieldBaseMask, Rx : 0 <= x .& fieldBaseMask < _ |- _ =>
    rewrite <-Et in Sx, Rx end; clear Et.

Definition reduced (f : fieldVal) (v : Z) : Prop := normalized f /\ value f = v mod secp256k1_P.

Section final.
Context (t0 t1 t2 t3 t4 t5 t6 t7 t8 t9 : Z).
Hypothesis (H0 : word t0) (H1 : word t1) (H2 : word t2) (H3 : word t3) (H4 : word t4).
Hypothesis (H5 : word t5) (H6 : word t6) (H7 : word t7) (H8 : word t8) (H9 : 0 <= t9 <= 2 ^ 22 + 2 ^ 8).

Let T : Z := value (FieldVal t0 t1 t2 t3 t4 t5 t6 t7 t8 t9).

(** The flag of the final reduction. *)
Let flag : Z :=
  Z.lor (Z.land (Z.land (Z.land 1 (if t9 =? fieldMSBMask then 1 else 0))
    (if t2 .& t3 .& t4 .& t5 .& t6 .& t7 .& t8 =? fieldBaseMask then 1 else 0))
    (if fieldBaseMask <? u32 (u32 (t0 + 977) .>> fieldBase + t1 + 64) then 1 else 0))
    (if negb (t9 .>> fieldMSBBits =? 0) then 1 else 0).

Lemma flag_spec : flag = if secp256k1_P <=? T then 1 else 0.
Proof.
  unfold flag, T, value, secp256k1_P; cbn [n0 n1 n2 n3 n4 n5 n6 n7 n8 n9].
  assert (Hand : t2 .& t3 .& t4 .& t5 .& t6 .& t7 .& t8 = fieldBaseMask <->
    t2 = fieldBaseMask /\ t3 = fieldBaseMask /\ t4 = fieldBaseMask /\ t5 = fieldBaseMask /\
    t6 = fieldBaseMask /\ t7 = fieldBaseMask /\ t8 = fieldBaseMask).
  { rewrite !land_max by (repeat apply word_land; done). tauto. }
  change fieldMSBMask with (2 ^ 22 - 1) in *. change fieldBaseMask with (2 ^ 26 - 1) in *.
  unfold word in *. rewrite (uwrap_id 32 (t0 + 977)) by (unfold is_uint; lia).
  pose proof (split_base (t0 + 977)) as [S0 R0]. pose proof (split_msb t9) as [S9 R9].
  set (c := (t0 + 977) .>> fieldBase) in *. set (r := (t0 + 977) .& fieldBaseMask) in *.
  set (c9 := t9 .>> fieldMSBBits) in *. set (r9 := t9 .& fieldMSBMask) in *. clearbody c r c9 r9.
  rewrite uwrap_id by (unfold is_uint; lia).
  destruct (Z.eqb_spec t9 (2 ^ 22 - 1)), (Z.eqb_spec (t2 .& t3 .& t4 .& t5 .& t6 .& t7 .& t8) (2 ^ 26 - 1)),
    (Z.ltb_spec (2 ^ 26 - 1) (c + t1 + 64)), (Z.eqb_spec c9 0); cbn [negb];
    destruct (Z.leb_spec (2 ^ 256 - 2 ^ 32 - 977)
      (t0 + 2 ^ 26 * t1 + 2 ^ 52 * t2 + 2 ^ 78 * t3 + 2 ^ 104 * t4 + 2 ^ 130 * t5 + 2 ^ 156 * t6 +
       2 ^ 182 * t7 + 2 ^ 208 * t8 + 2 ^ 234 * t9)); try reflexivity; exfalso; lia.
Qed.

Lemma normalize_final_spec : reduced (normalize_final t0 t1 t2 t3 t4 t5 t6 t7 t8 t9) T.
Proof.
  pose proof flag_spec as Hf. unfold flag in Hf. unfold normalize_final.
  dlet_intro mo Eo. dlet_intro ma Ea. dlet_intro mb Eb. dlet_intro mc Ec. dlet_intro m Em.
  subst mo ma mb mc. rewrite Hf in Em. clear Hf. unfold word in *.
  assert (Hm : 0 <= m <= 1) by (rewrite Em; destruct (secp256k1_P <=? T); lia).
  rewrite !(Z.shiftl_mul_pow2 _ 6) by lia.
  carry32 x0. carry32 x1. low32 x0 u0. carry32 x2. low32 x1 u1. carry32 x3. low32 x2 u2.
  carry32 x4. low32 x3 u3. carry32 x5. low32 x4 u4. carry32 x6. low32 x5 u5. carry32 x7. low32 x6 u6.
  carry32 x8. low32 x7 u7. carry32 x9. low32 x8 u8.
  destruct (split_msb x9) as [S9 R9]. dlet_intro u9 E9. rewrite <-E9 in S9, R9. clear E9.
  unfold reduced, normalized, value; cbn [n0 n1 n2 n3 n4 n5 n6 n7 n8 n9]. split; [lia|].
  assert (ET : T = t0 + 2 ^ 26 * t1 + 2 ^ 52 * t2 + 2 ^ 78 * t3 + 2 ^ 104 * t4 + 2 ^ 130 * t5 +
    2 ^ 156 * t6 + 2 ^ 182 * t7 + 2 ^ 208 * t8 + 2 ^ 234 * t9) by reflexivity.
  clearbody T. apply Z.mod_unique with m; unfold secp256k1_P in *.
  - left. destruct (Z.leb_spec (2 ^ 256 - 2 ^ 32 - 977) T); lia.
  - destruct (Z.leb_spec (2 ^ 256 - 2 ^ 32 - 977) T); lia.
Qed.
End final.

Lemma Normalize_reduced f : magnitude 63 f -> reduced (Normalize f) (value f).
Proof.
  destruct f as [f0 f1 f2 f3 f4 f5 f6 f7 f8 f9]. unfold magnitude; cbn [n0 n1 n2 n3 n4 n5 n6 n7 n8 n9].
  intros (A0 & A1 & A2 & A3 & A4 & A5 & A6 & A7 & A8 & A9).
  change fieldMSBMask with (2 ^ 22 - 1) in A9. unfold wordMax in *.
  unfold Normalize; cbn [n0 n1 n2 n3 n4 n5 n6 n7 n8 n9].
  destruct (split_msb f9) as [S9 R9].
  dlet_intro g9 G9. subst g9. dlet_intro m Em. dlet_intro t9 Et9. rewrite <-Em, <-Et9 in S9. rewrite <-Et9 in R9. clear Em Et9.
  rewrite !(Z.shiftl_mul_pow2 _ 6) by lia.
  carry32 x0. carry32 x1. low32 x0 u0. carry32 x2. low32 x1 u1. carry32 x3. low32 x2 u2.
  carry32 x4. low32 x3 u3. carry32 x5. low32 x4 u4. carry32 x6. low32 x5 u5. carry32 x7. low32 x6 u6.
  carry32 x8. low32 x7 u7. dlet_intro x9 E9. rewrite uwrap_id in E9 by (unfold is_uint; lia).
  low32 x8 u8.
  destruct (normalize_final_spec u0 u1 u2 u3 u4 u5 u6 u7 u8 x9) as [Hn Hv]; try (unfold word; lia).
  split; [exact Hn|]. rewrite Hv. unfold value; cbn [n0 n1 n2 n3 n4 n5 n6 n7 n8 n9].
  match goal with |- ?a mod _ = ?b mod _ => replace b with (a + m * secp256k1_P) end.
  - by rewrite Z.mod_add.
  - unfold secp256k1_P. lia.
Qed.

(** * The other operations *)

Ltac words := unfold magnitude, value, wordMax in *; cbn [n0 n1 n2 n3 n4 n5 n6 n7 n8 n9];
  change fieldMSBMask with (2 ^ 22 - 1) in *; change fieldBaseMask with (2 ^ 26 - 1) in *.

Lemma Add_spec j k f g :
  magnitude j f -> magnitude k g -> j + k <= 63 ->
  magnitude (j + k) (Add f g) /\ value (Add f g) = value f + value g.
Proof.
  intros Hf Hg Hjk. unfold Add. words. repeat rewrite uwrap_id by (unfold is_uint; lia). lia.
Qed.

Lemma NegateVal_spec k f :
  magnitude k f -> 0 <= k <= 62 ->
  magnitude (k + 1) (NegateVal f k) /\ value (NegateVal f k) = (k + 1) * secp256k1_P - value f.
Proof.
  intros Hf Hk. unfold NegateVal, fieldPrimeWordZero, fieldPrimeWordOne, secp256k1_P. words.
  repeat rewrite uwrap_id by (unfold is_uint; lia). lia.
Qed.

Lemma AddInt_spec k ui f :
  magnitude k f -> k <= 62 -> 0 <= ui <= wordMax ->
  magnitude (k + 1) (AddInt ui f) /\ value (AddInt ui f) = value f + ui.
Proof.
  intros Hf Hk Hu. unfold AddInt. words. rewrite (uwrap_id 32 ui) by (unfold is_uint; lia).
  rewrite uwrap_id by (unfold is_uint; lia). lia.
Qed.

Lemma MulInt_spec k v f :
  magnitude k f -> 0 <= k -> 0 <= v < 2 ^ 32 -> k * v <= 63 ->
  magnitude (k * v) (MulInt v f) /\ value (MulInt v f) = v * value f.
Proof.
  intros (A0 & A1 & A2 & A3 & A4 & A5 & A6 & A7 & A8 & A9) Hk Hv Hkv. unfold MulInt, is_uint in *.
  rewrite (uwrap_id 32 v) by done.
  assert (Hw : forall x, 0 <= x <= k * wordMax -> uwrap 32 (x * v) = x * v /\ 0 <= x * v <= k * v * wordMax).
  { intros x Hx. unfold wordMax in *. split; [apply uwrap_id; unfold is_uint|]; nia. }
  assert (A9' : 0 <= n9 f * v <= k * v * fieldMSBMask) by nia.
  words. destruct (Hw _ A0) as [-> ?], (Hw _ A1) as [-> ?], (Hw _ A2) as [-> ?], (Hw _ A3) as [-> ?],
    (Hw _ A4) as [-> ?], (Hw _ A5) as [-> ?], (Hw _ A6) as [-> ?], (Hw _ A7) as [-> ?], (Hw _ A8) as [-> ?].
  rewrite uwrap_id by (unfold is_uint; nia). split; [tauto|ring].
Qed.

Lemma SetInt_spec ui : 0 <= ui <= wordMax -> magnitude 1 (SetInt ui) /\ value (SetInt ui) = ui.
Proof. intros Hu. unfold SetInt. words. rewrite uwrap_id by (unfold is_uint; lia). lia. Qed.

Lemma normalized_magnitude f : normalized f -> magnitude 1 f.
Proof. unfold normalized. words. lia. Qed.

Lemma normalized_value_range f : normalized f -> 0 <= value f < 2 ^ 256.
Proof. unfold normalized. words. lia. Qed.

(** A value has one representation with all its words in range. *)
Lemma normalized_inj f g : normalized f -> normalized g -> value f = value g -> f = g.
Proof.
  destruct f as [a0 a1 a2 a3 a4 a5 a6 a7 a8 a9], g as [b0 b1 b2 b3 b4 b5 b6 b7 b8 b9].
  unfold normalized. words. intros Ha Hb E. destruct_and! Ha. destruct_and! Hb.
  assert (a0 = b0) by lia. subst. assert (a1 = b1) by lia. subst. assert (a2 = b2) by lia. subst.
  assert (a3 = b3) by lia. subst. assert (a4 = b4) by lia. subst. assert (a5 = b5) by lia. subst.
  assert (a6 = b6) by lia. subst. assert (a7 = b7) by lia. subst. assert (a8 = b8) by lia. subst.
  assert (a9 = b9) by lia. by subst.
Qed.

Lemma IsOdd_spec f : IsOdd f = Z.odd (value f).
Proof.
  unfold IsOdd. change (n0 f .& 1) with (n0 f .& Z.ones 1). rewrite Z.land_ones by lia.
  change (2 ^ 1) with 2. rewrite Zmod_odd.
  replace (value f) with (n0 f + 2 * (2 ^ 25 * n1 f + 2 ^ 51 * n2 f + 2 ^ 77 * n3 f + 2 ^ 103 * n4 f +
    2 ^ 129 * n5 f + 2 ^ 155 * n6 f + 2 ^ 181 * n7 f + 2 ^ 207 * n8 f + 2 ^ 233 * n9 f))
    by (unfold value; lia).
  rewrite Z.odd_add_mul_2. by destruct (Z.odd (n0 f)).
Qed.

Lemma Equals_true f g : Equals f g = true <-> f = g.
Proof.
  unfold Equals. rewrite Z.eqb_eq, !Z.lor_eq_0_iff, !Z.lxor_eq_0_iff.
  destruct f as [a0 a1 a2 a3 a4 a5 a6 a7 a8 a9], g as [b0 b1 b2 b3 b4 b5 b6 b7 b8 b9].
  cbn [n0 n1 n2 n3 n4 n5 n6 n7 n8 n9]. split; [|by intros [= -> -> -> -> -> -> -> -> -> ->]].
  intros H. destruct_and! H. by subst.
Qed.

Lemma Equals_spec f g : normalized f -> normalized g -> Equals f g = (value f =? value g).
Proof.
  intros Hf Hg. apply eq_true_iff_eq. rewrite Equals_true, Z.eqb_eq.
  split; [by intros ->|]. by apply normalized_inj.
Qed.

Lemma IsZero_spec f : normalized f -> IsZero f = (value f =? 0).
Proof.
  intros Hf. assert (Hz : normalized Zero) by (unfold normalized, Zero; cbn; lia).
  transitivity (Equals f Zero); [|by rewrite (Equals_spec _ _ Hf Hz)].
  unfold IsZero, Equals, Zero; cbn [n0 n1 n2 n3 n4 n5 n6 n7 n8 n9]. by rewrite !Z.lxor_0_r.
Qed.

(** * Bytes *)

Lemma pack3 a b c i j :
  0 <= i <= j -> 0 <= a < 2 ^ i -> 0 <= b < 2 ^ (j - i) ->
  a .| b .<< i .| c .<< j = a + b * 2 ^ i + c * 2 ^ j.
Proof.
  intros Hij Ha Hb.
  assert (a + b * 2 ^ i < 2 ^ j) by (replace j with (i + (j - i)) by lia; rewrite Z.pow_add_r by lia; nia).
  assert (0 < 2 ^ i) by lia. rewrite (lor_shift a b i), (lor_shift _ c j) by (try lia; nia). done.
Qed.

Lemma pack4 a b c d i j k :
  0 <= i <= j -> j <= k -> 0 <= a < 2 ^ i -> 0 <= b < 2 ^ (j - i) -> 0 <= c < 2 ^ (k - j) ->
  a .| b .<< i .| c .<< j .| d .<< k = a + b * 2 ^ i + c * 2 ^ j + d * 2 ^ k.
Proof.
  intros Hij Hjk Ha Hb Hc. rewrite (pack3 a b c i j) by lia.
  assert (a + b * 2 ^ i < 2 ^ j) by (replace j with (i + (j - i)) by lia; rewrite Z.pow_add_r by lia; nia).
  assert (a + b * 2 ^ i + c * 2 ^ j < 2 ^ k)
    by (replace k with (j + (k - j)) by lia; rewrite Z.pow_add_r by lia; nia).
  assert (0 < 2 ^ i) by lia. assert (0 < 2 ^ j) by lia. rewrite lor_shift by nia. done.
Qed.

Ltac masks :=
  unfold twoBitsMask, fourBitsMask, sixBitsMask, eightBitsMask;
  change 0x3 with (Z.ones 2); change 0xf with (Z.ones 4); change 0x3f with (Z.ones 6);
  change 0xff with (Z.ones 8); rewrite !Z.land_ones, ?Z.shiftr_div_pow2 by lia.

Lemma byte_parts b k :
  0 <= k <= 8 -> let x := byte.unsigned b in
  x = 2 ^ k * (x / 2 ^ k) + x mod 2 ^ k /\ 0 <= x mod 2 ^ k < 2 ^ k /\ 0 <= x / 2 ^ k < 2 ^ (8 - k).
Proof.
  intros Hk x. pose proof (byte.unsigned_range b). fold x in H.
  pose proof (Z.div_mod x (2 ^ k)). pose proof (Z.mod_pos_bound x (2 ^ k)).
  assert (0 < 2 ^ k) by lia. split_and!; [lia..|apply Z.div_pos; lia|].
  apply Z.div_lt_upper_bound; [done|]. rewrite <-Z.pow_add_r by lia. replace (k + (8 - k)) with 8 by lia. lia.
Qed.

(** A string of 32 bytes, as its bytes. *)
Lemma bytes32 (P : bytes -> Prop) :
  (forall b0 b1 b2 b3 b4 b5 b6 b7 b8 b9 b10 b11 b12 b13 b14 b15 b16 b17 b18 b19 b20 b21 b22 b23 b24 b25 b26 b27 b28 b29 b30 b31, P [b0; b1; b2; b3; b4; b5; b6; b7; b8; b9; b10; b11; b12; b13; b14; b15; b16; b17; b18; b19; b20; b21; b22; b23; b24; b25; b26; b27; b28; b29; b30; b31]) -> forall b, len b = 32 -> P b.
Proof.
  intros HP b Hl. assert (Hl' : length b = 32%nat) by (unfold len in Hl; lia). clear Hl.
  destruct b as [|b0 b]; [discriminate|]. destruct b as [|b1 b]; [discriminate|]. destruct b as [|b2 b]; [discriminate|]. destruct b as [|b3 b]; [discriminate|].
  destruct b as [|b4 b]; [discriminate|]. destruct b as [|b5 b]; [discriminate|]. destruct b as [|b6 b]; [discriminate|]. destruct b as [|b7 b]; [discriminate|].
  destruct b as [|b8 b]; [discriminate|]. destruct b as [|b9 b]; [discriminate|]. destruct b as [|b10 b]; [discriminate|]. destruct b as [|b11 b]; [discriminate|].
  destruct b as [|b12 b]; [discriminate|]. destruct b as [|b13 b]; [discriminate|]. destruct b as [|b14 b]; [discriminate|]. destruct b as [|b15 b]; [discriminate|].
  destruct b as [|b16 b]; [discriminate|]. destruct b as [|b17 b]; [discriminate|]. destruct b as [|b18 b]; [discriminate|]. destruct b as [|b19 b]; [discriminate|].
  destruct b as [|b20 b]; [discriminate|]. destruct b as [|b21 b]; [discriminate|]. destruct b as [|b22 b]; [discriminate|]. destruct b as [|b23 b]; [discriminate|].
  destruct b as [|b24 b]; [discriminate|]. destruct b as [|b25 b]; [discriminate|]. destruct b as [|b26 b]; [discriminate|]. destruct b as [|b27 b]; [discriminate|].
  destruct b as [|b28 b]; [discriminate|]. destruct b as [|b29 b]; [discriminate|]. destruct b as [|b30 b]; [discriminate|]. destruct b as [|b31 b]; [discriminate|].
  destruct b; [apply HP|discriminate].
Qed.

Lemma SetBytes_spec b :
  len b = 32 -> normalized (SetBytes b) /\ value (SetBytes b) = big_SetBytes b.
Proof.
  revert b. apply bytes32. intros.
  unfold big_SetBytes. cbn [rev app]. rewrite !le_combine_cons. change (le_combine []) with 0.
  unfold SetBytes; cbn [nth].
  pose proof (byte_parts b28 2 ltac:(lia)) as P28; cbv zeta in P28.
  pose proof (byte_parts b25 4 ltac:(lia)) as P25; cbv zeta in P25.
  pose proof (byte_parts b22 6 ltac:(lia)) as P22; cbv zeta in P22.
  pose proof (byte_parts b15 2 ltac:(lia)) as P15; cbv zeta in P15.
  pose proof (byte_parts b12 4 ltac:(lia)) as P12; cbv zeta in P12.
  pose proof (byte_parts b9 6 ltac:(lia)) as P9; cbv zeta in P9.
  pose proof (byte_parts b2 2 ltac:(lia)) as P2; cbv zeta in P2.
  pose proof (byte.unsigned_range b0).
  pose proof (byte.unsigned_range b1).
  pose proof (byte.unsigned_range b3).
  pose proof (byte.unsigned_range b4).
  pose proof (byte.unsigned_range b5).
  pose proof (byte.unsigned_range b6).
  pose proof (byte.unsigned_range b7).
  pose proof (byte.unsigned_range b8).
  pose proof (byte.unsigned_range b10).
  pose proof (byte.unsigned_range b11).
  pose proof (byte.unsigned_range b13).
  pose proof (byte.unsigned_range b14).
  pose proof (byte.unsigned_range b16).
  pose proof (byte.unsigned_range b17).
  pose proof (byte.unsigned_range b18).
  pose proof (byte.unsigned_range b19).
  pose proof (byte.unsigned_range b20).
  pose proof (byte.unsigned_range b21).
  pose proof (byte.unsigned_range b23).
  pose proof (byte.unsigned_range b24).
  pose proof (byte.unsigned_range b26).
  pose proof (byte.unsigned_range b27).
  pose proof (byte.unsigned_range b29).
  pose proof (byte.unsigned_range b30).
  pose proof (byte.unsigned_range b31).
  masks. repeat rewrite pack4 by lia. rewrite pack3 by lia.
  unfold normalized. words. split; lia.
Qed.

Lemma mod_parts x a b : 0 <= a -> 0 <= b -> x mod 2 ^ (a + b) = x mod 2 ^ a + 2 ^ a * ((x / 2 ^ a) mod 2 ^ b).
Proof. intros Ha Hb. rewrite Z.pow_add_r by lia. apply Z.rem_mul_r; lia. Qed.

(** A word as the four groups of bits its bytes are made of. *)
Lemma parts4 x i j k a b c w :
  0 <= i -> 0 <= a -> 0 <= b -> 0 <= c -> j = i + a -> k = j + b -> w = k + c -> 0 <= x < 2 ^ w ->
  x = x mod 2 ^ i + 2 ^ i * ((x / 2 ^ i) mod 2 ^ a) + 2 ^ j * ((x / 2 ^ j) mod 2 ^ b) +
      2 ^ k * ((x / 2 ^ k) mod 2 ^ c) /\
  0 <= x mod 2 ^ i < 2 ^ i /\ 0 <= (x / 2 ^ i) mod 2 ^ a < 2 ^ a /\
  0 <= (x / 2 ^ j) mod 2 ^ b < 2 ^ b /\ 0 <= (x / 2 ^ k) mod 2 ^ c < 2 ^ c.
Proof.
  intros Hi Ha Hb Hc -> -> -> Hx. split; [|split_and!; apply Z.mod_pos_bound; lia].
  rewrite <-!mod_parts by lia. symmetry. by apply Z.mod_small.
Qed.

Ltac word_parts x i j k a b c w :=
  let H := fresh "W" in
  pose proof (parts4 x i j k a b c w ltac:(lia) ltac:(lia) ltac:(lia) ltac:(lia)
    eq_refl eq_refl eq_refl ltac:(tauto)) as H.

Lemma wrap_small z : 0 <= z < 2 ^ 8 -> byte.wrap z = z.
Proof. apply Z.mod_small. Qed.

Lemma PutBytes_spec f : normalized f -> len (PutBytes f) = 32 /\ big_SetBytes (PutBytes f) = value f.
Proof.
  intros Hn. split; [reflexivity|]. unfold normalized in Hn.
  word_parts (n0 f) 8 16 24 8 8 2 26. word_parts (n1 f) 6 14 22 8 8 4 26. word_parts (n2 f) 4 12 20 8 8 6 26.
  word_parts (n3 f) 2 10 18 8 8 8 26. word_parts (n4 f) 8 16 24 8 8 2 26. word_parts (n5 f) 6 14 22 8 8 4 26.
  word_parts (n6 f) 4 12 20 8 8 6 26. word_parts (n7 f) 2 10 18 8 8 8 26. word_parts (n8 f) 8 16 24 8 8 2 26.
  word_parts (n9 f) 6 14 22 8 8 0 22.
  unfold PutBytes, big_SetBytes. cbn [map rev app]. masks.
  rewrite !le_combine_cons, !byte.unsigned_of_Z. change (le_combine []) with 0.
  repeat rewrite lor_shift by lia. repeat rewrite wrap_small by lia. unfold value. lia.
Qed.

(** The bytes of a normalized value give the value back, and conversely. *)
Lemma SetBytes_PutBytes f : normalized f -> SetBytes (PutBytes f) = f.
Proof.
  intros Hn. destruct (PutBytes_spec f Hn) as [Hl Hv], (SetBytes_spec _ Hl) as [Hn' Hv'].
  apply normalized_inj; [done..|]. by rewrite Hv'.
Qed.

Lemma PutBytes_SetBytes b : len b = 32 -> PutBytes (SetBytes b) = b.
Proof.
  intros Hl. destruct (SetBytes_spec b Hl) as [Hn Hv], (PutBytes_spec _ Hn) as [Hl' Hv'].
  rewrite Hv in Hv'. apply big_SetBytes_inj; [by rewrite Hl'|done].
Qed.

Lemma SetByteSlice_spec b :
  len b <= 32 ->
  exists f, SetByteSlice b = Ok f /\ normalized f /\ value f = big_SetBytes b.
Proof.
  intros Hl. unfold SetByteSlice. rewrite (proj2 (Z.ltb_ge _ _)) by done. eexists. split; [reflexivity|].
  assert (Hz : len (replicate (32 - length b) Byte.x00 ++ b) = 32)
    by (rewrite len_app; unfold len in *; rewrite length_replicate; lia).
  destruct (SetBytes_spec _ Hz) as [Hn ->]. split; [done|].
  apply big_SetBytes_zeros.
Qed.

(** * Exponentiation chains *)

(** [f] stands for the power [e] of [x]. *)
Definition power (x e : Z) (f : fieldVal) : Prop :=
  magnitude 8 f /\ 0 <= e /\ value f mod secp256k1_P = x ^ e mod secp256k1_P.

Lemma power_Mul x e e' f g : power x e f -> power x e' g -> power x (e + e') (Mul f g).
Proof.
  intros (Hf & He & Ef) (Hg & He' & Eg). destruct (Mul2_value f g Hf Hg) as [Hm Hv].
  unfold Mul. split_and!; [by apply (magnitude_mono 1); [|lia]|lia|].
  rewrite Z.pow_add_r, Zmult_mod, <-Ef, <-Eg, <-Zmult_mod by done. exact Hv.
Qed.

Lemma power_Square x e f : power x e f -> power x (2 * e) (Square f).
Proof.
  intros Hf. unfold Square. rewrite SquareVal_Mul2. replace (2 * e) with (e + e) by lia.
  by apply power_Mul.
Qed.

Lemma power_self f : magnitude 8 f -> power (value f) 1 f.
Proof. intros. split_and!; [done|lia|]. by rewrite Z.pow_1_r. Qed.

Lemma power_one x : power x 0 (SetInt 1).
Proof. split_and!; [|lia|done]. apply (magnitude_mono 1); [|lia]. by apply SetInt_spec. Qed.

Lemma power_exponent x e e' f : power x e f -> e = e' -> power x e' f.
Proof. by intros ? <-. Qed.

Lemma power_Square5 x e f : power x e f -> power x (32 * e) (Square5 f).
Proof.
  intros Hf. replace (32 * e) with (2 * (2 * (2 * (2 * (2 * e))))) by lia.
  unfold Square5. by do 5 apply power_Square.
Qed.

(** Finds the exponent of a chain of squares and products. *)
Ltac chain :=
  lazymatch goal with
  | |- power _ _ (Mul _ _) => eapply power_Mul; chain
  | |- power _ _ (Mul2 ?a ?b) => change (Mul2 a b) with (Mul a b); chain
  | |- power _ _ (Square _) => eapply power_Square; chain
  | |- power _ _ (SquareVal ?a) => change (SquareVal a) with (Square a); chain
  | |- power _ _ (Square5 _) => eapply power_Square5; chain
  | |- power _ _ ?f => is_var f; eassumption
  end.

(** Names the next intermediate value of a chain, with its exponent. *)
Ltac chain_step x :=
  let f := fresh "f" in let E := fresh in let H := fresh in
  dlet_intro f E; eassert (H : power x _ f) by (rewrite E; chain); clear E;
  match type of H with power _ ?e _ => let e' := eval vm_compute in e in change e with e' in H end.


#[local] Opaque Mul Mul2 Square SquareVal.

Lemma Inverse_power f : magnitude 8 f -> power (value f) (secp256k1_P - 2) (Inverse f).
Proof.
  intros Hf%power_self. set (x := value f) in *. clearbody x. unfold Inverse.
  repeat chain_step x. eapply power_exponent; [chain|vm_compute; reflexivity].
Qed.

Lemma sqrt_byte_power x0 x f b e :
  power x 1 x0 -> power x e f -> b = 0xff \/ b = 0xbf \/ b = 0x0c ->
  power x (256 * e + b) (sqrt_byte (fun _ => x0) f b).
Proof.
  intros Hx Hf Hb. unfold sqrt_byte. cbv zeta beta.
  destruct Hb as [->|[->| ->]]; cbv [Z.eqb Pos.eqb]; (eapply power_exponent; [chain|lia]).
Qed.

Lemma sqrt_first_byte x0 x f :
  power x 1 x0 -> power x 0 f -> power x 0x3f (sqrt_byte (fun _ => x0) f 0x3f).
Proof.
  intros Hx Hf. unfold sqrt_byte. cbv zeta beta. cbv [Z.eqb Pos.eqb].
  eapply power_exponent; [chain|reflexivity].
Qed.

Lemma sqrt_bytes_power x0 x bs f e :
  power x 1 x0 -> power x e f -> Forall (fun b => b = 0xff \/ b = 0xbf \/ b = 0x0c) bs ->
  power x (fold_left (fun e b => 256 * e + b) bs e) (fold_left (sqrt_byte (fun _ => x0)) bs f).
Proof.
  intros Hx Hf Hbs. revert f e Hf.
  induction Hbs as [|b bs Hb _ IH]; intros f e Hf; cbn [fold_left]; [done|].
  by apply IH, sqrt_byte_power.
Qed.

Lemma SqrtVal_power x0 : magnitude 8 x0 -> power (value x0) ((secp256k1_P + 1) / 4) (SqrtVal x0).
Proof.
  intros Hx%power_self. set (x := value x0) in *. clearbody x.
  pose proof (sqrt_first_byte x0 x (SetInt 1) Hx (power_one x)) as H1.
  eapply power_exponent; [unfold SqrtVal, sqrt_loop, fieldQBytes; rewrite fold_left_app;
    apply (sqrt_bytes_power x0 x _ _ _ Hx H1)|vm_compute; reflexivity].
  apply Forall_app. split; [apply Forall_replicate; tauto|]. repeat constructor; tauto.
Qed.

(** * The field *)

Lemma inverse_value f :
  magnitude 8 f -> value f mod secp256k1_P <> 0 ->
  (value f * value (Inverse f)) mod secp256k1_P = 1.
Proof.
  intros Hf Hz. pose proof (Z.prime_ge_2 _ secp256k1_P_prime).
  destruct (Inverse_power f Hf) as (_ & _ & E).
  rewrite <-Zmult_mod_idemp_r, E, Zmult_mod_idemp_r, <-Z.pow_succ_r by lia.
  replace (Z.succ (secp256k1_P - 2)) with (secp256k1_P - 1) by lia.
  by apply Z.fermat_nz; [apply secp256k1_P_prime|].
Qed.

(** A square to the power [(P+1)/4] is a root of itself. *)
Lemma square_root_power x y :
  x mod secp256k1_P = y ^ 2 mod secp256k1_P ->
  (x ^ ((secp256k1_P + 1) / 4)) ^ 2 mod secp256k1_P = x mod secp256k1_P.
Proof.
  intros Hx. pose proof (Z.prime_ge_2 _ secp256k1_P_prime).
  rewrite <-Z.pow_mul_r, <-Z.mod_pow_l, Hx, Z.mod_pow_l, <-Z.pow_mul_r;
    [|try apply Z.mul_nonneg_nonneg; try apply Z.div_pos; lia..].
  replace (2 * ((secp256k1_P + 1) / 4 * 2)) with (Z.succ secp256k1_P) by reflexivity.
  rewrite Z.pow_succ_r, Z.pow_2_r, Zmult_mod, Z.fermat, <-Zmult_mod; [done|apply secp256k1_P_prime|lia].
Qed.

Lemma sqrt_value f y :
  magnitude 8 f -> value f mod secp256k1_P = y ^ 2 mod secp256k1_P ->
  (value (SqrtVal f)) ^ 2 mod secp256k1_P = value f mod secp256k1_P.
Proof.
  intros Hf Hy. destruct (SqrtVal_power f Hf) as (_ & _ & E).
  rewrite <-Z.mod_pow_l, E, Z.mod_pow_l. by apply (square_root_power _ y).
Qed.

(** * Properties *)

(** C31: the product of two values of magnitude at most 8, computed with words that
    wrap around, has magnitude one and is exactly the product modulo
    the prime: no carry is lost; squaring is the product with itself, word for word. *)
Theorem field_product f g :
  magnitude 8 f -> magnitude 8 g ->
  magnitude 1 (Mul2 f g) /\
  value (Mul2 f g) mod secp256k1_P = (value f * value g) mod secp256k1_P /\
  SquareVal f = Mul2 f f.
Proof.
  intros Hf Hg. destruct (Mul2_value f g Hf Hg). split_and!; [done..|apply SquareVal_Mul2].
Qed.

(** [Normalize] of a value of magnitude up to 63 is the only representation of
    the value modulo the prime with its words in range. *)
Theorem field_normalize f g :
  magnitude 63 f ->
  normalized (Normalize f) /\ value (Normalize f) = value f mod secp256k1_P /\
  (normalized g -> value g = value f mod secp256k1_P -> g = Normalize f).
Proof.
  intros Hf. destruct (Normalize_reduced f Hf) as [Hn Hv]. split_and!; [done..|].
  intros Hg E. apply normalized_inj; [done..|]. by rewrite Hv.
Qed.

(** [Inverse] computes the inverse modulo the prime of every value that is not
    zero there, and [SqrtVal] a square root of every value that has one; [Sqrt],
    which passes its receiver as the argument, returns one whatever its receiver is. *)
Theorem field_inverse_sqrt f y :
  magnitude 8 f ->
  (value f mod secp256k1_P <> 0 -> (value f * value (Inverse f)) mod secp256k1_P = 1) /\
  (value f mod secp256k1_P = y ^ 2 mod secp256k1_P ->
   (value (SqrtVal f)) ^ 2 mod secp256k1_P = value f mod secp256k1_P) /\
  (forall g, Sqrt g = SetInt 1).
Proof.
  intros Hf. split_and!; [by apply inverse_value|by apply sqrt_value|]. intros g. vm_compute. reflexivity.
Qed.

(** The bytes of a value with its words in range are the 32 bytes of its value,
    most significant first, and reading them gives the value back; conversely any
    32 bytes are read into a value that is written back as the same bytes. *)
Theorem field_bytes f b :
  (normalized f -> len (Bytes f) = 32 /\ big_SetBytes (Bytes f) = value f /\ SetBytes (Bytes f) = f) /\
  (len b = 32 ->
   normalized (SetBytes b) /\ value (SetBytes b) = big_SetBytes b /\ Bytes (SetBytes b) = b).
Proof.
  split; intros H.
  - split_and!; [by apply PutBytes_spec..|by apply SetBytes_PutBytes].
  - split_and!; [by apply SetBytes_spec..|by apply PutBytes_SetBytes].
Qed.

(** Addition, negation and the product with a small integer are exact on the
    words as long as the magnitudes stay within 63, and the magnitudes add up as the
    comments say; the tests on values with words in range decide the integers. *)
Theorem field_linear f g j k v :
  magnitude j f -> magnitude k g -> j + k <= 63 -> 0 <= j -> 0 <= v < 2 ^ 32 -> j * v <= 63 ->
  (magnitude (j + k) (Add f g) /\ value (Add f g) = value f + value g) /\
  (magnitude (j * v) (MulInt v f) /\ value (MulInt v f) = v * value f) /\
  (j <= 62 -> magnitude (j + 1) (NegateVal f j) /\
              value (NegateVal f j) = (j + 1) * secp256k1_P - value f) /\
  IsOdd f = Z.odd (value f) /\
  (normalized f -> normalized g -> Equals f g = (value f =? value g) /\ IsZero f = (value f =? 0)).
Proof.
  intros Hf Hg Hjk Hj Hv Hjv.
  split; [by apply Add_spec|]. split; [by apply MulInt_spec|].
  split; [intros; by apply NegateVal_spec|]. split; [apply IsOdd_spec|].
  intros. split; [by apply Equals_spec|by apply IsZero_spec].
Qed.

(** * Witnesses *)

(** The abscissa of the generator of the curve. *)
Definition example_field : fieldVal :=
  SetBytes (rev (le_split 32 0x79BE667EF9DCBBAC55A06295CE870B07029BFCDB2DCE28D959F2815B16F81798)).

Lemma example_field_magnitude k : 1 <= k -> magnitude k example_field.
Proof. apply magnitude_mono. vm_compute. repeat split; discriminate. Qed.

Lemma field_product_witness :
  value (Mul2 example_field example_field) mod secp256k1_P =
    (value example_field * value example_field) mod secp256k1_P /\
  value (Mul2 example_field example_field) mod 1000 = 497.
Proof. split; [|vm_compute; reflexivity]. by apply field_product; apply example_field_magnitude. Defined.

Lemma field_normalize_witness :
  value (Normalize (MulInt 40 example_field)) = (40 * value example_field) mod secp256k1_P.
Proof.
  destruct (field_normalize (MulInt 40 example_field) Zero) as (_ & H & _);
    [vm_compute; repeat split; discriminate|].
  rewrite H. vm_compute. reflexivity.
Defined.

Lemma field_inverse_sqrt_witness :
  (value example_field * value (Inverse example_field)) mod secp256k1_P = 1.
Proof.
  apply (field_inverse_sqrt example_field 0); [by apply example_field_magnitude|].
  vm_compute. discriminate.
Defined.

Lemma field_bytes_witness : SetBytes (Bytes example_field) = example_field.
Proof. apply (field_bytes example_field []). vm_compute. repeat split; discriminate. Defined.

Lemma field_linear_witness :
  value (Add example_field example_field) = value example_field + value example_field.
Proof.
  apply (field_linear example_field example_field 1 1 2); [by apply example_field_magnitude..|lia|lia|lia|lia].
Defined.
