(* ===== verification/ScriptNum.v ===== *)
(** Model of txscript/scriptnum.go and of the boolean conversions of
    txscript/stack.go: the numbers of the script engine, little-endian with a sign
    bit, and their minimal encoding. *)

From S2P Require Import Prelude.

Definition scriptError {A} (c : string) : outcome A := Err (ScriptError c).

Definition maxInt32 : Z := 2 ^ 31 - 1.
Definition minInt32 : Z := - 2 ^ 31.
Definition defaultScriptNumLen : Z := 4.

(** The byte at an index the caller has checked. *)
Definition at_ (v : bytes) (i : Z) : Z := byte.unsigned (nth (Z.to_nat i) v Byte.x00).

Definition checkMinimalDataEncoding (v : bytes) : outcome unit :=
  if len v =? 0 then Ok ()
  else if (Z.land (at_ v (len v - 1)) 0x7f =? 0) &&
          ((len v =? 1) || (Z.land (at_ v (len v - 2)) 0x80 =? 0))
  then scriptError "ErrMinimalData" else Ok ().

(** [for n > 0 { result = append(result, byte(n&0xff)); n >>= 8 }]; an [int64] has
    eight bytes. *)
Fixpoint Bytes_loop (fuel : nat) (n : Z) : bytes :=
  match fuel with
  | O => []
  | S fuel => if 0 <? n then byte.of_Z (Z.land n 0xff) :: Bytes_loop fuel (Z.shiftr n 8) else []
  end.

(** [scriptNum.Bytes]: for the least [int64] the negation overflows, the loop does not
    run and [result[len(result)-1]] panics. *)
Definition scriptNum_Bytes (n : Z) : outcome bytes :=
  if n =? 0 then Ok []
  else
  let isNegative := n <? 0 in
  let n := if isNegative then swrap 64 (- n) else n in
  let result := Bytes_loop 8 n in
  if len result =? 0 then Panic
  else if negb (Z.land (at_ result (len result - 1)) 0x80 =? 0)
  then Ok (result ++ [byte.of_Z (if isNegative then 0x80 else 0x00)])
  else if isNegative
  then Ok (<[(length result - 1)%nat := byte.of_Z (Z.lor (at_ result (len result - 1)) 0x80)]> result)
  else Ok result.

Definition scriptNum_Int32 (n : Z) : Z :=
  if maxInt32 <? n then maxInt32 else if n <? minInt32 then minInt32 else n.

(** [for i, val := range v { result |= int64(val) << uint8(8*i) }] *)
Fixpoint decode_loop (i result : Z) (v : bytes) : Z :=
  match v with
  | [] => result
  | val :: v => decode_loop (i + 1) (Z.lor result (swrap 64 (Z.shiftl (byte.unsigned val) (uwrap 8 (8 * i))))) v
  end.

Definition makeScriptNum (v : bytes) (requireMinimal : bool) (scriptNumLen : Z) : outcome Z :=
  if scriptNumLen <? len v then scriptError "ErrNumberTooBig"
  else
  _ ← (if requireMinimal then checkMinimalDataEncoding v else Ok ());
  if len v =? 0 then Ok 0
  else
  let result := decode_loop 0 0 v in
  if negb (Z.land (at_ v (len v - 1)) 0x80 =? 0)
  then Ok (- Z.ldiff result (swrap 64 (Z.shiftl 0x80 (uwrap 8 (8 * (len v - 1))))))
  else Ok result.

(** ** Booleans *)

(** The loop of [asBool] from an index on: [last] tells that [t[i]] is the last byte. *)
Fixpoint asBool (t : bytes) : bool :=
  match t with
  | [] => false
  | b :: t' =>
      if byte.unsigned b =? 0 then asBool t'
      else if bool_decide (t' = []) && (byte.unsigned b =? 0x80) then false else true
  end.

Definition fromBool (v : bool) : bytes := if v then mkbytes [1] else [].

(** * Numbers as sign and magnitude *)

(** The value of an encoding: the last byte carries the sign. *)
Definition num_value (v : bytes) : Z :=
  match reverse v with
  | [] => 0
  | top :: init =>
      let m := le_combine (reverse init) + (byte.unsigned top mod 128) * 2 ^ (8 * len init) in
      if 128 <=? byte.unsigned top then - m else m
  end.

(** A number is minimal when its top byte is needed. *)
Definition minimal (v : bytes) : Prop := checkMinimalDataEncoding v = Ok ().

Lemma at_last init top : at_ (init ++ [top]) (len (init ++ [top]) - 1) = byte.unsigned top.
Proof.
  unfold at_, len. rewrite length_app. cbn [length].
  replace (Z.to_nat (Z.of_nat (length init + 1) - 1)) with (length init) by lia.
  by rewrite app_nth2, Nat.sub_diag by lia.
Qed.

Lemma byte_land_80 b : (Z.land (byte.unsigned b) 0x80 =? 0) = (byte.unsigned b <? 128).
Proof. destruct b; reflexivity. Qed.

Lemma byte_land_7f b : Z.land (byte.unsigned b) 0x7f = byte.unsigned b mod 128.
Proof. apply (Z.land_ones _ 7). lia. Qed.

Lemma num_value_snoc init top :
  num_value (init ++ [top]) =
    let m := le_combine init + (byte.unsigned top mod 128) * 2 ^ (8 * len init) in
    if 128 <=? byte.unsigned top then - m else m.
Proof.
  unfold num_value. rewrite reverse_app. cbv zeta.
  change (reverse [top] ++ reverse init) with (top :: reverse init). cbv iota beta.
  rewrite reverse_involutive. unfold len. by rewrite length_reverse.
Qed.

(** ** Decoding *)

Lemma shift_byte b k : 0 <= k <= 6 -> swrap 64 (Z.shiftl (byte.unsigned b) (uwrap 8 (8 * k))) = byte.unsigned b * 2 ^ (8 * k).
Proof.
  intros Hk. pose proof (byte.unsigned_range b).
  rewrite uwrap_id by (unfold is_uint; lia). rewrite Z.shiftl_mul_pow2 by lia. apply swrap_id; [lia|].
  unfold is_int. assert (2 ^ (8 * k) <= 2 ^ 48) by (apply Z.pow_le_mono_r; lia).
  assert (0 < 2 ^ (8 * k)) by (apply Z.pow_pos_nonneg; lia). nia.
Qed.

Lemma decode_loop_spec pre v :
  len pre + len v <= 7 -> decode_loop (len pre) (le_combine pre) v = le_combine (pre ++ v).
Proof.
  revert pre. induction v as [|b v IH]; intros pre Hl; cbn [decode_loop]; [by rewrite app_nil_r|].
  rewrite len_cons in Hl. pose proof (len_nonneg v). pose proof (len_nonneg pre). rewrite shift_byte by lia.
  pose proof (le_combine_is_uint pre) as Hp. unfold is_uint in Hp.
  rewrite <-Z.shiftl_mul_pow2, lor_shift, <-le_combine_snoc by lia.
  replace (len pre + 1) with (len (pre ++ [b])) by (rewrite len_app; reflexivity).
  rewrite IH by (rewrite len_app; unfold len at 2; cbn [length]; lia). by rewrite <-app_assoc.
Qed.

Lemma decode_all v : len v <= 7 -> decode_loop 0 0 v = le_combine v.
Proof. intros Hl. apply (decode_loop_spec []). unfold len at 1. cbn [length]. lia. Qed.

(** Clearing the highest bit of a number. *)
Lemma ldiff_top x m : 0 <= m -> 2 ^ m <= x < 2 ^ (m + 1) -> Z.ldiff x (2 ^ m) = x - 2 ^ m.
Proof.
  intros Hm Hx. rewrite Z.pow_add_r in Hx by lia. symmetry. apply Z.sub_nocarry_ldiff.
  apply Z.bits_inj'. intros i Hi. rewrite Z.ldiff_spec, Z.bits_0, Z.pow2_bits_eqb by lia.
  destruct (Z.eqb_spec m i) as [<-|]; [|done]. cbn [andb]. apply negb_false_iff, Z.testbit_true; [done|].
  replace (x / 2 ^ m) with 1; [done|]. apply (Z.div_unique x (2 ^ m) 1 (x - 2 ^ m)); lia.
Qed.

Lemma top_bits top : 128 <= byte.unsigned top -> byte.unsigned top = byte.unsigned top mod 128 + 128.
Proof.
  intros Ht. pose proof (byte.unsigned_range top). set (t := byte.unsigned top) in *.
  assert (t mod 128 = t - 128) by (symmetry; apply (Z.mod_unique t 128 1); lia). lia.
Qed.

(** Removing the sign bit. *)
Lemma clear_sign init top :
  len init <= 6 -> 128 <= byte.unsigned top ->
  Z.ldiff (le_combine (init ++ [top])) (swrap 64 (Z.shiftl 0x80 (uwrap 8 (8 * len init)))) =
    le_combine init + (byte.unsigned top mod 128) * 2 ^ (8 * len init).
Proof.
  intros Hl Ht. pose proof (len_nonneg init). pose proof (byte.unsigned_range top).
  pose proof (shift_byte Byte.x80 (len init)) as Es. change (byte.unsigned Byte.x80) with (2 ^ 7) in Es.
  change 0x80 with (2 ^ 7) at 1. rewrite Es by lia. clear Es. rewrite le_combine_snoc.
  pose proof (le_combine_is_uint init) as Hi. unfold is_uint in Hi. set (k := 8 * len init) in *.
  rewrite <-Z.pow_add_r by lia.
  pose proof (top_bits top Ht) as Et. pose proof (Z.mod_pos_bound (byte.unsigned top) 128) as Hm.
  set (r := byte.unsigned top mod 128) in *. rewrite Et.
  assert (E : 2 ^ (7 + k) = 128 * 2 ^ k) by (rewrite Z.pow_add_r by lia; reflexivity).
  assert (0 < 2 ^ k) by (apply Z.pow_pos_nonneg; lia).
  rewrite ldiff_top; [rewrite E; ring|lia|]. rewrite (Z.pow_add_r 2 (7 + k)), E by lia. nia.
Qed.

Lemma makeScriptNum_value v requireMinimal L :
  len v <= L <= 7 -> requireMinimal = false \/ minimal v ->
  makeScriptNum v requireMinimal L = Ok (num_value v).
Proof.
  intros Hl Hm. unfold makeScriptNum. rewrite (proj2 (Z.ltb_ge _ _)) by lia.
  assert ((if requireMinimal then checkMinimalDataEncoding v else Ok ()) = Ok ()) as ->
    by (destruct Hm as [->|Hm]; [done|destruct requireMinimal; done]).
  cbn [mbind outcome_bind]. destruct v as [|top init _] using rev_ind; [reflexivity|].
  assert (El : len (init ++ [top]) = len init + 1) by (rewrite len_app; reflexivity).
  pose proof (len_nonneg init). rewrite (proj2 (Z.eqb_neq _ _)) by lia.
  rewrite decode_all, at_last, byte_land_80, num_value_snoc by lia. cbv zeta.
  replace (len (init ++ [top]) - 1) with (len init) by lia.
  destruct (Z.ltb_spec (byte.unsigned top) 128), (Z.leb_spec 128 (byte.unsigned top)); try lia; cbn [negb].
  - rewrite le_combine_snoc, Z.mod_small; [done|]. pose proof (byte.unsigned_range top). lia.
  - by rewrite clear_sign by lia.
Qed.

(** ** Encoding *)

Lemma Bytes_loop_combine init b fuel :
  byte.unsigned b <> 0 -> (length (init ++ [b]) <= fuel)%nat ->
  Bytes_loop fuel (le_combine (init ++ [b])) = init ++ [b].
Proof.
  intros Hb. revert fuel. induction init as [|c init IH]; intros fuel Hf; (destruct fuel as [|fuel]; [cbn in Hf; lia|]).
  all: cbn [app Bytes_loop]; rewrite le_combine_cons.
  - rewrite le_combine_nil, Z.add_0_r. pose proof (byte.unsigned_range b). rewrite (proj2 (Z.ltb_lt _ _)) by lia.
    assert (Z.land (byte.unsigned b) 0xff = byte.unsigned b) as -> by (destruct b; reflexivity).
    rewrite byte.of_Z_unsigned, Z.shiftr_div_pow2, Z.div_small by lia. by destruct fuel.
  - set (v := le_combine (init ++ [b])) in *. pose proof (byte.unsigned_range c).
    assert (Hv : 0 < v).
    { unfold v. rewrite le_combine_snoc. pose proof (le_combine_is_uint init) as Hi. unfold is_uint in Hi.
      pose proof (byte.unsigned_range b). assert (0 < 2 ^ (8 * len init)) by (apply Z.pow_pos_nonneg; [lia|pose proof (len_nonneg init); lia]). nia. }
    rewrite (proj2 (Z.ltb_lt _ _)) by lia.
    assert (Z.land (byte.unsigned c + v * 2 ^ 8) 0xff = byte.unsigned c) as ->.
    { change 0xff with (Z.ones 8). rewrite Z.land_ones, Z.mod_add, Z.mod_small by lia. done. }
    rewrite byte.of_Z_unsigned, Z.shiftr_div_pow2, Z.div_add, Z.div_small, Z.add_0_l by lia.
    rewrite IH; [done|]. cbn in Hf. lia.
Qed.

Lemma Bytes_loop_spec fuel n :
  0 < n < 2 ^ (8 * Z.of_nat fuel) ->
  exists init b, Bytes_loop fuel n = init ++ [b] /\ byte.unsigned b <> 0 /\ le_combine (init ++ [b]) = n.
Proof.
  revert n. induction fuel as [|fuel IH]; intros n Hn; [change (2 ^ (8 * Z.of_nat 0)) with 1 in Hn; lia|].
  cbn [Bytes_loop]. rewrite (proj2 (Z.ltb_lt _ _)) by lia.
  replace (8 * Z.of_nat (S fuel)) with (8 * Z.of_nat fuel + 8) in Hn by lia. rewrite Z.pow_add_r in Hn by lia.
  change 0xff with (Z.ones 8). rewrite Z.land_ones, Z.shiftr_div_pow2 by lia.
  pose proof (Z.div_mod n (2 ^ 8)). pose proof (Z.mod_pos_bound n (2 ^ 8)). pose proof (Z.div_pos n (2 ^ 8)).
  assert (Eb : byte.unsigned (byte.of_Z (n mod 2 ^ 8)) = n mod 2 ^ 8).
  { rewrite byte.unsigned_of_Z. unfold byte.wrap. by rewrite Zmod_mod. }
  destruct (decide (n / 2 ^ 8 = 0)) as [E|E].
  - exists [], (byte.of_Z (n mod 2 ^ 8)). rewrite E. split_and!; [by destruct fuel|lia|].
    cbn [app]. rewrite le_combine_cons, le_combine_nil. lia.
  - destruct (IH (n / 2 ^ 8)) as (init & b & -> & Hb & Hv).
    { split; [lia|]. apply Z.div_lt_upper_bound; lia. }
    exists (byte.of_Z (n mod 2 ^ 8) :: init), b. split_and!; [done..|]. cbn [app]. rewrite le_combine_cons, Hv. lia.
Qed.

(** The top byte of a minimal encoding is needed for a digit or for the sign. *)
Lemma minimal_snoc init top :
  minimal (init ++ [top]) <->
  byte.unsigned top mod 128 <> 0 \/ exists i u, init = i ++ [u] /\ 128 <= byte.unsigned u.
Proof.
  unfold minimal, checkMinimalDataEncoding. rewrite at_last, byte_land_7f.
  assert (El : len (init ++ [top]) = len init + 1) by (rewrite len_app; reflexivity).
  pose proof (len_nonneg init). rewrite El, (proj2 (Z.eqb_neq (len init + 1) 0)) by lia.
  destruct (Z.eqb_spec (byte.unsigned top mod 128) 0) as [E|E]; cbn [andb]; [|split; [by left|done]].
  destruct init as [|u i _] using rev_ind.
  { cbn. split; [done|]. intros [H'|(i & u & H' & _)]; [done|]. by destruct i. }
  assert (at_ ((i ++ [u]) ++ [top]) (len (i ++ [u]) + 1 - 2) = byte.unsigned u) as ->.
  { unfold at_, len. rewrite length_app. cbn [length].
    replace (Z.to_nat (Z.of_nat (length i + 1) + 1 - 2)) with (length i) by lia.
    rewrite <-app_assoc. cbn [app]. by rewrite app_nth2, Nat.sub_diag by lia. }
  rewrite byte_land_80. rewrite len_app. unfold len at 2. cbn [length]. pose proof (len_nonneg i).
  rewrite (proj2 (Z.eqb_neq (len i + Z.of_nat 1 + 1) 1)) by lia. cbn [orb].
  destruct (Z.ltb_spec (byte.unsigned u) 128) as [Hu|Hu]; split; try done.
  - intros [H'|(i' & u' & H' & Hu')]; [done|]. apply app_inj_tail in H' as [_ <-]. lia.
  - intros _. right. by exists i, u.
Qed.

Lemma num_value_nonneg_part init top :
  0 <= le_combine init + byte.unsigned top mod 128 * 2 ^ (8 * len init) < 2 ^ (8 * len init + 7).
Proof.
  pose proof (le_combine_is_uint init) as Hi. unfold is_uint in Hi. pose proof (len_nonneg init).
  pose proof (Z.mod_pos_bound (byte.unsigned top) 128). rewrite Z.pow_add_r by lia. change (2 ^ 7) with 128. nia.
Qed.

Lemma num_value_range v : v <> [] -> Z.abs (num_value v) < 2 ^ (8 * len v - 1).
Proof.
  destruct v as [|top init _] using rev_ind; [done|]. intros _. rewrite num_value_snoc. cbv zeta.
  rewrite len_app. unfold len at 4. cbn [length]. replace (8 * (len init + Z.of_nat 1) - 1) with (8 * len init + 7) by lia.
  pose proof (num_value_nonneg_part init top). destruct (128 <=? byte.unsigned top); lia.
Qed.

(** [scriptNum.Bytes] in terms of the digits of the magnitude. *)
Lemma scriptNum_Bytes_eq n init b :
  n <> 0 -> is_int 64 n -> n <> - 2 ^ 63 -> Bytes_loop 8 (Z.abs n) = init ++ [b] ->
  scriptNum_Bytes n = Ok (if 128 <=? byte.unsigned b
    then (init ++ [b]) ++ [byte.of_Z (if n <? 0 then 0x80 else 0x00)]
    else init ++ [byte.of_Z (Z.lor (byte.unsigned b) (if n <? 0 then 0x80 else 0x00))]).
Proof.
  intros Hn Hi Hm E. unfold scriptNum_Bytes, is_int in *. rewrite (proj2 (Z.eqb_neq _ _)) by done. cbv zeta.
  assert ((if n <? 0 then swrap 64 (- n) else n) = Z.abs n) as ->.
  { destruct (Z.ltb_spec n 0); [|lia]. rewrite swrap_id by (unfold is_int; lia). lia. }
  rewrite E, at_last, byte_land_80. assert (El : len (init ++ [b]) = len init + 1) by (rewrite len_app; reflexivity).
  pose proof (len_nonneg init). rewrite (proj2 (Z.eqb_neq _ _)) by lia.
  destruct (Z.ltb_spec (byte.unsigned b) 128), (Z.leb_spec 128 (byte.unsigned b)); try lia; cbn [negb]; [|done].
  destruct (n <? 0); [|by rewrite Z.lor_0_r, byte.of_Z_unsigned].
  rewrite length_app. cbn [length]. rewrite Nat.add_sub. by rewrite insert_app_r_alt, Nat.sub_diag by lia.
Qed.

Lemma byte_sign b s :
  byte.unsigned b < 128 -> s = 0x00 \/ s = 0x80 ->
  let t := byte.unsigned (byte.of_Z (Z.lor (byte.unsigned b) s)) in
  t mod 128 = byte.unsigned b /\ (128 <=? t) = (s =? 0x80).
Proof. intros Hb [-> | ->]; destruct b; (split; reflexivity) || (exfalso; vm_compute in Hb; discriminate). Qed.

(** The encoding of a number is minimal and stands for it. *)
Lemma scriptNum_Bytes_spec n :
  is_int 64 n -> n <> - 2 ^ 63 ->
  exists v, scriptNum_Bytes n = Ok v /\ minimal v /\ num_value v = n.
Proof.
  intros Hi Hm. unfold is_int in Hi. destruct (decide (n = 0)) as [->|Hn]; [by exists []|].
  destruct (Bytes_loop_spec 8 (Z.abs n)) as (init & b & E & Hb & Hv); [change (2 ^ (8 * Z.of_nat 8)) with (2 ^ 64); lia|].
  rewrite (scriptNum_Bytes_eq n init b) by done. eexists. split; [done|].
  pose proof (byte.unsigned_range b). destruct (Z.leb_spec 128 (byte.unsigned b)).
  - split; [apply minimal_snoc; right; by exists init, b|]. rewrite num_value_snoc, Hv. cbv zeta.
    destruct (Z.ltb_spec n 0).
    + change (byte.unsigned (byte.of_Z 0x80)) with 128. change (128 mod 128) with 0. change (128 <=? 128) with true. cbv iota. lia.
    + change (byte.unsigned (byte.of_Z 0x00)) with 0. change (0 mod 128) with 0. change (128 <=? 0) with false. cbv iota. lia.
  - assert (Hs : (if n <? 0 then 0x80 else 0x00) = 0x00 \/ (if n <? 0 then 0x80 else 0x00) = 0x80)
      by (destruct (n <? 0); lia).
    destruct (byte_sign b _ ltac:(lia) Hs) as [E1 E2]. cbv zeta in E1, E2. split.
    + apply minimal_snoc. left. by rewrite E1.
    + rewrite num_value_snoc, E1, E2. cbv zeta. rewrite <-le_combine_snoc, Hv.
      destruct (Z.ltb_spec n 0); cbn [Z.eqb Pos.eqb]; lia.
Qed.

(** Both ways of writing the sign, read back. *)
Lemma sign_of m c : 0 < m -> ((if c : bool then - m else m) <? 0) = c /\ Z.abs (if c then - m else m) = m.
Proof. intros Hm. destruct c; split; lia. Qed.

Lemma byte_digit top :
  let d := byte.of_Z (byte.unsigned top mod 128) in
  byte.unsigned d = byte.unsigned top mod 128 /\
  byte.of_Z (Z.lor (byte.unsigned d) (if 128 <=? byte.unsigned top then 0x80 else 0x00)) = top /\
  (byte.unsigned top mod 128 = 0 -> byte.of_Z (if 128 <=? byte.unsigned top then 0x80 else 0x00) = top).
Proof. destruct top; split_and!; try reflexivity; intros H; discriminate H. Qed.

(** A minimal encoding is the encoding of its value. *)
Lemma scriptNum_Bytes_minimal v : minimal v -> len v <= 7 -> scriptNum_Bytes (num_value v) = Ok v.
Proof.
  destruct v as [|top init _] using rev_ind; [done|]. intros Hmin Hl.
  assert (El : len (init ++ [top]) = len init + 1) by (rewrite len_app; reflexivity).
  pose proof (num_value_range (init ++ [top]) ltac:(by destruct init)) as Hr.
  assert (2 ^ (8 * len (init ++ [top]) - 1) <= 2 ^ 55) by (apply Z.pow_le_mono_r; lia).
  destruct (byte_digit top) as (Ed & Es & Ez). cbv zeta in *. set (d := byte.of_Z (byte.unsigned top mod 128)) in *.
  pose proof (Z.mod_pos_bound (byte.unsigned top) 128 ltac:(lia)) as Hd. rewrite num_value_snoc in *. cbv zeta in *.
  pose proof (num_value_nonneg_part init top) as Hp. set (m := le_combine init + _) in *.
  assert (Hc : exists i b, Bytes_loop 8 m = i ++ [b] /\ 0 < m /\
    init ++ [top] = if 128 <=? byte.unsigned b
      then (i ++ [b]) ++ [byte.of_Z (if 128 <=? byte.unsigned top then 0x80 else 0x00)]
      else i ++ [byte.of_Z (Z.lor (byte.unsigned b) (if 128 <=? byte.unsigned top then 0x80 else 0x00))]).
  { destruct (decide (byte.unsigned top mod 128 = 0)) as [Hz|Hz].
    - apply minimal_snoc in Hmin as [|(i & u & -> & Hu)]; [done|]. exists i, u.
      assert (Em : m = le_combine (i ++ [u])) by (unfold m; rewrite Hz; lia).
      rewrite Em, Bytes_loop_combine, (proj2 (Z.leb_le _ _)), (Ez Hz) by (unfold len in *; rewrite ?length_app in *; cbn in *; lia).
      split_and!; [done| |done]. rewrite le_combine_snoc. pose proof (le_combine_is_uint i) as Hi. unfold is_uint in Hi.
      assert (0 < 2 ^ (8 * len i)) by (apply Z.pow_pos_nonneg; pose proof (len_nonneg i); lia). nia.
    - exists init, d. assert (Em : m = le_combine (init ++ [d])) by (rewrite le_combine_snoc, Ed; done).
      rewrite Em at 1. rewrite Bytes_loop_combine by (unfold len in *; rewrite ?length_app in *; cbn in *; lia).
      rewrite (proj2 (Z.leb_gt _ _)), Es by lia. split_and!; [done| |done].
      pose proof (le_combine_is_uint init) as Hi. unfold is_uint in Hi.
      assert (0 < 2 ^ (8 * len init)) by (apply Z.pow_pos_nonneg; pose proof (len_nonneg init); lia). unfold m. nia. }
  destruct Hc as (i & b & Eb & Hm & ->). destruct (sign_of m (128 <=? byte.unsigned top) Hm) as [S1 S2].
  rewrite (scriptNum_Bytes_eq _ i b), S1; [done|..]; unfold is_int; rewrite ?S2; try done;
    destruct (128 <=? byte.unsigned top); lia.
Qed.

(** A minimal encoding is as short as its value allows. *)
Lemma minimal_lower init top :
  minimal (init ++ [top]) -> 2 ^ (8 * len init - 1) <= Z.abs (num_value (init ++ [top])).
Proof.
  intros Hmin. rewrite num_value_snoc. cbv zeta. pose proof (num_value_nonneg_part init top).
  set (m := le_combine init + _) in *. assert (Z.abs (if 128 <=? byte.unsigned top then - m else m) = m) as ->
    by (destruct (_ <=? _); lia). pose proof (len_nonneg init).
  pose proof (le_combine_is_uint init) as Hi. unfold is_uint in Hi. pose proof (Z.mod_pos_bound (byte.unsigned top) 128).
  apply minimal_snoc in Hmin as [Hd|(i & u & -> & Hu)].
  - assert (2 ^ (8 * len init - 1) <= 2 ^ (8 * len init)) by (apply Z.pow_le_mono_r; lia). unfold m. nia.
  - assert (El : len (i ++ [u]) = len i + 1) by (rewrite len_app; reflexivity).
    unfold m. rewrite le_combine_snoc, El.
    pose proof (le_combine_is_uint i) as Hi'. unfold is_uint in Hi'. pose proof (len_nonneg i).
    replace (8 * (len i + 1) - 1) with (8 * len i + 7) by lia. rewrite Z.pow_add_r by lia. change (2 ^ 7) with 128.
    assert (0 < 2 ^ (8 * len i)) by (apply Z.pow_pos_nonneg; lia).
    assert (0 <= byte.unsigned top mod 128 * 2 ^ (8 * (len i + 1))) by (apply Z.mul_nonneg_nonneg; lia). nia.
Qed.

Lemma minimal_len v L : minimal v -> 1 <= L -> Z.abs (num_value v) < 2 ^ (8 * L - 1) -> len v <= L.
Proof.
  destruct v as [|top init _] using rev_ind; [intros; unfold len; cbn; lia|]. intros Hmin HL Hr.
  pose proof (minimal_lower init top Hmin). assert (El : len (init ++ [top]) = len init + 1) by (rewrite len_app; reflexivity).
  assert (8 * len init - 1 < 8 * L - 1); [|lia]. apply (Z.pow_lt_mono_r_iff 2); lia.
Qed.

(** As a boolean, a number is whether it is not zero, the negative zero included. *)
Lemma asBool_num v : asBool v = negb (num_value v =? 0).
Proof.
  destruct v as [|top init _] using rev_ind; [reflexivity|]. rewrite num_value_snoc. cbv zeta.
  assert (H : asBool (init ++ [top]) = negb ((le_combine init =? 0) && (byte.unsigned top mod 128 =? 0))).
  { induction init as [|c init IH]; cbn [app asBool].
    - rewrite le_combine_nil. destruct top; reflexivity.
    - rewrite IH, le_combine_cons. pose proof (byte.unsigned_range c). pose proof (le_combine_is_uint init) as Hi.
      unfold is_uint in Hi. rewrite bool_decide_false by (by destruct init). cbn [andb].
      destruct (Z.eqb_spec (byte.unsigned c) 0) as [E|E].
      + do 2 f_equal. destruct (Z.eqb_spec (le_combine init) 0), (Z.eqb_spec (byte.unsigned c + le_combine init * 2 ^ 8) 0); lia.
      + rewrite (proj2 (Z.eqb_neq _ 0)) by lia. done. }
  rewrite H. f_equal. pose proof (le_combine_is_uint init) as Hi. unfold is_uint in Hi.
  pose proof (Z.mod_pos_bound (byte.unsigned top) 128). assert (0 < 2 ^ (8 * len init)) by lia.
  destruct (Z.eqb_spec (le_combine init) 0), (Z.eqb_spec (byte.unsigned top mod 128) 0); cbn [andb]; symmetry;
    destruct (128 <=? byte.unsigned top); first [apply Z.eqb_eq; nia | apply Z.eqb_neq; nia].
Qed.

(** * Correctness *)

(** The numbers of the script engine.  A number that fits [L] bytes (4 for the
    arithmetic opcodes, 5 for the lock times) is written in at most [L] bytes, is read back
    with the minimal encoding required, and is true exactly when it is not zero.  What is
    read is in the range of its length, and an encoding that passes the minimality check is
    the one [Bytes] writes, so every number has exactly one. *)
Theorem script_number_roundtrip L :
  1 <= L <= 7 ->
  (forall n, Z.abs n < 2 ^ (8 * L - 1) ->
     exists v, scriptNum_Bytes n = Ok v /\ len v <= L /\ makeScriptNum v true L = Ok n /\
       asBool v = negb (n =? 0)) /\
  (forall v m n, makeScriptNum v m L = Ok n -> Z.abs n < 2 ^ (8 * L - 1) /\ (m = true -> scriptNum_Bytes n = Ok v)).
Proof.
  intros HL. assert (Hb : 2 ^ (8 * L - 1) <= 2 ^ 55) by (apply Z.pow_le_mono_r; lia). split.
  - intros n Hn. destruct (scriptNum_Bytes_spec n) as (v & E & Hmin & Hv); [unfold is_int; lia..|].
    assert (Hl : len v <= L) by (apply minimal_len; [done|lia|by rewrite Hv]).
    exists v. rewrite makeScriptNum_value, asBool_num, Hv by (done || lia || by right). done.
  - intros v m n H. assert (Hl : len v <= L).
    { unfold makeScriptNum in H. destruct (Z.ltb_spec L (len v)); [done|lia]. }
    assert (Hm : m = false \/ minimal v).
    { destruct m; [|by left]. right. unfold makeScriptNum in H. destruct (L <? len v); [done|].
      unfold minimal. destruct (checkMinimalDataEncoding v) as [[]| |]; done. }
    rewrite makeScriptNum_value in H by (done || lia). injection H as <-. split.
    + destruct (decide (v = [])) as [->|Hv]; [change (num_value []) with 0; rewrite Z.abs_0; apply Z.pow_pos_nonneg; lia|].
      eapply Z.lt_le_trans; [by apply num_value_range|]. apply Z.pow_le_mono_r; lia.
    + intros ->. destruct Hm as [|Hm]; [done|]. apply scriptNum_Bytes_minimal; [done|lia].
Qed.

Lemma script_number_roundtrip_witness :
  scriptNum_Bytes (-255) = Ok (mkbytes [0xff; 0x80]) /\
  (exists v, scriptNum_Bytes (-255) = Ok v /\ makeScriptNum v true 4 = Ok (-255)) /\
  scriptNum_Bytes 127 = Ok (mkbytes [0x7f]).
Proof.
  destruct (script_number_roundtrip 4 ltac:(lia)) as [H1 H2]. split_and!; [reflexivity| |].
  - destruct (H1 (-255)) as (v & E & _ & R & _); [reflexivity|]. by exists v.
  - exact (proj2 (H2 (mkbytes [0x7f]) true 127 eq_refl) eq_refl).
Defined.
