(* ===== verification/Stack.v ===== *)
(** Model of txscript/stack.go: the stacks of the script engine.

    The items are listed from the top.  The Go code converts the length of the slice to
    an [int32]; the model has no such bound, the engine keeps the stacks below two
    thousand items. *)

From S2P Require Import Prelude ScriptNum.

Record stack := { stk : list bytes; verifyMinimalData : bool }.

Definition with_stk (s : stack) (l : list bytes) : stack := {| stk := l; verifyMinimalData := verifyMinimalData s |}.

Definition invalid_stack {A} : outcome A := scriptError "ErrInvalidStackOperation".

Definition Depth (s : stack) : Z := len (stk s).

Definition PushByteArray (so : bytes) (s : stack) : stack := with_stk s (so :: stk s).
Definition PushInt (val : Z) (s : stack) : outcome stack := so ← scriptNum_Bytes val; Ok (PushByteArray so s).
Definition PushBool (val : bool) (s : stack) : stack := PushByteArray (fromBool val) s.

(** The three cases of the source all remove the item from the slice. *)
Definition nipN (idx : Z) (s : stack) : outcome (bytes * stack) :=
  let sz := len (stk s) in
  if (idx <? 0) || (sz - 1 <? idx) then invalid_stack
  else
  match stk s !! Z.to_nat idx with
  | Some so => Ok (so, with_stk s (delete (Z.to_nat idx) (stk s)))
  | None => Panic
  end.

Definition PopByteArray (s : stack) : outcome (bytes * stack) := nipN 0 s.
Definition PopInt (s : stack) : outcome (Z * stack) :=
  '(so, s) ← PopByteArray s;
  n ← makeScriptNum so (verifyMinimalData s) defaultScriptNumLen;
  Ok (n, s).
Definition PopBool (s : stack) : outcome (bool * stack) := '(so, s) ← PopByteArray s; Ok (asBool so, s).

Definition PeekByteArray (idx : Z) (s : stack) : outcome bytes :=
  let sz := len (stk s) in
  if (idx <? 0) || (sz <=? idx) then invalid_stack
  else match stk s !! Z.to_nat idx with Some so => Ok so | None => Panic end.
Definition PeekInt (idx : Z) (s : stack) : outcome Z :=
  so ← PeekByteArray idx s; makeScriptNum so (verifyMinimalData s) defaultScriptNumLen.
Definition PeekBool (idx : Z) (s : stack) : outcome bool := so ← PeekByteArray idx s; Ok (asBool so).

Definition NipN (idx : Z) (s : stack) : outcome stack := '(_, s) ← nipN idx s; Ok s.

Definition Tuck (s : stack) : outcome stack :=
  '(so2, s) ← PopByteArray s;
  '(so1, s) ← PopByteArray s;
  Ok (PushByteArray so2 (PushByteArray so1 (PushByteArray so2 s))).

(** [for i := n; i > 0; i-- { body }] *)
Fixpoint times (n : nat) (body : stack -> outcome stack) (s : stack) : outcome stack :=
  match n with
  | O => Ok s
  | S n => s ← body s; times n body s
  end.

Definition DropN (n : Z) (s : stack) : outcome stack :=
  if n <? 1 then invalid_stack else times (Z.to_nat n) (fun s => '(_, s) ← PopByteArray s; Ok s) s.

Definition PickN (n : Z) (s : stack) : outcome stack := so ← PeekByteArray n s; Ok (PushByteArray so s).
Definition RollN (n : Z) (s : stack) : outcome stack := '(so, s) ← nipN n s; Ok (PushByteArray so s).

(** The bodies of the next loops are those of [PickN] and [RollN] for a fixed entry. *)
Definition DupN (n : Z) (s : stack) : outcome stack :=
  if n <? 1 then invalid_stack else times (Z.to_nat n) (PickN (n - 1)) s.
Definition RotN (n : Z) (s : stack) : outcome stack :=
  if n <? 1 then invalid_stack else times (Z.to_nat n) (RollN (swrap 32 (3 * n - 1))) s.
Definition SwapN (n : Z) (s : stack) : outcome stack :=
  if n <? 1 then invalid_stack else times (Z.to_nat n) (RollN (swrap 32 (2 * n - 1))) s.
Definition OverN (n : Z) (s : stack) : outcome stack :=
  if n <? 1 then invalid_stack else times (Z.to_nat n) (PickN (swrap 32 (2 * n - 1))) s.

(** engine.go: [getStack] lists the items from the bottom; [setStack] ignores the error of
    [DropN] on an empty stack. *)
Definition getStack (s : stack) : list bytes := rev (stk s).
Definition setStack (s : stack) (l : list bytes) : stack :=
  let s := match DropN (Depth s) s with Ok s => s | _ => s end in
  fold_left (fun s so => PushByteArray so s) l s.

(** * The operations as functions of lists *)

Section specs.
Context (m : bool).
Abbreviation st l := {| stk := l; verifyMinimalData := m |}.

Lemma nipN_spec idx l :
  nipN idx (st l) =
    if (0 <=? idx) && (idx <? len l)
    then Ok (default [] (l !! Z.to_nat idx), st (delete (Z.to_nat idx) l)) else invalid_stack.
Proof.
  unfold nipN, with_stk. cbn [stk verifyMinimalData].
  destruct (Z.ltb_spec idx 0), (Z.leb_spec 0 idx); try lia; cbn [orb andb]; [done|].
  destruct (Z.ltb_spec (len l - 1) idx), (Z.ltb_spec idx (len l)); try lia; [done|].
  destruct (lookup_lt_is_Some_2 l (Z.to_nat idx)) as [so E]; [unfold len in *; lia|]. by rewrite E.
Qed.

Lemma PopByteArray_cons so l : PopByteArray (st (so :: l)) = Ok (so, st l).
Proof.
  unfold PopByteArray. rewrite nipN_spec, len_cons. pose proof (len_nonneg l).
  rewrite (proj2 (Z.ltb_lt _ _)) by lia. done.
Qed.

Lemma PopByteArray_nil : PopByteArray (st []) = invalid_stack.
Proof. reflexivity. Qed.

Lemma PeekByteArray_spec idx l :
  PeekByteArray idx (st l) =
    if (0 <=? idx) && (idx <? len l) then Ok (default [] (l !! Z.to_nat idx)) else invalid_stack.
Proof.
  unfold PeekByteArray. cbn [stk].
  destruct (Z.ltb_spec idx 0), (Z.leb_spec 0 idx); try lia; cbn [orb andb]; [done|].
  destruct (Z.leb_spec (len l) idx), (Z.ltb_spec idx (len l)); try lia; [done|].
  destruct (lookup_lt_is_Some_2 l (Z.to_nat idx)) as [so E]; [unfold len in *; lia|]. by rewrite E.
Qed.

(** Splitting the top items off. *)
Lemma top_split (l : list bytes) n : 0 <= n <= len l -> exists a b, l = a ++ b /\ len a = n.
Proof.
  intros Hn. exists (take (Z.to_nat n) l), (drop (Z.to_nat n) l). rewrite take_drop. split; [done|].
  unfold len in *. rewrite length_take. lia.
Qed.

Lemma PickN_ok a so b : PickN (len a) (st (a ++ so :: b)) = Ok (st (so :: a ++ so :: b)).
Proof.
  unfold PickN. rewrite PeekByteArray_spec, len_app, len_cons. pose proof (len_nonneg a). pose proof (len_nonneg b).
  rewrite (proj2 (Z.leb_le _ _)), (proj2 (Z.ltb_lt _ _)) by lia. cbn [andb mbind outcome_bind].
  by rewrite to_nat_len, list_lookup_middle by done.
Qed.

Lemma RollN_ok a so b : RollN (len a) (st (a ++ so :: b)) = Ok (st (so :: a ++ b)).
Proof.
  unfold RollN. rewrite nipN_spec, len_app, len_cons. pose proof (len_nonneg a). pose proof (len_nonneg b).
  rewrite (proj2 (Z.leb_le _ _)), (proj2 (Z.ltb_lt _ _)) by lia. cbn [andb mbind outcome_bind].
  rewrite to_nat_len, list_lookup_middle by done. cbn [default]. by rewrite delete_middle.
Qed.

(** A block is copied, or moved, to the top one item at a time and in order: [q1] is what is
    left to do and [q2] what is done. *)
Lemma times_pick q1 q2 mid b :
  times (length q1) (PickN (len q2 + len mid + len q1 - 1)) (st (q2 ++ mid ++ q1 ++ q2 ++ b)) =
  Ok (st ((q1 ++ q2) ++ mid ++ (q1 ++ q2) ++ b)).
Proof.
  revert q2. induction q1 as [|x q1 IH] using rev_ind; intros q2; [done|].
  rewrite length_app, Nat.add_comm, len_app. change (len [x]) with 1. cbn [times length plus].
  pose proof (PickN_ok (q2 ++ mid ++ q1) x (q2 ++ b)) as E. rewrite !len_app in E.
  replace (len q2 + len mid + (len q1 + 1) - 1) with (len q2 + (len mid + len q1)) by lia.
  replace (q2 ++ mid ++ (q1 ++ [x]) ++ q2 ++ b) with ((q2 ++ mid ++ q1) ++ x :: q2 ++ b) by (by rewrite <-!app_assoc).
  rewrite E. cbn [mbind outcome_bind].
  replace (len q2 + (len mid + len q1)) with (len (x :: q2) + len mid + len q1 - 1) by (rewrite len_cons; lia).
  replace (x :: (q2 ++ mid ++ q1) ++ x :: q2 ++ b) with ((x :: q2) ++ mid ++ q1 ++ (x :: q2) ++ b)
    by (cbn; by rewrite <-!app_assoc).
  rewrite IH. by rewrite <-!app_assoc.
Qed.

Lemma times_roll q1 q2 mid b :
  times (length q1) (RollN (len q2 + len mid + len q1 - 1)) (st (q2 ++ mid ++ q1 ++ b)) =
  Ok (st ((q1 ++ q2) ++ mid ++ b)).
Proof.
  revert q2. induction q1 as [|x q1 IH] using rev_ind; intros q2; [done|].
  rewrite length_app, Nat.add_comm, len_app. change (len [x]) with 1. cbn [times length plus].
  pose proof (RollN_ok (q2 ++ mid ++ q1) x b) as E. rewrite !len_app in E.
  replace (len q2 + len mid + (len q1 + 1) - 1) with (len q2 + (len mid + len q1)) by lia.
  replace (q2 ++ mid ++ (q1 ++ [x]) ++ b) with ((q2 ++ mid ++ q1) ++ x :: b) by (by rewrite <-!app_assoc).
  rewrite E. cbn [mbind outcome_bind].
  replace (len q2 + (len mid + len q1)) with (len (x :: q2) + len mid + len q1 - 1) by (rewrite len_cons; lia).
  replace (x :: (q2 ++ mid ++ q1) ++ b) with ((x :: q2) ++ mid ++ q1 ++ b) by (cbn; by rewrite <-!app_assoc).
  rewrite IH. by rewrite <-!app_assoc.
Qed.

Lemma times_fails k body s e : (0 < k)%nat -> body s = Err e -> times k body s = Err e.
Proof. intros Hk E. destruct k; [lia|]. cbn [times]. by rewrite E. Qed.

Lemma PickN_short i l : len l <= i -> PickN i (st l) = invalid_stack.
Proof. intros H. unfold PickN. rewrite PeekByteArray_spec, (proj2 (Z.ltb_ge _ _)), andb_false_r by lia. done. Qed.

Lemma RollN_short i l : len l <= i -> RollN i (st l) = invalid_stack.
Proof. intros H. unfold RollN. rewrite nipN_spec, (proj2 (Z.ltb_ge _ _)), andb_false_r by lia. done. Qed.

Lemma times_drop k l :
  times k (fun s => '(_, s) ← PopByteArray s; Ok s) (st l) =
    if decide (k <= length l)%nat then Ok (st (drop k l)) else invalid_stack.
Proof.
  revert l. induction k as [|k IH]; intros l; cbn [times]; [by rewrite decide_True by lia|].
  destruct l as [|so l]; [by rewrite decide_False by (cbn; lia)|]. rewrite PopByteArray_cons. cbn [mbind outcome_bind].
  rewrite IH. cbn [length drop]. by destruct (decide (k <= length l)%nat), (decide (S k <= S (length l))%nat); try lia.
Qed.

(** A block of the list, as the concatenation of its parts. *)
Lemma blocks_split (l : list bytes) n k :
  0 < n -> 0 <= k -> k + n <= len l ->
  exists mid q b, l = mid ++ q ++ b /\ len mid = k /\ len q = n /\
    take (Z.to_nat n) (drop (Z.to_nat k) l) = q /\ take (Z.to_nat k) l = mid /\ drop (Z.to_nat (k + n)) l = b.
Proof.
  intros Hn Hk Hl. destruct (top_split l k) as (mid & r & -> & Hm); [lia|].
  rewrite len_app in Hl. destruct (top_split r n) as (q & b & -> & Hq); [lia|].
  exists mid, q, b. rewrite <-Hm, <-Hq. replace (len mid + len q) with (len (mid ++ q)) by apply len_app.
  rewrite !to_nat_len, drop_app_length, !take_app_length, (app_assoc mid q b), drop_app_length. done.
Qed.

Lemma DropN_spec n l : DropN n (st l) = if (1 <=? n) && (n <=? len l) then Ok (st (drop (Z.to_nat n) l)) else invalid_stack.
Proof.
  unfold DropN. destruct (Z.ltb_spec n 1), (Z.leb_spec 1 n); try lia; [done|]. cbn [andb]. rewrite times_drop. unfold len.
  by destruct (decide _), (Z.leb_spec n (Z.of_nat (length l))); try lia.
Qed.

Lemma pick_block n l k :
  0 < n -> 0 <= k ->
  times (Z.to_nat n) (PickN (k + n - 1)) (st l) =
    if k + n <=? len l then Ok (st (take (Z.to_nat n) (drop (Z.to_nat k) l) ++ l)) else invalid_stack.
Proof.
  intros Hn Hk. destruct (Z.leb_spec (k + n) (len l)) as [Hl|Hl].
  - destruct (blocks_split l n k) as (mid & q & b & -> & Hm & Hq & -> & _ & _); [lia..|].
    pose proof (times_pick q [] mid b) as E. rewrite !app_nil_r in E. cbn [app] in E.
    replace (Z.to_nat n) with (length q) by (unfold len in Hq; lia). rewrite <-E. do 2 f_equal.
    unfold len at 1. cbn. lia.
  - apply times_fails; [lia|]. apply PickN_short. lia.
Qed.

Lemma roll_block n l k :
  0 < n -> 0 <= k ->
  times (Z.to_nat n) (RollN (k + n - 1)) (st l) =
    if k + n <=? len l
    then Ok (st (take (Z.to_nat n) (drop (Z.to_nat k) l) ++ take (Z.to_nat k) l ++ drop (Z.to_nat (k + n)) l))
    else invalid_stack.
Proof.
  intros Hn Hk. destruct (Z.leb_spec (k + n) (len l)) as [Hl|Hl].
  - destruct (blocks_split l n k) as (mid & q & b & -> & Hm & Hq & -> & -> & ->); [lia..|].
    pose proof (times_roll q [] mid b) as E. rewrite !app_nil_r in E. cbn [app] in E.
    replace (Z.to_nat n) with (length q) by (unfold len in Hq; lia). rewrite <-E. do 2 f_equal.
    unfold len at 1. cbn. lia.
  - apply times_fails; [lia|]. apply RollN_short. lia.
Qed.

(** The operations that move items of the stack, as functions of the list of items from
    the top, for any count the handlers could pass: [DupN] copies the top [n] items in
    order, [OverN] the [n] items below them, [SwapN] and [RotN] bring up the [n] items below
    the top [n] and [2n]; each fails with ErrInvalidStackOperation exactly when the stack
    is too short. *)
Theorem stack_block_operations n l :
  1 <= n < 2 ^ 29 ->
  let k := Z.to_nat n in
  DropN n (st l) = (if n <=? len l then Ok (st (drop k l)) else invalid_stack) /\
  DupN n (st l) = (if n <=? len l then Ok (st (take k l ++ l)) else invalid_stack) /\
  OverN n (st l) = (if 2 * n <=? len l then Ok (st (take k (drop k l) ++ l)) else invalid_stack) /\
  SwapN n (st l) = (if 2 * n <=? len l
    then Ok (st (take k (drop k l) ++ take k l ++ drop (2 * k) l)) else invalid_stack) /\
  RotN n (st l) = (if 3 * n <=? len l
    then Ok (st (take k (drop (2 * k) l) ++ take (2 * k) l ++ drop (3 * k) l)) else invalid_stack) /\
  Tuck (st l) = match l with x2 :: x1 :: r => Ok (st (x2 :: x1 :: x2 :: r)) | _ => invalid_stack end.
Proof.
  intros Hn k. unfold DupN, OverN, SwapN, RotN. replace (n <? 1) with false by (symmetry; apply Z.ltb_ge; lia).
  cbv iota.
  rewrite !swrap_id by (unfold is_int; lia). split_and!.
  - rewrite DropN_spec, (proj2 (Z.leb_le 1 n)) by lia. done.
  - pose proof (pick_block n l 0) as E. rewrite !Z.add_0_l in E. rewrite E by lia. done.
  - replace (2 * n - 1) with (n + n - 1) by lia. rewrite pick_block by lia. by replace (n + n) with (2 * n) by lia.
  - replace (2 * n - 1) with (n + n - 1) by lia. rewrite roll_block by lia. replace (n + n) with (2 * n) by lia.
    by replace (Z.to_nat (2 * n)) with (2 * k)%nat by lia.
  - replace (3 * n - 1) with (2 * n + n - 1) by lia. rewrite roll_block by lia. replace (2 * n + n) with (3 * n) by lia.
    replace (Z.to_nat (2 * n)) with (2 * k)%nat by lia. by replace (Z.to_nat (3 * n)) with (3 * k)%nat by lia.
  - unfold Tuck. destruct l as [|x2 [|x1 r]]; [done|by rewrite PopByteArray_cons|].
    rewrite PopByteArray_cons. cbn [mbind outcome_bind]. rewrite PopByteArray_cons. done.
Qed.

Lemma setStack_spec l' l : setStack (st l) l' = st (rev l').
Proof.
  unfold setStack, Depth. cbn [stk]. rewrite DropN_spec.
  assert (E : (match (if (1 <=? len l) && (len l <=? len l) then Ok (st (drop (Z.to_nat (len l)) l)) else invalid_stack)
    with Ok s => s | _ => st l end) = st []).
  { destruct l as [|x l]; [done|]. rewrite len_cons. pose proof (len_nonneg l). rewrite !(proj2 (Z.leb_le _ _)) by lia.
    cbn [andb]. rewrite drop_ge; [done|]. unfold len. cbn [length]. lia. }
  rewrite E. clear E. rewrite <-(app_nil_r (rev l')). generalize (@nil bytes). induction l' as [|x l' IH]; intros acc; [done|].
  cbn [fold_left rev]. rewrite <-app_assoc. cbn [app]. apply IH.
Qed.
End specs.

Lemma stack_block_operations_witness :
  1 <= 2 < 2 ^ 29 /\
  RotN 2 {| stk := map (fun z => mkbytes [z]) [6; 5; 4; 3; 2; 1]; verifyMinimalData := true |} =
  Ok {| stk := map (fun z => mkbytes [z]) [2; 1; 6; 5; 4; 3]; verifyMinimalData := true |}.
Proof.
  split; [lia|]. destruct (stack_block_operations true 2 (map (fun z => mkbytes [z]) [6; 5; 4; 3; 2; 1])) as (_ & _ & _ & _ & H & _);
    [lia|]. exact H.
Defined.
