(* ===== verification/Opcode.v ===== *)
(** The opcodes of txscript/opcode.go: their values, the lengths of the table
    [opcodeArray], and the classes of opcodes the engine treats apart.  The
    handlers are in the model of the engine. *)

From S2P Require Import Prelude ScriptNum.

Definition OP_0 : Z := 0x00.
Definition OP_DATA_1 : Z := 0x01.
Definition OP_DATA_4 : Z := 0x04.
Definition OP_DATA_20 : Z := 0x14.
Definition OP_DATA_32 : Z := 0x20.
Definition OP_DATA_36 : Z := 0x24.
Definition OP_DATA_33 : Z := 0x21.
Definition OP_DATA_65 : Z := 0x41.
Definition OP_DATA_75 : Z := 0x4b.
Definition OP_PUSHDATA1 : Z := 0x4c.
Definition OP_PUSHDATA2 : Z := 0x4d.
Definition OP_PUSHDATA4 : Z := 0x4e.
Definition OP_1NEGATE : Z := 0x4f.
Definition OP_RESERVED : Z := 0x50.
Definition OP_1 : Z := 0x51.
Definition OP_16 : Z := 0x60.
Definition OP_NOP : Z := 0x61.
Definition OP_VER : Z := 0x62.
Definition OP_IF : Z := 0x63.
Definition OP_NOTIF : Z := 0x64.
Definition OP_VERIF : Z := 0x65.
Definition OP_VERNOTIF : Z := 0x66.
Definition OP_ELSE : Z := 0x67.
Definition OP_ENDIF : Z := 0x68.
Definition OP_VERIFY : Z := 0x69.
Definition OP_RETURN : Z := 0x6a.
Definition OP_TOALTSTACK : Z := 0x6b.
Definition OP_FROMALTSTACK : Z := 0x6c.
Definition OP_2DROP : Z := 0x6d.
Definition OP_2DUP : Z := 0x6e.
Definition OP_3DUP : Z := 0x6f.
Definition OP_2OVER : Z := 0x70.
Definition OP_2ROT : Z := 0x71.
Definition OP_2SWAP : Z := 0x72.
Definition OP_IFDUP : Z := 0x73.
Definition OP_DEPTH : Z := 0x74.
Definition OP_DROP : Z := 0x75.
Definition OP_DUP : Z := 0x76.
Definition OP_NIP : Z := 0x77.
Definition OP_OVER : Z := 0x78.
Definition OP_PICK : Z := 0x79.
Definition OP_ROLL : Z := 0x7a.
Definition OP_ROT : Z := 0x7b.
Definition OP_SWAP : Z := 0x7c.
Definition OP_TUCK : Z := 0x7d.
Definition OP_CAT : Z := 0x7e.
Definition OP_SUBSTR : Z := 0x7f.
Definition OP_LEFT : Z := 0x80.
Definition OP_RIGHT : Z := 0x81.
Definition OP_SIZE : Z := 0x82.
Definition OP_INVERT : Z := 0x83.
Definition OP_AND : Z := 0x84.
Definition OP_OR : Z := 0x85.
Definition OP_XOR : Z := 0x86.
Definition OP_EQUAL : Z := 0x87.
Definition OP_EQUALVERIFY : Z := 0x88.
Definition OP_RESERVED1 : Z := 0x89.
Definition OP_RESERVED2 : Z := 0x8a.
Definition OP_1ADD : Z := 0x8b.
Definition OP_1SUB : Z := 0x8c.
Definition OP_2MUL : Z := 0x8d.
Definition OP_2DIV : Z := 0x8e.
Definition OP_NEGATE : Z := 0x8f.
Definition OP_ABS : Z := 0x90.
Definition OP_NOT : Z := 0x91.
Definition OP_0NOTEQUAL : Z := 0x92.
Definition OP_ADD : Z := 0x93.
Definition OP_SUB : Z := 0x94.
Definition OP_MUL : Z := 0x95.
Definition OP_DIV : Z := 0x96.
Definition OP_MOD : Z := 0x97.
Definition OP_LSHIFT : Z := 0x98.
Definition OP_RSHIFT : Z := 0x99.
Definition OP_BOOLAND : Z := 0x9a.
Definition OP_BOOLOR : Z := 0x9b.
Definition OP_NUMEQUAL : Z := 0x9c.
Definition OP_NUMEQUALVERIFY : Z := 0x9d.
Definition OP_NUMNOTEQUAL : Z := 0x9e.
Definition OP_LESSTHAN : Z := 0x9f.
Definition OP_GREATERTHAN : Z := 0xa0.
Definition OP_LESSTHANOREQUAL : Z := 0xa1.
Definition OP_GREATERTHANOREQUAL : Z := 0xa2.
Definition OP_MIN : Z := 0xa3.
Definition OP_MAX : Z := 0xa4.
Definition OP_WITHIN : Z := 0xa5.
Definition OP_RIPEMD160 : Z := 0xa6.
Definition OP_SHA1 : Z := 0xa7.
Definition OP_SHA256 : Z := 0xa8.
Definition OP_HASH160 : Z := 0xa9.
Definition OP_HASH256 : Z := 0xaa.
Definition OP_CODESEPARATOR : Z := 0xab.
Definition OP_CHECKSIG : Z := 0xac.
Definition OP_CHECKSIGVERIFY : Z := 0xad.
Definition OP_CHECKMULTISIG : Z := 0xae.
Definition OP_CHECKMULTISIGVERIFY : Z := 0xaf.
Definition OP_NOP1 : Z := 0xb0.
Definition OP_CHECKLOCKTIMEVERIFY : Z := 0xb1.
Definition OP_CHECKSEQUENCEVERIFY : Z := 0xb2.
Definition OP_INPUTAGE : Z := 0xb3.
Definition OP_NOP5 : Z := 0xb4.
Definition OP_NOP6 : Z := 0xb5.
Definition OP_NOP7 : Z := 0xb6.
Definition OP_NOP8 : Z := 0xb7.
Definition OP_NOP9 : Z := 0xb8.
Definition OP_NOP10 : Z := 0xb9.

(** The [length] of the entries of [opcodeArray]: [OP_DATA_1] to [OP_DATA_75] push as many
    bytes, the three [OP_PUSHDATA] read a length of 1, 2 or 4 bytes, all the others have
    no data. *)
Definition opcode_length (value : Z) : Z :=
  if (OP_DATA_1 <=? value) && (value <=? OP_DATA_75) then value + 1
  else if value =? OP_PUSHDATA1 then -1
  else if value =? OP_PUSHDATA2 then -2
  else if value =? OP_PUSHDATA4 then -4
  else 1.

(** A parsed opcode: the pointer into [opcodeArray] is given by the value. *)
Record parsedOpcode := { opcode : Z; data : bytes }.

#[export] Instance parsedOpcode_eq_dec : EqDecision parsedOpcode.
Proof. solve_decision. Defined.

Definition one_of (v : Z) (l : list Z) : bool := existsb (Z.eqb v) l.

Definition isDisabled (pop : parsedOpcode) : bool :=
  one_of (opcode pop) [OP_CAT; OP_SUBSTR; OP_LEFT; OP_RIGHT; OP_INVERT; OP_AND; OP_OR; OP_XOR;
    OP_2MUL; OP_2DIV; OP_MUL; OP_DIV; OP_MOD; OP_LSHIFT; OP_RSHIFT].

Definition alwaysIllegal (pop : parsedOpcode) : bool := one_of (opcode pop) [OP_VERIF; OP_VERNOTIF].

Definition isConditional (pop : parsedOpcode) : bool :=
  one_of (opcode pop) [OP_IF; OP_NOTIF; OP_ELSE; OP_ENDIF].

Definition checkMinimalDataPush (pop : parsedOpcode) : outcome unit :=
  let dataLen := len (data pop) in
  let d0 := at_ (data pop) 0 in
  let need ok := if ok : bool then Ok () else scriptError "ErrMinimalData" in
  if (dataLen =? 0) && negb (opcode pop =? OP_0) then scriptError "ErrMinimalData"
  else if (dataLen =? 1) && (1 <=? d0) && (d0 <=? 16) then need (opcode pop =? uwrap 8 (OP_1 + d0 - 1))
  else if (dataLen =? 1) && (d0 =? 0x81) then need (opcode pop =? OP_1NEGATE)
  else if dataLen <=? 75 then need (opcode pop =? dataLen)
  else if dataLen <=? 255 then need (opcode pop =? OP_PUSHDATA1)
  else if dataLen <=? 65535 then need (opcode pop =? OP_PUSHDATA2)
  else Ok ().

(** [parsedOpcode.bytes].  The length field is written with the bytes of [len(pop.data)]
    and read back to compute the expected total. *)
Definition parsedOpcode_bytes (pop : parsedOpcode) : outcome bytes :=
  let length := opcode_length (opcode pop) in
  let retbytes := [byte.of_Z (opcode pop)] in
  if length =? 1 then
    if negb (len (data pop) =? 0) then scriptError "ErrInternal" else Ok retbytes
  else
  let l := len (data pop) in
  let '(retbytes, nbytes) :=
    if length <? 0 then
      let field := le_split (Z.to_nat (- length)) l in
      (retbytes ++ field, le_combine field + len (retbytes ++ field))
    else (retbytes, length) in
  let retbytes := retbytes ++ data pop in
  if negb (len retbytes =? nbytes) then scriptError "ErrInternal" else Ok retbytes.
