(* ===== verification/Script.v ===== *)
(** Model of txscript/script.go, of the script classes of standard.go, multisig.go and
    lock_script.go and of scriptbuilder.go: parsing and unparsing, the templates of
    the standard scripts, signature operation counts, and the script builder. *)

From S2P Require Import Prelude ScriptNum Opcode.

Definition MaxOpsPerScript : Z := 201.
Definition MaxPubKeysPerMultiSig : Z := 20.
Definition MaxScriptElementSize : Z := 520.
Definition MaxScriptSize : Z := 10000.
Definition LockTimeThreshold : Z := 500000000.
Definition payToWitnessPubKeyHashDataSize : Z := 20.
Definition payToWitnessScriptHashDataSize : Z := 32.

(** * Parsing *)

(** One turn of the loop of [parseScriptTemplate] on a script that starts with [instr]:
    the parsed opcode and what is left, or a malformed push. *)
Definition parse_opcode (instr : Init.Byte.byte) (rest : bytes) : option (parsedOpcode * bytes) :=
  let op := byte.unsigned instr in
  let length := opcode_length op in
  if length =? 1 then Some ({| opcode := op; data := [] |}, rest)
  else if 1 <? length then
    if len (instr :: rest) <? length then None
    else Some ({| opcode := op; data := take (Z.to_nat (length - 1)) rest |}, drop (Z.to_nat (length - 1)) rest)
  else
    if len rest <? - length then None
    else
    let l := le_combine (take (Z.to_nat (- length)) rest) in
    let rest := drop (Z.to_nat (- length)) rest in
    if (len rest <? swrap 64 l) || (swrap 64 l <? 0) then None
    else Some ({| opcode := op; data := take (Z.to_nat l) rest |}, drop (Z.to_nat l) rest).

(** The opcodes up to a failure, and the failure.  Every turn consumes at least a byte. *)
Fixpoint parse_loop (fuel : nat) (script : bytes) : list parsedOpcode * option go_error :=
  match fuel, script with
  | S fuel, instr :: rest =>
      match parse_opcode instr rest with
      | None => ([], Some (ScriptError "ErrMalformedPush"))
      | Some (pop, rest) => let '(pops, err) := parse_loop fuel rest in (pop :: pops, err)
      end
  | _, _ => ([], None)
  end.

Definition parseScriptTemplate (script : bytes) : list parsedOpcode * option go_error :=
  parse_loop (length script) script.

(** The call [pops, err := parseScript(script)] followed by [if err != nil { return err }]. *)
Definition parseScript (script : bytes) : outcome (list parsedOpcode) :=
  match parseScriptTemplate script with (pops, None) => Ok pops | (_, Some e) => Err e end.

Fixpoint unparseScript (pops : list parsedOpcode) : outcome bytes :=
  match pops with
  | [] => Ok []
  | pop :: pops => b ← parsedOpcode_bytes pop; script ← unparseScript pops; Ok (b ++ script)
  end.

(** [pops, err := parseScript(script); if err != nil { return false }; return f(pops)] *)
Definition parsed_and (f : list parsedOpcode -> bool) (script : bytes) : bool :=
  match parseScript script with Ok pops => f pops | _ => false end.

(** * Templates *)

(** [pops[i]] for an index the caller has checked. *)
Definition pop_at (pops : list parsedOpcode) (i : Z) : parsedOpcode :=
  nth (Z.to_nat i) pops {| opcode := 0; data := [] |}.

Definition isOpCode (pCode : parsedOpcode) (expected : Z) : bool := opcode pCode =? expected.

Definition isSmallInt (op : Z) : bool := (op =? OP_0) || ((OP_1 <=? op) && (op <=? OP_16)).

Definition isNumber (op : Z) : bool := isSmallInt op || ((OP_DATA_1 <=? op) && (op <=? OP_DATA_4)).

Definition asSmallInt (op : Z) : Z := if op =? OP_0 then 0 else uwrap 8 (op - (OP_1 - 1)).

Definition isScriptHash (pops : list parsedOpcode) : bool :=
  (len pops =? 3) && isOpCode (pop_at pops 0) OP_HASH160 && isOpCode (pop_at pops 1) OP_DATA_20 &&
  isOpCode (pop_at pops 2) OP_EQUAL.
Definition IsPayToScriptHash : bytes -> bool := parsed_and isScriptHash.

Definition isWitnessScriptHash (pops : list parsedOpcode) : bool :=
  (len pops =? 2) && isOpCode (pop_at pops 0) OP_0 && isOpCode (pop_at pops 1) OP_DATA_32.
Definition IsPayToWitnessScriptHash : bytes -> bool := parsed_and isWitnessScriptHash.

Definition isWitnessPubKeyHash (pops : list parsedOpcode) : bool :=
  (len pops =? 2) && isOpCode (pop_at pops 0) OP_0 && isOpCode (pop_at pops 1) OP_DATA_20.
Definition IsPayToWitnessPubKeyHash : bytes -> bool := parsed_and isWitnessPubKeyHash.

Definition isPushOnly (pops : list parsedOpcode) : bool := forallb (fun pop => opcode pop <=? OP_16) pops.
Definition IsPushOnlyScript : bytes -> bool := parsed_and isPushOnly.

Definition canonicalPush (pop : parsedOpcode) : bool :=
  let dataLen := len (data pop) in
  if OP_16 <? opcode pop then true
  else if (opcode pop <? OP_PUSHDATA1) && (OP_0 <? opcode pop) && ((dataLen =? 1) && (at_ (data pop) 0 <=? 16)) then false
  else if (opcode pop =? OP_PUSHDATA1) && (dataLen <? OP_PUSHDATA1) then false
  else if (opcode pop =? OP_PUSHDATA2) && (dataLen <=? 0xff) then false
  else if (opcode pop =? OP_PUSHDATA4) && (dataLen <=? 0xffff) then false
  else true.

Definition removeOpcode (pkscript : list parsedOpcode) (op : Z) : list parsedOpcode :=
  List.filter (fun pop => negb (opcode pop =? op)) pkscript.

(** [bytes.Contains(b, subslice)] *)
Fixpoint bytes_Contains (b subslice : bytes) : bool :=
  bool_decide (take (length subslice) b = subslice) ||
  match b with [] => false | _ :: b => bytes_Contains b subslice end.

Definition removeOpcodeByData (pkscript : list parsedOpcode) (d : bytes) : list parsedOpcode :=
  List.filter (fun pop => negb (canonicalPush pop) || negb (bytes_Contains (data pop) d)) pkscript.

Definition isPubkey (pops : list parsedOpcode) : bool :=
  (len pops =? 2) && ((len (data (pop_at pops 0)) =? 33) || (len (data (pop_at pops 0)) =? 65)) &&
  isOpCode (pop_at pops 1) OP_CHECKSIG.

Definition isPubkeyHash (pops : list parsedOpcode) : bool :=
  (len pops =? 5) && isOpCode (pop_at pops 0) OP_DUP && isOpCode (pop_at pops 1) OP_HASH160 &&
  isOpCode (pop_at pops 2) OP_DATA_20 && isOpCode (pop_at pops 3) OP_EQUALVERIFY &&
  isOpCode (pop_at pops 4) OP_CHECKSIG.

Definition isMultiSig (pops : list parsedOpcode) : bool :=
  let l := len pops in
  if l <? 4 then false
  else if negb (isSmallInt (opcode (pop_at pops 0))) then false
  else if negb (isSmallInt (opcode (pop_at pops (l - 2)))) then false
  else if negb (opcode (pop_at pops (l - 1)) =? OP_CHECKMULTISIG) then false
  else if negb (l - 2 - 1 =? asSmallInt (opcode (pop_at pops (l - 2)))) then false
  else forallb (fun pop => (len (data pop) =? 33) || (len (data pop) =? 65))
         (take (Z.to_nat (l - 3)) (drop 1 pops)).

Definition mslTailLen : Z := 5.
Definition mslFirstMSigOpI : Z := 4.

Definition isMultiSigLock (pops : list parsedOpcode) : bool :=
  let l := len pops in
  if l <? 13 then false
  else if negb (isOpCode (pop_at pops 0) OP_INPUTAGE && isNumber (opcode (pop_at pops 1)) &&
                isOpCode (pop_at pops 2) OP_LESSTHAN && isOpCode (pop_at pops 3) OP_IF &&
                isOpCode (pop_at pops (l - 5)) OP_ELSE &&
                ((len (data (pop_at pops (l - 4))) =? 33) || (len (data (pop_at pops (l - 4))) =? 65)) &&
                isOpCode (pop_at pops (l - 3)) OP_CHECKSIG && isOpCode (pop_at pops (l - 2)) OP_NIP &&
                isOpCode (pop_at pops (l - 1)) OP_ENDIF) then false
  else isMultiSig (take (Z.to_nat (l - mslTailLen - mslFirstMSigOpI)) (drop (Z.to_nat mslFirstMSigOpI) pops)).

Definition MaxDataCarrierSize : Z := 80.

Definition isNullData (pops : list parsedOpcode) : bool :=
  let l := len pops in
  if (l =? 1) && isOpCode (pop_at pops 0) OP_RETURN then true
  else (l =? 2) && isOpCode (pop_at pops 0) OP_RETURN &&
       (isSmallInt (opcode (pop_at pops 1)) || (opcode (pop_at pops 1) <=? OP_PUSHDATA4)) &&
       (len (data (pop_at pops 1)) <=? MaxDataCarrierSize).

Inductive ScriptClass :=
| NonStandardTy | PubKeyTy | PubKeyHashTy | WitnessV0PubKeyHashTy | ScriptHashTy | WitnessV0ScriptHashTy
| MultiSigTy | MultiSigLockTy | EADAddressTy | HTLCScriptTy | NullDataTy.

#[export] Instance ScriptClass_eq_dec : EqDecision ScriptClass.
Proof. solve_decision. Defined.

(** [isHTLC]: the flag is whether the class is not [NonStandardTy]. *)
Definition isHTLC (pops : list parsedOpcode) : bool * ScriptClass :=
  let l := len pops in
  if negb (l =? 9) && negb (l =? 10) && negb (l =? 12) then (false, NonStandardTy)
  else if negb (isOpCode (pop_at pops 0) OP_INPUTAGE && isNumber (opcode (pop_at pops 1)) &&
                isOpCode (pop_at pops 2) OP_GREATERTHAN && isOpCode (pop_at pops 3) OP_IF &&
                isOpCode (pop_at pops (l - 3)) OP_ELSE && isOpCode (pop_at pops (l - 2)) OP_RETURN &&
                isOpCode (pop_at pops (l - 1)) OP_ENDIF) then (false, NonStandardTy)
  else
  let len4 := len (data (pop_at pops 4)) in let len5 := len (data (pop_at pops 5)) in
  if l =? 9 then
    if ((len4 =? 33) || (len4 =? 65)) && isOpCode (pop_at pops 5) OP_CHECKSIG then (true, PubKeyTy)
    else if isOpCode (pop_at pops 4) OP_0 && (len5 =? 20) then (true, WitnessV0PubKeyHashTy)
    else if isOpCode (pop_at pops 4) OP_0 && (len5 =? 32) then (true, WitnessV0ScriptHashTy)
    else (false, NonStandardTy)
  else if l =? 10 then
    if isOpCode (pop_at pops 4) OP_HASH160 && isOpCode (pop_at pops 5) OP_DATA_20 &&
       isOpCode (pop_at pops 6) OP_EQUAL then (true, ScriptHashTy)
    else (false, NonStandardTy)
  else
    if isOpCode (pop_at pops 4) OP_DUP && isOpCode (pop_at pops 5) OP_HASH160 &&
       isOpCode (pop_at pops 6) OP_DATA_20 && isOpCode (pop_at pops 7) OP_EQUALVERIFY &&
       isOpCode (pop_at pops 8) OP_CHECKSIG then (true, PubKeyHashTy)
    else (false, NonStandardTy).

Definition HTLCSubClass (script : bytes) : ScriptClass :=
  match parseScript script with Ok pops => snd (isHTLC pops) | _ => NonStandardTy end.

Definition isHTLCWithScriptHash (pops : list parsedOpcode) : bool :=
  bool_decide (snd (isHTLC pops) = ScriptHashTy).
Definition isHTLCWitnessScript (pops : list parsedOpcode) : bool :=
  bool_decide (snd (isHTLC pops) = WitnessV0PubKeyHashTy) || bool_decide (snd (isHTLC pops) = WitnessV0ScriptHashTy).

Definition isWitnessProgram (pops : list parsedOpcode) : bool :=
  (len pops =? 2) && isSmallInt (opcode (pop_at pops 0)) && canonicalPush (pop_at pops 1) &&
  ((2 <=? len (data (pop_at pops 1))) && (len (data (pop_at pops 1)) <=? 40)).

Definition IsWitnessProgram (script : bytes) : bool :=
  if (len script <? 4) || (42 <? len script) then false
  else parsed_and (fun pops => isWitnessProgram pops || isHTLCWitnessScript pops) script.

Definition extractWitnessProgram (script : list parsedOpcode) : list parsedOpcode :=
  if len script =? 9 then [pop_at script 4; pop_at script 5] else script.

Definition ExtractWitnessProgramInfo (script : bytes) : outcome (Z * bytes) :=
  pops ← parseScript script;
  if negb (isWitnessProgram pops) && negb (isHTLCWitnessScript pops)
  then Err (errorString "script is not a witness program, unable to extract version or witness program")
  else
  let pg := extractWitnessProgram pops in
  Ok (asSmallInt (opcode (pop_at pg 0)), data (pop_at pg 1)).

(** * Signature operations *)

(** The loop of [getSigOpCount], with the opcode before the current one. *)
Fixpoint sigops_loop (precise : bool) (prev : option parsedOpcode) (pops : list parsedOpcode) : Z :=
  match pops with
  | [] => 0
  | pop :: pops =>
      (if one_of (opcode pop) [OP_CHECKSIG; OP_CHECKSIGVERIFY] then 1
       else if one_of (opcode pop) [OP_CHECKMULTISIG; OP_CHECKMULTISIGVERIFY] then
         match prev with
         | Some p => if precise && (OP_1 <=? opcode p) && (opcode p <=? OP_16)
                     then asSmallInt (opcode p) else MaxPubKeysPerMultiSig
         | None => MaxPubKeysPerMultiSig
         end
       else 0) + sigops_loop precise (Some pop) pops
  end.
Definition getSigOpCount (pops : list parsedOpcode) (precise : bool) : Z := sigops_loop precise None pops.

Definition GetSigOpCount (script : bytes) : Z := getSigOpCount (fst (parseScriptTemplate script)) false.

Definition GetPreciseSigOpCount (scriptSig scriptPubKey : bytes) (bip16 : bool) : Z :=
  let pops := fst (parseScriptTemplate scriptPubKey) in
  if negb (bip16 && isScriptHash pops) then getSigOpCount pops true
  else
  match parseScript scriptSig with
  | Ok sigPops =>
      if negb (isPushOnly sigPops) || (len sigPops =? 0) then 0
      else
      let shScript := data (pop_at sigPops (len sigPops - 1)) in
      if len shScript =? 0 then 0 else getSigOpCount (fst (parseScriptTemplate shScript)) true
  | _ => 0
  end.

Definition getWitnessSigOps (pkScript : bytes) (witness : list bytes) : Z :=
  match ExtractWitnessProgramInfo pkScript with
  | Ok (witnessVersion, witnessProgram) =>
      if witnessVersion =? 0 then
        if len witnessProgram =? payToWitnessPubKeyHashDataSize then 1
        else if (len witnessProgram =? payToWitnessScriptHashDataSize) && (0 <? len witness)
        then getSigOpCount (fst (parseScriptTemplate (List.last witness []))) true
        else 0
      else 0
  | _ => 0
  end.

(** [sigScript[1:]] panics on an empty slice; it is evaluated when the conditions before it
    in the conjunction hold. *)
Definition GetWitnessSigOpCount (sigScript pkScript : bytes) (witness : list bytes) : outcome Z :=
  if IsWitnessProgram pkScript then Ok (getWitnessSigOps pkScript witness)
  else
  match parseScript sigScript with
  | Ok sigPops =>
      if IsPayToScriptHash pkScript && isPushOnly sigPops then
        match sigScript with
        | [] => Panic
        | _ :: program => if IsWitnessProgram program then Ok (getWitnessSigOps program witness) else Ok 0
        end
      else Ok 0
  | _ => Ok 0
  end.

Definition IsUnspendable (pkScript : bytes) : bool :=
  match parseScript pkScript with
  | Ok pops => (0 <? len pops) && isOpCode (pop_at pops 0) OP_RETURN
  | _ => true
  end.

(** * The script builder *)

Record ScriptBuilder := { script : bytes; builder_err : bool }.

Definition NewScriptBuilder : ScriptBuilder := {| script := []; builder_err := false |}.

Definition ScriptBuilder_Reset (b : ScriptBuilder) : ScriptBuilder :=
  {| script := take 0 (script b); builder_err := false |}.

Definition append_script (b : ScriptBuilder) (s : bytes) : ScriptBuilder :=
  {| script := script b ++ s; builder_err := builder_err b |}.
(** [b.err = ErrScriptNotCanonical(str)] *)
Definition fail_builder (b : ScriptBuilder) : ScriptBuilder := {| script := script b; builder_err := true |}.

Definition AddOps (opcodes : bytes) (b : ScriptBuilder) : ScriptBuilder :=
  if builder_err b then b
  else if MaxScriptSize <? len (script b) + len opcodes then fail_builder b
  else append_script b opcodes.

Definition AddOp (op : Z) (b : ScriptBuilder) : ScriptBuilder :=
  if builder_err b then b
  else if MaxScriptSize <? len (script b) + 1 then fail_builder b
  else append_script b [byte.of_Z op].

Definition canonicalDataSize (d : bytes) : Z :=
  let dataLen := len d in
  if dataLen =? 0 then 1
  else if (dataLen =? 1) && (at_ d 0 <=? 16) then 1
  else if (dataLen =? 1) && (at_ d 0 =? 0x81) then 1
  else if dataLen <? OP_PUSHDATA1 then 1 + dataLen
  else if dataLen <=? 0xff then 2 + dataLen
  else if dataLen <=? 0xffff then 3 + dataLen
  else 5 + dataLen.

(** What [addData] appends to the script. *)
Definition push_data (d : bytes) : bytes :=
  let dataLen := len d in
  if (dataLen =? 0) || ((dataLen =? 1) && (at_ d 0 =? 0)) then [byte.of_Z OP_0]
  else if (dataLen =? 1) && (at_ d 0 <=? 16) then [byte.of_Z (OP_1 - 1 + at_ d 0)]
  else if (dataLen =? 1) && (at_ d 0 =? 0x81) then [byte.of_Z OP_1NEGATE]
  else
  (if dataLen <? OP_PUSHDATA1 then [byte.of_Z (OP_DATA_1 - 1 + dataLen)]
   else if dataLen <=? 0xff then mkbytes [OP_PUSHDATA1; dataLen]
   else if dataLen <=? 0xffff then byte.of_Z OP_PUSHDATA2 :: le_split 2 dataLen
   else byte.of_Z OP_PUSHDATA4 :: le_split 4 dataLen) ++ d.
Definition addData (d : bytes) (b : ScriptBuilder) : ScriptBuilder := append_script b (push_data d).

Definition AddFullData (d : bytes) (b : ScriptBuilder) : ScriptBuilder :=
  if builder_err b then b else addData d b.

Definition AddData (d : bytes) (b : ScriptBuilder) : ScriptBuilder :=
  if builder_err b then b
  else if MaxScriptSize <? len (script b) + canonicalDataSize d then fail_builder b
  else if MaxScriptElementSize <? len d then fail_builder b
  else addData d b.

Definition AddInt64 (val : Z) (b : ScriptBuilder) : outcome ScriptBuilder :=
  if builder_err b then Ok b
  else if MaxScriptSize <? len (script b) + 1 then Ok (fail_builder b)
  else if val =? 0 then Ok (append_script b [byte.of_Z OP_0])
  else if (val =? -1) || ((1 <=? val) && (val <=? 16)) then Ok (append_script b [byte.of_Z (OP_1 - 1 + val)])
  else v ← scriptNum_Bytes val; Ok (AddData v b).

Definition Script (b : ScriptBuilder) : outcome bytes :=
  if builder_err b then Err (errorString "ErrScriptNotCanonical") else Ok (script b).

Definition payToPubKeyHashScript (pubKeyHash : bytes) : outcome bytes :=
  Script (AddOp OP_CHECKSIG (AddOp OP_EQUALVERIFY (AddData pubKeyHash (AddOp OP_HASH160 (AddOp OP_DUP NewScriptBuilder))))).
Definition payToWitnessPubKeyHashScript (pubKeyHash : bytes) : outcome bytes :=
  Script (AddData pubKeyHash (AddOp OP_0 NewScriptBuilder)).
Definition payToScriptHashScript (scriptHash : bytes) : outcome bytes :=
  Script (AddOp OP_EQUAL (AddData scriptHash (AddOp OP_HASH160 NewScriptBuilder))).
Definition payToWitnessScriptHashScript (scriptHash : bytes) : outcome bytes :=
  Script (AddData scriptHash (AddOp OP_0 NewScriptBuilder)).
Definition payToPubKeyScript (serializedPubKey : bytes) : outcome bytes :=
  Script (AddOp OP_CHECKSIG (AddData serializedPubKey NewScriptBuilder)).
Definition NullDataScript (d : bytes) : outcome bytes :=
  if MaxDataCarrierSize <? len d then scriptError "ErrTooMuchNullData"
  else Script (AddData d (AddOp OP_RETURN NewScriptBuilder)).

(** * Parsing and unparsing are inverse *)

Lemma opcode_length_cases v :
  opcode_length v = 1 \/ (1 <= v <= 75 /\ opcode_length v = v + 1) \/
  (exists k, (k = 1 \/ k = 2 \/ k = 4) /\ opcode_length v = - k).
Proof.
  unfold opcode_length, OP_DATA_1, OP_DATA_75, OP_PUSHDATA1, OP_PUSHDATA2, OP_PUSHDATA4.
  destruct ((1 <=? v) && (v <=? 75)) eqn:E.
  { apply andb_true_iff in E as [E1 E2]. apply Z.leb_le in E1, E2. right; left. lia. }
  destruct (v =? 0x4c); [right; right; exists 1; split; [tauto|done]|].
  destruct (v =? 0x4d); [right; right; exists 2; split; [tauto|done]|].
  destruct (v =? 0x4e); [right; right; exists 4; split; [tauto|done]|]. by left.
Qed.

Lemma unsigned_of_byte v : 0 <= v < 256 -> byte.unsigned (byte.of_Z v) = v.
Proof. intros H. rewrite byte.unsigned_of_Z. by apply Z.mod_small. Qed.

Lemma len_take {A} (l : list A) n : 0 <= n <= len l -> len (take (Z.to_nat n) l) = n.
Proof. unfold len. intros. rewrite length_take. lia. Qed.

Lemma len_drop {A} (l : list A) n : 0 <= n <= len l -> len (drop (Z.to_nat n) l) = len l - n.
Proof. unfold len. intros. rewrite length_drop. lia. Qed.

Lemma take_app_len {A} (l k : list A) n : n = len l -> take (Z.to_nat n) (l ++ k) = l.
Proof. intros ->. rewrite to_nat_len. apply take_app_length. Qed.

Lemma drop_app_len {A} (l k : list A) n : n = len l -> drop (Z.to_nat n) (l ++ k) = k.
Proof. intros ->. rewrite to_nat_len. apply drop_app_length. Qed.

Lemma split_of_combine (f : bytes) k : length f = k -> le_split k (le_combine f) = f.
Proof. intros <-. apply split_le_combine. Qed.

Lemma field_bound k (f : bytes) : k = 1 \/ k = 2 \/ k = 4 -> len f = k -> 0 <= le_combine f < 2 ^ 32.
Proof.
  intros Hk Hf. pose proof (le_combine_is_uint f) as H. unfold is_uint in H. rewrite Hf in H.
  assert (2 ^ (8 * k) <= 2 ^ 32) by (apply Z.pow_le_mono_r; lia). lia.
Qed.

(** What a turn of the parser consumes is what the opcode is written as. *)
Lemma parse_opcode_sound i rest pop rest' :
  parse_opcode i rest = Some (pop, rest') ->
  0 <= opcode pop < 256 /\ exists b, parsedOpcode_bytes pop = Ok b /\ i :: rest = b ++ rest'.
Proof.
  unfold parse_opcode, parsedOpcode_bytes. pose proof (byte.unsigned_range i) as Hi. set (v := byte.unsigned i) in *.
  assert (Ev : byte.of_Z v = i) by apply byte.of_Z_unsigned.
  destruct (opcode_length_cases v) as [El|[[Hv El]|(k & Hk & El)]]; rewrite El.
  - cbn [Z.eqb Pos.eqb]. intros [= <- <-]. cbn [opcode data]. rewrite El, Ev. by eauto.
  - rewrite (proj2 (Z.eqb_neq _ _)), (proj2 (Z.ltb_lt _ _)), len_cons by lia.
    destruct (Z.ltb_spec (1 + len rest) (v + 1)); [done|]. intros [= <- <-]. cbn [opcode data].
    rewrite El, (proj2 (Z.eqb_neq _ _)), (proj2 (Z.ltb_ge _ _)), Ev by lia. replace (v + 1 - 1) with v by lia.
    split; [lia|]. eexists. rewrite (proj2 (Z.eqb_eq _ _)) by (rewrite len_app, len_take by lia; unfold len; cbn; lia). cbn [negb].
    split; [done|]. cbn [app]. by rewrite take_drop.
  - rewrite (proj2 (Z.eqb_neq _ _)), (proj2 (Z.ltb_ge 1 (- k))), Z.opp_involutive by lia.
    destruct (Z.ltb_spec (len rest) k); [done|]. set (f := take (Z.to_nat k) rest).
    assert (Hf : len f = k) by (apply len_take; lia). pose proof (field_bound k f Hk Hf) as Hl.
    rewrite swrap_id by (unfold is_int; lia). rewrite (proj2 (Z.ltb_ge (le_combine f) 0)), orb_false_r by lia.
    destruct (Z.ltb_spec (len (drop (Z.to_nat k) rest)) (le_combine f)); [done|].
    intros [= <- <-]. cbn [opcode data]. rewrite El, (proj2 (Z.eqb_neq _ _)), (proj2 (Z.ltb_lt _ _)), Z.opp_involutive, Ev by lia.
    rewrite len_take by lia. rewrite split_of_combine by (unfold len in Hf; lia).
    split; [lia|]. eexists. rewrite (proj2 (Z.eqb_eq _ _)) by (rewrite !len_app, len_take by lia; lia).
    cbn [negb]. split; [done|].
    rewrite <-app_assoc. cbn [app]. rewrite take_drop. unfold f. by rewrite take_drop.
Qed.

Lemma parse_opcode_complete pop b :
  0 <= opcode pop < 256 -> parsedOpcode_bytes pop = Ok b -> len (data pop) < 2 ^ 32 ->
  exists i t, b = i :: t /\ forall rest, parse_opcode i (t ++ rest) = Some (pop, rest).
Proof.
  destruct pop as [v d]; unfold parsedOpcode_bytes; cbn [opcode data]. intros Hv Hb Hd32. pose proof (len_nonneg d).
  destruct (opcode_length_cases v) as [El|[[Hv' El]|(k & Hk & El)]]; rewrite El in Hb.
  - cbn [Z.eqb Pos.eqb] in Hb. destruct (Z.eqb_spec (len d) 0) as [Ed|]; [|done]. injection Hb as <-.
    eexists _, _. split; [done|]. intros rest. unfold parse_opcode. rewrite unsigned_of_byte, El by lia.
    apply len_zero_nil in Ed as ->. done.
  - rewrite (proj2 (Z.eqb_neq (v + 1) 1)), (proj2 (Z.ltb_ge (v + 1) 0)), len_app in Hb by lia.
    destruct (Z.eqb_spec (len [byte.of_Z v] + len d) (v + 1)) as [Ed|]; [|done]. injection Hb as <-.
    change (len [byte.of_Z v]) with 1 in Ed. eexists _, _. split; [done|]. intros rest. unfold parse_opcode.
    rewrite unsigned_of_byte, El by lia. rewrite (proj2 (Z.eqb_neq _ _)), (proj2 (Z.ltb_lt _ _)) by lia.
    cbn [app]. rewrite len_cons, len_app. pose proof (len_nonneg rest). rewrite (proj2 (Z.ltb_ge _ _)) by lia.
    rewrite take_app_len, drop_app_len by lia. done.
  - rewrite (proj2 (Z.eqb_neq (- k) 1)), (proj2 (Z.ltb_lt (- k) 0)), Z.opp_involutive in Hb by lia.
    set (f := le_split (Z.to_nat k) (len d)) in *. assert (Hf : len f = k) by (unfold f; rewrite len_le_split; lia).
    rewrite !len_app in Hb. change (len [byte.of_Z v]) with 1 in Hb.
    destruct (Z.eqb_spec (1 + len f + len d) (le_combine f + (1 + len f))) as [Ed|]; [|done]. injection Hb as <-.
    eexists _, (f ++ d). split; [done|]. intros rest. unfold parse_opcode.
    rewrite unsigned_of_byte, El by lia. rewrite (proj2 (Z.eqb_neq _ _)), (proj2 (Z.ltb_ge _ _)), Z.opp_involutive by lia.
    rewrite <-app_assoc, !len_app. pose proof (len_nonneg rest). rewrite (proj2 (Z.ltb_ge _ _)) by lia.
    rewrite take_app_len, drop_app_len by lia. replace (le_combine f) with (len d) by lia.
    rewrite swrap_id by (unfold is_int; lia). rewrite len_app, !(proj2 (Z.ltb_ge _ _)) by lia. cbn [orb].
    rewrite take_app_len, drop_app_len by lia. done.
Qed.

Definition valid_opcode (pop : parsedOpcode) : Prop := 0 <= opcode pop < 256.

Lemma parse_opcode_shorter i rest pop rest' :
  parse_opcode i rest = Some (pop, rest') -> (length rest' <= length rest)%nat.
Proof.
  unfold parse_opcode. repeat case_match; intros; simplify_eq; try lia; rewrite ?length_drop in *; lia.
Qed.

Lemma parse_loop_sound fuel s pops e :
  (length s <= fuel)%nat -> parse_loop fuel s = (pops, e) ->
  Forall valid_opcode pops /\
  exists pre rest, unparseScript pops = Ok pre /\ s = pre ++ rest /\ (e = None -> rest = []).
Proof.
  revert s pops e. induction fuel as [|fuel IH]; intros s pops e Hl; cbn [parse_loop].
  { intros [= <- <-]. destruct s; [|cbn in Hl; lia]. split; [done|]. by exists [], []. }
  destruct s as [|i rest]; [intros [= <- <-]; split; [done|]; by exists [], []|].
  destruct (parse_opcode i rest) as [[pop rest']|] eqn:E.
  2: { intros [= <- <-]. split; [done|]. by exists [], (i :: rest). }
  destruct (parse_loop fuel rest') as [ps e'] eqn:Ep. intros [= <- <-].
  pose proof (parse_opcode_shorter _ _ _ _ E). cbn in Hl.
  apply IH in Ep as (Hv & pre & r & Hu & -> & He); [|lia].
  apply parse_opcode_sound in E as (Hop & b & Hb & Es). split; [by constructor|].
  exists (b ++ pre), r. cbn [unparseScript]. rewrite Hb, Hu, Es. cbn [mbind outcome_bind].
  by rewrite app_assoc.
Qed.

Lemma parse_loop_complete fuel pops s :
  Forall valid_opcode pops -> Forall (fun p => len (data p) < 2 ^ 32) pops ->
  unparseScript pops = Ok s -> (length s <= fuel)%nat -> parse_loop fuel s = (pops, None).
Proof.
  revert fuel s. induction pops as [|pop pops IH]; intros fuel s Hv Hd; cbn [unparseScript].
  { intros [= <-] _. by destruct fuel. }
  apply Forall_cons in Hv as [Hv Hvs]. apply Forall_cons in Hd as [Hd Hds].
  destruct (parsedOpcode_bytes pop) as [b| |] eqn:Eb; [|done..]. cbn [mbind outcome_bind].
  destruct (unparseScript pops) as [t| |] eqn:Et; [|done..]. intros [= <-].
  destruct (parse_opcode_complete pop b Hv Eb Hd) as (i & u & -> & Hp). cbn [app length].
  destruct fuel as [|fuel]; [lia|]. intros Hl. cbn [parse_loop]. rewrite Hp.
  rewrite (IH fuel t) by (done || (rewrite length_app in Hl; lia)). done.
Qed.

(** The scripts the builder writes are read back as the opcodes they are made of. *)
Lemma parseScript_unparse pops s :
  Forall valid_opcode pops -> Forall (fun p => len (data p) < 2 ^ 32) pops ->
  unparseScript pops = Ok s -> parseScript s = Ok pops.
Proof.
  intros Hv Hd Hu. unfold parseScript, parseScriptTemplate.
  by rewrite (parse_loop_complete (length s) pops s Hv Hd Hu ltac:(lia)).
Qed.

(** ** The scripts of the builder *)

(** The opcode [addData] pushes data with. *)
Definition push_opcode (d : bytes) : Z :=
  if (len d =? 0) || ((len d =? 1) && (at_ d 0 =? 0)) then OP_0
  else if (len d =? 1) && (at_ d 0 <=? 16) then OP_1 - 1 + at_ d 0
  else if (len d =? 1) && (at_ d 0 =? 0x81) then OP_1NEGATE
  else if len d <? OP_PUSHDATA1 then len d
  else if len d <=? 0xff then OP_PUSHDATA1
  else if len d <=? 0xffff then OP_PUSHDATA2
  else OP_PUSHDATA4.
Definition push_pop (d : bytes) : parsedOpcode :=
  let op := push_opcode d in
  {| opcode := op; data := if opcode_length op =? 1 then [] else d |}.

Lemma push_data_small (d : bytes) : 2 <= len d <= 75 -> push_data d = byte.of_Z (len d) :: d /\ push_pop d = {| opcode := len d; data := d |}.
Proof.
  intros Hd. unfold push_data, push_pop, push_opcode. cbv zeta.
  repeat rewrite (proj2 (Z.eqb_neq (len d) _)) by lia. cbn [orb andb].
  rewrite (proj2 (Z.ltb_lt (len d) OP_PUSHDATA1)) by (unfold OP_PUSHDATA1; lia). split; [done|]. f_equal.
  destruct (Z.eqb_spec (opcode_length (len d)) 1) as [E|]; [|done].
  unfold opcode_length, OP_DATA_1, OP_DATA_75 in E. rewrite !(proj2 (Z.leb_le _ _)) in E by lia. cbn [andb] in E. lia.
Qed.

Definition op (v : Z) : parsedOpcode := {| opcode := v; data := [] |}.
Definition push (d : bytes) : parsedOpcode := {| opcode := len d; data := d |}.

Lemma op_bytes v : opcode_length v = 1 -> parsedOpcode_bytes (op v) = Ok [byte.of_Z v].
Proof. intros E. unfold parsedOpcode_bytes. cbn [op opcode data]. rewrite E. done. Qed.

Lemma push_bytes (d : bytes) : 1 <= len d <= 75 -> parsedOpcode_bytes (push d) = Ok (byte.of_Z (len d) :: d).
Proof.
  intros Hd. unfold parsedOpcode_bytes, opcode_length, OP_DATA_1, OP_DATA_75. cbn [push opcode data].
  rewrite !(proj2 (Z.leb_le _ _)) by lia. cbn [andb].
  rewrite (proj2 (Z.eqb_neq _ _)), (proj2 (Z.ltb_ge _ _)), len_app by lia.
  rewrite (proj2 (Z.eqb_eq _ _)) by (unfold len at 1; cbn; lia). done.
Qed.

Definition built (s : bytes) : ScriptBuilder := {| script := s; builder_err := false |}.

Lemma AddOp_ok v s : len s < MaxScriptSize -> AddOp v (built s) = built (s ++ [byte.of_Z v]).
Proof. intros Hl. unfold AddOp. cbn [built script builder_err]. rewrite (proj2 (Z.ltb_ge _ _)) by lia. done. Qed.

Lemma AddData_ok (d : bytes) s :
  2 <= len d <= 75 -> len s + len d < MaxScriptSize -> AddData d (built s) = built (s ++ byte.of_Z (len d) :: d).
Proof.
  intros Hd Hl. unfold AddData, addData. cbn [built script builder_err]. destruct (push_data_small d Hd) as [-> _].
  rewrite !(proj2 (Z.ltb_ge _ _)); [done|unfold MaxScriptElementSize; lia|].
  unfold canonicalDataSize. cbv zeta. repeat rewrite (proj2 (Z.eqb_neq (len d) _)) by lia. cbn [andb].
  rewrite (proj2 (Z.ltb_lt _ _)) by (unfold OP_PUSHDATA1; lia). lia.
Qed.

(** Runs the builder on short data, from the innermost call. *)
Ltac builder_bound := unfold MaxScriptSize; rewrite ?len_app, ?len_cons; unfold len in *; cbn [length app]; lia.
Ltac builder_solve :=
  change NewScriptBuilder with (built []);
  repeat first [rewrite AddOp_ok by builder_bound | rewrite AddData_ok by builder_bound];
  unfold Script; cbn [built script builder_err]; f_equal; rewrite <-?app_assoc; reflexivity.

Lemma payToScriptHashScript_eq h :
  len h = 20 -> payToScriptHashScript h = Ok (byte.of_Z OP_HASH160 :: byte.of_Z (len h) :: h ++ [byte.of_Z OP_EQUAL]).
Proof. intros Hh. unfold payToScriptHashScript. builder_solve. Qed.

Lemma payToPubKeyHashScript_eq h :
  len h = 20 -> payToPubKeyHashScript h =
    Ok (byte.of_Z OP_DUP :: byte.of_Z OP_HASH160 :: byte.of_Z (len h) :: h ++ mkbytes [OP_EQUALVERIFY; OP_CHECKSIG]).
Proof. intros Hh. unfold payToPubKeyHashScript. builder_solve. Qed.

Lemma payToWitness_eq h :
  2 <= len h <= 75 -> payToWitnessScriptHashScript h = Ok (byte.of_Z OP_0 :: byte.of_Z (len h) :: h) /\
  payToWitnessPubKeyHashScript h = Ok (byte.of_Z OP_0 :: byte.of_Z (len h) :: h).
Proof. intros Hh. unfold payToWitnessScriptHashScript, payToWitnessPubKeyHashScript. split; builder_solve. Qed.

Lemma unparse_op v pops s :
  opcode_length v = 1 -> unparseScript pops = Ok s -> unparseScript (op v :: pops) = Ok (byte.of_Z v :: s).
Proof. intros E H. cbn [unparseScript]. by rewrite op_bytes, H. Qed.

Lemma unparse_push (d : bytes) pops s :
  1 <= len d <= 75 -> unparseScript pops = Ok s -> unparseScript (push d :: pops) = Ok (byte.of_Z (len d) :: d ++ s).
Proof. intros E H. cbn [unparseScript]. by rewrite push_bytes, H. Qed.

Lemma unparse_nil : unparseScript [] = Ok [].
Proof. reflexivity. Qed.

Lemma valid_op v : 0 <= v < 256 -> valid_opcode (op v).
Proof. done. Qed.
Lemma valid_push d : len d < 256 -> valid_opcode (push d).
Proof. intros H. pose proof (len_nonneg d). unfold valid_opcode; cbn. lia. Qed.

(** A script made of opcodes without data and of direct pushes. *)
Ltac parse_solve :=
  apply parseScript_unparse;
  [repeat (constructor; [first [apply valid_op; split; [vm_compute; discriminate|reflexivity] | apply valid_push; lia]|]); constructor
  |repeat (constructor; [cbn [op push data]; first [reflexivity | lia]|]); constructor
  |repeat first [apply unparse_nil | apply unparse_op; [reflexivity|] | eapply unparse_push; [lia|]]].

Lemma parse_script_hash h :
  len h = 20 ->
  parseScript (byte.of_Z OP_HASH160 :: byte.of_Z (len h) :: h ++ [byte.of_Z OP_EQUAL]) =
    Ok [op OP_HASH160; push h; op OP_EQUAL].
Proof. intros Hh. parse_solve. Qed.

Lemma parse_pubkey_hash h :
  len h = 20 ->
  parseScript (byte.of_Z OP_DUP :: byte.of_Z OP_HASH160 :: byte.of_Z (len h) :: h ++ mkbytes [OP_EQUALVERIFY; OP_CHECKSIG]) =
    Ok [op OP_DUP; op OP_HASH160; push h; op OP_EQUALVERIFY; op OP_CHECKSIG].
Proof. intros Hh. parse_solve. Qed.

Lemma parse_witness_program h :
  2 <= len h <= 40 -> parseScript (byte.of_Z OP_0 :: byte.of_Z (len h) :: h) = Ok [op OP_0; push h].
Proof. intros Hh. rewrite <-(app_nil_r h) at 2. parse_solve. Qed.

(** * Correctness *)

(** C26: Parsing and unparsing of scripts.  The opcodes a script parses to, the ones before a
    malformed push included, are written back as exactly the bytes they were read from, all
    of the script when there is no error; and opcodes that can be written are read back, so
    no two scripts have the same opcodes. *)
Theorem script_parse_roundtrip s :
  let '(pops, e) := parseScriptTemplate s in
  (exists pre rest, unparseScript pops = Ok pre /\ s = pre ++ rest /\ (e = None -> rest = [])) /\
  Forall valid_opcode pops /\
  (forall pops', Forall valid_opcode pops' -> Forall (fun p => len (data p) < 2 ^ 32) pops' ->
     unparseScript pops' = Ok s -> parseScript s = Ok pops').
Proof.
  destruct (parseScriptTemplate s) as [pops e] eqn:E.
  destruct (parse_loop_sound (length s) s pops e ltac:(lia) E) as [Hv H].
  split_and!; [done..|]. intros pops'. apply parseScript_unparse.
Qed.

(** [GetWitnessSigOpCount] slices [sigScript[1:]] without checking that the signature
    script is not empty: counting the operations of an input that spends a
    pay-to-script-hash output with an empty signature script panics, whatever the witness,
    while [GetPreciseSigOpCount] returns 0 for it. *)
Theorem sigop_count_panics h witness :
  len h = 20 ->
  exists pkScript, payToScriptHashScript h = Ok pkScript /\
    GetWitnessSigOpCount [] pkScript witness = Panic /\ GetPreciseSigOpCount [] pkScript true = 0.
Proof.
  intros Hh. eexists. split; [by apply payToScriptHashScript_eq|].
  pose proof (parse_script_hash h Hh) as Hp. set (s := _ :: _) in *.
  assert (E : parseScriptTemplate s = ([op OP_HASH160; push h; op OP_EQUAL], None)).
  { unfold parseScript in Hp. destruct (parseScriptTemplate s) as [pops [e|]]; [done|]. by injection Hp as ->. }
  assert (Hs : isScriptHash [op OP_HASH160; push h; op OP_EQUAL] = true).
  { change (true && true && (len h =? OP_DATA_20) && true = true). by rewrite Hh. }
  unfold GetWitnessSigOpCount, GetPreciseSigOpCount, IsWitnessProgram, IsPayToScriptHash, parsed_and.
  rewrite Hp, E. cbn [fst]. rewrite Hs. split; [|reflexivity]. by destruct (_ || _).
Qed.

Lemma sigop_count_panics_witness :
  len (replicate 20 Byte.x00) = 20 /\
  exists pkScript, payToScriptHashScript (replicate 20 Byte.x00) = Ok pkScript /\
    GetWitnessSigOpCount [] pkScript [] = Panic.
Proof.
  split; [reflexivity|]. destruct (sigop_count_panics (replicate 20 Byte.x00) [] eq_refl) as (s & H1 & H2 & _).
  exists s. split; [exact H1|exact H2].
Defined.
