(* ===== verification/SigHash.v ===== *)
(** Model of the signature hashes of txscript/script.go and of txscript/hashcache.go:
    what a signature of an input commits to. *)

From S2P Require Import Prelude ScriptNum Opcode Script WireEncoding WireTx Sha256 Chainhash.

#[local] Open Scope wire_scope.

Definition SigHashOld : Z := 0x0.
Definition SigHashAll : Z := 0x1.
Definition SigHashNone : Z := 0x2.
Definition SigHashSingle : Z := 0x3.
Definition SigHashAnyOneCanPay : Z := 0x80.
Definition sigHashMask : Z := 0x1f.

Section sighash.
Context `{HashFunction}.

(** * Hashes shared by the inputs *)

Definition calcHashPrevOuts (tx : MsgTx) : bytes :=
  DoubleHashH (wbytes (wlist (fun ti => write (Op_Hash (PreviousOutPoint ti)) +++
    PutUint32 littleEndian (Op_Index (PreviousOutPoint ti))) (Tx_TxIn tx))).

Definition calcHashSequence (tx : MsgTx) : bytes :=
  DoubleHashH (wbytes (wlist (fun ti => PutUint32 littleEndian (Sequence ti)) (Tx_TxIn tx))).

Definition calcHashOutputs (tx : MsgTx) : bytes := DoubleHashH (wbytes (wlist WriteTxOut (Tx_TxOut tx))).

Record TxSigHashes := { HashPrevOuts : bytes; HashSequence : bytes; HashOutputs : bytes }.

Definition NewTxSigHashes (tx : MsgTx) : TxSigHashes :=
  {| HashPrevOuts := calcHashPrevOuts tx; HashSequence := calcHashSequence tx; HashOutputs := calcHashOutputs tx |}.

(** * Witness inputs *)

(** The script code of a witness input; the error of [unparseScript] is dropped. *)
Definition witness_script_code (subScript : list parsedOpcode) : bytes :=
  let witnessScript := extractWitnessProgram subScript in
  if isWitnessPubKeyHash witnessScript then
    mkbytes [0x19; OP_DUP; OP_HASH160; OP_DATA_20] ++ data (pop_at witnessScript 1) ++
    mkbytes [OP_EQUALVERIFY; OP_CHECKSIG]
  else
    let rawScript := match unparseScript witnessScript with Ok s => s | _ => [] end in
    wbytes (WriteVarBytes rawScript).

Definition default_txin : TxIn :=
  {| PreviousOutPoint := {| Op_Hash := []; Op_Index := 0 |}; SignatureScript := []; Witness := None; Sequence := 0; Age := 0 |}.

(** The bytes that are hashed: [sigHash.Bytes()]. *)
Definition witness_preimage (subScript : list parsedOpcode) (sigHashes : TxSigHashes) (hashType : Z)
    (tx : MsgTx) (idx amt : Z) : bytes :=
  let txIn := nth (Z.to_nat idx) (Tx_TxIn tx) default_txin in
  let anyone := negb (Z.land hashType SigHashAnyOneCanPay =? 0) in
  let kind := Z.land hashType sigHashMask in
  le_split 4 (uwrap 32 (Version tx)) ++
  (if negb anyone then HashPrevOuts sigHashes else ZeroHash) ++
  (if negb anyone && negb (kind =? SigHashSingle) && negb (kind =? SigHashNone)
   then HashSequence sigHashes else ZeroHash) ++
  Op_Hash (PreviousOutPoint txIn) ++ le_split 4 (Op_Index (PreviousOutPoint txIn)) ++
  witness_script_code subScript ++
  le_split 8 (uwrap 64 amt) ++ le_split 4 (Sequence txIn) ++
  (if negb (Z.land hashType SigHashSingle =? SigHashSingle) && negb (Z.land hashType SigHashNone =? SigHashNone)
   then HashOutputs sigHashes
   else if (kind =? SigHashSingle) && (idx <? len (Tx_TxOut tx))
   then DoubleHashB (wbytes (WriteTxOut (nth (Z.to_nat idx) (Tx_TxOut tx) {| Value := 0; PkScript := [] |})))
   else ZeroHash) ++
  le_split 4 (LockTime tx) ++ le_split 4 hashType.

Definition calcWitnessSignatureHash (subScript : list parsedOpcode) (sigHashes : TxSigHashes) (hashType : Z)
    (tx : MsgTx) (idx amt : Z) : outcome bytes :=
  if len (Tx_TxIn tx) - 1 <? idx then Err (errorString "idx but txins")
  else Ok (DoubleHashB (witness_preimage subScript sigHashes hashType tx idx amt)).

Definition CalcWitnessSigHash (script : bytes) (sigHashes : TxSigHashes) (hType : Z) (tx : MsgTx) (idx amt : Z) : outcome bytes :=
  match parseScript script with
  | Ok parsedScript => calcWitnessSignatureHash parsedScript sigHashes hType tx idx amt
  | _ => Err (errorString "cannot parse output script")
  end.

(** * Other inputs *)

Definition shallowCopyTx (tx : MsgTx) : MsgTx :=
  {| Version := Version tx; Tx_TxIn := Tx_TxIn tx; Tx_TxOut := Tx_TxOut tx; LockTime := LockTime tx |}.

Definition set_script (s : bytes) (ti : TxIn) : TxIn :=
  {| PreviousOutPoint := PreviousOutPoint ti; SignatureScript := s; Witness := Witness ti;
     Sequence := Sequence ti; Age := Age ti |}.
Definition set_sequence (n : Z) (ti : TxIn) : TxIn :=
  {| PreviousOutPoint := PreviousOutPoint ti; SignatureScript := SignatureScript ti; Witness := Witness ti;
     Sequence := n; Age := Age ti |}.
Definition with_ins (tx : MsgTx) (ins : list TxIn) : MsgTx :=
  {| Version := Version tx; Tx_TxIn := ins; Tx_TxOut := Tx_TxOut tx; LockTime := LockTime tx |}.
Definition with_outs (tx : MsgTx) (outs : list TxOut) : MsgTx :=
  {| Version := Version tx; Tx_TxIn := Tx_TxIn tx; Tx_TxOut := outs; LockTime := LockTime tx |}.

(** [for i := range l { ... }] *)
Definition mapi {A} (f : Z -> A -> A) (l : list A) : list A := imap (fun i a => f (Z.of_nat i) a) l.

(** The transaction that is signed: [txCopy] when it is serialized. *)
Definition signed_tx (script : list parsedOpcode) (hashType : Z) (tx : MsgTx) (idx : Z) : MsgTx :=
  let script := removeOpcode script OP_CODESEPARATOR in
  let sigScript := match unparseScript script with Ok s => s | _ => [] end in
  let txCopy := shallowCopyTx tx in
  let txCopy := with_ins txCopy (mapi (fun i ti => set_script (if i =? idx then sigScript else []) ti) (Tx_TxIn txCopy)) in
  let zero_sequences tx := with_ins tx (mapi (fun i ti => if negb (i =? idx) then set_sequence 0 ti else ti) (Tx_TxIn tx)) in
  let kind := Z.land hashType sigHashMask in
  let txCopy :=
    if kind =? SigHashNone then zero_sequences (with_outs txCopy [])
    else if kind =? SigHashSingle then
      zero_sequences (with_outs txCopy
        (mapi (fun i to => if i <? idx then {| Value := -1; PkScript := [] |} else to)
           (take (Z.to_nat (idx + 1)) (Tx_TxOut txCopy))))
    else txCopy in
  if negb (Z.land hashType SigHashAnyOneCanPay =? 0)
  then with_ins txCopy (take 1 (drop (Z.to_nat idx) (Tx_TxIn txCopy))) else txCopy.

Definition calcSignatureHash (script : list parsedOpcode) (hashType : Z) (tx : MsgTx) (idx : Z) : bytes :=
  if (Z.land hashType sigHashMask =? SigHashSingle) && (len (Tx_TxOut tx) <=? idx)
  then Byte.x01 :: replicate 31 Byte.x00
  else DoubleHashB (wbytes (MsgTx_SerializeNoWitness (signed_tx script hashType tx idx)) ++ le_split 4 hashType).

Definition CalcSignatureHash (script : bytes) (hashType : Z) (tx : MsgTx) (idx : Z) : outcome bytes :=
  match parseScript script with
  | Ok parsedScript => Ok (calcSignatureHash parsedScript hashType tx idx)
  | _ => Err (errorString "cannot parse output script")
  end.

(** * Correctness *)

Lemma le_split_inj n a b :
  is_uint (8 * Z.of_nat n) a -> is_uint (8 * Z.of_nat n) b -> le_split n a = le_split n b -> a = b.
Proof. intros Ha Hb E. by rewrite <-(le_combine_split_id n a), <-(le_combine_split_id n b), E. Qed.

(** The values a transaction and the cached hashes have in memory. *)
Definition wf_hashes (h : TxSigHashes) : Prop :=
  length (HashPrevOuts h) = 32%nat /\ length (HashSequence h) = 32%nat /\ length (HashOutputs h) = 32%nat.
Definition wf_input (tx : MsgTx) (idx amt hashType : Z) : Prop :=
  let ti := nth (Z.to_nat idx) (Tx_TxIn tx) default_txin in
  length (Op_Hash (PreviousOutPoint ti)) = 32%nat /\ is_uint 32 (Op_Index (PreviousOutPoint ti)) /\
  is_uint 32 (Sequence ti) /\ is_uint 32 (LockTime tx) /\ is_int 32 (Version tx) /\ is_int 64 amt /\ is_uint 32 hashType.

Lemma uwrap_int_inj w a b : 0 < w -> is_int w a -> is_int w b -> uwrap w a = uwrap w b -> a = b.
Proof.
  intros Hw Ha Hb E. rewrite <-(swrap_id w a), <-(swrap_id w b) by done.
  by rewrite <-(swrap_uwrap w a), <-(swrap_uwrap w b), E by done.
Qed.

Lemma NewTxSigHashes_wf tx : wf_hashes (NewTxSigHashes tx).
Proof. split_and!; apply Nat2Z.inj; apply sha256_size. Qed.

Lemma ZeroHash_length : length ZeroHash = 32%nat.
Proof. reflexivity. Qed.
Lemma DoubleHashB_length b : length (DoubleHashB b) = 32%nat.
Proof. apply Nat2Z.inj. apply sha256_size. Qed.

(** Two equal strings with a first part of the same length. *)
Tactic Notation "cut_front" hyp(E) "as" ident(F) :=
  apply app_inj_1 in E as [F E];
  [|rewrite ?length_le_split; repeat case_match; rewrite ?ZeroHash_length, ?DoubleHashB_length; congruence].

(** What the signature of a witness input commits to.  When the strings hashed for two
    inputs are equal, so are the version, the outpoint, the script code, the amount, the
    sequence, the lock time and the hash type, and, for the hash type ALL, the digests of all
    outpoints, sequences and outputs.  But the script code of a script of nine opcodes
    consists of the fifth and the sixth only: witness scripts that agree on these two have
    the same signature hash. *)
Theorem witness_hash_commits script1 script2 h1 h2 t1 t2 tx1 tx2 idx1 idx2 amt1 amt2 :
  wf_hashes h1 -> wf_hashes h2 -> wf_input tx1 idx1 amt1 t1 -> wf_input tx2 idx2 amt2 t2 ->
  (witness_preimage script1 h1 t1 tx1 idx1 amt1 = witness_preimage script2 h2 t2 tx2 idx2 amt2 ->
   let in1 := nth (Z.to_nat idx1) (Tx_TxIn tx1) default_txin in
   let in2 := nth (Z.to_nat idx2) (Tx_TxIn tx2) default_txin in
   Version tx1 = Version tx2 /\ PreviousOutPoint in1 = PreviousOutPoint in2 /\
   witness_script_code script1 = witness_script_code script2 /\ amt1 = amt2 /\ Sequence in1 = Sequence in2 /\
   LockTime tx1 = LockTime tx2 /\ t1 = t2 /\ (t1 = SigHashAll -> h1 = h2)) /\
  (len script1 = 9 -> len script2 = 9 -> pop_at script1 4 = pop_at script2 4 -> pop_at script1 5 = pop_at script2 5 ->
   calcWitnessSignatureHash script1 h1 t1 tx1 idx1 amt1 = calcWitnessSignatureHash script2 h1 t1 tx1 idx1 amt1).
Proof.
  intros (P1 & S1 & O1) (P2 & S2 & O2) W1 W2. split.
  - unfold wf_input in *. unfold witness_preimage. cbv zeta in *.
    set (in1 := nth _ (Tx_TxIn tx1) _) in *. set (in2 := nth _ (Tx_TxIn tx2) _) in *.
    destruct W1 as (A1 & A2 & A3 & A4 & A5 & A6 & A7), W2 as (B1 & B2 & B3 & B4 & B5 & B6 & B7).
    intros E. cut_front E as F1. cut_front E as F2. cut_front E as F3. cut_front E as F4. cut_front E as F5.
    apply app_inj_2 in E as [F6 E].
    2: { rewrite !length_app, !length_le_split. repeat case_match; rewrite ?ZeroHash_length, ?DoubleHashB_length; lia. }
    cut_front E as F7. cut_front E as F8. cut_front E as F9. cut_front E as F10.
    apply le_split_inj in F1, F5, F7, F8, F10, E; try done; try (apply uwrap_range; lia).
    apply uwrap_int_inj in F1, F7; [|done..].
    split_and!; try done.
    + destruct (PreviousOutPoint in1), (PreviousOutPoint in2). cbn in *. congruence.
    + intros ->. subst t2. change (HashPrevOuts h1 = HashPrevOuts h2) in F2.
      change (HashSequence h1 = HashSequence h2) in F3. change (HashOutputs h1 = HashOutputs h2) in F9.
      destruct h1, h2. cbn in *. congruence.
  - intros L1 L2 E4 E5. unfold calcWitnessSignatureHash, witness_preimage, witness_script_code, extractWitnessProgram.
    by rewrite L1, L2, E4, E5.
Qed.
End sighash.

(** Two scripts of nine opcodes that differ everywhere but in the middle. *)
Definition nine_a : list parsedOpcode := replicate 4 (op OP_NOP) ++ [op OP_1; op OP_CHECKSIG] ++ replicate 3 (op OP_NOP).
Definition nine_b : list parsedOpcode := replicate 4 (op OP_DUP) ++ [op OP_1; op OP_CHECKSIG] ++ replicate 3 (op OP_DROP).
Definition example_tx : MsgTx :=
  {| Version := 1; Tx_TxIn := [{| PreviousOutPoint := {| Op_Hash := ZeroHash; Op_Index := 0 |};
       SignatureScript := []; Witness := None; Sequence := 5; Age := 0 |}];
     Tx_TxOut := [{| Value := 10; PkScript := [] |}]; LockTime := 7 |}.

Lemma witness_hash_commits_witness :
  nine_a <> nine_b /\
  @calcWitnessSignatureHash sha256_instance nine_a (@NewTxSigHashes sha256_instance example_tx) 1 example_tx 0 50 =
  @calcWitnessSignatureHash sha256_instance nine_b (@NewTxSigHashes sha256_instance example_tx) 1 example_tx 0 50.
Proof.
  split; [discriminate|].
  assert (W : wf_input example_tx 0 50 1) by (unfold wf_input, is_uint, is_int; cbn; split_and!; done).
  pose proof (@NewTxSigHashes_wf sha256_instance example_tx) as Hw.
  exact (proj2 (@witness_hash_commits sha256_instance nine_a nine_b _ _ 1 1 example_tx example_tx 0 0 50 50 Hw Hw W W)
    eq_refl eq_refl eq_refl eq_refl).
Defined.
