(* ===== verification/PubKey.v ===== *)
(** Model of btcec/pubkey.go, and of [IsOnCurve] of btcec/btcec.go: parsing and
    serialization of secp256k1 public keys on the field arithmetic of Field.v. *)

From Stdlib Require Import Zmod.
From S2P Require Import Prelude Big PrimeCert Field.

#[local] Open Scope go_scope.

(** * The curve [y^2 = x^3 + 7] *)

Definition curve_B : Z := 7.

(** [new(fieldVal).SetByteSlice(secp256k1.B.Bytes())], set when the curve is initialized. *)
Definition fieldB : fieldVal :=
  match SetByteSlice (big_Bytes curve_B) with Ok f => f | _ => Zero end.

Definition bigAffineToField (x y : Z) : outcome (fieldVal * fieldVal) :=
  x3 ← SetByteSlice (big_Bytes x);
  y3 ← SetByteSlice (big_Bytes y);
  mret (x3, y3).

Definition IsOnCurve (x y : Z) : outcome bool :=
  '(fx, fy) ← bigAffineToField x y;
  dlet y2 := Normalize (SquareVal fy) in
  dlet result := Normalize (AddInt 7 (Mul (SquareVal fx) fx)) in
  mret (Equals y2 result).

(** * Public keys *)

Definition PubKeyBytesLenCompressed : Z := 33.
Definition PubKeyBytesLenUncompressed : Z := 65.
Definition PubKeyBytesLenHybrid : Z := 65.

Definition pubkeyCompressed : Z := 0x2.
Definition pubkeyUncompressed : Z := 0x4.
Definition pubkeyHybrid : Z := 0x6.

Record PublicKey := { pk_X : Z; pk_Y : Z }.

Definition isOdd (a : Z) : bool := Z.testbit a 0.

Definition decompressPoint (bigX : Z) (ybit : bool) : outcome Z :=
  x ← SetByteSlice (big_Bytes bigX);
  dlet x3 := Mul (SquareVal x) x in
  dlet x3 := Normalize (Add x3 fieldB) in
  dlet y := Normalize (SqrtVal x3) in
  dlet y := (if negb (Bool.eqb ybit (IsOdd y)) then Normalize (NegateVal y 1) else y) in
  dlet y2 := Normalize (SquareVal y) in
  if negb (Equals y2 x3) then Err (errorString "invalid square root")
  else if negb (Bool.eqb ybit (IsOdd y)) then Err (errorString "ybit doesn't match oddness")
  else Ok (big_SetBytes (Bytes y)).

(** [pubKeyStr[0]] and the subslices of a string that is not empty. *)
Definition key_byte (s : bytes) : Z := byte.unsigned (hd Byte.x00 s).

Definition IsCompressedPubKey (pubKey : bytes) : bool :=
  (len pubKey =? PubKeyBytesLenCompressed) && (Z.ldiff (key_byte pubKey) 0x1 =? pubkeyCompressed).

Definition ParsePubKey (pubKeyStr : bytes) : outcome PublicKey :=
  if len pubKeyStr =? 0 then Err (errorString "pubkey string is empty")
  else
  let format := key_byte pubKeyStr in
  let ybit := Z.land format 0x1 =? 0x1 in
  let format := Z.land format 0xfe in
  if len pubKeyStr =? PubKeyBytesLenUncompressed then
    if negb (format =? pubkeyUncompressed) && negb (format =? pubkeyHybrid)
    then Err (errorString "invalid magic in pubkey str")
    else
    let X := big_SetBytes (take 32 (drop 1 pubKeyStr)) in
    let Y := big_SetBytes (drop 33 pubKeyStr) in
    if (format =? pubkeyHybrid) && negb (Bool.eqb ybit (isOdd Y))
    then Err (errorString "ybit doesn't match oddness")
    else if secp256k1_P <=? X then Err (errorString "pubkey X parameter is >= to P")
    else if secp256k1_P <=? Y then Err (errorString "pubkey Y parameter is >= to P")
    else
    ok ← IsOnCurve X Y;
    if negb ok then Err (errorString "pubkey isn't on secp256k1 curve")
    else mret {| pk_X := X; pk_Y := Y |}
  else if len pubKeyStr =? PubKeyBytesLenCompressed then
    if negb (format =? pubkeyCompressed)
    then Err (errorString "invalid magic in compressed pubkey string")
    else
    let X := big_SetBytes (take 32 (drop 1 pubKeyStr)) in
    Y ← decompressPoint X ybit;
    mret {| pk_X := X; pk_Y := Y |}
  else Err (errorString "invalid pub key length").

(** [for i := 0; i < int(size)-len(src); i++ { dst = append(dst, 0) }; append(dst, src...)] *)
Definition paddedAppend (size : Z) (dst src : bytes) : bytes :=
  dst ++ replicate (Z.to_nat (size - len src)) Byte.x00 ++ src.

Definition SerializeUncompressed (p : PublicKey) : bytes :=
  let b := [byte.of_Z pubkeyUncompressed] in
  let b := paddedAppend 32 b (big_Bytes (pk_X p)) in
  paddedAppend 32 b (big_Bytes (pk_Y p)).

Definition SerializeCompressed (p : PublicKey) : bytes :=
  let format := if isOdd (pk_Y p) then Z.lor pubkeyCompressed 0x1 else pubkeyCompressed in
  paddedAppend 32 [byte.of_Z format] (big_Bytes (pk_X p)).

Definition SerializeHybrid (p : PublicKey) : bytes :=
  let format := if isOdd (pk_Y p) then Z.lor pubkeyHybrid 0x1 else pubkeyHybrid in
  let b := paddedAppend 32 [byte.of_Z format] (big_Bytes (pk_X p)) in
  paddedAppend 32 b (big_Bytes (pk_Y p)).

Definition IsEqual (p otherPubKey : PublicKey) : bool :=
  (pk_X p =? pk_X otherPubKey) && (pk_Y p =? pk_Y otherPubKey).

(** * Values of the field expressions *)

Abbreviation P := secp256k1_P.

Lemma P_bounds : 2 <= P < 2 ^ 256.
Proof. split; [apply Z.prime_ge_2, secp256k1_P_prime|reflexivity]. Qed.

(** The right-hand side of the equation of the curve. *)
Definition curve_rhs (x : Z) : Z := (x * x * x + curve_B) mod P.

Definition on_curve (x y : Z) : Prop := (y * y) mod P = curve_rhs x.

#[export] Instance on_curve_dec x y : Decision (on_curve x y).
Proof. unfold on_curve. apply _. Defined.

Lemma field_of_big x :
  0 <= x < 2 ^ 256 ->
  exists f, SetByteSlice (big_Bytes x) = Ok f /\ normalized f /\ value f = x.
Proof.
  intros Hx. destruct (SetByteSlice_spec (big_Bytes x)) as (f & Hf & Hn & Hv).
  - apply (big_Bytes_le x 32); [done|lia].
  - exists f. rewrite big_SetBytes_Bytes in Hv by lia. done.
Qed.

Lemma Square_normal f :
  magnitude 8 f -> reduced (Normalize (SquareVal f)) (value f * value f).
Proof.
  intros Hf. rewrite SquareVal_Mul2. destruct (Mul2_value f f Hf Hf) as [Hm Hv].
  destruct (Normalize_reduced (Mul2 f f)) as [Hn E]; [apply (magnitude_mono 1); [done|lia]|].
  split; [done|]. by rewrite E.
Qed.

Lemma cube_value f :
  magnitude 8 f ->
  magnitude 1 (Mul (SquareVal f) f) /\ value (Mul (SquareVal f) f) mod P = (value f * value f * value f) mod P.
Proof.
  intros Hf. rewrite SquareVal_Mul2. destruct (Mul2_value f f Hf Hf) as [Hm Hv].
  destruct (Mul2_value (Mul2 f f) f) as [Hm' Hv']; [apply (magnitude_mono 1); [done|lia]|done|].
  split; [done|]. unfold Mul. by rewrite Hv', <-Zmult_mod_idemp_l, Hv, Zmult_mod_idemp_l.
Qed.

Lemma reduced_range f v : reduced f v -> 0 <= value f < P.
Proof. intros [_ ->]. apply Z.mod_pos_bound. pose proof P_bounds. lia. Qed.

(** The right-hand side, as both functions compute it. *)
Lemma rhs_value f g :
  magnitude 8 f -> magnitude 2 g -> value g = value (Mul (SquareVal f) f) + curve_B ->
  normalized (Normalize g) /\ value (Normalize g) = curve_rhs (value f).
Proof.
  intros Hf Hg E. destruct (cube_value f Hf) as [_ Hc].
  destruct (Normalize_reduced g) as [Hn Hv]; [apply (magnitude_mono 2); [done|lia]|].
  split; [done|]. rewrite Hv, E. unfold curve_rhs. by rewrite <-Zplus_mod_idemp_l, Hc, Zplus_mod_idemp_l.
Qed.

Lemma IsOnCurve_spec x y :
  0 <= x < 2 ^ 256 -> 0 <= y < 2 ^ 256 -> IsOnCurve x y = Ok (bool_decide (on_curve x y)).
Proof.
  intros Hx Hy. destruct (field_of_big x Hx) as (fx & Ex & Nx & Vx).
  destruct (field_of_big y Hy) as (fy & Ey & Ny & Vy).
  unfold IsOnCurve, bigAffineToField. rewrite Ex. cbn [mbind outcome_bind]. rewrite Ey.
  cbn [mbind outcome_bind mret outcome_ret]. unfold Let_In.
  apply normalized_magnitude in Nx, Ny.
  destruct (Square_normal fy) as [Nl El]; [apply (magnitude_mono 1); [done|lia]|].
  assert (M8 : magnitude 8 fx) by (apply (magnitude_mono 1); [done|lia]).
  destruct (cube_value fx M8) as [Mc _].
  destruct (AddInt_spec 1 7 _ Mc) as [Ma Va]; [lia|by compute|].
  destruct (rhs_value fx _ M8 Ma Va) as [Nr Er].
  rewrite (Equals_spec _ _ Nl Nr), El, Er, Vx, Vy. f_equal.
  unfold on_curve. apply eq_true_iff_eq. by rewrite Z.eqb_eq, bool_decide_eq_true.
Qed.

(** * Point decompression *)

(** The candidate root, and the one with the parity asked for. *)
Definition root_of (c : Z) : Z := c ^ ((P + 1) / 4) mod P.
Definition root_with (c : Z) (ybit : bool) : Z :=
  if Bool.eqb ybit (Z.odd (root_of c)) then root_of c else (- root_of c) mod P.

Lemma fieldB_value : magnitude 1 fieldB /\ value fieldB = curve_B.
Proof. vm_compute. repeat split; discriminate. Qed.

Lemma Sqrt_normal f :
  magnitude 8 f -> value f = value f mod P ->
  normalized (Normalize (SqrtVal f)) /\ value (Normalize (SqrtVal f)) = root_of (value f).
Proof.
  intros Hf E. destruct (SqrtVal_power f Hf) as (Hm & _ & Hp).
  destruct (Normalize_reduced (SqrtVal f)) as [Hn Hv]; [apply (magnitude_mono 8); [done|lia]|].
  split; [exact Hn|]. rewrite Hv. exact Hp.
Qed.

Lemma Negate_normal f :
  normalized f -> reduced (Normalize (NegateVal f 1)) (- value f).
Proof.
  intros Hf. destruct (NegateVal_spec 1 f) as [Hm Hv]; [by apply normalized_magnitude|lia|].
  destruct (Normalize_reduced (NegateVal f 1)) as [Hn Hr]; [apply (magnitude_mono 2); [done|lia]|].
  split; [done|]. rewrite Hr, Hv. replace ((1 + 1) * P - value f) with (- value f + 2 * P) by lia.
  by rewrite Z.mod_add.
Qed.

Lemma decompressPoint_eq x ybit :
  0 <= x < 2 ^ 256 ->
  decompressPoint x ybit =
    let y := root_with (curve_rhs x) ybit in
    if negb ((y * y) mod P =? curve_rhs x) then Err (errorString "invalid square root")
    else if negb (Bool.eqb ybit (Z.odd y)) then Err (errorString "ybit doesn't match oddness")
    else Ok y.
Proof.
  intros Hx. destruct (field_of_big x Hx) as (f & Ef & Nf & Vf).
  unfold decompressPoint. rewrite Ef. cbn [mbind outcome_bind]. clear Ef.
  assert (M8 : magnitude 8 f) by (apply (magnitude_mono 1); [by apply normalized_magnitude|lia]).
  destruct (cube_value f M8) as [Mc _], fieldB_value as [MB VB].
  destruct (Add_spec 1 1 _ _ Mc MB) as [Ma Va]; [lia|]. rewrite VB in Va.
  destruct (rhs_value f _ M8 Ma Va) as [N3 V3]. rewrite Vf in V3.
  do 2 (apply Let_In_elim; intros ? ->). set (x3 := Normalize (Add _ fieldB)) in *. clearbody x3.
  assert (M3 : magnitude 8 x3) by (apply (magnitude_mono 1); [by apply normalized_magnitude|lia]).
  destruct (Sqrt_normal x3 M3) as [Ny Vy].
  { rewrite V3. unfold curve_rhs. by rewrite Zmod_mod. }
  rewrite V3 in Vy. apply Let_In_elim; intros y ->. set (y := Normalize (SqrtVal x3)) in *. clearbody y.
  apply Let_In_elim; intros z Ez.
  assert (Hz : normalized z /\ value z = root_with (curve_rhs x) ybit).
  { unfold root_with. rewrite <-Vy, <-(IsOdd_spec y). rewrite Ez.
    destruct (Bool.eqb ybit (IsOdd y)); [split; [exact Ny|reflexivity]|]. exact (Negate_normal y Ny). }
  destruct Hz as [Nz Vz]. clear Ez.
  destruct (Square_normal z) as [N2 V2]; [apply (magnitude_mono 1); [by apply normalized_magnitude|lia]|].
  apply Let_In_elim; intros y2 ->. rewrite (Equals_spec _ _ N2 N3), V2, V3, IsOdd_spec, Vz.
  cbv zeta. unfold Bytes. destruct (PutBytes_spec z Nz) as [_ ->]. by rewrite Vz.
Qed.

(** * Roots modulo the prime *)

Lemma root_of_range c : 0 <= root_of c < P.
Proof. apply Z.mod_pos_bound. pose proof P_bounds. lia. Qed.

Lemma root_with_range c ybit : 0 <= root_with c ybit < P.
Proof.
  unfold root_with. destruct (Bool.eqb _ _); [apply root_of_range|].
  apply Z.mod_pos_bound. pose proof P_bounds. lia.
Qed.

Lemma mod_neg r : 0 <= r < P -> (- r) mod P = if r =? 0 then 0 else P - r.
Proof.
  intros Hr. destruct (Z.eqb_spec r 0) as [->|]; [done|].
  symmetry. apply Z.mod_unique with (-1); lia.
Qed.

(** Two square roots of one number are equal or opposite. *)
Lemma roots_opposite a b :
  0 <= a < P -> 0 <= b < P -> (a * a) mod P = (b * b) mod P -> a = b \/ a = (- b) mod P.
Proof.
  intros Ha Hb E. pose proof P_bounds.
  assert (Hd : (P | (a - b) * (a + b))).
  { apply Z.mod_divide; [lia|]. replace ((a - b) * (a + b)) with (a * a - b * b) by ring.
    rewrite Zminus_mod, E, Z.sub_diag. done. }
  rewrite Z.divide_prime_mul in Hd by apply secp256k1_P_prime. rewrite mod_neg by done.
  destruct Hd as [[k Hk]|[k Hk]].
  - left. assert (k = 0) by nia. lia.
  - right. assert (k = 0 \/ k = 1) as [->| ->] by nia; destruct (Z.eqb_spec b 0); lia.
Qed.

Lemma P_odd : Z.odd P = true.
Proof. reflexivity. Qed.

(** The root with a parity is found whenever there is one. *)
Lemma root_with_complete x y ybit :
  0 <= y < P -> on_curve x y -> Z.odd y = ybit -> root_with (curve_rhs x) ybit = y.
Proof.
  intros Hy Hc Hb. unfold on_curve in Hc. set (c := curve_rhs x) in *.
  assert (Hr : (root_of c * root_of c) mod P = (y * y) mod P).
  { unfold root_of. rewrite <-Zmult_mod, <-Z.pow_2_r, (square_root_power c y), Hc.
    - unfold c, curve_rhs. by rewrite Zmod_mod.
    - rewrite Z.pow_2_r, Hc. unfold c, curve_rhs. by rewrite Zmod_mod. }
  pose proof (root_of_range c) as Hrr. unfold root_with.
  destruct (roots_opposite _ _ Hrr Hy Hr) as [->| E].
  - by rewrite Hb, eqb_reflx.
  - rewrite mod_neg in E by done. pose proof P_odd as Po. subst ybit.
    destruct (Z.eqb_spec y 0) as [->|Hz]; [rewrite E; reflexivity|].
    rewrite E, Z.odd_sub, Po. destruct (Z.odd y); cbn [xorb Bool.eqb]; rewrite mod_neg by lia;
      destruct (Z.eqb_spec (P - y) 0); lia.
Qed.

(** Decompression is sound and complete: it returns [y] exactly when [y] is the
    root of the curve equation with the parity asked for. *)
Lemma decompressPoint_iff x ybit y :
  0 <= x < 2 ^ 256 ->
  decompressPoint x ybit = Ok y <-> 0 <= y < P /\ on_curve x y /\ Z.odd y = ybit.
Proof.
  intros Hx. rewrite decompressPoint_eq by done. cbv zeta. split.
  - destruct (Z.eqb_spec ((root_with (curve_rhs x) ybit * root_with (curve_rhs x) ybit) mod P) (curve_rhs x));
      cbn [negb]; [|done].
    destruct (Bool.eqb ybit _) eqn:Eb; cbn [negb]; [|done]. intros [= <-].
    apply eqb_prop in Eb. split_and!; try apply root_with_range; done.
  - intros (Hy & Hc & Hb). rewrite (root_with_complete x y ybit Hy Hc Hb), Hc, Z.eqb_refl, Hb, eqb_reflx.
    done.
Qed.

(** * Parsing *)

Definition pad32 (x : Z) : bytes :=
  replicate (Z.to_nat (32 - len (big_Bytes x))) Byte.x00 ++ big_Bytes x.

Lemma pad32_spec x : 0 <= x < 2 ^ 256 -> len (pad32 x) = 32 /\ big_SetBytes (pad32 x) = x.
Proof.
  intros Hx. pose proof (big_Bytes_le x 32 Hx ltac:(lia)) as Hl. pose proof (len_nonneg (big_Bytes x)).
  split; [|unfold pad32; rewrite big_SetBytes_zeros; apply big_SetBytes_Bytes; lia].
  unfold pad32. rewrite len_app. unfold len at 1. rewrite length_replicate. lia.
Qed.

Lemma serialize_eq p :
  SerializeUncompressed p = byte.of_Z 4 :: pad32 (pk_X p) ++ pad32 (pk_Y p) /\
  SerializeCompressed p = byte.of_Z (if Z.odd (pk_Y p) then 3 else 2) :: pad32 (pk_X p) /\
  SerializeHybrid p = byte.of_Z (if Z.odd (pk_Y p) then 7 else 6) :: pad32 (pk_X p) ++ pad32 (pk_Y p).
Proof.
  unfold SerializeUncompressed, SerializeCompressed, SerializeHybrid, paddedAppend, isOdd.
  rewrite Z.bit0_odd. fold (pad32 (pk_X p)) (pad32 (pk_Y p)).
  destruct (Z.odd (pk_Y p)); by rewrite ?app_assoc.
Qed.

Section parse.
Context (f : Init.Byte.byte) (xb yb : bytes).
Hypothesis (Hx : len xb = 32) (Hy : len yb = 32).

Lemma slice_x : take 32 (drop 1 (f :: xb ++ yb)) = xb.
Proof.
  change (drop 1 (f :: xb ++ yb)) with (xb ++ yb). rewrite take_app_le by (unfold len in Hx; lia). apply take_ge. unfold len in Hx; lia.
Qed.
Lemma slice_y : drop 33 (f :: xb ++ yb) = yb.
Proof.
  change (drop 33 (f :: xb ++ yb)) with (drop 32 (xb ++ yb)).
  rewrite (drop_app_ge xb yb 32) by (unfold len in Hx; lia).
  by replace (32 - length xb)%nat with O by (unfold len in Hx; lia).
Qed.

Lemma parse_long :
  ParsePubKey (f :: xb ++ yb) =
    let fmt := byte.unsigned f in let X := big_SetBytes xb in let Y := big_SetBytes yb in
    if negb (Z.land fmt 0xfe =? 4) && negb (Z.land fmt 0xfe =? 6)
    then Err (errorString "invalid magic in pubkey str")
    else if (Z.land fmt 0xfe =? 6) && negb (Bool.eqb (Z.land fmt 1 =? 1) (Z.odd Y))
    then Err (errorString "ybit doesn't match oddness")
    else if P <=? X then Err (errorString "pubkey X parameter is >= to P")
    else if P <=? Y then Err (errorString "pubkey Y parameter is >= to P")
    else if bool_decide (on_curve X Y) then Ok {| pk_X := X; pk_Y := Y |}
    else Err (errorString "pubkey isn't on secp256k1 curve").
Proof.
  assert (Hl : len (f :: xb ++ yb) = 65) by (rewrite len_cons, len_app; lia).
  unfold ParsePubKey. rewrite Hl, slice_x, slice_y. cbn [key_byte hd].
  unfold isOdd. rewrite Z.bit0_odd. cbv zeta.
  pose proof (big_SetBytes_range xb) as Rx. pose proof (big_SetBytes_range yb) as Ry.
  rewrite Hx in Rx. rewrite Hy in Ry. rewrite (IsOnCurve_spec _ _ Rx Ry).
  cbn [mbind outcome_bind]. change (key_byte (f :: xb ++ yb)) with (byte.unsigned f).
  by destruct (bool_decide (on_curve (big_SetBytes xb) (big_SetBytes yb))).
Qed.

Lemma parse_short :
  ParsePubKey (f :: xb) =
    let fmt := byte.unsigned f in
    if negb (Z.land fmt 0xfe =? 2) then Err (errorString "invalid magic in compressed pubkey string")
    else Y ← decompressPoint (big_SetBytes xb) (Z.land fmt 1 =? 1);
         mret {| pk_X := big_SetBytes xb; pk_Y := Y |}.
Proof.
  assert (Hl : len (f :: xb) = 33) by (rewrite len_cons; lia).
  unfold ParsePubKey. rewrite Hl. change (drop 1 (f :: xb)) with xb. rewrite take_ge by (unfold len in Hx; lia). done.
Qed.
End parse.

(** Any string that parses has one of the two lengths. *)
Lemma parse_cases s k :
  ParsePubKey s = Ok k ->
  (exists f xb yb, s = f :: xb ++ yb /\ len xb = 32 /\ len yb = 32) \/
  (exists f xb, s = f :: xb /\ len xb = 32).
Proof.
  intros H. unfold ParsePubKey in H.
  destruct (Z.eqb_spec (len s) 0) as [|H0]; [done|].
  destruct s as [|f s]; [done|]. rewrite len_cons in *.
  destruct (Z.eqb_spec (1 + len s) PubKeyBytesLenUncompressed) as [H65|].
  - left. exists f, (take 32 s), (drop 32 s). unfold PubKeyBytesLenUncompressed, len in *.
    rewrite take_drop, length_take, length_drop. split_and!; [done|lia..].
  - destruct (Z.eqb_spec (1 + len s) PubKeyBytesLenCompressed) as [H33|]; [|done].
    right. exists f, s. split; [done|]. unfold PubKeyBytesLenCompressed in H33. lia.
Qed.

(** A key with reduced coordinates on the curve. *)
Definition valid_key (p : PublicKey) : Prop :=
  0 <= pk_X p < P /\ 0 <= pk_Y p < P /\ on_curve (pk_X p) (pk_Y p).

#[local] Lemma ltb_false a b : a < b -> (b <=? a) = false.
Proof. apply Z.leb_gt. Qed.

Lemma parse_valid_long (p : PublicKey) f :
  valid_key p ->
  byte.unsigned f = 4 \/ byte.unsigned f = 5 \/ byte.unsigned f = (if Z.odd (pk_Y p) then 7 else 6) ->
  ParsePubKey (f :: pad32 (pk_X p) ++ pad32 (pk_Y p)) = Ok p.
Proof.
  destruct p as [X Y]; unfold valid_key; cbn [pk_X pk_Y]. intros (Rx & Ry & Hc) Hf. pose proof P_bounds.
  destruct (pad32_spec X) as [Lx Vx]; [lia|]. destruct (pad32_spec Y) as [Ly Vy]; [lia|].
  rewrite (parse_long f _ _ Lx Ly). cbv zeta. rewrite Vx, Vy, !ltb_false, bool_decide_true by (done || lia).
  destruct Hf as [->|[->| ->]]; [done..|]. by destruct (Z.odd Y).
Qed.

Lemma parse_short_iff f xb k :
  len xb = 32 ->
  ParsePubKey (f :: xb) = Ok k <->
  Z.land (byte.unsigned f) 0xfe = 2 /\ pk_X k = big_SetBytes xb /\ 0 <= pk_Y k < P /\
  on_curve (pk_X k) (pk_Y k) /\ Z.odd (pk_Y k) = (Z.land (byte.unsigned f) 1 =? 1).
Proof.
  intros Hl. rewrite (parse_short f xb Hl). cbv zeta.
  pose proof (big_SetBytes_range xb) as Rx. rewrite Hl in Rx.
  destruct (Z.eqb_spec (Z.land (byte.unsigned f) 0xfe) 2) as [Hf|Hf]; cbn [negb]; [|by split; [|intros []]].
  destruct (decompressPoint _ _) as [Y| |] eqn:E; cbn [mbind outcome_bind mret outcome_ret].
  - apply (decompressPoint_iff _ _ _ Rx) in E as (Ry & Hc & Hb). split.
    + intros [= <-]. done.
    + intros (_ & HX & RY & HC & HB). f_equal. destruct k as [X' Y']; cbn [pk_X pk_Y] in *. subst X'.
      f_equal. pose proof (proj2 (decompressPoint_iff _ _ _ Rx) (conj Ry (conj Hc Hb))) as E1.
      pose proof (proj2 (decompressPoint_iff _ _ _ Rx) (conj RY (conj HC HB))) as E2. congruence.
  - split; [done|]. intros (_ & HX & RY & HC & HB). rewrite HX in HC.
    pose proof (proj2 (decompressPoint_iff _ _ _ Rx) (conj RY (conj HC HB))). congruence.
  - split; [done|]. intros (_ & HX & RY & HC & HB). rewrite HX in HC.
    pose proof (proj2 (decompressPoint_iff _ _ _ Rx) (conj RY (conj HC HB))). congruence.
Qed.

Lemma parse_valid_compressed (p : PublicKey) :
  0 <= pk_X p < 2 ^ 256 -> 0 <= pk_Y p < P -> on_curve (pk_X p) (pk_Y p) ->
  ParsePubKey (SerializeCompressed p) = Ok p.
Proof.
  intros Rx Ry Hc. destruct (pad32_spec (pk_X p) Rx) as [Lx Vx].
  destruct (serialize_eq p) as (_ & -> & _). apply (parse_short_iff _ _ p Lx). rewrite Vx.
  split_and!; try done; try lia; by destruct (Z.odd (pk_Y p)).
Qed.

Lemma parse_long_ok f xb yb p :
  len xb = 32 -> len yb = 32 -> ParsePubKey (f :: xb ++ yb) = Ok p -> valid_key p.
Proof.
  intros Lx Ly. rewrite (parse_long f xb yb Lx Ly). cbv zeta.
  pose proof (big_SetBytes_range xb). pose proof (big_SetBytes_range yb).
  destruct (_ && _); [done|]. destruct (_ && _); [done|].
  destruct (Z.leb_spec P (big_SetBytes xb)); [done|]. destruct (Z.leb_spec P (big_SetBytes yb)); [done|].
  case_bool_decide; [|done]. intros [= <-]. unfold valid_key; cbn [pk_X pk_Y]. split_and!; try done; lia.
Qed.

Lemma decompressPoint_no_panic x ybit : 0 <= x < 2 ^ 256 -> decompressPoint x ybit <> Panic.
Proof. intros Hx. rewrite decompressPoint_eq by done. cbv zeta. by repeat case_match. Qed.

Lemma parse_no_panic s : ParsePubKey s <> Panic.
Proof.
  intros H. unfold ParsePubKey in H. destruct (Z.eqb_spec (len s) 0) as [|H0]; [done|].
  destruct s as [|f s]; [done|]. rewrite len_cons in *. cbv zeta in H.
  destruct (Z.eqb_spec (1 + len s) PubKeyBytesLenUncompressed) as [H65|].
  - rewrite IsOnCurve_spec in H; [cbn [mbind outcome_bind] in H; by repeat case_match|..].
    all: match goal with |- 0 <= big_SetBytes ?b < _ => pose proof (big_SetBytes_range b) as R;
      replace (len b) with 32 in R; [done|] end.
    all: unfold PubKeyBytesLenUncompressed, len in *.
    + change (drop 1 (f :: s)) with s. rewrite length_take. lia.
    + change (drop 33 (f :: s)) with (drop 32 s). rewrite length_drop. lia.
  - destruct (Z.eqb_spec (1 + len s) PubKeyBytesLenCompressed) as [H33|]; [|done].
    destruct (negb _); [done|]. destruct (decompressPoint _ _) eqn:E; try done.
    eapply decompressPoint_no_panic; [|exact E].
    match goal with |- 0 <= big_SetBytes ?b < _ => pose proof (big_SetBytes_range b) as R;
      replace (len b) with 32 in R; [done|] end.
    unfold PubKeyBytesLenCompressed, len in *. change (drop 1 (f :: s)) with s. rewrite length_take. lia.
Qed.

Lemma land_fe b : Z.land (byte.unsigned b) 0xfe = Z.ldiff (byte.unsigned b) 0x1.
Proof. destruct b; reflexivity. Qed.

Lemma curve_rhs_periodic x : curve_rhs (x + P) = curve_rhs x.
Proof.
  unfold curve_rhs. pose proof P_bounds.
  replace ((x + P) * (x + P) * (x + P) + curve_B)
    with (x * x * x + curve_B + (3 * x * x + 3 * x * P + P * P) * P) by ring.
  by rewrite Z.mod_add by lia.
Qed.

(** * Properties *)

(** A public key on the curve is read back from each of its three
    serializations.  For the compressed one this says that the exponentiation of
    [SqrtVal] and the choice of the parity recover the ordinate that was dropped. *)
Theorem pubkey_roundtrip p :
  valid_key p ->
  ParsePubKey (SerializeUncompressed p) = Ok p /\ ParsePubKey (SerializeCompressed p) = Ok p /\
  ParsePubKey (SerializeHybrid p) = Ok p.
Proof.
  intros Hp. pose proof Hp as (Rx & Ry & Hc). pose proof P_bounds.
  destruct (serialize_eq p) as (-> & _ & ->). split_and!.
  - apply parse_valid_long; [done|by left].
  - apply parse_valid_compressed; [lia|done..].
  - apply parse_valid_long; [done|]. right; right. by destruct (Z.odd (pk_Y p)).
Qed.

(** [ParsePubKey] never panics, and what it accepts is on the curve: the
    ordinate is reduced, the abscissa is below 2^256, and below the prime unless the
    key is compressed. *)
Theorem pubkey_sound s :
  match ParsePubKey s with
  | Ok p => on_curve (pk_X p) (pk_Y p) /\ 0 <= pk_Y p < P /\ 0 <= pk_X p < 2 ^ 256 /\
            (IsCompressedPubKey s = false -> valid_key p)
  | Err _ => True
  | Panic => False
  end.
Proof.
  destruct (ParsePubKey s) as [p| |] eqn:E; [|done|by apply parse_no_panic in E].
  pose proof P_bounds. destruct (parse_cases s p E) as [(f & xb & yb & -> & Lx & Ly)|(f & xb & -> & Lx)].
  - pose proof (parse_long_ok f xb yb p Lx Ly E) as Hv. pose proof Hv as Hv'. destruct Hv' as (? & ? & ?). split_and!; try done; lia.
  - apply (parse_short_iff f xb p Lx) in E as (Hf & HX & RY & HC & _).
    pose proof (big_SetBytes_range xb) as Rx. rewrite Lx in Rx. split_and!; try done; try lia.
    unfold IsCompressedPubKey. rewrite len_cons, Lx. cbn [key_byte hd]. intros H0. exfalso.
    change (key_byte (f :: xb)) with (byte.unsigned f) in H0.
    rewrite <-land_fe in H0. by rewrite Hf in H0.
Qed.

(** The abscissa of a compressed key is not compared with the prime. A point
    whose abscissa is below 2^32+977 has a second compressed serialization, with the
    prime added, that is accepted and gives an unreduced key; the uncompressed
    serialization of that key is refused, and so is never seen as the same key. *)
Theorem compressed_abscissa_unreduced p :
  valid_key p -> pk_X p < 2 ^ 256 - P ->
  let q := {| pk_X := pk_X p + P; pk_Y := pk_Y p |} in
  ParsePubKey (SerializeCompressed q) = Ok q /\ IsEqual p q = false /\
  ParsePubKey (SerializeUncompressed q) = Err (errorString "pubkey X parameter is >= to P").
Proof.
  intros (Rx & Ry & Hc) Hlt q. pose proof P_bounds. split_and!.
  - apply parse_valid_compressed; cbn [q pk_X pk_Y]; [lia|done|].
    unfold on_curve in *. rewrite Hc. symmetry. apply curve_rhs_periodic.
  - unfold IsEqual; cbn [q pk_X pk_Y]. by rewrite (proj2 (Z.eqb_neq _ _)) by lia.
  - destruct (serialize_eq q) as (-> & _ & _). cbn [q pk_X pk_Y].
    destruct (pad32_spec (pk_X p + P)) as [Lx Vx]; [lia|]. destruct (pad32_spec (pk_Y p)) as [Ly Vy]; [lia|].
    rewrite (parse_long _ _ _ Lx Ly). cbv zeta. rewrite Vx, (proj2 (Z.leb_le _ _)) by lia. done.
Qed.

(** * Witnesses *)

(** The generator of the curve, and the point of abscissa one. *)
Definition example_key : PublicKey :=
  {| pk_X := 0x79BE667EF9DCBBAC55A06295CE870B07029BFCDB2DCE28D959F2815B16F81798;
     pk_Y := 0x483ADA7726A3C4655DA4FBFC0E1108A8FD17B448A68554199C47D08FFB10D4B8 |}.
Definition small_key : PublicKey := 
  {| pk_X := 1; pk_Y := 0x4218f20ae6c646b363db68605822fb14264ca8d2587fdd6fbc750d587e76a7ee |}.

Lemma example_key_valid : valid_key example_key.
Proof. unfold valid_key, on_curve. vm_compute. repeat split; discriminate. Qed.

Lemma pubkey_roundtrip_witness : ParsePubKey (SerializeCompressed example_key) = Ok example_key.
Proof. destruct (pubkey_roundtrip example_key example_key_valid) as (_ & H & _). exact H. Defined.

Lemma small_key_valid : valid_key small_key.
Proof. unfold valid_key, on_curve. vm_compute. repeat split; discriminate. Qed.

Lemma compressed_abscissa_unreduced_witness :
  exists q, ParsePubKey (SerializeCompressed q) = Ok q /\ pk_X q = P + 1.
Proof.
  destruct (compressed_abscissa_unreduced small_key small_key_valid) as (H & _ & _); [reflexivity|].
  eexists. split; [exact H|reflexivity].
Defined.
