(* ===== verification/Signature.v ===== *)
(** Model of the encodings of btcec/signature.go: signatures in the DER format, parsed
    with the strict rules or the lax ones. *)

From S2P Require Import Prelude Big PrimeCert Field ScriptNum PubKey.

(** The order of the group and half of it, set when the curve is initialized. *)
Definition curve_N : Z := 0xFFFFFFFFFFFFFFFFFFFFFFFFFFFFFFFEBAAEDCE6AF48A03BBFD25E8CD0364141.
Definition halfOrder : Z := Z.shiftr curve_N 1.

Record Signature := { sig_R : Z; sig_S : Z }.

#[export] Instance Signature_eq_dec : EqDecision Signature.
Proof. solve_decision. Defined.

Definition Signature_IsEqual (sig otherSig : Signature) : bool :=
  (sig_R sig =? sig_R otherSig) && (sig_S sig =? sig_S otherSig).

Definition MinSigLen : Z := 8.

Definition canonicalizeInt (val : Z) : bytes :=
  let b := big_Bytes val in
  let b := if len b =? 0 then [Byte.x00] else b in
  if negb (Z.land (at_ b 0) 0x80 =? 0) then Byte.x00 :: b else b.

(** The error of [canonicalPadding], [None] for nil. *)
Inductive padding_error := errNegativeValue | errExcessivelyPaddedValue.

Definition canonicalPadding (b : bytes) : option padding_error :=
  if Z.land (at_ b 0) 0x80 =? 0x80 then Some errNegativeValue
  else if (1 <? len b) && (at_ b 0 =? 0x00) && negb (Z.land (at_ b 1) 0x80 =? 0x80)
  then Some errExcessivelyPaddedValue
  else None.

Definition Signature_Serialize (sig : Signature) : bytes :=
  let sigS := if halfOrder <? sig_S sig then curve_N - sig_S sig else sig_S sig in
  let rb := canonicalizeInt (sig_R sig) in
  let sb := canonicalizeInt sigS in
  let length := 6 + len rb + len sb in
  mkbytes [0x30; length - 2; 0x02; len rb] ++ rb ++ mkbytes [0x02; len sb] ++ sb.

Definition sig_error {A} (s : string) : outcome A := Err (errorString s).

(** One integer of a signature: the marker has been read, [s] starts with the length
    byte; [tail] is what must be left after it.  Returns the value, what follows it, and
    whether the padding is canonical. *)
Definition parse_int (s : bytes) (room : Z) : option (bytes * bytes) :=
  match s with
  | [] => None
  | l :: s =>
      let n := byte.unsigned l in
      if (n <=? 0) || (len s - room <? n) then None
      else Some (take (Z.to_nat n) s, drop (Z.to_nat n) s)
  end.

(** The slice is trimmed to [siglen+2] bytes, computed on a [byte]: the sum wraps. *)
Definition parseSig (sigStr : bytes) (der : bool) : outcome Signature :=
  if len sigStr <? MinSigLen then sig_error "malformed signature: too short"
  else if negb (at_ sigStr 0 =? 0x30) then sig_error "malformed signature: no header magic"
  else
  let siglen2 := uwrap 8 (at_ sigStr 1 + 2) in
  if (len sigStr <? siglen2) || (siglen2 <? MinSigLen) then sig_error "malformed signature: bad length"
  else
  let sigStr := take (Z.to_nat siglen2) sigStr in
  if negb (at_ sigStr 2 =? 0x02) then sig_error "malformed signature: no 1st int marker"
  else
  match parse_int (drop 3 sigStr) 3 with
  | None => sig_error "malformed signature: bogus R length"
  | Some (rBytes, rest) =>
      match (if der then canonicalPadding rBytes else None) with
      | Some errNegativeValue => sig_error "signature R is negative"
      | Some errExcessivelyPaddedValue => sig_error "signature R is excessively padded"
      | None =>
      if negb (at_ rest 0 =? 0x02) then sig_error "malformed signature: no 2nd int marker"
      else
      match parse_int (drop 1 rest) 0 with
      | None => sig_error "malformed signature: bogus S length"
      | Some (sBytes, rest) =>
          match (if der then canonicalPadding sBytes else None) with
          | Some errNegativeValue => sig_error "signature S is negative"
          | Some errExcessivelyPaddedValue => sig_error "signature S is excessively padded"
          | None =>
          let R := big_SetBytes rBytes in let S := big_SetBytes sBytes in
          if negb (len rest =? 0) then sig_error "malformed signature: bad final length"
          else if negb (0 <? R) then sig_error "signature R isn't 1 or more"
          else if negb (0 <? S) then sig_error "signature S isn't 1 or more"
          else if curve_N <=? R then sig_error "signature R is >= curve.N"
          else if curve_N <=? S then sig_error "signature S is >= curve.N"
          else Ok {| sig_R := R; sig_S := S |}
          end
      end
      end
  end.

Definition ParseSignature (sigStr : bytes) : outcome Signature := parseSig sigStr false.
Definition ParseDERSignature (sigStr : bytes) : outcome Signature := parseSig sigStr true.

(** * Round trip *)

Lemma big_Bytes_head v : 0 < v -> exists b t, big_Bytes v = b :: t /\ byte.unsigned b <> 0.
Proof.
  intros Hv. destruct (big_Bytes v) as [|b t] eqn:E.
  - destruct (big_Bytes_len v Hv) as [Hl _]. rewrite E in Hl. unfold len in Hl. cbn in Hl.
    pose proof (Z.div_pos (Z.log2 v) 8 (Z.log2_nonneg v)). lia.
  - exists b, t. split; [done|]. intros Hb. destruct (big_Bytes_len v Hv) as [_ [Hlo _]].
    pose proof (big_SetBytes_Bytes v) as Hr. rewrite E in Hr, Hlo. rewrite len_cons in Hlo.
    assert (b = Byte.x00) as -> by (apply byte.unsigned_inj; done).
    change (Byte.x00 :: t) with (replicate 1 Byte.x00 ++ t) in Hr. rewrite big_SetBytes_zeros in Hr.
    pose proof (big_SetBytes_range t) as Ht. replace (8 * (1 + len t - 1)) with (8 * len t) in Hlo by lia. lia.
Qed.

(** The bytes of a positive number below the order: canonical, and short enough for the
    one-byte lengths of the format. *)
Lemma canonicalizeInt_spec v :
  0 < v < curve_N ->
  let b := canonicalizeInt v in
  1 <= len b <= 33 /\ big_SetBytes b = v /\ canonicalPadding b = None.
Proof.
  intros Hv. destruct (big_Bytes_head v ltac:(lia)) as (h & t & E & Hh). unfold canonicalizeInt. rewrite E. cbv zeta.
  assert (Hl : len (h :: t) <= 32).
  { rewrite <-E. apply big_Bytes_le; [|lia]. split; [lia|]. eapply Z.lt_trans; [apply Hv|reflexivity]. }
  rewrite len_cons in *. pose proof (len_nonneg t). rewrite (proj2 (Z.eqb_neq (1 + len t) 0)) by lia.
  change (at_ (h :: t) 0) with (byte.unsigned h).
  assert (Hr : big_SetBytes (h :: t) = v) by (rewrite <-E; apply big_SetBytes_Bytes; lia).
  rewrite byte_land_80. destruct (Z.ltb_spec (byte.unsigned h) 128) as [H7|H7]; cbn [negb].
  - split_and!; [rewrite len_cons; lia..|done|]. unfold canonicalPadding. change (at_ (h :: t) 0) with (byte.unsigned h).
    rewrite (proj2 (Z.eqb_neq (byte.unsigned h) 0)), andb_false_r by done. cbn [andb].
    assert (Z.land (byte.unsigned h) 0x80 = 0) as -> by (apply Z.eqb_eq; rewrite byte_land_80; by apply Z.ltb_lt).
    done.
  - split_and!; [rewrite !len_cons; lia..| |].
    + change (Byte.x00 :: h :: t) with (replicate 1 Byte.x00 ++ h :: t). by rewrite big_SetBytes_zeros.
    + unfold canonicalPadding. change (at_ (Byte.x00 :: h :: t) 0) with 0. change (at_ (Byte.x00 :: h :: t) 1) with (byte.unsigned h).
      assert (Z.land (byte.unsigned h) 0x80 = 0x80) as ->
        by (clear -H7; destruct h; (reflexivity || (exfalso; vm_compute in H7; by apply H7))).
      by rewrite !andb_false_r.
Qed.

Lemma parse_int_app (b rest : bytes) room :
  1 <= len b <= 127 -> room <= len rest -> parse_int (byte.of_Z (len b) :: b ++ rest) room = Some (b, rest).
Proof.
  intros Hb Hr. unfold parse_int. rewrite byte.unsigned_of_Z. unfold byte.wrap. rewrite Z.mod_small by lia.
  rewrite (proj2 (Z.leb_gt _ _)), (proj2 (Z.ltb_ge _ _)) by (rewrite ?len_app; lia). cbn [orb].
  by rewrite to_nat_len, take_app_length, drop_app_length.
Qed.

(** The two integers of a signature, in the DER format. *)
Definition der (rb sb : bytes) : bytes :=
  mkbytes [0x30; 6 + len rb + len sb - 2; 0x02; len rb] ++ rb ++ mkbytes [0x02; len sb] ++ sb.

Lemma parseSig_der rb sb strict rest :
  1 <= len rb <= 33 -> 1 <= len sb <= 33 ->
  (strict = true -> canonicalPadding rb = None /\ canonicalPadding sb = None) ->
  0 < big_SetBytes rb < curve_N -> 0 < big_SetBytes sb < curve_N ->
  parseSig (der rb sb ++ rest) strict = Ok {| sig_R := big_SetBytes rb; sig_S := big_SetBytes sb |}.
Proof.
  intros Hr Hs Hp HR HS. set (n := 6 + len rb + len sb).
  assert (El : len (der rb sb) = n) by (unfold der, n; rewrite !len_app; unfold mkbytes; rewrite !len_map; unfold len; cbn; lia).
  unfold parseSig. rewrite len_app, El. pose proof (len_nonneg rest). unfold MinSigLen.
  rewrite (proj2 (Z.ltb_ge _ _)) by (unfold n; lia).
  change (at_ (der rb sb ++ rest) 0) with 0x30. change (at_ (der rb sb ++ rest) 1) with (byte.unsigned (byte.of_Z (n - 2))).
  cbn [Z.eqb Pos.eqb negb]. rewrite byte.unsigned_of_Z. unfold byte.wrap. rewrite (Z.mod_small (n - 2)) by (unfold n; lia).
  rewrite uwrap_id by (unfold is_uint, n; lia). replace (n - 2 + 2) with n by lia.
  rewrite !(proj2 (Z.ltb_ge _ _)) by (unfold n; lia). cbn [orb]. rewrite <-El, to_nat_len, take_app_length.
  change (at_ (der rb sb) 2) with 0x02. cbn [Z.eqb Pos.eqb negb].
  change (drop 3 (der rb sb)) with (byte.of_Z (len rb) :: rb ++ mkbytes [0x02; len sb] ++ sb).
  rewrite parse_int_app by (rewrite ?len_app; unfold mkbytes; rewrite ?len_map; unfold len in *; cbn; lia).
  assert ((if strict then canonicalPadding rb else None) = None) as -> by (destruct strict; [by apply Hp|done]).
  change (at_ (mkbytes [0x02; len sb] ++ sb) 0) with 0x02. cbn [Z.eqb Pos.eqb negb].
  change (drop 1 (mkbytes [0x02; len sb] ++ sb)) with (byte.of_Z (len sb) :: sb).
  pose proof (parse_int_app sb [] 0 ltac:(lia) ltac:(unfold len; cbn; lia)) as Ei. rewrite app_nil_r in Ei. rewrite Ei.
  assert ((if strict then canonicalPadding sb else None) = None) as -> by (destruct strict; [by apply Hp|done]).
  cbn [len length Z.of_nat Z.eqb negb]. rewrite !(proj2 (Z.ltb_lt 0 _)), !(proj2 (Z.leb_gt curve_N _)) by lia. done.
Qed.

(** A signature with its [S] replaced by the smaller of [S] and [N - S]. *)
Definition low_s (sig : Signature) : Signature :=
  {| sig_R := sig_R sig; sig_S := if halfOrder <? sig_S sig then curve_N - sig_S sig else sig_S sig |}.

Lemma low_s_range sig : 0 < sig_S sig < curve_N -> 0 < sig_S (low_s sig) <= halfOrder /\ sig_S (low_s sig) < curve_N.
Proof.
  intros H. cbn [low_s sig_S]. assert (E : curve_N = 2 * halfOrder + 1) by reflexivity. assert (0 < halfOrder) by reflexivity.
  destruct (Z.ltb_spec halfOrder (sig_S sig)); lia.
Qed.

(** A signature with both numbers between 1 and the order of the group, serialized and
    parsed again, strictly or not and whatever follows, is the same signature with the
    smaller of the two equivalent values of [S]; the encoding is at most 72 bytes long. *)
Theorem signature_roundtrip sig strict rest :
  0 < sig_R sig < curve_N -> 0 < sig_S sig < curve_N ->
  parseSig (Signature_Serialize sig ++ rest) strict = Ok (low_s sig) /\
  8 <= len (Signature_Serialize sig) <= 72 /\ 0 < sig_S (low_s sig) <= halfOrder.
Proof.
  intros HR HS. destruct (low_s_range sig HS) as [Hl Hn].
  destruct (canonicalizeInt_spec (sig_R sig) HR) as (Lr & Vr & Pr).
  destruct (canonicalizeInt_spec (sig_S (low_s sig)) ltac:(lia)) as (Ls & Vs & Ps). cbv zeta in *.
  change (Signature_Serialize sig) with (der (canonicalizeInt (sig_R sig)) (canonicalizeInt (sig_S (low_s sig)))).
  split_and!; [|unfold der; rewrite !len_app; unfold mkbytes; rewrite !len_map; unfold len in *; cbn [length]; lia..|lia|lia].
  rewrite parseSig_der by (try done; rewrite ?Vr, ?Vs; lia). by rewrite Vr, Vs.
Qed.

Lemma signature_roundtrip_witness :
  parseSig (Signature_Serialize {| sig_R := 7; sig_S := curve_N - 200 |}) true = Ok {| sig_R := 7; sig_S := 200 |}.
Proof.
  destruct (signature_roundtrip {| sig_R := 7; sig_S := curve_N - 200 |} true []) as [H _]; [split; reflexivity..|].
  rewrite app_nil_r in H. exact H.
Defined.
