(* ===== verification/Compress.v ===== *)
(** Model of node/chaindata/compress.go: variable length quantities, the
    compression of standard scripts and of amounts, and the compressed outputs
    stored in the database of unspent outputs. *)

From S2P Require Import Prelude Big PrimeCert Field ScriptNum Opcode PubKey.

#[local] Open Scope go_scope.

(** * Slices

    A [[]byte] argument whose capacity is its length. *)

(** [target[i] = v], a panic when [i] is out of range. *)
Definition set_at (target : bytes) (i : nat) (v : Z) : outcome bytes :=
  if decide (i < length target)%nat then Ok (<[i := byte.of_Z v]> target) else Panic.

(** [copy(target[off:], src)] *)
Definition copy_to (target : bytes) (off : nat) (src : bytes) : bytes :=
  let k := Nat.min (length target - off) (length src) in
  take off target ++ take k src ++ drop (off + k) target.

(** [s[lo:hi]], a panic when the bounds are out of range. *)
Definition slice (s : bytes) (lo hi : Z) : outcome bytes :=
  if (0 <=? lo) && (lo <=? hi) && (hi <=? len s)
  then Ok (take (Z.to_nat (hi - lo)) (drop (Z.to_nat lo) s)) else Panic.

Definition byte_at (s : bytes) (i : nat) : Z := byte.unsigned (nth i s Byte.x00).

(** * Variable length quantities

    The loops divide a [uint64] by 128 at each turn: ten turns are enough. *)

Definition vlq_fuel : nat := 10.

Fixpoint serializeSizeVLQ_loop (fuel : nat) (size n : Z) : Z :=
  match fuel with
  | O => size
  | S fuel =>
      if 0x7f <? n then serializeSizeVLQ_loop fuel (size + 1) (uwrap 64 (Z.shiftr n 7 - 1)) else size
  end.
Definition serializeSizeVLQ (n : Z) : Z := serializeSizeVLQ_loop vlq_fuel 1 n.

Fixpoint putVLQ_write (fuel offset : nat) (target : bytes) (n : Z) : outcome (bytes * nat) :=
  match fuel with
  | O => Panic
  | S fuel =>
      let highBitMask := if decide (offset = O) then 0x00 else 0x80 in
      target ← set_at target offset (Z.lor (Z.land n 0x7f) highBitMask);
      if n <=? 0x7f then Ok (target, offset)
      else putVLQ_write fuel (S offset) target (uwrap 64 (Z.shiftr n 7 - 1))
  end.

(** [for i, j := 0, offset; i < j; i, j = i+1, j-1 { swap }], at most [offset] turns. *)
Fixpoint putVLQ_reverse (fuel i j : nat) (target : bytes) : bytes :=
  match fuel with
  | O => target
  | S fuel =>
      if decide (i < j)%nat then
        let ti := nth i target Byte.x00 in let tj := nth j target Byte.x00 in
        putVLQ_reverse fuel (S i) (j - 1) (<[j := ti]> (<[i := tj]> target))
      else target
  end.

Definition putVLQ (target : bytes) (n : Z) : outcome (bytes * Z) :=
  '(target, offset) ← putVLQ_write vlq_fuel O target n;
  Ok (putVLQ_reverse offset O offset target, Z.of_nat offset + 1).

Fixpoint deserializeVLQ_loop (n size : Z) (serialized : bytes) : Z * Z :=
  match serialized with
  | [] => (n, size)
  | val :: serialized =>
      let n := Z.lor (uwrap 64 (Z.shiftl n 7)) (Z.land (byte.unsigned val) 0x7f) in
      if negb (Z.land (byte.unsigned val) 0x80 =? 0x80) then (n, size + 1)
      else deserializeVLQ_loop (uwrap 64 (n + 1)) (size + 1) serialized
  end.
Definition deserializeVLQ (serialized : bytes) : Z * Z := deserializeVLQ_loop 0 0 serialized.

(** * Scripts *)


Definition cstPayToPubKeyHash : Z := 0.
Definition cstPayToScriptHash : Z := 1.
Definition cstPayToPubKeyComp2 : Z := 2.
Definition cstPayToPubKeyComp3 : Z := 3.
Definition cstPayToPubKeyUncomp4 : Z := 4.
Definition cstPayToPubKeyUncomp5 : Z := 5.
Definition numSpecialScripts : Z := 6.

(** The functions return a flag and a slice; [None] is [(false, nil)]. *)
Definition isPubKeyHash (script : bytes) : option bytes :=
  if (len script =? 25) && (byte_at script 0 =? OP_DUP) && (byte_at script 1 =? OP_HASH160) &&
     (byte_at script 2 =? OP_DATA_20) && (byte_at script 23 =? OP_EQUALVERIFY) &&
     (byte_at script 24 =? OP_CHECKSIG)
  then Some (take 20 (drop 3 script)) else None.

Definition isScriptHash (script : bytes) : option bytes :=
  if (len script =? 23) && (byte_at script 0 =? OP_HASH160) && (byte_at script 1 =? OP_DATA_20) &&
     (byte_at script 22 =? OP_EQUAL)
  then Some (take 20 (drop 2 script)) else None.

(** [err == nil] for [_, err := btcec.ParsePubKey(...)], which never panics. *)
Definition parses (serializedPubKey : bytes) : bool :=
  match ParsePubKey serializedPubKey with Ok _ => true | _ => false end.

Definition isPubKey (script : bytes) : option bytes :=
  if (len script =? 35) && (byte_at script 0 =? OP_DATA_33) && (byte_at script 34 =? OP_CHECKSIG) &&
     ((byte_at script 1 =? 0x02) || (byte_at script 1 =? 0x03)) && parses (take 33 (drop 1 script))
  then Some (take 33 (drop 1 script))
  else if (len script =? 67) && (byte_at script 0 =? OP_DATA_65) && (byte_at script 66 =? OP_CHECKSIG) &&
     (byte_at script 1 =? 0x04) && parses (take 65 (drop 1 script))
  then Some (take 65 (drop 1 script))
  else None.

Definition compressedScriptSize (pkScript : bytes) : Z :=
  match isPubKeyHash pkScript with
  | Some _ => 21
  | None =>
  match isScriptHash pkScript with
  | Some _ => 21
  | None =>
  match isPubKey pkScript with
  | Some _ => 33
  | None => serializeSizeVLQ (uwrap 64 (len pkScript + numSpecialScripts)) + len pkScript
  end end end.

Definition decodeCompressedScriptSize (serialized : bytes) : Z :=
  let '(scriptSize, bytesRead) := deserializeVLQ serialized in
  if bytesRead =? 0 then 0
  else if (scriptSize =? cstPayToPubKeyHash) || (scriptSize =? cstPayToScriptHash) then 21
  else if (scriptSize =? cstPayToPubKeyComp2) || (scriptSize =? cstPayToPubKeyComp3) ||
          (scriptSize =? cstPayToPubKeyUncomp4) || (scriptSize =? cstPayToPubKeyUncomp5) then 33
  else swrap 64 (uwrap 64 (uwrap 64 (scriptSize - numSpecialScripts) + bytesRead)).

(** [target[0] = kind; copy(target[1:n], data); return n] with [data] of [n-1] bytes. *)
Definition put_special (target : bytes) (kind n : Z) (data : bytes) : outcome (bytes * Z) :=
  target ← set_at target O kind;
  if len target <? n then Panic else Ok (copy_to target 1 data, n).

Definition putCompressedScript (target pkScript : bytes) : outcome (bytes * Z) :=
  match isPubKeyHash pkScript with
  | Some hash => put_special target cstPayToPubKeyHash 21 hash
  | None =>
  match isScriptHash pkScript with
  | Some hash => put_special target cstPayToScriptHash 21 hash
  | None =>
  let general :=
    let encodedSize := uwrap 64 (len pkScript + numSpecialScripts) in
    '(target, vlqSizeLen) ← putVLQ target encodedSize;
    Ok (copy_to target (Z.to_nat vlqSizeLen) pkScript, vlqSizeLen + len pkScript) in
  match isPubKey pkScript with
  | Some serializedPubKey =>
      let pubKeyFormat := byte_at serializedPubKey 0 in
      if (pubKeyFormat =? 0x02) || (pubKeyFormat =? 0x03) then
        put_special target pubKeyFormat 33 (take 32 (drop 1 serializedPubKey))
      else if pubKeyFormat =? 0x04 then
        put_special target (Z.lor pubKeyFormat (Z.land (byte_at serializedPubKey 64) 0x01)) 33
          (take 32 (drop 1 serializedPubKey))
      else general
  | None => general
  end end end.

(** [nil] and an empty slice are both the empty list. *)
Definition decompressScript (compressedPkScript : bytes) : outcome bytes :=
  if len compressedPkScript =? 0 then Ok []
  else
  let '(encodedScriptSize, bytesRead) := deserializeVLQ compressedPkScript in
  let op z := byte.of_Z z in
  if encodedScriptSize =? cstPayToPubKeyHash then
    hash ← slice compressedPkScript bytesRead (bytesRead + 20);
    Ok ([op OP_DUP; op OP_HASH160; op OP_DATA_20] ++ hash ++ [op OP_EQUALVERIFY; op OP_CHECKSIG])
  else if encodedScriptSize =? cstPayToScriptHash then
    hash ← slice compressedPkScript bytesRead (bytesRead + 20);
    Ok ([op OP_HASH160; op OP_DATA_20] ++ hash ++ [op OP_EQUAL])
  else if (encodedScriptSize =? cstPayToPubKeyComp2) || (encodedScriptSize =? cstPayToPubKeyComp3) then
    key ← slice compressedPkScript bytesRead (bytesRead + 32);
    Ok ([op OP_DATA_33; op encodedScriptSize] ++ key ++ [op OP_CHECKSIG])
  else if (encodedScriptSize =? cstPayToPubKeyUncomp4) || (encodedScriptSize =? cstPayToPubKeyUncomp5) then
    let compressedKey :=
      op (encodedScriptSize - 2) ::
      copy_to (replicate 32 Byte.x00) 0 (drop 1 compressedPkScript) in
    match ParsePubKey compressedKey with
    | Ok key => Ok ([op OP_DATA_65] ++ SerializeUncompressed key ++ [op OP_CHECKSIG])
    | Err _ => Ok []
    | Panic => Panic
    end
  else
    let scriptSize := swrap 64 (uwrap 64 (encodedScriptSize - numSpecialScripts)) in
    if make_panics 1 scriptSize then Panic
    else slice compressedPkScript bytesRead (bytesRead + scriptSize).

(** * Amounts *)

(** [for amount%10 == 0 && exponent < 9]: at most nine turns. *)
Fixpoint strip_zeros (fuel : nat) (amount exponent : Z) : Z * Z :=
  match fuel with
  | O => (amount, exponent)
  | S fuel => if (amount mod 10 =? 0) && (exponent <? 9)
              then strip_zeros fuel (amount / 10) (exponent + 1) else (amount, exponent)
  end.

Definition compressTxOutAmount (amount : Z) : Z :=
  if amount =? 0 then 0
  else
  let '(amount, exponent) := strip_zeros 9 amount 0 in
  if exponent <? 9 then
    let lastDigit := amount mod 10 in
    let amount := amount / 10 in
    uwrap 64 (1 + 10 * (9 * amount + lastDigit - 1) + exponent)
  else uwrap 64 (10 + 10 * (amount - 1)).

(** [for ; exponent > 0; exponent-- { n *= 10 }] *)
Fixpoint apply_exponent (exponent : nat) (n : Z) : Z :=
  match exponent with
  | O => n
  | S exponent => apply_exponent exponent (uwrap 64 (n * 10))
  end.

Definition decompressTxOutAmount (amount : Z) : Z :=
  if amount =? 0 then 0
  else
  let amount := amount - 1 in
  let exponent := amount mod 10 in
  let amount := amount / 10 in
  let n :=
    if exponent <? 9 then
      let lastDigit := amount mod 9 + 1 in
      let amount := amount / 9 in
      uwrap 64 (amount * 10 + lastDigit)
    else uwrap 64 (amount + 1) in
  apply_exponent (Z.to_nat exponent) n.

(** * Compressed outputs *)

Definition compressedTxOutSize (amount : Z) (pkScript : bytes) : Z :=
  serializeSizeVLQ (compressTxOutAmount amount) + compressedScriptSize pkScript.

(** [putCompressedScript(target[offset:], ...)] writes through the subslice. *)
Definition putCompressedTxOut (target : bytes) (amount : Z) (pkScript : bytes) : outcome (bytes * Z) :=
  '(target, offset) ← putVLQ target (compressTxOutAmount amount);
  '(rest, n) ← putCompressedScript (drop (Z.to_nat offset) target) pkScript;
  Ok (take (Z.to_nat offset) target ++ rest, offset + n).

(** The results of a call that returns an error too. *)
Definition decodeCompressedTxOut (serialized : bytes) : outcome (Z * bytes * Z * option string) :=
  let '(compressedAmount, bytesRead) := deserializeVLQ serialized in
  if len serialized <=? bytesRead
  then Ok (0, [], bytesRead, Some "unexpected end of data after compressed amount")
  else
  let rest := drop (Z.to_nat bytesRead) serialized in
  let scriptSize := decodeCompressedScriptSize rest in
  if len rest <? scriptSize
  then Ok (0, [], bytesRead, Some "unexpected end of data after script size")
  else
  let amount := decompressTxOutAmount compressedAmount in
  compressed ← slice serialized bytesRead (bytesRead + scriptSize);
  script ← decompressScript compressed;
  Ok (amount, script, bytesRead + scriptSize, None).

(** * The encoding of a quantity

    The digits of a quantity, least significant first: the first one has no mark,
    the others have the high bit. *)

Fixpoint vlq_digits (fuel : nat) (mask n : Z) : bytes :=
  match fuel with
  | O => []
  | S fuel =>
      byte.of_Z (Z.lor (Z.land n 0x7f) mask) ::
      (if n <=? 0x7f then [] else vlq_digits fuel 0x80 (n / 128 - 1))
  end.

Definition vlq (n : Z) : bytes := rev (vlq_digits vlq_fuel 0x00 n).

(** The loops of the source on a value that fits the fuel. *)
Definition fits (fuel : nat) (n : Z) : Prop := 0 <= n < 128 ^ Z.of_nat fuel /\ n < 2 ^ 64.

Lemma fits_next fuel n : fits (S fuel) n -> 0x7f < n -> fits fuel (n / 128 - 1).
Proof.
  unfold fits. rewrite Nat2Z.inj_succ, Z.pow_succ_r by lia. intros [[H0 H1] H2] Hn.
  assert (1 <= n / 128) by (apply Z.div_le_lower_bound; lia).
  assert (n / 128 < 128 ^ Z.of_nat fuel) by (apply Z.div_lt_upper_bound; lia).
  assert (n / 128 <= n) by (apply Z.div_le_upper_bound; lia). lia.
Qed.

Lemma next_step n : 0x7f < n < 2 ^ 64 -> uwrap 64 (Z.shiftr n 7 - 1) = n / 128 - 1.
Proof.
  intros Hn. rewrite Z.shiftr_div_pow2 by lia. change (2 ^ 7) with 128. apply uwrap_id. unfold is_uint.
  assert (1 <= n / 128) by (apply Z.div_le_lower_bound; lia).
  assert (n / 128 <= n) by (apply Z.div_le_upper_bound; lia). lia.
Qed.

Lemma fits_fuel n : is_uint 64 n -> fits vlq_fuel n.
Proof. unfold fits, is_uint, vlq_fuel. change (128 ^ Z.of_nat 10) with (2 ^ 70). lia. Qed.

Lemma length_vlq_digits fuel m m' n : length (vlq_digits fuel m n) = length (vlq_digits fuel m' n).
Proof. by destruct fuel. Qed.

Lemma serializeSize_digits fuel size n m :
  fits (S fuel) n ->
  serializeSizeVLQ_loop (S fuel) size n = size - 1 + len (vlq_digits (S fuel) m n).
Proof.
  revert size n m. induction fuel as [|fuel IH]; intros size n m Hf.
  - cbn [serializeSizeVLQ_loop vlq_digits]. unfold fits in Hf. change (128 ^ Z.of_nat 1) with 128 in Hf.
    rewrite (proj2 (Z.ltb_ge _ _)), (proj2 (Z.leb_le _ _)), len_cons, len_nil by lia. lia.
  - pose proof Hf as [Hf0 Hf1].
    change (vlq_digits (S (S fuel)) m n) with (byte.of_Z (Z.lor (Z.land n 0x7f) m) ::
      (if n <=? 0x7f then [] else vlq_digits (S fuel) 0x80 (n / 128 - 1))).
    change (serializeSizeVLQ_loop (S (S fuel)) size n) with
      (if 0x7f <? n then serializeSizeVLQ_loop (S fuel) (size + 1) (uwrap 64 (Z.shiftr n 7 - 1)) else size).
    rewrite len_cons. destruct (Z.ltb_spec 0x7f n), (Z.leb_spec n 0x7f); try lia; [|rewrite len_nil; lia].
    rewrite next_step by lia. rewrite (IH _ _ 0x80) by by apply fits_next. lia.
Qed.

Lemma serializeSizeVLQ_len n : is_uint 64 n -> serializeSizeVLQ n = len (vlq n).
Proof.
  intros Hn. unfold serializeSizeVLQ, vlq, len. rewrite length_rev. unfold vlq_fuel.
  rewrite (serializeSize_digits 9 1 n 0) by by apply fits_fuel. unfold len. lia.
Qed.

(** ** Writing *)

Lemma set_at_app pre x rest v :
  set_at (pre ++ x :: rest) (length pre) v = Ok (pre ++ byte.of_Z v :: rest).
Proof.
  unfold set_at. rewrite decide_True by (rewrite length_app; cbn; lia).
  by rewrite insert_app_r_alt, Nat.sub_diag by done.
Qed.

Lemma putVLQ_write_spec fuel pre rest n :
  fits fuel n -> (0 < fuel)%nat ->
  let ds := vlq_digits fuel (if decide (length pre = O) then 0x00 else 0x80) n in
  putVLQ_write fuel (length pre) (pre ++ rest) n =
    if decide (length ds <= length rest)%nat
    then Ok (pre ++ ds ++ drop (length ds) rest, (length pre + length ds - 1)%nat) else Panic.
Proof.
  revert pre rest n. induction fuel as [|fuel IH]; intros pre rest n Hf Hfuel; [lia|].
  cbn [putVLQ_write vlq_digits]. set (mask := if decide (length pre = O) then 0x00 else 0x80).
  destruct rest as [|x rest].
  { unfold set_at. rewrite decide_False by (rewrite length_app; cbn; lia).
    by rewrite decide_False by (cbn; lia). }
  rewrite set_at_app. cbn [mbind outcome_bind]. pose proof Hf as [Hf0 Hf1].
  destruct (Z.leb_spec n 0x7f) as [Hle|Hlt].
  { rewrite decide_True by (cbn; lia). cbn [length app drop]. repeat f_equal; lia. }
  rewrite next_step by lia. pose proof (fits_next _ _ Hf Hlt) as Hf'.
  assert (Hfu : (0 < fuel)%nat).
  { destruct fuel; [|lia]. unfold fits in Hf'. change (128 ^ Z.of_nat 0) with 1 in Hf'.
    change (128 ^ Z.of_nat 1) with 128 in *. lia. }
  set (b := byte.of_Z _). change (pre ++ b :: rest) with (pre ++ [b] ++ rest). rewrite app_assoc.
  specialize (IH (pre ++ [b]) rest (n / 128 - 1) Hf' Hfu). cbv zeta in IH.
  rewrite length_app in IH. cbn [length] in IH. rewrite (decide_False (P := (length pre + 1)%nat = O)) in IH by lia.
  replace (length pre + 1)%nat with (S (length pre)) in IH by lia. rewrite IH.
  set (ds := vlq_digits fuel 0x80 (n / 128 - 1)). cbn [length drop app].
  destruct (decide (length ds <= length rest)%nat), (decide (S (length ds) <= S (length rest))%nat); try lia; [|done].
  rewrite <-app_assoc. cbn [app]. do 2 f_equal. lia.
Qed.

Lemma swap_ends pre (a b : Init.Byte.byte) m post :
  <[(length pre + S (length m))%nat := a]> (<[length pre := b]> (pre ++ a :: m ++ b :: post)) =
  pre ++ b :: m ++ a :: post.
Proof.
  rewrite (insert_app_r_alt pre _ (length pre)), Nat.sub_diag by lia.
  change (<[0%nat := b]> (a :: m ++ b :: post)) with (b :: m ++ b :: post).
  rewrite insert_app_r_alt by lia.
  replace (length pre + S (length m) - length pre)%nat with (S (length m)) by lia.
  change (<[S (length m) := a]> (b :: m ++ b :: post)) with (b :: <[length m := a]> (m ++ b :: post)).
  by rewrite insert_app_r_alt, Nat.sub_diag by lia.
Qed.

Lemma putVLQ_reverse_spec fuel pre l post :
  (length l <= S fuel)%nat ->
  putVLQ_reverse fuel (length pre) (length pre + length l - 1) (pre ++ l ++ post) = pre ++ rev l ++ post.
Proof.
  revert pre l post. induction fuel as [|fuel IH]; intros pre l post Hl.
  { destruct l as [|a [|b l]]; [done..|cbn in Hl; lia]. }
  cbn [putVLQ_reverse]. destruct l as [|a l]; [by rewrite decide_False by (cbn; lia)|].
  destruct l as [|b m _] using rev_ind; [by rewrite decide_False by (cbn; lia)|].
  cbn [length] in *. rewrite length_app in *. cbn [length] in *. rewrite decide_True by lia.
  replace (length pre + S (length m + 1) - 1)%nat with (length pre + S (length m))%nat by lia.
  rewrite app_comm_cons, <-app_assoc. cbn [app].
  assert (Ha : nth (length pre) (pre ++ a :: m ++ b :: post) Byte.x00 = a).
  { rewrite app_nth2, Nat.sub_diag by lia. done. }
  assert (Hb : nth (length pre + S (length m)) (pre ++ a :: m ++ b :: post) Byte.x00 = b).
  { rewrite app_nth2 by lia. replace (length pre + S (length m) - length pre)%nat with (S (length m)) by lia.
    cbn [nth]. rewrite app_nth2, Nat.sub_diag by lia. done. }
  rewrite Ha, Hb, swap_ends. clear Ha Hb.
  specialize (IH (pre ++ [b]) m (a :: post)). rewrite length_app in IH. cbn [length] in IH.
  replace (length pre + 1)%nat with (S (length pre)) in IH by lia.
  replace (length pre + S (length m) - 1)%nat with (S (length pre) + length m - 1)%nat by lia.
  rewrite <-app_assoc in IH. cbn [app] in IH. rewrite IH by lia.
  rewrite <-app_assoc. cbn [app rev]. by rewrite rev_app_distr, <-!app_assoc.
Qed.

(** [putVLQ] writes the encoding at the start of the target, whatever was there, and
    panics exactly when the target is too short. *)
Lemma putVLQ_spec target n :
  is_uint 64 n ->
  putVLQ target n =
    if decide (length (vlq n) <= length target)%nat
    then Ok (vlq n ++ drop (length (vlq n)) target, len (vlq n)) else Panic.
Proof.
  intros Hn. unfold putVLQ. pose proof (putVLQ_write_spec vlq_fuel [] target n (fits_fuel n Hn)) as H.
  cbv zeta in H. cbn [length app] in H. rewrite (decide_True (P := 0%nat = 0%nat)) in H by done. rewrite H by (unfold vlq_fuel; lia).
  set (ds := vlq_digits vlq_fuel 0 n). assert (Hv : vlq n = rev ds) by reflexivity.
  rewrite Hv. unfold len. rewrite !length_rev. clear H Hv.
  assert (Hd : (0 < length ds)%nat) by (cbn; lia).
  destruct (decide (length ds <= length target)%nat); [|done].
  cbn [mbind outcome_bind]. pose proof (putVLQ_reverse_spec (length ds - 1) [] ds (drop (length ds) target)) as Hr.
  cbn [length app] in Hr. replace (0 + length ds - 1)%nat with (length ds - 1)%nat in * by lia.
  rewrite Hr by lia. replace (Z.of_nat (length ds - 1) + 1) with (Z.of_nat (length ds)) by lia. done.
Qed.

(** ** Reading *)

Lemma forall_digit (Q : Z -> bool) :
  forallb Q (map Z.of_nat (seq 0 128)) = true -> forall d, 0 <= d < 128 -> Q d = true.
Proof.
  rewrite forallb_forall. intros H d Hd. apply H. apply in_map_iff.
  exists (Z.to_nat d). split; [lia|]. apply in_seq. lia.
Qed.

Lemma digit_bits mask d :
  mask = 0x00 \/ mask = 0x80 -> 0 <= d < 128 ->
  let v := byte.unsigned (byte.of_Z (Z.lor d mask)) in
  Z.land v 0x7f = d /\ Z.land v 0x80 = mask.
Proof.
  intros Hm Hd v. revert d Hd v.
  assert (H : forall d, 0 <= d < 128 ->
    (let v := byte.unsigned (byte.of_Z (Z.lor d mask)) in (Z.land v 0x7f =? d) && (Z.land v 0x80 =? mask)) = true).
  { apply forall_digit. destruct Hm as [->| ->]; vm_compute; reflexivity. }
  intros d Hd v. specialize (H d Hd). apply andb_true_iff in H as [H1 H2]. by apply Z.eqb_eq in H1, H2.
Qed.

Lemma land_7f n : Z.land n 0x7f = n mod 128.
Proof. apply (Z.land_ones n 7). lia. Qed.

(** One turn of the loop on a digit, without overflow. *)
Lemma deserialize_step acc size d mask rest :
  mask = 0x00 \/ mask = 0x80 -> 0 <= d < 128 -> 0 <= acc ->
  acc * 128 + d + (if mask =? 0x80 then 1 else 0) < 2 ^ 64 ->
  deserializeVLQ_loop acc size (byte.of_Z (Z.lor d mask) :: rest) =
    if mask =? 0x80 then deserializeVLQ_loop (acc * 128 + d + 1) (size + 1) rest
    else (acc * 128 + d, size + 1).
Proof.
  intros Hm Hd Hacc Hlt. destruct (digit_bits mask d Hm Hd) as [E1 E2]. cbv zeta in E1, E2.
  cbn [deserializeVLQ_loop]. rewrite E1, E2.
  assert (Hb : acc * 128 + d < 2 ^ 64) by (destruct (mask =? 0x80); lia).
  assert (E : Z.lor (uwrap 64 (Z.shiftl acc 7)) d = acc * 128 + d).
  { rewrite Z.shiftl_mul_pow2, uwrap_id by (unfold is_uint; lia).
    rewrite Z.lor_comm, <-(Z.shiftl_mul_pow2 acc 7), lor_shift by lia. lia. }
  rewrite E. destruct Hm as [->| ->]; cbn [Z.eqb Pos.eqb negb] in *; [done|].
  rewrite uwrap_id by (unfold is_uint; lia). done.
Qed.

Lemma len_single (b : Init.Byte.byte) : len [b] = 1.
Proof. reflexivity. Qed.

Lemma deserialize_marked fuel n size rest :
  fits fuel n -> (0 < fuel)%nat -> n + 1 < 2 ^ 64 ->
  deserializeVLQ_loop 0 size (rev (vlq_digits fuel 0x80 n) ++ rest) =
  deserializeVLQ_loop (n + 1) (size + len (vlq_digits fuel 0x80 n)) rest.
Proof.
  revert n size rest. induction fuel as [|fuel IH]; intros n size rest Hf Hfu Hn; [lia|].
  pose proof Hf as [Hf0 Hf1]. cbn [vlq_digits rev]. rewrite <-app_assoc. cbn [app].
  rewrite land_7f. pose proof (Z.mod_pos_bound n 128). pose proof (Z.div_mod n 128).
  destruct (Z.leb_spec n 0x7f) as [Hle|Hlt].
  - cbn [rev app]. rewrite (Z.mod_small n 128) by lia.
    rewrite deserialize_step by (try tauto; cbn [Z.eqb Pos.eqb]; lia). cbn [Z.eqb Pos.eqb].
    rewrite len_single. f_equal; lia.
  - pose proof (fits_next _ _ Hf Hlt) as Hf'. assert (Hfu' : (0 < fuel)%nat).
    { destruct fuel; [|lia]. unfold fits in Hf'. change (128 ^ Z.of_nat 0) with 1 in Hf'. lia. }
    rewrite IH by (done || (unfold fits in Hf'; lia)).
    rewrite deserialize_step by (try tauto; cbn [Z.eqb Pos.eqb]; unfold fits in Hf'; lia).
    cbn [Z.eqb Pos.eqb]. rewrite len_cons. f_equal; lia.
Qed.

Lemma deserializeVLQ_vlq n rest : is_uint 64 n -> deserializeVLQ (vlq n ++ rest) = (n, len (vlq n)).
Proof.
  intros Hn. pose proof (fits_fuel n Hn) as Hf. unfold deserializeVLQ, vlq, vlq_fuel in *.
  set (fuel := 9%nat) in *. change 10%nat with (S fuel) in *. pose proof Hf as [Hf0 Hf1].
  assert (El : len (rev (vlq_digits (S fuel) 0 n)) = len (vlq_digits (S fuel) 0 n))
    by (unfold len; by rewrite length_rev).
  rewrite El. clear El. cbn [vlq_digits rev]. rewrite <-app_assoc, land_7f. cbn [app].
  pose proof (Z.mod_pos_bound n 128). pose proof (Z.div_mod n 128). unfold is_uint in Hn.
  destruct (Z.leb_spec n 0x7f) as [Hle|Hlt].
  - cbn [rev app]. rewrite (Z.mod_small n 128) by lia.
    rewrite deserialize_step by (try tauto; cbn [Z.eqb Pos.eqb]; lia). cbn [Z.eqb Pos.eqb].
    rewrite len_single. f_equal; lia.
  - pose proof (fits_next _ _ Hf Hlt) as Hf'.
    rewrite deserialize_marked by (done || (unfold fuel; lia) || (unfold fits in Hf'; lia)).
    rewrite deserialize_step by (try tauto; cbn [Z.eqb Pos.eqb]; unfold fits in Hf'; lia).
    cbn [Z.eqb Pos.eqb]. rewrite len_cons. f_equal; lia.
Qed.

(** ** Canonicity *)

(** The accumulator of the reader after a run of marked bytes, without overflow. *)
Definition marked_value (l : bytes) : Z :=
  fold_left (fun acc b => acc * 128 + Z.land (byte.unsigned b) 0x7f + 1) l 0.

Definition is_marked (b : Init.Byte.byte) : Prop := Z.land (byte.unsigned b) 0x80 = 0x80.

Lemma marked_value_snoc l b :
  marked_value (l ++ [b]) = marked_value l * 128 + Z.land (byte.unsigned b) 0x7f + 1.
Proof. unfold marked_value. by rewrite fold_left_app. Qed.

Lemma marked_value_bound l : 0 <= marked_value l <= 2 * 128 ^ len l - 2.
Proof.
  induction l as [|b l IH] using rev_ind; [done|].
  rewrite marked_value_snoc, len_app, len_single, Z.pow_add_r, land_7f by (pose proof (len_nonneg l); lia).
  pose proof (Z.mod_pos_bound (byte.unsigned b) 128). lia.
Qed.

Lemma marked_byte b : is_marked b -> byte.of_Z (Z.lor (Z.land (byte.unsigned b) 0x7f) 0x80) = b.
Proof. destruct b; intros H; (reflexivity || discriminate H). Qed.

Lemma unmarked_byte b :
  Z.land (byte.unsigned b) 0x80 <> 0x80 -> byte.of_Z (Z.lor (Z.land (byte.unsigned b) 0x7f) 0x00) = b.
Proof. destruct b; intros H; (reflexivity || (exfalso; apply H; reflexivity)). Qed.

Lemma vlq_digits_marked l fuel mask d :
  Forall is_marked l -> 0 <= d < 128 -> (length l < fuel)%nat ->
  vlq_digits fuel mask (marked_value l * 128 + d) = byte.of_Z (Z.lor d mask) :: rev l.
Proof.
  revert fuel mask d. induction l as [|b l IH] using rev_ind; intros fuel mask d Hl Hd Hf;
    (destruct fuel as [|fuel]; [lia|]).
  all: cbn [vlq_digits]; rewrite land_7f, Z.add_comm, Z.mod_add, Z.mod_small by lia.
  { rewrite (proj2 (Z.leb_le _ _)) by (cbn; lia). done. }
  apply Forall_app in Hl as [Hl Hb]. apply Forall_inv in Hb.
  rewrite length_app in Hf. cbn [length] in Hf. pose proof (marked_value_bound l).
  rewrite marked_value_snoc. set (c := Z.land (byte.unsigned b) 0x7f).
  assert (Hc : 0 <= c < 128) by (unfold c; rewrite land_7f; apply Z.mod_pos_bound; lia).
  rewrite (proj2 (Z.leb_gt _ _)) by lia. rewrite Z.div_add, (Z.div_small d) by lia.
  replace (0 + (marked_value l * 128 + c + 1) - 1) with (marked_value l * 128 + c) by lia.
  rewrite IH by (done || lia). rewrite rev_app_distr. cbn [rev app]. unfold c. rewrite (marked_byte b Hb). done.
Qed.

Lemma deserialize_marks l size rest :
  Forall is_marked l -> (length l <= 8)%nat ->
  deserializeVLQ_loop 0 size (l ++ rest) = deserializeVLQ_loop (marked_value l) (size + len l) rest.
Proof.
  revert size rest. induction l as [|b l IH] using rev_ind; intros size rest Hl Hk.
  { cbn [app]. by rewrite Z.add_0_r. }
  apply Forall_app in Hl as [Hl Hb]. apply Forall_inv in Hb.
  rewrite length_app in Hk. cbn [length] in Hk.
  rewrite <-app_assoc. cbn [app]. rewrite IH by (done || lia).
  pose proof (marked_value_bound l) as Hv. assert (128 ^ len l <= 128 ^ 7) by (apply Z.pow_le_mono_r; unfold len; lia).
  rewrite <-(marked_byte b Hb) at 1. rewrite land_7f. pose proof (Z.mod_pos_bound (byte.unsigned b) 128).
  rewrite deserialize_step by (try tauto; cbn [Z.eqb Pos.eqb]; lia). cbn [Z.eqb Pos.eqb].
  rewrite marked_value_snoc, land_7f, len_app, len_single. f_equal; lia.
Qed.

(** What the reader consumes: marked bytes, then an unmarked one or the end. *)
Lemma marked_prefix bs :
  Forall is_marked bs \/
  exists l b rest, bs = l ++ b :: rest /\ Forall is_marked l /\ Z.land (byte.unsigned b) 0x80 <> 0x80.
Proof.
  induction bs as [|b bs [IH|(l & c & rest & -> & Hl & Hc)]]; [by left|..].
  all: destruct (decide (Z.land (byte.unsigned b) 0x80 = 0x80)) as [Hb|Hb];
    [|right; by eexists [], b, _].
  - left. by constructor.
  - right. exists (b :: l), c, rest. split_and!; [done|by constructor|done].
Qed.

Lemma deserialize_size bs acc size l b rest :
  bs = l ++ b :: rest -> Forall is_marked l -> Z.land (byte.unsigned b) 0x80 <> 0x80 ->
  snd (deserializeVLQ_loop acc size bs) = size + len l + 1.
Proof.
  intros ->. revert acc size. induction l as [|c l IH]; intros acc size Hl Hb; cbn [app deserializeVLQ_loop].
  - rewrite (proj2 (Z.eqb_neq _ _)) by done. cbn [negb snd]. rewrite (@len_nil Init.Byte.byte). lia.
  - apply Forall_cons in Hl as [Hc Hl]. unfold is_marked in Hc. rewrite Hc. cbn [Z.eqb Pos.eqb negb].
    rewrite IH by done. rewrite len_cons. lia.
Qed.

Lemma deserialize_all_marked bs acc size :
  Forall is_marked bs -> snd (deserializeVLQ_loop acc size bs) = size + len bs.
Proof.
  revert acc size. induction bs as [|c bs IH]; intros acc size Hl; cbn [deserializeVLQ_loop]; [cbn [snd]; rewrite (@len_nil Init.Byte.byte); lia|].
  apply Forall_cons in Hl as [Hc Hl]. unfold is_marked in Hc. rewrite Hc. cbn [Z.eqb Pos.eqb negb].
  rewrite IH by done. rewrite len_cons. lia.
Qed.

Lemma vlq_of_decoded bs n size :
  deserializeVLQ bs = (n, size) -> 1 <= size <= 9 ->
  Z.land (byte_at bs (Z.to_nat (size - 1))) 0x80 <> 0x80 ->
  take (Z.to_nat size) bs = vlq n.
Proof.
  unfold deserializeVLQ. intros E Hs Hlast.
  destruct (marked_prefix bs) as [Hall|(l & b & rest & -> & Hl & Hb)].
  { exfalso. apply Hlast. pose proof (deserialize_all_marked bs 0 0 Hall) as Hsz. rewrite E in Hsz. cbn [snd] in Hsz.
    unfold byte_at. apply (proj1 (Forall_forall _ _) Hall). apply list_elem_of_In, nth_In. unfold len in Hsz. lia. }
  pose proof (deserialize_size _ 0 0 l b rest eq_refl Hl Hb) as Hsz. rewrite E in Hsz. cbn [snd] in Hsz. unfold len in Hsz.
  rewrite deserialize_marks in E by (done || lia). pose proof (marked_value_bound l).
  assert (128 ^ len l <= 128 ^ 8) by (apply Z.pow_le_mono_r; unfold len; lia).
  rewrite <-(unmarked_byte b Hb), land_7f in E. pose proof (Z.mod_pos_bound (byte.unsigned b) 128).
  rewrite deserialize_step in E by (try tauto; cbn [Z.eqb Pos.eqb]; lia). cbn [Z.eqb Pos.eqb] in E.
  apply (f_equal fst) in E. cbn [fst] in E. subst n.
  unfold vlq. rewrite vlq_digits_marked by (done || (unfold vlq_fuel; lia) || lia).
  cbn [rev]. rewrite rev_involutive, <-land_7f, (unmarked_byte b Hb).
  replace (Z.to_nat size) with (length l + 1)%nat by lia. 
  change (l ++ b :: rest) with (l ++ [b] ++ rest). rewrite app_assoc. apply take_app_length'.
  by rewrite length_app.
Qed.

(** * Compressed scripts *)

(** The compressed form of a script, as a string. *)
Definition compressed (pkScript : bytes) : bytes :=
  match isPubKeyHash pkScript with
  | Some hash => byte.of_Z cstPayToPubKeyHash :: hash
  | None =>
  match isScriptHash pkScript with
  | Some hash => byte.of_Z cstPayToScriptHash :: hash
  | None =>
  match isPubKey pkScript with
  | Some key =>
      byte.of_Z (if byte_at key 0 =? 0x04 then Z.lor 4 (Z.land (byte_at key 64) 1) else byte_at key 0) ::
      take 32 (drop 1 key)
  | None => vlq (len pkScript + numSpecialScripts) ++ pkScript
  end end end.

(** ** The shapes of the standard scripts *)

Lemma split_len (l : bytes) n k :
  len l = n + k -> 0 <= n -> 0 <= k -> exists m t, l = m ++ t /\ len m = n /\ len t = k.
Proof.
  intros Hl Hn Hk. exists (take (Z.to_nat n) l), (drop (Z.to_nat n) l).
  rewrite take_drop. unfold len in *. rewrite length_take, length_drop. split_and!; [done|lia..].
Qed.

Lemma byte_at_app m t i : (length m <= i)%nat -> byte_at (m ++ t) i = byte_at t (i - length m).
Proof. intros H. unfold byte_at. by rewrite app_nth2. Qed.

Lemma byte_at_cons b t i : byte_at (b :: t) (S i) = byte_at t i.
Proof. reflexivity. Qed.

Lemma byte_at_0 b t z : byte_at (b :: t) 0 = z -> b = byte.of_Z z.
Proof. intros <-. symmetry. apply byte.of_Z_unsigned. Qed.

(** Decomposes a list of a known length, from the front. *)
Lemma len_succ (l : bytes) n : len l = n -> 0 < n -> exists b t, l = b :: t /\ len t = n - 1.
Proof. destruct l as [|b t]; [unfold len; cbn; lia|]. rewrite len_cons. exists b, t. split; [done|lia]. Qed.

Tactic Notation "peel" ident(H) ident(b) ident(t) :=
  apply len_succ in H as (b & t & -> & H); [|lia].

Lemma take_len (m t : bytes) n : len m = Z.of_nat n -> take n (m ++ t) = m.
Proof. intros H. replace n with (length m) by (unfold len in H; lia). apply take_app_length. Qed.

(** A byte after a block of [k] bytes. *)
Lemma byte_after (m t : bytes) (k i : nat) : len m = Z.of_nat k -> byte_at (m ++ t) (k + i) = byte_at t i.
Proof.
  intros H. rewrite byte_at_app by (unfold len in H; lia). f_equal. unfold len in H; lia.
Qed.

Lemma isPubKeyHash_inv s h :
  isPubKeyHash s = Some h ->
  s = mkbytes [OP_DUP; OP_HASH160; OP_DATA_20] ++ h ++ mkbytes [OP_EQUALVERIFY; OP_CHECKSIG] /\ len h = 20.
Proof.
  unfold isPubKeyHash. destruct (_ && _) eqn:E; [|done]. intros [= <-].
  rewrite !andb_true_iff, !Z.eqb_eq in E. destruct E as [[[[[El E0] E1] E2] E23] E24].
  peel El b0 s0. peel El b1 s1. peel El b2 s2.
  destruct (split_len s2 20 2) as (m & t & -> & Hm & Ht); [lia..|].
  peel Ht c0 t0. peel Ht c1 t1. assert (t1 = []) as -> by (apply len_zero_nil; lia). rewrite !byte_at_cons in *.
  rewrite (byte_after m _ 20 0) in E23 by done. rewrite (byte_after m _ 20 1), byte_at_cons in E24 by done.
  apply byte_at_0 in E0, E1, E2, E23, E24. subst.
  change (drop 3 _) with (m ++ mkbytes [OP_EQUALVERIFY; OP_CHECKSIG]). by rewrite (take_len m).
Qed.

Lemma isScriptHash_inv s h :
  isScriptHash s = Some h ->
  s = mkbytes [OP_HASH160; OP_DATA_20] ++ h ++ mkbytes [OP_EQUAL] /\ len h = 20.
Proof.
  unfold isScriptHash. destruct (_ && _) eqn:E; [|done]. intros [= <-].
  rewrite !andb_true_iff, !Z.eqb_eq in E. destruct E as [[[El E0] E1] E22].
  peel El b0 s0. peel El b1 s1. destruct (split_len s1 20 1) as (m & t & -> & Hm & Ht); [lia..|].
  peel Ht c0 t0. assert (t0 = []) as -> by (apply len_zero_nil; lia). rewrite !byte_at_cons in *.
  rewrite (byte_after m _ 20 0) in E22 by done. apply byte_at_0 in E0, E1, E22. subst.
  change (drop 2 _) with (m ++ mkbytes [OP_EQUAL]). by rewrite (take_len m).
Qed.

Lemma isPubKey_inv s k :
  isPubKey s = Some k ->
  (exists f xb, s = byte.of_Z OP_DATA_33 :: (f :: xb) ++ mkbytes [OP_CHECKSIG] /\ k = f :: xb /\ len xb = 32 /\
     (byte.unsigned f = 2 \/ byte.unsigned f = 3)) \/
  (exists xb yb p, s = byte.of_Z OP_DATA_65 :: (byte.of_Z 4 :: xb ++ yb) ++ mkbytes [OP_CHECKSIG] /\
     k = byte.of_Z 4 :: xb ++ yb /\ len xb = 32 /\ len yb = 32 /\ ParsePubKey k = Ok p).
Proof.
  unfold isPubKey. intros H. case_match eqn:E; [|clear E; case_match eqn:E; [|discriminate]].
  all: injection H as Hk; rewrite !andb_true_iff, ?orb_true_iff, !Z.eqb_eq in E.
  - left. destruct E as [[[[El E0] E34] E1] _].
    peel El b0 s0. peel El f s1. destruct (split_len s1 32 1) as (xb & t & -> & Hx & Ht); [lia..|].
    peel Ht c0 t0. assert (t0 = []) as -> by (apply len_zero_nil; lia). rewrite !byte_at_cons in *.
    rewrite (byte_after xb _ 32 0) in E34 by done. apply byte_at_0 in E0, E34. subst b0 c0 k.
    exists f, xb. split_and!; [done| |done|done].
    change (take 33 _) with (f :: take 32 (xb ++ mkbytes [OP_CHECKSIG])). by rewrite (take_len xb).
  - right. destruct E as [[[[El E0] E66] E1] Hp].
    peel El b0 s0. peel El b1 s1. destruct (split_len s1 64 1) as (xy & t & -> & Hxy & Ht); [lia..|].
    peel Ht c0 t0. assert (t0 = []) as -> by (apply len_zero_nil; lia). rewrite !byte_at_cons in *.
    rewrite (byte_after xy _ 64 0) in E66 by done. apply byte_at_0 in E0, E1, E66. subst b0 b1 c0.
    change (take 65 _) with (byte.of_Z 4 :: take 64 (xy ++ mkbytes [OP_CHECKSIG])) in *.
    rewrite (take_len xy) in * by done. subst k.
    destruct (split_len xy 32 32) as (xb & yb & -> & Hx & Hy); [lia..|].
    unfold parses in Hp. destruct (ParsePubKey _) as [p| |] eqn:Ep in Hp; [|done..]. by exists xb, yb, p.
Qed.

(** ** Writing *)

Lemma put_special_spec target kind data :
  1 + len data <= len target ->
  put_special target kind (1 + len data) data =
    Ok ((byte.of_Z kind :: data) ++ drop (S (length data)) target, 1 + len data).
Proof.
  intros Hl. destruct target as [|x target]; [unfold len in Hl; cbn in Hl; lia|].
  unfold put_special, set_at. rewrite decide_True by (cbn; lia). cbn [mbind outcome_bind].
  change (<[0%nat := byte.of_Z kind]> (x :: target)) with (byte.of_Z kind :: target). rewrite !len_cons in *.
  rewrite (proj2 (Z.ltb_ge _ _)) by lia. unfold copy_to. cbn [length take drop app].
  rewrite Nat.min_r by (unfold len in Hl; lia). rewrite (take_ge data) by lia. done.
Qed.

Lemma copy_after (pre src rest : bytes) :
  len src <= len rest -> copy_to (pre ++ rest) (length pre) src = pre ++ src ++ drop (length src) rest.
Proof.
  intros Hl. unfold copy_to, len in *. rewrite take_app_length, length_app.
  rewrite Nat.min_r by lia. rewrite (take_ge src) by lia. by rewrite drop_app_add.
Qed.

Definition script_bound (s : bytes) : Prop := len s <= maxAlloc.

Lemma encoded_size s : script_bound s -> uwrap 64 (len s + numSpecialScripts) = len s + numSpecialScripts.
Proof.
  intros H. apply uwrap_id. unfold is_uint, script_bound, numSpecialScripts in *.
  pose proof (len_nonneg s). change maxAlloc with (2 ^ 48) in H. lia.
Qed.

Lemma size_is_uint s : script_bound s -> is_uint 64 (len s + numSpecialScripts).
Proof. intros H. rewrite <-encoded_size by done. apply uwrap_range. lia. Qed.

(** The key of a recognised script and its compressed form. *)
Lemma compressed_key s k :
  isPubKey s = Some k ->
  len (take 32 (drop 1 k)) = 32 /\
  (byte_at k 0 = 2 \/ byte_at k 0 = 3 \/ byte_at k 0 = 4).
Proof.
  intros H. apply isPubKey_inv in H as [(f & xb & -> & -> & Hx & Hf)|(xb & yb & p & -> & -> & Hx & Hy & _)].
  - change (drop 1 (f :: xb)) with xb. rewrite <-(app_nil_r xb), (take_len xb) by done.
    split; [done|]. change (byte_at (f :: xb ++ []) 0) with (byte.unsigned f). tauto.
  - change (drop 1 _) with (xb ++ yb). rewrite (take_len xb) by done. split; [done|]. do 2 right. done.
Qed.

Lemma compressedScriptSize_len s : script_bound s -> compressedScriptSize s = len (compressed s).
Proof.
  intros Hs. unfold compressedScriptSize, compressed.
  destruct (isPubKeyHash s) as [h|] eqn:E1; [apply isPubKeyHash_inv in E1 as [_ Hh]; rewrite len_cons; lia|].
  destruct (isScriptHash s) as [h|] eqn:E2; [apply isScriptHash_inv in E2 as [_ Hh]; rewrite len_cons; lia|].
  destruct (isPubKey s) as [k|] eqn:E3; [apply compressed_key in E3 as [Hk _]; rewrite len_cons; lia|].
  rewrite encoded_size, serializeSizeVLQ_len by auto using size_is_uint. by rewrite len_app.
Qed.

Lemma putCompressedScript_spec target s :
  script_bound s -> len (compressed s) <= len target ->
  putCompressedScript target s = Ok (compressed s ++ drop (length (compressed s)) target, len (compressed s)).
Proof.
  intros Hs. unfold putCompressedScript, compressed.
  destruct (isPubKeyHash s) as [h|] eqn:E1.
  { apply isPubKeyHash_inv in E1 as [_ Hh]. rewrite len_cons. intros Hl.
    replace 21 with (1 + len h) by lia. by apply put_special_spec. }
  destruct (isScriptHash s) as [h|] eqn:E2.
  { apply isScriptHash_inv in E2 as [_ Hh]. rewrite len_cons. intros Hl.
    replace 21 with (1 + len h) by lia. by apply put_special_spec. }
  destruct (isPubKey s) as [k|] eqn:E3.
  { apply compressed_key in E3 as [Hk Hf]. rewrite len_cons. intros Hl.
    replace 33 with (1 + len (take 32 (drop 1 k))) by lia.
    destruct Hf as [E|[E|E]]; rewrite E; cbn [Z.eqb Pos.eqb orb]; by apply put_special_spec. }
  rewrite encoded_size by done. set (v := vlq _). rewrite len_app. intros Hl. pose proof (len_nonneg s).
  rewrite putVLQ_spec by by apply size_is_uint. fold v. rewrite decide_True by (unfold len in *; lia).
  cbn [mbind outcome_bind]. rewrite to_nat_len, copy_after.
  - by rewrite drop_drop, <-app_assoc, length_app.
  - unfold len in *. rewrite length_drop. lia.
Qed.

(** ** Reading *)

Lemma deserialize_small k rest : 0 <= k < 128 -> deserializeVLQ (byte.of_Z k :: rest) = (k, 1).
Proof.
  intros Hk. pose proof (deserializeVLQ_vlq k rest) as H. unfold vlq, vlq_fuel in H. cbn [vlq_digits] in H.
  rewrite land_7f, Z.mod_small, Z.lor_0_r, (proj2 (Z.leb_le _ _)) in H by lia. apply H. unfold is_uint; lia.
Qed.

(** Both readers switch on the kind of a special script. *)
Lemma decode_size_special k n rest :
  (k = 0 \/ k = 1) /\ n = 21 \/ (k = 2 \/ k = 3 \/ k = 4 \/ k = 5) /\ n = 33 ->
  decodeCompressedScriptSize (byte.of_Z k :: rest) = n.
Proof.
  intros H. unfold decodeCompressedScriptSize. rewrite deserialize_small by lia.
  repeat match goal with H : _ \/ _ |- _ => destruct H | H : _ /\ _ |- _ => destruct H end; by subst.
Qed.

Lemma compressed_general_reads s rest :
  script_bound s -> deserializeVLQ ((vlq (len s + numSpecialScripts) ++ s) ++ rest) =
    (len s + numSpecialScripts, len (vlq (len s + numSpecialScripts))).
Proof. intros Hs. rewrite <-app_assoc. by apply deserializeVLQ_vlq, size_is_uint. Qed.

Lemma vlq_digits_length fuel m n : (length (vlq_digits fuel m n) <= fuel)%nat.
Proof.
  revert m n. induction fuel as [|fuel IH]; intros m n; cbn [vlq_digits length]; [lia|].
  destruct (n <=? 0x7f); [cbn; lia|]. specialize (IH 0x80 (n / 128 - 1)). lia.
Qed.

Lemma vlq_len_bounds n : 1 <= len (vlq n) <= 10.
Proof.
  unfold vlq, len. rewrite length_rev. pose proof (vlq_digits_length vlq_fuel 0 n).
  unfold vlq_fuel in *. cbn [vlq_digits length] in *. lia.
Qed.

Lemma land_1_cases n : Z.land n 1 = 0 \/ Z.land n 1 = 1.
Proof. assert (Z.land n 1 = n mod 2 ^ 1) as -> by (apply (Z.land_ones n 1); lia). pose proof (Z.mod_pos_bound n (2 ^ 1)). lia. Qed.

Lemma decodeCompressedScriptSize_spec s rest :
  script_bound s -> decodeCompressedScriptSize (compressed s ++ rest) = len (compressed s).
Proof.
  intros Hs. unfold compressed.
  destruct (isPubKeyHash s) as [h|] eqn:E1.
  { apply isPubKeyHash_inv in E1 as [_ Hh]. rewrite len_cons. apply decode_size_special. unfold cstPayToPubKeyHash. lia. }
  destruct (isScriptHash s) as [h|] eqn:E2.
  { apply isScriptHash_inv in E2 as [_ Hh]. rewrite len_cons. apply decode_size_special. unfold cstPayToScriptHash. lia. }
  destruct (isPubKey s) as [k|] eqn:E3.
  { apply compressed_key in E3 as [Hk Hf]. rewrite len_cons. apply decode_size_special.
    destruct Hf as [E|[E|E]]; rewrite E; cbn [Z.eqb Pos.eqb]; [lia..|].
    destruct (land_1_cases (byte_at k 64)) as [-> | ->]; [change (Z.lor 4 0) with 4|change (Z.lor 4 1) with 5]; lia. }
  unfold decodeCompressedScriptSize. rewrite compressed_general_reads by done.
  pose proof (vlq_len_bounds (len s + numSpecialScripts)). pose proof (len_nonneg s).
  unfold script_bound in Hs. change maxAlloc with (2 ^ 48) in Hs. set (v := vlq _) in *. rewrite len_app.
  unfold cstPayToPubKeyHash, cstPayToScriptHash, cstPayToPubKeyComp2, cstPayToPubKeyComp3,
    cstPayToPubKeyUncomp4, cstPayToPubKeyUncomp5, numSpecialScripts.
  repeat rewrite (proj2 (Z.eqb_neq _ _)) by lia. cbn [orb].
  rewrite (uwrap_id 64 (len s + 6 - 6)) by (unfold is_uint; lia).
  rewrite uwrap_id by (unfold is_uint; lia). rewrite swrap_id by (unfold is_int; lia). lia.
Qed.

Lemma slice_exact (pre m post : bytes) lo hi :
  lo = len pre -> hi = lo + len m -> slice (pre ++ m ++ post) lo hi = Ok m.
Proof.
  intros -> ->. unfold slice. pose proof (len_nonneg pre). pose proof (len_nonneg m). pose proof (len_nonneg post).
  rewrite !len_app. repeat rewrite (proj2 (Z.leb_le _ _)) by lia. cbn [andb].
  rewrite to_nat_len, drop_app_length. replace (len pre + len m - len pre) with (len m) by lia.
  by rewrite to_nat_len, take_app_length.
Qed.

(** The parity of a number is that of its last byte. *)
Lemma big_SetBytes_odd m b : Z.odd (big_SetBytes (m ++ [b])) = Z.odd (byte.unsigned b).
Proof.
  unfold big_SetBytes. rewrite rev_app_distr. cbn [rev app].
  rewrite le_combine_cons, Z.odd_add, Z.odd_mul. change (Z.odd (2 ^ 8)) with false.
  by rewrite andb_false_r, xorb_false_r.
Qed.

Lemma last_byte_parity (yb : bytes) : len yb = 32 -> Z.land (byte_at yb 31) 1 = Z.b2z (Z.odd (big_SetBytes yb)).
Proof.
  intros Hy. destruct (split_len yb 31 1) as (m & t & -> & Hm & Ht); [lia..|].
  peel Ht b t0. assert (t0 = []) as -> by (apply len_zero_nil; lia).
  rewrite (byte_after m _ 31 0), big_SetBytes_odd by done. change (byte_at [b] 0) with (byte.unsigned b).
  destruct b; reflexivity.
Qed.

(** The point of an uncompressed key is recovered from its abscissa and parity. *)
Lemma uncompressed_recovered xb yb p :
  len xb = 32 -> len yb = 32 -> ParsePubKey (byte.of_Z 4 :: xb ++ yb) = Ok p ->
  ParsePubKey (byte.of_Z (2 + Z.land (byte_at yb 31) 1) :: xb) = Ok p /\
  SerializeUncompressed p = byte.of_Z 4 :: xb ++ yb.
Proof.
  intros Lx Ly Hp. pose proof (parse_long_ok _ _ _ _ Lx Ly Hp) as (Rx & Ry & Hc). pose proof P_bounds.
  assert (E : pk_X p = big_SetBytes xb /\ pk_Y p = big_SetBytes yb).
  { rewrite (parse_long _ xb yb Lx Ly) in Hp. cbv zeta in Hp. by repeat case_match; simplify_eq. }
  destruct E as [EX EY]. rewrite last_byte_parity, <-EY by done. split.
  - apply (parse_short_iff _ xb p Lx). split_and!; [|done|lia..|done|]; by destruct (Z.odd (pk_Y p)).
  - destruct (serialize_eq p) as (-> & _ & _). destruct (pad32_spec (pk_X p)) as [Lx' Vx]; [lia|].
    destruct (pad32_spec (pk_Y p)) as [Ly' Vy]; [lia|]. f_equal.
    rewrite (big_SetBytes_inj (pad32 (pk_X p)) xb), (big_SetBytes_inj (pad32 (pk_Y p)) yb) by congruence. done.
Qed.

Lemma slice_special b (h : bytes) n : len h = n -> slice (b :: h) 1 (1 + n) = Ok h.
Proof.
  intros Hh. pose proof (slice_exact [b] h [] 1 (1 + n)) as H. cbn [app] in H. rewrite app_nil_r in H.
  apply H; [done|lia].
Qed.

Lemma nonempty_len (b : Init.Byte.byte) l : (len (b :: l) =? 0) = false.
Proof. rewrite len_cons. apply Z.eqb_neq. pose proof (len_nonneg l). lia. Qed.

Lemma decompress_uncompressed xb yb p :
  len xb = 32 -> len yb = 32 -> ParsePubKey (byte.of_Z 4 :: xb ++ yb) = Ok p ->
  decompressScript (byte.of_Z (Z.lor 4 (Z.land (byte_at yb 31) 1)) :: xb) =
    Ok (byte.of_Z OP_DATA_65 :: (byte.of_Z 4 :: xb ++ yb) ++ mkbytes [OP_CHECKSIG]).
Proof.
  intros Lx Ly Hp. destruct (uncompressed_recovered xb yb p Lx Ly Hp) as [E1 E2].
  unfold decompressScript. rewrite nonempty_len.
  assert (Hc : copy_to (replicate 32 Byte.x00) 0 xb = xb).
  { pose proof (copy_after [] xb (replicate 32 Byte.x00)) as H. cbn [app length] in H. rewrite H.
    - rewrite drop_ge, app_nil_r; [done|]. rewrite length_replicate. unfold len in Lx; lia.
    - unfold len at 2. rewrite length_replicate. lia. }
  destruct (land_1_cases (byte_at yb 31)) as [E|E]; rewrite E in *;
    [change (Z.lor 4 0) with 4|change (Z.lor 4 1) with 5]; rewrite deserialize_small by done.
  all: cbn [Z.eqb Pos.eqb orb cstPayToPubKeyHash cstPayToScriptHash cstPayToPubKeyComp2 cstPayToPubKeyComp3
         cstPayToPubKeyUncomp4 cstPayToPubKeyUncomp5].
  all: change (drop 1 (_ :: xb)) with xb; rewrite Hc.
  1: change (2 + 0) with (4 - 2) in E1. 2: change (2 + 1) with (5 - 2) in E1.
  all: rewrite E1, E2; reflexivity.
Qed.

Lemma decompressScript_spec s : script_bound s -> decompressScript (compressed s) = Ok s.
Proof.
  intros Hs. unfold compressed.
  destruct (isPubKeyHash s) as [h|] eqn:E1.
  { apply isPubKeyHash_inv in E1 as [-> Hh]. unfold decompressScript. rewrite nonempty_len, deserialize_small by done.
    cbn [Z.eqb cstPayToPubKeyHash]. by rewrite slice_special. }
  destruct (isScriptHash s) as [h|] eqn:E2.
  { apply isScriptHash_inv in E2 as [-> Hh]. unfold decompressScript. rewrite nonempty_len, deserialize_small by done.
    cbn [Z.eqb Pos.eqb cstPayToPubKeyHash cstPayToScriptHash]. by rewrite slice_special. }
  destruct (isPubKey s) as [k|] eqn:E3.
  { apply isPubKey_inv in E3 as [(f & xb & -> & -> & Hx & Hf)|(xb & yb & p & -> & -> & Hx & Hy & Hp)].
    - change (byte_at (f :: xb) 0) with (byte.unsigned f). change (drop 1 (f :: xb)) with xb.
      rewrite (take_ge xb) by (unfold len in Hx; lia). unfold decompressScript.
      destruct Hf as [Hf|Hf]; rewrite Hf; cbn [Z.eqb Pos.eqb]; rewrite nonempty_len, deserialize_small by done;
        cbn [Z.eqb Pos.eqb orb cstPayToPubKeyHash cstPayToScriptHash cstPayToPubKeyComp2 cstPayToPubKeyComp3];
        rewrite slice_special by done; cbn [mbind outcome_bind app]; rewrite <-Hf, byte.of_Z_unsigned; done.
    - change (byte_at (byte.of_Z 4 :: xb ++ yb) 0) with 4. cbn [Z.eqb Pos.eqb].
      change (drop 1 _) with (xb ++ yb). rewrite (take_len xb) by done.
      assert (byte_at (byte.of_Z 4 :: xb ++ yb) 64 = byte_at yb 31) as ->.
      { rewrite byte_at_cons. apply (byte_after xb yb 32 31). done. }
      by apply (decompress_uncompressed xb yb p). }
  clear E1 E2 E3. pose proof (compressed_general_reads s [] Hs) as Hr. rewrite app_nil_r in Hr.
  unfold decompressScript. pose proof (vlq_len_bounds (len s + numSpecialScripts)) as Hv. pose proof (len_nonneg s).
  rewrite Hr. set (v := vlq _) in *. rewrite len_app, (proj2 (Z.eqb_neq _ _)) by lia.
  unfold script_bound in Hs. change maxAlloc with (2 ^ 48) in Hs. clear Hr.
  unfold cstPayToPubKeyHash, cstPayToScriptHash, cstPayToPubKeyComp2, cstPayToPubKeyComp3,
    cstPayToPubKeyUncomp4, cstPayToPubKeyUncomp5, numSpecialScripts.
  repeat rewrite (proj2 (Z.eqb_neq _ _)) by lia. cbn [orb].
  rewrite (uwrap_id 64 (len s + 6 - 6)), swrap_id by (unfold is_uint, is_int; lia).
  unfold make_panics. change maxAlloc with (2 ^ 48).
  repeat rewrite (proj2 (Z.ltb_ge _ _)) by lia. cbn [orb].
  rewrite <-(app_nil_r s) at 1. apply slice_exact; lia.
Qed.

(** * Compressed amounts *)

Lemma strip_zeros_spec k a e a' e' :
  0 < a -> 0 <= e -> e + Z.of_nat k = 9 -> strip_zeros k a e = (a', e') ->
  e <= e' <= 9 /\ 0 < a' /\ a = a' * 10 ^ (e' - e) /\ (e' < 9 -> a' mod 10 <> 0).
Proof.
  revert a e. induction k as [|k IH]; intros a e Ha He Hk; cbn [strip_zeros].
  { intros [= <- <-]. rewrite Z.sub_diag. lia. }
  destruct (Z.eqb_spec (a mod 10) 0) as [E|E]; cbn [andb].
  2: { intros [= <- <-]. rewrite Z.sub_diag. lia. }
  rewrite (proj2 (Z.ltb_lt _ _)) by lia. intros H. apply Z.div_exact in E; [|lia].
  apply IH in H as (H1 & H2 & H3 & H4); [|lia..]. split_and!; [lia..| |done].
  replace (e' - e) with (Z.succ (e' - (e + 1))) by lia. rewrite Z.pow_succ_r by lia. nia.
Qed.

Lemma apply_exponent_spec k n : 0 <= n -> n * 10 ^ Z.of_nat k < 2 ^ 64 -> apply_exponent k n = n * 10 ^ Z.of_nat k.
Proof.
  revert n. induction k as [|k IH]; intros n Hn; [cbn; lia|].
  rewrite Nat2Z.inj_succ, Z.pow_succ_r by lia. intros H. cbn [apply_exponent].
  assert (0 < 10 ^ Z.of_nat k) by (apply Z.pow_pos_nonneg; lia).
  rewrite uwrap_id by (unfold is_uint; nia). rewrite IH; nia.
Qed.

(** The amounts the compression keeps in 64 bits. *)
Definition amount_bound (a : Z) : Prop := 0 <= a < 2 ^ 60.

Lemma compress_amount_cases a :
  amount_bound a -> a <> 0 ->
  exists n e, 0 <= e <= 9 /\ 0 < n /\ a = n * 10 ^ e /\
    compressTxOutAmount a = (if e <? 9 then 1 + 10 * (9 * (n / 10) + n mod 10 - 1) + e else 10 + 10 * (n - 1)) /\
    (e < 9 -> n mod 10 <> 0) /\ compressTxOutAmount a < 2 ^ 64.
Proof.
  intros Ha Hz. unfold compressTxOutAmount, amount_bound in *. rewrite (proj2 (Z.eqb_neq _ _)) by done.
  destruct (strip_zeros 9 a 0) as [n e] eqn:E. apply strip_zeros_spec in E as (He & Hn & Ea & Hd); [|lia..].
  rewrite Z.sub_0_r in Ea. exists n, e. assert (1 <= 10 ^ e) by (apply (Z.pow_le_mono_r 10 0 e); lia).
  assert (n <= a) by nia. pose proof (Z.div_mod n 10). pose proof (Z.mod_pos_bound n 10).
  split_and!; [lia..| | |done|]; destruct (Z.ltb_spec e 9); try apply uwrap_id; unfold is_uint, uwrap;
    try lia; eapply Z.le_lt_trans; try (apply Z.mod_le; lia); lia.
Qed.

Lemma compress_amount_uint a : amount_bound a -> is_uint 64 (compressTxOutAmount a).
Proof.
  intros Ha. destruct (decide (a = 0)) as [->|Hz]; [done|].
  destruct (compress_amount_cases a Ha Hz) as (n & e & He & Hn & _ & E & Hd & Hlt). split; [|done].
  rewrite E. pose proof (Z.mod_pos_bound n 10). pose proof (Z.div_pos n 10). destruct (Z.ltb_spec e 9); lia.
Qed.

Lemma amount_roundtrip a : amount_bound a -> decompressTxOutAmount (compressTxOutAmount a) = a.
Proof.
  intros Ha. destruct (decide (a = 0)) as [->|Hz]; [done|].
  destruct (compress_amount_cases a Ha Hz) as (n & e & He & Hn & Ea & -> & Hd & _).
  pose proof (Z.mod_pos_bound n 10). pose proof (Z.div_mod n 10). pose proof (Z.div_pos n 10).
  unfold decompressTxOutAmount, amount_bound in *. assert (1 <= 10 ^ e) by (apply (Z.pow_le_mono_r 10 0 e); lia).
  assert (n <= a) by nia. set (q := n / 10) in *. set (r := n mod 10) in *.
  destruct (Z.ltb_spec e 9) as [H9|H9]; rewrite (proj2 (Z.eqb_neq _ _)) by lia.
  - replace (1 + 10 * (9 * q + r - 1) + e - 1) with (e + (9 * q + r - 1) * 10) by lia.
    rewrite (Z.mod_add e), (Z.div_add e), (Z.mod_small e 10), (Z.div_small e 10), Z.add_0_l by lia.
    rewrite (proj2 (Z.ltb_lt _ _)) by lia. replace (9 * q + r - 1) with (r - 1 + q * 9) by lia.
    rewrite (Z.mod_add (r - 1)), (Z.div_add (r - 1)), (Z.mod_small (r - 1) 9), (Z.div_small (r - 1) 9) by lia.
    replace ((0 + q) * 10 + (r - 1 + 1)) with n by lia. rewrite uwrap_id by (unfold is_uint; lia).
    rewrite apply_exponent_spec; rewrite ?Z2Nat.id, <-?Ea; lia.
  - replace e with 9 in * by lia. replace (10 + 10 * (n - 1) - 1) with (9 + (n - 1) * 10) by lia.
    rewrite (Z.mod_add 9), (Z.div_add 9), (Z.mod_small 9 10), (Z.div_small 9 10) by lia. cbn [Z.ltb Z.compare Pos.compare Pos.compare_cont].
    replace (0 + (n - 1) + 1) with n by lia. rewrite uwrap_id by (unfold is_uint; lia).
    rewrite apply_exponent_spec; rewrite ?Z2Nat.id, <-?Ea; lia.
Qed.

Lemma compressed_nonempty s : 1 <= len (compressed s).
Proof.
  unfold compressed. repeat case_match; rewrite ?len_cons, ?len_app;
    [match goal with |- context [len ?l] => pose proof (len_nonneg l); lia end..|].
  pose proof (vlq_len_bounds (len s + numSpecialScripts)). pose proof (len_nonneg s). lia.
Qed.

Lemma deserialize_loop_range bs acc size :
  is_uint 64 acc ->
  is_uint 64 (fst (deserializeVLQ_loop acc size bs)) /\ snd (deserializeVLQ_loop acc size bs) <= size + len bs.
Proof.
  revert acc size. induction bs as [|b bs IH]; intros acc size Ha; cbn [deserializeVLQ_loop].
  { cbn [fst snd]. split; [done|]. unfold len; cbn; lia. }
  assert (Hn : is_uint 64 (Z.lor (uwrap 64 (Z.shiftl acc 7)) (Z.land (byte.unsigned b) 0x7f))).
  { apply lor_uint; [lia|apply uwrap_range; lia|]. rewrite land_7f. pose proof (Z.mod_pos_bound (byte.unsigned b) 128).
    unfold is_uint. lia. }
  rewrite len_cons. pose proof (len_nonneg bs). destruct (negb _); cbn [fst snd]; [split; [done|lia]|].
  destruct (IH (uwrap 64 (Z.lor (uwrap 64 (Z.shiftl acc 7)) (Z.land (byte.unsigned b) 0x7f) + 1)) (size + 1))
    as [H1 H2]; [apply uwrap_range; lia|]. split; [done|lia].
Qed.

Lemma deserialize_uint bs : is_uint 64 (fst (deserializeVLQ bs)).
Proof. by apply deserialize_loop_range. Qed.

Lemma deserialize_size_le bs : snd (deserializeVLQ bs) <= len bs.
Proof. apply (deserialize_loop_range bs 0 0). done. Qed.

(** * Correctness *)

(** Writing a 64-bit quantity stores the [serializeSizeVLQ n] bytes of its encoding at
    the start of the target, leaves the rest of it alone, and panics exactly when the
    target is shorter; reading an encoding followed by anything gives the quantity and its
    size back. *)
Theorem vlq_roundtrip target n :
  is_uint 64 n ->
  let size := serializeSizeVLQ n in
  1 <= size <= 10 /\
  (len target < size -> putVLQ target n = Panic) /\
  (size <= len target ->
   exists enc, len enc = size /\ putVLQ target n = Ok (enc ++ drop (Z.to_nat size) target, size) /\
     forall rest, deserializeVLQ (enc ++ rest) = (n, size)).
Proof.
  intros Hn size. unfold size. rewrite serializeSizeVLQ_len, putVLQ_spec by done. pose proof (vlq_len_bounds n).
  unfold len in *. rewrite Nat2Z.id. split_and!; [lia..| |].
  - intros Hl. by rewrite decide_False by lia.
  - intros Hl. rewrite decide_True by lia. exists (vlq n). split_and!; [done..|]. intros rest.
    by apply deserializeVLQ_vlq.
Qed.

(** Up to nine bytes the encoding is canonical, as the format says: whatever the reader
    accepts as a complete quantity is the encoding of the quantity.  With ten bytes it is
    not, the accumulator wraps: ten bytes are read as zero. *)
Theorem vlq_canonical bs n size :
  deserializeVLQ bs = (n, size) -> 1 <= size <= 9 ->
  Z.land (byte_at bs (Z.to_nat (size - 1))) 0x80 <> 0x80 ->
  (size = serializeSizeVLQ n /\ putVLQ (replicate (Z.to_nat size) Byte.x00) n = Ok (take (Z.to_nat size) bs, size)) /\
  deserializeVLQ (mkbytes [0x80; 0xfe; 0xfe; 0xfe; 0xfe; 0xfe; 0xfe; 0xfe; 0xff; 0x00]) = (0, 10).
Proof.
  intros H Hs Hlast. split; [|vm_compute; reflexivity].
  pose proof (vlq_of_decoded bs n size H Hs Hlast) as E. pose proof (deserialize_uint bs) as Hn. rewrite H in Hn.
  cbn [fst] in Hn. assert (Hl : len (take (Z.to_nat size) bs) = size).
  { pose proof (deserialize_size_le bs) as Hle. rewrite H in Hle. cbn [snd] in Hle.
    unfold len in *. rewrite length_take. lia. }
  rewrite serializeSizeVLQ_len, putVLQ_spec, <-E by done. split; [done|].
  unfold len in *. rewrite decide_True by (rewrite length_replicate; lia).
  rewrite drop_ge by (rewrite length_replicate; lia). rewrite app_nil_r. congruence.
Qed.

(** The bytes of a compressed output. *)
Definition txout_bytes (amount : Z) (pkScript : bytes) : bytes := vlq (compressTxOutAmount amount) ++ compressed pkScript.

Section txout.
Context (amount : Z) (pkScript : bytes) (Ha : amount_bound amount) (Hs : script_bound pkScript).

Lemma txout_bytes_len : len (txout_bytes amount pkScript) = compressedTxOutSize amount pkScript.
Proof.
  unfold txout_bytes, compressedTxOutSize.
  by rewrite len_app, serializeSizeVLQ_len, compressedScriptSize_len by (done || by apply compress_amount_uint).
Qed.

Lemma txout_bytes_nonempty : 0 < len (txout_bytes amount pkScript).
Proof.
  unfold txout_bytes. rewrite len_app. pose proof (compressed_nonempty pkScript). pose proof (len_nonneg (vlq (compressTxOutAmount amount))). lia.
Qed.

Lemma putCompressedTxOut_spec target :
  len (txout_bytes amount pkScript) <= len target ->
  putCompressedTxOut target amount pkScript =
    Ok (txout_bytes amount pkScript ++ drop (length (txout_bytes amount pkScript)) target, len (txout_bytes amount pkScript)).
Proof.
  unfold txout_bytes. rewrite len_app. intros Hl. set (v := vlq _) in *. set (c := compressed pkScript) in *.
  pose proof (compress_amount_uint amount Ha) as Hu. pose proof (len_nonneg c) as Hc.
  unfold putCompressedTxOut. rewrite putVLQ_spec by done. fold v.
  rewrite decide_True by (unfold len in *; lia). cbn [mbind outcome_bind].
  rewrite to_nat_len, drop_app_length, take_app_length, putCompressedScript_spec by
    (done || (fold c; unfold len in *; rewrite length_drop; lia)).
  cbn [mbind outcome_bind]. fold c. by rewrite drop_drop, length_app, app_assoc.
Qed.

Lemma decodeCompressedTxOut_spec rest :
  decodeCompressedTxOut (txout_bytes amount pkScript ++ rest) = Ok (amount, pkScript, len (txout_bytes amount pkScript), None).
Proof.
  unfold txout_bytes, decodeCompressedTxOut. rewrite len_app, <-app_assoc.
  pose proof (compress_amount_uint amount Ha) as Hu. pose proof (compressed_nonempty pkScript) as Hc.
  rewrite deserializeVLQ_vlq by done. set (v := vlq _) in *. set (c := compressed pkScript) in *.
  rewrite !len_app, (proj2 (Z.leb_gt _ _)) by (pose proof (len_nonneg rest); lia).
  rewrite to_nat_len, drop_app_length. unfold c. rewrite decodeCompressedScriptSize_spec by done. fold c.
  rewrite len_app, (proj2 (Z.ltb_ge _ _)) by (pose proof (len_nonneg rest); lia).
  rewrite slice_exact by lia. cbn [mbind outcome_bind]. unfold c. rewrite decompressScript_spec by done.
  cbn [mbind outcome_bind]. fold c. by rewrite amount_roundtrip.
Qed.
End txout.

(** C25: A transaction output with an amount below [2^60] and a script that fits in memory:
    the compressed form takes [compressedTxOutSize] bytes of the target, whose rest is left
    alone, and decoding it, whatever follows, gives the amount, the script (the uncompressed
    keys by computing the square root with the stored parity) and that size. *)
Theorem txout_compression_roundtrip amount pkScript target :
  amount_bound amount -> script_bound pkScript ->
  compressedTxOutSize amount pkScript <= len target ->
  exists enc, len enc = compressedTxOutSize amount pkScript /\
    putCompressedTxOut target amount pkScript =
      Ok (enc ++ drop (length enc) target, compressedTxOutSize amount pkScript) /\
    forall rest, decodeCompressedTxOut (enc ++ rest) =
      Ok (amount, pkScript, compressedTxOutSize amount pkScript, None).
Proof.
  intros Ha Hs. rewrite <-txout_bytes_len by done. intros Hl. exists (txout_bytes amount pkScript).
  split_and!; [done|by apply putCompressedTxOut_spec|by apply decodeCompressedTxOut_spec].
Qed.

(** The length check of [decodeCompressedTxOut] compares an [int] that may have wrapped:
    a quantity of 2^63 or more as script size passes it and the subslice panics. *)
Theorem decode_txout_wrapped_size :
  decodeCompressedTxOut (byte.of_Z 0 :: vlq (2 ^ 63 + numSpecialScripts)) = Panic /\
  (forall rest, decodeCompressedScriptSize (vlq (2 ^ 63 + numSpecialScripts) ++ rest) < 0).
Proof.
  split; [vm_compute; reflexivity|]. intros rest. unfold decodeCompressedScriptSize.
  rewrite deserializeVLQ_vlq by done. vm_compute. reflexivity.
Qed.

Lemma vlq_roundtrip_witness :
  is_uint 64 16512 /\ serializeSizeVLQ 16512 = 3 /\
  exists enc, putVLQ (mkbytes [1; 2; 3; 4]) 16512 = Ok (enc ++ mkbytes [4], 3) /\
    deserializeVLQ (enc ++ mkbytes [9]) = (16512, 3).
Proof.
  assert (Hn : is_uint 64 16512) by (unfold is_uint; lia). split_and!; [done|reflexivity|].
  destruct (vlq_roundtrip (mkbytes [1; 2; 3; 4]) 16512 Hn) as (_ & _ & H).
  destruct H as (enc & Hl & Hp & Hr); [vm_compute; discriminate|]. exists enc. split; [exact Hp|apply Hr].
Defined.

Lemma vlq_canonical_witness :
  deserializeVLQ (mkbytes [0x80; 0x80; 0x00; 0x05]) = (16512, 3) /\
  putVLQ (replicate 3 Byte.x00) 16512 = Ok (mkbytes [0x80; 0x80; 0x00], 3).
Proof.
  assert (H : deserializeVLQ (mkbytes [0x80; 0x80; 0x00; 0x05]) = (16512, 3)) by reflexivity. split; [done|].
  refine (proj2 (proj1 (vlq_canonical _ _ _ H ltac:(lia) _))). vm_compute. discriminate.
Defined.

(** A pay-to-pubkey output with the uncompressed example key. *)
Definition example_script : bytes :=
  byte.of_Z OP_DATA_65 :: SerializeUncompressed example_key ++ mkbytes [OP_CHECKSIG].

Lemma txout_compression_roundtrip_witness :
  compressedTxOutSize 500000000 example_script = 34 /\
  exists enc, len enc = 34 /\
    decodeCompressedTxOut (enc ++ mkbytes [7]) = Ok (500000000, example_script, 34, None).
Proof.
  assert (Hs : compressedTxOutSize 500000000 example_script = 34) by (vm_compute; reflexivity). split; [done|].
  assert (Hb : script_bound example_script) by (unfold script_bound; vm_compute; discriminate).
  destruct (txout_compression_roundtrip 500000000 example_script (replicate 34 Byte.x00)) as (enc & Hl & _ & Hd).
  - unfold amount_bound; lia.
  - done.
  - rewrite Hs. vm_compute. discriminate.
  - rewrite Hs in *. exists enc. split; [done|apply Hd].
Defined.
