(* ===== verification/SigCache.v ===== *)
(** Model of txscript/sigcache.go: the cache of verified signatures.

    The lock serializes the calls; a state of the cache is the map and its bound.  Go
    iterates over a map from an arbitrary place: the entry that is evicted from a full
    cache is chosen by a parameter. *)

From stdpp Require Import gmap fin_maps.
From S2P Require Import Prelude PubKey Signature.

Record sigCacheEntry := { entry_sig : Signature; entry_pubKey : PublicKey }.

Record SigCache := { validSigs : gmap bytes sigCacheEntry; maxEntries : Z }.

Definition NewSigCache (maxEntries : Z) : SigCache := {| validSigs := ∅; maxEntries := maxEntries |}.

Definition SigCache_Exists (s : SigCache) (sigHash : bytes) (sig : Signature) (pubKey : PublicKey) : bool :=
  match validSigs s !! sigHash with
  | Some entry => IsEqual (entry_pubKey entry) pubKey && Signature_IsEqual (entry_sig entry) sig
  | None => false
  end.

(** The key the iteration over a map starts at. *)
Class MapOrder := {
  first_key : gmap bytes sigCacheEntry -> bytes;
  first_key_in : forall m, m <> ∅ -> is_Some (m !! first_key m)
}.

Section cache.
Context `{MapOrder}.

(** [for sigEntry := range s.validSigs { delete(s.validSigs, sigEntry); break }] deletes
    nothing from an empty map. *)
Definition SigCache_Add (s : SigCache) (sigHash : bytes) (sig : Signature) (pubKey : PublicKey) : SigCache :=
  if maxEntries s <=? 0 then s
  else
  let full := maxEntries s <? uwrap 64 (Z.of_nat (size (validSigs s)) + 1) in
  let sigs := if full && negb (Nat.eqb (size (validSigs s)) 0) then delete (first_key (validSigs s)) (validSigs s)
              else validSigs s in
  {| validSigs := <[sigHash := {| entry_sig := sig; entry_pubKey := pubKey |}]> sigs; maxEntries := maxEntries s |}.

(** * Correctness *)

(** Every entry is a signature the verifier accepts. *)
Definition sound_cache (verify : bytes -> Signature -> PublicKey -> bool) (s : SigCache) : Prop :=
  map_Forall (fun h e => verify h (entry_sig e) (entry_pubKey e) = true) (validSigs s).

Definition bounded_cache (s : SigCache) : Prop := Z.of_nat (size (validSigs s)) <= maxEntries s.

Lemma IsEqual_eq p q : IsEqual p q = true -> p = q.
Proof. unfold IsEqual. destruct p, q; cbn. rewrite andb_true_iff, !Z.eqb_eq. by intros [-> ->]. Qed.

Lemma Signature_IsEqual_eq p q : Signature_IsEqual p q = true -> p = q.
Proof. unfold Signature_IsEqual. destruct p, q; cbn. rewrite andb_true_iff, !Z.eqb_eq. by intros [-> ->]. Qed.

Lemma Exists_sound verify s h sig pk : sound_cache verify s -> SigCache_Exists s h sig pk = true -> verify h sig pk = true.
Proof.
  intros Hs. unfold SigCache_Exists. destruct (validSigs s !! h) as [e|] eqn:E; [|done].
  rewrite andb_true_iff. intros [<-%IsEqual_eq <-%Signature_IsEqual_eq]. exact (Hs h e E).
Qed.

Lemma Add_sound verify s h sig pk :
  sound_cache verify s -> verify h sig pk = true -> sound_cache verify (SigCache_Add s h sig pk).
Proof.
  intros Hs Hv. unfold SigCache_Add. case_match; [done|]. apply map_Forall_insert_2; [done|].
  case_match; [|done]. by apply map_Forall_delete.
Qed.

Lemma Add_bounded s h sig pk :
  bounded_cache s -> maxEntries s < 2 ^ 63 -> bounded_cache (SigCache_Add s h sig pk).
Proof.
  unfold bounded_cache, SigCache_Add. intros Hb Hm. destruct (Z.leb_spec (maxEntries s) 0); [done|]. cbn [validSigs maxEntries].
  rewrite uwrap_id by (unfold is_uint; lia).
  rewrite map_size_insert. destruct (Z.ltb_spec (maxEntries s) (Z.of_nat (size (validSigs s)) + 1)) as [Hf|Hf]; cbn [andb];
    [|cbv iota; case_match; unfold id; lia].
  destruct (Nat.eqb_spec (size (validSigs s)) 0) as [E|E]; cbn [negb]; cbv iota; [case_match; unfold id; lia|].
  destruct (first_key_in (validSigs s)) as [e He]; [by intros E'; rewrite E', map_size_empty in E|].
  rewrite map_size_delete_Some by (by exists e). case_match; unfold id; lia.
Qed.
End cache.

(** The signature cache refines plain verification: as long as only verified signatures
    are added, what [Exists] confirms is accepted by the verifier, and [Add] keeps that and
    the bound on the number of entries, whichever entry is evicted; a signature that was
    just added is found unless the cache has no room at all. *)
Theorem sig_cache_sound `{MapOrder} (verify : bytes -> Signature -> PublicKey -> bool) s h sig pk :
  sound_cache verify s -> bounded_cache s -> maxEntries s < 2 ^ 63 -> verify h sig pk = true ->
  let s' := SigCache_Add s h sig pk in
  sound_cache verify s' /\ bounded_cache s' /\
  SigCache_Exists s' h sig pk = (0 <? maxEntries s) /\
  forall h' sig' pk', SigCache_Exists s' h' sig' pk' = true -> verify h' sig' pk' = true.
Proof.
  intros Hs Hb Hm Hv s'. assert (Hs' : sound_cache verify s') by by apply Add_sound.
  split_and!; [done|by apply Add_bounded| |intros; by eapply Exists_sound].
  unfold s', SigCache_Add, SigCache_Exists. destruct (Z.leb_spec (maxEntries s) 0) as [Hz|Hz].
  - rewrite (proj2 (Z.ltb_ge 0 (maxEntries s))) by done.
    unfold bounded_cache in Hb. destruct (map_size_empty_iff (validSigs s)) as [E _]. rewrite E by lia. done.
  - rewrite (proj2 (Z.ltb_lt 0 (maxEntries s))) by done. cbn [validSigs]. rewrite lookup_insert_eq. cbn.
    unfold IsEqual, Signature_IsEqual. by rewrite !Z.eqb_refl.
Qed.

(** A concrete order for examples: the first entry of the map seen as a list. *)
#[local] Program Instance first_entry : MapOrder :=
  {| first_key := fun m => match map_to_list m with e :: _ => fst e | [] => [] end |}.
Next Obligation.
  intros m Hm. destruct (map_to_list m) as [|[k e] l] eqn:E; [by apply map_to_list_empty_iff in E|].
  exists e. apply elem_of_map_to_list. rewrite E. left.
Qed.
Definition map_order : MapOrder := first_entry.

Lemma sig_cache_sound_witness :
  let verify h sig pk := bool_decide (h = mkbytes [1] /\ sig_R sig = 2 /\ pk_X pk = 3) in
  let sig := {| sig_R := 2; sig_S := 5 |} in let pk := {| pk_X := 3; pk_Y := 4 |} in
  sound_cache verify (NewSigCache 1) /\
  SigCache_Exists (SigCache_Add (NewSigCache 1) (mkbytes [1]) sig pk) (mkbytes [1]) sig pk = (0 <? 1).
Proof.
  intros verify sig pk. split; [apply map_Forall_empty|].
  apply (sig_cache_sound verify (NewSigCache 1) (mkbytes [1]) sig pk);
    [apply map_Forall_empty|by vm_compute|done|reflexivity].
Defined.
