(* ===== verification/Engine.v ===== *)
(** Model of txscript/engine.go and of the handlers of txscript/opcode.go: the virtual
    machine that runs the scripts of a transaction input.

    A method that mutates the engine is a function from the engine to the engine after the
    call; the caller of a method that returned an error does not look at the engine again,
    so an error carries no state.  [condStack] lists its entries from the top.  Indices
    into scripts are natural numbers.  The trace of the execution that is logged is left
    out. *)

From S2P Require Import Prelude Big ScriptNum Stack Opcode Script WireEncoding WireTx Chainhash SigHash PubKey Signature SigCache Sha1.

(** * Flags and limits *)

Definition ScriptBip16 : Z := 0x1.
Definition ScriptStrictMultiSig : Z := 0x2.
Definition ScriptDiscourageUpgradableNops : Z := 0x4.
Definition ScriptVerifyCheckLockTimeVerify : Z := 0x8.
Definition ScriptVerifyCheckSequenceVerify : Z := 0x10.
Definition ScriptVerifyCleanStack : Z := 0x20.
Definition ScriptVerifyDERSignatures : Z := 0x40.
Definition ScriptVerifyLowS : Z := 0x80.
Definition ScriptVerifyMinimalData : Z := 0x100.
Definition ScriptVerifyNullFail : Z := 0x200.
Definition ScriptVerifySigPushOnly : Z := 0x400.
Definition ScriptVerifyStrictEncoding : Z := 0x800.
Definition ScriptVerifyWitness : Z := 0x1000.
Definition ScriptVerifyDiscourageUpgradeableWitnessProgram : Z := 0x2000.
Definition ScriptVerifyMinimalIf : Z := 0x4000.
Definition ScriptVerifyWitnessPubKeyType : Z := 0x8000.

Definition StandardVerifyFlags : Z :=
  foldr Z.lor 0 [ScriptBip16; ScriptVerifyDERSignatures; ScriptVerifyStrictEncoding; ScriptVerifyMinimalData;
    ScriptStrictMultiSig; ScriptDiscourageUpgradableNops; ScriptVerifyCleanStack; ScriptVerifyNullFail;
    ScriptVerifyCheckLockTimeVerify; ScriptVerifyCheckSequenceVerify; ScriptVerifyLowS; ScriptStrictMultiSig;
    ScriptVerifyWitness; ScriptVerifyDiscourageUpgradeableWitnessProgram; ScriptVerifyMinimalIf;
    ScriptVerifyWitnessPubKeyType].

Definition MaxStackSize : Z := 1000.
Definition SequenceLockTimeDisabled : Z := 0x80000000.
Definition SequenceLockTimeIsSeconds : Z := 0x400000.
Definition SequenceLockTimeMask : Z := 0xffff.

(** * The engine *)

Inductive OpCond := OpCondFalse | OpCondTrue | OpCondSkip.

#[export] Instance OpCond_eq_dec : EqDecision OpCond.
Proof. solve_decision. Defined.

Record Engine := {
  scripts : list (list parsedOpcode);
  scriptIdx : nat;
  scriptOff : nat;
  lastCodeSep : nat;
  dstack : stack;
  astack : stack;
  vm_tx : MsgTx;
  vm_txIdx : Z;
  condStack : list OpCond;
  numOps : Z;
  vm_flags : Z;
  sigCache : option SigCache;
  hashCache : option TxSigHashes;
  bip16 : bool;
  savedFirstStack : list bytes;
  witnessVersion : Z;
  witnessProgram : option bytes;
  inputAmount : Z
}.

(** Assignments to one field. *)
Definition set_scripts (v : list (list parsedOpcode)) (vm : Engine) : Engine :=
  {| scripts := v; scriptIdx := scriptIdx vm; scriptOff := scriptOff vm; lastCodeSep := lastCodeSep vm;
     dstack := dstack vm; astack := astack vm; vm_tx := vm_tx vm; vm_txIdx := vm_txIdx vm;
     condStack := condStack vm; numOps := numOps vm; vm_flags := vm_flags vm; sigCache := sigCache vm;
     hashCache := hashCache vm; bip16 := bip16 vm; savedFirstStack := savedFirstStack vm;
     witnessVersion := witnessVersion vm; witnessProgram := witnessProgram vm; inputAmount := inputAmount vm |}.
Definition set_scriptIdx (v : nat) (vm : Engine) : Engine :=
  {| scripts := scripts vm; scriptIdx := v; scriptOff := scriptOff vm; lastCodeSep := lastCodeSep vm;
     dstack := dstack vm; astack := astack vm; vm_tx := vm_tx vm; vm_txIdx := vm_txIdx vm;
     condStack := condStack vm; numOps := numOps vm; vm_flags := vm_flags vm; sigCache := sigCache vm;
     hashCache := hashCache vm; bip16 := bip16 vm; savedFirstStack := savedFirstStack vm;
     witnessVersion := witnessVersion vm; witnessProgram := witnessProgram vm; inputAmount := inputAmount vm |}.
Definition set_scriptOff (v : nat) (vm : Engine) : Engine :=
  {| scripts := scripts vm; scriptIdx := scriptIdx vm; scriptOff := v; lastCodeSep := lastCodeSep vm;
     dstack := dstack vm; astack := astack vm; vm_tx := vm_tx vm; vm_txIdx := vm_txIdx vm;
     condStack := condStack vm; numOps := numOps vm; vm_flags := vm_flags vm; sigCache := sigCache vm;
     hashCache := hashCache vm; bip16 := bip16 vm; savedFirstStack := savedFirstStack vm;
     witnessVersion := witnessVersion vm; witnessProgram := witnessProgram vm; inputAmount := inputAmount vm |}.
Definition set_lastCodeSep (v : nat) (vm : Engine) : Engine :=
  {| scripts := scripts vm; scriptIdx := scriptIdx vm; scriptOff := scriptOff vm; lastCodeSep := v;
     dstack := dstack vm; astack := astack vm; vm_tx := vm_tx vm; vm_txIdx := vm_txIdx vm;
     condStack := condStack vm; numOps := numOps vm; vm_flags := vm_flags vm; sigCache := sigCache vm;
     hashCache := hashCache vm; bip16 := bip16 vm; savedFirstStack := savedFirstStack vm;
     witnessVersion := witnessVersion vm; witnessProgram := witnessProgram vm; inputAmount := inputAmount vm |}.
Definition set_dstack (v : stack) (vm : Engine) : Engine :=
  {| scripts := scripts vm; scriptIdx := scriptIdx vm; scriptOff := scriptOff vm;
     lastCodeSep := lastCodeSep vm; dstack := v; astack := astack vm; vm_tx := vm_tx vm;
     vm_txIdx := vm_txIdx vm; condStack := condStack vm; numOps := numOps vm; vm_flags := vm_flags vm;
     sigCache := sigCache vm; hashCache := hashCache vm; bip16 := bip16 vm;
     savedFirstStack := savedFirstStack vm; witnessVersion := witnessVersion vm;
     witnessProgram := witnessProgram vm; inputAmount := inputAmount vm |}.
Definition set_astack (v : stack) (vm : Engine) : Engine :=
  {| scripts := scripts vm; scriptIdx := scriptIdx vm; scriptOff := scriptOff vm;
     lastCodeSep := lastCodeSep vm; dstack := dstack vm; astack := v; vm_tx := vm_tx vm;
     vm_txIdx := vm_txIdx vm; condStack := condStack vm; numOps := numOps vm; vm_flags := vm_flags vm;
     sigCache := sigCache vm; hashCache := hashCache vm; bip16 := bip16 vm;
     savedFirstStack := savedFirstStack vm; witnessVersion := witnessVersion vm;
     witnessProgram := witnessProgram vm; inputAmount := inputAmount vm |}.
Definition set_condStack (v : list OpCond) (vm : Engine) : Engine :=
  {| scripts := scripts vm; scriptIdx := scriptIdx vm; scriptOff := scriptOff vm;
     lastCodeSep := lastCodeSep vm; dstack := dstack vm; astack := astack vm; vm_tx := vm_tx vm;
     vm_txIdx := vm_txIdx vm; condStack := v; numOps := numOps vm; vm_flags := vm_flags vm;
     sigCache := sigCache vm; hashCache := hashCache vm; bip16 := bip16 vm;
     savedFirstStack := savedFirstStack vm; witnessVersion := witnessVersion vm;
     witnessProgram := witnessProgram vm; inputAmount := inputAmount vm |}.
Definition set_numOps (v : Z) (vm : Engine) : Engine :=
  {| scripts := scripts vm; scriptIdx := scriptIdx vm; scriptOff := scriptOff vm;
     lastCodeSep := lastCodeSep vm; dstack := dstack vm; astack := astack vm; vm_tx := vm_tx vm;
     vm_txIdx := vm_txIdx vm; condStack := condStack vm; numOps := v; vm_flags := vm_flags vm;
     sigCache := sigCache vm; hashCache := hashCache vm; bip16 := bip16 vm;
     savedFirstStack := savedFirstStack vm; witnessVersion := witnessVersion vm;
     witnessProgram := witnessProgram vm; inputAmount := inputAmount vm |}.
Definition set_sigCache (v : option SigCache) (vm : Engine) : Engine :=
  {| scripts := scripts vm; scriptIdx := scriptIdx vm; scriptOff := scriptOff vm;
     lastCodeSep := lastCodeSep vm; dstack := dstack vm; astack := astack vm; vm_tx := vm_tx vm;
     vm_txIdx := vm_txIdx vm; condStack := condStack vm; numOps := numOps vm; vm_flags := vm_flags vm;
     sigCache := v; hashCache := hashCache vm; bip16 := bip16 vm; savedFirstStack := savedFirstStack vm;
     witnessVersion := witnessVersion vm; witnessProgram := witnessProgram vm; inputAmount := inputAmount vm |}.
Definition set_savedFirstStack (v : list bytes) (vm : Engine) : Engine :=
  {| scripts := scripts vm; scriptIdx := scriptIdx vm; scriptOff := scriptOff vm;
     lastCodeSep := lastCodeSep vm; dstack := dstack vm; astack := astack vm; vm_tx := vm_tx vm;
     vm_txIdx := vm_txIdx vm; condStack := condStack vm; numOps := numOps vm; vm_flags := vm_flags vm;
     sigCache := sigCache vm; hashCache := hashCache vm; bip16 := bip16 vm; savedFirstStack := v;
     witnessVersion := witnessVersion vm; witnessProgram := witnessProgram vm; inputAmount := inputAmount vm |}.
Definition set_witnessProgram (v : option bytes) (vm : Engine) : Engine :=
  {| scripts := scripts vm; scriptIdx := scriptIdx vm; scriptOff := scriptOff vm;
     lastCodeSep := lastCodeSep vm; dstack := dstack vm; astack := astack vm; vm_tx := vm_tx vm;
     vm_txIdx := vm_txIdx vm; condStack := condStack vm; numOps := numOps vm; vm_flags := vm_flags vm;
     sigCache := sigCache vm; hashCache := hashCache vm; bip16 := bip16 vm;
     savedFirstStack := savedFirstStack vm; witnessVersion := witnessVersion vm; witnessProgram := v;
     inputAmount := inputAmount vm |}.

Definition hasFlag (vm : Engine) (flag : Z) : bool := Z.land (vm_flags vm) flag =? flag.

Definition isBranchExecuting (vm : Engine) : bool :=
  match condStack vm with [] => true | c :: _ => bool_decide (c = OpCondTrue) end.

(** [isWitnessVersionActive(0)], the only version the code asks about. *)
Definition isWitnessVersionActive (vm : Engine) (version : Z) : bool :=
  match witnessProgram vm with Some _ => uwrap 64 (witnessVersion vm) =? version | None => false end.

(** The input that is verified: [vm.tx.TxIn[vm.txIdx]]. *)
Definition cur_input (vm : Engine) : outcome TxIn :=
  if vm_txIdx vm <? 0 then Panic
  else match Tx_TxIn (vm_tx vm) !! Z.to_nat (vm_txIdx vm) with Some ti => Ok ti | None => Panic end.

(** Calls of methods of the data stack. *)
Definition on_dstack (f : stack -> outcome stack) (vm : Engine) : outcome Engine :=
  s ← f (dstack vm); Ok (set_dstack s vm).
Definition push_bytes (so : bytes) (vm : Engine) : Engine := set_dstack (PushByteArray so (dstack vm)) vm.
Definition push_bool (b : bool) (vm : Engine) : Engine := set_dstack (PushBool b (dstack vm)) vm.
Definition push_int (n : Z) (vm : Engine) : outcome Engine := on_dstack (PushInt n) vm.
Definition pop_bytes (vm : Engine) : outcome (bytes * Engine) :=
  '(so, s) ← PopByteArray (dstack vm); Ok (so, set_dstack s vm).
Definition pop_int (vm : Engine) : outcome (Z * Engine) :=
  '(n, s) ← PopInt (dstack vm); Ok (n, set_dstack s vm).
Definition pop_bool (vm : Engine) : outcome (bool * Engine) :=
  '(b, s) ← PopBool (dstack vm); Ok (b, set_dstack s vm).

(** * Encodings of keys and signatures *)

Definition checkHashTypeEncoding (vm : Engine) (hashType : Z) : outcome unit :=
  if negb (hasFlag vm ScriptVerifyStrictEncoding) then Ok ()
  else
  let sigHashType := Z.ldiff hashType SigHashAnyOneCanPay in
  if (sigHashType <? SigHashAll) || (SigHashSingle <? sigHashType) then scriptError "ErrInvalidSigHashType"
  else Ok ().

Definition checkPubKeyEncoding (vm : Engine) (pubKey : bytes) : outcome unit :=
  if hasFlag vm ScriptVerifyWitnessPubKeyType && isWitnessVersionActive vm 0 && negb (IsCompressedPubKey pubKey)
  then scriptError "ErrWitnessPubKeyType"
  else if negb (hasFlag vm ScriptVerifyStrictEncoding) then Ok ()
  else if (len pubKey =? 33) && ((at_ pubKey 0 =? 0x02) || (at_ pubKey 0 =? 0x03)) then Ok ()
  else if (len pubKey =? 65) && (at_ pubKey 0 =? 0x04) then Ok ()
  else scriptError "ErrPubKeyType".

Definition minSigLen : Z := 8.
Definition maxSigLen : Z := 72.

(** The offsets are checked against the length before they are used, so no index is out
    of range. *)
Definition checkSignatureEncoding (vm : Engine) (sig : bytes) : outcome unit :=
  if negb (hasFlag vm ScriptVerifyDERSignatures) && negb (hasFlag vm ScriptVerifyLowS) &&
     negb (hasFlag vm ScriptVerifyStrictEncoding) then Ok ()
  else
  let sigLen := len sig in
  if sigLen <? minSigLen then scriptError "ErrSigTooShort"
  else if maxSigLen <? sigLen then scriptError "ErrSigTooLong"
  else if negb (at_ sig 0 =? 0x30) then scriptError "ErrSigInvalidSeqID"
  else if negb (at_ sig 1 =? sigLen - 2) then scriptError "ErrSigInvalidDataLen"
  else
  let rLen := at_ sig 3 in
  let rOffset := 4 in
  let sTypeOffset := rOffset + rLen in
  let sLenOffset := sTypeOffset + 1 in
  if sigLen <=? sTypeOffset then scriptError "ErrSigMissingSTypeID"
  else if sigLen <=? sLenOffset then scriptError "ErrSigMissingSLen"
  else
  let sOffset := sLenOffset + 1 in
  let sLen := at_ sig sLenOffset in
  if negb (sOffset + sLen =? sigLen) then scriptError "ErrSigInvalidSLen"
  else if negb (at_ sig 2 =? 0x02) then scriptError "ErrSigInvalidRIntID"
  else if rLen =? 0 then scriptError "ErrSigZeroRLen"
  else if negb (Z.land (at_ sig rOffset) 0x80 =? 0) then scriptError "ErrSigNegativeR"
  else if (1 <? rLen) && (at_ sig rOffset =? 0x00) && (Z.land (at_ sig (rOffset + 1)) 0x80 =? 0)
  then scriptError "ErrSigTooMuchRPadding"
  else if negb (at_ sig sTypeOffset =? 0x02) then scriptError "ErrSigInvalidSIntID"
  else if sLen =? 0 then scriptError "ErrSigZeroSLen"
  else if negb (Z.land (at_ sig sOffset) 0x80 =? 0) then scriptError "ErrSigNegativeS"
  else if (1 <? sLen) && (at_ sig sOffset =? 0x00) && (Z.land (at_ sig (sOffset + 1)) 0x80 =? 0)
  then scriptError "ErrSigTooMuchSPadding"
  else if hasFlag vm ScriptVerifyLowS &&
          (halfOrder <? big_SetBytes (take (Z.to_nat sLen) (drop (Z.to_nat sOffset) sig)))
  then scriptError "ErrSigHighS"
  else Ok ().

(** * Handlers: constants and control *)

Definition handler : Type := parsedOpcode -> Engine -> outcome Engine.

Definition opcodeDisabled : handler := fun _ _ => scriptError "ErrDisabledOpcode".
Definition opcodeReserved : handler := fun _ _ => scriptError "ErrReservedOpcode".
Definition opcodeInvalid : handler := fun _ _ => scriptError "ErrReservedOpcode".
Definition opcodeFalse : handler := fun _ vm => Ok (push_bytes [] vm).
Definition opcodePushData : handler := fun op vm => Ok (push_bytes (data op) vm).
Definition opcode1Negate : handler := fun _ vm => push_int (-1) vm.
Definition opcodeN : handler := fun op vm => push_int (uwrap 8 (opcode op - (OP_1 - 1))) vm.
Definition opcodeInputAge : handler := fun _ vm => ti ← cur_input vm; push_int (Age ti) vm.

Definition opcodeNop : handler := fun op vm =>
  if one_of (opcode op) [OP_NOP1; OP_NOP5; OP_NOP6; OP_NOP7; OP_NOP8; OP_NOP9; OP_NOP10] &&
     hasFlag vm ScriptDiscourageUpgradableNops
  then scriptError "ErrDiscourageUpgradableNOPs" else Ok vm.

Definition popIfBool (vm : Engine) : outcome (bool * Engine) :=
  if negb (isWitnessVersionActive vm 0) || negb (hasFlag vm ScriptVerifyMinimalIf) then pop_bool vm
  else
  '(so, vm) ← pop_bytes vm;
  if 1 <? len so then scriptError "ErrMinimalIf"
  else if (len so =? 1) && negb (at_ so 0 =? 0x01) then scriptError "ErrMinimalIf"
  else Ok (asBool so, vm).

Definition opcodeIf : handler := fun _ vm =>
  '(condVal, vm) ←
    (if isBranchExecuting vm then
       '(ok, vm) ← popIfBool vm; Ok (if ok : bool then OpCondTrue else OpCondFalse, vm)
     else Ok (OpCondSkip, vm));
  Ok (set_condStack (condVal :: condStack vm) vm).

Definition opcodeNotIf : handler := fun _ vm =>
  '(condVal, vm) ←
    (if isBranchExecuting vm then
       '(ok, vm) ← popIfBool vm; Ok (if negb ok then OpCondTrue else OpCondFalse, vm)
     else Ok (OpCondSkip, vm));
  Ok (set_condStack (condVal :: condStack vm) vm).

Definition opcodeElse : handler := fun _ vm =>
  match condStack vm with
  | [] => scriptError "ErrUnbalancedConditional"
  | OpCondTrue :: l => Ok (set_condStack (OpCondFalse :: l) vm)
  | OpCondFalse :: l => Ok (set_condStack (OpCondTrue :: l) vm)
  | OpCondSkip :: _ => Ok vm
  end.

Definition opcodeEndif : handler := fun _ vm =>
  match condStack vm with
  | [] => scriptError "ErrUnbalancedConditional"
  | _ :: l => Ok (set_condStack l vm)
  end.

Definition abstractVerify (c : string) (vm : Engine) : outcome Engine :=
  '(verified, vm) ← pop_bool vm;
  if negb verified then scriptError c else Ok vm.

Definition opcodeVerify : handler := fun _ => abstractVerify "ErrVerify".
Definition opcodeReturn : handler := fun _ _ => scriptError "ErrEarlyReturn".

Definition verifyLockTime (txLockTime threshold lockTime : Z) : outcome unit :=
  if negb (((txLockTime <? threshold) && (lockTime <? threshold)) ||
           ((threshold <=? txLockTime) && (threshold <=? lockTime)))
  then scriptError "ErrUnsatisfiedLockTime"
  else if txLockTime <? lockTime then scriptError "ErrUnsatisfiedLockTime"
  else Ok ().

Definition opcodeCheckLockTimeVerify : handler := fun _ vm =>
  if negb (hasFlag vm ScriptVerifyCheckLockTimeVerify) then
    if hasFlag vm ScriptDiscourageUpgradableNops then scriptError "ErrDiscourageUpgradableNOPs" else Ok vm
  else
  so ← PeekByteArray 0 (dstack vm);
  lockTime ← makeScriptNum so (verifyMinimalData (dstack vm)) 5;
  if lockTime <? 0 then scriptError "ErrNegativeLockTime"
  else
  _ ← verifyLockTime (LockTime (vm_tx vm)) LockTimeThreshold lockTime;
  ti ← cur_input vm;
  if Sequence ti =? MaxTxInSequenceNum then scriptError "ErrUnsatisfiedLockTime" else Ok vm.

Definition opcodeCheckSequenceVerify : handler := fun _ vm =>
  if negb (hasFlag vm ScriptVerifyCheckSequenceVerify) then
    if hasFlag vm ScriptDiscourageUpgradableNops then scriptError "ErrDiscourageUpgradableNOPs" else Ok vm
  else
  so ← PeekByteArray 0 (dstack vm);
  sequence ← makeScriptNum so (verifyMinimalData (dstack vm)) 5;
  if sequence <? 0 then scriptError "ErrNegativeLockTime"
  else if negb (Z.land sequence SequenceLockTimeDisabled =? 0) then Ok vm
  else if negb (Version (vm_tx vm) =? TxVerTimeLock) then scriptError "ErrUnsatisfiedLockTime"
  else
  ti ← cur_input vm;
  let txSequence := Sequence ti in
  if negb (Z.land txSequence SequenceLockTimeDisabled =? 0) then scriptError "ErrUnsatisfiedLockTime"
  else
  let lockTimeMask := Z.lor SequenceLockTimeIsSeconds SequenceLockTimeMask in
  _ ← verifyLockTime (Z.land txSequence lockTimeMask) SequenceLockTimeIsSeconds (Z.land sequence lockTimeMask);
  Ok vm.

(** * Handlers: stacks *)

Definition opcodeToAltStack : handler := fun _ vm =>
  '(so, vm) ← pop_bytes vm; Ok (set_astack (PushByteArray so (astack vm)) vm).
Definition opcodeFromAltStack : handler := fun _ vm =>
  '(so, s) ← PopByteArray (astack vm); Ok (push_bytes so (set_astack s vm)).
Definition opcode2Drop : handler := fun _ => on_dstack (DropN 2).
Definition opcode2Dup : handler := fun _ => on_dstack (DupN 2).
Definition opcode3Dup : handler := fun _ => on_dstack (DupN 3).
Definition opcode2Over : handler := fun _ => on_dstack (OverN 2).
Definition opcode2Rot : handler := fun _ => on_dstack (RotN 2).
Definition opcode2Swap : handler := fun _ => on_dstack (SwapN 2).
Definition opcodeIfDup : handler := fun _ vm =>
  so ← PeekByteArray 0 (dstack vm);
  Ok (if asBool so then push_bytes so vm else vm).
Definition opcodeDepth : handler := fun _ vm => push_int (Depth (dstack vm)) vm.
Definition opcodeDrop : handler := fun _ => on_dstack (DropN 1).
Definition opcodeDup : handler := fun _ => on_dstack (DupN 1).
Definition opcodeNip : handler := fun _ => on_dstack (NipN 1).
Definition opcodeOver : handler := fun _ => on_dstack (OverN 1).
Definition opcodePick : handler := fun _ vm =>
  '(val, vm) ← pop_int vm; on_dstack (PickN (scriptNum_Int32 val)) vm.
Definition opcodeRoll : handler := fun _ vm =>
  '(val, vm) ← pop_int vm; on_dstack (RollN (scriptNum_Int32 val)) vm.
Definition opcodeRot : handler := fun _ => on_dstack (RotN 1).
Definition opcodeSwap : handler := fun _ => on_dstack (SwapN 1).
Definition opcodeTuck : handler := fun _ => on_dstack Tuck.
Definition opcodeSize : handler := fun _ vm =>
  so ← PeekByteArray 0 (dstack vm); push_int (len so) vm.
Definition opcodeEqual : handler := fun _ vm =>
  '(a, vm) ← pop_bytes vm;
  '(b, vm) ← pop_bytes vm;
  Ok (push_bool (bool_decide (a = b)) vm).
Definition opcodeEqualVerify : handler := fun op vm =>
  vm ← opcodeEqual op vm; abstractVerify "ErrEqualVerify" vm.

(** * Handlers: numbers

    A [scriptNum] is an [int64]. *)

Definition unary_op (f : Z -> Z) (vm : Engine) : outcome Engine :=
  '(m, vm) ← pop_int vm; push_int (f m) vm.
(** [v0] is the top item, [v1] the one below it. *)
Definition binary_op (f : Z -> Z -> Z) (vm : Engine) : outcome Engine :=
  '(v0, vm) ← pop_int vm; '(v1, vm) ← pop_int vm; push_int (f v0 v1) vm.
Definition num_of_bool (b : bool) : Z := if b then 1 else 0.

Definition opcode1Add : handler := fun _ => unary_op (fun m => swrap 64 (m + 1)).
Definition opcode1Sub : handler := fun _ => unary_op (fun m => swrap 64 (m - 1)).
Definition opcodeNegate : handler := fun _ => unary_op (fun m => swrap 64 (- m)).
Definition opcodeAbs : handler := fun _ => unary_op (fun m => if m <? 0 then swrap 64 (- m) else m).
Definition opcodeNot : handler := fun _ => unary_op (fun m => num_of_bool (m =? 0)).
Definition opcode0NotEqual : handler := fun _ => unary_op (fun m => if negb (m =? 0) then 1 else m).
Definition opcodeAdd : handler := fun _ => binary_op (fun v0 v1 => swrap 64 (v0 + v1)).
Definition opcodeSub : handler := fun _ => binary_op (fun v0 v1 => swrap 64 (v1 - v0)).
Definition opcodeBoolAnd : handler := fun _ =>
  binary_op (fun v0 v1 => num_of_bool (negb (v0 =? 0) && negb (v1 =? 0))).
Definition opcodeBoolOr : handler := fun _ =>
  binary_op (fun v0 v1 => num_of_bool (negb (v0 =? 0) || negb (v1 =? 0))).
Definition opcodeNumEqual : handler := fun _ => binary_op (fun v0 v1 => num_of_bool (v0 =? v1)).
Definition opcodeNumEqualVerify : handler := fun op vm =>
  vm ← opcodeNumEqual op vm; abstractVerify "ErrNumEqualVerify" vm.
Definition opcodeNumNotEqual : handler := fun _ => binary_op (fun v0 v1 => num_of_bool (negb (v0 =? v1))).
Definition opcodeLessThan : handler := fun _ => binary_op (fun v0 v1 => num_of_bool (v1 <? v0)).
Definition opcodeGreaterThan : handler := fun _ => binary_op (fun v0 v1 => num_of_bool (v0 <? v1)).
Definition opcodeLessThanOrEqual : handler := fun _ => binary_op (fun v0 v1 => num_of_bool (v1 <=? v0)).
Definition opcodeGreaterThanOrEqual : handler := fun _ => binary_op (fun v0 v1 => num_of_bool (v0 <=? v1)).
Definition opcodeMin : handler := fun _ => binary_op (fun v0 v1 => if v1 <? v0 then v1 else v0).
Definition opcodeMax : handler := fun _ => binary_op (fun v0 v1 => if v0 <? v1 then v1 else v0).
Definition opcodeWithin : handler := fun _ vm =>
  '(maxVal, vm) ← pop_int vm;
  '(minVal, vm) ← pop_int vm;
  '(x, vm) ← pop_int vm;
  push_int (num_of_bool ((minVal <=? x) && (x <? maxVal))) vm.

(** * Handlers: hashes and signatures *)

(** What the handlers use of packages outside of the repository: ripemd160 of
    golang.org/x/crypto, and the verification of crypto/ecdsa over the curve of btcec. *)
Class Crypto := {
  ripemd160_Sum : bytes -> bytes;
  ripemd160_size : forall b, len (ripemd160_Sum b) = 20;
  ecdsa_Verify : PublicKey -> bytes -> Z -> Z -> bool
}.

Section engine.
Context `{HashFunction} `{Crypto} `{MapOrder}.

Definition replace_top (f : bytes -> bytes) (vm : Engine) : outcome Engine :=
  '(buf, vm) ← pop_bytes vm; Ok (push_bytes (f buf) vm).
Definition Hash160 (buf : bytes) : bytes := ripemd160_Sum (sha256_Sum256 buf).

Definition opcodeRipemd160 : handler := fun _ => replace_top ripemd160_Sum.
Definition opcodeSha1 : handler := fun _ => replace_top sha1.
Definition opcodeSha256 : handler := fun _ => replace_top sha256_Sum256.
Definition opcodeHash160 : handler := fun _ => replace_top Hash160.
Definition opcodeHash256 : handler := fun _ => replace_top DoubleHashB.
Definition opcodeCodeSeparator : handler := fun _ vm => Ok (set_lastCodeSep (scriptOff vm) vm).

Definition subScript (vm : Engine) : outcome (list parsedOpcode) :=
  match scripts vm !! scriptIdx vm with
  | Some s => if Nat.ltb (length s) (lastCodeSep vm) then Panic else Ok (drop (lastCodeSep vm) s)
  | None => Panic
  end.

Definition Signature_Verify (sig : Signature) (hash : bytes) (pubKey : PublicKey) : bool :=
  ecdsa_Verify pubKey hash (sig_R sig) (sig_S sig).

(** [copy(sigHash[:], hashData)] *)
Definition sig_hash_key (hashData : bytes) : bytes := take 32 (hashData ++ replicate 32 Byte.x00).

(** The verification of both handlers, through the cache when there is one. *)
Definition verify_cached (hashData : bytes) (sig : Signature) (pubKey : PublicKey) (vm : Engine) : bool * Engine :=
  match sigCache vm with
  | Some c =>
      let sigHash := sig_hash_key hashData in
      if SigCache_Exists c sigHash sig pubKey then (true, vm)
      else if Signature_Verify sig hashData pubKey
      then (true, set_sigCache (Some (SigCache_Add c sigHash sig pubKey)) vm)
      else (false, vm)
  | None => (Signature_Verify sig hashData pubKey, vm)
  end.

(** The signature hash of both handlers. *)
Definition witness_hash (script : list parsedOpcode) (hashType : Z) (vm : Engine) : outcome bytes :=
  let sigHashes := match hashCache vm with Some h => h | None => NewTxSigHashes (vm_tx vm) end in
  calcWitnessSignatureHash script sigHashes hashType (vm_tx vm) (vm_txIdx vm) (inputAmount vm).

Definition parse_sig (vm : Engine) (sig : bytes) : outcome Signature :=
  if hasFlag vm ScriptVerifyStrictEncoding || hasFlag vm ScriptVerifyDERSignatures
  then ParseDERSignature sig else ParseSignature sig.

(** The hash type and the signature of a non-empty signature push. *)
Definition split_sig (fullSigBytes : bytes) : Z * bytes :=
  (at_ fullSigBytes (len fullSigBytes - 1), take (length fullSigBytes - 1) fullSigBytes).

Definition opcodeCheckSig : handler := fun _ vm =>
  '(pkBytes, vm) ← pop_bytes vm;
  '(fullSigBytes, vm) ← pop_bytes vm;
  if len fullSigBytes <? 1 then Ok (push_bool false vm)
  else
  let '(hashType, sigBytes) := split_sig fullSigBytes in
  _ ← checkHashTypeEncoding vm hashType;
  _ ← checkSignatureEncoding vm sigBytes;
  _ ← checkPubKeyEncoding vm pkBytes;
  script ← subScript vm;
  hashData ←
    (if isWitnessVersionActive vm 0 then witness_hash script hashType vm
     else Ok (calcSignatureHash (removeOpcodeByData script fullSigBytes) hashType (vm_tx vm) (vm_txIdx vm)));
  match ParsePubKey pkBytes with
  | Panic => Panic
  | Err _ => Ok (push_bool false vm)
  | Ok pubKey =>
      match parse_sig vm sigBytes with
      | Panic => Panic
      | Err _ => Ok (push_bool false vm)
      | Ok signature =>
          let '(valid, vm) := verify_cached hashData signature pubKey vm in
          if negb valid && hasFlag vm ScriptVerifyNullFail && (0 <? len sigBytes) then scriptError "ErrNullFail"
          else Ok (push_bool valid vm)
      end
  end.

Definition opcodeCheckSigVerify : handler := fun op vm =>
  vm ← opcodeCheckSig op vm; abstractVerify "ErrCheckSigVerify" vm.

(** [parsedSignature] is [nil] when the signature is not parsed or does not parse. *)
Record parsedSigInfo := { signature : bytes; parsedSignature : option Signature; parsed : bool }.

(** [for i := 0; i < n; i++ { x, err := vm.dstack.PopByteArray(); ... }] *)
Fixpoint pop_n (n : nat) (vm : Engine) : outcome (list bytes * Engine) :=
  match n with
  | O => Ok ([], vm)
  | S n => '(x, vm) ← pop_bytes vm; '(l, vm) ← pop_n n vm; Ok (x :: l, vm)
  end.

(** One turn of the loop over the public keys for the current signature: whether it is
    valid for the key, and what is known of the signature afterwards. *)
Definition multisig_turn (script : list parsedOpcode) (sigInfo : parsedSigInfo) (pubKey : bytes) (vm : Engine)
    : outcome (bool * parsedSigInfo * Engine) :=
  let rawSig := signature sigInfo in
  if len rawSig =? 0 then Ok (false, sigInfo, vm)
  else
  let '(hashType, sig) := split_sig rawSig in
  sigInfo ←
    (if negb (parsed sigInfo) then
       _ ← checkHashTypeEncoding vm hashType;
       _ ← checkSignatureEncoding vm sig;
       match parse_sig vm sig with
       | Panic => Panic
       | Err _ => Ok {| signature := rawSig; parsedSignature := None; parsed := true |}
       | Ok s => Ok {| signature := rawSig; parsedSignature := Some s; parsed := true |}
       end
     else Ok sigInfo);
  match parsedSignature sigInfo with
  | None => Ok (false, sigInfo, vm)
  | Some parsedSig =>
      _ ← checkPubKeyEncoding vm pubKey;
      match ParsePubKey pubKey with
      | Panic => Panic
      | Err _ => Ok (false, sigInfo, vm)
      | Ok parsedPubKey =>
          hashData ←
            (if isWitnessVersionActive vm 0 then witness_hash script hashType vm
             else Ok (calcSignatureHash script hashType (vm_tx vm) (vm_txIdx vm)));
          let '(valid, vm) := verify_cached hashData parsedSig parsedPubKey vm in
          Ok (valid, sigInfo, vm)
      end
  end.

(** The loop: [sigs] are the signatures from [signatureIdx] on, [pubKeys] the keys from
    [pubKeyIdx] on, their lengths are [numSignatures] and [numPubKeys]. *)
Fixpoint multisig_loop (script : list parsedOpcode) (sigs : list parsedSigInfo) (pubKeys : list bytes) (vm : Engine)
    : outcome (bool * Engine) :=
  match sigs with
  | [] => Ok (true, vm)
  | sigInfo :: rest =>
      if len pubKeys <? len sigs then Ok (false, vm)
      else
      match pubKeys with
      | [] => Panic
      | pubKey :: pubKeys =>
          '(valid, sigInfo, vm) ← multisig_turn script sigInfo pubKey vm;
          multisig_loop script (if valid : bool then rest else sigInfo :: rest) pubKeys vm
      end
  end.

Definition opcodeCheckMultiSig : handler := fun _ vm =>
  '(numKeys, vm) ← pop_int vm;
  let numPubKeys := scriptNum_Int32 numKeys in
  if numPubKeys <? 0 then scriptError "ErrInvalidPubKeyCount"
  else if MaxPubKeysPerMultiSig <? numPubKeys then scriptError "ErrInvalidPubKeyCount"
  else
  let vm := set_numOps (numOps vm + numPubKeys) vm in
  if MaxOpsPerScript <? numOps vm then scriptError "ErrTooManyOperations"
  else
  '(pubKeys, vm) ← pop_n (Z.to_nat numPubKeys) vm;
  '(numSigs, vm) ← pop_int vm;
  let numSignatures := scriptNum_Int32 numSigs in
  if numSignatures <? 0 then scriptError "ErrInvalidSignatureCount"
  else if numPubKeys <? numSignatures then scriptError "ErrInvalidSignatureCount"
  else
  '(signatures, vm) ← pop_n (Z.to_nat numSignatures) vm;
  '(dummy, vm) ← pop_bytes vm;
  if hasFlag vm ScriptStrictMultiSig && negb (len dummy =? 0) then scriptError "ErrSigNullDummy"
  else
  script ← subScript vm;
  let script := if isWitnessVersionActive vm 0 then script else fold_left removeOpcodeByData signatures script in
  let infos := map (fun s => {| signature := s; parsedSignature := None; parsed := false |}) signatures in
  '(success, vm) ← multisig_loop script infos pubKeys vm;
  if negb success && hasFlag vm ScriptVerifyNullFail && existsb (fun s => 0 <? len s) signatures
  then scriptError "ErrNullFail"
  else Ok (push_bool success vm).

Definition opcodeCheckMultiSigVerify : handler := fun op vm =>
  vm ← opcodeCheckMultiSig op vm; abstractVerify "ErrCheckMultiSigVerify" vm.

(** * The table of opcodes *)

(** The entries of [opcodeArray] with a handler of their own; the data pushes share
    [opcodePushData], the small integers [opcodeN], and the others are invalid. *)
Definition opcodeArray : list (Z * handler) :=
  [(OP_0, opcodeFalse); (OP_1NEGATE, opcode1Negate); (OP_RESERVED, opcodeReserved);
   (OP_NOP, opcodeNop); (OP_VER, opcodeReserved); (OP_IF, opcodeIf); (OP_NOTIF, opcodeNotIf);
   (OP_VERIF, opcodeReserved); (OP_VERNOTIF, opcodeReserved); (OP_ELSE, opcodeElse); (OP_ENDIF, opcodeEndif);
   (OP_VERIFY, opcodeVerify); (OP_RETURN, opcodeReturn);
   (OP_CHECKLOCKTIMEVERIFY, opcodeCheckLockTimeVerify); (OP_CHECKSEQUENCEVERIFY, opcodeCheckSequenceVerify);
   (OP_TOALTSTACK, opcodeToAltStack); (OP_FROMALTSTACK, opcodeFromAltStack); (OP_2DROP, opcode2Drop);
   (OP_2DUP, opcode2Dup); (OP_3DUP, opcode3Dup); (OP_2OVER, opcode2Over); (OP_2ROT, opcode2Rot);
   (OP_2SWAP, opcode2Swap); (OP_IFDUP, opcodeIfDup); (OP_DEPTH, opcodeDepth); (OP_DROP, opcodeDrop);
   (OP_DUP, opcodeDup); (OP_NIP, opcodeNip); (OP_OVER, opcodeOver); (OP_PICK, opcodePick); (OP_ROLL, opcodeRoll);
   (OP_ROT, opcodeRot); (OP_SWAP, opcodeSwap); (OP_TUCK, opcodeTuck);
   (OP_CAT, opcodeDisabled); (OP_SUBSTR, opcodeDisabled); (OP_LEFT, opcodeDisabled); (OP_RIGHT, opcodeDisabled);
   (OP_SIZE, opcodeSize); (OP_INVERT, opcodeDisabled); (OP_AND, opcodeDisabled); (OP_OR, opcodeDisabled);
   (OP_XOR, opcodeDisabled); (OP_EQUAL, opcodeEqual); (OP_EQUALVERIFY, opcodeEqualVerify);
   (OP_RESERVED1, opcodeReserved); (OP_RESERVED2, opcodeReserved);
   (OP_1ADD, opcode1Add); (OP_1SUB, opcode1Sub); (OP_2MUL, opcodeDisabled); (OP_2DIV, opcodeDisabled);
   (OP_NEGATE, opcodeNegate); (OP_ABS, opcodeAbs); (OP_NOT, opcodeNot); (OP_0NOTEQUAL, opcode0NotEqual);
   (OP_ADD, opcodeAdd); (OP_SUB, opcodeSub); (OP_MUL, opcodeDisabled); (OP_DIV, opcodeDisabled);
   (OP_MOD, opcodeDisabled); (OP_LSHIFT, opcodeDisabled); (OP_RSHIFT, opcodeDisabled);
   (OP_BOOLAND, opcodeBoolAnd); (OP_BOOLOR, opcodeBoolOr); (OP_NUMEQUAL, opcodeNumEqual);
   (OP_NUMEQUALVERIFY, opcodeNumEqualVerify); (OP_NUMNOTEQUAL, opcodeNumNotEqual);
   (OP_LESSTHAN, opcodeLessThan); (OP_GREATERTHAN, opcodeGreaterThan);
   (OP_LESSTHANOREQUAL, opcodeLessThanOrEqual); (OP_GREATERTHANOREQUAL, opcodeGreaterThanOrEqual);
   (OP_MIN, opcodeMin); (OP_MAX, opcodeMax); (OP_WITHIN, opcodeWithin);
   (OP_RIPEMD160, opcodeRipemd160); (OP_SHA1, opcodeSha1); (OP_SHA256, opcodeSha256); (OP_HASH160, opcodeHash160);
   (OP_HASH256, opcodeHash256); (OP_CODESEPARATOR, opcodeCodeSeparator); (OP_CHECKSIG, opcodeCheckSig);
   (OP_CHECKSIGVERIFY, opcodeCheckSigVerify); (OP_CHECKMULTISIG, opcodeCheckMultiSig);
   (OP_CHECKMULTISIGVERIFY, opcodeCheckMultiSigVerify); (OP_INPUTAGE, opcodeInputAge);
   (OP_NOP1, opcodeNop); (OP_NOP5, opcodeNop); (OP_NOP6, opcodeNop); (OP_NOP7, opcodeNop); (OP_NOP8, opcodeNop);
   (OP_NOP9, opcodeNop); (OP_NOP10, opcodeNop)].

Fixpoint lookup_op (value : Z) (table : list (Z * handler)) : handler :=
  match table with
  | [] => opcodeInvalid
  | (v, h) :: table => if value =? v then h else lookup_op value table
  end.

Definition opfunc (value : Z) : handler :=
  if (OP_DATA_1 <=? value) && (value <=? OP_PUSHDATA4) then opcodePushData
  else if (OP_1 <=? value) && (value <=? OP_16) then opcodeN
  else lookup_op value opcodeArray.

(** * Execution *)

Definition executeOpcode (pop : parsedOpcode) (vm : Engine) : outcome Engine :=
  if isDisabled pop then scriptError "ErrDisabledOpcode"
  else if alwaysIllegal pop then scriptError "ErrReservedOpcode"
  else
  vm ←
    (if OP_16 <? opcode pop then
       let vm := set_numOps (numOps vm + 1) vm in
       if MaxOpsPerScript <? numOps vm then scriptError "ErrTooManyOperations" else Ok vm
     else if MaxScriptElementSize <? len (data pop) then scriptError "ErrElementTooBig"
     else Ok vm);
  if negb (isBranchExecuting vm) && negb (isConditional pop) then Ok vm
  else
  _ ← (if verifyMinimalData (dstack vm) && isBranchExecuting vm && (opcode pop <=? OP_PUSHDATA4)
       then checkMinimalDataPush pop else Ok ());
  opfunc (opcode pop) pop vm.

Definition cur_script (vm : Engine) : list parsedOpcode := default [] (scripts vm !! scriptIdx vm).

Definition validPC (vm : Engine) : outcome unit :=
  if Nat.leb (length (scripts vm)) (scriptIdx vm) then scriptError "ErrInvalidProgramCounter"
  else if Nat.leb (length (cur_script vm)) (scriptOff vm) then scriptError "ErrInvalidProgramCounter"
  else Ok ().

Definition CheckErrorCondition (finalScript : bool) (vm : Engine) : outcome Engine :=
  if Nat.ltb (scriptIdx vm) (length (scripts vm)) then scriptError "ErrScriptUnfinished"
  else if finalScript && isWitnessVersionActive vm 0 && negb (Depth (dstack vm) =? 1) then scriptError "ErrEvalFalse"
  else if finalScript && hasFlag vm ScriptVerifyCleanStack && negb (Depth (dstack vm) =? 1)
  then scriptError "ErrCleanStack"
  else if Depth (dstack vm) <? 1 then scriptError "ErrEmptyStack"
  else
  '(v, vm) ← pop_bool vm;
  if negb v then scriptError "ErrEvalFalse" else Ok vm.

(** [vm.scripts = append(vm.scripts, pops); vm.SetStack(l)] *)
Definition continue_with (pops : list parsedOpcode) (l : list bytes) (vm : Engine) : Engine :=
  set_dstack (setStack (dstack vm) l) (set_scripts (scripts vm ++ [pops]) vm).

Definition verifyWitnessProgram (witness : list bytes) (vm : Engine) : outcome Engine :=
  vm ←
    (match witnessProgram vm with
     | Some program =>
         if isWitnessVersionActive vm 0 then
           if len program =? payToWitnessPubKeyHashDataSize then
             if negb (len witness =? 2) then scriptError "ErrWitnessProgramMismatch"
             else
             pkScript ← payToPubKeyHashScript program;
             pops ← parseScript pkScript;
             Ok (continue_with pops witness vm)
           else if len program =? payToWitnessScriptHashDataSize then
             if len witness =? 0 then scriptError "ErrWitnessProgramEmpty"
             else
             let witnessScript := List.last witness [] in
             if MaxScriptSize <? len witnessScript then scriptError "ErrScriptTooBig"
             else if negb (bool_decide (sha256_Sum256 witnessScript = program))
             then scriptError "ErrWitnessProgramMismatch"
             else
             pops ← parseScript witnessScript;
             Ok (continue_with pops (take (length witness - 1) witness) vm)
           else scriptError "ErrWitnessProgramWrongLength"
         else if hasFlag vm ScriptVerifyDiscourageUpgradeableWitnessProgram
         then scriptError "ErrDiscourageUpgradableWitnessProgram"
         else Ok (set_witnessProgram None vm)
     | None =>
         if hasFlag vm ScriptVerifyDiscourageUpgradeableWitnessProgram
         then scriptError "ErrDiscourageUpgradableWitnessProgram"
         else Ok (set_witnessProgram None vm)
     end);
  if isWitnessVersionActive vm 0 &&
     existsb (fun witElement => MaxScriptElementSize <? len witElement) (getStack (dstack vm))
  then scriptError "ErrElementTooBig"
  else Ok vm.

(** The end of a script: which script is next.  The error of [DropN] on an empty
    alternate stack is dropped. *)
Definition next_script (vm : Engine) : outcome Engine :=
  let vm := set_astack (match DropN (Depth (astack vm)) (astack vm) with Ok s => s | _ => astack vm end) vm in
  let vm := set_scriptOff 0 (set_numOps 0 vm) in
  let is_witness := bool_decide (witnessProgram vm <> None) in
  let idx := scriptIdx vm in
  let vm' := set_scriptIdx (S idx) vm in
  if Nat.eqb idx 0 && bip16 vm then Ok (set_savedFirstStack (getStack (dstack vm')) vm')
  else if Nat.eqb idx 1 && bip16 vm then
    vm' ← CheckErrorCondition false vm';
    match last (savedFirstStack vm') with
    | None => Panic
    | Some script =>
        pops ← parseScript script;
        Ok (continue_with pops (take (length (savedFirstStack vm') - 1) (savedFirstStack vm')) vm')
    end
  else if (Nat.eqb idx 1 && is_witness) || (Nat.eqb idx 2 && is_witness && bip16 vm) then
    ti ← cur_input vm';
    verifyWitnessProgram (wit_items (Witness ti)) vm'
  else Ok vm'.

Definition Step (vm : Engine) : outcome (bool * Engine) :=
  _ ← validPC vm;
  match cur_script vm !! scriptOff vm with
  | None => Panic
  | Some pop =>
      let vm := set_scriptOff (S (scriptOff vm)) vm in
      vm ← executeOpcode pop vm;
      if MaxStackSize <? Depth (dstack vm) + Depth (astack vm) then scriptError "ErrStackOverflow"
      else if Nat.leb (length (cur_script vm)) (scriptOff vm) then
        if negb (len (condStack vm) =? 0) then scriptError "ErrUnbalancedConditional"
        else
        vm ← next_script vm;
        let vm := if Nat.ltb (scriptIdx vm) (length (scripts vm)) &&
                     Nat.leb (length (cur_script vm)) (scriptOff vm)
                  then set_scriptIdx (S (scriptIdx vm)) vm else vm in
        let vm := set_lastCodeSep 0 vm in
        Ok (Nat.leb (length (scripts vm)) (scriptIdx vm), vm)
      else Ok (false, vm)
  end.

(** The loop of [Execute]; [None] when the fuel runs out first. *)
Fixpoint Execute (fuel : nat) (vm : Engine) : option (outcome Engine) :=
  match fuel with
  | O => None
  | S fuel =>
      match Step vm with
      | Panic => Some Panic
      | Err e => Some (Err e)
      | Ok (true, vm) => Some (CheckErrorCondition true vm)
      | Ok (false, vm) => Execute fuel vm
      end
  end.

Definition empty_stack (verifyMinimalData : bool) : stack := {| stk := []; verifyMinimalData := verifyMinimalData |}.

(** The witness program of a new engine, and its version. *)
Definition init_witness (scriptSig scriptPubKey : bytes) (sigPops pkPops : list parsedOpcode) (witness : list bytes)
    (bip16 : bool) : outcome (option (Z * bytes)) :=
  if isWitnessProgram pkPops || isHTLCWitnessScript pkPops then
    if negb (len scriptSig =? 0) then scriptError "ErrWitnessMalleated"
    else p ← ExtractWitnessProgramInfo scriptPubKey; Ok (Some p)
  else if negb (len witness =? 0) && bip16 then
    match sigPops with
    | [pop] =>
        if canonicalPush pop && IsWitnessProgram (data pop)
        then p ← ExtractWitnessProgramInfo (data pop); Ok (Some p)
        else scriptError "ErrWitnessMalleatedP2SH"
    | _ => scriptError "ErrWitnessMalleatedP2SH"
    end
  else if negb (len witness =? 0) then scriptError "ErrWitnessUnexpected"
  else Ok None.

Definition parse_limited (scr : bytes) : outcome (list parsedOpcode) :=
  if MaxScriptSize <? len scr then scriptError "ErrScriptTooBig" else parseScript scr.

Definition NewEngine (scriptPubKey : bytes) (tx : MsgTx) (txIdx flags : Z) (sigCache : option SigCache)
    (hashCache : option TxSigHashes) (inputAmount : Z) : outcome Engine :=
  if (txIdx <? 0) || (len (Tx_TxIn tx) <=? txIdx) then scriptError "ErrInvalidIndex"
  else
  let ti := nth (Z.to_nat txIdx) (Tx_TxIn tx) default_txin in
  let scriptSig := SignatureScript ti in
  let has flag := Z.land flags flag =? flag in
  if (len scriptSig =? 0) && (len scriptPubKey =? 0) then scriptError "ErrEvalFalse"
  else if has ScriptVerifyCleanStack && (negb (has ScriptBip16) && negb (has ScriptVerifyWitness))
  then scriptError "ErrInvalidFlags"
  else if has ScriptVerifySigPushOnly && negb (IsPushOnlyScript scriptSig) then scriptError "ErrNotPushOnly"
  else
  sigPops ← parse_limited scriptSig;
  pkPops ← parse_limited scriptPubKey;
  let bip16 := has ScriptBip16 && (isScriptHash pkPops || isHTLCWithScriptHash pkPops) in
  if bip16 && negb (isPushOnly sigPops) then scriptError "ErrNotPushOnly"
  else
  w ← (if has ScriptVerifyWitness then
         if negb (has ScriptBip16) then scriptError "ErrInvalidFlags"
         else init_witness scriptSig scriptPubKey sigPops pkPops (wit_items (Witness ti)) bip16
       else Ok None);
  let minimal := has ScriptVerifyMinimalData in
  Ok {| scripts := [sigPops; pkPops]; scriptIdx := if len scriptSig =? 0 then 1 else 0; scriptOff := 0;
        lastCodeSep := 0; dstack := empty_stack minimal; astack := empty_stack minimal; vm_tx := tx; vm_txIdx := txIdx;
        condStack := []; numOps := 0; vm_flags := flags; sigCache := sigCache; hashCache := hashCache;
        bip16 := bip16; savedFirstStack := []; witnessVersion := match w with Some (v, _) => v | None => 0 end;
        witnessProgram := match w with Some (_, p) => Some p | None => None end; inputAmount := inputAmount |}.
End engine.
