(* ===== verification/EngineFacts.v ===== *)
(** Correctness of the model of txscript/engine.go: the invariant of the states the engine
    goes through, the termination of [Execute], and the absence of panics. *)

From S2P Require Import Prelude Big ScriptNum Stack Opcode Script WireEncoding WireTx Chainhash SigHash PubKey Signature SigCache Sha1 Engine.

#[local] Open Scope nat_scope.
#[local] Open Scope Z_scope.

(** * Outcomes and postconditions

    [post Q o]: the call does not panic, and [Q] holds of the value it returns if it does
    not return an error. *)

Definition post {A} (Q : A -> Prop) (o : outcome A) : Prop :=
  match o with Ok a => Q a | Err _ => True | Panic => False end.

Lemma post_bind {A B} (P : A -> Prop) (Q : B -> Prop) (m : outcome A) (f : A -> outcome B) :
  post P m -> (forall a, P a -> post Q (f a)) -> post Q (m ≫= f).
Proof. destruct m; cbn; auto. Qed.

Lemma post_weaken {A} (P Q : A -> Prop) (m : outcome A) : post P m -> (forall a, P a -> Q a) -> post Q m.
Proof. destruct m; cbn; auto. Qed.

Lemma post_error {A} (Q : A -> Prop) c : post Q (scriptError c).
Proof. done. Qed.

Lemma post_if {A} (Q : A -> Prop) (b : bool) (m1 m2 : outcome A) :
  (b = true -> post Q m1) -> (b = false -> post Q m2) -> post Q (if b then m1 else m2).
Proof. destruct b; auto. Qed.

Create HintDb engine.
#[export] Hint Resolve post_error : engine.

(** * Sizes *)

(** The items of a stack are at most [MaxScriptElementSize] bytes long. *)
Definition small (b : bytes) : Prop := len b <= MaxScriptElementSize.
Definition small_stack (s : stack) : Prop := Forall small (stk s).

(** The range of the numbers the handlers push, and of those they read. *)
Definition num_ok (n : Z) : Prop := Z.abs n < 2 ^ 40.

Lemma scriptNum_Bytes_small n : Z.abs n < 2 ^ 63 -> post small (scriptNum_Bytes n).
Proof.
  intros Hn. destruct (scriptNum_Bytes_spec n) as (v & -> & Hm & Hv); [unfold is_int; lia|lia|].
  unfold post, small, MaxScriptElementSize. assert (len v <= 8); [|lia].
  apply (minimal_len v 8 Hm); [lia|]. rewrite Hv. lia.
Qed.

Lemma makeScriptNum_range v m L : 1 <= L <= 5 -> post num_ok (makeScriptNum v m L).
Proof.
  intros HL. destruct (Z.leb_spec (len v) L) as [Hl|Hl].
  2: { unfold makeScriptNum. by rewrite (proj2 (Z.ltb_lt L (len v))). }
  assert (Hc : (m = false \/ minimal v) \/ (m = true /\ exists e, checkMinimalDataEncoding v = Err e)).
  { destruct m; [|tauto]. unfold minimal. destruct (checkMinimalDataEncoding v) as [[]|e|] eqn:E; [tauto|right; eauto|].
    revert E. unfold checkMinimalDataEncoding, scriptError. repeat case_match; done. }
  destruct Hc as [Hm|[-> [e E]]].
  - rewrite (makeScriptNum_value v m L ltac:(lia) Hm). unfold post, num_ok. destruct v as [|b v]; [cbn; lia|].
    pose proof (num_value_range (b :: v) ltac:(done)) as Hr.
    assert (2 ^ (8 * len (b :: v) - 1) <= 2 ^ 40); [|lia]. apply Z.pow_le_mono_r; lia.
  - unfold makeScriptNum. rewrite (proj2 (Z.ltb_ge L (len v))) by lia. by rewrite E.
Qed.

Lemma Int32_range n : - 2 ^ 31 <= scriptNum_Int32 n < 2 ^ 31.
Proof. unfold scriptNum_Int32, maxInt32, minInt32. repeat case_match; lia. Qed.

(** * Frames *)

(** What no handler changes. *)
Record frame (vm vm' : Engine) : Prop := {
  frame_scripts : scripts vm' = scripts vm;
  frame_idx : scriptIdx vm' = scriptIdx vm;
  frame_off : scriptOff vm' = scriptOff vm;
  frame_tx : vm_tx vm' = vm_tx vm;
  frame_txIdx : vm_txIdx vm' = vm_txIdx vm;
  frame_flags : vm_flags vm' = vm_flags vm;
  frame_bip16 : bip16 vm' = bip16 vm;
  frame_saved : savedFirstStack vm' = savedFirstStack vm;
  frame_version : witnessVersion vm' = witnessVersion vm;
  frame_program : witnessProgram vm' = witnessProgram vm
}.

Lemma frame_refl vm : frame vm vm.
Proof. by split. Qed.

Lemma frame_trans vm1 vm2 vm3 : frame vm1 vm2 -> frame vm2 vm3 -> frame vm1 vm3.
Proof. intros [] []. split; congruence. Qed.

(** The values the input that is verified has in memory. *)
Definition input_ok (ti : TxIn) : Prop := is_int 32 (Age ti) /\ len (wit_items (Witness ti)) < 2 ^ 62.

(** What every handler keeps: small items, the limit on the number of operations, and a
    last separator before the program counter; the input that is verified exists. *)
Record inv (vm : Engine) : Prop := {
  inv_dstack : small_stack (dstack vm);
  inv_astack : small_stack (astack vm);
  inv_ops : 0 <= numOps vm <= MaxOpsPerScript;
  inv_sep : (lastCodeSep vm <= scriptOff vm)%nat;
  inv_off : (scriptOff vm <= length (cur_script vm))%nat;
  inv_idx : (scriptIdx vm < length (scripts vm))%nat;
  inv_input : post input_ok (cur_input vm)
}.

(** A state a handler that started in [vm0] is in. *)
Definition at_state (vm0 vm : Engine) : Prop := inv vm /\ frame vm0 vm.

Lemma at_state_refl vm : inv vm -> at_state vm vm.
Proof. intros Hi. split; [done|apply frame_refl]. Qed.

Lemma at_dstack vm0 vm s : at_state vm0 vm -> small_stack s -> at_state vm0 (set_dstack s vm).
Proof. intros [[] []] Hs. by split; split. Qed.

Lemma at_astack vm0 vm s : at_state vm0 vm -> small_stack s -> at_state vm0 (set_astack s vm).
Proof. intros [[] []] Hs. by split; split. Qed.

Lemma at_condStack vm0 vm l : at_state vm0 vm -> at_state vm0 (set_condStack l vm).
Proof. intros [[] []]. by split; split. Qed.

Lemma at_numOps vm0 vm n : at_state vm0 vm -> 0 <= n <= MaxOpsPerScript -> at_state vm0 (set_numOps n vm).
Proof. intros [[] []] [? ?]. by split; split. Qed.

Lemma at_sigCache vm0 vm c : at_state vm0 vm -> at_state vm0 (set_sigCache c vm).
Proof. intros [[] []]. by split; split. Qed.

Lemma at_sep vm0 vm : at_state vm0 vm -> at_state vm0 (set_lastCodeSep (scriptOff vm) vm).
Proof. intros [[] []]. by split; split. Qed.

#[export] Hint Resolve at_state_refl at_dstack at_astack at_condStack at_numOps at_sigCache at_sep : engine.

Lemma at_dstack_small vm0 vm : at_state vm0 vm -> small_stack (dstack vm).
Proof. by intros [[] _]. Qed.
Lemma at_astack_small vm0 vm : at_state vm0 vm -> small_stack (astack vm).
Proof. by intros [[] _]. Qed.
#[export] Hint Resolve at_dstack_small at_astack_small : engine.

(** * Stack operations keep the items small *)

Lemma small_push b s : small b -> small_stack s -> small_stack (PushByteArray b s).
Proof. intros Hb Hs. by constructor. Qed.
#[export] Hint Resolve small_push : engine.

Lemma small_bool b : small (fromBool b).
Proof. unfold small, MaxScriptElementSize. by destruct b; vm_compute. Qed.
Lemma small_nil : small [].
Proof. unfold small, MaxScriptElementSize. by vm_compute. Qed.
#[export] Hint Resolve small_bool small_nil : engine.

Lemma nipN_small i s : small_stack s -> post (fun '(b, s') => small b /\ small_stack s') (nipN i s).
Proof.
  intros Hs. destruct s as [l m]. rewrite nipN_spec. apply post_if; [|done].
  intros [Hi Hl]%andb_true_iff. apply Z.leb_le in Hi. apply Z.ltb_lt in Hl. unfold small_stack in *. cbn [stk] in *.
  destruct (lookup_lt_is_Some_2 l (Z.to_nat i)) as [b E]; [unfold len in Hl; lia|]. rewrite E.
  split; cbn [default stk]; [by eapply Forall_lookup_1|by apply Forall_delete].
Qed.

Lemma PeekByteArray_small i s : small_stack s -> post small (PeekByteArray i s).
Proof.
  intros Hs. destruct s as [l m]. rewrite PeekByteArray_spec. apply post_if; [|done].
  intros [Hi Hl]%andb_true_iff. apply Z.leb_le in Hi. apply Z.ltb_lt in Hl. unfold small_stack in *. cbn [stk] in *.
  destruct (lookup_lt_is_Some_2 l (Z.to_nat i)) as [b E]; [unfold len in Hl; lia|]. rewrite E.
  exact (proj1 (Forall_lookup _ _) Hs _ _ E).
Qed.

(** A method of the data stack that keeps the items small. *)
Definition keeps_small (f : stack -> outcome stack) : Prop := forall s, small_stack s -> post small_stack (f s).

Lemma PickN_small n : keeps_small (PickN n).
Proof.
  intros s Hs. unfold PickN. eapply post_bind; [by apply PeekByteArray_small|]. intros b Hb. by apply small_push.
Qed.

Lemma RollN_small n : keeps_small (RollN n).
Proof.
  intros s Hs. unfold RollN. eapply post_bind; [by apply nipN_small|]. intros [b s'] [Hb Hs']. by apply small_push.
Qed.

Lemma NipN_small n : keeps_small (NipN n).
Proof. intros s Hs. unfold NipN. eapply post_bind; [by apply nipN_small|]. by intros [b s'] [Hb Hs']. Qed.

Lemma times_small k f : keeps_small f -> keeps_small (times k f).
Proof.
  intros Hf. induction k as [|k IH]; intros s Hs; [done|]. cbn [times]. eapply post_bind; [by apply Hf|]. auto.
Qed.

Lemma if_small (b : bool) c f : keeps_small f -> keeps_small (fun s => if b then scriptError c else f s).
Proof. intros Hf s Hs. destruct b; [done|by apply Hf]. Qed.

Lemma DropN_small n : keeps_small (DropN n).
Proof.
  apply if_small, times_small. intros s Hs. eapply post_bind; [by apply nipN_small|]. by intros [b s'] [Hb Hs'].
Qed.
Lemma DupN_small n : keeps_small (DupN n).
Proof. apply if_small, times_small, PickN_small. Qed.
Lemma RotN_small n : keeps_small (RotN n).
Proof. apply if_small, times_small, RollN_small. Qed.
Lemma SwapN_small n : keeps_small (SwapN n).
Proof. apply if_small, times_small, RollN_small. Qed.
Lemma OverN_small n : keeps_small (OverN n).
Proof. apply if_small, times_small, PickN_small. Qed.

Lemma Tuck_small : keeps_small Tuck.
Proof.
  intros s Hs. unfold Tuck. eapply post_bind; [by apply nipN_small|]. intros [b2 s2] [Hb2 Hs2].
  eapply post_bind; [by apply nipN_small|]. intros [b1 s1] [Hb1 Hs1]. by repeat apply small_push.
Qed.

Lemma PushInt_small n : Z.abs n < 2 ^ 63 -> keeps_small (PushInt n).
Proof.
  intros Hn s Hs. unfold PushInt. eapply post_bind; [by apply scriptNum_Bytes_small|]. intros b Hb. by apply small_push.
Qed.

#[export] Hint Resolve PickN_small RollN_small NipN_small DropN_small DupN_small RotN_small SwapN_small OverN_small
  Tuck_small PushInt_small : engine.

(** * Handlers keep the invariant *)

Lemma on_dstack_ok f vm0 vm : keeps_small f -> at_state vm0 vm -> post (at_state vm0) (on_dstack f vm).
Proof.
  intros Hf Hvm. unfold on_dstack. eapply post_bind; [apply Hf; eauto with engine|]. intros s Hs. by apply at_dstack.
Qed.

Lemma pop_bytes_ok vm0 vm : at_state vm0 vm -> post (fun '(b, vm') => small b /\ at_state vm0 vm') (pop_bytes vm).
Proof.
  intros Hvm. unfold pop_bytes. eapply post_bind; [apply nipN_small; eauto with engine|].
  intros [b s] [Hb Hs]. split; [done|by apply at_dstack].
Qed.

Lemma pop_int_ok vm0 vm : at_state vm0 vm -> post (fun '(n, vm') => num_ok n /\ at_state vm0 vm') (pop_int vm).
Proof.
  intros Hvm. unfold pop_int, PopInt. eapply post_bind with (P := fun '(n, s) => num_ok n /\ small_stack s).
  - eapply post_bind; [apply nipN_small; eauto with engine|]. intros [b s] [Hb Hs].
    eapply post_bind; [apply makeScriptNum_range; unfold defaultScriptNumLen; lia|]. intros n Hn. done.
  - intros [n s] [Hn Hs]. split; [done|by apply at_dstack].
Qed.

Lemma pop_bool_ok vm0 vm : at_state vm0 vm -> post (fun '(b, vm') => at_state vm0 vm') (pop_bool vm).
Proof.
  intros Hvm. unfold pop_bool, PopBool. eapply post_bind with (P := fun '(b, s) => small_stack s).
  - eapply post_bind; [apply nipN_small; eauto with engine|]. by intros [b s] [Hb Hs].
  - intros [b s] Hs. by apply at_dstack.
Qed.

Lemma push_int_ok vm0 vm n : at_state vm0 vm -> Z.abs n < 2 ^ 63 -> post (at_state vm0) (push_int n vm).
Proof. intros Hvm Hn. apply on_dstack_ok; eauto with engine. Qed.

Lemma at_push_bytes vm0 vm b : at_state vm0 vm -> small b -> at_state vm0 (push_bytes b vm).
Proof. intros. apply at_dstack; eauto with engine. Qed.

Lemma at_push_bool vm0 vm b : at_state vm0 vm -> at_state vm0 (push_bool b vm).
Proof. intros. apply at_push_bytes; eauto with engine. Qed.

Lemma at_frame vm0 vm : at_state vm0 vm -> frame vm0 vm.
Proof. by intros []. Qed.

Lemma cur_input_ok vm0 vm : at_state vm0 vm -> post input_ok (cur_input vm).
Proof. by intros [[] _]. Qed.

#[export] Hint Resolve on_dstack_ok push_int_ok at_push_bytes at_push_bool : engine.

(** A call that reads the engine only. *)
Definition quiet {A} (m : outcome A) : Prop := post (fun _ => True) m.

Lemma checkHashTypeEncoding_quiet vm t : quiet (checkHashTypeEncoding vm t).
Proof. unfold checkHashTypeEncoding, quiet. repeat (apply post_if; intros _; [done|]); done. Qed.

Lemma checkPubKeyEncoding_quiet vm k : quiet (checkPubKeyEncoding vm k).
Proof. unfold checkPubKeyEncoding, quiet. repeat (apply post_if; intros _; [done|]); done. Qed.

Lemma checkSignatureEncoding_quiet vm s : quiet (checkSignatureEncoding vm s).
Proof. unfold checkSignatureEncoding, quiet. cbv zeta. repeat (apply post_if; intros _; [done|]); done. Qed.

Lemma verifyLockTime_quiet a b c : quiet (verifyLockTime a b c).
Proof. unfold verifyLockTime, quiet. repeat (apply post_if; intros _; [done|]); done. Qed.

Lemma checkMinimalDataPush_quiet op : quiet (checkMinimalDataPush op).
Proof. unfold checkMinimalDataPush, quiet. cbv zeta. repeat (apply post_if; intros _); try done; by destruct (_ =? _). Qed.

#[export] Hint Resolve checkHashTypeEncoding_quiet checkPubKeyEncoding_quiet checkSignatureEncoding_quiet
  verifyLockTime_quiet checkMinimalDataPush_quiet : engine.

Lemma post_quiet {A B} (Q : B -> Prop) (m : outcome A) (f : A -> outcome B) :
  quiet m -> (forall a, post Q (f a)) -> post Q (m ≫= f).
Proof. intros Hm Hf. by eapply post_bind; [apply Hm|auto]. Qed.

(** Symbolic execution of a handler: one call, test or result at a time. *)
Ltac engine_step :=
  lazymatch goal with
  | |- post _ (scriptError _) => apply post_error
  | |- post _ (Err _) => done
  | |- post _ (if _ then _ else _) => apply post_if; intro
  | |- post _ (pop_bytes _ ≫= _) => eapply post_bind; [eapply pop_bytes_ok; eauto with engine|]; intros [? ?] [? ?]
  | |- post _ (pop_int _ ≫= _) => eapply post_bind; [eapply pop_int_ok; eauto with engine|]; intros [? ?] [? ?]
  | |- post _ (pop_bool _ ≫= _) => eapply post_bind; [eapply pop_bool_ok; eauto with engine|]; intros [? ?] ?
  | |- post _ (cur_input _ ≫= _) => eapply post_bind; [eapply cur_input_ok; eauto with engine|]; intros ? ?
  | |- post _ (PeekByteArray _ _ ≫= _) =>
      eapply post_bind; [apply PeekByteArray_small; eauto with engine|]; intros ? ?
  | |- post _ (makeScriptNum _ _ _ ≫= _) => eapply post_bind; [apply makeScriptNum_range; lia|]; intros ? ?
  | |- post _ (?m ≫= _) => first [apply post_quiet; [solve [eauto with engine]|intros ?] | eapply post_bind; [solve [eauto with engine]|intros ? ?]]
  | |- post _ (Ok _) => cbn [post]; try solve [eauto with engine]
  | |- post _ _ => eauto with engine
  end; cbv beta iota zeta.
Ltac engine_run := cbv beta zeta; repeat engine_step; eauto with engine.

(** [h] runs from any state that satisfies the invariant without a panic, to a state that
    satisfies it. *)
Definition handler_ok (h : handler) : Prop := forall op vm,
  small (data op) -> inv vm -> Depth (dstack vm) < 2 ^ 62 -> post (at_state vm) (h op vm).

Lemma abstractVerify_ok c vm0 vm : at_state vm0 vm -> post (at_state vm0) (abstractVerify c vm).
Proof. intros. unfold abstractVerify. engine_run. Qed.
#[export] Hint Resolve abstractVerify_ok : engine.

Lemma unary_op_ok f vm0 vm :
  (forall m, num_ok m -> Z.abs (f m) < 2 ^ 63) -> at_state vm0 vm -> post (at_state vm0) (unary_op f vm).
Proof. intros. unfold unary_op. engine_run. Qed.

Lemma binary_op_ok f vm0 vm :
  (forall m n, num_ok m -> num_ok n -> Z.abs (f m n) < 2 ^ 63) -> at_state vm0 vm -> post (at_state vm0) (binary_op f vm).
Proof. intros. unfold binary_op. engine_run. Qed.

Lemma num_of_bool_range b : Z.abs (num_of_bool b) < 2 ^ 63.
Proof. destruct b; cbn; lia. Qed.
#[export] Hint Resolve num_of_bool_range unary_op_ok binary_op_ok : engine.

Lemma popIfBool_ok vm0 vm : at_state vm0 vm -> post (fun '(b, vm') => at_state vm0 vm') (popIfBool vm).
Proof. intros. unfold popIfBool. apply post_if; intro; [by apply pop_bool_ok|]. engine_run. Qed.

(** The results of the numeric opcodes on numbers that were read from the stack. *)
Ltac num_solve :=
  intros; unfold num_ok in *;
  repeat match goal with |- context [swrap 64 ?e] => rewrite (swrap_id 64 e) by (unfold is_int; lia) end;
  repeat case_match; lia.

Section handlers.
Context `{HashFunction} `{Crypto} `{MapOrder}.

Lemma replace_top_ok f vm0 vm :
  (forall b, small b -> small (f b)) -> at_state vm0 vm -> post (at_state vm0) (replace_top f vm).
Proof. intros. unfold replace_top. engine_run. Qed.

Lemma small_of_len n b : len b = n -> n <= 520 -> small b.
Proof. unfold small, MaxScriptElementSize. lia. Qed.

Lemma subScript_quiet vm0 vm : at_state vm0 vm -> quiet (subScript vm).
Proof.
  intros [[] _]. unfold subScript, quiet. unfold cur_script in *.
  destruct (lookup_lt_is_Some_2 (scripts vm) (scriptIdx vm)) as [s E]; [lia|]. rewrite E in *. cbn [default] in *.
  apply post_if; [|done]. intros Hlt%Nat.ltb_lt. cbn in *. lia.
Qed.

Lemma witness_hash_quiet script t vm : quiet (witness_hash script t vm).
Proof. unfold witness_hash, calcWitnessSignatureHash, quiet. by apply post_if. Qed.

Lemma sig_hash_quiet (b : bool) script script' t vm :
  quiet (if b then witness_hash script t vm else Ok (calcSignatureHash script' t (vm_tx vm) (vm_txIdx vm))).
Proof. apply post_if; intros _; [apply witness_hash_quiet|done]. Qed.

Lemma parse_no_panic_sig der s : parseSig s der <> Panic.
Proof. unfold parseSig, sig_error. repeat case_match; done. Qed.

Lemma parse_sig_quiet vm s : quiet (parse_sig vm s).
Proof.
  unfold parse_sig, ParseDERSignature, ParseSignature, quiet, post. pose proof (parse_no_panic_sig true s).
  pose proof (parse_no_panic_sig false s). destruct (_ || _); [destruct (parseSig s true)|destruct (parseSig s false)]; done.
Qed.

Lemma ParsePubKey_quiet s : quiet (ParsePubKey s).
Proof. unfold quiet, post. pose proof (parse_no_panic s). by destruct (ParsePubKey s). Qed.

(** A call whose error is a result: the signature or the key does not parse. *)
Lemma post_try {A B} (Q : B -> Prop) (m : outcome A) (k : A -> outcome B) (r : outcome B) :
  quiet m -> (forall a, post Q (k a)) -> post Q r ->
  post Q (match m with Ok a => k a | Err _ => r | Panic => Panic end).
Proof. destruct m; cbn; auto. Qed.

Lemma verify_cached_ok hashData sig pk vm0 vm b vm' :
  at_state vm0 vm -> verify_cached hashData sig pk vm = (b, vm') -> at_state vm0 vm'.
Proof. intros Hvm. unfold verify_cached. repeat case_match; intros [= <- <-]; eauto with engine. Qed.

#[local] Hint Resolve subScript_quiet sig_hash_quiet : engine.

Lemma opcodeCheckSig_ok : handler_ok opcodeCheckSig.
Proof.
  intros op vm _ Hi _. unfold opcodeCheckSig. repeat engine_step. destruct (split_sig _) as [hashType sigBytes].
  repeat engine_step. apply post_try; [apply ParsePubKey_quiet|intros pk|engine_run].
  apply post_try; [apply parse_sig_quiet|intros sig|engine_run].
  destruct (verify_cached _ _ _ _) as [valid vm'] eqn:Ev. apply verify_cached_ok with (vm0 := vm) in Ev; [|done].
  engine_run.
Qed.

Lemma pop_n_ok n vm0 vm :
  at_state vm0 vm -> post (fun '(l, vm') => length l = n /\ at_state vm0 vm') (pop_n n vm).
Proof.
  revert vm. induction n as [|n IH]; intros vm Hvm; cbn [pop_n]; [by split|].
  engine_step. eapply post_bind; [by apply IH|]. intros [l' vm'] [<- Hvm']. by split.
Qed.

Lemma multisig_turn_ok script sigInfo pubKey vm0 vm :
  at_state vm0 vm -> post (fun '(_, _, vm') => at_state vm0 vm') (multisig_turn script sigInfo pubKey vm).
Proof.
  intros Hvm. unfold multisig_turn. cbv zeta. apply post_if; intros _; [done|].
  destruct (split_sig _) as [hashType sig]. apply post_quiet.
  { apply post_if; intros _; [|done]. do 2 engine_step. apply post_try; [apply parse_sig_quiet|done..]. }
  intros info. destruct (parsedSignature info) as [s|]; [|done]. engine_step.
  apply post_try; [apply ParsePubKey_quiet|intros pk|done]. apply post_quiet; [apply sig_hash_quiet|]. intros hashData.
  destruct (verify_cached _ _ _ _) as [valid vm'] eqn:Ev. by apply verify_cached_ok with (vm0 := vm0) in Ev.
Qed.

Lemma multisig_loop_ok script pubKeys vm0 sigs vm :
  at_state vm0 vm -> post (fun '(_, vm') => at_state vm0 vm') (multisig_loop script sigs pubKeys vm).
Proof.
  revert sigs vm. induction pubKeys as [|pubKey pubKeys IH]; intros [|sigInfo sigs] vm Hvm; cbn [multisig_loop]; try done.
  apply post_if; intros _; [done|]. eapply post_bind; [by apply multisig_turn_ok|].
  intros [[valid info] vm'] Hvm'. by apply IH.
Qed.

Lemma opcodeCheckMultiSig_ok : handler_ok opcodeCheckMultiSig.
Proof.
  intros op vm _ Hi _. unfold opcodeCheckMultiSig. cbv zeta. engine_step. apply post_if; [done|]. intros Hn%Z.ltb_ge.
  apply post_if; [done|]. intros _. apply post_if; [done|]. intros Ho%Z.ltb_ge. cbn [numOps set_numOps] in Ho.
  match goal with Hs : at_state _ ?e |- _ =>
    assert (Hs' : at_state vm (set_numOps (numOps e + scriptNum_Int32 z) e))
      by (apply at_numOps; [done|]; destruct Hs as [[] _]; lia) end.
  eapply post_bind; [apply pop_n_ok, Hs'|]. intros [pubKeys vm1] [_ Hvm1]. engine_step.
  apply post_if; [done|]. intros _. apply post_if; [done|]. intros _.
  eapply post_bind; [by apply pop_n_ok|]. intros [sigs vm2] [_ Hvm2]. repeat engine_step.
  eapply post_bind; [by apply multisig_loop_ok|]. intros [success vm3] Hvm3. engine_run.
Qed.
#[local] Hint Resolve opcodeCheckSig_ok opcodeCheckMultiSig_ok : engine.

Lemma verify_after (h : handler) c : handler_ok h -> handler_ok (fun op vm => vm ← h op vm; abstractVerify c vm).
Proof. intros Hh op vm Hd Hi Hdep. eapply post_bind; [by apply Hh|]. intros. by apply abstractVerify_ok. Qed.

Ltac split_forall := repeat apply Forall_cons_2; try apply Forall_nil_2.

Ltac exact_handler := match goal with Hh : handler_ok ?h |- handler_ok ?g => constr_eq h g; exact Hh end.

Lemma on_dstack_handler f : keeps_small f -> handler_ok (fun _ => on_dstack f).
Proof. intros Hf op vm _ Hi _. apply on_dstack_ok; [done|by apply at_state_refl]. Qed.

Lemma unary_handler f : (forall m, num_ok m -> Z.abs (f m) < 2 ^ 63) -> handler_ok (fun _ => unary_op f).
Proof. intros Hf op vm _ Hi _. apply unary_op_ok; [done|by apply at_state_refl]. Qed.

Lemma binary_handler f :
  (forall m n, num_ok m -> num_ok n -> Z.abs (f m n) < 2 ^ 63) -> handler_ok (fun _ => binary_op f).
Proof. intros Hf op vm _ Hi _. apply binary_op_ok; [done|by apply at_state_refl]. Qed.

Lemma stack_handlers_ok :
  Forall handler_ok [opcode2Drop; opcode2Dup; opcode3Dup; opcode2Over; opcode2Rot; opcode2Swap; opcodeDrop; opcodeDup;
    opcodeNip; opcodeOver; opcodeRot; opcodeSwap; opcodeTuck].
Proof. split_forall; apply on_dstack_handler; eauto with engine. Qed.

Lemma numeric_handlers_ok :
  Forall handler_ok [opcode1Add; opcode1Sub; opcodeNegate; opcodeAbs; opcodeNot; opcode0NotEqual; opcodeAdd; opcodeSub;
    opcodeBoolAnd; opcodeBoolOr; opcodeNumEqual; opcodeNumNotEqual; opcodeLessThan; opcodeGreaterThan;
    opcodeLessThanOrEqual; opcodeGreaterThanOrEqual; opcodeMin; opcodeMax].
Proof.
  split_forall; first [apply unary_handler|apply binary_handler]; try (intros; apply num_of_bool_range); num_solve.
Qed.

Lemma control_handlers_ok :
  Forall handler_ok [opcodeDisabled; opcodeReserved; opcodeInvalid; opcodeReturn; opcodeNop; opcodeVerify; opcodeElse;
    opcodeEndif; opcodeCodeSeparator].
Proof.
  split_forall; intros op vm Hd Hi Hdep; try done.
  - unfold opcodeNop. engine_run.
  - by apply abstractVerify_ok, at_state_refl.
  - unfold opcodeElse. destruct (condStack vm) as [|[] ?]; cbn [post]; eauto with engine.
  - unfold opcodeEndif. destruct (condStack vm); cbn [post]; eauto with engine.
  - by apply at_sep, at_state_refl.
Qed.

Lemma branch_handlers_ok : Forall handler_ok [opcodeIf; opcodeNotIf].
Proof.
  split_forall; intros op vm Hd Hi Hdep; unfold opcodeIf, opcodeNotIf;
    (eapply post_bind with (P := fun '(_, vm') => at_state vm vm'); [|intros [c vm'] Hvm'; by apply at_condStack]);
    (apply post_if; intros _; [|by apply at_state_refl]);
    (eapply post_bind; [by apply popIfBool_ok, at_state_refl|]; by intros [b vm'] Hvm').
Qed.

Lemma push_handlers_ok : Forall handler_ok [opcodeFalse; opcodePushData; opcode1Negate; opcodeN; opcodeInputAge].
Proof.
  split_forall; intros op vm Hd Hi Hdep; unfold opcodeFalse, opcodePushData, opcode1Negate, opcodeN, opcodeInputAge.
  1, 2: cbn [post]; eauto with engine.
  - apply push_int_ok; [eauto with engine|lia].
  - apply push_int_ok; [eauto with engine|]. unfold uwrap. pose proof (Z.mod_pos_bound (opcode op - (OP_1 - 1)) (2 ^ 8)). lia.
  - engine_step. apply push_int_ok; [eauto with engine|]. unfold input_ok, is_int in *. lia.
Qed.

Lemma lock_handlers_ok : Forall handler_ok [opcodeCheckLockTimeVerify; opcodeCheckSequenceVerify].
Proof.
  split_forall; intros op vm Hd Hi Hdep; unfold opcodeCheckLockTimeVerify, opcodeCheckSequenceVerify;
    apply at_state_refl in Hi; engine_run.
Qed.

Lemma item_handlers_ok :
  Forall handler_ok [opcodeToAltStack; opcodeFromAltStack; opcodeIfDup; opcodeDepth; opcodePick; opcodeRoll; opcodeSize;
    opcodeEqual; opcodeEqualVerify; opcodeNumEqualVerify; opcodeWithin].
Proof.
  assert (Heq : handler_ok opcodeEqual) by (intros op vm _ Hi _; unfold opcodeEqual; engine_run).
  assert (Hnum : handler_ok opcodeNumEqual) by (pose proof numeric_handlers_ok as Hn; decompose_Forall_hyps; done).
  split_forall; intros op vm Hd Hi Hdep; try done; pose proof (at_state_refl vm Hi) as Hvm.
  - unfold opcodeToAltStack. engine_run.
  - unfold opcodeFromAltStack. eapply post_bind; [apply nipN_small; eauto with engine|]. intros [b s] [Hb Hs].
    cbn [post]. eauto with engine.
  - unfold opcodeIfDup. engine_step. cbn [post]. destruct (asBool _); eauto with engine.
  - unfold opcodeDepth. apply push_int_ok; [done|]. unfold Depth in *. pose proof (len_nonneg (stk (dstack vm))). lia.
  - unfold opcodePick. engine_run.
  - unfold opcodeRoll. engine_run.
  - unfold opcodeSize. engine_step. apply push_int_ok; [done|]. unfold small, MaxScriptElementSize in *.
    match goal with |- Z.abs (len ?b) < _ => pose proof (len_nonneg b) end. lia.
  - by apply Heq.
  - by apply (verify_after opcodeEqual "ErrEqualVerify").
  - by apply (verify_after opcodeNumEqual "ErrNumEqualVerify").
  - unfold opcodeWithin. engine_run.
Qed.

Lemma crypto_handlers_ok :
  Forall handler_ok [opcodeRipemd160; opcodeSha1; opcodeSha256; opcodeHash160; opcodeHash256; opcodeCheckSig;
    opcodeCheckSigVerify; opcodeCheckMultiSig; opcodeCheckMultiSigVerify].
Proof.
  split_forall; try (by apply verify_after; eauto with engine); eauto with engine;
    intros op vm Hd Hi Hdep; apply replace_top_ok; try (by apply at_state_refl); intros b _.
  - by apply (small_of_len 20); [apply ripemd160_size|].
  - by apply (small_of_len 20); [apply len_sha1|].
  - by apply (small_of_len 32); [apply sha256_size|].
  - by apply (small_of_len 20); [apply ripemd160_size|].
  - by apply (small_of_len 32); [apply sha256_size|].
Qed.

(** Every entry of the table keeps the invariant. *)
Lemma opcodeArray_ok : Forall (fun e => handler_ok (snd e)) opcodeArray.
Proof.
  pose proof stack_handlers_ok. pose proof numeric_handlers_ok. pose proof control_handlers_ok.
  pose proof branch_handlers_ok. pose proof push_handlers_ok. pose proof lock_handlers_ok.
  pose proof item_handlers_ok. pose proof crypto_handlers_ok. decompose_Forall_hyps.
  split_forall; cbn [snd]; exact_handler.
Qed.

Lemma lookup_op_ok v table :
  handler_ok opcodeInvalid -> Forall (fun e => handler_ok (snd e)) table -> handler_ok (lookup_op v table).
Proof.
  intros Hi Ht. induction Ht as [|[w h] table Hh Ht IH]; [exact Hi|]. cbn [lookup_op].
  destruct (v =? w); [exact Hh|exact IH].
Qed.

Lemma opfunc_ok v : handler_ok (opfunc v).
Proof.
  assert (Hpush : handler_ok opcodePushData /\ handler_ok opcodeN /\ handler_ok opcodeInvalid).
  { pose proof push_handlers_ok. pose proof control_handlers_ok. decompose_Forall_hyps. split_and!; exact_handler. }
  destruct Hpush as (Hp & Hn & Hi). unfold opfunc. destruct (_ && _); [exact Hp|]. destruct (_ && _); [exact Hn|].
  apply lookup_op_ok; [exact Hi|apply opcodeArray_ok].
Qed.
End handlers.
