(* ===== verification/EngineRun.v ===== *)
(** Runs of the script engine: from [NewEngine] every state of [Execute] satisfies the
    invariant, the loop ends, and no call panics. *)

From S2P Require Import Prelude Big ScriptNum Stack Opcode Script WireEncoding WireTx Chainhash SigHash PubKey Signature SigCache Sha1 Engine EngineFacts.

(** * Parsed scripts *)

(** Opcodes above [OP_16] carry no data. *)
Definition pop_ok (pop : parsedOpcode) : Prop := 0 <= opcode pop /\ (OP_16 < opcode pop -> data pop = []).

Lemma opcode_bytes_ok pop b :
  valid_opcode pop -> parsedOpcode_bytes pop = Ok b -> pop_ok pop /\ (1 <= length b)%nat.
Proof.
  intros Hv. unfold parsedOpcode_bytes. destruct (Z.eqb_spec (opcode_length (opcode pop)) 1) as [E|E].
  - destruct (Z.eqb_spec (len (data pop)) 0) as [Hd|Hd]; [|done]. intros [= <-]. split; [|cbn; lia].
    split; [apply Hv|]. intros _. apply nil_length_inv. unfold len in Hd. lia.
  - assert (Hle : opcode pop <= OP_16).
    { revert E. unfold opcode_length, OP_DATA_1, OP_DATA_75, OP_PUSHDATA1, OP_PUSHDATA2, OP_PUSHDATA4, OP_16.
      destruct (_ && _) eqn:Eb; [apply andb_true_iff in Eb; lia|]. repeat case_match; lia. }
    intros Hb. split; [split; [apply Hv|lia]|]. revert Hb.
    destruct (_ <? 0); (destruct (negb _); [done|]); intros [= <-]; cbn [app length]; lia.
Qed.

Lemma unparse_ok pops s :
  Forall valid_opcode pops -> unparseScript pops = Ok s -> Forall pop_ok pops /\ (length pops <= length s)%nat.
Proof.
  revert s. induction pops as [|pop pops IH]; intros s Hv; cbn [unparseScript]; [by intros [= <-]|].
  apply Forall_cons in Hv as [Hv Hvs]. destruct (parsedOpcode_bytes pop) as [b| |] eqn:Eb; [|done..].
  cbn [mbind outcome_bind]. destruct (unparseScript pops) as [t| |] eqn:Et; [|done..]. intros [= <-].
  destruct (opcode_bytes_ok pop b Hv Eb). destruct (IH t Hvs eq_refl). split; [by constructor|].
  rewrite length_app. cbn [length]. lia.
Qed.

Lemma parseScript_facts s pops :
  parseScript s = Ok pops -> Forall pop_ok pops /\ (length pops <= length s)%nat /\ (pops = [] -> s = []).
Proof.
  unfold parseScript, parseScriptTemplate. destruct (parse_loop (length s) s) as [ps [e|]] eqn:E; [done|]. intros [= <-].
  apply parse_loop_sound in E as (Hv & pre & rest & Hu & -> & Hr); [|lia]. rewrite Hr, app_nil_r in * by done.
  destruct (unparse_ok ps pre Hv Hu). split_and!; [done..|]. intros ->. by injection Hu as <-.
Qed.

Lemma parseScript_quiet s : quiet (parseScript s).
Proof. unfold parseScript, quiet. by repeat case_match. Qed.

Section run.
Context `{HashFunction} `{Crypto} `{MapOrder}.

(** * One opcode *)

Lemma executeOpcode_ok pop vm :
  pop_ok pop -> inv vm -> Depth (dstack vm) < 2 ^ 62 -> post (at_state vm) (executeOpcode pop vm).
Proof.
  intros [_ Hp] Hi Hdep. unfold executeOpcode. apply post_if; [done|intros _]. apply post_if; [done|intros _].
  eapply post_bind with (P := fun vm' => at_state vm vm' /\ small (data pop) /\ dstack vm' = dstack vm).
  - apply post_if; intros Hc.
    + apply Z.ltb_lt in Hc. rewrite (Hp Hc). apply post_if; [done|]. intros Ho%Z.ltb_ge. cbn [numOps set_numOps] in Ho.
      split_and!; [|apply small_nil|done]. apply at_numOps; [by apply at_state_refl|]. destruct Hi. lia.
    + apply post_if; [done|]. intros Hl%Z.ltb_ge. split_and!; [by apply at_state_refl|done..].
  - intros vm' (Hvm & Hd & Es). apply post_if; [done|intros _]. apply post_quiet.
    { apply post_if; [|done]. intros _. apply checkMinimalDataPush_quiet. }
    intros _. eapply post_weaken; [apply opfunc_ok; [done|apply Hvm|by rewrite Es]|].
    intros vm'' [Hi' Hf]. split; [done|]. eapply frame_trans; [apply Hvm|done].
Qed.

(** The handler of a conditional, or of an opcode in an executing branch, runs after the
    operation is counted; the other opcodes are skipped. *)
Lemma executeOpcode_runs pop vm vm' :
  executeOpcode pop vm = Ok vm' ->
  exists n, if isBranchExecuting vm || isConditional pop
            then opfunc (opcode pop) pop (set_numOps n vm) = Ok vm' else vm' = set_numOps n vm.
Proof.
  assert (Hk : forall n, (if negb (isBranchExecuting vm) && negb (isConditional pop) then Ok (set_numOps n vm)
    else _ ← (if verifyMinimalData (dstack vm) && isBranchExecuting vm && (opcode pop <=? OP_PUSHDATA4)
              then checkMinimalDataPush pop else Ok ()); opfunc (opcode pop) pop (set_numOps n vm)) = Ok vm' ->
    if isBranchExecuting vm || isConditional pop
    then opfunc (opcode pop) pop (set_numOps n vm) = Ok vm' else vm' = set_numOps n vm).
  { intros n. destruct (isBranchExecuting vm), (isConditional pop); cbn [negb andb orb];
      try (by intros [= <-]); (match goal with |- context [mbind _ ?m] => destruct m as [[]| |]; [|done..] end); done. }
  unfold executeOpcode. destruct (isDisabled pop); [done|]. destruct (alwaysIllegal pop); [done|].
  assert (Eid : vm = set_numOps (numOps vm) vm) by by destruct vm.
  destruct (OP_16 <? opcode pop); (destruct (_ <? _); [done|]); cbn [mbind outcome_bind]; intros E.
  - eexists. exact (Hk _ E).
  - exists (numOps vm). apply Hk. by rewrite <-Eid.
Qed.

Lemma push_int_inv n vm vm' : push_int n vm = Ok vm' -> exists b, vm' = push_bytes b vm.
Proof.
  unfold push_int, on_dstack, PushInt. destruct (scriptNum_Bytes n) as [b| |]; [|done..]. intros [= <-]. by exists b.
Qed.

(** The opcodes up to [OP_16] push one item. *)
Lemma push_opcodes pop vm vm' :
  0 <= opcode pop <= OP_16 -> opfunc (opcode pop) pop vm = Ok vm' -> exists b, vm' = push_bytes b vm.
Proof.
  intros Hr. unfold opfunc. destruct ((OP_DATA_1 <=? opcode pop) && (opcode pop <=? OP_PUSHDATA4)) eqn:E1;
    [intros [= <-]; by eexists|].
  destruct ((OP_1 <=? opcode pop) && (opcode pop <=? OP_16)) eqn:E2; [apply push_int_inv|].
  unfold OP_DATA_1, OP_PUSHDATA4, OP_1, OP_16 in *. apply andb_false_iff in E1, E2.
  assert (Hv : opcode pop = 0 \/ opcode pop = 0x4f \/ opcode pop = 0x50) by lia.
  destruct Hv as [E|[E|E]]; rewrite E; [intros [= <-]; by eexists|apply push_int_inv|done].
Qed.

(** * Script hashes without a signature script

    A pay-to-script-hash output, with or without a time lock, that is spent with an empty
    signature script fails before the end of the script: the first script left nothing on
    the stack to hash. *)

(** The data stack and the conditionals before the opcode at an offset of a time-locked
    script hash. *)
Definition htlc_doomed (off : nat) (l : list bytes) (c : list OpCond) : Prop :=
  match off with
  | 0%nat => l = [] /\ c = []
  | 1%nat => length l = 1%nat /\ c = []
  | 2%nat => length l = 2%nat /\ c = []
  | 3%nat => length l = 1%nat /\ c = []
  | 4%nat => l = [] /\ (c = [OpCondTrue] \/ c = [OpCondFalse])
  | 5%nat | 6%nat | 7%nat => l = [] /\ c = [OpCondFalse]
  | 8%nat => l = [] /\ c = [OpCondTrue]
  | _ => False
  end.

Definition doomed (vm : Engine) : Prop :=
  (isScriptHash (cur_script vm) = true /\ scriptOff vm = 0%nat /\ stk (dstack vm) = [] /\ condStack vm = []) \/
  (isHTLCWithScriptHash (cur_script vm) = true /\ htlc_doomed (scriptOff vm) (stk (dstack vm)) (condStack vm)).

Lemma pop_at_lookup pops n pop : pops !! n = Some pop -> pop_at pops (Z.of_nat n) = pop.
Proof. intros E. unfold pop_at. rewrite Nat2Z.id. by apply nth_lookup_Some with (d := {| opcode := 0; data := [] |}) in E. Qed.

Lemma pop_bytes_nil vm : stk (dstack vm) = [] -> pop_bytes vm = invalid_stack.
Proof. unfold pop_bytes. destruct (dstack vm) as [l m]. cbn [stk]. intros ->. done. Qed.

Lemma pop_bytes_cons vm b l : stk (dstack vm) = b :: l -> exists vm', pop_bytes vm = Ok (b, vm') /\ stk (dstack vm') = l /\ condStack vm' = condStack vm.
Proof.
  unfold pop_bytes. destruct (dstack vm) as [l' m]. cbn [stk]. intros ->. rewrite PopByteArray_cons.
  cbn [mbind outcome_bind]. by eexists.
Qed.

Lemma pop_int_inv vm n vm' b l :
  stk (dstack vm) = b :: l -> pop_int vm = Ok (n, vm') -> stk (dstack vm') = l /\ condStack vm' = condStack vm.
Proof.
  unfold pop_int, PopInt. destruct (dstack vm) as [l' m]. cbn [stk]. intros ->. rewrite PopByteArray_cons.
  cbn [mbind outcome_bind verifyMinimalData]. destruct (makeScriptNum _ _ _); [|done..]. by intros [= <- <-].
Qed.

Lemma binary_op_inv f vm vm' b0 b1 l :
  stk (dstack vm) = b0 :: b1 :: l -> binary_op f vm = Ok vm' ->
  exists b, stk (dstack vm') = b :: l /\ condStack vm' = condStack vm.
Proof.
  intros Es. unfold binary_op. destruct (pop_int vm) as [[v0 vm1]| |] eqn:E0; [|done..]. cbn [mbind outcome_bind].
  destruct (pop_int vm1) as [[v1 vm2]| |] eqn:E1; [|done..]. cbn [mbind outcome_bind]. intros E2.
  apply push_int_inv in E2 as [b ->]. destruct (pop_int_inv _ _ _ _ _ Es E0) as [Es1 Ec1].
  destruct (pop_int_inv _ _ _ _ _ Es1 E1) as [Es2 Ec2]. exists b. cbn. rewrite Es2, Ec2, Ec1. done.
Qed.

Lemma popIfBool_inv vm b vm' c l :
  stk (dstack vm) = c :: l -> popIfBool vm = Ok (b, vm') -> stk (dstack vm') = l /\ condStack vm' = condStack vm.
Proof.
  intros Es. unfold popIfBool. destruct (_ || _).
  - unfold pop_bool, PopBool. revert Es. destruct (dstack vm) as [l' m]. cbn [stk]. intros ->. rewrite PopByteArray_cons.
    cbn [mbind outcome_bind]. by intros [= <- <-].
  - destruct (pop_bytes_cons vm c l Es) as (vm1 & -> & Es1 & Ec1). cbn [mbind outcome_bind].
    destruct (1 <? len c); [done|]. destruct (_ && _); [done|]. by intros [= <- <-].
Qed.

(** The opcodes of the two shapes. *)
Lemma scriptHash_first pops pop : isScriptHash pops = true -> pops !! 0%nat = Some pop -> opcode pop = OP_HASH160.
Proof.
  unfold isScriptHash, isOpCode. intros Hs E. apply pop_at_lookup in E. change (Z.of_nat 0) with 0 in E. rewrite E in Hs.
  repeat (apply andb_true_iff in Hs as [Hs ?]). lia.
Qed.

Lemma htlc_opcodes pops :
  isHTLCWithScriptHash pops = true ->
  length pops = 10%nat /\ opcode (pop_at pops 0) = OP_INPUTAGE /\ isNumber (opcode (pop_at pops 1)) = true /\
  opcode (pop_at pops 2) = OP_GREATERTHAN /\ opcode (pop_at pops 3) = OP_IF /\ opcode (pop_at pops 4) = OP_HASH160 /\
  opcode (pop_at pops 5) = OP_DATA_20 /\ opcode (pop_at pops 6) = OP_EQUAL /\ opcode (pop_at pops 7) = OP_ELSE /\
  opcode (pop_at pops 8) = OP_RETURN.
Proof.
  unfold isHTLCWithScriptHash. intros E%bool_decide_eq_true. unfold isHTLC, isOpCode in E. cbv zeta in E.
  destruct (_ && _ && _); [done|]. destruct (negb _) eqn:E1; [done|].
  destruct (len pops =? 9) eqn:E9; [repeat case_match; done|].
  destruct (len pops =? 10) eqn:E10; [|repeat case_match; done]. apply Z.eqb_eq in E10. rewrite E10 in E1.
  destruct (_ && _ && _) eqn:E2 in E; [|done]. apply negb_false_iff in E1.
  repeat (apply andb_true_iff in E1 as [E1 ?]). repeat (apply andb_true_iff in E2 as [E2 ?]).
  repeat match goal with Hx : (_ =? _) = true |- _ => apply Z.eqb_eq in Hx end.
  change (10 - 3) with 7 in *. change (10 - 2) with 8 in *. split_and!; try done. unfold len in E10. lia.
Qed.

Lemma run_opcode pop vm vm' v :
  opcode pop = v -> isBranchExecuting vm || one_of v [OP_IF; OP_NOTIF; OP_ELSE; OP_ENDIF] = true ->
  executeOpcode pop vm = Ok vm' -> exists n, opfunc v pop (set_numOps n vm) = Ok vm'.
Proof.
  intros <- Hb E. apply executeOpcode_runs in E as [n E]. exists n. unfold isConditional in E. by rewrite Hb in E.
Qed.

Lemma skip_opcode pop vm vm' :
  isBranchExecuting vm = false -> isConditional pop = false -> executeOpcode pop vm = Ok vm' ->
  dstack vm' = dstack vm /\ condStack vm' = condStack vm.
Proof. intros Hb Hc E. apply executeOpcode_runs in E as [n E]. rewrite Hb, Hc in E. cbn in E. by subst vm'. Qed.

Lemma isNumber_range v : isNumber v = true -> 0 <= v <= OP_16.
Proof.
  unfold isNumber, isSmallInt, OP_0, OP_1, OP_16, OP_DATA_1, OP_DATA_4. intros E.
  repeat (apply orb_true_iff in E as [E|E]); try apply andb_true_iff in E; lia.
Qed.

(** The next state of a time-locked script hash on an empty stack: the comparison with the
    lock, then the branch it selects. *)
Section htlc.
Context (vm : Engine) (pop : parsedOpcode) (vm' : Engine) (pops : list parsedOpcode).
Context (Hs : isHTLCWithScriptHash pops = true) (Hp : pops !! scriptOff vm = Some pop).
Context (Hd : htlc_doomed (scriptOff vm) (stk (dstack vm)) (condStack vm)).
Let vm1 := set_scriptOff (S (scriptOff vm)) vm.
Context (E : executeOpcode pop vm1 = Ok vm').

Lemma pop_opcode n v : scriptOff vm = n -> opcode (pop_at pops (Z.of_nat n)) = v -> opcode pop = v.
Proof. intros <- <-. by rewrite (pop_at_lookup pops (scriptOff vm) pop Hp). Qed.

Lemma executing : condStack vm = [] \/ condStack vm = [OpCondTrue] -> isBranchExecuting vm1 = true.
Proof. unfold isBranchExecuting. cbn. by intros [-> | ->]. Qed.

(** The opcode at offset [n] is [v] and runs. *)
Ltac run_at n v Hv :=
  assert (Ho : scriptOff vm = n) by done;
  assert (Hv' : opcode pop = v) by (by apply (pop_opcode n v Ho));
  destruct (run_opcode pop vm1 vm' v Hv' ltac:(first [by rewrite executing by tauto | by rewrite orb_true_r]) E) as [k E'].

Lemma htlc_guard : (scriptOff vm < 4)%nat -> htlc_doomed (S (scriptOff vm)) (stk (dstack vm')) (condStack vm').
Proof.
  destruct (htlc_opcodes pops Hs) as (_ & H0' & H1' & H2' & H3' & _). intros Hlt.
  destruct (scriptOff vm) as [|[|[|[|m]]]] eqn:Eo in Hd, Hlt |- *; [..|lia]; cbn [htlc_doomed] in Hd |- *; destruct Hd as [Hl Hc].
  - run_at 0%nat OP_INPUTAGE H0'. change (opcodeInputAge pop (set_numOps k vm1) = Ok vm') in E'. unfold opcodeInputAge in E'.
    destruct (cur_input _) as [ti| |]; [|done..]. apply push_int_inv in E' as [b ->]. cbn. by rewrite Hl, Hc.
  - assert (Hn : opcode pop = opcode (pop_at pops 1)) by by apply (pop_opcode 1).
    destruct (run_opcode pop vm1 vm' _ Hn ltac:(by rewrite executing by tauto) E) as [k E']. rewrite <-Hn in E'.
    apply push_opcodes in E' as [b ->]; [|apply isNumber_range; by rewrite Hn]. cbn. by rewrite Hl, Hc.
  - run_at 2%nat OP_GREATERTHAN H2'. destruct (stk (dstack vm)) as [|b0 [|b1 [|? ?]]] eqn:El; try done.
    destruct (binary_op_inv (fun v0 v1 => num_of_bool (v0 <? v1)) (set_numOps k vm1) vm' b0 b1 [] El E') as (b & -> & ->). by split.
  - run_at 3%nat OP_IF H3'. change (opcodeIf pop (set_numOps k vm1) = Ok vm') in E'. unfold opcodeIf in E'.
    change (isBranchExecuting (set_numOps k vm1)) with (isBranchExecuting vm1) in E'. rewrite executing in E' by tauto.
    destruct (stk (dstack vm)) as [|b0 [|? ?]] eqn:El; try done.
    destruct (popIfBool _) as [[b vm2]| |] eqn:E2; [|done..]. injection E' as <-.
    destruct (popIfBool_inv (set_numOps k vm1) _ _ b0 [] El E2) as [Es2 Ec2]. cbn [stk dstack condStack set_condStack]. rewrite Es2, Ec2.
    split; [done|]. cbn. rewrite Hc. destruct b; tauto.
Qed.

Lemma htlc_skip n v :
  scriptOff vm = n -> opcode (pop_at pops (Z.of_nat n)) = v -> one_of v [OP_IF; OP_NOTIF; OP_ELSE; OP_ENDIF] = false ->
  condStack vm = [OpCondFalse] -> stk (dstack vm') = stk (dstack vm) /\ condStack vm' = condStack vm.
Proof.
  intros Ho Hv Hc Hf. assert (Hop := pop_opcode n v Ho Hv).
  destruct (skip_opcode pop vm1 vm') as [-> ->]; [unfold isBranchExecuting; cbn; by rewrite Hf|unfold isConditional; by rewrite Hop|done|done].
Qed.

Lemma htlc_branch : (4 <= scriptOff vm)%nat -> htlc_doomed (S (scriptOff vm)) (stk (dstack vm')) (condStack vm').
Proof.
  destruct (htlc_opcodes pops Hs) as (_ & _ & _ & _ & _ & H4' & H5' & H6' & H7' & H8'). intros Hlt.
  destruct (scriptOff vm) as [|[|[|[|[|[|[|[|[|m]]]]]]]]] eqn:Eo in Hd, Hlt |- *; try lia; [..|done];
    cbn [htlc_doomed] in Hd |- *; destruct Hd as [Hl Hc].
  - destruct Hc as [Hc|Hc].
    + run_at 4%nat OP_HASH160 H4'. change (replace_top Hash160 (set_numOps k vm1) = Ok vm') in E'. unfold replace_top in E'.
      by rewrite pop_bytes_nil in E' by (cbn; done).
    + destruct (htlc_skip 4 OP_HASH160) as [-> ->]; done.
  - destruct (htlc_skip 5 OP_DATA_20) as [-> ->]; done.
  - destruct (htlc_skip 6 OP_EQUAL) as [-> ->]; done.
  - run_at 7%nat OP_ELSE H7'. change (opcodeElse pop (set_numOps k vm1) = Ok vm') in E'. unfold opcodeElse in E'.
    change (condStack (set_numOps k vm1)) with (condStack vm) in E'. rewrite Hc in E'. injection E' as <-. by split.
  - by run_at 8%nat OP_RETURN H8'.
Qed.
End htlc.

Lemma doomed_step vm pop vm' :
  doomed vm -> cur_script vm !! scriptOff vm = Some pop -> inv vm ->
  let vm1 := set_scriptOff (S (scriptOff vm)) vm in
  executeOpcode pop vm1 = Ok vm' -> frame vm1 vm' -> doomed vm' /\ (S (scriptOff vm) < length (cur_script vm))%nat.
Proof.
  intros [(Hs & Ho & Hl & Hc)|[Hs Hd]] Hp Hi vm1 E Hf.
  - exfalso. rewrite Ho in Hp.
    destruct (run_opcode pop vm1 vm' _ (scriptHash_first _ _ Hs Hp) ltac:(unfold isBranchExecuting; cbn; by rewrite Hc) E) as [n E'].
    change (replace_top Hash160 (set_numOps n vm1) = Ok vm') in E'. unfold replace_top in E'.
    by rewrite pop_bytes_nil in E' by (cbn; done).
  - assert (Hd' : htlc_doomed (S (scriptOff vm)) (stk (dstack vm')) (condStack vm')).
    { destruct (decide (scriptOff vm < 4)%nat); [by eapply htlc_guard|eapply htlc_branch; [done..|lia]]. }
    destruct (htlc_opcodes _ Hs) as [Hlen _]. destruct Hf as [Hfs Hfi Hfo]. split.
    + right. unfold cur_script in *. rewrite Hfs, Hfi, Hfo. by split.
    + rewrite Hlen. destruct (scriptOff vm) as [|[|[|[|[|[|[|[|[|m]]]]]]]]]; try lia. done.
Qed.

(** * The states of a run *)

Definition witness_len (vm : Engine) : Z :=
  match cur_input vm with Ok ti => len (wit_items (Witness ti)) | _ => 0 end.

(** A witness is loaded on the stack without a limit on the number of its items: the limit
    is checked after the next opcode. *)
Definition stack_limit (vm : Engine) : Z := Z.max MaxStackSize (witness_len vm).

(** With a script hash, the signature script only pushes data, so that it leaves an item on
    the stack; if there is no signature script, the public key script fails. *)
Definition phase (vm : Engine) : Prop :=
  match scriptIdx vm with
  | 0%nat => condStack vm = [] /\ isPushOnly (cur_script vm) = true /\ length (stk (dstack vm)) = scriptOff vm
  | 1%nat => savedFirstStack vm <> [] \/ doomed vm
  | _ => True
  end.

Record running (vm : Engine) : Prop := {
  run_inv : inv vm;
  run_off : (scriptOff vm < length (cur_script vm))%nat;
  run_pops : Forall (Forall pop_ok) (scripts vm);
  run_len : length (scripts vm) = Nat.max 2 (S (scriptIdx vm));
  run_saved : Forall small (savedFirstStack vm) /\ len (savedFirstStack vm) <= MaxStackSize;
  run_depth : Depth (dstack vm) + Depth (astack vm) <= stack_limit vm;
  run_phase : bip16 vm = true -> phase vm
}.

(** The number of opcodes that can still be executed: those of the script that runs and of
    the scripts after it, of the script whose hash is paid to, and of the witness script. *)
Definition pending (vm : Engine) : Z :=
  (if bip16 vm && Nat.leb (scriptIdx vm) 1 then MaxScriptElementSize else 0) +
  (if bool_decide (witnessProgram vm <> None) && Nat.leb (scriptIdx vm) (if bip16 vm then 2 else 1)
   then MaxScriptSize else 0).

Definition measure (vm : Engine) : Z :=
  len (concat (drop (S (scriptIdx vm)) (scripts vm))) + (len (cur_script vm) - Z.of_nat (scriptOff vm)) + pending vm.

Lemma pending_nonneg vm : 0 <= pending vm.
Proof. unfold pending, MaxScriptElementSize, MaxScriptSize. repeat case_match; lia. Qed.

(** ** Within a script *)

Definition after_opcode (vm : Engine) : Engine := set_scriptOff (S (scriptOff vm)) vm.

Lemma after_opcode_inv vm : running vm -> inv (after_opcode vm).
Proof. intros [[] Ho]. split; try done. cbn. lia. Qed.

Lemma cur_script_frame vm vm' : frame vm vm' -> cur_script vm' = cur_script vm.
Proof. intros []. unfold cur_script. congruence. Qed.

Lemma cur_input_frame vm vm' : frame vm vm' -> cur_input vm' = cur_input vm.
Proof. intros Hf. unfold cur_input. by rewrite (frame_tx _ _ Hf), (frame_txIdx _ _ Hf). Qed.

(** What an opcode does to the phase: the next offset of the first script, or of the second
    one if nothing was saved. *)
Lemma exec_phase vm pop vm' :
  running vm -> bip16 vm = true -> cur_script vm !! scriptOff vm = Some pop ->
  executeOpcode pop (after_opcode vm) = Ok vm' -> frame (after_opcode vm) vm' ->
  phase vm' /\ (scriptIdx vm = 1%nat -> savedFirstStack vm = [] -> (S (scriptOff vm) < length (cur_script vm))%nat).
Proof.
  intros Hr Hb Hp E Hf. assert (Hph := run_phase vm Hr Hb). pose proof (cur_script_frame _ _ Hf) as Ecs.
  assert (Hf' := Hf). unfold phase in *. destruct Hf as [Hfs Hfi Hfo _ _ _ _ Hfv]. rewrite Hfi. cbn [after_opcode scriptIdx set_scriptOff].
  destruct (scriptIdx vm) as [|[|i]] eqn:Ei; [| |by split].
  - destruct Hph as (Hc & Hpo & Hl). split; [|done]. rewrite Ecs. change (cur_script (after_opcode vm)) with (cur_script vm).
    assert (Hle : 0 <= opcode pop <= OP_16).
    { unfold isPushOnly in Hpo. rewrite forallb_forall in Hpo. split.
      - assert (Hs : Forall pop_ok (cur_script vm)).
        { unfold cur_script. destruct (scripts vm !! scriptIdx vm) as [s|] eqn:Es; [|done].
          by apply (Forall_lookup_1 _ _ _ _ (run_pops vm Hr) Es). }
        by apply (Forall_lookup_1 _ _ _ _ Hs Hp).
      - apply Z.leb_le, Hpo. apply list_elem_of_In. by eapply list_elem_of_lookup_2. }
    destruct (run_opcode pop (after_opcode vm) vm' _ eq_refl ltac:(unfold isBranchExecuting; cbn; by rewrite Hc) E) as [n E'].
    apply push_opcodes in E' as [b ->]; [|done]. cbn. by rewrite Hl.
  - destruct (decide (savedFirstStack vm = [])) as [Hn|Hn].
    + destruct Hph as [?|Hd]; [done|]. rewrite <-Ei in *.
      destruct (doomed_step vm pop vm' Hd Hp (run_inv vm Hr) E Hf') as [Hd' Hl]. split; [by right|done].
    + split; [|done]. left. by rewrite Hfv.
Qed.

(** ** From a script to the next *)

(** The state after the end of a script: the program counter is at the start of the next
    one, the alternate stack is empty, and at most one script was appended. *)
Record next_ok (vm vm' : Engine) : Prop := {
  nx_idx : scriptIdx vm' = S (scriptIdx vm);
  nx_off : scriptOff vm' = 0%nat;
  nx_ops : numOps vm' = 0;
  nx_app : exists app, scripts vm' = scripts vm ++ app /\ (scriptIdx vm = 0%nat -> app = []) /\ (length app <= 1)%nat /\
    Forall (Forall pop_ok) app /\ len (concat app) + pending vm' <= pending vm;
  nx_dstack : small_stack (dstack vm');
  nx_astack : stk (astack vm') = [];
  nx_saved : Forall small (savedFirstStack vm') /\ len (savedFirstStack vm') <= MaxStackSize;
  nx_depth : Depth (dstack vm') <= stack_limit vm;
  nx_tx : vm_tx vm' = vm_tx vm;
  nx_txIdx : vm_txIdx vm' = vm_txIdx vm;
  nx_bip16 : bip16 vm' = bip16 vm;
  nx_cond : condStack vm' = condStack vm;
  nx_phase : bip16 vm = true -> scriptIdx vm = 0%nat -> savedFirstStack vm' <> []
}.

Lemma setStack_stk s l : stk (setStack s l) = rev l.
Proof. destruct s as [k m]. by rewrite setStack_spec. Qed.

Lemma drop_all s : stk (match DropN (Depth s) s with Ok s' => s' | _ => s end) = [].
Proof.
  destruct s as [l m]. unfold Depth. cbn [stk]. rewrite DropN_spec. destruct l as [|b l]; [done|].
  rewrite len_cons. pose proof (len_nonneg l). rewrite !(proj2 (Z.leb_le _ _)) by lia. cbn [andb stk].
  apply drop_ge. unfold len. cbn [length]. lia.
Qed.

Lemma pop_bool_spec vm :
  pop_bool vm = match stk (dstack vm) with
                | [] => invalid_stack
                | b :: l => Ok (asBool b, set_dstack (with_stk (dstack vm) l) vm)
                end.
Proof.
  unfold pop_bool, PopBool. destruct (dstack vm) as [[|b l] m]; [done|]. by rewrite PopByteArray_cons.
Qed.

Lemma CheckErrorCondition_ok final vm :
  post (fun vm' => exists s, vm' = set_dstack s vm) (CheckErrorCondition final vm).
Proof.
  unfold CheckErrorCondition. do 4 (apply post_if; [done|intros _]). rewrite pop_bool_spec.
  destruct (stk (dstack vm)) as [|b l]; [done|]. cbn [mbind outcome_bind]. apply post_if; [done|]. intros _. by eexists.
Qed.

Lemma small_rev l : Forall small l -> Forall small (rev l).
Proof. apply List.Forall_rev. Qed.

Lemma existsb_small l : existsb (fun b => MaxScriptElementSize <? len b) l = false -> Forall small l.
Proof.
  induction l as [|b l IH]; [done|]. cbn [existsb]. intros [Hb Hl]%orb_false_iff. constructor; [|by apply IH].
  unfold small. lia.
Qed.

(** The script that is appended is short enough for what was pending. *)
Lemma parsed_len s pops : parseScript s = Ok pops -> len pops <= len s /\ Forall pop_ok pops.
Proof. intros (Hp & Hl & _)%parseScript_facts. unfold len. split; [lia|done]. Qed.

Lemma post_parse {A} (Q : A -> Prop) s (f : list parsedOpcode -> outcome A) :
  (forall pops, len pops <= len s -> Forall pop_ok pops -> post Q (f pops)) -> post Q (parseScript s ≫= f).
Proof.
  intros Hf. pose proof (parseScript_quiet s) as Hq. destruct (parseScript s) as [pops| |] eqn:E; [|done..].
  apply parsed_len in E as [Hl Hp]. by apply Hf.
Qed.

Lemma last_take_length {A} (l : list A) : (length (take (length l - 1) l) <= length l)%nat.
Proof. rewrite length_take. lia. Qed.

(** What [verifyWitnessProgram] does to the engine. *)
Definition witness_next (vm : Engine) (witness : list bytes) (vm' : Engine) : Prop :=
  small_stack (dstack vm') /\
  ((exists pops l, vm' = continue_with pops l vm /\ len pops <= MaxScriptSize /\ Forall pop_ok pops /\ len l <= len witness) \/
   vm' = set_witnessProgram None vm).

Lemma verifyWitnessProgram_ok witness vm :
  small_stack (dstack vm) -> post (witness_next vm witness) (verifyWitnessProgram witness vm).
Proof.
  intros Hs. unfold verifyWitnessProgram.
  eapply post_bind with (P := fun vm' =>
    (isWitnessVersionActive vm' 0 = true /\ exists pops l, vm' = continue_with pops l vm /\ len pops <= MaxScriptSize /\
      Forall pop_ok pops /\ len l <= len witness) \/ vm' = set_witnessProgram None vm).
  - destruct (witnessProgram vm) as [program|] eqn:Ep; [|apply post_if; [done|by right]].
    destruct (isWitnessVersionActive vm 0) eqn:Ea; [|apply post_if; [done|by right]].
    assert (Hact : forall pops l, isWitnessVersionActive (continue_with pops l vm) 0 = true) by done.
    destruct (Z.eqb_spec (len program) payToWitnessPubKeyHashDataSize) as [E20|_].
    + apply post_if; [done|]. intros _. rewrite payToPubKeyHashScript_eq by done. cbn [mbind outcome_bind].
      apply post_parse. intros pops Hl Hp. left. split; [done|]. exists pops, witness. split_and!; try done.
      revert Hl. unfold payToWitnessPubKeyHashDataSize, MaxScriptSize in *. rewrite !len_cons, len_app.
      change (len (mkbytes [OP_EQUALVERIFY; OP_CHECKSIG])) with 2. lia.
    + destruct (_ =? payToWitnessScriptHashDataSize); [|done]. apply post_if; [done|]. intros _.
      apply post_if; [done|]. intros Hws%Z.ltb_ge. apply post_if; [done|]. intros _.
      apply post_parse. intros pops Hl Hp. left. split; [done|]. do 2 eexists. split_and!; [done|lia|done|].
      unfold len. pose proof (last_take_length witness). lia.
  - intros vm' Hvm. apply post_if; [done|]. intros Hc. cbn [post]. destruct Hvm as [[Ha Hvm]| ->]; [|split; [done|by right]].
    rewrite Ha in Hc. cbn [andb] in Hc. apply existsb_small in Hc. unfold getStack in Hc.
    split; [|by left]. unfold small_stack. apply small_rev in Hc. by rewrite rev_involutive in Hc.
Qed.

Lemma pending_mono vm vm' :
  bip16 vm' = bip16 vm -> (witnessProgram vm' = witnessProgram vm \/ witnessProgram vm' = None) ->
  (scriptIdx vm <= scriptIdx vm')%nat -> pending vm' <= pending vm.
Proof.
  intros Hb Hw Hi. unfold pending, MaxScriptElementSize, MaxScriptSize. rewrite Hb.
  destruct (bip16 vm), (Nat.leb_spec (scriptIdx vm) 1), (Nat.leb_spec (scriptIdx vm') 1), (Nat.leb_spec (scriptIdx vm) 2),
    (Nat.leb_spec (scriptIdx vm') 2); cbn [andb]; try lia; destruct Hw as [-> | ->]; repeat case_bool_decide; cbn [andb]; try lia; done.
Qed.

(** The script hash and the witness program are pending once. *)
Lemma pending_hash vm vm' :
  bip16 vm = true -> scriptIdx vm = 1%nat -> bip16 vm' = true -> witnessProgram vm' = witnessProgram vm ->
  scriptIdx vm' = 2%nat -> MaxScriptElementSize + pending vm' = pending vm.
Proof. intros Hb Hi Hb' Hw Hi'. unfold pending. rewrite Hb, Hb', Hi, Hi', Hw. cbn [andb Nat.leb]. lia. Qed.

Lemma pending_witness vm vm' :
  witnessProgram vm <> None -> scriptIdx vm = (if bip16 vm then 2 else 1)%nat -> bip16 vm' = bip16 vm ->
  scriptIdx vm' = S (scriptIdx vm) -> MaxScriptSize + pending vm' = pending vm.
Proof.
  intros Hw Hi Hb Hi'. unfold pending. rewrite Hb, Hi', Hi. rewrite (bool_decide_eq_true_2 (witnessProgram vm <> None)) by done.
  destruct (bip16 vm); cbn [andb Nat.leb]; rewrite andb_false_r; lia.
Qed.

(** The engine when [next_script] chooses the next script. *)
Definition past_end (vm : Engine) : Engine :=
  set_scriptIdx (S (scriptIdx vm)) (set_scriptOff 0 (set_numOps 0 (set_astack
    (match DropN (Depth (astack vm)) (astack vm) with Ok s => s | _ => astack vm end) vm))).

Section next.
Context (vm : Engine) (Hi : inv vm) (Hdep : Depth (dstack vm) <= MaxStackSize).
Context (Hsv : Forall small (savedFirstStack vm) /\ len (savedFirstStack vm) <= MaxStackSize).
Context (H0n : bip16 vm = true -> scriptIdx vm = 0%nat -> stk (dstack vm) <> []).
Context (H1n : bip16 vm = true -> scriptIdx vm = 1%nat -> savedFirstStack vm <> []).

Lemma limit_bound : MaxStackSize <= stack_limit vm.
Proof. unfold stack_limit. lia. Qed.

Lemma past_end_astack : stk (astack (past_end vm)) = [].
Proof. apply drop_all. Qed.

(** Nothing is appended. *)
Lemma next_default vm' :
  vm' = past_end vm \/ vm' = set_witnessProgram None (past_end vm) -> (bip16 vm = true -> scriptIdx vm <> 0%nat) ->
  next_ok vm vm'.
Proof.
  intros Hv Hb. pose proof limit_bound. destruct Hi.
  destruct Hv as [-> | ->]; (split; try done; [|apply past_end_astack|cbn; lia|intros; exfalso; by apply Hb]); exists []; rewrite app_nil_r;
    (split_and!; try done; [cbn; lia|]); change (len (concat (@nil (list parsedOpcode)))) with 0; rewrite Z.add_0_l;
    (apply pending_mono; [done| |cbn; lia]); cbn; tauto.
Qed.

Lemma next_append pops l s vm' :
  vm' = continue_with pops l (set_dstack s (past_end vm)) -> scriptIdx vm <> 0%nat -> Forall pop_ok pops ->
  Forall small (rev l) -> len l <= stack_limit vm -> len pops + pending vm' <= pending vm -> next_ok vm vm'.
Proof.
  intros -> Hn Hp Hs Hl Hpd. split; try done.
  - exists [pops]. split_and!; try done; [by constructor|]. by rewrite concat_cons, app_nil_r.
  - unfold small_stack, continue_with. cbn [dstack set_dstack set_scripts]. by rewrite setStack_stk.
  - apply past_end_astack.
  - unfold Depth, continue_with. cbn [dstack set_dstack set_scripts]. rewrite setStack_stk. unfold len in *. by rewrite length_rev.
Qed.

Lemma next_saved : bip16 vm = true -> scriptIdx vm = 0%nat ->
  next_ok vm (set_savedFirstStack (getStack (dstack (past_end vm))) (past_end vm)).
Proof.
  intros Hb Hz. pose proof limit_bound. destruct Hi. unfold getStack. split; try done.
  - exists []. rewrite app_nil_r. split_and!; try done; [cbn; lia|]. change (len (concat (@nil (list parsedOpcode)))) with 0.
    rewrite Z.add_0_l. apply pending_mono; [done|by left|cbn; lia].
  - apply past_end_astack.
  - cbn [savedFirstStack set_savedFirstStack]. split; [by apply small_rev|]. unfold Depth in Hdep. unfold len in *. by rewrite length_rev.
  - cbn. lia.
  - intros _ _. cbn [savedFirstStack set_savedFirstStack dstack past_end]. intros Er. apply (H0n Hb Hz).
    cbn in Er. apply (f_equal (@rev _)) in Er. by rewrite rev_involutive in Er.
Qed.

Lemma past_end_input : cur_input (past_end vm) = cur_input vm.
Proof. done. Qed.

Lemma next_witness :
  witnessProgram vm <> None -> scriptIdx vm = (if bip16 vm then 2 else 1)%nat ->
  post (next_ok vm) (ti ← cur_input (past_end vm); verifyWitnessProgram (wit_items (Witness ti)) (past_end vm)).
Proof.
  intros Hw Hx. rewrite past_end_input. destruct (cur_input vm) as [ti| |] eqn:Et;
    [|done|by pose proof (inv_input vm Hi) as Hq; rewrite Et in Hq].
  cbn [mbind outcome_bind]. eapply post_weaken; [apply verifyWitnessProgram_ok, (inv_dstack vm Hi)|].
  intros vm' [Hs [(pops & l & -> & Hl & Hp & Hlen)| ->]].
  - apply (next_append pops l (dstack (past_end vm))); [done|by rewrite Hx; destruct (bip16 vm)|done| | |].
    + unfold small_stack, continue_with in Hs. cbn [dstack set_dstack set_scripts] in Hs. by rewrite setStack_stk in Hs.
    + unfold stack_limit, witness_len. rewrite Et. lia.
    + rewrite <-(pending_witness vm (continue_with pops l (past_end vm)) Hw Hx); [lia|done..].
  - apply next_default; [by right|]. intros Hb. by rewrite Hx, Hb.
Qed.

Lemma next_script_hash s :
  bip16 vm = true -> scriptIdx vm = 1%nat ->
  post (next_ok vm)
    (match last (savedFirstStack vm) with
     | None => Panic
     | Some script =>
         pops ← parseScript script;
         Ok (continue_with pops (take (length (savedFirstStack vm) - 1) (savedFirstStack vm)) (set_dstack s (past_end vm)))
     end).
Proof.
  intros Eb E1. destruct (last (savedFirstStack vm)) as [script|] eqn:El; [|by apply last_None in El; destruct (H1n Eb E1)].
  assert (Hsc : small script) by (rewrite last_lookup in El; exact (Forall_lookup_1 _ _ _ _ (proj1 Hsv) El)).
  apply post_parse. intros pops Hl Hp. cbn [post].
  pose proof (last_take_length (savedFirstStack vm)). pose proof limit_bound.
  eapply next_append; [done|by rewrite E1|done|apply small_rev, Forall_take, Hsv|unfold len in *; lia|].
  rewrite <-(pending_hash vm (continue_with pops (take (length (savedFirstStack vm) - 1) (savedFirstStack vm))
    (set_dstack s (past_end vm))) Eb E1); [|done|done|cbn; by rewrite E1]. unfold small in Hsc. lia.
Qed.

Lemma next_script_ok : post (next_ok vm) (next_script vm).
Proof.
  unfold next_script. cbv zeta.
  change (post (next_ok vm)
    (if Nat.eqb (scriptIdx vm) 0 && bip16 vm then Ok (set_savedFirstStack (getStack (dstack (past_end vm))) (past_end vm))
     else if Nat.eqb (scriptIdx vm) 1 && bip16 vm then
       vm' ← CheckErrorCondition false (past_end vm);
       match last (savedFirstStack vm') with
       | None => Panic
       | Some script =>
           pops ← parseScript script;
           Ok (continue_with pops (take (length (savedFirstStack vm') - 1) (savedFirstStack vm')) vm')
       end
     else if (Nat.eqb (scriptIdx vm) 1 && bool_decide (witnessProgram vm <> None)) ||
             (Nat.eqb (scriptIdx vm) 2 && bool_decide (witnessProgram vm <> None) && bip16 vm) then
       ti ← cur_input (past_end vm); verifyWitnessProgram (wit_items (Witness ti)) (past_end vm)
     else Ok (past_end vm))).
  apply post_if; [intros [E0%Nat.eqb_eq Eb]%andb_true_iff; by apply next_saved|intros E0].
  apply post_if.
  { intros [E1%Nat.eqb_eq Eb]%andb_true_iff. eapply post_bind; [apply CheckErrorCondition_ok|]. intros vm' [s ->].
    by apply next_script_hash. }
  intros E1. apply post_if.
  - intros [[Ei Hw]%andb_true_iff|[[Ei Hw]%andb_true_iff Eb]%andb_true_iff]%orb_true_iff;
      apply bool_decide_eq_true in Hw; (apply next_witness; [done|]).
    + rewrite Ei in E1. cbn [andb] in E1. rewrite E1. by apply Nat.eqb_eq.
    + rewrite Eb. by apply Nat.eqb_eq.
  - intros _. apply next_default; [by left|]. intros Eb Ez. by rewrite Ez, Eb in E0.
Qed.
End next.


(** ** Steps *)

Lemma concat_drop k (l : list (list parsedOpcode)) :
  len (concat (drop k l)) = len (default [] (l !! k)) + len (concat (drop (S k) l)).
Proof.
  destruct (l !! k) as [s|] eqn:E.
  - rewrite (drop_S l s k) by done. cbn [default id]. by rewrite concat_cons, len_app.
  - apply lookup_ge_None in E. rewrite !drop_ge by lia. done.
Qed.

Lemma measure_opcode vm vm' :
  running vm -> frame (after_opcode vm) vm' -> measure vm' = measure vm - 1.
Proof.
  intros Hr Hf. unfold measure, pending. rewrite (cur_script_frame _ _ Hf). destruct Hf as [-> -> -> _ _ _ -> _ _ ->].
  change (cur_script (after_opcode vm)) with (cur_script vm). cbn [after_opcode scripts scriptIdx scriptOff bip16 witnessProgram set_scriptOff]. lia.
Qed.

(** The skipping of an empty script and the reset of the separator, after [next_script]. *)
Definition settle (vm : Engine) : Engine :=
  set_lastCodeSep 0
    (if Nat.ltb (scriptIdx vm) (length (scripts vm)) && Nat.leb (length (cur_script vm)) (scriptOff vm)
     then set_scriptIdx (S (scriptIdx vm)) vm else vm).

Lemma settle_ok vm vm' :
  inv vm -> Forall (Forall pop_ok) (scripts vm) -> length (scripts vm) = Nat.max 2 (S (scriptIdx vm)) ->
  scriptOff vm = length (cur_script vm) -> next_ok vm vm' ->
  Nat.leb (length (scripts (settle vm'))) (scriptIdx (settle vm')) = false ->
  running (settle vm') /\ measure (settle vm') <= measure vm.
Proof.
  intros Hi Hpops Hlen Hoff Hn. destruct (nx_app vm vm' Hn) as (app & Es & Hz & Ha & Hpa & Hpd).
  assert (Hls : length (scripts vm') = (length (scripts vm) + length app)%nat) by (rewrite Es; apply length_app).
  pose proof (nx_idx vm vm' Hn) as Ei. pose proof (nx_off vm vm' Hn) as Eo. unfold settle. rewrite Ei, Eo.
  destruct (Nat.ltb_spec (S (scriptIdx vm)) (length (scripts vm'))) as [Hlt|Hge]; cbn [andb].
  2: { cbn [set_lastCodeSep scripts scriptIdx]. rewrite Ei, (proj2 (Nat.leb_le _ _)) by lia. done. }
  destruct (Nat.leb_spec (length (cur_script vm')) 0) as [Hemp|Hne].
  - cbn [set_lastCodeSep set_scriptIdx scripts scriptIdx]. rewrite (proj2 (Nat.leb_le _ _)); [done|].
    destruct (scriptIdx vm); [rewrite Hz in * by done; cbn in Hls|]; lia.
  - intros _. split.
    + split; try done.
      * destruct Hi. split; try done; cbn; [apply Hn|unfold small_stack; by rewrite (nx_astack vm vm' Hn)|rewrite (nx_ops vm vm' Hn)|lia| | |].
        -- unfold MaxOpsPerScript. lia.
        -- rewrite Eo. lia.
        -- by rewrite Ei.
        -- change (post input_ok (cur_input vm')). unfold cur_input in *. by rewrite (nx_tx vm vm' Hn), (nx_txIdx vm vm' Hn).
      * change ((scriptOff vm' < length (cur_script vm'))%nat). by rewrite Eo.
      * cbn. rewrite Es. by apply Forall_app.
      * cbn. rewrite Ei. destruct (scriptIdx vm); [rewrite Hz in * by done; cbn in Hls|]; lia.
      * apply (nx_saved vm vm' Hn).
      * cbn. unfold Depth at 2. rewrite (nx_astack vm vm' Hn). pose proof (nx_depth vm vm' Hn) as Hd.
        unfold stack_limit, witness_len, cur_input in *. cbn [set_lastCodeSep vm_tx vm_txIdx].
        rewrite (nx_tx vm vm' Hn), (nx_txIdx vm vm' Hn). change (len (@nil bytes)) with 0. lia.
      * cbn. intros Hb. rewrite (nx_bip16 vm vm' Hn) in Hb. unfold phase. cbn. rewrite Ei.
        destruct (scriptIdx vm) eqn:E; [|done]. left. by apply (nx_phase vm vm' Hn).
    + change (measure vm' <= measure vm). unfold measure. rewrite Ei, Eo, Hoff. fold (len (cur_script vm)).
      pose proof (concat_drop (S (scriptIdx vm)) (scripts vm')) as Ec. unfold cur_script at 1. rewrite Ei.
      rewrite Es in Ec at 1. rewrite drop_app_le, concat_app, len_app in Ec by lia. lia.
Qed.

Lemma validPC_ok vm : running vm -> validPC vm = Ok ().
Proof.
  intros [[] Ho]. unfold validPC. rewrite !(proj2 (Nat.leb_gt _ _)) by lia. done.
Qed.

Lemma limit_small vm : inv vm -> stack_limit vm < 2 ^ 62.
Proof.
  intros Hi. pose proof (inv_input vm Hi) as Ht. unfold stack_limit, witness_len, MaxStackSize, post in *.
  destruct (cur_input vm) as [ti| |]; [destruct Ht|..]; lia.
Qed.

Lemma exec_ok vm pop :
  running vm -> cur_script vm !! scriptOff vm = Some pop ->
  post (fun vm' => inv vm' /\ frame (after_opcode vm) vm' /\ (bip16 vm = true -> phase vm' /\
    (scriptIdx vm = 1%nat -> savedFirstStack vm = [] -> (S (scriptOff vm) < length (cur_script vm))%nat)))
    (executeOpcode pop (after_opcode vm)).
Proof.
  intros Hr Hp. assert (Hpo : pop_ok pop).
  { pose proof (run_pops vm Hr) as Hs. unfold cur_script in Hp. destruct (scripts vm !! scriptIdx vm) as [s|] eqn:Es; [|done].
    exact (Forall_lookup_1 _ _ _ _ (Forall_lookup_1 _ _ _ _ Hs Es) Hp). }
  assert (Hd : Depth (dstack (after_opcode vm)) < 2 ^ 62).
  { pose proof (limit_small vm (run_inv vm Hr)). pose proof (run_depth vm Hr). unfold Depth in *.
    pose proof (len_nonneg (stk (astack vm))). cbn [after_opcode dstack set_scriptOff]. lia. }
  assert (Hex := executeOpcode_ok pop (after_opcode vm) Hpo (after_opcode_inv vm Hr) Hd).
  destruct (executeOpcode pop (after_opcode vm)) as [vm2| |] eqn:E; [|done..]. destruct Hex as [Hi2 Hf2].
  split_and!; [done..|]. intros Hb. by apply (exec_phase vm pop).
Qed.

(** The hypotheses of [next_script_ok] at the end of a script. *)
Lemma end_ok vm vm' :
  running vm -> inv vm' -> frame (after_opcode vm) vm' -> Depth (dstack vm') + Depth (astack vm') <= MaxStackSize ->
  (length (cur_script vm') <= scriptOff vm')%nat ->
  (bip16 vm = true -> phase vm' /\
    (scriptIdx vm = 1%nat -> savedFirstStack vm = [] -> (S (scriptOff vm) < length (cur_script vm))%nat)) ->
  post (next_ok vm') (next_script vm').
Proof.
  intros Hr Hi Hf Hdep Hend Hph. pose proof (cur_script_frame _ _ Hf) as Ec.
  destruct Hf as [Hs Hx Ho _ _ _ Hb Hv]. cbn [after_opcode scripts scriptIdx scriptOff bip16 savedFirstStack set_scriptOff] in *.
  apply next_script_ok; [done| |rewrite Hv; apply (run_saved vm Hr)|..].
  - unfold Depth in *. pose proof (len_nonneg (stk (astack vm'))). lia.
  - rewrite Hb. intros Eb Ei. destruct (Hph Eb) as [Hp _]. unfold phase in Hp. rewrite Ei in Hp. destruct Hp as (_ & _ & Hl).
    intros En. rewrite En, Ho in Hl. done.
  - rewrite Hb, Hx, Hv. intros Eb Ei En. destruct (Hph Eb) as [_ Hp]. specialize (Hp Ei En).
    rewrite Ec, Ho in Hend. change (cur_script (after_opcode vm)) with (cur_script vm) in Hend. lia.
Qed.

Lemma Step_ok vm :
  running vm -> post (fun '(done, vm') => done = false -> running vm' /\ measure vm' < measure vm) (Step vm).
Proof.
  intros Hr. unfold Step. rewrite validPC_ok by done. cbn [mbind outcome_bind]. fold (after_opcode vm).
  destruct (lookup_lt_is_Some_2 (cur_script vm) (scriptOff vm)) as [pop Hp]; [apply Hr|]. rewrite Hp.
  eapply post_bind; [by apply exec_ok|]. intros vm2 (Hi2 & Hf2 & Hph). pose proof (measure_opcode vm vm2 Hr Hf2) as Hm.
  apply post_if; [done|]. intros Hdep%Z.ltb_ge. apply post_if.
  - intros Hend%Nat.leb_le. apply post_if; [done|]. intros _.
    eapply post_bind; [by apply (end_ok vm vm2)|]. intros vm3 Hn3. cbn [post]. fold (settle vm3). intros Hdone.
    destruct (settle_ok vm2 vm3) as [Hr4 Hm4]; try done.
    + rewrite (frame_scripts _ _ Hf2). apply (run_pops vm Hr).
    + destruct Hf2 as [-> ->]. apply (run_len vm Hr).
    + pose proof (inv_off vm2 Hi2). lia.
    + split; [done|lia].
  - intros Hend%Nat.leb_gt. cbn [post]. intros _. split; [|lia]. split; try done.
    + rewrite (frame_scripts _ _ Hf2). apply (run_pops vm Hr).
    + destruct Hf2 as [-> ->]. apply (run_len vm Hr).
    + rewrite (frame_saved _ _ Hf2). apply (run_saved vm Hr).
    + unfold stack_limit. lia.
    + rewrite (frame_bip16 _ _ Hf2). apply Hph.
Qed.

Lemma Execute_ok fuel vm :
  running vm -> measure vm <= Z.of_nat fuel -> exists r, Execute fuel vm = Some r /\ r <> Panic.
Proof.
  revert vm. induction fuel as [|fuel IH]; intros vm Hr Hm.
  - exfalso. unfold measure in Hm. pose proof (run_off vm Hr). pose proof (pending_nonneg vm).
    pose proof (len_nonneg (concat (drop (S (scriptIdx vm)) (scripts vm)))). unfold len in *. lia.
  - cbn [Execute]. pose proof (Step_ok vm Hr) as Hs. destruct (Step vm) as [[[] vm']| |]; cbn [post] in Hs; [..|done].
    + pose proof (CheckErrorCondition_ok true vm') as Hc. exists (CheckErrorCondition true vm'). split; [done|].
      intros E. by rewrite E in Hc.
    + destruct Hs as [Hr' Hm']; [done|]. apply IH; [done|lia].
    + by eexists.
Qed.

(** * New engines *)

Lemma parse_limited_ok scr pops :
  parse_limited scr = Ok pops -> Forall pop_ok pops /\ len pops <= MaxScriptSize /\ (pops = [] -> scr = []).
Proof.
  unfold parse_limited. destruct (Z.ltb_spec MaxScriptSize (len scr)); [done|]. intros E.
  destruct (parseScript_facts scr pops E) as (Hp & Hl & Hn). split_and!; [done| |done]. unfold len in *. lia.
Qed.

(** The engine [NewEngine] returns, and why. *)
Lemma NewEngine_inv scriptPubKey tx txIdx flags sc hc amt vm :
  NewEngine scriptPubKey tx txIdx flags sc hc amt = Ok vm ->
  exists ti sigPops pkPops,
    0 <= txIdx /\ Tx_TxIn tx !! Z.to_nat txIdx = Some ti /\ (SignatureScript ti = [] -> scriptPubKey <> []) /\
    parse_limited (SignatureScript ti) = Ok sigPops /\ parse_limited scriptPubKey = Ok pkPops /\
    (bip16 vm = true -> (isScriptHash pkPops = true \/ isHTLCWithScriptHash pkPops = true) /\ isPushOnly sigPops = true) /\
    scripts vm = [sigPops; pkPops] /\ scriptIdx vm = (if decide (SignatureScript ti = []) then 1 else 0)%nat /\
    scriptOff vm = 0%nat /\ lastCodeSep vm = 0%nat /\ stk (dstack vm) = [] /\ stk (astack vm) = [] /\ vm_tx vm = tx /\
    vm_txIdx vm = txIdx /\ condStack vm = [] /\ numOps vm = 0 /\ savedFirstStack vm = [].
Proof.
  unfold NewEngine. destruct (_ || _) eqn:Ei; [done|]. apply orb_false_iff in Ei as [E1 E2].
  apply Z.ltb_ge in E1. apply Z.leb_gt in E2.
  destruct (lookup_lt_is_Some_2 (Tx_TxIn tx) (Z.to_nat txIdx)) as [ti Et]; [unfold len in E2; lia|].
  rewrite (nth_lookup_Some _ _ default_txin ti Et). destruct (_ && _) eqn:Ee; [done|]. cbv zeta.
  destruct (_ && (_ && _)); [done|]. destruct (_ && negb (IsPushOnlyScript _)); [done|].
  destruct (parse_limited (SignatureScript ti)) as [sigPops| |] eqn:Es; [|done..]. cbn [mbind outcome_bind].
  destruct (parse_limited scriptPubKey) as [pkPops| |] eqn:Ep; [|done..]. cbn [mbind outcome_bind].
  destruct (_ && negb (isPushOnly sigPops)) eqn:Eb; [done|].
  match goal with |- mbind _ ?m = _ -> _ => destruct m as [w| |]; [|done..] end. cbn [mbind outcome_bind]. intros [= <-].
  exists ti, sigPops, pkPops. cbn. split_and!; try done.
  - intros En Ek. by rewrite En, Ek in Ee.
  - intros Hb. rewrite Hb in Eb. apply negb_false_iff in Eb. apply andb_true_iff in Hb as [_ Hb].
    by apply orb_true_iff in Hb.
  - destruct (decide (SignatureScript ti = [])) as [En|En]; [by rewrite En|].
    by destruct (SignatureScript ti).
Qed.

(** Three scripts of [NewEngine] and of a witness, and one of a stack item. *)
Definition max_steps : nat := Z.to_nat (3 * MaxScriptSize + MaxScriptElementSize).

Lemma NewEngine_ok scriptPubKey tx txIdx flags sc hc amt vm :
  NewEngine scriptPubKey tx txIdx flags sc hc amt = Ok vm -> Forall input_ok (Tx_TxIn tx) ->
  running vm /\ measure vm <= Z.of_nat max_steps.
Proof.
  intros E Hin. apply NewEngine_inv in E as (ti & sigPops & pkPops & Hx & Et & Hne & Es & Ep & Hb & Esc & Ei & Eo & El & Ed & Ea & Etx & Eti & Ec & En & Esv).
  apply parse_limited_ok in Es as (Hs1 & Hs2 & Hs3), Ep as (Hp1 & Hp2 & Hp3).
  assert (Ecur : cur_script vm = if decide (SignatureScript ti = []) then pkPops else sigPops).
  { unfold cur_script. rewrite Esc, Ei. by destruct (decide _). }
  assert (Hpos : (0 < length (cur_script vm))%nat).
  { rewrite Ecur. destruct (decide _) as [Hz|Hz]; [destruct pkPops|destruct sigPops]; cbn; try lia; exfalso; [by apply Hne, Hp3|by apply Hz, Hs3]. }
  assert (Eci : cur_input vm = Ok ti) by (unfold cur_input; by rewrite Etx, Eti, (proj2 (Z.ltb_ge txIdx 0)), Et by lia).
  assert (Hdoom : bip16 vm = true -> scriptIdx vm = 1%nat -> doomed vm).
  { intros Hbt Hi1. destruct (Hb Hbt) as [Hsh _]. unfold doomed. rewrite Ecur, Eo, Ed, Ec. rewrite Ei in Hi1.
    destruct (decide _); [|done]. destruct Hsh; [left|right]; done. }
  split.
  - split; rewrite ?Ecur, ?Esc, ?Eo, ?Esv, ?Ei; try done.
    + split; unfold small_stack; rewrite ?Ed, ?Ea, ?En, ?El, ?Eo, ?Ei, ?Esc, ?Eci; try done; [lia|by destruct (decide _); cbn; lia|].
      exact (Forall_lookup_1 _ _ _ _ Hin Et).
    + by rewrite <-Ecur.
    + by repeat constructor.
    + by destruct (decide _).
    + unfold Depth, stack_limit, MaxStackSize. rewrite Ed, Ea. change (len (@nil bytes)) with 0. lia.
    + intros Hbt. unfold phase. destruct (scriptIdx vm) as [|[|]] eqn:Ei'; [|right; by apply Hdoom|done].
      rewrite Ec, Ed, Eo, Ecur. rewrite Ei in Ei'. destruct (decide _); [done|]. split_and!; [done|by apply Hb|done].
  - assert (Hpd : pending vm <= MaxScriptElementSize + MaxScriptSize).
    { unfold pending, MaxScriptElementSize, MaxScriptSize. repeat case_match; lia. }
    unfold measure, max_steps. rewrite Ecur, Eo, Esc, Ei. pose proof (len_nonneg sigPops).
    assert (0 <= MaxScriptSize /\ 0 <= MaxScriptElementSize) by done.
    destruct (decide _); cbn [drop concat]; rewrite ?app_nil_r; unfold len at 1; cbn [length]; fold (len pkPops); unfold len in *; lia.
Qed.

(** * Theorems *)

(** The states of [Execute], as a transition system. *)
Inductive reaches (vm : Engine) : Engine -> Prop :=
| reach_start : reaches vm vm
| reach_step vm' vm'' : reaches vm vm' -> Step vm' = Ok (false, vm'') -> reaches vm vm''.

Lemma reaches_running vm vm' : running vm -> reaches vm vm' -> running vm'.
Proof.
  intros Hr. induction 1 as [|vm' vm'' _ IH Es]; [done|]. pose proof (Step_ok vm' IH) as Hs. rewrite Es in Hs.
  by apply Hs.
Qed.

Lemma Execute_mono n m vm r : Execute n vm = Some r -> (n <= m)%nat -> Execute m vm = Some r.
Proof.
  revert m vm. induction n as [|n IH]; intros m vm; [done|]. destruct m as [|m]; [lia|]. cbn [Execute]. intros E Hle.
  destruct (Step vm) as [[[] vm']| |]; try done. apply IH; [done|lia].
Qed.

(** C3: The invariant of the script engine.  In every state [Execute] goes through, from any
    engine [NewEngine] returns: the program counter is on an opcode, the last code separator
    is not after it, at most 201 operations were counted, every item of the two stacks is at
    most 520 bytes long, there are at most 1000 of them (or as many as a witness that was
    just loaded), and the engine has two to four scripts of which it runs the last one
    unless it runs the first. *)
Theorem engine_invariant scriptPubKey tx txIdx flags sc hc amt vm0 vm :
  NewEngine scriptPubKey tx txIdx flags sc hc amt = Ok vm0 -> Forall input_ok (Tx_TxIn tx) -> reaches vm0 vm ->
  (lastCodeSep vm <= scriptOff vm < length (cur_script vm))%nat /\
  0 <= numOps vm <= MaxOpsPerScript /\
  Forall (fun item => len item <= MaxScriptElementSize) (stk (dstack vm) ++ stk (astack vm)) /\
  Depth (dstack vm) + Depth (astack vm) <= Z.max MaxStackSize (witness_len vm) /\
  length (scripts vm) = Nat.max 2 (S (scriptIdx vm)).
Proof.
  intros E Hin Hre. apply NewEngine_ok in E as [Hr _]; [|done]. apply reaches_running in Hre as [[] Ho Hp Hl Hs Hd _]; [|done].
  split_and!; try done; try lia. by apply Forall_app.
Qed.

(** C2: [Execute] ends: from any engine [NewEngine] returns, the loop is left after at most
    30520 steps, with success or with an error, and neither it nor what it calls panics; a
    larger bound on the steps gives the same result. *)
Theorem execute_terminates scriptPubKey tx txIdx flags sc hc amt vm :
  NewEngine scriptPubKey tx txIdx flags sc hc amt = Ok vm -> Forall input_ok (Tx_TxIn tx) ->
  max_steps = Z.to_nat 30520 /\
  exists r, r <> Panic /\ forall fuel, (max_steps <= fuel)%nat -> Execute fuel vm = Some r.
Proof.
  intros E Hin. split; [done|]. apply NewEngine_ok in E as [Hr Hm]; [|done].
  destruct (Execute_ok max_steps vm Hr Hm) as (r & Er & Hnp). exists r. split; [done|].
  intros fuel Hf. by apply (Execute_mono max_steps).
Qed.
End run.

(** * Examples *)

(** Stand-ins for the functions outside of the repository, to evaluate examples: a digest of
    the right size and a verifier that accepts every signature. *)
#[local] Program Instance example_crypto : Crypto :=
  {| ripemd160_Sum := fun b => take 20 (Sha256.sha256 b ++ replicate 20 Byte.x00); ecdsa_Verify := fun _ _ _ _ => true |}.
Next Obligation. intros b. unfold len. rewrite length_take, length_app, length_replicate. lia. Qed.
#[local] Existing Instance sha256_instance.
#[local] Existing Instance map_order.

Definition spend (sigScript : bytes) : MsgTx :=
  {| Version := 1;
     Tx_TxIn := [{| PreviousOutPoint := {| Op_Hash := replicate 32 Byte.x00; Op_Index := 0 |};
                    SignatureScript := sigScript; Witness := None; Sequence := MaxTxInSequenceNum; Age := 100 |}];
     Tx_TxOut := []; LockTime := 0 |}.

(** 2 and 3, then: if the age of the input exceeds 10, compare their sum with 5. *)
Definition example_sig : bytes := mkbytes [0x52; 0x53].
Definition example_pk : bytes :=
  mkbytes [OP_ADD; OP_INPUTAGE; 0x5a; OP_GREATERTHAN; OP_IF; 0x55; OP_NUMEQUAL; OP_ELSE; OP_RETURN; OP_ENDIF].

Lemma spend_inputs s : Forall input_ok (Tx_TxIn (spend s)).
Proof. apply Forall_singleton. split; [split; by vm_compute|by vm_compute]. Qed.

Definition example_engine : outcome Engine := NewEngine example_pk (spend example_sig) 0 StandardVerifyFlags None None 0.

Example example_accepted :
  match example_engine with Ok vm => match Execute 12 vm with Some (Ok vm') => stk (dstack vm') = [] | _ => False end | _ => False end.
Proof. vm_compute. reflexivity. Qed.

Lemma engine_invariant_witness :
  exists vm vm', example_engine = Ok vm /\ reaches vm vm' /\ scriptOff vm' = 1%nat /\ 0 <= numOps vm' <= MaxOpsPerScript.
Proof.
  destruct example_engine as [vm| |] eqn:E; [|vm_compute in E; discriminate..].
  destruct (Step vm) as [[[] vm']| |] eqn:Es; try (exfalso; revert Es; vm_compute in E; injection E as <-; vm_compute; discriminate).
  assert (Hr : reaches vm vm') by exact (reach_step vm vm vm' (reach_start vm) Es).
  exists vm, vm'. split; [done|]. split; [done|]. split.
  - revert Es. vm_compute in E. injection E as <-. vm_compute. intros Es. by injection Es as <-.
  - apply (engine_invariant example_pk (spend example_sig) 0 StandardVerifyFlags None None 0 vm vm' E (spend_inputs _) Hr).
Defined.

Lemma execute_terminates_witness :
  exists vm r, example_engine = Ok vm /\ r <> Panic /\ Execute max_steps vm = Some r.
Proof.
  destruct example_engine as [vm| |] eqn:E; [|vm_compute in E; discriminate..].
  destruct (execute_terminates example_pk (spend example_sig) 0 StandardVerifyFlags None None 0 vm E (spend_inputs _)) as (_ & r & Hr & Hf).
  exists vm, r. split_and!; [done..|]. by apply Hf.
Defined.
