(* ===== verification/EngineCache.v ===== *)
(** The signature cache does not change what the script engine accepts: an engine with a
    cache of verified signatures and the engine without a cache go through the same states. *)

From S2P Require Import Prelude Big ScriptNum Stack Opcode Script WireEncoding WireTx Chainhash SigHash PubKey Signature SigCache Sha1 Engine EngineFacts EngineRun.

(** * Simulation of outcomes *)

Definition sim {A} (R : A -> A -> Prop) (o1 o2 : outcome A) : Prop :=
  match o1, o2 with
  | Ok a, Ok b => R a b
  | Err e1, Err e2 => e1 = e2
  | Panic, Panic => True
  | _, _ => False
  end.

Lemma sim_bind {A B} (R : A -> A -> Prop) (S : B -> B -> Prop) (m1 m2 : outcome A) (f1 f2 : A -> outcome B) :
  sim R m1 m2 -> (forall a b, R a b -> sim S (f1 a) (f2 b)) -> sim S (m1 ≫= f1) (m2 ≫= f2).
Proof. destruct m1, m2; cbn; try done. auto. Qed.

(** A call that does not depend on the cache. *)
Lemma sim_same {A B} (S : B -> B -> Prop) (m1 m2 : outcome A) (f1 f2 : A -> outcome B) :
  m1 = m2 -> (forall a, m1 = Ok a -> sim S (f1 a) (f2 a)) -> sim S (m1 ≫= f1) (m2 ≫= f2).
Proof. intros <-. destruct m1; cbn; auto. Qed.

Lemma sim_if {A} (R : A -> A -> Prop) (b1 b2 : bool) (m1 m2 k1 k2 : outcome A) :
  b1 = b2 -> sim R m1 k1 -> sim R m2 k2 -> sim R (if b1 then m1 else m2) (if b2 then k1 else k2).
Proof. intros <-. by destruct b1. Qed.

Lemma sim_try {A B} (R : B -> B -> Prop) (m1 m2 : outcome A) (k1 k2 : A -> outcome B) (r1 r2 : outcome B) :
  m1 = m2 -> (forall a, sim R (k1 a) (k2 a)) -> sim R r1 r2 ->
  sim R (match m1 with Ok a => k1 a | Err _ => r1 | Panic => Panic end)
        (match m2 with Ok a => k2 a | Err _ => r2 | Panic => Panic end).
Proof. intros <-. destruct m1; cbn; auto. Qed.

Section cache.
Context `{HashFunction} `{Crypto} `{MapOrder}.

Definition verifies (h : bytes) (sig : Signature) (pk : PublicKey) : bool := Signature_Verify sig h pk.

(** The engine without its cache; the cache of an engine is sound. *)
Definition erase (vm : Engine) : Engine := set_sigCache None vm.
Definition cache_ok (vm : Engine) : Prop := match sigCache vm with Some c => sound_cache verifies c | None => True end.
Definition erased (vm vm' : Engine) : Prop := vm' = erase vm /\ cache_ok vm.
Definition erased_with {A} (p p' : A * Engine) : Prop :=
  let '(a, vm) := p in let '(b, vm') := p' in a = b /\ erased vm vm'.

Lemma erased_intro vm : cache_ok vm -> erased vm (erase vm).
Proof. done. Qed.

Lemma pop_bytes_sim vm : cache_ok vm -> sim erased_with (pop_bytes vm) (pop_bytes (erase vm)).
Proof. intros Hc. unfold pop_bytes. cbn [dstack erase set_sigCache]. by destruct (PopByteArray (dstack vm)) as [[]| |]. Qed.

Lemma pop_int_sim vm : cache_ok vm -> sim erased_with (pop_int vm) (pop_int (erase vm)).
Proof. intros Hc. unfold pop_int. cbn [dstack erase set_sigCache]. by destruct (PopInt (dstack vm)) as [[]| |]. Qed.

Lemma pop_bool_sim vm : cache_ok vm -> sim erased_with (pop_bool vm) (pop_bool (erase vm)).
Proof. intros Hc. unfold pop_bool. cbn [dstack erase set_sigCache]. by destruct (PopBool (dstack vm)) as [[]| |]. Qed.

Lemma on_dstack_sim f vm : cache_ok vm -> sim erased (on_dstack f vm) (on_dstack f (erase vm)).
Proof. intros Hc. unfold on_dstack. cbn [dstack erase set_sigCache]. by destruct (f (dstack vm)). Qed.

Lemma push_int_sim n vm : cache_ok vm -> sim erased (push_int n vm) (push_int n (erase vm)).
Proof. apply on_dstack_sim. Qed.

(** One call of a handler on both engines. *)
Ltac sim_step :=
  lazymatch goal with
  | |- sim _ (scriptError _) _ => reflexivity
  | |- sim _ (Err _) _ => reflexivity
  | |- sim _ (if _ then _ else _) _ => apply sim_if; [reflexivity| |]
  | |- sim _ (pop_bytes _ ≫= _) _ => eapply sim_bind; [by apply pop_bytes_sim|]; intros [? ?] [? ?] [<- [-> ?]]
  | |- sim _ (pop_int _ ≫= _) _ => eapply sim_bind; [by apply pop_int_sim|]; intros [? ?] [? ?] [<- [-> ?]]
  | |- sim _ (pop_bool _ ≫= _) _ => eapply sim_bind; [by apply pop_bool_sim|]; intros [? ?] [? ?] [<- [-> ?]]
  | |- sim _ (push_int _ _) _ => by apply push_int_sim
  | |- sim _ (on_dstack _ _) _ => by apply on_dstack_sim
  | |- sim _ (Ok _) (Ok _) =>
      cbn [sim]; first [split; [reflexivity|assumption] | split; [reflexivity|split; [reflexivity|assumption]]]
  | |- sim _ (?m ≫= _) _ => apply sim_same; [reflexivity|intros ? ?]
  end; cbv beta iota zeta.
Ltac sim_run := cbv beta zeta; repeat sim_step.

Definition handler_sim (h : handler) : Prop := forall op vm, cache_ok vm -> sim erased (h op vm) (h op (erase vm)).

Lemma abstractVerify_sim c vm : cache_ok vm -> sim erased (abstractVerify c vm) (abstractVerify c (erase vm)).
Proof. intros. unfold abstractVerify. sim_run. Qed.

Lemma verify_after_sim (h : handler) c : handler_sim h -> handler_sim (fun op vm => vm ← h op vm; abstractVerify c vm).
Proof.
  intros Hh op vm Hc. eapply sim_bind; [by apply Hh|]. intros a b [-> Ha]. by apply abstractVerify_sim.
Qed.

Lemma unary_op_sim f : handler_sim (fun _ => unary_op f).
Proof. intros op vm Hc. unfold unary_op. sim_run. Qed.
Lemma binary_op_sim f : handler_sim (fun _ => binary_op f).
Proof. intros op vm Hc. unfold binary_op. sim_run. Qed.
Lemma replace_top_sim f : handler_sim (fun _ => replace_top f).
Proof. intros op vm Hc. unfold replace_top. sim_run. Qed.
Lemma dstack_sim f : handler_sim (fun _ => on_dstack f).
Proof. intros op vm Hc. by apply on_dstack_sim. Qed.
Lemma error_sim c : handler_sim (fun _ _ => scriptError c).
Proof. done. Qed.

Lemma popIfBool_sim vm : cache_ok vm -> sim erased_with (popIfBool vm) (popIfBool (erase vm)).
Proof. intros Hc. unfold popIfBool. apply sim_if; [reflexivity|by apply pop_bool_sim|]. sim_run. Qed.

Lemma branch_sim : handler_sim opcodeIf /\ handler_sim opcodeNotIf.
Proof.
  split; intros op vm Hc; unfold opcodeIf, opcodeNotIf;
    (eapply sim_bind with (R := erased_with); [|intros [c vm'] [? ?] [<- [-> Hc']]; done]);
    (apply sim_if; [reflexivity| |done]);
    (eapply sim_bind; [by apply popIfBool_sim|]; by intros [b vm'] [? ?] [<- [-> Hc']]).
Qed.

(** * Signatures *)

Lemma sig_hash_key_id h : len h = 32 -> sig_hash_key h = h.
Proof. intros Hl. unfold sig_hash_key. change 32%nat with (Z.to_nat 32) at 1. apply take_app_len. lia. Qed.

(** The cache confirms what the verifier accepts, and learns only that. *)
Lemma verify_cached_sim h sig pk vm :
  cache_ok vm -> len h = 32 ->
  verify_cached h sig pk (erase vm) = (Signature_Verify sig h pk, erase vm) /\
  exists vm', verify_cached h sig pk vm = (Signature_Verify sig h pk, vm') /\ erase vm' = erase vm /\ cache_ok vm'.
Proof.
  intros Hc Hl. split; [done|]. unfold verify_cached, cache_ok in *. destruct (sigCache vm) as [c|] eqn:Es.
  - rewrite sig_hash_key_id by done. destruct (SigCache_Exists c h sig pk) eqn:Ex.
    + apply (Exists_sound _ _ _ _ _ Hc) in Ex. unfold verifies in Ex. rewrite Ex. exists vm. by rewrite Es.
    + destruct (Signature_Verify sig h pk) eqn:Ev; [|exists vm; by rewrite Es].
      eexists. split; [done|]. split; [done|]. by apply Add_sound.
  - exists vm. by rewrite Es.
Qed.

Lemma sig_hash_len (b : bool) script script' t vm h :
  (if b then witness_hash script t vm else Ok (calcSignatureHash script' t (vm_tx vm) (vm_txIdx vm))) = Ok h -> len h = 32.
Proof.
  destruct b.
  - unfold witness_hash, calcWitnessSignatureHash. destruct (_ <? _); [done|]. intros [= <-]. apply sha256_size.
  - unfold calcSignatureHash. intros [= <-]. destruct (_ && _); [done|apply sha256_size].
Qed.

Lemma opcodeCheckSig_sim : handler_sim opcodeCheckSig.
Proof.
  intros op vm Hc. unfold opcodeCheckSig. do 2 sim_step. sim_step; [sim_step|]. destruct (split_sig _) as [t sig].
  do 4 sim_step. apply sim_same; [reflexivity|]. intros hashData Eh%sig_hash_len.
  apply sim_try; [reflexivity|intros pk|sim_step]. apply sim_try; [reflexivity|intros sg|sim_step].
  match goal with Hv : cache_ok ?e |- context [verify_cached hashData sg pk ?e] =>
    destruct (verify_cached_sim hashData sg pk e Hv Eh) as [E2 (vm' & E1 & Ee & Hc')]; rewrite E1, E2 end.
  rewrite <-Ee. sim_run.
Qed.

Lemma pop_n_sim n vm : cache_ok vm -> sim erased_with (pop_n n vm) (pop_n n (erase vm)).
Proof.
  revert vm. induction n as [|n IH]; intros vm Hc; cbn [pop_n]; [done|]. sim_step.
  eapply sim_bind; [by apply IH|]. intros [l' vm'] [? ?] [<- [-> Hc']]. done.
Qed.

Lemma multisig_turn_sim script info pk vm :
  cache_ok vm -> sim erased_with (multisig_turn script info pk vm) (multisig_turn script info pk (erase vm)).
Proof.
  intros Hc. unfold multisig_turn. cbv zeta. sim_step; [sim_step|]. destruct (split_sig _) as [t sig]. sim_step.
  destruct (parsedSignature _) as [sg|]; [|sim_step]. sim_step. apply sim_try; [reflexivity|intros key|sim_step].
  apply sim_same; [reflexivity|]. intros hashData Eh%sig_hash_len.
  destruct (verify_cached_sim hashData sg key vm Hc Eh) as [E2 (vm' & E1 & Ee & Hc')]. rewrite E1, E2, <-Ee. sim_run.
Qed.

Lemma multisig_loop_sim script keys infos vm :
  cache_ok vm -> sim erased_with (multisig_loop script infos keys vm) (multisig_loop script infos keys (erase vm)).
Proof.
  revert infos vm. induction keys as [|k keys IH]; intros [|info infos] vm Hc; cbn [multisig_loop]; try done.
  sim_step; [sim_step|]. eapply sim_bind; [by apply multisig_turn_sim|].
  intros [[valid info'] vm'] [[? ?] ?] [[= <- <-] [-> Hc']]. by apply IH.
Qed.

Lemma opcodeCheckMultiSig_sim : handler_sim opcodeCheckMultiSig.
Proof.
  intros op vm Hc. unfold opcodeCheckMultiSig. sim_step. do 3 (apply sim_if; [reflexivity|reflexivity|]).
  eapply sim_bind; [by apply pop_n_sim|]. intros [keys vm1] [? ?] [<- [-> Hc1]]. sim_step.
  do 2 (apply sim_if; [reflexivity|reflexivity|]).
  eapply sim_bind; [by apply pop_n_sim|]. intros [sigs vm2] [? ?] [<- [-> Hc2]]. sim_step. sim_step; [sim_step|]. sim_step.
  eapply sim_bind; [by apply multisig_loop_sim|]. intros [ok vm3] [? ?] [<- [-> Hc3]]. sim_run.
Qed.

(** * Every handler *)

Lemma misc_sim :
  Forall handler_sim [opcodeFalse; opcodePushData; opcode1Negate; opcodeN; opcodeInputAge; opcodeNop;
    opcodeCodeSeparator; opcodeCheckLockTimeVerify; opcodeCheckSequenceVerify; opcodeToAltStack; opcodeIfDup;
    opcodeDepth; opcodePick; opcodeRoll; opcodeSize; opcodeEqual; opcodeWithin].
Proof.
  repeat apply Forall_cons_2; try apply Forall_nil_2; intros op vm Hc.
  1-2: by split. 1-3: unfold opcode1Negate, opcodeN, opcodeInputAge; sim_run.
  - unfold opcodeNop. sim_run.
  - by split.
  - unfold opcodeCheckLockTimeVerify. sim_run.
  - unfold opcodeCheckSequenceVerify. sim_run.
  - unfold opcodeToAltStack. sim_run.
  - unfold opcodeIfDup. sim_step. by destruct (asBool _).
  - unfold opcodeDepth. sim_run.
  - unfold opcodePick. sim_run.
  - unfold opcodeRoll. sim_run.
  - unfold opcodeSize. sim_run.
  - unfold opcodeEqual. sim_run.
  - unfold opcodeWithin. sim_run.
Qed.

Lemma cond_sim : Forall handler_sim [opcodeElse; opcodeEndif; opcodeFromAltStack; opcodeVerify].
Proof.
  repeat apply Forall_cons_2; try apply Forall_nil_2; intros op vm Hc.
  - unfold opcodeElse. change (condStack (erase vm)) with (condStack vm). by destruct (condStack vm) as [|[] ?].
  - unfold opcodeEndif. change (condStack (erase vm)) with (condStack vm). by destruct (condStack vm).
  - unfold opcodeFromAltStack. apply sim_same; [reflexivity|]. intros [so s] _. by split.
  - by apply abstractVerify_sim.
Qed.

Ltac exact_sim := match goal with Hh : handler_sim ?h |- handler_sim ?g => constr_eq h g; exact Hh end.

Lemma opcodeArray_sim : Forall (fun e => handler_sim (snd e)) opcodeArray.
Proof.
  pose proof misc_sim. pose proof cond_sim. pose proof branch_sim as [? ?].
  pose proof opcodeCheckSig_sim. pose proof opcodeCheckMultiSig_sim. decompose_Forall_hyps.
  repeat apply Forall_cons_2; try apply Forall_nil_2; cbn [snd];
    first [exact_sim | apply error_sim | apply dstack_sim | apply unary_op_sim | apply binary_op_sim | apply replace_top_sim
          | apply verify_after_sim; first [exact_sim | apply binary_op_sim]].
Qed.

Lemma lookup_op_sim v table : Forall (fun e => handler_sim (snd e)) table -> handler_sim (lookup_op v table).
Proof.
  intros Ht. induction Ht as [|[w h] table Hh Ht IH]; [apply error_sim|]. cbn [lookup_op].
  destruct (v =? w); [exact Hh|exact IH].
Qed.

Lemma opfunc_sim v : handler_sim (opfunc v).
Proof.
  assert (Hp : handler_sim opcodePushData /\ handler_sim opcodeN).
  { pose proof misc_sim. decompose_Forall_hyps. split; exact_sim. }
  destruct Hp as [Hp Hn]. unfold opfunc. destruct (_ && _); [exact Hp|]. destruct (_ && _); [exact Hn|].
  apply lookup_op_sim, opcodeArray_sim.
Qed.

(** * Runs *)

Lemma executeOpcode_sim pop vm : cache_ok vm -> sim erased (executeOpcode pop vm) (executeOpcode pop (erase vm)).
Proof.
  intros Hc. unfold executeOpcode. do 2 (apply sim_if; [reflexivity|reflexivity|]).
  eapply sim_bind with (R := erased); [sim_run|]. intros vm' ? [-> Hc']. sim_step; [sim_step|]. sim_step.
  by apply opfunc_sim.
Qed.

Lemma CheckErrorCondition_sim final vm :
  cache_ok vm -> sim erased (CheckErrorCondition final vm) (CheckErrorCondition final (erase vm)).
Proof. intros Hc. unfold CheckErrorCondition. sim_run. Qed.

Lemma verifyWitnessProgram_sim witness vm :
  cache_ok vm -> sim erased (verifyWitnessProgram witness vm) (verifyWitnessProgram witness (erase vm)).
Proof.
  intros Hc. unfold verifyWitnessProgram. eapply sim_bind with (R := erased).
  - change (witnessProgram (erase vm)) with (witnessProgram vm). destruct (witnessProgram vm); sim_run.
  - intros vm' ? [-> Hc']. sim_run.
Qed.

Lemma next_script_sim vm : cache_ok vm -> sim erased (next_script vm) (next_script (erase vm)).
Proof.
  intros Hc. unfold next_script. cbv zeta. sim_step; [by split|]. sim_step.
  - eapply sim_bind; [by apply CheckErrorCondition_sim|]. intros vm' ? [-> Hc'].
    change (savedFirstStack (erase vm')) with (savedFirstStack vm'). destruct (last _); [|done]. sim_run.
  - sim_step; [|by split]. sim_step.
    match goal with |- sim _ (verifyWitnessProgram ?w ?v) _ => exact (verifyWitnessProgram_sim w v Hc) end.
Qed.

Lemma Step_sim vm : cache_ok vm -> sim erased_with (Step vm) (Step (erase vm)).
Proof.
  intros Hc. unfold Step. sim_step. change (cur_script (erase vm) !! scriptOff (erase vm)) with (cur_script vm !! scriptOff vm).
  destruct (cur_script vm !! scriptOff vm) as [pop|]; [|done]. cbv zeta.
  eapply sim_bind; [by apply (executeOpcode_sim pop (set_scriptOff _ vm))|]. intros vm2 ? [-> Hc2].
  sim_step; [sim_step|]. sim_step; [|by split]. sim_step; [sim_step|].
  eapply sim_bind; [by apply next_script_sim|]. intros vm3 ? [-> Hc3]. cbn [sim].
  change (scriptIdx (erase vm3)) with (scriptIdx vm3). change (scripts (erase vm3)) with (scripts vm3).
  change (cur_script (erase vm3)) with (cur_script vm3). change (scriptOff (erase vm3)) with (scriptOff vm3).
  by destruct (_ && _).
Qed.

Lemma Execute_sim fuel vm :
  cache_ok vm ->
  match Execute fuel vm, Execute fuel (erase vm) with
  | Some r, Some r' => sim erased r r'
  | None, None => True
  | _, _ => False
  end.
Proof.
  revert vm. induction fuel as [|fuel IH]; intros vm Hc; cbn [Execute]; [done|].
  pose proof (Step_sim vm Hc) as Hs. destruct (Step vm) as [[d vm']| |], (Step (erase vm)) as [[d' vm'']| |]; try done.
  destruct Hs as [<- [-> Hc']]. destruct d; [by apply CheckErrorCondition_sim|by apply IH].
Qed.

(** [NewEngine] stores the cache and does not look at it. *)
Lemma NewEngine_erase scriptPubKey tx txIdx flags sc hc amt :
  NewEngine scriptPubKey tx txIdx flags None hc amt = (vm ← NewEngine scriptPubKey tx txIdx flags sc hc amt; Ok (erase vm)) /\
  forall vm, NewEngine scriptPubKey tx txIdx flags sc hc amt = Ok vm -> sigCache vm = sc.
Proof.
  unfold NewEngine. cbv zeta. repeat match goal with |- context [if ?b then scriptError _ else _] => destruct b; [done|] end.
  destruct (parse_limited (SignatureScript _)); [|done..]. cbn [mbind outcome_bind].
  destruct (parse_limited scriptPubKey); [|done..]. cbn [mbind outcome_bind]. destruct (_ && negb _); [done|].
  match goal with |- mbind _ ?m = _ /\ _ => destruct m; [|done..] end. split; [done|]. by intros vm [= <-].
Qed.

(** C6: The signature cache is transparent.  For any number of steps, the engine that uses a
    cache of verified signatures and the engine without a cache end the same way: with the
    same error, or both accept, in states that differ in the cache only, and the cache is
    left with verified signatures only. *)
Theorem sig_cache_transparent scriptPubKey tx txIdx flags c hc amt vm :
  sound_cache verifies c -> NewEngine scriptPubKey tx txIdx flags (Some c) hc amt = Ok vm ->
  exists vm', NewEngine scriptPubKey tx txIdx flags None hc amt = Ok vm' /\
  forall fuel, match Execute fuel vm, Execute fuel vm' with
  | Some (Ok end_vm), Some (Ok end_vm') =>
      end_vm' = set_sigCache None end_vm /\ match sigCache end_vm with Some c' => sound_cache verifies c' | None => True end
  | Some (Err e), Some (Err e') => e = e'
  | Some Panic, Some Panic | None, None => True
  | _, _ => False
  end.
Proof.
  intros Hs E. destruct (NewEngine_erase scriptPubKey tx txIdx flags (Some c) hc amt) as [-> Hsc]. rewrite E.
  exists (erase vm). split; [done|]. intros fuel.
  assert (Hc : cache_ok vm) by (unfold cache_ok; by rewrite (Hsc vm E)).
  pose proof (Execute_sim fuel vm Hc) as Hx. by destruct (Execute fuel vm) as [[]|], (Execute fuel (erase vm)) as [[]|].
Qed.
End cache.

#[local] Existing Instance example_crypto.
#[local] Existing Instance sha256_instance.
#[local] Existing Instance map_order.

Lemma sig_cache_transparent_witness :
  exists vm, NewEngine example_pk (spend example_sig) 0 StandardVerifyFlags (Some (NewSigCache 10)) None 0 = Ok vm /\
  exists vm', example_engine = Ok vm' /\
  match Execute 12 vm, Execute 12 vm' with Some (Ok _), Some (Ok _) => True | _, _ => False end.
Proof.
  destruct (NewEngine example_pk (spend example_sig) 0 StandardVerifyFlags (Some (NewSigCache 10)) None 0) as [vm| |] eqn:E;
    [|vm_compute in E; discriminate..].
  exists vm. split; [done|].
  destruct (sig_cache_transparent example_pk (spend example_sig) 0 StandardVerifyFlags (NewSigCache 10) None 0 vm) as (vm' & E' & Hf);
    [apply fin_maps.map_Forall_empty|exact E|]. exists vm'. split; [exact E'|]. specialize (Hf 12%nat).
  assert (Ha : match Execute 12 vm' with Some (Ok _) => True | _ => False end).
  { clear Hf. vm_compute in E'. injection E' as <-. vm_compute. exact I. }
  destruct (Execute 12 vm) as [[]|], (Execute 12 vm') as [[]|]; done.
Defined.
