(* ===== verification/EngineSpend.v ===== *)
(** Spending with the script engine: an output paid to the hash of a public key, from the
    scripts the builders write to the verdict of [Execute]. *)

From S2P Require Import Prelude Big ScriptNum Stack Opcode Script WireEncoding WireTx Chainhash SigHash PubKey Signature SigCache Sha1 Engine EngineFacts EngineRun EngineCache.

Section p2pkh.
Context `{HashFunction} `{Crypto} `{MapOrder}.

(** * States of a run without script hashes and witness programs *)

Section states.
Context (scr : list (list parsedOpcode)) (tx : MsgTx) (txIdx flags : Z) (hc : option TxSigHashes).
Context (wv amt : Z) (m : bool).

(** The engine in script [i] before the opcode [o], with the items [l], [n] operations
    counted and the cache [sc]. *)
Definition mk (sc : option SigCache) (i o : nat) (l : list bytes) (n : Z) : Engine :=
  {| scripts := scr; scriptIdx := i; scriptOff := o; lastCodeSep := 0; dstack := {| stk := l; verifyMinimalData := m |};
     astack := {| stk := []; verifyMinimalData := m |}; vm_tx := tx; vm_txIdx := txIdx; condStack := []; numOps := n;
     vm_flags := flags; sigCache := sc; hashCache := hc; bip16 := false; savedFirstStack := []; witnessVersion := wv;
     witnessProgram := None; inputAmount := amt |}.

(** The fields of such a state. *)
Ltac mk_fields :=
  change (scripts (mk ?c ?i ?o ?l ?n)) with scr in *; change (scriptIdx (mk ?c ?i ?o ?l ?n)) with i in *;
  change (scriptOff (mk ?c ?i ?o ?l ?n)) with o in *; change (Depth (dstack (mk ?c ?i ?o ?l ?n))) with (len l) in *;
  change (Depth (astack (mk ?c ?i ?o ?l ?n))) with 0 in *; change (condStack (mk ?c ?i ?o ?l ?n)) with (@nil OpCond) in *.

Lemma low_not_disabled pop : opcode pop <= OP_16 -> isDisabled pop = false.
Proof.
  intros Hv. unfold isDisabled, one_of, OP_16 in *. cbn [existsb].
  repeat match goal with |- context [?a =? ?b] => rewrite (proj2 (Z.eqb_neq a b)) by
    (unfold OP_CAT, OP_SUBSTR, OP_LEFT, OP_RIGHT, OP_INVERT, OP_AND, OP_OR, OP_XOR, OP_2MUL, OP_2DIV, OP_MUL, OP_DIV, OP_MOD, OP_LSHIFT, OP_RSHIFT; lia) end.
  done.
Qed.

Lemma low_not_illegal pop : opcode pop <= OP_16 -> alwaysIllegal pop = false.
Proof.
  intros Hv. unfold alwaysIllegal, one_of, OP_16 in *. cbn [existsb].
  rewrite !(proj2 (Z.eqb_neq _ _)) by (unfold OP_VERIF, OP_VERNOTIF; lia). done.
Qed.

Lemma push_minimal (d : bytes) : 2 <= len d <= 75 -> checkMinimalDataPush (push d) = Ok ().
Proof.
  intros Hd. unfold checkMinimalDataPush. cbn [push opcode data]. cbv zeta.
  rewrite (proj2 (Z.eqb_neq (len d) 0)), (proj2 (Z.eqb_neq (len d) 1)) by lia. cbn [andb].
  rewrite (proj2 (Z.leb_le (len d) 75)) by lia.
  by rewrite Z.eqb_refl.
Qed.

Lemma exec_push c i o l n (d : bytes) :
  2 <= len d <= 75 -> executeOpcode (push d) (mk c i o l n) = Ok (mk c i o (d :: l) n).
Proof.
  intros Hd. unfold executeOpcode. rewrite low_not_disabled, low_not_illegal by (unfold OP_16; cbn [push opcode]; lia).
  cbn [push opcode data]. rewrite (proj2 (Z.ltb_ge OP_16 (len d))) by (unfold OP_16; lia).
  rewrite (proj2 (Z.ltb_ge MaxScriptElementSize (len d))) by (unfold MaxScriptElementSize; lia).
  change (isBranchExecuting (mk c i o l n)) with true. cbn [mbind outcome_bind negb andb].
  rewrite (push_minimal d) by done.
  assert (Eo : opfunc (len d) = opcodePushData).
  { unfold opfunc. rewrite !(proj2 (Z.leb_le _ _)) by (unfold OP_DATA_1, OP_PUSHDATA4; lia). done. }
  rewrite Eo. by destruct (verifyMinimalData _ && _ && _).
Qed.

(** A step that stays in the script, one that goes on to the next script, and the last. *)
Lemma step_within c i o l n pop l' n' s :
  scr !! i = Some s -> s !! o = Some pop -> (S o < length s)%nat -> len l' <= MaxStackSize ->
  executeOpcode pop (mk c i (S o) l n) = Ok (mk c i (S o) l' n') -> Step (mk c i o l n) = Ok (false, mk c i (S o) l' n').
Proof.
  intros Hs Hp Hlt Hl E. assert (Ec : forall c o l n, cur_script (mk c i o l n) = s) by (intros; unfold cur_script; cbn; by rewrite Hs).
  apply lookup_lt_Some in Hs. unfold Step, validPC. mk_fields. rewrite !Ec.
  rewrite !(proj2 (Nat.leb_gt _ _)) by lia. cbn [mbind outcome_bind]. rewrite Hp.
  change (set_scriptOff (S o) (mk c i o l n)) with (mk c i (S o) l n). rewrite E. cbn [mbind outcome_bind]. mk_fields.
  rewrite (proj2 (Z.ltb_ge _ _)) by lia. rewrite Ec, (proj2 (Nat.leb_gt _ _)) by lia. done.
Qed.

Lemma step_end c c' i o l n pop l' n' s :
  scr !! i = Some s -> s !! o = Some pop -> S o = length s -> len l' <= MaxStackSize ->
  executeOpcode pop (mk c i (S o) l n) = Ok (mk c' i (S o) l' n') ->
  Step (mk c i o l n) =
    if bool_decide (S i = length scr) then Ok (true, mk c' (S i) 0 l' 0)
    else if bool_decide (scr !! S i = Some []) then Ok (Nat.leb (length scr) (S (S i)), mk c' (S (S i)) 0 l' 0)
    else Ok (false, mk c' (S i) 0 l' 0).
Proof.
  intros Hs Hp Hlt Hl E. assert (Ec : forall c o l n, cur_script (mk c i o l n) = s) by (intros; unfold cur_script; cbn; by rewrite Hs).
  apply lookup_lt_Some in Hs. unfold Step, validPC. mk_fields. rewrite !Ec.
  rewrite !(proj2 (Nat.leb_gt _ _)) by lia. cbn [mbind outcome_bind]. rewrite Hp.
  change (set_scriptOff (S o) (mk c i o l n)) with (mk c i (S o) l n). rewrite E. cbn [mbind outcome_bind]. mk_fields.
  rewrite (proj2 (Z.ltb_ge _ _)) by lia. rewrite Ec, (proj2 (Nat.leb_le _ _)) by lia.
  change (negb (len (@nil OpCond) =? 0)) with false. cbv iota.
  assert (En : next_script (mk c' i (S o) l' n') = Ok (mk c' (S i) 0 l' 0)).
  { unfold next_script. cbv zeta. cbn [scriptIdx bip16 witnessProgram mk set_astack set_scriptOff set_numOps].
    rewrite !andb_false_r. cbn [orb]. reflexivity. }
  rewrite En. cbn [mbind outcome_bind]. mk_fields.
  case_bool_decide as Hi; [rewrite Hi, Nat.ltb_irrefl; cbn; by rewrite Nat.leb_refl|].
  assert (Hlt' : (S i < length scr)%nat) by lia. rewrite (proj2 (Nat.ltb_lt _ _) Hlt'). cbn [andb].
  destruct (lookup_lt_is_Some_2 scr (S i) Hlt') as [s' Es']. unfold cur_script. mk_fields.
  rewrite Es'. cbn [default]. destruct s' as [|p s']; [by rewrite bool_decide_true|].
  rewrite bool_decide_false by done. cbn [id length Nat.leb]. cbv iota. change (set_lastCodeSep 0 (mk ?c ?i ?o ?l ?n)) with (mk c i o l n). mk_fields.
  by rewrite (proj2 (Nat.leb_gt _ _) Hlt').
Qed.

Lemma step_error c i o l n pop e s :
  scr !! i = Some s -> s !! o = Some pop -> executeOpcode pop (mk c i (S o) l n) = Err e -> Step (mk c i o l n) = Err e.
Proof.
  intros Hs Hp E. assert (Ec : forall c o l n, cur_script (mk c i o l n) = s) by (intros; unfold cur_script; cbn; by rewrite Hs).
  apply lookup_lt_Some in Hs. pose proof (lookup_lt_Some _ _ _ Hp). unfold Step, validPC. mk_fields. rewrite !Ec.
  rewrite !(proj2 (Nat.leb_gt _ _)) by lia. cbn [mbind outcome_bind]. rewrite Hp.
  change (set_scriptOff (S o) (mk c i o l n)) with (mk c i (S o) l n). by rewrite E.
Qed.

Lemma final_verdict c i b :
  i = length scr ->
  CheckErrorCondition true (mk c i 0 [fromBool b] 0) = if b then Ok (mk c i 0 [] 0) else scriptError "ErrEvalFalse".
Proof.
  intros ->. unfold CheckErrorCondition. mk_fields. rewrite Nat.ltb_irrefl. change (len [fromBool b]) with 1.
  cbn [negb Z.eqb Pos.eqb]. rewrite !andb_false_r. by destruct b.
Qed.
End states.

(** * An output paid to the hash of a public key *)

Section spend.
Context (full pk h : bytes) (tx : MsgTx) (txIdx flags : Z) (hc : option TxSigHashes) (wv amt : Z) (m : bool).
Context (Hfull : 2 <= len full <= 75) (Hpk : 2 <= len pk <= 75) (Hh : len h = 20).

Let sigPops := [push full; push pk].
Let pkPops := [op OP_DUP; op OP_HASH160; push h; op OP_EQUALVERIFY; op OP_CHECKSIG].
Let mks := mk [sigPops; pkPops] tx txIdx flags hc wv amt m.

(** What the scripts accept: the key hashes to [h], the encodings are the ones the flags ask
    for, and the signature verifies over the signature hash of the script. *)
Definition p2pkh_valid (vm : Engine) : Prop :=
  let '(t, sig) := split_sig full in
  Hash160 pk = h /\ checkHashTypeEncoding vm t = Ok () /\ checkSignatureEncoding vm sig = Ok () /\
  checkPubKeyEncoding vm pk = Ok () /\
  exists key s, ParsePubKey pk = Ok key /\ parse_sig vm sig = Ok s /\
    Signature_Verify s (calcSignatureHash (removeOpcodeByData pkPops full) t (vm_tx vm) (vm_txIdx vm)) key = true.

Lemma step_DUP c : Step (mks c 1 0 [pk; full] 0) = Ok (false, mks c 1 1 [pk; pk; full] 1).
Proof. eapply step_within; [reflexivity|reflexivity|cbn; lia|done|]. by destruct m. Qed.

Lemma step_HASH160 c : Step (mks c 1 1 [pk; pk; full] 1) = Ok (false, mks c 1 2 [Hash160 pk; pk; full] 2).
Proof. eapply step_within; [reflexivity|reflexivity|cbn; lia|done|]. by destruct m. Qed.

Lemma step_hash c : Step (mks c 1 2 [Hash160 pk; pk; full] 2) = Ok (false, mks c 1 3 [h; Hash160 pk; pk; full] 2).
Proof. eapply step_within; [reflexivity|reflexivity|cbn; lia|done|]. apply exec_push. lia. Qed.

Lemma step_EQUALVERIFY c :
  Step (mks c 1 3 [h; Hash160 pk; pk; full] 2) =
    if bool_decide (h = Hash160 pk) then Ok (false, mks c 1 4 [pk; full] 3) else scriptError "ErrEqualVerify".
Proof.
  assert (E : executeOpcode (op OP_EQUALVERIFY) (mks c 1 4 [h; Hash160 pk; pk; full] 2) =
    abstractVerify "ErrEqualVerify" (push_bool (bool_decide (h = Hash160 pk)) (mks c 1 4 [pk; full] 3))) by by destruct m.
  unfold mks in *. case_bool_decide as He.
  - eapply step_within; [reflexivity|reflexivity|cbn; lia|done|]. exact E.
  - eapply step_error; [reflexivity|reflexivity|]. exact E.
Qed.

(** [OP_CHECKSIG] on the last two items, and its verdict. *)
Definition checksig_run (vm : Engine) (t : Z) (sig : bytes) : outcome Engine :=
  _ ← checkHashTypeEncoding vm t; _ ← checkSignatureEncoding vm sig; _ ← checkPubKeyEncoding vm pk;
  match ParsePubKey pk with
  | Panic => Panic
  | Err _ => Ok (push_bool false vm)
  | Ok pubKey =>
      match parse_sig vm sig with
      | Panic => Panic
      | Err _ => Ok (push_bool false vm)
      | Ok signature =>
          let '(valid, vm) := verify_cached (calcSignatureHash (removeOpcodeByData pkPops full) t tx txIdx) signature pubKey vm in
          if negb valid && hasFlag vm ScriptVerifyNullFail && (0 <? len sig) then scriptError "ErrNullFail"
          else Ok (push_bool valid vm)
      end
  end.

Lemma checksig_exec c t sig :
  split_sig full = (t, sig) ->
  executeOpcode (op OP_CHECKSIG) (mks c 1 5 [pk; full] 3) = checksig_run (mks c 1 5 [] 4) t sig.
Proof.
  intros Ess. transitivity (opcodeCheckSig (op OP_CHECKSIG) (mks c 1 5 [pk; full] 4)); [by destruct m|].
  unfold opcodeCheckSig. change (pop_bytes (mks c 1 5 [pk; full] 4)) with (Ok (pk, mks c 1 5 [full] 4)). cbn [mbind outcome_bind].
  change (pop_bytes (mks c 1 5 [full] 4)) with (Ok (full, mks c 1 5 [] 4)). cbn [mbind outcome_bind].
  rewrite (proj2 (Z.ltb_ge (len full) 1)) by lia. rewrite Ess. reflexivity.
Qed.

Lemma erase_mks vm c i o l n : erase vm = erase (mks c i o l n) -> exists c', vm = mks c' i o l n.
Proof. destruct vm. unfold erase, mks, mk, set_sigCache. cbn. intros [= -> -> -> -> -> -> -> -> -> -> -> -> -> -> -> -> ->]. by eexists. Qed.

Lemma checksig_cases c :
  cache_ok (mks c 1 5 [] 4) -> Hash160 pk = h ->
  let r := executeOpcode (op OP_CHECKSIG) (mks c 1 5 [pk; full] 3) in
  (p2pkh_valid (mks c 1 5 [] 4) /\ exists c', r = Ok (mks c' 1 5 [fromBool true] 4)) \/
  (~ p2pkh_valid (mks c 1 5 [] 4) /\ ((exists e, r = Err e) \/ exists c', r = Ok (mks c' 1 5 [fromBool false] 4))).
Proof.
  intros Hc Eh r. unfold r, p2pkh_valid. destruct (split_sig full) as [t sig] eqn:Ess. rewrite (checksig_exec c t sig Ess).
  set (vm := mks c 1 5 [] 4) in *. unfold checksig_run.
  pose proof (checkHashTypeEncoding_quiet vm t) as Q1. pose proof (checkSignatureEncoding_quiet vm sig) as Q2.
  pose proof (checkPubKeyEncoding_quiet vm pk) as Q3. pose proof (ParsePubKey_quiet pk) as Q4. pose proof (parse_sig_quiet vm sig) as Q5.
  destruct (checkHashTypeEncoding vm t) as [[]| |]; [|right; split; [by intros (_ & ? & _)|by left; eexists]|done].
  destruct (checkSignatureEncoding vm sig) as [[]| |]; [|right; split; [by intros (_ & _ & ? & _)|by left; eexists]|done].
  destruct (checkPubKeyEncoding vm pk) as [[]| |]; [|right; split; [by intros (_ & _ & _ & ? & _)|by left; eexists]|done].
  cbn [mbind outcome_bind]. assert (Hno : push_bool false vm = mks c 1 5 [fromBool false] 4) by done.
  destruct (ParsePubKey pk) as [key| |]; [|right; split; [by intros (_ & _ & _ & _ & ? & ? & ? & _)|right; by exists c]|done].
  destruct (parse_sig vm sig) as [s| |]; [|right; split; [by intros (_ & _ & _ & _ & ? & ? & _ & ? & _)|right; by exists c]|done].
  set (hash := calcSignatureHash _ _ _ _). assert (Hl : len hash = 32) by (by apply (sig_hash_len false [] (removeOpcodeByData pkPops full) t vm)).
  destruct (verify_cached_sim hash s key vm Hc Hl) as (_ & vm' & -> & Ee & _). apply erase_mks in Ee as [c' ->].
  destruct (Signature_Verify s hash key) eqn:Ev.
  - left. split; [split_and!; try done; by exists key, s|]. exists c'. done.
  - right. split.
    + intros (_ & _ & _ & _ & key' & s' & Ek & Es' & Hv). injection Ek as <-. injection Es' as <-. change (Signature_Verify s hash key = true) in Hv. by rewrite Ev in Hv.
    + cbn [negb andb]. destruct (_ && _); [left; by eexists|right; by exists c'].
Qed.

(** The whole run, from the signature script. *)
Lemma p2pkh_run c :
  cache_ok (mks c 1 5 [] 4) ->
  (exists vm', Execute 7 (mks c 0 0 [] 0) = Some (Ok vm')) <-> p2pkh_valid (mks c 1 5 [] 4).
Proof.
  intros Hc. cbn [Execute]. unfold mks.
  rewrite (step_within _ _ _ _ _ _ _ _ c 0 0 [] 0 (push full) [full] 0 sigPops) by first [done | cbn; lia | by apply exec_push].
  rewrite (step_end _ _ _ _ _ _ _ _ c c 0 1 [full] 0 (push pk) [pk; full] 0 sigPops) by first [done | by apply exec_push].
  change (bool_decide (1%nat = length [sigPops; pkPops])) with false.
  change (bool_decide ([sigPops; pkPops] !! 1%nat = Some [])) with false. cbv iota. fold mks.
  rewrite step_DUP, step_HASH160, step_hash, step_EQUALVERIFY.
  case_bool_decide as He.
  2: { split; [by intros [vm' ?]|]. unfold p2pkh_valid. destruct (split_sig full). intros [Eh _]. by destruct He. }
  destruct (checksig_cases c Hc (eq_sym He)) as [(Hv & c' & E)|(Hv & [[e E]|[c' E]])].
  - split; [done|]. intros _. unfold mks.
    rewrite (step_end _ _ _ _ _ _ _ _ c c' 1 4 [pk; full] 3 (op OP_CHECKSIG) [fromBool true] 4 pkPops) by done.
    rewrite bool_decide_true, final_verdict by done. by eexists.
  - split; [|done]. intros [vm' Er]. unfold mks in Er.
    by rewrite (step_error _ _ _ _ _ _ _ _ c 1 4 [pk; full] 3 (op OP_CHECKSIG) e pkPops) in Er.
  - split; [|done]. intros [vm' Er]. unfold mks in Er.
    rewrite (step_end _ _ _ _ _ _ _ _ c c' 1 4 [pk; full] 3 (op OP_CHECKSIG) [fromBool false] 4 pkPops) in Er by done.
    by rewrite bool_decide_true, final_verdict in Er by done.
Qed.
End spend.

(** The engine of [NewEngine] for scripts that are neither script hashes nor witness programs. *)
Lemma new_engine_plain scriptPubKey tx txIdx flags sc hc amt vm ti sigPops pkPops :
  Tx_TxIn tx !! Z.to_nat txIdx = Some ti -> SignatureScript ti <> [] -> wit_items (Witness ti) = [] ->
  parseScript (SignatureScript ti) = Ok sigPops -> parseScript scriptPubKey = Ok pkPops ->
  isScriptHash pkPops || isHTLCWithScriptHash pkPops = false -> isWitnessProgram pkPops || isHTLCWitnessScript pkPops = false ->
  NewEngine scriptPubKey tx txIdx flags sc hc amt = Ok vm ->
  exists m, vm = mk [sigPops; pkPops] tx txIdx flags hc 0 amt m sc 0 0 [] 0.
Proof.
  intros Et Hne Hw Es Ep Hsh Hwp. unfold NewEngine. rewrite (nth_lookup_Some _ _ default_txin ti Et). cbv zeta.
  repeat match goal with |- context [if ?b then scriptError _ else _] => destruct b; [done|] end.
  unfold parse_limited. rewrite Es, Ep. destruct (_ <? len (SignatureScript ti)); [done|]. cbn [mbind outcome_bind].
  destruct (_ <? len scriptPubKey); [done|]. cbn [mbind outcome_bind]. rewrite Hsh, andb_false_r. cbn [andb].
  unfold init_witness. rewrite Hwp, Hw. change (negb (@len bytes [] =? 0)) with false. cbn [andb].
  assert (Ei : (if len (SignatureScript ti) =? 0 then 1%nat else 0%nat) = 0%nat) by by destruct (SignatureScript ti).
  rewrite Ei. destruct (_ =? ScriptVerifyWitness); [destruct (negb _); [done|]|]; intros [= <-]; by eexists.
Qed.

Lemma sig_script_eq full pk sigScript :
  2 <= len full <= 75 -> 2 <= len pk <= 75 -> Script (AddData pk (AddData full NewScriptBuilder)) = Ok sigScript ->
  sigScript <> [] /\ parseScript sigScript = Ok [push full; push pk].
Proof.
  intros Hf Hk E. assert (Es : Script (AddData pk (AddData full NewScriptBuilder)) =
    Ok (byte.of_Z (len full) :: full ++ byte.of_Z (len pk) :: pk)) by builder_solve.
  rewrite E in Es. injection Es as ->. split; [done|]. rewrite <-(app_nil_r pk) at 2. parse_solve.
Qed.
End p2pkh.

(** C5: Spending an output that is paid to the hash of a public key, end to end.  With the
    scripts the builders write for a signature, a key and a hash, and any flags and any
    cache of verified signatures, [Execute] accepts the input exactly when the key hashes to
    the hash of the output, the signature and the key are encoded as the flags require, and
    the signature verifies under the key over the signature hash of the input. *)
Theorem p2pkh_accepts_iff `{HashFunction} `{Crypto} `{MapOrder} h pk full tx txIdx ti flags sc hc amt sigScript pkScript vm :
  len h = 20 -> 2 <= len pk <= 75 -> 2 <= len full <= 75 ->
  Script (AddData pk (AddData full NewScriptBuilder)) = Ok sigScript -> payToPubKeyHashScript h = Ok pkScript ->
  Tx_TxIn tx !! Z.to_nat txIdx = Some ti -> SignatureScript ti = sigScript -> wit_items (Witness ti) = [] ->
  match sc with Some c => sound_cache verifies c | None => True end ->
  NewEngine pkScript tx txIdx flags sc hc amt = Ok vm ->
  (exists vm', Execute 7 vm = Some (Ok vm')) <->
  let '(hashType, sig) := split_sig full in
  Hash160 pk = h /\
  checkHashTypeEncoding vm hashType = Ok () /\ checkSignatureEncoding vm sig = Ok () /\ checkPubKeyEncoding vm pk = Ok () /\
  exists key s, ParsePubKey pk = Ok key /\ parse_sig vm sig = Ok s /\
    let script := [op OP_DUP; op OP_HASH160; push h; op OP_EQUALVERIFY; op OP_CHECKSIG] in
    Signature_Verify s (calcSignatureHash (removeOpcodeByData script full) hashType tx txIdx) key = true.
Proof.
  intros Hh Hk Hf Es Ep Et <- Hw Hc E. destruct (sig_script_eq full pk _ Hf Hk Es) as [Hne Ps].
  rewrite payToPubKeyHashScript_eq in Ep by done. injection Ep as <-.
  destruct (new_engine_plain _ _ _ _ _ _ _ _ _ _ _ Et Hne Hw Ps (parse_pubkey_hash h Hh) eq_refl eq_refl E) as [m ->].
  exact (p2pkh_run full pk h tx txIdx flags hc 0 amt m Hf Hk Hh sc Hc).
Qed.

#[local] Existing Instance example_crypto.
#[local] Existing Instance sha256_instance.
#[local] Existing Instance map_order.

Definition example_push : bytes := Signature_Serialize {| sig_R := 2; sig_S := 5 |} ++ mkbytes [SigHashAll].
Definition example_pub : bytes := SerializeCompressed example_key.

Lemma example_pub_parses : ParsePubKey example_pub = Ok example_key.
Proof. destruct example_key_valid as (HX & HY & Hc). apply parse_valid_compressed; [vm_compute; split; [discriminate|reflexivity]|done..]. Qed.

Definition or_nil (o : outcome bytes) : bytes := match o with Ok s => s | _ => [] end.
Definition example_sigScript : bytes := or_nil (Script (AddData example_pub (AddData example_push NewScriptBuilder))).
Definition example_pkScript : bytes := or_nil (payToPubKeyHashScript (Hash160 example_pub)).
Definition example_p2pkh : Engine :=
  mk [[push example_push; push example_pub];
      [op OP_DUP; op OP_HASH160; push (Hash160 example_pub); op OP_EQUALVERIFY; op OP_CHECKSIG]]
    (spend example_sigScript) 0 StandardVerifyFlags None 0 0 true None 0 0 [] 0.

Lemma example_scripts :
  Script (AddData example_pub (AddData example_push NewScriptBuilder)) = Ok example_sigScript /\
  payToPubKeyHashScript (Hash160 example_pub) = Ok example_pkScript.
Proof. split; vm_compute; reflexivity. Qed.

Lemma example_p2pkh_new : NewEngine example_pkScript (spend example_sigScript) 0 StandardVerifyFlags None None 0 = Ok example_p2pkh.
Proof. vm_compute. reflexivity. Qed.

Lemma example_encodings :
  let '(t, sig) := split_sig example_push in
  checkHashTypeEncoding example_p2pkh t = Ok () /\ checkSignatureEncoding example_p2pkh sig = Ok () /\
  checkPubKeyEncoding example_p2pkh example_pub = Ok () /\
  parse_sig example_p2pkh sig = Ok {| sig_R := 2; sig_S := 5 |}.
Proof. vm_compute. split_and!; reflexivity. Qed.

Lemma p2pkh_accepts_iff_witness :
  NewEngine example_pkScript (spend example_sigScript) 0 StandardVerifyFlags None None 0 = Ok example_p2pkh /\
  exists vm', Execute 7 example_p2pkh = Some (Ok vm').
Proof.
  split; [exact example_p2pkh_new|]. destruct example_scripts as [Es Ep].
  apply (p2pkh_accepts_iff (Hash160 example_pub) example_pub example_push (spend example_sigScript) 0
    (nth 0 (Tx_TxIn (spend example_sigScript)) default_txin) StandardVerifyFlags None None 0 _ _ _
    (ripemd160_size _) ltac:(split; by vm_compute) ltac:(split; by vm_compute) Es Ep eq_refl eq_refl eq_refl I example_p2pkh_new).
  pose proof example_encodings as He. destruct (split_sig example_push) as [t sig]. destruct He as (H1 & H2 & H3 & H4).
  split; [reflexivity|]. split; [exact H1|]. split; [exact H2|]. split; [exact H3|].
  exists example_key, {| sig_R := 2; sig_S := 5 |}. split; [exact example_pub_parses|]. split; [exact H4|reflexivity].
Defined.
