(* ===== verification/EngineEncoding.v ===== *)
(** The encoding rules of the script engine for signatures, and the encoder and the parser
    of btcec: [checkSignatureEncoding] accepts exactly the DER encodings of two integers. *)

From S2P Require Import Prelude Big ScriptNum Stack Opcode Script WireTx SigHash PubKey Signature Engine.

(** A test that returns an error when it fails. *)
Lemma guard_ok (b : bool) c (m : outcome unit) : (if b then scriptError c else m) = Ok () <-> b = false /\ m = Ok ().
Proof. destruct b; [split; [done|by intros []]|tauto]. Qed.

Section form.
Context (b0 b1 b2 t0 : Init.Byte.byte) (rb sb : bytes).
Context (Hr : len rb <= 255) (Hs : len sb <= 255).

(** A string laid out as a signature. *)
Let sig : bytes := b0 :: b1 :: b2 :: byte.of_Z (len rb) :: rb ++ t0 :: byte.of_Z (len sb) :: sb.

Lemma at_app_r (l k : bytes) i : 0 <= i -> at_ (l ++ k) (len l + i) = at_ k i.
Proof.
  intros Hi. unfold at_. f_equal. rewrite app_nth2 by (unfold len; lia). f_equal. unfold len. lia.
Qed.

Lemma at_app_l (l k : bytes) i : 0 <= i < len l -> at_ (l ++ k) i = at_ l i.
Proof. intros Hi. unfold at_. f_equal. apply app_nth1. unfold len in Hi. lia. Qed.

Let head : bytes := [b0; b1; b2; byte.of_Z (len rb)].

Lemma len_form : len sig = 6 + len rb + len sb.
Proof. unfold sig. rewrite !len_cons, len_app, !len_cons. lia. Qed.

Lemma len_byte (n : Z) : 0 <= n <= 255 -> byte.unsigned (byte.of_Z n) = n.
Proof. intros Hn. rewrite byte.unsigned_of_Z. apply Z.mod_small. lia. Qed.

Lemma at_r i : 0 <= i < len rb -> at_ sig (4 + i) = at_ rb i.
Proof.
  intros Hi. change sig with (head ++ rb ++ t0 :: byte.of_Z (len sb) :: sb). change 4 with (len head).
  rewrite at_app_r by lia. by apply at_app_l.
Qed.

Lemma at_t i : 0 <= i -> at_ sig (4 + len rb + i) = at_ (t0 :: byte.of_Z (len sb) :: sb) i.
Proof.
  intros Hi. change sig with (head ++ rb ++ t0 :: byte.of_Z (len sb) :: sb). change 4 with (len head).
  rewrite app_assoc, <-len_app. by apply at_app_r.
Qed.

Lemma at_s i : 0 <= i -> at_ sig (4 + len rb + 1 + 1 + i) = at_ sb i.
Proof.
  intros Hi. replace (4 + len rb + 1 + 1 + i) with (4 + len rb + (2 + i)) by lia. rewrite at_t by lia.
  change (t0 :: byte.of_Z (len sb) :: sb) with ([t0; byte.of_Z (len sb)] ++ sb).
  change 2 with (len [t0; byte.of_Z (len sb)]). by apply at_app_r.
Qed.

Lemma s_bytes : take (Z.to_nat (len sb)) (drop (Z.to_nat (4 + len rb + 1 + 1)) sig) = sb.
Proof.
  change sig with (head ++ rb ++ [t0; byte.of_Z (len sb)] ++ sb). rewrite !app_assoc.
  rewrite drop_app_len by (rewrite !len_app; change (len head) with 4; change (len [t0; byte.of_Z (len sb)]) with 2; lia).
  rewrite <-(app_nil_r sb) at 2. by apply take_app_len.
Qed.

Lemma sign_bit b : (Z.land (byte.unsigned b) 0x80 =? 0x80) = negb (Z.land (byte.unsigned b) 0x80 =? 0).
Proof. by destruct b. Qed.

Lemma padding_checks b : b <> [] ->
  canonicalPadding b = None <->
  (Z.land (at_ b 0) 0x80 =? 0) = true /\ ((1 <? len b) && (at_ b 0 =? 0x00) && (Z.land (at_ b 1) 0x80 =? 0)) = false.
Proof.
  intros _. unfold canonicalPadding, at_. rewrite !sign_bit, negb_involutive.
  destruct (Z.land _ 0x80 =? 0); cbn [negb]; [|by split; [|intros [? _]]]. by destruct (_ && _ && _); split; [|intros [_ ?]| |].
Qed.

(** The conditions of [checkSignatureEncoding] on such a string. *)
Lemma check_form vm :
  hasFlag vm ScriptVerifyDERSignatures || hasFlag vm ScriptVerifyLowS || hasFlag vm ScriptVerifyStrictEncoding = true ->
  checkSignatureEncoding vm sig = Ok () <->
  byte.unsigned b0 = 0x30 /\ byte.unsigned b1 = len sig - 2 /\ byte.unsigned b2 = 0x02 /\ byte.unsigned t0 = 0x02 /\
  8 <= len sig <= 72 /\ 1 <= len rb /\ 1 <= len sb /\ canonicalPadding rb = None /\ canonicalPadding sb = None /\
  (hasFlag vm ScriptVerifyLowS = true -> big_SetBytes sb <= halfOrder).
Proof.
  intros Hfl. pose proof (len_nonneg rb). pose proof (len_nonneg sb). pose proof len_form as El.
  unfold checkSignatureEncoding, minSigLen, maxSigLen. rewrite <-!negb_orb, Hfl. cbn [negb]. cbv iota.
  change (at_ sig 0) with (byte.unsigned b0). change (at_ sig 1) with (byte.unsigned b1). change (at_ sig 2) with (byte.unsigned b2).
  change (at_ sig 3) with (byte.unsigned (byte.of_Z (len rb))). rewrite len_byte by lia. cbv zeta.
  pose proof (at_t 0 ltac:(lia)) as E0. rewrite Z.add_0_r in E0. change (at_ (t0 :: _) 0) with (byte.unsigned t0) in E0.
  pose proof (at_t 1 ltac:(lia)) as E1. change (at_ (t0 :: _ :: sb) 1) with (byte.unsigned (byte.of_Z (len sb))) in E1.
  rewrite len_byte in E1 by lia. rewrite E0, E1, s_bytes.
  rewrite !guard_ok, !negb_false_iff, !Z.eqb_eq, !Z.eqb_neq, !Z.ltb_ge, !Z.leb_gt, El.
  split.
  - intros (G1 & G2 & G3 & G4 & G5 & G6 & G7 & G8 & G9 & G10 & G11 & G12 & G13 & G14 & G15 & G16 & _).
    pose proof (at_r 0 ltac:(lia)) as R0. rewrite Z.add_0_r in R0. rewrite R0 in G10, G11.
    pose proof (at_s 0 ltac:(lia)) as S0. rewrite Z.add_0_r in S0. rewrite S0 in G14, G15. rewrite (at_s 1) in G15 by lia.
    split_and!; try done; try lia.
    + apply padding_checks; [by intros ->|]. split; [by apply Z.eqb_eq|]. destruct (Z.ltb_spec 1 (len rb)); [|done].
      by rewrite <-(at_r 1) by lia.
    + apply padding_checks; [by intros ->|]. by split; [apply Z.eqb_eq|].
    + intros Hl. rewrite Hl in G16. cbn [andb] in G16. lia.
  - intros (G0 & G1 & G2 & G3 & G4 & G5 & G6 & P1 & P2 & G7).
    pose proof (at_r 0 ltac:(lia)) as R0. rewrite Z.add_0_r in R0. rewrite R0.
    pose proof (at_s 0 ltac:(lia)) as S0. rewrite Z.add_0_r in S0. rewrite S0, (at_s 1) by lia.
    apply padding_checks in P1 as [P1 P1']; [|by intros ->]. apply padding_checks in P2 as [P2 P2']; [|by intros ->].
    apply Z.eqb_eq in P1, P2. split_and!; try done; try lia.
    + destruct (Z.ltb_spec 1 (len rb)); [|done]. by rewrite (at_r 1) by lia.
    + destruct (hasFlag vm ScriptVerifyLowS); [|done]. cbn [andb]. apply Z.ltb_ge. by apply G7.
Qed.
End form.

Lemma byte_of_len (b : Init.Byte.byte) (l : bytes) : byte.unsigned b = len l -> b = byte.of_Z (len l).
Proof. intros H. by rewrite <-H, byte.of_Z_unsigned. Qed.

Lemma at_split (l : bytes) i : 0 <= i < len l -> exists b, drop (Z.to_nat i) l = b :: drop (Z.to_nat (i + 1)) l /\ at_ l i = byte.unsigned b.
Proof.
  intros Hi. exists (nth (Z.to_nat i) l Byte.x00). split; [|done]. replace (Z.to_nat (i + 1)) with (S (Z.to_nat i)) by lia.
  assert (Hl : (Z.to_nat i < length l)%nat) by (unfold len in Hi; lia). clear Hi. revert Hl. generalize (Z.to_nat i). clear.
  induction l as [|x l IH]; intros [|n] Hl; cbn in *; [lia..|done|]. apply IH. lia.
Qed.

(** What passes the tests of the lengths is laid out as a signature. *)
Lemma layout (sig : bytes) :
  8 <= len sig <= 72 -> 4 + at_ sig 3 + 1 < len sig -> 4 + at_ sig 3 + 1 + 1 + at_ sig (4 + at_ sig 3 + 1) = len sig ->
  exists b0 b1 b2 t0 rb sb, sig = b0 :: b1 :: b2 :: byte.of_Z (len rb) :: rb ++ t0 :: byte.of_Z (len sb) :: sb.
Proof.
  intros Hl Ht Hs. set (rl := at_ sig 3) in *.
  assert (Hrl : 0 <= rl) by (unfold rl, at_; apply byte.unsigned_range).
  destruct (at_split sig (4 + rl) ltac:(lia)) as (t0 & D0 & _).
  destruct (at_split sig (4 + rl + 1) ltac:(lia)) as (t1 & D1 & E1).
  destruct (at_split sig 0 ltac:(lia)) as (b0 & F0 & _), (at_split sig 1 ltac:(lia)) as (b1 & F1 & _),
    (at_split sig 2 ltac:(lia)) as (b2 & F2 & _), (at_split sig 3 ltac:(lia)) as (b3 & F3 & E3).
  set (rb := take (Z.to_nat rl) (drop 4 sig)). set (sb := drop (Z.to_nat (4 + rl + 1 + 1)) sig) in *.
  assert (Lr : len rb = rl) by (unfold rb, len in *; rewrite length_take, length_drop; lia).
  assert (Ls : len sb = at_ sig (4 + rl + 1)) by (unfold sb, len in *; rewrite length_drop; lia).
  exists b0, b1, b2, t0, rb, sb.
  rewrite <-(byte_of_len b3) by (rewrite Lr; by symmetry). rewrite <-(byte_of_len t1) by (by rewrite Ls).
  change (Z.to_nat 0) with 0%nat in F0. rewrite drop_0 in F0. rewrite F0 at 1. change (0 + 1) with 1. rewrite F1. change (1 + 1) with 2. rewrite F2.
  change (2 + 1) with 3. rewrite F3. change (3 + 1) with 4. do 4 f_equal.
  rewrite <-(take_drop (Z.to_nat rl) (drop (Z.to_nat 4) sig)). change (Z.to_nat 4) with 4%nat at 1. f_equal.
  rewrite drop_drop. replace (Z.to_nat 4 + Z.to_nat rl)%nat with (Z.to_nat (4 + rl)) by lia. by rewrite D0, D1.
Qed.

(** One of the flags that ask for the encoding to be checked. *)
Definition checks_signatures (vm : Engine) : Prop :=
  hasFlag vm ScriptVerifyDERSignatures || hasFlag vm ScriptVerifyLowS || hasFlag vm ScriptVerifyStrictEncoding = true.

Lemma der_form rb sb :
  der rb sb = Byte.x30 :: byte.of_Z (4 + len rb + len sb) :: Byte.x02 :: byte.of_Z (len rb) :: rb ++ Byte.x02 :: byte.of_Z (len sb) :: sb.
Proof. unfold der. replace (6 + len rb + len sb - 2) with (4 + len rb + len sb) by lia. reflexivity. Qed.

Lemma check_layout vm sig : checks_signatures vm -> checkSignatureEncoding vm sig = Ok () ->
  8 <= len sig <= 72 /\ 4 + at_ sig 3 + 1 < len sig /\ 4 + at_ sig 3 + 1 + 1 + at_ sig (4 + at_ sig 3 + 1) = len sig.
Proof.
  unfold checks_signatures. intros Hfl. unfold checkSignatureEncoding, minSigLen, maxSigLen. rewrite <-!negb_orb, Hfl. cbn [negb]. cbv iota zeta.
  rewrite !guard_ok, !negb_false_iff, !Z.eqb_eq, !Z.ltb_ge, !Z.leb_gt.
  intros (G1 & G2 & G3 & G4 & G5 & G6 & G7 & _). lia.
Qed.

Lemma check_der vm sig : checks_signatures vm ->
  checkSignatureEncoding vm sig = Ok () <->
  exists rb sb, sig = der rb sb /\ 1 <= len rb /\ 1 <= len sb /\ len sig <= 72 /\
    canonicalPadding rb = None /\ canonicalPadding sb = None /\
    (hasFlag vm ScriptVerifyLowS = true -> big_SetBytes sb <= halfOrder).
Proof.
  intros Hfl. split.
  - intros H. destruct (check_layout vm sig Hfl H) as (L1 & L2 & L3). destruct (layout sig L1 L2 L3) as (b0 & b1 & b2 & t0 & rb & sb & ->).
    pose proof (len_form b0 b1 b2 t0 rb sb) as El. pose proof (len_nonneg rb). pose proof (len_nonneg sb).
    apply check_form in H as (E0 & E1 & E2 & E3 & H'); [|lia|lia|done]. exists rb, sb. destruct H' as (K1 & K2 & K3 & K4 & K5 & K6).
    split_and!; try done; [|lia]. rewrite der_form.
    apply (byte.unsigned_inj b0 Byte.x30) in E0 as ->. apply (byte.unsigned_inj b2 Byte.x02) in E2 as ->. apply (byte.unsigned_inj t0 Byte.x02) in E3 as ->.
    do 2 f_equal. rewrite <-(byte.of_Z_unsigned b1), E1, El. f_equal. lia.
  - intros (rb & sb & -> & H1 & H2 & H3 & H4). rewrite der_form in *. rewrite len_form in H3. apply check_form; [lia|lia|done|].
    rewrite !len_form, len_byte by lia. split_and!; try done; lia || apply H4.
Qed.

Lemma len_der rb sb : len (der rb sb) = 6 + len rb + len sb.
Proof. rewrite der_form, !len_cons, len_app, !len_cons. lia. Qed.

Lemma der_inj rb sb rb' sb' : len rb <= 255 -> len rb' <= 255 -> der rb sb = der rb' sb' -> rb = rb' /\ sb = sb'.
Proof.
  intros H1 H2. rewrite !der_form. intros E. apply (f_equal (drop 3)) in E. cbn [drop] in E. injection E as E3 E.
  apply (f_equal byte.unsigned) in E3. pose proof (len_nonneg rb). pose proof (len_nonneg rb'). rewrite !len_byte in E3 by lia.
  apply app_inj_1 in E as [-> E]; [|unfold len in E3; lia]. split; [done|]. by injection E as _ ->.
Qed.

(** When a flag asks for it, a string passes the engine's check of signature encodings
    exactly when it is the DER form, of at most 72 bytes, of two nonempty big-endian
    integers that are not negative and not padded, the second one at most half the order
    of the group when low values are asked for; every signature with numbers between 1 and
    the order passes it as btcec serializes it, and what passes it is parsed by
    [ParseDERSignature] to the two integers when they are in range. *)
Theorem signature_check_der vm sig : checks_signatures vm ->
  (checkSignatureEncoding vm sig = Ok () <->
   exists rb sb, sig = der rb sb /\ 1 <= len rb /\ 1 <= len sb /\ len sig <= 72 /\
     canonicalPadding rb = None /\ canonicalPadding sb = None /\
     (hasFlag vm ScriptVerifyLowS = true -> big_SetBytes sb <= halfOrder)) /\
  (forall s, 0 < sig_R s < curve_N -> 0 < sig_S s < curve_N -> checkSignatureEncoding vm (Signature_Serialize s) = Ok ()) /\
  (forall rb sb, sig = der rb sb -> checkSignatureEncoding vm sig = Ok () -> len rb <= 33 -> len sb <= 33 ->
   0 < big_SetBytes rb < curve_N -> 0 < big_SetBytes sb < curve_N ->
   ParseDERSignature sig = Ok {| sig_R := big_SetBytes rb; sig_S := big_SetBytes sb |}).
Proof.
  intros Hfl. split_and!; [by apply check_der| |].
  - intros s HR HS. destruct (low_s_range s HS) as [Hl Hn].
    destruct (canonicalizeInt_spec (sig_R s) HR) as (Lr & Vr & Pr).
    destruct (canonicalizeInt_spec (sig_S (low_s s)) ltac:(lia)) as (Ls & Vs & Ps). cbv zeta in *.
    apply check_der; [done|]. exists (canonicalizeInt (sig_R s)), (canonicalizeInt (sig_S (low_s s))).
    change (Signature_Serialize s) with (der (canonicalizeInt (sig_R s)) (canonicalizeInt (sig_S (low_s s)))).
    rewrite len_der, Vs. split_and!; try done; lia.
  - intros rb sb -> H Lr Ls Hr Hs. apply check_der in H as (rb' & sb' & E & L1 & L2 & L3 & P1 & P2 & _); [|done].
    pose proof (len_nonneg sb'). pose proof (len_nonneg rb'). rewrite E, len_der in L3. destruct (der_inj rb sb rb' sb' ltac:(lia) ltac:(lia) E) as [-> ->].
    unfold ParseDERSignature. rewrite <-(app_nil_r (der rb' sb')). apply parseSig_der; [lia|lia|done|done|done].
Qed.

(** An engine with the flags of relayed transactions. *)
Definition flagged_engine : Engine :=
  {| scripts := []; scriptIdx := 0; scriptOff := 0; lastCodeSep := 0; dstack := empty_stack true; astack := empty_stack true;
     vm_tx := {| Version := 1; Tx_TxIn := []; Tx_TxOut := []; LockTime := 0 |}; vm_txIdx := 0; condStack := []; numOps := 0;
     vm_flags := StandardVerifyFlags; sigCache := None; hashCache := None; bip16 := false; savedFirstStack := [];
     witnessVersion := 0; witnessProgram := None; inputAmount := 0 |}.

Lemma signature_check_der_witness :
  checkSignatureEncoding flagged_engine (Signature_Serialize {| sig_R := 7; sig_S := curve_N - 200 |}) = Ok ().
Proof.
  apply (signature_check_der flagged_engine [] eq_refl); split; reflexivity.
Defined.
