(* ===== verification/Standard.v ===== *)
(** Model of the classification of scripts and of the scripts that register exchange agents
    in txscript/standard.go. *)

From S2P Require Import Prelude Chainhash ScriptNum Opcode Script WireTx WireMsg.

(** What the code asks of the packages net and net/url: [net.ParseIP], the address or nil,
    and whether [url.Parse] returns an error. *)
Class NetText := {
  net_ParseIP : bytes -> option bytes;
  url_Parse : bytes -> bool
}.

Section standard.
Context `{NetText}.

Definition isEADRegistration (pops : list parsedOpcode) : bool :=
  let isIP d := bool_decide (net_ParseIP d <> None) in
  (len pops =? 9) &&
  ((len (data (pop_at pops 0)) =? 33) || (len (data (pop_at pops 0)) =? 65)) &&
  (opcode (pop_at pops 1) =? OP_CHECKSIG) &&
  (opcode (pop_at pops 2) =? OP_NOP) &&
  isNumber (opcode (pop_at pops 3)) &&
  isNumber (opcode (pop_at pops 4)) &&
  (isIP (data (pop_at pops 5)) || url_Parse (data (pop_at pops 5))) &&
  isNumber (opcode (pop_at pops 6)).

Definition typeOfScript (pops : list parsedOpcode) : ScriptClass :=
  if isPubkey pops then PubKeyTy
  else if isPubkeyHash pops then PubKeyHashTy
  else if isWitnessPubKeyHash pops then WitnessV0PubKeyHashTy
  else if isScriptHash pops then ScriptHashTy
  else if isWitnessScriptHash pops then WitnessV0ScriptHashTy
  else if isMultiSig pops then MultiSigTy
  else if isMultiSigLock pops then MultiSigLockTy
  else if isEADRegistration pops then EADAddressTy
  else if fst (isHTLC pops) then HTLCScriptTy
  else if isNullData pops then NullDataTy
  else NonStandardTy.

Definition GetScriptClass (script : bytes) : ScriptClass :=
  match parseScript script with Ok pops => typeOfScript pops | _ => NonStandardTy end.

(** The owner, an address, is set by the callers of [Encode] only: it is given by the key
    its [ScriptAddress] returns. *)
Record EADScriptData := {
  esd_ShardID : Z; esd_IP : option bytes; esd_URL : bytes; esd_Port : Z; esd_ExpirationDate : Z; esd_RawKey : bytes
}.

(** [pops[i]] *)
Definition index_pop (pops : list parsedOpcode) (i : nat) : outcome parsedOpcode :=
  match pops !! i with Some pop => Ok pop | None => Panic end.

Definition EADAddressScriptData (script : bytes) : outcome EADScriptData :=
  pops ← parseScript script;
  p0 ← index_pop pops 0;
  p3 ← index_pop pops 3;
  shardID ←
    (if isSmallInt (opcode p3) then Ok (asSmallInt (opcode p3))
     else rawShardID ← makeScriptNum (data p3) true 1; Ok (uwrap 32 rawShardID));
  p4 ← index_pop pops 4;
  rawTime ← makeScriptNum (data p4) false 5;
  p6 ← index_pop pops 6;
  rawPort ← makeScriptNum (data p6) false 5;
  p5 ← index_pop pops 5;
  let ip := net_ParseIP (data p5) in
  Ok {| esd_ShardID := uwrap 32 (shardID - 16); esd_IP := ip;
        esd_URL := match ip with None => data p5 | Some _ => [] end;
        esd_Port := rawPort; esd_ExpirationDate := rawTime; esd_RawKey := hex_EncodeToString (data p0) |}.

(** [Encode], with the script address of the owner and the text of the address ([String]
    of the package net). *)
Definition EADScriptData_Encode (IP_String : bytes -> bytes) (owner : bytes) (e : EADScriptData) : outcome bytes :=
  let address := match esd_IP e with Some ip => IP_String ip | None => esd_URL e end in
  if bool_decide (esd_IP e = None) && negb (url_Parse (esd_URL e)) then Err (errorString "invalid url")
  else if (len (esd_URL e) =? 0) && bool_decide (esd_IP e = None) then Err (errorString "ead.URL and ead.IP empty")
  else if MaxEADDomainLen <? len (esd_URL e) then Err (errorString "ead.URL too long")
  else
  shard ← scriptNum_Bytes (uwrap 32 (esd_ShardID e + 16));
  date ← scriptNum_Bytes (esd_ExpirationDate e);
  port ← scriptNum_Bytes (esd_Port e);
  Script (AddOp OP_2DROP (AddOp OP_2DROP (AddData port (AddData address (AddData date (AddData shard
    (AddOp OP_NOP (AddOp OP_CHECKSIG (AddData owner NewScriptBuilder))))))))).

End standard.
