(* ===== verification/Utxo.v ===== *)
(** Model of node/chaindata/utxoviewpoint.go: the view of the unspent transaction outputs
    that a block is connected to and disconnected from.

    An entry of the map of a view is a pointer, nil when the output was looked up in the
    database and is not there; every outpoint has an entry of its own, so the entries are
    values here.  When a method returns an error its callers drop the view, so an error
    carries no state.  The database is a parameter of the methods that read it. *)

From stdpp Require Import gmap.
From S2P Require Import Prelude WireEncoding WireTx Chainhash WireHeader WireMsg Script Standard.

#[export] Instance OutPoint_eq_dec : EqDecision OutPoint.
Proof. solve_decision. Defined.
#[export] Program Instance OutPoint_countable : Countable OutPoint :=
  inj_countable (fun o => (Op_Hash o, Op_Index o)) (fun p => Some {| Op_Hash := p.1; Op_Index := p.2 |}) _.
Next Obligation. by intros []. Qed.

(** * Entries *)

Definition tfCoinBase : Z := 1.
Definition tfSpent : Z := 2.
Definition tfModified : Z := 4.

Record UtxoEntry := { entry_amount : Z; entry_pkScript : bytes; entry_blockHeight : Z; packedFlags : Z }.

#[export] Instance UtxoEntry_eq_dec : EqDecision UtxoEntry.
Proof. solve_decision. Defined.

Definition isModified (entry : UtxoEntry) : bool := Z.land (packedFlags entry) tfModified =? tfModified.
Definition Entry_IsCoinBase (entry : UtxoEntry) : bool := Z.land (packedFlags entry) tfCoinBase =? tfCoinBase.
Definition IsSpent (entry : UtxoEntry) : bool := Z.land (packedFlags entry) tfSpent =? tfSpent.

Definition with_flags (entry : UtxoEntry) (flags : Z) : UtxoEntry :=
  {| entry_amount := entry_amount entry; entry_pkScript := entry_pkScript entry;
     entry_blockHeight := entry_blockHeight entry; packedFlags := flags |}.

Definition Spend (entry : UtxoEntry) : UtxoEntry :=
  if IsSpent entry then entry
  else with_flags entry (Z.lor (packedFlags entry) (Z.lor tfSpent tfModified)).

Definition Clone (entry : option UtxoEntry) : option UtxoEntry :=
  match entry with
  | None => None
  | Some e => Some {| entry_amount := entry_amount e; entry_pkScript := entry_pkScript e;
                      entry_blockHeight := entry_blockHeight e; packedFlags := packedFlags e |}
  end.

(** chaindb_io.go: what the spend journal keeps of a spent output. *)
Record SpentTxOut := { st_Amount : Z; st_PkScript : bytes; st_Height : Z; st_IsCoinBase : bool }.

Definition stxo_of (entry : UtxoEntry) : SpentTxOut :=
  {| st_Amount := entry_amount entry; st_PkScript := entry_pkScript entry; st_Height := entry_blockHeight entry;
     st_IsCoinBase := Entry_IsCoinBase entry |}.

(** * Views *)

Record UtxoViewpoint := {
  entries : gmap OutPoint (option UtxoEntry);
  bestHash : bytes;
  eadAddresses : gmap bytes (option EADAddresses);
  beacon : bool
}.

Definition NewUtxoViewpoint (beacon : bool) : UtxoViewpoint :=
  {| entries := ∅; bestHash := ZeroHash; eadAddresses := ∅; beacon := beacon |}.

Definition set_entries (m : gmap OutPoint (option UtxoEntry)) (view : UtxoViewpoint) : UtxoViewpoint :=
  {| entries := m; bestHash := bestHash view; eadAddresses := eadAddresses view; beacon := beacon view |}.
Definition set_ead (m : gmap bytes (option EADAddresses)) (view : UtxoViewpoint) : UtxoViewpoint :=
  {| entries := entries view; bestHash := bestHash view; eadAddresses := m; beacon := beacon view |}.
Definition SetBestHash (hash : bytes) (view : UtxoViewpoint) : UtxoViewpoint :=
  {| entries := entries view; bestHash := hash; eadAddresses := eadAddresses view; beacon := beacon view |}.

Definition LookupEntry (view : UtxoViewpoint) (outpoint : OutPoint) : option UtxoEntry :=
  mjoin (entries view !! outpoint).
(** [view.entries[outpoint] = entry] *)
Definition put_entry (outpoint : OutPoint) (entry : UtxoEntry) (view : UtxoViewpoint) : UtxoViewpoint :=
  set_entries (<[outpoint := Some entry]> (entries view)) view.

Definition isNullOutpoint (outpoint : OutPoint) : bool :=
  (Op_Index outpoint =? 0xffffffff) && Hash_IsEqual (Op_Hash outpoint) ZeroHash.

Definition IsCoinBaseTx (msgTx : MsgTx) : bool :=
  match Tx_TxIn msgTx with
  | [ti] => negb (negb (Op_Index (PreviousOutPoint ti) =? 0xffffffff) ||
                  negb (Hash_IsEqual (Op_Hash (PreviousOutPoint ti)) ZeroHash))
  | _ => false
  end.
(** A [jaxutil.Tx] is a transaction with its hash cached. *)
Definition IsCoinBase (tx : MsgTx) : bool := IsCoinBaseTx tx.

Definition ValidateSwapTxStructure (tx : MsgTx) (missedUTXO : Z) : outcome unit :=
  let inLen := len (Tx_TxIn tx) in
  let outLen := len (Tx_TxOut tx) in
  if negb (inLen =? outLen) || (negb (inLen =? 2) && negb (inLen =? 4)) then Err (RuleError "ErrInvalidShardSwapInOuts")
  else if missedUTXO =? -1 then Ok ()
  else if inLen / 2 <? missedUTXO then Err (RuleError "ErrInvalidShardSwapInOuts")
  else Ok ().

Definition addTxOut (outpoint : OutPoint) (txOut : TxOut) (isCoinBase : bool) (blockHeight : Z)
    (view : UtxoViewpoint) : UtxoViewpoint :=
  if IsUnspendable (PkScript txOut) then view
  else put_entry outpoint
    {| entry_amount := Value txOut; entry_pkScript := PkScript txOut; entry_blockHeight := blockHeight;
       packedFlags := if isCoinBase then Z.lor tfModified tfCoinBase else tfModified |} view.

(** The identifier [rand.Read] draws for the registration of an owner, by the owner key, the
    transaction and the output. *)
Class RandomId := rand_id : bytes -> bytes -> Z -> Z.

(** [eadAddrSet.remove]: an owner that is left without addresses keeps a nil entry. *)
Definition ead_remove (scriptData : EADScriptData) (m : gmap bytes (option EADAddresses)) : gmap bytes (option EADAddresses) :=
  let ownerKey := esd_RawKey scriptData in
  match m !! ownerKey with
  | Some (Some address) =>
      if len (Addresses address) <? 1 then <[ownerKey := None]> m
      else
      let filtered := List.filter (fun p =>
        negb (EADAddress_Eq (esd_IP scriptData) (esd_URL scriptData) (esd_ShardID scriptData) p)) (Addresses address) in
      if len filtered =? 0 then <[ownerKey := None]> m
      else <[ownerKey := Some {| Ead_ID := Ead_ID address; OwnerPubKey := OwnerPubKey address; Addresses := filtered |}]> m
  | _ => <[ownerKey := None]> m
  end.

Section view.
Context `{HashFunction} `{NetText} `{RandomId}.

(** [eadAddrSet.add]: [AddAddress] on a nil pointer panics. *)
Definition ead_add (scriptData : EADScriptData) (txHash : bytes) (outN : Z)
    (m : gmap bytes (option EADAddresses)) : outcome (gmap bytes (option EADAddresses)) :=
  let ownerKey := esd_RawKey scriptData in
  addr ←
    (match m !! ownerKey with
     | Some (Some addr) => Ok addr
     | Some None => Panic
     | None => Ok {| Ead_ID := uwrap 32 (rand_id ownerKey txHash outN); OwnerPubKey := ownerKey; Addresses := [] |}
     end);
  Ok (<[ownerKey := Some (EADAddresses_AddAddress (esd_IP scriptData) (esd_URL scriptData) (uwrap 16 (esd_Port scriptData))
         (esd_ExpirationDate scriptData) (esd_ShardID scriptData) txHash outN addr)]> m).

(** The outputs of a transaction from the given index. *)
Fixpoint add_outs (hash : bytes) (isCoinBase : bool) (blockHeight : Z) (i : Z) (outs : list TxOut)
    (view : UtxoViewpoint) : UtxoViewpoint :=
  match outs with
  | [] => view
  | txOut :: outs =>
      add_outs hash isCoinBase blockHeight (i + 1) outs
        (addTxOut {| Op_Hash := hash; Op_Index := uwrap 32 i |} txOut isCoinBase blockHeight view)
  end.

Definition AddTxOuts (tx : MsgTx) (blockHeight : Z) (view : UtxoViewpoint) : UtxoViewpoint :=
  add_outs (TxHash tx) (IsCoinBase tx) blockHeight 0 (Tx_TxOut tx) view.

Definition AddTxOut (tx : MsgTx) (txOutIdx : Z) (blockHeight : Z) (view : UtxoViewpoint) : UtxoViewpoint :=
  if uwrap 32 (len (Tx_TxOut tx)) <=? txOutIdx then view
  else match Tx_TxOut tx !! Z.to_nat txOutIdx with
  | Some txOut => addTxOut {| Op_Hash := TxHash tx; Op_Index := txOutIdx |} txOut (IsCoinBase tx) blockHeight view
  | None => view
  end.

(** [stxos = append(stxos, stxo)] when [stxos] is not nil. *)
Definition record_stxo (entry : UtxoEntry) (stxos : option (list SpentTxOut)) : option (list SpentTxOut) :=
  match stxos with Some l => Some (l ++ [stxo_of entry]) | None => None end.

Fixpoint connect_swap_ins (tx : MsgTx) (blockHeight i : Z) (ins : list TxIn) (outs : list TxOut)
    (view : UtxoViewpoint) (stxos : option (list SpentTxOut)) : outcome (UtxoViewpoint * option (list SpentTxOut)) :=
  match ins with
  | [] => Ok (view, stxos)
  | txIn :: ins =>
      match LookupEntry view (PreviousOutPoint txIn) with
      | None => connect_swap_ins tx blockHeight (i + 1) ins (tail outs) view stxos
      | Some entry =>
          match outs with
          | [] => Panic
          | txOut :: outs =>
              let view := put_entry (PreviousOutPoint txIn) (Spend entry) view in
              let view := addTxOut {| Op_Hash := TxHash tx; Op_Index := uwrap 32 i |} txOut false blockHeight view in
              connect_swap_ins tx blockHeight (i + 1) ins outs view (record_stxo entry stxos)
          end
      end
  end.

Definition connectSwapTransaction (tx : MsgTx) (blockHeight : Z) (view : UtxoViewpoint)
    (stxos : option (list SpentTxOut)) : outcome (UtxoViewpoint * option (list SpentTxOut)) :=
  _ ← ValidateSwapTxStructure tx (-1);
  connect_swap_ins tx blockHeight 0 (Tx_TxIn tx) (Tx_TxOut tx) view stxos.

Fixpoint ead_register (hash : bytes) (i : Z) (outs : list TxOut) (m : gmap bytes (option EADAddresses))
    : outcome (gmap bytes (option EADAddresses)) :=
  match outs with
  | [] => Ok m
  | out :: outs =>
      if bool_decide (GetScriptClass (PkScript out) = EADAddressTy) then
        scriptData ← EADAddressScriptData (PkScript out);
        m ← ead_add scriptData hash i m;
        ead_register hash (i + 1) outs m
      else ead_register hash (i + 1) outs m
  end.

Definition connectEADTransaction (tx : MsgTx) (view : UtxoViewpoint) : outcome UtxoViewpoint :=
  if negb (beacon view) then Ok view
  else m ← ead_register (TxHash tx) 0 (Tx_TxOut tx) (eadAddresses view); Ok (set_ead m view).

Fixpoint ead_revoke (stxos : list SpentTxOut) (m : gmap bytes (option EADAddresses))
    : outcome (gmap bytes (option EADAddresses)) :=
  match stxos with
  | [] => Ok m
  | input :: stxos =>
      if bool_decide (GetScriptClass (st_PkScript input) = EADAddressTy) then
        scriptData ← EADAddressScriptData (st_PkScript input);
        ead_revoke stxos (ead_remove scriptData m)
      else ead_revoke stxos m
  end.

Definition disconnectEADAddresses (stxos : option (list SpentTxOut)) (view : UtxoViewpoint) : outcome UtxoViewpoint :=
  match stxos with
  | None => Ok view
  | Some l => m ← ead_revoke l (eadAddresses view); Ok (set_ead m view)
  end.

Fixpoint spend_ins (ins : list TxIn) (view : UtxoViewpoint) (stxos : option (list SpentTxOut))
    : outcome (UtxoViewpoint * option (list SpentTxOut)) :=
  match ins with
  | [] => Ok (view, stxos)
  | txIn :: ins =>
      match LookupEntry view (PreviousOutPoint txIn) with
      | None => Err AssertError
      | Some entry => spend_ins ins (put_entry (PreviousOutPoint txIn) (Spend entry) view) (record_stxo entry stxos)
      end
  end.

Definition ConnectTransaction (tx : MsgTx) (blockHeight : Z) (view : UtxoViewpoint)
    (stxos : option (list SpentTxOut)) : outcome (UtxoViewpoint * option (list SpentTxOut)) :=
  if IsCoinBase tx then Ok (AddTxOuts tx blockHeight view, stxos)
  else if SwapTx tx then connectSwapTransaction tx blockHeight view stxos
  else
  view ← (if Version tx =? TxVerEADAction then connectEADTransaction tx view else Ok view);
  '(view, stxos) ← spend_ins (Tx_TxIn tx) view stxos;
  view ← disconnectEADAddresses stxos (AddTxOuts tx blockHeight view);
  Ok (view, stxos).

Fixpoint connect_txs (blockHeight : Z) (txs : list MsgTx) (view : UtxoViewpoint) (stxos : option (list SpentTxOut))
    : outcome (UtxoViewpoint * option (list SpentTxOut)) :=
  match txs with
  | [] => Ok (view, stxos)
  | tx :: txs =>
      '(view, stxos) ← ConnectTransaction tx blockHeight view stxos;
      connect_txs blockHeight txs view stxos
  end.

(** A block is its hash, its height and its transactions. *)
Definition ConnectTransactions (blockHash : bytes) (blockHeight : Z) (txs : list MsgTx) (view : UtxoViewpoint)
    (stxos : option (list SpentTxOut)) : outcome (UtxoViewpoint * option (list SpentTxOut)) :=
  '(view, stxos) ← connect_txs blockHeight txs view stxos;
  Ok (SetBestHash blockHash view, stxos).

(** * Disconnecting a block *)

Definition WitnessScaleFactor : Z := 4.
Definition MaxBlockWeight : Z := 4000000.
Definition MinTxOutputWeight : Z := WitnessScaleFactor * MinTxOutPayload.
Definition MaxOutputsPerBlock : Z := MaxBlockWeight / MinTxOutputWeight.

(** The first entry of the view among the [n] outputs from [idx]. *)
Fixpoint scan_outputs (n : nat) (idx : Z) (hash : bytes) (view : UtxoViewpoint) : option UtxoEntry :=
  match n with
  | O => None
  | S n =>
      match LookupEntry view {| Op_Hash := hash; Op_Index := idx |} with
      | Some entry => Some entry
      | None => scan_outputs n (idx + 1) hash view
      end
  end.

(** [FetchUtxoEntryByHash] of the database. *)
Context (FetchUtxoEntryByHash : bytes -> outcome (option UtxoEntry)).

Definition fetchEntryByHash (hash : bytes) (view : UtxoViewpoint) : outcome (option UtxoEntry) :=
  match scan_outputs (Z.to_nat MaxOutputsPerBlock) 0 hash view with
  | Some entry => Ok (Some entry)
  | None => FetchUtxoEntryByHash hash
  end.

Definition spent_by (tx : MsgTx) : Z := if SwapTx tx then len (Tx_TxIn tx) / 2 else len (Tx_TxIn tx).

Definition CountSpentOutputs (txs : list MsgTx) : outcome Z :=
  match txs with
  | [] => Panic
  | _ :: txs => Ok (foldr (fun tx n => spent_by tx + n) 0 txs)
  end.

(** The outputs a transaction created are marked spent, with an entry for those that have
    none. *)
Fixpoint spend_outs (hash : bytes) (flags blockHeight i : Z) (outs : list TxOut) (view : UtxoViewpoint) : UtxoViewpoint :=
  match outs with
  | [] => view
  | txOut :: outs =>
      let prevOut := {| Op_Hash := hash; Op_Index := uwrap 32 i |} in
      let entry := match LookupEntry view prevOut with
        | Some entry => entry
        | None => {| entry_amount := Value txOut; entry_pkScript := PkScript txOut; entry_blockHeight := blockHeight;
                     packedFlags := flags |}
        end in
      spend_outs hash flags blockHeight (i + 1) outs
        (if IsUnspendable (PkScript txOut) then view else put_entry prevOut (Spend entry) view)
  end.

Definition restored (stxo : SpentTxOut) : UtxoEntry :=
  {| entry_amount := st_Amount stxo; entry_pkScript := st_PkScript stxo; entry_blockHeight := st_Height stxo;
     packedFlags := if st_IsCoinBase stxo then Z.lor tfModified tfCoinBase else tfModified |}.

Definition new_entry : UtxoEntry := {| entry_amount := 0; entry_pkScript := []; entry_blockHeight := 0; packedFlags := 0 |}.

(** [stxos[i]] *)
Definition index_stxo (stxos : list SpentTxOut) (i : Z) : outcome SpentTxOut :=
  if i <? 0 then Panic else match stxos !! Z.to_nat i with Some stxo => Ok stxo | None => Panic end.

(** One input, with the spent output at [stxoIdx]; what a record without a height is completed with is
    written back to the slice. *)
Definition restore_in (txHash : bytes) (txIn : TxIn) (stxos : list SpentTxOut) (stxoIdx : Z) (view : UtxoViewpoint)
    : outcome (UtxoViewpoint * list SpentTxOut) :=
  stxo ← index_stxo stxos stxoIdx;
  let originOut := PreviousOutPoint txIn in
  let view := match LookupEntry view originOut with Some _ => view | None => put_entry originOut new_entry view end in
  '(stxo, stxos) ←
    (if st_Height stxo =? 0 then
       utxo ← fetchEntryByHash txHash view;
       match utxo with
       | None => Err AssertError
       | Some utxo =>
           let stxo := {| st_Amount := st_Amount stxo; st_PkScript := st_PkScript stxo;
                          st_Height := entry_blockHeight utxo; st_IsCoinBase := Entry_IsCoinBase utxo |} in
           Ok (stxo, <[Z.to_nat stxoIdx := stxo]> stxos)
       end
     else Ok (stxo, stxos));
  Ok (put_entry originOut (restored stxo) view, stxos).

(** The inputs of a transaction from the last one: the view, the next index and the slice. *)
Fixpoint restore_ins (txHash : bytes) (rins : list TxIn) (stxos : list SpentTxOut) (stxoIdx : Z) (view : UtxoViewpoint)
    : outcome (UtxoViewpoint * Z * list SpentTxOut) :=
  match rins with
  | [] => Ok (view, stxoIdx, stxos)
  | txIn :: rins =>
      '(view, stxos) ← restore_in txHash txIn stxos stxoIdx view;
      restore_ins txHash rins stxos (stxoIdx - 1) view
  end.

(** The transactions of the block from the last one; the first one of the block counts as
    the coinbase. *)
Fixpoint disconnect_txs (blockHeight : Z) (rtxs : list MsgTx) (stxos : list SpentTxOut) (stxoIdx : Z) (view : UtxoViewpoint)
    : outcome (UtxoViewpoint * list SpentTxOut) :=
  match rtxs with
  | [] => Ok (view, stxos)
  | tx :: rtxs =>
      let isCoinBase := match rtxs with [] => true | _ => false end in
      let view := spend_outs (TxHash tx) (if isCoinBase then tfCoinBase else 0) blockHeight 0 (Tx_TxOut tx) view in
      if isCoinBase then disconnect_txs blockHeight rtxs stxos stxoIdx view
      else
      '(view, stxoIdx, stxos) ← restore_ins (TxHash tx) (rev (Tx_TxIn tx)) stxos stxoIdx view;
      disconnect_txs blockHeight rtxs stxos stxoIdx view
  end.

(** The view, and the slice of the caller afterwards. *)
Definition DisconnectTransactions (blockHeight : Z) (txs : list MsgTx) (prevHash : bytes) (stxos : list SpentTxOut)
    (view : UtxoViewpoint) : outcome (UtxoViewpoint * list SpentTxOut) :=
  n ← CountSpentOutputs txs;
  if negb (len stxos =? n) then Err AssertError
  else
  '(view, stxos) ← disconnect_txs blockHeight (rev txs) stxos (len stxos - 1) view;
  Ok (SetBestHash prevHash view, stxos).

Definition RemoveEntry (outpoint : OutPoint) (view : UtxoViewpoint) : UtxoViewpoint :=
  set_entries (delete outpoint (entries view)) view.

Definition commit_entry (entry : option UtxoEntry) : option (option UtxoEntry) :=
  match entry with
  | None => None
  | Some e =>
      if isModified e && IsSpent e then None else Some (Some (with_flags e (Z.lxor (packedFlags e) tfModified)))
  end.

Definition Commit (view : UtxoViewpoint) : UtxoViewpoint := set_entries (omap commit_entry (entries view)) view.

(** * Loading a view *)

(** [FetchUtxoEntry] and [FetchAllEADAddresses] of the database. *)
Context (FetchUtxoEntry : OutPoint -> outcome (option UtxoEntry)).
Context (FetchAllEADAddresses : outcome (gmap bytes (option EADAddresses))).

Fixpoint fetch_all (outpoints : list OutPoint) (view : UtxoViewpoint) : outcome UtxoViewpoint :=
  match outpoints with
  | [] => Ok view
  | outpoint :: outpoints =>
      entry ← FetchUtxoEntry outpoint;
      fetch_all outpoints (set_entries (<[outpoint := entry]> (entries view)) view)
  end.

(** Go iterates over the set in an arbitrary order, which decides the error that is
    returned when there are several. *)
Definition FetchUtxosMain (outpoints : gset OutPoint) (view : UtxoViewpoint) : outcome UtxoViewpoint :=
  if bool_decide (outpoints = ∅) then Ok view
  else
  view ← fetch_all (elements outpoints) view;
  if negb (beacon view) then Ok view
  else m ← FetchAllEADAddresses; Ok (set_ead m view).

Definition FetchUtxos (outpoints : gset OutPoint) (view : UtxoViewpoint) : outcome UtxoViewpoint :=
  if bool_decide (outpoints = ∅) then Ok view
  else FetchUtxosMain (filter (fun o => entries view !! o = None) outpoints) view.

Fixpoint in_flight (i : Z) (txs : list MsgTx) (m : gmap bytes Z) : gmap bytes Z :=
  match txs with [] => m | tx :: txs => in_flight (i + 1) txs (<[TxHash tx := i]> m) end.

Fixpoint needed_ins (blockHeight : Z) (txInFlight : gmap bytes Z) (transactions : list MsgTx) (i : Z) (ins : list TxIn)
    (view : UtxoViewpoint) (neededSet : gset OutPoint) : UtxoViewpoint * gset OutPoint :=
  match ins with
  | [] => (view, neededSet)
  | txIn :: ins =>
      let o := PreviousOutPoint txIn in
      let needed :=
        match entries view !! o with
        | Some _ => needed_ins blockHeight txInFlight transactions i ins view neededSet
        | None => needed_ins blockHeight txInFlight transactions i ins view ({[o]} ∪ neededSet)
        end in
      match txInFlight !! Op_Hash o with
      | Some inFlightIndex =>
          if inFlightIndex <=? i then
            match transactions !! Z.to_nat inFlightIndex with
            | Some originTx =>
                needed_ins blockHeight txInFlight transactions i ins (AddTxOuts originTx blockHeight view) neededSet
            | None => (view, neededSet)
            end
          else needed
      | None => needed
      end
  end.

Fixpoint needed_txs (blockHeight : Z) (txInFlight : gmap bytes Z) (transactions : list MsgTx) (i : Z) (txs : list MsgTx)
    (view : UtxoViewpoint) (neededSet : gset OutPoint) : UtxoViewpoint * gset OutPoint :=
  match txs with
  | [] => (view, neededSet)
  | tx :: txs =>
      let '(view, neededSet) := needed_ins blockHeight txInFlight transactions i (Tx_TxIn tx) view neededSet in
      needed_txs blockHeight txInFlight transactions (i + 1) txs view neededSet
  end.

Definition FetchInputUtxos (blockHeight : Z) (transactions : list MsgTx) (view : UtxoViewpoint) : outcome UtxoViewpoint :=
  let txInFlight := in_flight 0 transactions ∅ in
  match transactions with
  | [] => Panic
  | _ :: txs =>
      let '(view, neededSet) := needed_txs blockHeight txInFlight transactions 0 txs view ∅ in
      FetchUtxosMain neededSet view
  end.

End view.
