(* ===== verification/UtxoSet.v ===== *)
(** Correctness of the views of node/chaindata/utxoviewpoint.go.

    The specification is a set of unspent outputs with their amounts, scripts, heights and
    coinbase marks, and a transaction that removes its inputs from it and adds its outputs.
    A view stands for the set that remains when its entries are laid over those of the
    database; [ConnectTransaction] implements the step of the specification,
    [DisconnectTransactions] undoes the steps of a block. *)

From stdpp Require Import gmap fin_maps.
From S2P Require Import Prelude WireEncoding WireTx Chainhash WireHeader WireMsg Opcode Script Standard Utxo.

(** * The specification *)

Abbreviation utxo_set := (gmap OutPoint SpentTxOut).

#[export] Instance SpentTxOut_eq_dec : EqDecision SpentTxOut.
Proof. solve_decision. Defined.

(** What an entry stands for. *)
Definition coin_of (entry : option UtxoEntry) : option SpentTxOut :=
  match entry with Some e => if IsSpent e then None else Some (stxo_of e) | None => None end.

(** The set a view over a database stands for. *)
Definition utxos (db : utxo_set) (view : UtxoViewpoint) : utxo_set :=
  merge (fun e d => match e with Some e => coin_of e | None => d end) (entries view) db.

Definition coin (out : TxOut) (isCoinBase : bool) (height : Z) : SpentTxOut :=
  {| st_Amount := Value out; st_PkScript := PkScript out; st_Height := height; st_IsCoinBase := isCoinBase |}.

Definition outpoint (hash : bytes) (i : Z) : OutPoint := {| Op_Hash := hash; Op_Index := uwrap 32 i |}.

Fixpoint add_coins (hash : bytes) (isCoinBase : bool) (height i : Z) (outs : list TxOut) (U : utxo_set) : utxo_set :=
  match outs with
  | [] => U
  | out :: outs =>
      add_coins hash isCoinBase height (i + 1) outs
        (if IsUnspendable (PkScript out) then U else <[outpoint hash i := coin out isCoinBase height]> U)
  end.

Definition remove_ins (ins : list TxIn) (U : utxo_set) : utxo_set :=
  foldl (fun U ti => delete (PreviousOutPoint ti) U) U ins.

Section spec.
Context `{HashFunction} `{NetText} `{RandomId}.

(** A transaction. *)
Definition apply_tx (height : Z) (tx : MsgTx) (U : utxo_set) : utxo_set :=
  add_coins (TxHash tx) (IsCoinBase tx) height 0 (Tx_TxOut tx)
    (if IsCoinBase tx then U else remove_ins (Tx_TxIn tx) U).

Definition apply_txs (height : Z) (txs : list MsgTx) (U : utxo_set) : utxo_set :=
  foldl (fun U tx => apply_tx height tx U) U txs.

(** The coins a transaction spends, in the order of its inputs. *)
Definition spent_coins (tx : MsgTx) (U : utxo_set) : list SpentTxOut :=
  if IsCoinBase tx then [] else omap (fun ti => U !! PreviousOutPoint ti) (Tx_TxIn tx).

(** The inputs of a transaction are different unspent outputs. *)
Definition inputs_unspent (tx : MsgTx) (U : utxo_set) : Prop :=
  IsCoinBase tx = false ->
  NoDup (map PreviousOutPoint (Tx_TxIn tx)) /\
  Forall (fun ti => is_Some (U !! PreviousOutPoint ti)) (Tx_TxIn tx).

(** The height zero stands for an unknown height in the spend journal; the outputs of the
    first block are not spent. *)
Definition heights_known (tx : MsgTx) (U : utxo_set) : Prop := Forall (fun c => st_Height c <> 0) (spent_coins tx U).

(** Its outputs do not replace unspent ones. *)
Definition outputs_fresh (tx : MsgTx) (U : utxo_set) : Prop :=
  forall i, U !! outpoint (TxHash tx) i = None.

Fixpoint valid_txs (height : Z) (txs : list MsgTx) (U : utxo_set) : Prop :=
  match txs with
  | [] => True
  | tx :: txs =>
      SwapTx tx = false /\ (inputs_unspent tx U /\ heights_known tx U) /\ outputs_fresh tx U /\ valid_txs height txs (apply_tx height tx U)
  end.

(** The transactions of a block: one coinbase, the first. *)
Definition valid_block (height : Z) (txs : list MsgTx) (U : utxo_set) : Prop :=
  match txs with
  | [] => False
  | cb :: txs' => IsCoinBase cb = true /\ Forall (fun tx => IsCoinBase tx = false) txs' /\ valid_txs height txs U
  end.

(** * Entries and their coins *)

Lemma utxos_lookup db view o :
  utxos db view !! o = match entries view !! o with Some e => coin_of e | None => db !! o end.
Proof.
  unfold utxos. rewrite lookup_merge. unfold diag_None.
  destruct (entries view !! o) as [e|] eqn:E, (db !! o) eqn:Ed; cbn; done.
Qed.

Lemma utxos_put db o e view :
  utxos db (put_entry o e view) =
  match coin_of (Some e) with Some c => <[o := c]> (utxos db view) | None => delete o (utxos db view) end.
Proof.
  apply map_eq. intros o'. rewrite utxos_lookup. cbn [put_entry set_entries entries].
  destruct (decide (o = o')) as [->|Hne].
  - rewrite lookup_insert. rewrite decide_True by done. destruct (coin_of (Some e)); [by rewrite lookup_insert_eq|by rewrite lookup_delete_eq].
  - rewrite lookup_insert_ne by done. destruct (coin_of (Some e)); [rewrite lookup_insert_ne by done|rewrite lookup_delete_ne by done]; by rewrite utxos_lookup.
Qed.

Lemma spend_spent e : IsSpent (Spend e) = true.
Proof.
  unfold Spend. destruct (IsSpent e) eqn:E; [done|]. unfold IsSpent, with_flags. cbn [packedFlags].
  rewrite Z.land_lor_distr_l. change (Z.land (Z.lor tfSpent tfModified) tfSpent) with tfSpent.
  apply Z.eqb_eq. unfold tfSpent. apply Z.bits_inj'. intros n Hn. rewrite Z.lor_spec, Z.land_spec. by destruct (Z.testbit (packedFlags e) n), (Z.testbit 2 n).
Qed.

Lemma utxos_spend db o e view : utxos db (put_entry o (Spend e) view) = delete o (utxos db view).
Proof. rewrite utxos_put. unfold coin_of. by rewrite spend_spent. Qed.

Lemma coin_restored c : coin_of (Some (restored c)) = Some c.
Proof. destruct c as [a s h [|]]; reflexivity. Qed.

Lemma utxos_restored db o c view : utxos db (put_entry o (restored c) view) = <[o := c]> (utxos db view).
Proof. by rewrite utxos_put, coin_restored. Qed.

Lemma utxos_addTxOut db o out cb height view :
  utxos db (addTxOut o out cb height view) =
  if IsUnspendable (PkScript out) then utxos db view else <[o := coin out cb height]> (utxos db view).
Proof.
  unfold addTxOut. destruct (IsUnspendable (PkScript out)); [done|]. rewrite utxos_put. by destruct cb.
Qed.

Lemma lookup_unspent db view o e c :
  LookupEntry view o = Some e -> utxos db view !! o = Some c -> c = stxo_of e.
Proof.
  unfold LookupEntry. rewrite utxos_lookup. destruct (entries view !! o) as [[e'|]|] eqn:E; [|done..]. cbn. intros [= ->].
  by destruct (IsSpent e); [|intros [= ->]].
Qed.

Lemma utxos_set_ead db m view : utxos db (set_ead m view) = utxos db view.
Proof. done. Qed.
Lemma utxos_best db h view : utxos db (SetBestHash h view) = utxos db view.
Proof. done. Qed.

(** * Connecting *)

Lemma add_outs_coins db hash cb height outs : forall i view,
  utxos db (add_outs hash cb height i outs view) = add_coins hash cb height i outs (utxos db view).
Proof. induction outs as [|out outs IH]; intros i view; [done|]. cbn. by rewrite IH, utxos_addTxOut. Qed.

Lemma spend_ins_coins db ins : forall view l view' stxos,
  NoDup (map PreviousOutPoint ins) ->
  Forall (fun ti => is_Some (utxos db view !! PreviousOutPoint ti)) ins ->
  spend_ins ins view (Some l) = Ok (view', stxos) ->
  utxos db view' = remove_ins ins (utxos db view) /\
  stxos = Some (l ++ omap (fun ti => utxos db view !! PreviousOutPoint ti) ins).
Proof.
  induction ins as [|ti ins IH]; intros view l view' stxos Hn Hu; cbn [spend_ins].
  - intros [= <- <-]. split; [done|]. by rewrite app_nil_r.
  - cbn [map] in Hn. apply NoDup_cons in Hn as [Hni Hn]. apply Forall_cons in Hu as [[c Hc] Hu].
    destruct (LookupEntry view (PreviousOutPoint ti)) as [e|] eqn:El; [|done]. cbn [record_stxo]. intros E.
    pose proof (lookup_unspent _ _ _ _ _ El Hc) as ->.
    assert (Hne : Forall (fun tj => PreviousOutPoint ti <> PreviousOutPoint tj) ins).
    { apply Forall_forall. intros tj Hj Heq. apply Hni. rewrite Heq. by apply (list_elem_of_fmap_2 PreviousOutPoint). }
    apply IH in E as [-> ->]; [|done|].
    + rewrite utxos_spend. split; [done|]. f_equal. rewrite <-app_assoc. f_equal. cbn. rewrite Hc. cbn. f_equal.
      clear -Hne. induction Hne as [|tj ins Hj Hne IH]; [done|]. cbn. rewrite lookup_delete_ne by done. by rewrite IH.
    + rewrite utxos_spend. apply Forall_forall. intros tj Hj. rewrite lookup_delete_ne by (by eapply Forall_forall in Hne).
      by eapply Forall_forall in Hu.
Qed.

(** The steps of a transaction that touch the addresses of exchange agents only. *)
Lemma ead_connect_coins db tx view view' : connectEADTransaction tx view = Ok view' -> utxos db view' = utxos db view.
Proof.
  unfold connectEADTransaction. destruct (negb (beacon view)); [by intros [= <-]|].
  destruct (ead_register _ _ _ _); cbn; [by intros [= <-]|done..].
Qed.

Lemma ead_disconnect_coins db stxos view view' : disconnectEADAddresses stxos view = Ok view' -> utxos db view' = utxos db view.
Proof.
  unfold disconnectEADAddresses. destruct stxos as [l|]; [|by intros [= <-]].
  destruct (ead_revoke _ _); cbn; [by intros [= <-]|done..].
Qed.

Lemma connect_coins db height tx view l view' stxos :
  SwapTx tx = false -> inputs_unspent tx (utxos db view) ->
  ConnectTransaction tx height view (Some l) = Ok (view', stxos) ->
  utxos db view' = apply_tx height tx (utxos db view) /\ stxos = Some (l ++ spent_coins tx (utxos db view)).
Proof.
  intros Hs Hi. unfold ConnectTransaction, apply_tx, spent_coins. destruct (IsCoinBase tx) eqn:Ec.
  - intros [= <- <-]. unfold AddTxOuts. rewrite add_outs_coins, Ec, app_nil_r. done.
  - rewrite Hs. destruct (Hi Ec) as [Hn Hu].
    set (m := if Version tx =? TxVerEADAction then _ else _).
    assert (Hm : forall v, m = Ok v -> utxos db v = utxos db view).
    { unfold m. destruct (Version tx =? TxVerEADAction); [intros v; apply ead_connect_coins|by intros v [= <-]]. }
    destruct m as [v| |]; cbn; [|done..]. specialize (Hm v eq_refl). destruct (spend_ins _ _ _) as [[v1 st]| |] eqn:Es; cbn; [|done..].
    apply (spend_ins_coins db) in Es as [Ev Est]; [|done|].
    + rewrite Hm in *. subst st. destruct (disconnectEADAddresses _ _) as [v2| |] eqn:Ed; cbn; [|done..]. intros [= <- <-].
      apply (ead_disconnect_coins db) in Ed. rewrite Ed. unfold AddTxOuts. by rewrite add_outs_coins, Ev, Ec.
    + by rewrite Hm.
Qed.

(** The coins the transactions of a list spend, in order. *)
Fixpoint all_spent (height : Z) (txs : list MsgTx) (U : utxo_set) : list SpentTxOut :=
  match txs with
  | [] => []
  | tx :: txs => spent_coins tx U ++ all_spent height txs (apply_tx height tx U)
  end.

Lemma connect_txs_coins db height txs : forall view l view' stxos,
  valid_txs height txs (utxos db view) ->
  connect_txs height txs view (Some l) = Ok (view', stxos) ->
  utxos db view' = apply_txs height txs (utxos db view) /\ stxos = Some (l ++ all_spent height txs (utxos db view)).
Proof.
  induction txs as [|tx txs IH]; intros view l view' stxos Hv; cbn [connect_txs].
  - intros [= <- <-]. by rewrite app_nil_r.
  - destruct Hv as (Hs & [Hi _] & _ & Hv). destruct (ConnectTransaction _ _ _ _) as [[v st]| |] eqn:Ec; cbn; [|done..].
    apply (connect_coins db) in Ec as [Ev ->]; [|done..]. rewrite <-Ev in *. intros E.
    apply IH in E as [-> ->]; [|done]. split; [done|]. by rewrite app_assoc.
Qed.

(** * Disconnecting *)

(** The spendable outputs of a list. *)
Fixpoint out_points (hash : bytes) (i : Z) (outs : list TxOut) : list OutPoint :=
  match outs with
  | [] => []
  | out :: outs => (if IsUnspendable (PkScript out) then [] else [outpoint hash i]) ++ out_points hash (i + 1) outs
  end.

Lemma add_coins_other hash cb height outs o : forall i U,
  o ∉ out_points hash i outs -> add_coins hash cb height i outs U !! o = U !! o.
Proof.
  induction outs as [|out outs IH]; intros i U Ho; [done|]. cbn in *. apply not_elem_of_app in Ho as [Ho Hos]. rewrite IH by done.
  destruct (IsUnspendable _); [done|]. rewrite lookup_insert_ne; [done|]. intros E. apply Ho. rewrite E. by apply list_elem_of_singleton.
Qed.

Lemma spend_outs_lookup db hash flags height outs o : forall i view,
  utxos db (spend_outs hash flags height i outs view) !! o =
  if decide (o ∈ out_points hash i outs) then None else utxos db view !! o.
Proof.
  induction outs as [|out outs IH]; intros i view; cbn [spend_outs out_points]; [by rewrite decide_False by apply not_elem_of_nil|]. rewrite IH.
  destruct (IsUnspendable _); [done|]. rewrite utxos_spend. fold (outpoint hash i).
  destruct (decide (o ∈ out_points hash (i + 1) outs)) as [Hi|Hi]; [by rewrite decide_True by (by right)|].
  destruct (decide (o = outpoint hash i)) as [->|Hne]; [rewrite lookup_delete_eq; by rewrite decide_True by left|].
  rewrite lookup_delete_ne by done. rewrite decide_False; [done|]. by intros [?|?]%elem_of_cons.
Qed.

(** Restoring the spent outputs of a transaction from the last one. *)
Lemma restore_ins_coins db fetch hash rins : forall pre coins post view,
  length coins = length rins -> Forall (fun c => st_Height c <> 0) coins ->
  exists view', restore_ins fetch hash rins (pre ++ coins ++ post) (len pre + len coins - 1) view = Ok (view', len pre - 1, pre ++ coins ++ post) /\
    utxos db view' = foldl (fun U p => <[PreviousOutPoint p.1 := p.2]> U) (utxos db view) (combine rins (rev coins)).
Proof.
  induction rins as [|ti rins IH]; intros pre coins post view Hl Hh.
  - destruct coins; [|done]. exists view. split; [|done]. cbn. rewrite len_nil. do 3 f_equal. lia.
  - destruct coins as [|c coins _] using rev_ind; [done|]. rewrite length_app in Hl. cbn in Hl. apply Forall_app in Hh as [Hh Hc].
    apply Forall_cons in Hc as [Hc _]. rewrite rev_unit. cbn [combine foldl restore_ins restore_in].
    assert (Ei : index_stxo (pre ++ (coins ++ [c]) ++ post) (len pre + len (coins ++ [c]) - 1) = Ok c).
    { unfold index_stxo. pose proof (len_nonneg pre). pose proof (len_nonneg coins). rewrite len_app, len_cons, len_nil.
      rewrite (proj2 (Z.ltb_ge _ _)) by lia. rewrite <-app_assoc, app_assoc, lookup_app_r by (rewrite length_app; unfold len; lia).
      rewrite length_app. unfold len. replace (Z.to_nat _ - _)%nat with 0%nat by lia. done. }
    unfold restore_in. rewrite Ei. cbn. rewrite (proj2 (Z.eqb_neq (st_Height c) 0)) by done. cbn.
    set (v := put_entry _ _ _). replace (len pre + len (coins ++ [c]) - 1 - 1) with (len pre + len coins - 1) by (rewrite len_app, len_cons, len_nil; lia).
    rewrite <-(app_assoc coins). destruct (IH pre coins ([c] ++ post) v ltac:(lia) Hh) as (v' & E1 & E2). rewrite E1. exists v'. split; [done|]. rewrite E2. f_equal.
    unfold v. rewrite utxos_restored. cbn [fst snd]. destruct (LookupEntry view (PreviousOutPoint ti)) eqn:El; [done|].
    rewrite utxos_put. destruct (coin_of (Some new_entry)); [by rewrite insert_insert_eq|by rewrite insert_delete_eq].
Qed.

Lemma remove_ins_lookup ins o : forall U,
  remove_ins ins U !! o = if decide (o ∈ map PreviousOutPoint ins) then None else U !! o.
Proof.
  induction ins as [|ti ins IH]; intros U; cbn [map remove_ins foldl]; [by rewrite decide_False by apply not_elem_of_nil|].
  fold (remove_ins ins (delete (PreviousOutPoint ti) U)). rewrite IH.
  destruct (decide (o ∈ map PreviousOutPoint ins)) as [Hi|Hi]; [by rewrite decide_True by (by right)|].
  destruct (decide (o = PreviousOutPoint ti)) as [->|Hne]; [rewrite lookup_delete_eq; by rewrite decide_True by left|].
  rewrite lookup_delete_ne by done. rewrite decide_False; [done|]. by intros [?|?]%elem_of_cons.
Qed.

Lemma restore_lookup (U : utxo_set) o (l : list (TxIn * SpentTxOut)) : forall M : utxo_set,
  Forall (fun p => U !! PreviousOutPoint p.1 = Some p.2) l ->
  foldl (fun M p => <[PreviousOutPoint p.1 := p.2]> M) M l !! o =
  if decide (o ∈ map PreviousOutPoint (map fst l)) then U !! o else M !! o.
Proof.
  induction l as [|p l IH]; intros M Hl; cbn [map foldl]; [by rewrite decide_False by apply not_elem_of_nil|].
  apply Forall_cons in Hl as [Hp Hl]. rewrite IH by done.
  destruct (decide (o ∈ map PreviousOutPoint (map fst l))) as [Hi|Hi]; [by rewrite decide_True by (by right)|].
  destruct (decide (o = PreviousOutPoint p.1)) as [->|Hne]; [rewrite lookup_insert_eq; by rewrite decide_True by left|].
  rewrite lookup_insert_ne by done. rewrite decide_False; [done|]. by intros [?|?]%elem_of_cons.
Qed.

(** The coins of the inputs, when all of them are unspent. *)
Lemma spent_coins_each tx U :
  IsCoinBase tx = false -> inputs_unspent tx U ->
  length (spent_coins tx U) = length (Tx_TxIn tx) /\
  Forall (fun p => U !! PreviousOutPoint p.1 = Some p.2) (combine (Tx_TxIn tx) (spent_coins tx U)).
Proof.
  intros Hc Hi. unfold spent_coins. rewrite Hc. destruct (Hi Hc) as [_ Hu]. clear Hi.
  induction Hu as [|ti ins [c E] Hu [L F]]; [done|]. cbn. rewrite E. cbn. rewrite L. split; [done|]. by constructor.
Qed.

Lemma combine_rev {A B} (l : list A) (k : list B) : length l = length k -> combine (rev l) (rev k) = rev (combine l k).
Proof.
  revert k. induction l as [|a l IH]; intros [|b k] Hl; [done..|]. injection Hl as Hl. cbn. rewrite <-IH by done.
  assert (Hr : length (rev l) = length (rev k)) by (by rewrite !length_rev). revert Hr. generalize (rev l) (rev k). clear.
  induction l as [|x l IH]; intros [|y k] Hr; [done..|]. cbn. f_equal. apply IH. by injection Hr.
Qed.

Lemma fst_combine {A B} (l : list A) (k : list B) : length l = length k -> map fst (combine l k) = l.
Proof. revert k. induction l as [|a l IH]; intros [|b k] Hl; [done..|]. cbn. f_equal. apply IH. by injection Hl. Qed.

Lemma undo_outs db flags height tx U M view :
  outputs_fresh tx U -> (forall o, U !! o = None -> M !! o = None) ->
  utxos db view = add_coins (TxHash tx) (IsCoinBase tx) height 0 (Tx_TxOut tx) M ->
  utxos db (spend_outs (TxHash tx) flags height 0 (Tx_TxOut tx) view) = M.
Proof.
  intros Hf Hm E. apply map_eq. intros o. rewrite spend_outs_lookup. destruct (decide _) as [Hi|Hi].
  - symmetry. apply Hm. revert Hi. generalize (Tx_TxOut tx) 0. clear -Hf.
    induction l as [|out outs IH]; intros i; [by intros ?%elem_of_nil|]. cbn. intros [Ho|Ho]%elem_of_app; [|by apply IH in Ho].
    destruct (IsUnspendable _); [by apply elem_of_nil in Ho|]. apply list_elem_of_singleton in Ho as ->. apply Hf.
  - rewrite E. by apply add_coins_other.
Qed.

Lemma undo_coinbase db height tx U view :
  IsCoinBase tx = true -> outputs_fresh tx U -> utxos db view = apply_tx height tx U ->
  utxos db (spend_outs (TxHash tx) tfCoinBase height 0 (Tx_TxOut tx) view) = U.
Proof. intros Hc Hf E. unfold apply_tx in E. rewrite Hc in E. eapply undo_outs; [done|done|by rewrite Hc]. Qed.

Lemma undo_tx db fetch height tx U view pre post :
  IsCoinBase tx = false -> inputs_unspent tx U -> heights_known tx U -> outputs_fresh tx U ->
  utxos db view = apply_tx height tx U ->
  let coins := spent_coins tx U in
  exists view',
    restore_ins fetch (TxHash tx) (rev (Tx_TxIn tx)) (pre ++ coins ++ post) (len pre + len coins - 1)
      (spend_outs (TxHash tx) 0 height 0 (Tx_TxOut tx) view) = Ok (view', len pre - 1, pre ++ coins ++ post) /\ utxos db view' = U.
Proof.
  intros Hc Hi F Hf E coins. destruct (spent_coins_each tx U Hc Hi) as [L P]. unfold heights_known in F. fold coins in L, F, P.
  destruct (restore_ins_coins db fetch (TxHash tx) (rev (Tx_TxIn tx)) pre coins post
    (spend_outs (TxHash tx) 0 height 0 (Tx_TxOut tx) view) ltac:(by rewrite length_rev) F) as (v & E1 & E2).
  exists v. split; [done|]. rewrite E2. clear E1 E2. rewrite combine_rev by done.
  rewrite (undo_outs db 0 height tx U (remove_ins (Tx_TxIn tx) U)); [|done| |].
  - apply map_eq. intros o. rewrite (restore_lookup U) by (by apply Forall_rev). rewrite remove_ins_lookup.
    rewrite map_rev, map_rev, fst_combine by done.
    destruct (decide (o ∈ map PreviousOutPoint (Tx_TxIn tx))) as [Ho|Ho].
    + rewrite decide_True; [done|]. rewrite rev_alt. by apply elem_of_reverse.
    + rewrite decide_False; [done|]. rewrite rev_alt. contradict Ho. by apply elem_of_reverse.
  - intros o Ho. rewrite remove_ins_lookup. by destruct (decide _).
  - rewrite E. unfold apply_tx. by rewrite Hc.
Qed.

Lemma valid_txs_snoc height tx txs : forall U,
  valid_txs height (txs ++ [tx]) U ->
  valid_txs height txs U /\ (inputs_unspent tx (apply_txs height txs U) /\ heights_known tx (apply_txs height txs U)) /\
  outputs_fresh tx (apply_txs height txs U).
Proof.
  induction txs as [|t txs IH]; intros U; cbn; [by intros (_ & ? & ? & _)|].
  intros (Hs & Hi & Hf & Hv). apply IH in Hv as (Hv & ? & ?). done.
Qed.

Lemma all_spent_snoc height tx txs : forall U,
  all_spent height (txs ++ [tx]) U = all_spent height txs U ++ spent_coins tx (apply_txs height txs U).
Proof. induction txs as [|t txs IH]; intros U; cbn; [by rewrite app_nil_r|]. by rewrite IH, app_assoc. Qed.

Lemma disconnect_txs_coins db fetch height cb txs U : forall post view,
  IsCoinBase cb = true -> Forall (fun tx => IsCoinBase tx = false) txs -> valid_txs height (cb :: txs) U ->
  utxos db view = apply_txs height (cb :: txs) U ->
  let coins := all_spent height (cb :: txs) U in
  exists view', disconnect_txs fetch height (rev (cb :: txs)) (coins ++ post) (len coins - 1) view = Ok (view', coins ++ post) /\ utxos db view' = U.
Proof.
  induction txs as [|tx txs IH] using rev_ind; intros post view Hc Hn Hv E coins.
  - destruct Hv as (_ & _ & Hf & _). eexists. split; [reflexivity|]. by apply undo_coinbase.
  - apply Forall_app in Hn as [Hn Ht]. apply Forall_cons in Ht as [Ht _].
    rewrite app_comm_cons in *. apply valid_txs_snoc in Hv as (Hv & [Hi Hh] & Hf).
    unfold apply_txs in E. rewrite foldl_app in E. fold (apply_txs height (cb :: txs) U) in E. cbn [foldl] in E.
    unfold coins. rewrite !app_comm_cons, all_spent_snoc. set (done_coins := all_spent height (cb :: txs) U). rewrite rev_unit.
    destruct (undo_tx db fetch height tx (apply_txs height (cb :: txs) U) view done_coins post Ht Hi Hh Hf E) as (v & E1 & E2).
    cbv zeta in E1. set (sc := spent_coins tx _) in *. destruct (IH (sc ++ post) v Hc Hn Hv E2) as (v' & E3 & E4). fold done_coins in E3.
    exists v'. split; [|done]. rewrite <-app_assoc, len_app.
    cbn [disconnect_txs]. destruct (rev (cb :: txs)) as [|r rs] eqn:Er; [by apply (f_equal length) in Er; rewrite length_rev in Er|].
    rewrite E1. exact E3.
Qed.

Lemma count_spent_coins height cb txs U :
  IsCoinBase cb = true -> Forall (fun tx => IsCoinBase tx = false) txs -> valid_txs height (cb :: txs) U ->
  CountSpentOutputs (cb :: txs) = Ok (len (all_spent height (cb :: txs) U)).
Proof.
  intros Hc Hn (_ & _ & _ & Hv). cbn. f_equal. unfold spent_coins at 1. rewrite Hc. cbn [app].
  revert Hn Hv. generalize (apply_tx height cb U). clear. induction txs as [|tx txs IH]; intros U Hn Hv; [done|].
  apply Forall_cons in Hn as [Ht Hn]. destruct Hv as (Hs & [Hi _] & _ & Hv). cbn. rewrite (IH (apply_tx height tx U)) by done.
  unfold spent_by. rewrite Hs, len_app. destruct (spent_coins_each tx U Ht Hi) as [L _]. unfold len. rewrite L. lia.
Qed.

(** C8: Connecting a block to a view and disconnecting it again.  For a valid block without
    cross-shard swaps, [ConnectTransactions] turns the set of unspent outputs into the one
    the specification gives and lists the spent outputs in order; and from any view that
    stands for that set over any database, [DisconnectTransactions] with this list restores
    the set as it was before the block and leaves the list as it is. *)
Theorem connect_disconnect db db' fetch hash prevHash height txs view view' stxos view2 :
  valid_block height txs (utxos db view) ->
  ConnectTransactions hash height txs view (Some []) = Ok (view', stxos) ->
  utxos db' view2 = utxos db view' ->
  utxos db view' = apply_txs height txs (utxos db view) /\ bestHash view' = hash /\
  exists l view3, stxos = Some l /\ DisconnectTransactions fetch height txs prevHash l view2 = Ok (view3, l) /\
    utxos db' view3 = utxos db view /\ bestHash view3 = prevHash.
Proof.
  intros Hv Hcon E2. destruct txs as [|cb txs]; [done|]. destruct Hv as (Hc & Hn & Hv).
  unfold ConnectTransactions in Hcon. destruct (connect_txs _ _ _ _) as [[v st]| |] eqn:Ec; cbn in Hcon; [|done..].
  injection Hcon as <- <-. apply (connect_txs_coins db) in Ec as [Ev ->]; [|done]. cbn [app]. rewrite utxos_best, Ev in *.
  split_and!; [done..|]. set (coins := all_spent _ _ _).
  destruct (disconnect_txs_coins db' fetch height cb txs (utxos db view) [] view2 Hc Hn Hv E2) as (v3 & E3 & E4).
  rewrite app_nil_r in E3. exists coins, (SetBestHash prevHash v3). split; [done|].
  unfold DisconnectTransactions. rewrite (count_spent_coins height cb txs (utxos db view)) by done. fold coins in E3 |- *. cbn [mbind outcome_bind].
  rewrite Z.eqb_refl. cbn [negb]. rewrite E3. split_and!; [reflexivity|exact E4|reflexivity].
Qed.

End spec.

(** * A concrete block *)

Section example.

#[local] Instance example_hash : HashFunction := sha256_instance.
#[local] Instance example_text : NetText := {| net_ParseIP := fun _ => None; url_Parse := fun _ => true |}.
#[local] Instance example_ids : RandomId := fun _ _ _ => 0.

(** Computable forms of the conditions on a block. *)
Definition fresh_check (tx : MsgTx) (U : utxo_set) : bool :=
  forallb (fun p => negb (bool_decide (Op_Hash p.1 = TxHash tx))) (map_to_list U).

Lemma fresh_check_ok tx U : fresh_check tx U = true -> outputs_fresh tx U.
Proof.
  intros Hc i. destruct (U !! outpoint (TxHash tx) i) as [c|] eqn:E; [|done]. exfalso.
  apply elem_of_map_to_list in E. unfold fresh_check in Hc. rewrite forallb_forall in Hc.
  apply list_elem_of_In, Hc in E. cbn in E. by rewrite bool_decide_true in E.
Qed.

Definition inputs_check (tx : MsgTx) (U : utxo_set) : bool :=
  bool_decide (NoDup (map PreviousOutPoint (Tx_TxIn tx))) &&
  forallb (fun ti => bool_decide (is_Some (U !! PreviousOutPoint ti))) (Tx_TxIn tx) &&
  forallb (fun c => negb (st_Height c =? 0)) (spent_coins tx U).

Lemma inputs_check_ok tx U : inputs_check tx U = true -> inputs_unspent tx U /\ heights_known tx U.
Proof.
  intros [[Hn Hu]%andb_prop Hh]%andb_prop. apply bool_decide_eq_true in Hn. rewrite forallb_forall in Hu, Hh. split; [intros _; split; [done|]|].
  - apply Forall_forall. intros ti Hi. apply list_elem_of_In, Hu in Hi. by apply bool_decide_eq_true in Hi.
  - apply Forall_forall. intros c Hc. apply list_elem_of_In, Hh in Hc. by apply Z.eqb_neq, negb_true_iff.
Qed.

Definition example_out (v : Z) : TxOut := {| Value := v; PkScript := mkbytes [OP_1] |}.
Definition example_in (o : OutPoint) : TxIn :=
  {| PreviousOutPoint := o; SignatureScript := mkbytes [0; 0]; Witness := None; Sequence := 0; Age := 0 |}.
Definition example_origin : OutPoint := {| Op_Hash := replicate 32 Byte.x07; Op_Index := 1 |}.
Definition example_coinbase : MsgTx :=
  {| Version := 1; Tx_TxIn := [example_in {| Op_Hash := ZeroHash; Op_Index := 0xffffffff |}];
     Tx_TxOut := [example_out 50]; LockTime := 0 |}.
Definition example_spend : MsgTx :=
  {| Version := 1; Tx_TxIn := [example_in example_origin]; Tx_TxOut := [example_out 60; example_out 30]; LockTime := 0 |}.
Definition example_view : UtxoViewpoint :=
  {| entries := {[ example_origin := Some {| entry_amount := 100; entry_pkScript := mkbytes [OP_1]; entry_blockHeight := 5; packedFlags := 0 |} ]};
     bestHash := ZeroHash; eadAddresses := ∅; beacon := false |}.
Definition example_txs : list MsgTx := [example_coinbase; example_spend].

Lemma example_valid : valid_block 7 example_txs (utxos ∅ example_view).
Proof.
  split; [vm_compute; reflexivity|]. split; [repeat constructor|].
  split; [reflexivity|]. split; [split; [intros Hc; discriminate|constructor]|]. split; [apply fresh_check_ok; vm_compute; reflexivity|].
  split; [reflexivity|]. split; [apply inputs_check_ok; vm_compute; reflexivity|].
  split; [apply fresh_check_ok; vm_compute; reflexivity|exact I].
Qed.

Definition example_connected : outcome (UtxoViewpoint * option (list SpentTxOut)) :=
  ConnectTransactions (replicate 32 Byte.x09) 7 example_txs example_view (Some []).

Lemma example_connects : exists view' stxos, example_connected = Ok (view', stxos).
Proof.
  assert (Hb : match example_connected with Ok _ => true | _ => false end = true) by (vm_compute; reflexivity).
  destruct example_connected as [[view' stxos]| |]; [by exists view', stxos|done..].
Qed.

Lemma connect_disconnect_witness :
  exists view' stxos view3, example_connected = Ok (view', Some stxos) /\
    DisconnectTransactions (fun _ => Ok None) 7 example_txs ZeroHash stxos view' = Ok (view3, stxos) /\
    utxos ∅ view3 = utxos ∅ example_view.
Proof.
  destruct example_connects as (view' & stxos & E). pose proof E as Ec. unfold example_connected in E.
  destruct (connect_disconnect ∅ ∅ (fun _ => Ok None) (replicate 32 Byte.x09) ZeroHash 7 example_txs example_view view' stxos view' example_valid E eq_refl)
    as (_ & _ & l & view3 & -> & Hd & Hu & _).
  exists view', l, view3. split; [exact Ec|]. split; [exact Hd|exact Hu].
Defined.

End example.
