(* ===== verification/Validate.v ===== *)
(** Model of the context-free checks of node/chaindata/validate.go, weight.go and merkle.go,
    and of the checks of the inputs of a transaction against a view. *)

From stdpp Require Import gmap.
From S2P Require Import Prelude WireEncoding WireTx Chainhash WireHeader WireBlock Pow Opcode ScriptNum Script SigHash Standard Utxo.

Definition rule {A} (code : string) : outcome A := Err (RuleError code).

(** * Constants *)

Definition HaberStornettaPerJAXNETCoin : Z := 100000000.
Definition MaxCoinAmount : Z := 21000000 * HaberStornettaPerJAXNETCoin.
Definition MaxTimeOffsetSeconds : Z := 2 * 60 * 60.
Definition MinCoinbaseScriptLen : Z := 2.
Definition MaxCoinbaseScriptLen : Z := 100.
Definition serializedHeightVersion : Z := 2.
Definition btcBaseSubsidy : Z := 50 * 100000000.
Definition MaxBlockBaseSize : Z := 1000000.
Definition MaxBlockSigOpsCost : Z := 80000.
Definition CoinbaseWitnessDataLen : Z := 32.
Definition CoinbaseWitnessPkScriptLength : Z := 38.
Definition WitnessMagicBytes : bytes := mkbytes [OP_RETURN; OP_DATA_36; 0xaa; 0x21; 0xa9; 0xed].

(** The parameters of a chain the checks read. *)
Record Params := {
  PowLimit : Z; HashSorting : bool; HashSortingSlotNumber : Z; ChainID : Z; CoinbaseMaturity : Z
}.

(** process.go: a bitmask. *)
Definition BFNoPoWCheck : Z := 2.
Definition BFNone : Z := 0.

(** * Transactions *)

(** The lock of the inputs of a transaction, in seconds and in heights. *)
Record SequenceLock := { Seconds : Z; Sl_BlockHeight : Z }.

Definition SequenceLockActive (sequenceLock : SequenceLock) (blockHeight medianTimePast : Z) : bool :=
  negb ((medianTimePast <=? Seconds sequenceLock) || (blockHeight <=? Sl_BlockHeight sequenceLock)).

Definition IsFinalizedTransaction (tx : MsgTx) (blockHeight blockTime : Z) : bool :=
  let lockTime := LockTime tx in
  if lockTime =? 0 then true
  else
  let blockTimeOrHeight := if lockTime <? LockTimeThreshold then blockHeight else blockTime in
  let timeLockTx := Version tx =? TxVerTimeLock in
  if lockTime <? blockTimeOrHeight then timeLockTx
  else if forallb (fun txIn => Sequence txIn =? 0xffffffff) (Tx_TxIn tx) then true
  else negb timeLockTx.

Definition BtcCalcBlockSubsidy (height : Z) : Z :=
  Z.shiftr btcBaseSubsidy (uwrap 64 (Z.quot height 210000)).

(** The amounts of the outputs, with the total so far; the sum is an [int64]. *)
Fixpoint check_amounts (totalDimes : Z) (outs : list TxOut) : outcome unit :=
  match outs with
  | [] => Ok ()
  | txOut :: outs =>
      let dime := Value txOut in
      if dime <? 0 then rule "ErrBadTxOutValue"
      else if MaxCoinAmount <? dime then rule "ErrBadTxOutValue"
      else
      let totalDimes := swrap 64 (totalDimes + dime) in
      if totalDimes <? 0 then rule "ErrBadTxOutValue"
      else if MaxCoinAmount <? totalDimes then rule "ErrBadTxOutValue"
      else check_amounts totalDimes outs
  end.

Fixpoint check_duplicates {A} `{Countable A} (code : string) (existing : gset A) (l : list A) : outcome unit :=
  match l with
  | [] => Ok ()
  | x :: l => if bool_decide (x ∈ existing) then rule code else check_duplicates code ({[x]} ∪ existing) l
  end.

Definition CheckTransactionSanity (msgTx : MsgTx) : outcome unit :=
  if len (Tx_TxIn msgTx) =? 0 then rule "ErrNoTxInputs"
  else if len (Tx_TxOut msgTx) =? 0 then rule "ErrNoTxOutputs"
  else
  _ ← (if SwapTx msgTx then ValidateSwapTxStructure msgTx (-1) else Ok ());
  if MaxBlockBaseSize <? MsgTx_SerializeSizeStripped msgTx then rule "ErrTxTooBig"
  else
  _ ← check_amounts 0 (Tx_TxOut msgTx);
  _ ← check_duplicates "ErrDuplicateTxInputs" ∅ (map PreviousOutPoint (Tx_TxIn msgTx));
  if IsCoinBase msgTx then
    let slen := match Tx_TxIn msgTx with ti :: _ => len (SignatureScript ti) | [] => 0 end in
    if (slen <? MinCoinbaseScriptLen) || (MaxCoinbaseScriptLen <? slen) then rule "ErrBadCoinbaseScriptLen" else Ok ()
  else if existsb (fun txIn => isNullOutpoint (PreviousOutPoint txIn) && negb (SwapTx msgTx)) (Tx_TxIn msgTx)
  then rule "ErrBadTxInput" else Ok ().

Definition CountSigOps (msgTx : MsgTx) : Z :=
  foldl (fun n txOut => n + GetSigOpCount (PkScript txOut))
    (foldl (fun n txIn => n + GetSigOpCount (SignatureScript txIn)) 0 (Tx_TxIn msgTx)) (Tx_TxOut msgTx).

Definition GetTransactionWeight (msgTx : MsgTx) : Z :=
  MsgTx_SerializeSizeStripped msgTx * (WitnessScaleFactor - 1) + MsgTx_SerializeSize msgTx.

(** * Blocks *)

Definition Header_Bits (h : BlockHeader) : Z := match h with HBeacon h => bh_bits h | HShard h => sh_bits h end.
Definition Header_MerkleRoot (h : BlockHeader) : bytes :=
  match h with HBeacon h => bh_merkleRoot h | HShard h => sh_merkleRoot h end.
(** In seconds: the time of a header that was read from a stream has no fraction. *)
Definition Header_Timestamp (h : BlockHeader) : Z :=
  match h with
  | HBeacon h => Aux_Timestamp (bh_btcAux h)
  | HShard h => Aux_Timestamp (bh_btcAux (sh_beaconHeader h))
  end.

Section hash.
Context `{HashFunction}.

Definition checkProofOfWork (header : BlockHeader) (chainCfg : Params) (flags : Z) : outcome unit :=
  let target := CompactToBig (Header_Bits header) in
  if target <=? 0 then rule "ErrUnexpectedDifficulty"
  else if PowLimit chainCfg <? target then rule "ErrUnexpectedDifficulty"
  else if Z.land flags BFNoPoWCheck =? BFNoPoWCheck then Ok ()
  else
  let hashNum := HashToBig (PoWHash header) in
  if target <? hashNum then rule "ErrHighHash"
  else if HashSorting chainCfg then
    valid ← ValidateHashSortingRule hashNum (HashSortingSlotNumber chainCfg) (ChainID chainCfg);
    if negb valid then rule "ErrHashSortingRuleNotMatch" else Ok ()
  else Ok ().

(** The check for a fraction of a second in the time of the block always passes here. *)
Definition checkBlockHeaderSanity (header : BlockHeader) (chainCfg : Params) (adjustedTime : Z) (flags : Z)
    : outcome unit :=
  _ ← checkProofOfWork header chainCfg flags;
  if adjustedTime + MaxTimeOffsetSeconds <? Header_Timestamp header then rule "ErrTimeTooNew" else Ok ().

(** merkle.go; the tree itself is the one of chainhash. *)
Definition BuildMerkleTreeStoreTx (transactions : list MsgTx) (witness : bool) : outcome (list (option bytes)) :=
  BuildMerkleTreeStore (CollectTxHashes transactions witness).

(** [merkles[len(merkles)-1]], compared with a hash; [IsEqual] with nil is false. *)
Definition last_is (merkles : list (option bytes)) (root : bytes) : outcome bool :=
  match last merkles with
  | None => Panic
  | Some (Some h) => Ok (Hash_IsEqual root h)
  | Some None => Ok false
  end.

Fixpoint check_sigops (totalSigOps : Z) (txs : list MsgTx) : outcome unit :=
  match txs with
  | [] => Ok ()
  | tx :: txs =>
      let lastSigOps := totalSigOps in
      let totalSigOps := swrap 64 (totalSigOps + CountSigOps tx * WitnessScaleFactor) in
      if (totalSigOps <? lastSigOps) || (MaxBlockSigOpsCost <? totalSigOps) then rule "ErrTooManySigOps"
      else check_sigops totalSigOps txs
  end.

Fixpoint check_txs_sanity (txs : list MsgTx) : outcome unit :=
  match txs with
  | [] => Ok ()
  | tx :: txs => _ ← CheckTransactionSanity tx; check_txs_sanity txs
  end.

(** The header counts in the size at its maximum length, as in [MsgBlock]. *)
Definition CheckBlockSanityWF (msgBlock : MsgBlock BlockHeader) (chainParams : Params) (adjustedTime : Z)
    (flags : Z) : outcome unit :=
  let header := Header msgBlock in
  let transactions := Transactions msgBlock in
  _ ← checkBlockHeaderSanity header chainParams adjustedTime flags;
  let numTx := len transactions in
  if numTx =? 0 then rule "ErrNoTransactions"
  else if MaxBlockBaseSize <? numTx then rule "ErrBlockTooBig"
  else if MaxBlockBaseSize <? MsgBlock_SerializeSizeStripped msgBlock then rule "ErrBlockTooBig"
  else if negb (match transactions with tx :: _ => IsCoinBase tx | [] => false end) then rule "ErrFirstTxNotCoinbase"
  else if existsb IsCoinBase (tail transactions) then rule "ErrMultipleCoinbases"
  else
  _ ← check_txs_sanity transactions;
  merkles ← BuildMerkleTreeStoreTx transactions false;
  same ← last_is merkles (Header_MerkleRoot header);
  if negb same then rule "ErrBadMerkleRoot"
  else
  _ ← check_duplicates "ErrDuplicateTx" ∅ (map TxHash transactions);
  check_sigops 0 transactions.

Definition CheckBlockSanity (msgBlock : MsgBlock BlockHeader) (chainParams : Params) (adjustedTime : Z) : outcome unit :=
  CheckBlockSanityWF msgBlock chainParams adjustedTime BFNone.

Definition GetBlockWeight (msgBlock : MsgBlock BlockHeader) : Z :=
  MsgBlock_SerializeSizeStripped msgBlock * (WitnessScaleFactor - 1) + MsgBlock_SerializeSize msgBlock.

(** * The height and the witness commitment of a coinbase *)

Definition ExtractCoinbaseHeight (coinbaseTx : MsgTx) : outcome Z :=
  match Tx_TxIn coinbaseTx with
  | [] => Panic
  | ti :: _ =>
      match SignatureScript ti with
      | [] => rule "ErrMissingCoinbaseHeight"
      | b :: rest =>
          let opcode := byte.unsigned b in
          if opcode =? OP_0 then Ok 0
          else if (OP_1 <=? opcode) && (opcode <=? OP_16) then Ok (swrap 32 (opcode - (OP_1 - 1)))
          else if len rest <? opcode then rule "ErrMissingCoinbaseHeight"
          else
          let serializedHeightBytes := take 8 (take (Z.to_nat opcode) rest ++ replicate 8 Byte.x00) in
          Ok (swrap 32 (le_combine serializedHeightBytes))
      end
  end.

Definition CheckSerializedHeight (coinbaseTx : MsgTx) (wantHeight : Z) : outcome unit :=
  serializedHeight ← ExtractCoinbaseHeight coinbaseTx;
  if negb (serializedHeight =? wantHeight) then rule "ErrBadCoinbaseHeight" else Ok ().

Definition has_magic (txOut : TxOut) : bool :=
  (CoinbaseWitnessPkScriptLength <=? len (PkScript txOut)) &&
  bool_decide (take (length WitnessMagicBytes) (PkScript txOut) = WitnessMagicBytes).

(** The outputs are searched from the last one. *)
Definition ExtractWitnessCommitment (tx : MsgTx) : option bytes :=
  if negb (IsCoinBase tx) then None
  else match List.find has_magic (rev (Tx_TxOut tx)) with
  | Some txOut =>
      Some (drop (length WitnessMagicBytes) (take (Z.to_nat CoinbaseWitnessPkScriptLength) (PkScript txOut)))
  | None => None
  end.

(** The last line of the tree is not nil for a block with transactions. *)
Definition ValidateWitnessCommitment (transactions : list MsgTx) : outcome unit :=
  match transactions with
  | [] => rule "ErrNoTransactions"
  | coinbaseTx :: _ =>
      match Tx_TxIn coinbaseTx with
      | [] => rule "ErrNoTxInputs"
      | ti :: _ =>
          match ExtractWitnessCommitment coinbaseTx with
          | None => if existsb HasWitness transactions then rule "ErrUnexpectedWitness" else Ok ()
          | Some witnessCommitment =>
              match wit_items (Witness ti) with
              | [witnessNonce] =>
                  if negb (len witnessNonce =? CoinbaseWitnessDataLen) then rule "ErrInvalidWitnessCommitment"
                  else
                  witnessMerkleTree ← BuildMerkleTreeStoreTx transactions true;
                  match last witnessMerkleTree with
                  | Some (Some witnessMerkleRoot) =>
                      if negb (bool_decide (DoubleHashB (witnessMerkleRoot ++ witnessNonce) = witnessCommitment))
                      then rule "ErrWitnessCommitmentMismatch" else Ok ()
                  | _ => Panic
                  end
              | _ => rule "ErrInvalidWitnessCommitment"
              end
          end
      end
  end.

End hash.

(** * Inputs *)

Definition set_age (txIn : TxIn) (age : Z) : TxIn :=
  {| PreviousOutPoint := PreviousOutPoint txIn; SignatureScript := SignatureScript txIn; Witness := Witness txIn;
     Sequence := Sequence txIn; Age := age |}.

(** The inputs from the index [i]: the inputs with their ages set, the indices of the inputs
    a swap transaction has in another chain, and the total amount. *)
Fixpoint check_ins (chainParams : Params) (tx : MsgTx) (txHeight : Z) (utxoView : UtxoViewpoint)
    (i : Z) (ins : list TxIn) (missedInputs : list Z) (totalSatoshiIn : Z) : outcome (list TxIn * list Z * Z) :=
  match ins with
  | [] => Ok ([], missedInputs, totalSatoshiIn)
  | txIn :: ins =>
      match LookupEntry utxoView (PreviousOutPoint txIn) with
      | None =>
          if SwapTx tx then
            '(ins, missed, total) ← check_ins chainParams tx txHeight utxoView (i + 1) ins (missedInputs ++ [i]) totalSatoshiIn;
            Ok (txIn :: ins, missed, total)
          else rule "ErrMissingTxOut"
      | Some utxo =>
          if IsSpent utxo then rule "ErrMissingTxOut"
          else if Entry_IsCoinBase utxo &&
                  (swrap 32 (txHeight - entry_blockHeight utxo) <? swrap 32 (CoinbaseMaturity chainParams))
          then rule "ErrImmatureSpend"
          else
          let age := swrap 32 (txHeight - entry_blockHeight utxo) in
          _ ← (if SwapTx tx then ValidateSwapTxStructure tx (len missedInputs) else Ok ());
          let originTxSatoshi := entry_amount utxo in
          if originTxSatoshi <? 0 then rule "ErrBadTxOutValue"
          else if MaxCoinAmount <? originTxSatoshi then rule "ErrBadTxOutValue"
          else
          let lastSatoshiIn := totalSatoshiIn in
          let totalSatoshiIn := swrap 64 (totalSatoshiIn + originTxSatoshi) in
          if (totalSatoshiIn <? lastSatoshiIn) || (MaxCoinAmount <? totalSatoshiIn) then rule "ErrBadTxOutValue"
          else
          '(ins, missed, total) ← check_ins chainParams tx txHeight utxoView (i + 1) ins missedInputs totalSatoshiIn;
          Ok (set_age txIn age :: ins, missed, total)
      end
  end.

Fixpoint sum_outs (missedInputs : list Z) (outIndex : Z) (outs : list TxOut) (totalSatoshiOut : Z) : Z :=
  match outs with
  | [] => totalSatoshiOut
  | txOut :: outs =>
      sum_outs missedInputs (outIndex + 1) outs
        (if bool_decide (outIndex ∈ missedInputs) then totalSatoshiOut else swrap 64 (totalSatoshiOut + Value txOut))
  end.

(** The fee, and the transaction with the ages of its inputs set. *)
Definition CheckTransactionInputs (tx : MsgTx) (txHeight : Z) (utxoView : UtxoViewpoint) (chainParams : Params)
    : outcome (Z * MsgTx) :=
  if IsCoinBase tx then Ok (0, tx)
  else
  '(ins, missedInputs, totalSatoshiIn) ← check_ins chainParams tx txHeight utxoView 0 (Tx_TxIn tx) [] 0;
  let totalSatoshiOut := sum_outs missedInputs 0 (Tx_TxOut tx) 0 in
  if (totalSatoshiIn <? totalSatoshiOut) && negb (SwapTx tx) then rule "ErrSpendTooHigh"
  else Ok (swrap 64 (totalSatoshiIn - totalSatoshiOut),
           {| Version := Version tx; Tx_TxIn := ins; Tx_TxOut := Tx_TxOut tx; LockTime := LockTime tx |}).

Definition ValidMoneyBackAfterExpiration (tx : MsgTx) (view : UtxoViewpoint) : bool :=
  if len (Tx_TxIn tx) <? len (Tx_TxOut tx) then false
  else
  let inputAddresses := omap (fun txIn => entry_pkScript <$> LookupEntry view (PreviousOutPoint txIn)) (Tx_TxIn tx) in
  forallb (fun out => bool_decide (PkScript out ∈ inputAddresses)) (Tx_TxOut tx).

(** The signature operations of the pay-to-script-hash inputs, with the number of inputs of a
    swap that are missing. *)
Fixpoint p2sh_sigops (tx : MsgTx) (utxoView : UtxoViewpoint) (ins : list TxIn) (totalSigOps missingCount : Z) : outcome (Z * Z) :=
  match ins with
  | [] => Ok (totalSigOps, missingCount)
  | txIn :: ins =>
      match LookupEntry utxoView (PreviousOutPoint txIn) with
      | None => if SwapTx tx then p2sh_sigops tx utxoView ins totalSigOps (missingCount + 1) else rule "ErrMissingTxOut"
      | Some utxo =>
          if IsSpent utxo then rule "ErrMissingTxOut"
          else if negb (IsPayToScriptHash (entry_pkScript utxo)) then p2sh_sigops tx utxoView ins totalSigOps missingCount
          else
          let lastSigOps := totalSigOps in
          let totalSigOps := swrap 64 (totalSigOps + GetPreciseSigOpCount (SignatureScript txIn) (entry_pkScript utxo) true) in
          if totalSigOps <? lastSigOps then rule "ErrTooManySigOps"
          else p2sh_sigops tx utxoView ins totalSigOps missingCount
      end
  end.

Definition CountP2SHSigOps (tx : MsgTx) (isCoinBaseTx : bool) (utxoView : UtxoViewpoint) : outcome Z :=
  if isCoinBaseTx then Ok 0
  else
  '(totalSigOps, missingCount) ← p2sh_sigops tx utxoView (Tx_TxIn tx) 0 0;
  _ ← (if SwapTx tx then ValidateSwapTxStructure tx missingCount else Ok ());
  Ok totalSigOps.

Fixpoint witness_sigops (tx : MsgTx) (utxoView : UtxoViewpoint) (ins : list TxIn) (numSigOps missingCount : Z) : outcome (Z * Z) :=
  match ins with
  | [] => Ok (numSigOps, missingCount)
  | txIn :: ins =>
      match LookupEntry utxoView (PreviousOutPoint txIn) with
      | None => if SwapTx tx then witness_sigops tx utxoView ins numSigOps (missingCount + 1) else rule "ErrMissingTxOut"
      | Some utxo =>
          if IsSpent utxo then rule "ErrMissingTxOut"
          else
          n ← GetWitnessSigOpCount (SignatureScript txIn) (entry_pkScript utxo) (wit_items (Witness txIn));
          witness_sigops tx utxoView ins (numSigOps + n) missingCount
      end
  end.

(** An error of [CountP2SHSigOps] is dropped, with a cost of zero. *)
Definition GetSigOpCost (tx : MsgTx) (isCoinBaseTx : bool) (utxoView : UtxoViewpoint) (bip16 segWit : bool) : outcome Z :=
  let numSigOps := CountSigOps tx * WitnessScaleFactor in
  match (if bip16 then CountP2SHSigOps tx isCoinBaseTx utxoView else Ok 0) with
  | Panic => Panic
  | Err _ => Ok 0
  | Ok numP2SHSigOps =>
      let numSigOps := numSigOps + numP2SHSigOps * WitnessScaleFactor in
      if segWit && negb isCoinBaseTx then
        '(numSigOps, missingCount) ← witness_sigops tx utxoView (Tx_TxIn tx) numSigOps 0;
        _ ← (if SwapTx tx then ValidateSwapTxStructure tx missingCount else Ok ());
        Ok numSigOps
      else Ok numSigOps
  end.
