(* ===== verification/ValidateFacts.v ===== *)
(** Correctness of the checks of node/chaindata/validate.go: what they accept, in terms of
    the integers and the lists they are about. *)

From stdpp Require Import gmap fin_maps.
From S2P Require Import Prelude WireEncoding WireTx Chainhash WireHeader WireBlock Pow Opcode ScriptNum Script Standard Utxo UtxoSet Validate.

(** * Tests that return an error *)

Lemma rule_ok (b : bool) c (m : outcome unit) : (if b then rule c else m) = Ok () <-> b = false /\ m = Ok ().
Proof. destruct b; [split; [done|by intros []]|tauto]. Qed.

Lemma rule_ok' (b : bool) c : (if b then rule c else Ok ()) = Ok () <-> b = false.
Proof. by destruct b. Qed.

Lemma bind_ok (m k : outcome unit) : (_ ← m; k) = Ok () <-> m = Ok () /\ k = Ok ().
Proof. destruct m as [[]| |]; cbn; [tauto|split; [done|by intros []]..]. Qed.

Lemma bind_some {A} (m : outcome A) (k : A -> outcome unit) : (x ← m; k x) = Ok () <-> exists a, m = Ok a /\ k a = Ok ().
Proof.
  destruct m as [a| |]; cbn; [|by split; [|intros (? & ? & ?)]..].
  split; [by exists a|by intros (? & [= ->] & ?)].
Qed.

(** * Amounts *)

Definition total_out (outs : list TxOut) : Z := foldr (fun out n => Value out + n) 0 outs.

Lemma total_out_nonneg outs : Forall (fun out => 0 <= Value out) outs -> 0 <= total_out outs.
Proof. unfold total_out. induction 1; cbn; lia. Qed.

(** The [int64] sum does not overflow: a total above the limit is refused before. *)
Lemma check_amounts_ok outs : forall total, 0 <= total <= MaxCoinAmount ->
  check_amounts total outs = Ok () <-> Forall (fun out => 0 <= Value out) outs /\ total + total_out outs <= MaxCoinAmount.
Proof.
  induction outs as [|out outs IH]; intros total Ht; cbn [check_amounts total_out foldr]; [split; [split; [constructor|lia]|done]|].
  fold (total_out outs). rewrite Forall_cons. rewrite !rule_ok, !Z.ltb_ge.
  assert (M : MaxCoinAmount = 2100000000000000) by reflexivity.
  destruct (decide (0 <= Value out <= MaxCoinAmount)) as [Hv|Hv].
  - rewrite (swrap_id 64) by (unfold is_int; lia). destruct (decide (total + Value out <= MaxCoinAmount)) as [Hs|Hs].
    + rewrite IH by lia. split; [intros (? & ? & ? & ? & ? & ?)|intros ([? ?] & ?)]; split_and!; try done; lia.
    + split; [lia|]. intros [[_ Hf] Hle]. pose proof (total_out_nonneg outs Hf). lia.
  - split; [intros (? & ? & _); lia|]. intros [[H0 Hf] Hle]. pose proof (total_out_nonneg outs Hf). lia.
Qed.

Lemma check_duplicates_ok {A} `{Countable A} code (l : list A) : forall X,
  check_duplicates code X l = Ok () <-> NoDup l /\ Forall (fun x => x ∉ X) l.
Proof.
  induction l as [|x l IH]; intros X; cbn [check_duplicates]; [split; [by repeat constructor|done]|].
  rewrite rule_ok, IH, NoDup_cons, !Forall_forall, bool_decide_eq_false. clear IH. set_solver.
Qed.

(** * Transactions *)

Definition swap_shape (tx : MsgTx) : Prop :=
  len (Tx_TxIn tx) = len (Tx_TxOut tx) /\ (len (Tx_TxIn tx) = 2 \/ len (Tx_TxIn tx) = 4).

Lemma swap_structure_ok tx : ValidateSwapTxStructure tx (-1) = Ok () <-> swap_shape tx.
Proof.
  unfold ValidateSwapTxStructure, swap_shape. cbv zeta. change (-1 =? -1) with true. cbv iota.
  destruct (Z.eqb_spec (len (Tx_TxIn tx)) (len (Tx_TxOut tx))), (Z.eqb_spec (len (Tx_TxIn tx)) 2),
    (Z.eqb_spec (len (Tx_TxIn tx)) 4); cbn; split; intuition (done || lia).
Qed.

(** The inputs of a coinbase, or of another transaction. *)
Definition inputs_shape (tx : MsgTx) : Prop :=
  if IsCoinBase tx then
    exists ti, Tx_TxIn tx = [ti] /\ MinCoinbaseScriptLen <= len (SignatureScript ti) <= MaxCoinbaseScriptLen
  else SwapTx tx = true \/ Forall (fun ti => isNullOutpoint (PreviousOutPoint ti) = false) (Tx_TxIn tx).

(** What the sanity check of a transaction promises. *)
Definition sane_tx (tx : MsgTx) : Prop :=
  Tx_TxIn tx <> [] /\ Tx_TxOut tx <> [] /\ (SwapTx tx = true -> swap_shape tx) /\
  MsgTx_SerializeSizeStripped tx <= MaxBlockBaseSize /\
  Forall (fun out => 0 <= Value out) (Tx_TxOut tx) /\ total_out (Tx_TxOut tx) <= MaxCoinAmount /\
  NoDup (map PreviousOutPoint (Tx_TxIn tx)) /\ inputs_shape tx.

Lemma len_eqb_nil {A} (l : list A) : (len l =? 0) = false <-> l <> [].
Proof. destruct l; [done|]. rewrite len_cons, Z.eqb_neq. pose proof (len_nonneg l). split; [done|lia]. Qed.

Lemma existsb_false {A} (f : A -> bool) l : existsb f l = false <-> Forall (fun x => f x = false) l.
Proof.
  induction l as [|x l IH]; cbn; [split; [constructor|done]|]. rewrite orb_false_iff, IH, Forall_cons. done.
Qed.

Lemma coinbase_one tx : IsCoinBase tx = true -> exists ti, Tx_TxIn tx = [ti].
Proof. unfold IsCoinBase, IsCoinBaseTx. destruct (Tx_TxIn tx) as [|ti [|]]; [done|by exists ti|done]. Qed.

Lemma inputs_shape_ok tx :
  (if IsCoinBase tx then
    let slen := match Tx_TxIn tx with ti :: _ => len (SignatureScript ti) | [] => 0 end in
    if (slen <? MinCoinbaseScriptLen) || (MaxCoinbaseScriptLen <? slen) then rule "ErrBadCoinbaseScriptLen" else Ok ()
   else if existsb (fun txIn => isNullOutpoint (PreviousOutPoint txIn) && negb (SwapTx tx)) (Tx_TxIn tx)
   then rule "ErrBadTxInput" else Ok ()) = Ok () <-> inputs_shape tx.
Proof.
  unfold inputs_shape. destruct (IsCoinBase tx) eqn:Ec.
  - destruct (coinbase_one tx Ec) as [ti ->]. cbv zeta. rewrite rule_ok', orb_false_iff, !Z.ltb_ge.
    split; [intros ?; by exists ti|]. by intros (? & [= <-] & ?).
  - rewrite rule_ok', existsb_false. destruct (SwapTx tx) eqn:Es.
    + split; [by left|]. intros _. apply Forall_forall. intros ti _. by rewrite andb_false_r.
    + split; [intros Hf; right|intros [?|Hf]; [done|]]; (eapply Forall_impl; [exact Hf|]; intros ti; cbn; by rewrite andb_true_r).
Qed.

Lemma sanity_iff tx : CheckTransactionSanity tx = Ok () <-> sane_tx tx.
Proof.
  unfold CheckTransactionSanity, sane_tx. rewrite !rule_ok, bind_ok, rule_ok, !bind_ok, inputs_shape_ok, Z.ltb_ge, !len_eqb_nil.
  rewrite (check_amounts_ok _ 0) by (split; [lia|discriminate]). rewrite check_duplicates_ok, Z.add_0_l.
  assert (Hs : (if SwapTx tx then ValidateSwapTxStructure tx (-1) else Ok ()) = Ok () <-> (SwapTx tx = true -> swap_shape tx)).
  { destruct (SwapTx tx); [rewrite swap_structure_ok; tauto|done]. }
  rewrite Hs. assert (He : Forall (fun x => x ∉ (∅ : gset OutPoint)) (map PreviousOutPoint (Tx_TxIn tx))).
  { apply Forall_forall. set_solver. }
  tauto.
Qed.

(** C16: [CheckTransactionSanity] accepts a transaction exactly when it has inputs and outputs,
    two or four of both for a cross-shard swap, at most a million bytes without its witness,
    outputs that are not negative and sum to at most the maximum amount (as integers: the
    64-bit accumulator never overflows), no outpoint twice among its inputs, a script of 2
    to 100 bytes for a coinbase and no null outpoint otherwise. *)
Theorem transaction_sanity_iff tx : CheckTransactionSanity tx = Ok () <-> sane_tx tx.
Proof. apply sanity_iff. Qed.

(** * Signature operations *)

Lemma parse_loop_length fuel : forall s, (length (fst (parse_loop fuel s)) <= fuel)%nat.
Proof.
  induction fuel as [|fuel IH]; intros [|b s]; cbn [parse_loop fst length]; [lia..|].
  destruct (parse_opcode b s) as [[pop rest]|]; [|cbn; lia].
  specialize (IH rest). destruct (parse_loop fuel rest) as [pops e]. cbn in *. lia.
Qed.

Lemma sigops_range pops : forall prev, 0 <= sigops_loop false prev pops <= 20 * len pops.
Proof.
  induction pops as [|pop pops IH]; intros prev; [done|]. rewrite len_cons. specialize (IH (Some pop)). cbn [sigops_loop andb].
  unfold MaxPubKeysPerMultiSig. destruct (one_of (opcode pop) [OP_CHECKSIG; OP_CHECKSIGVERIFY]), (one_of (opcode pop) [OP_CHECKMULTISIG; OP_CHECKMULTISIGVERIFY]), prev; lia.
Qed.

Lemma GetSigOpCount_range s : 0 <= GetSigOpCount s <= 20 * len s.
Proof.
  unfold GetSigOpCount, getSigOpCount. pose proof (sigops_range (fst (parseScriptTemplate s)) None).
  unfold parseScriptTemplate in *. pose proof (parse_loop_length (length s) s). unfold len in *. lia.
Qed.

(** The sums of the counters, as integers. *)
Lemma foldl_count {A} (f : A -> Z) l : forall n, foldl (fun n x => n + f x) n l = n + sumZ f l.
Proof. induction l as [|x l IH]; intros n; cbn; [lia|]. rewrite IH. unfold sumZ. lia. Qed.

Lemma sumZ_le {A} (f g : A -> Z) l : (forall x, f x <= g x) -> sumZ f l <= sumZ g l.
Proof. intros Hfg. unfold sumZ. induction l as [|x l IH]; cbn; [lia|]. specialize (Hfg x). lia. Qed.

Lemma sumZ_scale {A} (f : A -> Z) k l : sumZ (fun x => k * f x) l = k * sumZ f l.
Proof. unfold sumZ. induction l as [|x l IH]; cbn; lia. Qed.

Lemma CountSigOps_eq tx :
  CountSigOps tx = sumZ (fun ti => GetSigOpCount (SignatureScript ti)) (Tx_TxIn tx) + sumZ (fun to => GetSigOpCount (PkScript to)) (Tx_TxOut tx).
Proof. unfold CountSigOps. rewrite !foldl_count. lia. Qed.

Lemma varint_size_range n : 1 <= VarIntSerializeSize n <= 9.
Proof. unfold VarIntSerializeSize. repeat match goal with |- context [if ?b then _ else _] => destruct b end; lia. Qed.

(** A transaction of a million bytes has at most twenty million signature operations. *)
Lemma CountSigOps_range tx : sane_tx tx -> 0 <= CountSigOps tx <= 20 * MaxBlockBaseSize.
Proof.
  intros (_ & _ & _ & Hsz & _). rewrite CountSigOps_eq. unfold MsgTx_SerializeSizeStripped, baseSize in Hsz.
  pose proof varint_size_range as V.
  assert (I1 : sumZ (fun ti => GetSigOpCount (SignatureScript ti)) (Tx_TxIn tx) <= 20 * sumZ TxIn_SerializeSize (Tx_TxIn tx)).
  { rewrite <-sumZ_scale. apply sumZ_le. intros ti. pose proof (GetSigOpCount_range (SignatureScript ti)).
    unfold TxIn_SerializeSize. specialize (V (len (SignatureScript ti))). lia. }
  assert (I2 : sumZ (fun to => GetSigOpCount (PkScript to)) (Tx_TxOut tx) <= 20 * sumZ TxOut_SerializeSize (Tx_TxOut tx)).
  { rewrite <-sumZ_scale. apply sumZ_le. intros to. pose proof (GetSigOpCount_range (PkScript to)).
    unfold TxOut_SerializeSize. specialize (V (len (PkScript to))). lia. }
  pose proof (sumZ_nonneg (fun ti => GetSigOpCount (SignatureScript ti)) (Tx_TxIn tx) ltac:(intros; apply GetSigOpCount_range)).
  pose proof (sumZ_nonneg (fun to => GetSigOpCount (PkScript to)) (Tx_TxOut tx) ltac:(intros; apply GetSigOpCount_range)).
  pose proof (V (len (Tx_TxIn tx))). pose proof (V (len (Tx_TxOut tx))). lia.
Qed.

Definition total_sigops (txs : list MsgTx) : Z := sumZ CountSigOps txs.

Lemma check_sigops_ok txs : forall total, Forall sane_tx txs -> 0 <= total <= MaxBlockSigOpsCost ->
  check_sigops total txs = Ok () <-> total + total_sigops txs * WitnessScaleFactor <= MaxBlockSigOpsCost.
Proof.
  induction txs as [|tx txs IH]; intros total Hs Ht; cbn [check_sigops total_sigops sumZ foldr]; [split; [lia|done]|].
  apply Forall_cons in Hs as [Hx Hs]. pose proof (CountSigOps_range tx Hx) as Hr. fold (sumZ CountSigOps txs). fold (total_sigops txs).
  unfold MaxBlockSigOpsCost, MaxBlockBaseSize, WitnessScaleFactor in *.
  assert (Hn : 0 <= total_sigops txs).
  { clear -Hs. unfold total_sigops, sumZ. induction Hs as [|t ts Ht Hs IHs]; cbn; [lia|]. pose proof (CountSigOps_range t Ht). lia. }
  rewrite rule_ok, orb_false_iff, !Z.ltb_ge. rewrite swrap_id by (unfold is_int; lia).
  destruct (decide (total + CountSigOps tx * 4 <= 80000)) as [Hle|Hgt].
  - rewrite IH by (done || lia). lia.
  - lia.
Qed.

(** * Blocks *)

Section blocks.
Context `{HashFunction}.

(** The proof of work: the target is positive and within the limit, and unless the flag says
    otherwise the hash is at most the target and belongs to the chain. *)
Definition pow_ok (header : BlockHeader) (p : Params) (flags : Z) : Prop :=
  let target := CompactToBig (Header_Bits header) in
  let hash := HashToBig (PoWHash header) in
  0 < target <= PowLimit p /\
  (Z.land flags BFNoPoWCheck <> BFNoPoWCheck ->
   hash <= target /\
   (HashSorting p = true -> ValidateHashSortingRule hash (HashSortingSlotNumber p) (ChainID p) = Ok true)).

Lemma checkProofOfWork_ok header p flags : checkProofOfWork header p flags = Ok () <-> pow_ok header p flags.
Proof.
  unfold checkProofOfWork, pow_ok. cbv zeta. rewrite !rule_ok, Z.leb_gt, Z.ltb_ge.
  destruct (Z.eqb_spec (Z.land flags BFNoPoWCheck) BFNoPoWCheck) as [Ef|Ef]; [intuition done|].
  rewrite rule_ok, Z.ltb_ge. destruct (HashSorting p); [|intuition done].
  destruct (ValidateHashSortingRule _ _ _) as [[]| |]; cbn; intuition done.
Qed.

(** What the sanity check of a block promises. *)
Definition sane_block (b : MsgBlock BlockHeader) (p : Params) (now flags : Z) : Prop :=
  pow_ok (Header b) p flags /\ Header_Timestamp (Header b) <= now + MaxTimeOffsetSeconds /\
  MsgBlock_SerializeSizeStripped b <= MaxBlockBaseSize /\
  (exists cb txs, Transactions b = cb :: txs /\ IsCoinBase cb = true /\ Forall (fun tx => IsCoinBase tx = false) txs) /\
  Forall sane_tx (Transactions b) /\
  Header_MerkleRoot (Header b) = merkle_root_spec (map TxHash (Transactions b)) /\
  NoDup (map TxHash (Transactions b)) /\
  total_sigops (Transactions b) * WitnessScaleFactor <= MaxBlockSigOpsCost.

Lemma check_txs_sanity_ok txs : check_txs_sanity txs = Ok () <-> Forall sane_tx txs.
Proof. induction txs as [|tx txs IH]; cbn; [split; [constructor|done]|]. by rewrite bind_ok, sanity_iff, IH, Forall_cons. Qed.

Lemma collect_hashes txs : CollectTxHashes txs false = map TxHash txs.
Proof. unfold CollectTxHashes. rewrite <-imap_const. done. Qed.

Lemma merkle_ok txs root k :
  txs <> [] -> len txs <= MaxBlockBaseSize ->
  (merkles ← BuildMerkleTreeStoreTx txs false; same ← last_is merkles root; if negb same then rule "ErrBadMerkleRoot" else k) = Ok () <->
  root = merkle_root_spec (map TxHash txs) /\ k = Ok ().
Proof.
  intros Hne Hl. unfold BuildMerkleTreeStoreTx. rewrite collect_hashes.
  destruct (BuildMerkleTreeStore_last (map TxHash txs)) as (tree & -> & Ht); [by destruct txs|rewrite len_map; unfold MaxBlockBaseSize in Hl; lia|].
  cbn. unfold last_is. rewrite Ht. cbn. rewrite rule_ok, negb_false_iff. unfold Hash_IsEqual. by rewrite bool_decide_eq_true.
Qed.

(** A block within the size limit has fewer transactions than the limit on their number. *)
Lemma block_size_count b : MsgBlock_SerializeSizeStripped b <= MaxBlockBaseSize -> len (Transactions b) <= MaxBlockBaseSize.
Proof.
  unfold MsgBlock_SerializeSizeStripped. intros Hs. pose proof (varint_size_range (len (Transactions b))).
  assert (Hm : 0 <= hdr_MaxLength (Header b)) by (destruct (Header b); vm_compute; discriminate).
  assert (Hc : len (Transactions b) <= sumZ MsgTx_SerializeSizeStripped (Transactions b)); [|lia].
  generalize (Transactions b). intros txs. unfold sumZ. induction txs as [|tx txs IH]; cbn [foldr]; [done|]. rewrite len_cons.
  unfold MsgTx_SerializeSizeStripped at 1, baseSize.
  pose proof (varint_size_range (len (Tx_TxIn tx))). pose proof (varint_size_range (len (Tx_TxOut tx))).
  assert (0 <= sumZ TxIn_SerializeSize (Tx_TxIn tx)).
  { apply sumZ_nonneg. intros ti. unfold TxIn_SerializeSize. pose proof (varint_size_range (len (SignatureScript ti))). pose proof (len_nonneg (SignatureScript ti)). lia. }
  assert (0 <= sumZ TxOut_SerializeSize (Tx_TxOut tx)).
  { apply sumZ_nonneg. intros to. unfold TxOut_SerializeSize. pose proof (varint_size_range (len (PkScript to))). pose proof (len_nonneg (PkScript to)). lia. }
  lia.
Qed.

Lemma first_coinbase (l : list MsgTx) :
  (len l =? 0) = false /\ negb (match l with tx :: _ => IsCoinBase tx | [] => false end) = false /\ existsb IsCoinBase (tail l) = false <->
  exists cb txs, l = cb :: txs /\ IsCoinBase cb = true /\ Forall (fun tx => IsCoinBase tx = false) txs.
Proof.
  rewrite len_eqb_nil. destruct l as [|cb txs]; cbn.
  - split; [by intros (? & _)|]. by intros (? & ? & ? & _).
  - rewrite negb_false_iff, existsb_false. split; [intros (_ & ? & ?); by exists cb, txs|]. by intros (? & ? & [= <- <-] & ? & ?).
Qed.

(** ** No panic *)

Lemma rule_np (b : bool) c (m : outcome unit) : m <> Panic -> (if b then rule c else m) <> Panic.
Proof. by destruct b. Qed.

Lemma bind_np {A B} (m : outcome A) (k : A -> outcome B) : m <> Panic -> (forall a, m = Ok a -> k a <> Panic) -> (x ← m; k x) <> Panic.
Proof. intros Hm Hk. destruct m as [a| |]; cbn; [by apply Hk|done..]. Qed.

Lemma check_amounts_np outs : forall total, check_amounts total outs <> Panic.
Proof. induction outs as [|out outs IH]; intros total; cbn; [done|]. repeat apply rule_np. apply IH. Qed.

Lemma check_duplicates_np {A} `{Countable A} c (l : list A) : forall X, check_duplicates c X l <> Panic.
Proof. induction l as [|x l IH]; intros X; cbn; [done|]. apply rule_np, IH. Qed.

Lemma swap_structure_np tx n : ValidateSwapTxStructure tx n <> Panic.
Proof. unfold ValidateSwapTxStructure. cbv zeta. destruct (_ || _); [done|]. destruct (_ =? _); [done|]. by destruct (_ <? _). Qed.

Lemma sanity_np tx : CheckTransactionSanity tx <> Panic.
Proof.
  unfold CheckTransactionSanity. do 2 apply rule_np. apply bind_np; [destruct (SwapTx tx); [apply swap_structure_np|done]|]. intros _ _.
  apply rule_np, bind_np; [apply check_amounts_np|]. intros _ _. apply bind_np; [apply check_duplicates_np|]. intros _ _.
  destruct (IsCoinBase tx); by apply rule_np.
Qed.

Lemma check_txs_sanity_np txs : check_txs_sanity txs <> Panic.
Proof. induction txs as [|tx txs IH]; cbn; [done|]. apply bind_np; [apply sanity_np|]. by intros _ _. Qed.

Lemma check_sigops_np txs : forall total, check_sigops total txs <> Panic.
Proof. induction txs as [|tx txs IH]; intros total; cbn; [done|]. apply rule_np, IH. Qed.

Lemma proof_of_work_np header p flags : HashSorting p = false -> checkProofOfWork header p flags <> Panic.
Proof.
  intros Hh. unfold checkProofOfWork. cbv zeta. rewrite Hh. do 2 apply rule_np. destruct (_ =? _); [done|]. by apply rule_np.
Qed.

Lemma merkle_np txs root (k : outcome unit) : k <> Panic -> txs <> [] -> len txs <= MaxBlockBaseSize ->
  (merkles ← BuildMerkleTreeStoreTx txs false; same ← last_is merkles root; if negb same then rule "ErrBadMerkleRoot" else k) <> Panic.
Proof.
  intros Hk Hne Hl. unfold BuildMerkleTreeStoreTx. rewrite collect_hashes.
  destruct (BuildMerkleTreeStore_last (map TxHash txs)) as (tree & -> & Ht); [by destruct txs|rewrite len_map; unfold MaxBlockBaseSize in Hl; lia|].
  cbn. unfold last_is. rewrite Ht. by apply rule_np.
Qed.

(** C15: [CheckBlockSanity] accepts a block exactly when its proof of work is right (the target
    positive, within the limit of the chain and not below the hash, which is in the slot of
    the chain when hashes are sorted), its time at most two hours ahead, its size within the
    limit, its first transaction and no other a coinbase, every transaction sane, its merkle
    root the one of the transaction hashes, these hashes different, and its signature
    operations, counted as integers, within the limit.  It never panics without hash
    sorting. *)
Theorem block_sanity_iff b p now flags :
  (CheckBlockSanityWF b p now flags = Ok () <-> sane_block b p now flags) /\
  (HashSorting p = false -> CheckBlockSanityWF b p now flags <> Panic).
Proof.
  unfold CheckBlockSanityWF, checkBlockHeaderSanity, sane_block. cbv zeta. split.
  - rewrite !bind_ok, rule_ok', checkProofOfWork_ok, Z.ltb_ge, <-first_coinbase.
    rewrite !rule_ok, bind_ok, check_txs_sanity_ok, !Z.ltb_ge. split.
    + intros ([Hp Ht] & H0 & Hn & Hs & Hc & Hm & Hx & Hk). apply merkle_ok in Hk as [Hr Hk]; [|by apply len_eqb_nil|done].
      apply bind_ok in Hk as [Hd Hk]. apply check_duplicates_ok in Hd as [Hd _]. apply check_sigops_ok in Hk; [|done|done]. done.
    + intros (Hp & Ht & Hs & (H0 & Hc & Hm) & Hx & Hr & Hd & Hk). pose proof (block_size_count b Hs). split_and!; try done.
      apply merkle_ok; [by apply len_eqb_nil|done|]. split; [done|]. apply bind_ok. rewrite check_duplicates_ok, check_sigops_ok by done.
      split_and!; [done| |done]. apply Forall_forall. set_solver.
  - intros Hh. apply bind_np; [apply bind_np; [by apply proof_of_work_np|intros _ _; by apply rule_np]|]. intros _ _.
    destruct (len (Transactions b) =? 0) eqn:E0; [done|]. destruct (Z.ltb_spec MaxBlockBaseSize (len (Transactions b))) as [|Hl]; [done|].
    do 3 apply rule_np. apply bind_np; [apply check_txs_sanity_np|]. intros _ _. apply merkle_np; [|by apply len_eqb_nil|done].
    apply bind_np; [apply check_duplicates_np|]. intros _ _. apply check_sigops_np.
Qed.

End blocks.

(** * Concrete input *)

Section examples.
#[local] Existing Instance UtxoSet.example_hash.

Definition example_sane_txs : list MsgTx := [UtxoSet.example_coinbase; UtxoSet.example_spend].

(** A block of two transactions with the merkle root of their hashes. *)
Definition example_sane_block : MsgBlock BlockHeader :=
  {| Header := HBeacon (bh_set_merkleRoot (merkle_root_spec (map TxHash example_sane_txs)) example_beacon);
     Transactions := example_sane_txs |}.

Definition example_limits : Params :=
  {| PowLimit := 2 ^ 224; HashSorting := false; HashSortingSlotNumber := 0; ChainID := 0; CoinbaseMaturity := 4 |}.

Lemma block_sanity_iff_witness :
  sane_block example_sane_block example_limits 1600000000 BFNoPoWCheck /\
  CheckBlockSanityWF example_sane_block example_limits 1600000000 BFNoPoWCheck <> Panic /\
  ~ sane_block example_sane_block example_limits 1599000000 BFNoPoWCheck.
Proof.
  split_and!.
  - apply block_sanity_iff. vm_compute. reflexivity.
  - apply block_sanity_iff. reflexivity.
  - intros Hs. apply block_sanity_iff in Hs. vm_compute in Hs. discriminate Hs.
Defined.

End examples.
