(* ===== verification/Supply.v ===== *)
(** The amounts of the chain: what [CheckTransactionInputs] of node/chaindata/validate.go
    returns as the fee is what connecting the transaction takes out of the set of unspent
    outputs, except for cross-shard swaps. *)

From stdpp Require Import gmap fin_maps.
From S2P Require Import Prelude WireEncoding WireTx Chainhash WireHeader Opcode Script Standard Utxo UtxoSet Validate ValidateFacts.

(** The sum of the amounts of a set of unspent outputs. *)
Definition supply (U : utxo_set) : Z := map_fold (fun _ c n => st_Amount c + n) 0 U.

Lemma supply_insert U o c : U !! o = None -> supply (<[o := c]> U) = st_Amount c + supply U.
Proof. intros Ho. unfold supply. rewrite map_fold_insert_L; [done| |done]. intros. lia. Qed.

Lemma supply_delete U o c : U !! o = Some c -> supply (delete o U) = supply U - st_Amount c.
Proof.
  intros Ho. rewrite <-(insert_delete_id U o c) at 2 by done. rewrite supply_insert by apply lookup_delete_eq. lia.
Qed.

Definition sum_coins (l : list SpentTxOut) : Z := sumZ st_Amount l.

Lemma supply_remove_ins ins : forall U,
  NoDup (map PreviousOutPoint ins) -> Forall (fun ti => is_Some (U !! PreviousOutPoint ti)) ins ->
  supply (remove_ins ins U) = supply U - sum_coins (omap (fun ti => U !! PreviousOutPoint ti) ins).
Proof.
  induction ins as [|ti ins IH]; intros U Hn Hu; [cbn; lia|]. cbn [map] in Hn. apply NoDup_cons in Hn as [Hni Hn].
  apply Forall_cons in Hu as [[c Hc] Hu]. cbn [remove_ins foldl]. fold (remove_ins ins (delete (PreviousOutPoint ti) U)).
  set (f := fun ti => U !! PreviousOutPoint ti).
  assert (Ef : omap f (ti :: ins) = c :: omap f ins) by (cbn; unfold f at 1; by rewrite Hc). rewrite Ef.
  assert (Hne : Forall (fun tj => PreviousOutPoint ti <> PreviousOutPoint tj) ins).
  { apply Forall_forall. intros tj Hj Heq. apply Hni. rewrite Heq. by apply (list_elem_of_fmap_2 PreviousOutPoint). }
  rewrite IH; [|done|].
  - rewrite (supply_delete _ _ c) by done. unfold sum_coins, sumZ. cbn [foldr].
    assert (E : omap (fun tj => delete (PreviousOutPoint ti) U !! PreviousOutPoint tj) ins = omap (fun tj => U !! PreviousOutPoint tj) ins).
    { clear -Hne. induction Hne as [|tj ins Hj Hne IH]; [done|]. cbn. rewrite lookup_delete_ne by done. by rewrite IH. }
    rewrite E. fold f. unfold sumZ. lia.
  - apply Forall_forall. intros tj Hj. rewrite lookup_delete_ne by (by eapply Forall_forall in Hne). by eapply Forall_forall in Hu.
Qed.

(** The amounts of the outputs that can be spent, and of those that cannot. *)
Definition spendable_out (outs : list TxOut) : Z :=
  sumZ (fun out => if IsUnspendable (PkScript out) then 0 else Value out) outs.
Definition burned_out (outs : list TxOut) : Z :=
  sumZ (fun out => if IsUnspendable (PkScript out) then Value out else 0) outs.

Lemma split_out outs : spendable_out outs + burned_out outs = total_out outs.
Proof.
  unfold spendable_out, burned_out, total_out, sumZ. induction outs as [|out outs IH]; cbn; [done|].
  destruct (IsUnspendable (PkScript out)); lia.
Qed.

Lemma supply_add_coins hash cb height outs : forall i U,
  0 <= i -> i + len outs <= 2 ^ 32 -> (forall j, i <= j < i + len outs -> U !! outpoint hash j = None) ->
  supply (add_coins hash cb height i outs U) = supply U + spendable_out outs.
Proof.
  induction outs as [|out outs IH]; intros i U Hi Hl Hf; [cbn; lia|]. rewrite len_cons in *. pose proof (len_nonneg outs).
  cbn [add_coins]. unfold spendable_out. cbn [sumZ foldr]. fold (sumZ (fun out => if IsUnspendable (PkScript out) then 0 else Value out) outs).
  fold (spendable_out outs). rewrite IH.
  - destruct (IsUnspendable (PkScript out)); [lia|]. rewrite supply_insert by (apply Hf; lia). cbn [coin st_Amount]. lia.
  - lia.
  - lia.
  - intros j Hj. destruct (IsUnspendable (PkScript out)); [apply Hf; lia|]. rewrite lookup_insert_ne; [apply Hf; lia|].
    unfold outpoint. intros [= E]. rewrite !uwrap_id in E by (unfold is_uint; lia). lia.
Qed.

Section supply.
Context `{HashFunction} `{NetText} `{RandomId}.

Lemma sane_outs tx : sane_tx tx -> len (Tx_TxOut tx) <= 2 ^ 32.
Proof.
  intros (_ & _ & _ & Hsz & _). unfold MsgTx_SerializeSizeStripped, baseSize in Hsz.
  pose proof (varint_size_range (len (Tx_TxIn tx))). pose proof (varint_size_range (len (Tx_TxOut tx))).
  assert (0 <= sumZ TxIn_SerializeSize (Tx_TxIn tx)).
  { apply sumZ_nonneg. intros ti. unfold TxIn_SerializeSize. pose proof (varint_size_range (len (SignatureScript ti))). pose proof (len_nonneg (SignatureScript ti)). lia. }
  assert (Hc : len (Tx_TxOut tx) <= sumZ TxOut_SerializeSize (Tx_TxOut tx)).
  { generalize (Tx_TxOut tx). intros outs. unfold sumZ. induction outs as [|out outs IH]; cbn [foldr]; [done|]. rewrite len_cons.
    unfold TxOut_SerializeSize at 1. pose proof (varint_size_range (len (PkScript out))). pose proof (len_nonneg (PkScript out)). lia. }
  unfold MaxBlockBaseSize in Hsz. lia.
Qed.

(** Connecting a transaction, as a change of the supply. *)
Lemma supply_apply height tx U :
  len (Tx_TxOut tx) <= 2 ^ 32 -> IsCoinBase tx = false -> inputs_unspent tx U -> outputs_fresh tx U ->
  supply (apply_tx height tx U) = supply U - sum_coins (spent_coins tx U) + spendable_out (Tx_TxOut tx).
Proof.
  intros Hs Hc Hi Hf. unfold apply_tx, spent_coins. rewrite Hc. destruct (Hi Hc) as [Hn Hu].
  rewrite supply_add_coins; [|lia|done|].
  - by rewrite supply_remove_ins.
  - intros j _. rewrite remove_ins_lookup, Hf. by destruct (decide _).
Qed.

(** * What the check of the inputs establishes *)

Lemma check_ins_ok p tx height view ins : forall i total ins' missed total',
  SwapTx tx = false -> 0 <= total <= MaxCoinAmount ->
  check_ins p tx height view i ins [] total = Ok (ins', missed, total') ->
  missed = [] /\ map PreviousOutPoint ins' = map PreviousOutPoint ins /\
  exists es, Forall2 (fun ti e => LookupEntry view (PreviousOutPoint ti) = Some e /\ IsSpent e = false) ins es /\
    Forall (fun e => 0 <= entry_amount e) es /\ total' = total + sumZ entry_amount es /\ 0 <= total' <= MaxCoinAmount.
Proof.
  intros i total ins' missed total' Hs. revert i total ins' missed total'.
  assert (M : MaxCoinAmount = 2100000000000000) by reflexivity.
  induction ins as [|ti ins IH]; intros i total ins' missed total' Ht; cbn [check_ins].
  - intros [= <- <- <-]. split_and!; [done..|]. exists []. split_and!; [constructor|constructor|cbn; lia|lia|lia].
  - rewrite Hs. destruct (LookupEntry view (PreviousOutPoint ti)) as [e|] eqn:El; [|done].
    destruct (IsSpent e) eqn:Esp; [done|]. destruct (Entry_IsCoinBase e && _); [done|]. cbn [mbind outcome_bind].
    destruct (Z.ltb_spec (entry_amount e) 0) as [|Hz]; [done|]. destruct (Z.ltb_spec MaxCoinAmount (entry_amount e)) as [|HM]; [done|].
    rewrite swrap_id by (unfold is_int; lia). destruct (Z.ltb_spec (total + entry_amount e) total) as [|_]; [done|].
    destruct (Z.ltb_spec MaxCoinAmount (total + entry_amount e)) as [|HM']; [done|]. cbn [orb].
    destruct (check_ins _ _ _ _ _ _ _ _) as [[[ins1 m1] t1]| |] eqn:Ec; cbn; [|done..]. intros [= <- <- <-].
    apply IH in Ec as (-> & Hp & es & F2 & Fa & -> & Hr); [|lia]. split_and!; [done|by cbn; rewrite Hp|].
    exists (e :: es). split_and!; [by constructor|by constructor|unfold sumZ; cbn; lia|lia|lia].
Qed.

Lemma sum_outs_all outs : forall i total, 0 <= total -> Forall (fun out => 0 <= Value out) outs ->
  total + total_out outs <= MaxCoinAmount -> sum_outs [] i outs total = total + total_out outs.
Proof.
  assert (M : MaxCoinAmount = 2100000000000000) by reflexivity.
  induction outs as [|out outs IH]; intros i total Ht Hf Hle; cbn [sum_outs total_out foldr]; [lia|].
  fold (total_out outs) in *. apply Forall_cons in Hf as [Hz Hf]. pose proof (total_out_nonneg outs Hf). cbn [total_out foldr] in Hle. fold (total_out outs) in Hle.
  rewrite bool_decide_false by apply not_elem_of_nil. rewrite swrap_id by (unfold is_int; lia). rewrite IH by (done || lia). lia.
Qed.

Lemma looked_up_coins db view ins es :
  Forall2 (fun ti e => LookupEntry view (PreviousOutPoint ti) = Some e /\ IsSpent e = false) ins es ->
  Forall (fun ti => is_Some (utxos db view !! PreviousOutPoint ti)) ins /\
  omap (fun ti => utxos db view !! PreviousOutPoint ti) ins = map stxo_of es.
Proof.
  induction 1 as [|ti e ins es [El Es] F (IH1 & IH2)]; [done|].
  assert (E : utxos db view !! PreviousOutPoint ti = Some (stxo_of e)).
  { unfold LookupEntry in El. rewrite utxos_lookup. destruct (entries view !! PreviousOutPoint ti) as [[e'|]|]; cbn in El; [|done..].
    injection El as ->. unfold coin_of. by rewrite Es. }
  split; [constructor; [by rewrite E|done]|]. cbn. rewrite E. cbn. by rewrite IH2.
Qed.

(** A transaction that passes the checks. *)
Lemma checked_inputs db p tx height view fee tx' :
  sane_tx tx -> IsCoinBase tx = false -> SwapTx tx = false ->
  CheckTransactionInputs tx height view p = Ok (fee, tx') ->
  Tx_TxOut tx' = Tx_TxOut tx /\ map PreviousOutPoint (Tx_TxIn tx') = map PreviousOutPoint (Tx_TxIn tx) /\
  Version tx' = Version tx /\ inputs_unspent tx (utxos db view) /\
  0 <= fee /\ fee = sum_coins (spent_coins tx (utxos db view)) - total_out (Tx_TxOut tx).
Proof.
  intros (_ & _ & _ & _ & Hv & Ht & Hd & _) Hc Hs Hck. assert (M : MaxCoinAmount = 2100000000000000) by reflexivity.
  unfold CheckTransactionInputs in Hck. rewrite Hc in Hck.
  destruct (check_ins _ _ _ _ _ _ _ _) as [[[ins m] total]| |] eqn:Ec; cbn in Hck; [|done..].
  apply check_ins_ok in Ec as (-> & Hp & es & F2 & Fa & -> & Hr); [|done|lia]. rewrite Z.add_0_l in *.
  pose proof (total_out_nonneg _ Hv). rewrite sum_outs_all, Z.add_0_l in Hck by (done || lia). rewrite Hs, andb_true_r in Hck.
  destruct (Z.ltb_spec (sumZ entry_amount es) (total_out (Tx_TxOut tx))) as [|Hle]; [done|]. injection Hck as <- <-.
  destruct (looked_up_coins db view _ _ F2) as [Fu Eo]. rewrite swrap_id by (unfold is_int; lia).
  split_and!; [done..| |lia|].
  - intros _. done.
  - unfold spent_coins. rewrite Hc, Eo. unfold sum_coins, sumZ. f_equal. clear. induction es as [|e es IH]; [done|]. cbn. by rewrite IH.
Qed.

(** The outpoints of the inputs decide what a transaction is and spends. *)
Lemma same_outpoints tx tx' U :
  map PreviousOutPoint (Tx_TxIn tx') = map PreviousOutPoint (Tx_TxIn tx) ->
  IsCoinBase tx' = IsCoinBase tx /\ spent_coins tx' U = spent_coins tx U /\ (inputs_unspent tx U -> inputs_unspent tx' U).
Proof.
  intros E.
  assert (Ec : IsCoinBase tx' = IsCoinBase tx).
  { unfold IsCoinBase, IsCoinBaseTx. destruct (Tx_TxIn tx') as [|a [|a' l]], (Tx_TxIn tx) as [|b [|b' l']]; try done. by injection E as ->. }
  assert (Eo : omap (fun ti => U !! PreviousOutPoint ti) (Tx_TxIn tx') = omap (fun ti => U !! PreviousOutPoint ti) (Tx_TxIn tx)).
  { revert E. generalize (Tx_TxIn tx') (Tx_TxIn tx). clear. induction l as [|a l IH]; intros [|b l'] E; [done..|]. injection E as Ea E.
    cbn. rewrite Ea, (IH l') by done. done. }
  split_and!; [done|unfold spent_coins; by rewrite Ec, Eo|].
  intros Hi Hc. rewrite Ec in Hc. destruct (Hi Hc) as [Hn Hu]. rewrite E. split; [done|].
  revert E Hu. generalize (Tx_TxIn tx') (Tx_TxIn tx). clear. induction l as [|a l IH]; intros [|b l'] E Hu; [constructor|done..|].
  injection E as Ea E. apply Forall_cons in Hu as [Hb Hu]. constructor; [by rewrite Ea|by apply (IH l')].
Qed.

(** C10: Amounts are conserved.  When a sane transaction that is no swap and no coinbase, and whose
    outputs are not there yet, passes [CheckTransactionInputs] with some fee and is connected to the view,
    the fee is not negative, and the supply of unspent outputs drops by the fee and by the amounts of the
    outputs that can never be spent: no transaction creates coins. *)
Theorem amounts_conserved db p tx height view fee tx' l view' stxos :
  sane_tx tx -> IsCoinBase tx = false -> SwapTx tx = false ->
  CheckTransactionInputs tx height view p = Ok (fee, tx') ->
  outputs_fresh tx' (utxos db view) ->
  ConnectTransaction tx' height view (Some l) = Ok (view', stxos) ->
  0 <= fee /\ supply (utxos db view') = supply (utxos db view) - fee - burned_out (Tx_TxOut tx).
Proof.
  intros Hs Hc Hw Hck Hf Hcon. destruct (checked_inputs db p tx height view fee tx' Hs Hc Hw Hck) as (Eo & Ei & Ev & Hi & Hfee & ->).
  destruct (same_outpoints tx tx' (utxos db view) Ei) as (Ec & Es & Hu).
  apply (connect_coins db) in Hcon as [-> _]; [|by unfold SwapTx in *; rewrite Ev|by apply Hu].
  rewrite supply_apply by (rewrite ?Eo, ?Ec; first [by apply sane_outs|by apply Hu|done]).
  rewrite Eo, Es. pose proof (split_out (Tx_TxOut tx)). split; [done|]. lia.
Qed.

(** * Cross-shard swaps *)

Section swap.
Context (tx : MsgTx) (view : UtxoViewpoint) (i0 i1 : TxIn) (o0 o1 : TxOut) (e : UtxoEntry).
Context (Hsw : SwapTx tx = true) (Ei : Tx_TxIn tx = [i0; i1]) (Eo : Tx_TxOut tx = [o0; o1]).
Context (E0 : LookupEntry view (PreviousOutPoint i0) = Some e) (Hsp : IsSpent e = false) (Hcb : Entry_IsCoinBase e = false).
Context (Ha : 0 <= entry_amount e <= MaxCoinAmount) (Hv : 0 <= Value o0 <= MaxCoinAmount).
Context (E1 : LookupEntry view (PreviousOutPoint i1) = None) (Hh : Op_Hash (PreviousOutPoint i1) <> TxHash tx).

Lemma swap_not_coinbase : IsCoinBase tx = false.
Proof. unfold IsCoinBase, IsCoinBaseTx. by rewrite Ei. Qed.

Lemma swap_structure n : n <= 1 -> ValidateSwapTxStructure tx n = Ok ().
Proof.
  intros Hn. unfold ValidateSwapTxStructure. rewrite Ei, Eo. cbn. destruct (n =? -1); [done|]. by rewrite (proj2 (Z.ltb_ge _ _)).
Qed.

Lemma swap_fee p height : exists tx', CheckTransactionInputs tx height view p = Ok (entry_amount e - Value o0, tx').
Proof.
  assert (M : MaxCoinAmount = 2100000000000000) by reflexivity.
  assert (Ec : exists ins, check_ins p tx height view 0 [i0; i1] [] 0 = Ok (ins, [1], entry_amount e)).
  { cbn [check_ins]. rewrite E0, Hsp, Hcb, Hsw, E1. cbn [andb]. rewrite swap_structure by (unfold len; cbn; lia). cbn [mbind outcome_bind].
    rewrite Z.add_0_l, (swrap_id 64 (entry_amount e)) by (unfold is_int; lia). rewrite !(proj2 (Z.ltb_ge _ _)) by lia. by eexists. }
  destruct Ec as [ins Ec]. unfold CheckTransactionInputs. rewrite swap_not_coinbase, Ei, Eo, Ec, Hsw. cbn [mbind outcome_bind sum_outs].
  rewrite (bool_decide_false (0 ∈ [1])) by (by intros [?|?%elem_of_nil]%elem_of_cons).
  rewrite (bool_decide_true (0 + 1 ∈ [1])) by by left. rewrite andb_false_r.
  rewrite Z.add_0_l, (swrap_id 64 (Value o0)), swrap_id by (unfold is_int; lia). by eexists.
Qed.

Lemma swap_connect db height l : IsUnspendable (PkScript o0) = false -> outputs_fresh tx (utxos db view) ->
  exists view', ConnectTransaction tx height view (Some l) = Ok (view', Some (l ++ [stxo_of e])) /\
    supply (utxos db view') = supply (utxos db view) - entry_amount e + Value o0.
Proof.
  intros Hu Hf. unfold ConnectTransaction, connectSwapTransaction. rewrite swap_not_coinbase, Hsw, swap_structure by lia. cbn [mbind outcome_bind].
  rewrite Ei, Eo. cbn [connect_swap_ins]. rewrite E0. set (v := addTxOut _ _ _ _ _).
  assert (Hne : PreviousOutPoint i0 <> PreviousOutPoint i1) by (intros E; by rewrite E, E1 in E0).
  assert (El : LookupEntry v (PreviousOutPoint i1) = None).
  { unfold v, addTxOut. rewrite Hu. unfold LookupEntry. cbn [put_entry set_entries entries].
    rewrite !lookup_insert_ne; [exact E1|done|]. intros E. apply Hh. by rewrite <-E. }
  rewrite El. eexists. split; [reflexivity|]. unfold v. rewrite utxos_addTxOut, Hu, utxos_spend.
  assert (Hl : utxos db view !! PreviousOutPoint i0 = Some (stxo_of e)).
  { unfold LookupEntry in E0. rewrite utxos_lookup. destruct (entries view !! PreviousOutPoint i0) as [[e'|]|]; cbn in E0; [|done..].
    injection E0 as ->. unfold coin_of. by rewrite Hsp. }
  rewrite supply_insert.
  - rewrite (supply_delete _ _ _ Hl). cbn [coin st_Amount stxo_of]. lia.
  - destruct (decide (PreviousOutPoint i0 = {| Op_Hash := TxHash tx; Op_Index := uwrap 32 0 |})) as [->|Hn]; [by rewrite lookup_delete_eq|].
    rewrite lookup_delete_ne by done. apply (Hf 0).
Qed.

End swap.

(** C37: The amounts of a cross-shard swap are not compared.  A swap of two inputs, the first in
    this chain, passes [CheckTransactionInputs] with the difference between the amount it
    spends and the amount of its first output as its fee, also when that is negative, and
    connecting it changes the supply by the difference: it can create any amount of coins. *)
Theorem swap_amounts_unchecked db p tx view i0 i1 o0 o1 e height l :
  SwapTx tx = true -> Tx_TxIn tx = [i0; i1] -> Tx_TxOut tx = [o0; o1] ->
  LookupEntry view (PreviousOutPoint i0) = Some e -> IsSpent e = false -> Entry_IsCoinBase e = false ->
  0 <= entry_amount e <= MaxCoinAmount -> 0 <= Value o0 <= MaxCoinAmount ->
  LookupEntry view (PreviousOutPoint i1) = None -> Op_Hash (PreviousOutPoint i1) <> TxHash tx ->
  IsUnspendable (PkScript o0) = false -> outputs_fresh tx (utxos db view) ->
  (exists tx', CheckTransactionInputs tx height view p = Ok (entry_amount e - Value o0, tx')) /\
  exists view', ConnectTransaction tx height view (Some l) = Ok (view', Some (l ++ [stxo_of e])) /\
    supply (utxos db view') = supply (utxos db view) - entry_amount e + Value o0.
Proof. intros. split; [by eapply swap_fee|by eapply swap_connect]. Qed.

(** A block with a cross-shard swap cannot be disconnected.  [CountSpentOutputs] takes half
    of the inputs of a swap for spent, which is what connecting it records, and the loop of
    [DisconnectTransactions] restores all of them: after the recorded outputs it indexes the
    list below zero and panics, whatever the view is. *)
Theorem swap_disconnect_panics fetch height cb tx prevHash stxo view i0 i1 :
  SwapTx tx = true -> Tx_TxIn tx = [i0; i1] -> st_Height stxo <> 0 ->
  CountSpentOutputs [cb; tx] = Ok 1 /\
  DisconnectTransactions fetch height [cb; tx] prevHash [stxo] view = Panic.
Proof.
  intros Hsw Ei Hh. assert (Hn : CountSpentOutputs [cb; tx] = Ok 1) by (cbn; unfold spent_by; by rewrite Hsw, Ei). split; [done|].
  unfold DisconnectTransactions. rewrite Hn. cbn [mbind outcome_bind]. change (len [stxo] =? 1) with true. cbn [negb].
  assert (Hr : forall ti v, exists v', restore_in fetch (TxHash tx) ti [stxo] 0 v = Ok (v', [stxo])).
  { intros ti v. unfold restore_in. change (index_stxo [stxo] 0) with (Ok stxo). cbn [mbind outcome_bind].
    rewrite (proj2 (Z.eqb_neq (st_Height stxo) 0)) by done. by eexists. }
  cbn [rev app disconnect_txs]. rewrite Ei. cbn [rev app restore_ins]. change (len [stxo] - 1) with 0.
  set (v := spend_outs _ _ _ _ _ _). destruct (Hr i1 v) as [v' ->]. reflexivity.
Qed.

End supply.

(** * Concrete transactions *)

Section examples.

#[local] Existing Instance example_hash.
#[local] Existing Instance example_text.
#[local] Existing Instance example_ids.

Definition example_params : Params :=
  {| PowLimit := 0; HashSorting := false; HashSortingSlotNumber := 0; ChainID := 0; CoinbaseMaturity := 4 |}.

Lemma example_checked : exists tx', CheckTransactionInputs example_spend 9 example_view example_params = Ok (10, tx') /\
  fresh_check tx' (utxos ∅ example_view) = true /\ exists view' stxos, ConnectTransaction tx' 9 example_view (Some []) = Ok (view', stxos).
Proof.
  assert (Hb : match CheckTransactionInputs example_spend 9 example_view example_params with
    | Ok (fee, tx') => (fee =? 10) && fresh_check tx' (utxos ∅ example_view) &&
        match ConnectTransaction tx' 9 example_view (Some []) with Ok _ => true | _ => false end
    | _ => false end = true) by (vm_compute; reflexivity).
  destruct (CheckTransactionInputs _ _ _ _) as [[fee tx']| |]; [|done..]. apply andb_prop in Hb as [[Hf Hr]%andb_prop Hc].
  apply Z.eqb_eq in Hf as ->. exists tx'. split_and!; [done..|]. destruct (ConnectTransaction _ _ _ _) as [[view' stxos]| |]; [by exists view', stxos|done..].
Qed.

Lemma amounts_conserved_witness :
  exists tx' view' stxos, CheckTransactionInputs example_spend 9 example_view example_params = Ok (10, tx') /\
    ConnectTransaction tx' 9 example_view (Some []) = Ok (view', stxos) /\ supply (utxos ∅ view') = supply (utxos ∅ example_view) - 10.
Proof.
  destruct example_checked as (tx' & Hck & Hf & view' & stxos & Hcon). exists tx', view', stxos. split; [exact Hck|]. split; [exact Hcon|].
  destruct (amounts_conserved ∅ example_params example_spend 9 example_view 10 tx' [] view' stxos) as [_ E].
  - apply sanity_iff. vm_compute. reflexivity.
  - reflexivity.
  - reflexivity.
  - exact Hck.
  - apply fresh_check_ok. exact Hf.
  - exact Hcon.
  - rewrite E. change (burned_out (Tx_TxOut example_spend)) with 0. lia.
Defined.

(** A swap that spends 100 in this chain and creates a million. *)
Definition example_swap : MsgTx :=
  {| Version := TxVerCrossShardSwap;
     Tx_TxIn := [example_in example_origin; example_in {| Op_Hash := replicate 32 Byte.x08; Op_Index := 0 |}];
     Tx_TxOut := [example_out 1000000; example_out 7]; LockTime := 0 |}.

Lemma swap_amounts_unchecked_witness :
  CheckTransactionSanity example_swap = Ok () /\
  (exists tx', CheckTransactionInputs example_swap 9 example_view example_params = Ok (-999900, tx')) /\
  exists view' stxos, ConnectTransaction example_swap 9 example_view (Some []) = Ok (view', stxos) /\
    supply (utxos ∅ view') = supply (utxos ∅ example_view) + 999900.
Proof.
  split; [vm_compute; reflexivity|].
  destruct (swap_amounts_unchecked ∅ example_params example_swap example_view
    (example_in example_origin) (example_in {| Op_Hash := replicate 32 Byte.x08; Op_Index := 0 |}) (example_out 1000000) (example_out 7)
    {| entry_amount := 100; entry_pkScript := mkbytes [OP_1]; entry_blockHeight := 5; packedFlags := 0 |} 9 [])
    as [Hf (view' & Hc & Es)];
    [reflexivity|reflexivity|reflexivity|vm_compute; reflexivity|reflexivity|reflexivity|split; discriminate|split; discriminate
    |vm_compute; reflexivity|vm_compute; discriminate|vm_compute; reflexivity|apply fresh_check_ok; vm_compute; reflexivity|].
  - split; [exact Hf|]. exists view'. eexists. split; [exact Hc|]. rewrite Es. cbn [entry_amount example_out Value]. lia.
Defined.

Lemma swap_disconnect_panics_witness :
  DisconnectTransactions (fun _ => Ok None) 9 [example_coinbase; example_swap] ZeroHash
    [{| st_Amount := 100; st_PkScript := []; st_Height := 5; st_IsCoinBase := false |}] example_view = Panic.
Proof.
  destruct (swap_disconnect_panics (fun _ => Ok None) 9 example_coinbase example_swap ZeroHash
    {| st_Amount := 100; st_PkScript := []; st_Height := 5; st_IsCoinBase := false |} example_view
    (example_in example_origin) (example_in {| Op_Hash := replicate 32 Byte.x08; Op_Index := 0 |})) as [_ Hp];
    [reflexivity|reflexivity|discriminate|exact Hp].
Defined.

End examples.
