(* ===== verification/Coinbase.v ===== *)
(** Model of the coinbase scripts of node/chaindata/validate_coinbase_tx.go: the script of a
    jaxnet coinbase, which starts with the height of the block, and the script of a bitcoin
    coinbase, which commits to a beacon block. *)

From S2P Require Import Prelude WireEncoding WireTx Chainhash WireHeader Opcode ScriptNum Script Standard Utxo Validate.

Definition CoinbaseFlags : bytes := String.list_byte_of_string "/P2SH/jaxnetd/".
Definition JaxnetScriptSigMarkerBytes : bytes := mkbytes [0x6a; 0x61; 0x78; 0x6e; 0x65; 0x74].

Definition StandardCoinbaseScript (nextBlockHeight shardID extraNonce : Z) : outcome bytes :=
  b ← AddInt64 nextBlockHeight NewScriptBuilder;
  b ← AddInt64 shardID b;
  b ← AddInt64 (swrap 64 extraNonce) b;
  Script (AddData CoinbaseFlags b).

Definition BTCCoinbaseScript (nextBlockHeight : Z) (extraNonce beaconHash : bytes) : outcome bytes :=
  b ← AddInt64 nextBlockHeight NewScriptBuilder;
  Script (AddData CoinbaseFlags (AddData JaxnetScriptSigMarkerBytes (AddData beaconHash
    (AddData JaxnetScriptSigMarkerBytes (AddData extraNonce b))))).

Definition validateProofOfInclusion (beaconExclusiveHash signatureScript : bytes) : bool :=
  let markerWithLen :=
    mkbytes [0x06; 0x6a; 0x61; 0x78; 0x6e; 0x65; 0x74; 0x20] ++ beaconExclusiveHash ++
    mkbytes [0x06; 0x6a; 0x61; 0x78; 0x6e; 0x65; 0x74] in
  bytes_Contains signatureScript markerWithLen.

Definition validateCoinbaseAux `{HashFunction} (merkleRoot : bytes) (aux : CoinbaseAux) : outcome unit :=
  if negb (ValidateCoinbaseMerkleTreeProof (TxHash (Ca_Tx aux)) (TxMerkleProof aux) merkleRoot)
  then Err (errorString "tx_merkle tree root is not match with blockMerkle root") else Ok ().

(** * The pushes of numbers *)

(** What [AddInt64] appends for a number. *)
Definition int_push (v : Z) (e : bytes) : Prop :=
  (v = 0 /\ e = [byte.of_Z OP_0]) \/
  ((v = -1 \/ 1 <= v <= 16) /\ e = [byte.of_Z (OP_1 - 1 + v)]) \/
  (exists d, e = byte.of_Z (len d) :: d /\ minimal d /\ num_value d = v /\ 1 <= len d <= 9 /\ ~ -1 <= v <= 16).

Lemma minimal_single b : minimal [b] -> byte.unsigned b <> 0 /\ byte.unsigned b <> 0x80.
Proof. destruct b; (split; done) || (vm_compute; discriminate). Qed.

Lemma num_value_single b : num_value [b] = if 128 <=? byte.unsigned b then - (byte.unsigned b mod 128) else byte.unsigned b.
Proof.
  change [b] with ([] ++ [b]). rewrite num_value_snoc. cbv zeta. change (2 ^ (8 * len [])) with 1. rewrite le_combine_nil, Z.mul_1_r, Z.add_0_l.
  destruct (Z.leb_spec 128 (byte.unsigned b)); [done|]. apply Z.mod_small. pose proof (byte.unsigned_range b). lia.
Qed.

Lemma at_single b : at_ [b] 0 = byte.unsigned b.
Proof. done. Qed.

Lemma AddData_single b s : ~ -1 <= num_value [b] <= 16 -> len s + 2 <= MaxScriptSize ->
  AddData [b] (built s) = built (s ++ byte.of_Z 1 :: [b]).
Proof.
  intros Hv Hl. rewrite num_value_single in Hv. pose proof (byte.unsigned_range b) as Hb.
  assert (Hb' : 16 < byte.unsigned b /\ byte.unsigned b <> 0x81).
  { destruct (Z.leb_spec 128 (byte.unsigned b)); [|lia]. split; [lia|]. intros E. rewrite E in Hv. vm_compute in Hv. by apply Hv. }
  unfold AddData, addData, canonicalDataSize, push_data. cbn [built script builder_err]. change (len [b]) with 1. rewrite at_single.
  cbn [Z.eqb Pos.eqb orb andb]. rewrite (proj2 (Z.eqb_neq (byte.unsigned b) 0)), (proj2 (Z.leb_gt (byte.unsigned b) 16)),
    (proj2 (Z.eqb_neq (byte.unsigned b) 0x81)) by lia. change (1 <? OP_PUSHDATA1) with true. cbv iota.
  rewrite (proj2 (Z.ltb_ge _ _)) by lia. done.
Qed.

Lemma AddInt64_ok v s :
  is_int 64 v -> v <> - 2 ^ 63 -> len s + 10 <= MaxScriptSize ->
  exists e, AddInt64 v (built s) = Ok (built (s ++ e)) /\ int_push v e /\ 1 <= len e <= 10.
Proof.
  intros Hv Hm Hl. unfold AddInt64. cbn [built script builder_err]. rewrite (proj2 (Z.ltb_ge _ _)) by lia.
  destruct (Z.eqb_spec v 0) as [->|Hn]; [eexists; split; [reflexivity|]; split; [by left|done]|].
  destruct ((v =? -1) || ((1 <=? v) && (v <=? 16))) eqn:Es.
  { eexists. split; [reflexivity|]. split; [|done]. right. left. split; [|done]. lia. }
  assert (Hr : ~ -1 <= v <= 16) by lia. destruct (scriptNum_Bytes_spec v Hv Hm) as (d & -> & Hmin & Hnv). cbn [mbind outcome_bind].
  assert (Hd1 : 1 <= len d). { destruct d as [|x d]; [by cbn in Hnv|]. rewrite len_cons. pose proof (len_nonneg d). lia. }
  assert (Hd9 : len d <= 9).
  { apply (minimal_len d 9 Hmin); [lia|]. rewrite Hnv. unfold is_int in Hv. change (2 ^ (8 * 9 - 1)) with (2 ^ 71). lia. }
  exists (byte.of_Z (len d) :: d). split; [|split; [right; right; by exists d|rewrite len_cons; lia]]. f_equal.
  destruct (decide (len d = 1)) as [E1|E1].
  - destruct d as [|b [|b' d]]; [done| |rewrite !len_cons in E1; pose proof (len_nonneg d); lia]. rewrite <-Hnv in Hr. apply AddData_single; [done|lia].
  - apply AddData_ok; lia.
Qed.

(** * The height *)

Lemma le_combine_zeros (d : bytes) n : le_combine (d ++ replicate n Byte.x00) = le_combine d.
Proof.
  induction n as [|n IH]; [by rewrite app_nil_r|]. rewrite replicate_S_end, app_assoc, le_combine_snoc, IH.
  change (byte.unsigned Byte.x00) with 0. lia.
Qed.

Lemma num_value_nonneg d : 0 < num_value d -> le_combine d = num_value d.
Proof.
  destruct d as [|top init _] using rev_ind; [done|]. rewrite num_value_snoc, le_combine_snoc. cbv zeta.
  pose proof (num_value_nonneg_part init top). destruct (Z.leb_spec 128 (byte.unsigned top)); [lia|]. intros _.
  rewrite (Z.mod_small (byte.unsigned top)); [done|]. pose proof (byte.unsigned_range top). lia.
Qed.

Lemma take_padded (d : bytes) : len d <= 8 -> le_combine (take 8 (d ++ replicate 8 Byte.x00)) = le_combine d.
Proof.
  intros Hd. rewrite take_app, take_ge by (unfold len in Hd; lia). rewrite take_replicate. apply le_combine_zeros.
Qed.

(** The height at the start of a coinbase script. *)
Lemma extract_pushed h e rest ti ins cb :
  int_push h e -> 0 <= h < 2 ^ 31 -> Tx_TxIn cb = ti :: ins -> SignatureScript ti = e ++ rest ->
  ExtractCoinbaseHeight cb = Ok h.
Proof.
  intros He Hh Ei Es. unfold ExtractCoinbaseHeight. rewrite Ei, Es. unfold OP_0, OP_1, OP_16.
  destruct He as [[-> ->]|[[Hs ->]|(d & -> & Hm & Hv & Hl & Hn)]].
  - reflexivity.
  - assert (Hr : 1 <= h <= 16) by lia. cbn [app]. unfold OP_1. rewrite byte.unsigned_of_Z. unfold byte.wrap. rewrite Z.mod_small by lia.
    rewrite (proj2 (Z.eqb_neq _ _)), !(proj2 (Z.leb_le _ _)) by lia. cbn [andb]. rewrite swrap_id by (unfold is_int; lia). f_equal. lia.
  - assert (Hd4 : len d <= 4) by (apply (minimal_len d 4 Hm); [lia|rewrite Hv; change (2 ^ (8 * 4 - 1)) with (2 ^ 31); lia]).
    cbn [app]. rewrite byte.unsigned_of_Z. unfold byte.wrap. rewrite Z.mod_small by lia.
    rewrite (proj2 (Z.eqb_neq _ _)), (proj2 (Z.leb_gt 0x51 (len d))) by lia. cbn [andb].
    pose proof (len_nonneg rest). rewrite (proj2 (Z.ltb_ge _ _)) by (rewrite len_app; lia).
    rewrite to_nat_len, take_app_length, take_padded, num_value_nonneg by lia. rewrite Hv, swrap_id by (unfold is_int; lia). done.
Qed.

(** The script of a jaxnet coinbase starts with the height of its block: for every height,
    chain and nonce [StandardCoinbaseScript] builds a script, of at most 45 bytes, and
    [CheckSerializedHeight] of a coinbase with that script accepts this height and no
    other. *)
Theorem coinbase_height_roundtrip h shardID extraNonce :
  0 <= h < 2 ^ 31 -> is_uint 32 shardID -> swrap 64 extraNonce <> - 2 ^ 63 ->
  exists s, StandardCoinbaseScript h shardID extraNonce = Ok s /\ 2 <= len s <= 45 /\
    forall cb ti ins, Tx_TxIn cb = ti :: ins -> SignatureScript ti = s ->
      ExtractCoinbaseHeight cb = Ok h /\ forall want, CheckSerializedHeight cb want = Ok () <-> want = h.
Proof.
  intros Hh Hs Hn. unfold is_uint in Hs. pose proof (swrap_range 64 extraNonce ltac:(lia)) as Hr.
  unfold StandardCoinbaseScript. change NewScriptBuilder with (built []).
  destruct (AddInt64_ok h []) as (e1 & -> & P1 & L1); [unfold is_int; lia|lia|done|]. cbn [mbind outcome_bind app].
  destruct (AddInt64_ok shardID e1) as (e2 & -> & P2 & L2); [unfold is_int; lia|lia|unfold MaxScriptSize; lia|]. cbn [mbind outcome_bind].
  destruct (AddInt64_ok (swrap 64 extraNonce) (e1 ++ e2)) as (e3 & -> & P3 & L3); [done|done|rewrite len_app; unfold MaxScriptSize; lia|].
  cbn [mbind outcome_bind]. assert (Lf : len CoinbaseFlags = 14) by reflexivity.
  rewrite AddData_ok by (rewrite ?len_app; unfold MaxScriptSize; lia). unfold Script. cbn [built script builder_err].
  eexists. split; [reflexivity|]. split; [rewrite !len_app, len_cons; lia|]. intros cb ti ins Ei Es. rewrite <-!app_assoc in Es.
  assert (Ex : ExtractCoinbaseHeight cb = Ok h) by (eapply extract_pushed; done). split; [done|].
  intros want. unfold CheckSerializedHeight. rewrite Ex. cbn [mbind outcome_bind]. destruct (Z.eqb_spec h want); cbn; [by split|by split; [|intros ->]].
Qed.

Lemma coinbase_height_roundtrip_witness :
  exists s, StandardCoinbaseScript 70000 3 9 = Ok s /\ len s = 21.
Proof.
  destruct (coinbase_height_roundtrip 70000 3 9) as (s & E & _ & _); [lia|unfold is_uint; lia|vm_compute; discriminate|].
  exists s. split; [exact E|]. vm_compute in E. injection E as <-. reflexivity.
Defined.

(** * The commitment to a beacon block *)

Lemma contains_app (pre m post : bytes) : bytes_Contains (pre ++ m ++ post) m = true.
Proof.
  induction pre as [|b pre IH]; [|cbn [app bytes_Contains]; rewrite IH; apply orb_true_r].
  cbn [app]. assert (E : bool_decide (take (length m) (m ++ post) = m) = true) by (apply bool_decide_eq_true, take_app_length).
  destruct (m ++ post); cbn [bytes_Contains]; by rewrite E.
Qed.

(** A bitcoin coinbase built for a beacon block proves its inclusion: the script
    [BTCCoinbaseScript] writes for a beacon hash, a bitcoin height and a nonce, and any
    script that continues it, passes [validateProofOfInclusion] for that hash. *)
Theorem inclusion_proof_complete h extraNonce beaconHash :
  0 <= h < 2 ^ 63 -> 2 <= len extraNonce <= 75 -> len beaconHash = 32 ->
  exists s, BTCCoinbaseScript h extraNonce beaconHash = Ok s /\ len s <= 150 /\
    forall rest, validateProofOfInclusion beaconHash (s ++ rest) = true.
Proof.
  intros Hh Hn Hb. unfold BTCCoinbaseScript. change NewScriptBuilder with (built []).
  destruct (AddInt64_ok h []) as (e & -> & P & L); [unfold is_int; lia|lia|done|]. cbn [mbind outcome_bind app].
  assert (Lf : len CoinbaseFlags = 14) by reflexivity. assert (Lm : len JaxnetScriptSigMarkerBytes = 6) by reflexivity.
  repeat (rewrite AddData_ok by (rewrite ?len_app, ?len_cons; unfold MaxScriptSize; lia)).
  unfold Script. cbn [built script builder_err]. eexists. split; [reflexivity|].
  split; [repeat (rewrite len_app || rewrite len_cons); lia|]. intros rest. unfold validateProofOfInclusion. rewrite Lm, Hb.
  set (m := mkbytes _ ++ _). set (f := byte.of_Z (len CoinbaseFlags) :: CoinbaseFlags).
  assert (E : ((((e ++ byte.of_Z (len extraNonce) :: extraNonce) ++ byte.of_Z 6 :: JaxnetScriptSigMarkerBytes) ++ byte.of_Z 32 :: beaconHash) ++
    byte.of_Z 6 :: JaxnetScriptSigMarkerBytes) ++ f = (e ++ byte.of_Z (len extraNonce) :: extraNonce) ++ m ++ f).
  { unfold m. rewrite <-!app_assoc. reflexivity. }
  rewrite E, <-!app_assoc. rewrite (app_assoc e). apply contains_app.
Qed.

Lemma inclusion_proof_complete_witness :
  exists s, BTCCoinbaseScript 700000 (replicate 8 Byte.x00) (replicate 32 Byte.x05) = Ok s /\
    validateProofOfInclusion (replicate 32 Byte.x05) s = true.
Proof.
  destruct (inclusion_proof_complete 700000 (replicate 8 Byte.x00) (replicate 32 Byte.x05)) as (s & E & _ & Hi);
    [lia|split; discriminate|reflexivity|]. exists s. split; [exact E|]. rewrite <-(app_nil_r s). apply Hi.
Defined.
