(* ===== verification/ChainStore.v ===== *)
(** Model of node/chaindata/chaindb_io.go: the records of the chain database, the spend
    journal, the set of unspent outputs, the indexes of blocks and the best state, and the
    operations that read and write them.

    A database transaction is the metadata bucket with its values and the buckets inside it,
    each a finite map from keys to values; [Bucket] is nil for a bucket that does not exist,
    and a call on it panics.  As the database documents, [Put] refuses an empty key, [Get]
    is nil for a missing key, and a value put as nil reads back as an empty slice. *)

From stdpp Require Import gmap.
From S2P Require Import Prelude Big WireEncoding WireTx Chainhash WireHeader WireMsg Compress Utxo.

(** * The database transaction *)

Abbreviation bucket := (gmap bytes bytes).

Record dbTx := { meta_values : bucket; meta_buckets : gmap bytes bucket }.

Definition bucket_Put (key value : bytes) (b : bucket) : outcome bucket :=
  if len key =? 0 then Err (errorString "put requires a key") else Ok (<[key := value]> b).
Definition bucket_Get (key : bytes) (b : bucket) : option bytes :=
  if len key =? 0 then None else b !! key.
Definition bucket_Delete (key : bytes) (b : bucket) : bucket :=
  if len key =? 0 then b else delete key b.

Definition Bucket (name : bytes) (tx : dbTx) : outcome bucket :=
  match meta_buckets tx !! name with Some b => Ok b | None => Panic end.

Definition set_bucket (name : bytes) (b : bucket) (tx : dbTx) : dbTx :=
  {| meta_values := meta_values tx; meta_buckets := <[name := b]> (meta_buckets tx) |}.
Definition set_meta (m : bucket) (tx : dbTx) : dbTx :=
  {| meta_values := m; meta_buckets := meta_buckets tx |}.

(** [Put] and [Delete] on the bucket with a name. *)
Definition put_in (name key value : bytes) (tx : dbTx) : outcome dbTx :=
  b ← Bucket name tx; b ← bucket_Put key value b; Ok (set_bucket name b tx).
Definition delete_in (name key : bytes) (tx : dbTx) : outcome dbTx :=
  b ← Bucket name tx; Ok (set_bucket name (bucket_Delete key b) tx).
Definition get_in (name key : bytes) (tx : dbTx) : outcome (option bytes) :=
  b ← Bucket name tx; Ok (bucket_Get key b).

Definition BlockIndexBucketName : bytes := String.list_byte_of_string "blockheaderidx".
Definition HashIndexBucketName : bytes := String.list_byte_of_string "hashidx".
Definition HeightIndexBucketName : bytes := String.list_byte_of_string "heightidx".
Definition ChainStateKeyName : bytes := String.list_byte_of_string "chainstate".
Definition MMRRootsToHashBucketName : bytes := String.list_byte_of_string "mmr_root_to_hash".
Definition HashToMMRRootBucketName : bytes := String.list_byte_of_string "hash_to_mmr_root".
Definition SpendJournalBucketName : bytes := String.list_byte_of_string "spendjournal".
Definition UtxoSetBucketName : bytes := String.list_byte_of_string "utxosetv2".
Definition EADAddressesBucketNameV2 : bytes := String.list_byte_of_string "ead_addresses_v2".
Definition ShardCreationsBucketName : bytes := String.list_byte_of_string "shard_creations".

(** [byteOrder.Uint32] and the like read the first bytes of a slice and panic on a shorter
    one; [PutUint32] writes them. *)
Definition get_uint (o : byteOrder) (n : nat) (b : bytes) : outcome Z :=
  if Nat.ltb (length b) n then Panic else Ok (bo_get o (take n b)).

(** * Versions *)

Definition dbFetchVersion (key : bytes) (tx : dbTx) : outcome Z :=
  match bucket_Get key (meta_values tx) with
  | None => Ok 0
  | Some serialized => get_uint littleEndian 4 serialized
  end.

Definition PutVersion (key : bytes) (version : Z) (tx : dbTx) : outcome dbTx :=
  m ← bucket_Put key (bo_put littleEndian 4 version) (meta_values tx); Ok (set_meta m tx).

Definition FetchOrCreateVersion (key : bytes) (defaultVersion : Z) (tx : dbTx) : outcome (Z * dbTx) :=
  version ← dbFetchVersion key tx;
  if version =? 0 then tx ← PutVersion key defaultVersion tx; Ok (defaultVersion, tx) else Ok (version, tx).

(** * The spend journal *)

(** [uint64(height)<<1] with the coinbase flag in bit zero. *)
Definition headerCode (height : Z) (isCoinBase : bool) : Z :=
  let headerCode := uwrap 64 (Z.shiftl (uwrap 64 height) 1) in
  if isCoinBase then Z.lor headerCode 0x01 else headerCode.

Definition spentTxOutHeaderCode (stxo : SpentTxOut) : Z := headerCode (st_Height stxo) (st_IsCoinBase stxo).

Definition spentTxOutSerializeSize (stxo : SpentTxOut) : Z :=
  serializeSizeVLQ (spentTxOutHeaderCode stxo) +
  (if 0 <? st_Height stxo then serializeSizeVLQ 0 else 0) +
  compressedTxOutSize (uwrap 64 (st_Amount stxo)) (st_PkScript stxo).

(** [offset += put(target[offset:])] *)
Definition put_from (offset : Z) (target : bytes) (put : bytes -> outcome (bytes * Z)) : outcome (bytes * Z) :=
  rest ← slice target offset (len target);
  '(rest, n) ← put rest;
  Ok (take (Z.to_nat offset) target ++ rest, offset + n).

Definition putSpentTxOut (target : bytes) (stxo : SpentTxOut) : outcome (bytes * Z) :=
  '(target, offset) ← putVLQ target (spentTxOutHeaderCode stxo);
  '(target, offset) ←
    (if 0 <? st_Height stxo then put_from offset target (fun t => putVLQ t 0) else Ok (target, offset));
  put_from offset target (fun t => putCompressedTxOut t (uwrap 64 (st_Amount stxo)) (st_PkScript stxo)).

(** The number of bytes read, with the spent output or the error; the error of the inner
    decoder is wrapped in one of the same type. *)
Definition decodeSpentTxOut (serialized : bytes) : outcome (Z * (SpentTxOut + go_error)) :=
  if len serialized =? 0 then Ok (0, inr ErrDeserialize)
  else
  let '(code, offset) := deserializeVLQ serialized in
  if len serialized <=? offset then Ok (offset, inr ErrDeserialize)
  else
  let isCoinBase := negb (Z.land code 0x01 =? 0) in
  let height := swrap 32 (Z.shiftr code 1) in
  let offset := if 0 <? height then offset + snd (deserializeVLQ (drop (Z.to_nat offset) serialized)) else offset in
  if (0 <? height) && (len serialized <=? offset) then Ok (offset, inr ErrDeserialize)
  else
  '(amount, pkScript, bytesRead, err) ← decodeCompressedTxOut (drop (Z.to_nat offset) serialized);
  let offset := offset + bytesRead in
  match err with
  | Some _ => Ok (offset, inr ErrDeserialize)
  | None => Ok (offset, inl {| st_Amount := swrap 64 amount; st_PkScript := pkScript; st_Height := height;
                               st_IsCoinBase := isCoinBase |})
  end.

(** The loops over the transactions and their inputs, backwards, fill the slice from its
    end: [n] spent outputs are still to be read, [stxos] are those already read. *)
Fixpoint decode_stxos (n : nat) (serialized : bytes) (offset : Z) (stxos : list SpentTxOut) : outcome (list SpentTxOut) :=
  match n with
  | O => Ok stxos
  | S n =>
      rest ← slice serialized offset (len serialized);
      '(read, r) ← decodeSpentTxOut rest;
      match r with
      | inr _ => Err ErrDeserialize
      | inl stxo => decode_stxos n serialized (offset + read) (stxo :: stxos)
      end
  end.

Definition num_stxos (txns : list MsgTx) : nat := foldr (fun tx n => length (Tx_TxIn tx) + n)%nat O txns.

Definition deserializeSpendJournalEntry (serialized : bytes) (txns : list MsgTx) : outcome (list SpentTxOut) :=
  let numStxos := num_stxos txns in
  if len serialized =? 0 then
    if Nat.eqb numStxos O then Ok [] else Err AssertError
  else decode_stxos numStxos serialized 0 [].

Fixpoint put_stxos (stxos : list SpentTxOut) (offset : Z) (serialized : bytes) : outcome bytes :=
  match stxos with
  | [] => Ok serialized
  | stxo :: stxos =>
      '(serialized, offset) ← put_from offset serialized (fun t => putSpentTxOut t stxo);
      put_stxos stxos offset serialized
  end.

Definition serializeSpendJournalEntry (stxos : list SpentTxOut) : outcome bytes :=
  if len stxos =? 0 then Ok []
  else
  let size := foldr (fun stxo n => spentTxOutSerializeSize stxo + n) 0 stxos in
  put_stxos (rev stxos) 0 (replicate (Z.to_nat size) Byte.x00).

Definition PutSpendJournalEntry (blockHash : bytes) (stxos : list SpentTxOut) (tx : dbTx) : outcome dbTx :=
  serialized ← serializeSpendJournalEntry stxos;
  put_in SpendJournalBucketName blockHash serialized tx.

Definition RemoveSpendJournalEntry (blockHash : bytes) (tx : dbTx) : outcome dbTx :=
  delete_in SpendJournalBucketName blockHash tx.

(** A deserialization error becomes a corruption error of the database. *)
Definition corrupt {A} (m : outcome A) : outcome A :=
  match m with Err ErrDeserialize => Err ErrCorruption | _ => m end.

(** The block by its hash and its transactions. *)
Definition FetchSpendJournalEntry (hash : bytes) (txs : list MsgTx) (tx : dbTx) : outcome (list SpentTxOut) :=
  serialized ← get_in SpendJournalBucketName hash tx;
  match txs with
  | [] => Panic
  | _ :: blockTxns => corrupt (deserializeSpendJournalEntry (default [] serialized) blockTxns)
  end.

(** * The set of unspent outputs *)

(** The buffer of the free list is overwritten up to the length it is cut to. *)
Definition outpointKey (outpoint : OutPoint) : outcome bytes :=
  let idx := Op_Index outpoint in
  '(t, _) ← putVLQ (replicate (Z.to_nat (serializeSizeVLQ idx)) Byte.x00) idx;
  Ok (Op_Hash outpoint ++ t).

Definition keyToOutpoint (key : bytes) : outcome OutPoint :=
  hash ← slice key 0 HashSize;
  rest ← slice key HashSize (len key);
  Ok {| Op_Hash := hash; Op_Index := uwrap 32 (fst (deserializeVLQ rest)) |}.

Definition utxoEntryHeaderCode (entry : UtxoEntry) : outcome Z :=
  if IsSpent entry then Err AssertError
  else Ok (headerCode (entry_blockHeight entry) (Entry_IsCoinBase entry)).

(** [None] is a nil slice. *)
Definition serializeUtxoEntry (entry : UtxoEntry) : outcome (option bytes) :=
  if IsSpent entry then Ok None
  else
  headerCode ← utxoEntryHeaderCode entry;
  let amount := uwrap 64 (entry_amount entry) in
  let size := serializeSizeVLQ headerCode + compressedTxOutSize amount (entry_pkScript entry) in
  '(serialized, offset) ← putVLQ (replicate (Z.to_nat size) Byte.x00) headerCode;
  '(serialized, _) ← put_from offset serialized (fun t => putCompressedTxOut t amount (entry_pkScript entry));
  Ok (Some serialized).

Definition DeserializeUtxoEntry (serialized : bytes) : outcome UtxoEntry :=
  let '(code, offset) := deserializeVLQ serialized in
  if len serialized <=? offset then Err ErrDeserialize
  else
  let isCoinBase := negb (Z.land code 0x01 =? 0) in
  let blockHeight := swrap 32 (Z.shiftr code 1) in
  '(amount, pkScript, _, err) ← decodeCompressedTxOut (drop (Z.to_nat offset) serialized);
  match err with
  | Some _ => Err ErrDeserialize
  | None => Ok {| entry_amount := swrap 64 amount; entry_pkScript := pkScript; entry_blockHeight := blockHeight;
                  packedFlags := if isCoinBase then Z.lor 0 tfCoinBase else 0 |}
  end.

Definition FetchUtxoEntry (outpoint : OutPoint) (tx : dbTx) : outcome (option UtxoEntry) :=
  key ← outpointKey outpoint;
  serializedUtxo ← get_in UtxoSetBucketName key tx;
  match serializedUtxo with
  | None => Ok None
  | Some serializedUtxo =>
      if len serializedUtxo =? 0 then Err AssertError
      else entry ← corrupt (DeserializeUtxoEntry serializedUtxo); Ok (Some entry)
  end.

(** The order of the keys of a cursor: byte by byte. *)
Fixpoint key_le (a b : bytes) : bool :=
  match a, b with
  | [], _ => true
  | _ :: _, [] => false
  | x :: a, y :: b =>
      if byte.unsigned x <? byte.unsigned y then true
      else if byte.unsigned y <? byte.unsigned x then false else key_le a b
  end.

(** [cursor.Seek]: the first pair whose key is not below the one given. *)
Definition seek (key : bytes) (b : bucket) : option (bytes * bytes) :=
  foldr (fun kv best =>
    if negb (key_le key (fst kv)) then best
    else match best with Some kv' => if key_le (fst kv') (fst kv) then Some kv' else Some kv | None => Some kv end)
    None (map_to_list b).

Definition FetchUtxoEntryByHash (hash : bytes) (tx : dbTx) : outcome (option UtxoEntry) :=
  b ← Bucket UtxoSetBucketName tx;
  key ← outpointKey {| Op_Hash := hash; Op_Index := 0 |};
  match seek key b with
  | None => Ok None
  | Some (cursorKey, cursorValue) =>
      if len cursorKey <? HashSize then Ok None
      else if negb (bool_decide (hash = take (Z.to_nat HashSize) cursorKey)) then Ok None
      else entry ← DeserializeUtxoEntry cursorValue; Ok (Some entry)
  end.

(** The iteration of [ForEach] over the pairs of the bucket, in the order it gives them. *)
Fixpoint fetch_entries (limit count : Z) (pairs : list (bytes * bytes)) (view : gmap OutPoint UtxoEntry)
    : outcome (gmap OutPoint UtxoEntry) :=
  match pairs with
  | [] => Ok view
  | (rawKey, serializedUtxo) :: pairs =>
      if count =? limit then fetch_entries limit count pairs view
      else
      outpoint ← keyToOutpoint rawKey;
      if len serializedUtxo =? 0 then Err AssertError
      else
      entry ← corrupt (DeserializeUtxoEntry serializedUtxo);
      fetch_entries limit (count + 1) pairs (<[outpoint := entry]> view)
  end.

Definition FetchUtxoEntries (limit : Z) (pairs : list (bytes * bytes)) : outcome (gmap OutPoint UtxoEntry) :=
  fetch_entries limit 0 pairs ∅.

(** One turn of the loop of [PutUtxoView]. *)
Definition put_utxo (outpoint : OutPoint) (entry : option UtxoEntry) (utxoBucket : bucket) : outcome bucket :=
  match entry with
  | None => Ok utxoBucket
  | Some entry =>
      if negb (isModified entry) then Ok utxoBucket
      else if IsSpent entry then key ← outpointKey outpoint; Ok (bucket_Delete key utxoBucket)
      else
      serialized ← serializeUtxoEntry entry;
      key ← outpointKey outpoint;
      bucket_Put key (default [] serialized) utxoBucket
  end.

Fixpoint put_utxos (l : list (OutPoint * option UtxoEntry)) (utxoBucket : bucket) : outcome bucket :=
  match l with
  | [] => Ok utxoBucket
  | (outpoint, entry) :: l => b ← put_utxo outpoint entry utxoBucket; put_utxos l b
  end.

(** [order] is the order in which Go iterates over the entries of the view. *)
Definition PutUtxoView (order : list (OutPoint * option UtxoEntry)) (tx : dbTx) : outcome dbTx :=
  b ← Bucket UtxoSetBucketName tx;
  b ← put_utxos order b;
  Ok (set_bucket UtxoSetBucketName b tx).

(** * EAD addresses *)

Fixpoint put_eads (updateSet : list (bytes * option EADAddresses)) (b : bucket) : outcome bucket :=
  match updateSet with
  | [] => Ok b
  | (owner, None) :: l => put_eads l (bucket_Delete owner b)
  | (owner, Some entry) :: l =>
      match EADAddresses_BtcEncode entry with
      | (_, Some e) => Err e
      | w => b ← bucket_Put owner (wbytes w) b; put_eads l b
      end
  end.

Definition PutEADAddresses (updateSet : list (bytes * option EADAddresses)) (tx : dbTx) : outcome dbTx :=
  b ← Bucket EADAddressesBucketNameV2 tx;
  b ← put_eads updateSet b;
  Ok (set_bucket EADAddressesBucketNameV2 b tx).

Definition decode_ead (serializedData : bytes) : outcome EADAddresses :=
  match EADAddresses_BtcDecode serializedData with
  | Ok (ead, _) => Ok ead
  | Err _ => Err ErrCorruption
  | Panic => Panic
  end.

Definition FetchEADAddresses (ownerPK : bytes) (tx : dbTx) : outcome (option EADAddresses) :=
  serializedData ← get_in EADAddressesBucketNameV2 ownerPK tx;
  match serializedData with
  | None => Ok None
  | Some d => ead ← decode_ead d; Ok (Some ead)
  end.

(** * The index of the main chain *)

Definition PutBlockIndex (hash : bytes) (height : Z) (tx : dbTx) : outcome dbTx :=
  let serializedHeight := bo_put littleEndian 4 (uwrap 32 height) in
  tx ← put_in HashIndexBucketName hash serializedHeight tx;
  put_in HeightIndexBucketName serializedHeight hash tx.

Definition RemoveBlockIndex (hash : bytes) (height : Z) (tx : dbTx) : outcome dbTx :=
  tx ← delete_in HashIndexBucketName hash tx;
  delete_in HeightIndexBucketName (bo_put littleEndian 4 (uwrap 32 height)) tx.

Definition FetchHeightByHash (hash : bytes) (tx : dbTx) : outcome Z :=
  serializedHeight ← get_in HashIndexBucketName hash tx;
  match serializedHeight with
  | None => Err (errorString "ErrNotInMainChain")
  | Some h => height ← get_uint littleEndian 4 h; Ok (swrap 32 height)
  end.

(** * The best chain state *)

Record BestChainState := {
  Best_Hash : bytes; Best_MMRRoot : bytes; Best_Height : Z; LastSerialID : Z; TotalTxns : Z; workSum : Z
}.

(** The slices written one after the other fill the buffer exactly. *)
Definition serializeBestChainState (state : BestChainState) : bytes :=
  let workSumBytes := big_Bytes (workSum state) in
  Best_Hash state ++ Best_MMRRoot state ++ bo_put littleEndian 4 (Best_Height state) ++
  bo_put littleEndian 8 (uwrap 64 (LastSerialID state)) ++ bo_put littleEndian 8 (TotalTxns state) ++
  bo_put littleEndian 4 (uwrap 32 (len workSumBytes)) ++ workSumBytes.

Definition DeserializeBestChainState (serializedData : bytes) : outcome BestChainState :=
  if len serializedData <? HashSize + 16 then Err ErrCorruption
  else
  hash ← slice serializedData 0 HashSize;
  let offset := HashSize in
  root ← slice serializedData offset (offset + HashSize);
  let offset := offset + HashSize in
  height ← slice serializedData offset (offset + 4);
  let offset := offset + 4 in
  serial ← slice serializedData offset (offset + 8);
  let offset := offset + 8 in
  txns ← slice serializedData offset (offset + 8);
  let offset := offset + 8 in
  n ← slice serializedData offset (offset + 4);
  let workSumBytesLen := bo_get littleEndian n in
  let offset := offset + 4 in
  rest ← slice serializedData offset (len serializedData);
  if uwrap 32 (len rest) <? workSumBytesLen then Err ErrCorruption
  else
  workSumBytes ← slice serializedData offset (uwrap 32 (offset + workSumBytesLen));
  Ok {| Best_Hash := hash; Best_MMRRoot := root; Best_Height := bo_get littleEndian height;
        LastSerialID := swrap 64 (bo_get littleEndian serial); TotalTxns := bo_get littleEndian txns;
        workSum := big_SetBytes workSumBytes |}.

Definition PutBestState (state : BestChainState) (tx : dbTx) : outcome dbTx :=
  m ← bucket_Put ChainStateKeyName (serializeBestChainState state) (meta_values tx); Ok (set_meta m tx).

(** * The block index *)

Definition blockIndexKey (blockHash : bytes) (blockHeight : Z) : bytes :=
  bo_put bigEndian 4 blockHeight ++ blockHash.

(** A node of the block index by what is stored of it. *)
Definition StoreBlockNode (header : BlockHeader) (status serialID : Z) (hash : bytes) (height : Z) (tx : dbTx)
    : outcome dbTx :=
  match Header_Write header with
  | (_, Some e) => Err e
  | w =>
      let value := wbytes w ++ [byte.of_Z status] ++ bo_put littleEndian 8 (uwrap 64 serialID) in
      put_in BlockIndexBucketName (blockIndexKey hash (uwrap 32 height)) value tx
  end.

(** [bytes.Reader.Read] reads what there is, and fails at the end of the data. *)
Definition DeserializeBlockRow (blockRow : bytes) : outcome (BlockHeader * Z * Z) :=
  '(header, buffer) ← DecodeHeader blockRow;
  match buffer with
  | [] => Err io_EOF
  | statusByte :: buffer =>
      if len buffer =? 0 then Err io_EOF
      else
      let dest := take 8 (buffer ++ replicate 8 Byte.x00) in
      Ok (header, byte.unsigned statusByte, swrap 64 (bo_get littleEndian dest))
  end.

(** * Roots of the merkle mountain range *)

Definition PutMMRRoot (mmrRoot blockHash : bytes) (tx : dbTx) : outcome dbTx :=
  tx ← put_in MMRRootsToHashBucketName mmrRoot blockHash tx;
  put_in HashToMMRRootBucketName blockHash mmrRoot tx.

Definition GetMMRRootForBlock (blockHash : bytes) (tx : dbTx) : outcome bytes :=
  val ← get_in HashToMMRRootBucketName blockHash tx;
  let val := default [] val in
  if negb (len val =? HashSize) then Err (errorString "actual root not found for block") else Ok val.

(** * Shards *)

Record ShardInfo := { Sh_ID : Z; ExpansionHeight : Z; ExpansionHash : bytes; SerialID : Z }.

Definition last_shard_id : bytes := String.list_byte_of_string "last_shard_id".

Definition StoreShardGenesisInfo (shardID blockHeight : Z) (blockHash : bytes) (blockSerialID : Z) (tx : dbTx)
    : outcome dbTx :=
  let val := blockHash ++ bo_put littleEndian 4 (uwrap 32 blockHeight) ++ bo_put littleEndian 8 (uwrap 64 blockSerialID) in
  let key := bo_put littleEndian 4 shardID in
  valueAtKey ← get_in ShardCreationsBucketName key tx;
  match valueAtKey with
  | Some _ => Err (errorString "shard with specified ID already exists")
  | None => put_in ShardCreationsBucketName key val tx
  end.

Definition StoreLastShardInfo (shardID : Z) (tx : dbTx) : outcome dbTx :=
  put_in ShardCreationsBucketName last_shard_id (bo_put littleEndian 4 shardID) tx.

(** The last eight bytes are copied over the four of the height that were just read, and
    the serial identifier is taken from eight other bytes, all zero. *)
Definition decodeShardGenesisInfo (data : bytes) : outcome (bytes * Z * Z) :=
  hash ← slice data 0 HashSize;
  blockHeightBytes ← slice data HashSize (HashSize + 4);
  let blockHeight := bo_get littleEndian blockHeightBytes in
  let serialIDBytes := replicate 8 Byte.x00 in
  _ ← slice data (HashSize + 4) (HashSize + 4 + 8);
  let serialID := bo_get littleEndian serialIDBytes in
  Ok (hash, swrap 32 blockHeight, swrap 64 serialID).

Fixpoint get_shards (n : nat) (i : Z) (tx : dbTx) (shards : gmap Z ShardInfo) : outcome (gmap Z ShardInfo) :=
  match n with
  | O => Ok shards
  | S n =>
      data ← get_in ShardCreationsBucketName (bo_put littleEndian 4 i) tx;
      '(hash, blockHeight, serialID) ← decodeShardGenesisInfo (default [] data);
      get_shards n (i + 1) tx
        (<[i := {| Sh_ID := i; ExpansionHeight := blockHeight; ExpansionHash := hash; SerialID := serialID |}]> shards)
  end.

(** The loop is over the [uint32] identifiers up to the last one: with the largest one it
    would not end, and the shards do not get that many. *)
Definition GetShardGenesisInfo (tx : dbTx) : outcome (gmap Z ShardInfo * Z) :=
  lastShardIDByte ← get_in ShardCreationsBucketName last_shard_id tx;
  let lastShardIDByte := default [] lastShardIDByte in
  if len lastShardIDByte =? 0 then Ok (∅, 0)
  else
  lastShardID ← get_uint littleEndian 4 lastShardIDByte;
  shards ← get_shards (Z.to_nat lastShardID) 1 tx ∅;
  Ok (shards, lastShardID).
