(* ===== verification/StoreFacts.v ===== *)
(** Correctness of the records of node/chaindata/chaindb_io.go: the codecs of the spend
    journal, of the unspent outputs and of their keys, and the indexes of the database. *)

From stdpp Require Import gmap.
From S2P Require Import Prelude Big WireEncoding WireTx Chainhash WireHeader WireMsg Script Compress Utxo UtxoSet ChainStore.

(** * Header codes *)

Lemma shift_flag (n : Z) (b : bool) : 0 <= n -> Z.lor (2 * n) (Z.b2z b) = 2 * n + Z.b2z b.
Proof.
  intros Hn. pose proof (lor_shift (Z.b2z b) n 1 ltac:(lia)) as Hl. rewrite Z.lor_comm, Z.shiftl_mul_pow2, Z.mul_comm in Hl by lia.
  change (2 ^ 1) with 2 in Hl. rewrite Hl by (destruct b; cbn; lia). lia.
Qed.

Lemma headerCode_eq h cb : headerCode h cb = 2 * (h mod 2 ^ 63) + Z.b2z cb.
Proof.
  unfold headerCode, uwrap. rewrite Z.shiftl_mul_pow2 by lia. change (2 ^ 1) with 2.
  assert (Hm : (h mod 2 ^ 64 * 2) mod 2 ^ 64 = 2 * (h mod 2 ^ 63)).
  { change (2 ^ 64) with (2 ^ 63 * 2). rewrite Z.mul_mod_distr_r by lia. rewrite Z.mul_comm. f_equal.
    apply Z.mod_mod_divide. by exists 2. }
  rewrite Hm. destruct cb; cbn [Z.b2z]; [|lia]. apply (shift_flag _ true). pose proof (Z.mod_pos_bound h (2 ^ 63)). lia.
Qed.

Lemma headerCode_uint h cb : is_uint 64 (headerCode h cb).
Proof. rewrite headerCode_eq. unfold is_uint. pose proof (Z.mod_pos_bound h (2 ^ 63)). destruct cb; cbn [Z.b2z]; lia. Qed.

(** Both decoders of header codes. *)
Lemma headerCode_flag h cb : negb (Z.land (headerCode h cb) 0x01 =? 0) = cb.
Proof.
  rewrite headerCode_eq. change 1 with (Z.ones 1). rewrite Z.land_ones by lia. change (2 ^ 1) with 2.
  rewrite (Z.mul_comm 2), Z.add_comm, Z_mod_plus_full. by destruct cb.
Qed.

Lemma headerCode_height h cb : is_int 32 h -> swrap 32 (Z.shiftr (headerCode h cb) 1) = h.
Proof.
  intros Hh. rewrite headerCode_eq, Z.shiftr_div_pow2 by lia. change (2 ^ 1) with 2.
  replace ((2 * (h mod 2 ^ 63) + Z.b2z cb) / 2) with (h mod 2 ^ 63) by (destruct cb; cbn [Z.b2z]; Z.to_euclidean_division_equations; lia).
  rewrite <-swrap_uwrap by lia. unfold uwrap.
  rewrite Z.mod_mod_divide by (exists (2 ^ 31); lia).
  change (h mod 2 ^ 32) with (uwrap 32 h). rewrite swrap_uwrap by lia. by apply swrap_id.
Qed.

(** * Writing in a buffer *)

Lemma len_replicate_nat {A} n (x : A) : len (replicate n x) = Z.of_nat n.
Proof. unfold len. by rewrite length_replicate. Qed.

(** Between what is written and what is still zero. *)
Lemma put_from_app pre (zeros enc : bytes) put :
  put zeros = Ok (enc ++ drop (length enc) zeros, len enc) ->
  put_from (len pre) (pre ++ zeros) put = Ok ((pre ++ enc) ++ drop (length enc) zeros, len (pre ++ enc)).
Proof.
  intros Hp. unfold put_from.
  assert (Hs : slice (pre ++ zeros) (len pre) (len (pre ++ zeros)) = Ok zeros).
  { pose proof (slice_exact pre zeros [] (len pre) (len (pre ++ zeros))) as Hs. rewrite app_nil_r in Hs. apply Hs; rewrite ?len_app; lia. }
  rewrite Hs. cbn [mbind outcome_bind]. rewrite Hp. cbn [mbind outcome_bind].
  by rewrite to_nat_len, take_app_length, app_assoc, len_app.
Qed.

Lemma putVLQ_app n zeros : is_uint 64 n -> len (vlq n) <= len zeros ->
  putVLQ zeros n = Ok (vlq n ++ drop (length (vlq n)) zeros, len (vlq n)).
Proof. intros Hn Hl. rewrite putVLQ_spec by done. by rewrite decide_True by (unfold len in Hl; lia). Qed.

Lemma vlq_zero : vlq 0 = [Byte.x00].
Proof. vm_compute. reflexivity. Qed.

(** * Spent outputs *)

Definition coin_ok (c : SpentTxOut) : Prop :=
  amount_bound (st_Amount c) /\ script_bound (st_PkScript c) /\ is_int 32 (st_Height c).

Definition stxo_bytes (c : SpentTxOut) : bytes :=
  vlq (spentTxOutHeaderCode c) ++ (if 0 <? st_Height c then vlq 0 else []) ++ txout_bytes (st_Amount c) (st_PkScript c).

Lemma amount_uint c : coin_ok c -> uwrap 64 (st_Amount c) = st_Amount c.
Proof. intros (Ha & _). apply uwrap_id. unfold is_uint, amount_bound in *. lia. Qed.

Lemma amount_int c : coin_ok c -> swrap 64 (st_Amount c) = st_Amount c.
Proof. intros (Ha & _). apply swrap_id; [lia|]. unfold is_int, amount_bound in *. lia. Qed.

Lemma stxo_bytes_len c : coin_ok c -> len (stxo_bytes c) = spentTxOutSerializeSize c.
Proof.
  intros Hc. pose proof Hc as (Ha & Hs & Hh). unfold stxo_bytes, spentTxOutSerializeSize.
  rewrite !len_app, txout_bytes_len, amount_uint by done. rewrite serializeSizeVLQ_len by apply headerCode_uint.
  rewrite Z.add_assoc. do 2 f_equal. destruct (0 <? _); [|done]. by rewrite serializeSizeVLQ_len by (unfold is_uint; lia).
Qed.

Lemma putSpentTxOut_spec c zeros : coin_ok c -> len (stxo_bytes c) <= len zeros ->
  putSpentTxOut zeros c = Ok (stxo_bytes c ++ drop (length (stxo_bytes c)) zeros, len (stxo_bytes c)).
Proof.
  intros Hc Hl. pose proof Hc as (Ha & Hs & Hh). unfold putSpentTxOut, stxo_bytes in *. rewrite amount_uint by done.
  set (t := txout_bytes _ _) in *. set (v := vlq _) in *. rewrite !len_app in Hl.
  pose proof (len_nonneg t). pose proof (len_nonneg (if 0 <? st_Height c then vlq 0 else [])).
  rewrite putVLQ_app by (apply headerCode_uint || (fold v; lia)). fold v. cbn [mbind outcome_bind].
  assert (Hput : forall pre z, len t <= len z ->
    put_from (len pre) (pre ++ z) (fun t => putCompressedTxOut t (st_Amount c) (st_PkScript c)) =
    Ok ((pre ++ t) ++ drop (length t) z, len (pre ++ t))).
  { intros pre z Hz. apply put_from_app. by apply putCompressedTxOut_spec. }
  destruct (0 <? st_Height c).
  - rewrite put_from_app with (enc := vlq 0) by (try apply putVLQ_app; unfold is_uint, len in *; rewrite ?length_drop; lia).
    cbn [mbind outcome_bind]. rewrite Hput by (unfold len in *; rewrite !length_drop; lia).
    rewrite !drop_drop, !length_app, <-!app_assoc. by rewrite Nat.add_assoc.
  - cbn [mbind outcome_bind]. rewrite Hput by (unfold len in *; rewrite length_drop; lia).
    by rewrite drop_drop, !length_app, <-!app_assoc.
Qed.

Lemma vlq_nonempty n : 1 <= len (vlq n).
Proof. apply vlq_len_bounds. Qed.

(** The first VLQ of a slice, with something after it. *)
Lemma vlq_head n rest : is_uint 64 n -> 0 < len rest ->
  deserializeVLQ (vlq n ++ rest) = (n, len (vlq n)) /\ (len (vlq n ++ rest) <=? len (vlq n)) = false /\
  drop (Z.to_nat (len (vlq n))) (vlq n ++ rest) = rest.
Proof.
  intros Hn Hr. rewrite deserializeVLQ_vlq, len_app, to_nat_len, drop_app_length by done. split_and!; [done|apply Z.leb_gt; lia|done].
Qed.

Lemma decodeSpentTxOut_spec c rest : coin_ok c -> decodeSpentTxOut (stxo_bytes c ++ rest) = Ok (len (stxo_bytes c), inl c).
Proof.
  intros Hc. pose proof Hc as (Ha & Hs & Hh). unfold decodeSpentTxOut, stxo_bytes. rewrite <-!app_assoc.
  set (t := txout_bytes _ _). assert (Ht : 0 < len t) by by apply txout_bytes_nonempty.
  pose proof (len_nonneg rest). set (mid := if 0 <? st_Height c then vlq 0 else []). pose proof (len_nonneg mid).
  destruct (vlq_head (spentTxOutHeaderCode c) (mid ++ t ++ rest)) as (-> & Hlt & Hd); [apply headerCode_uint|rewrite !len_app; lia|].
  pose proof (vlq_nonempty (spentTxOutHeaderCode c)).
  rewrite (proj2 (Z.eqb_neq _ 0)) by (rewrite !len_app; lia). rewrite Hlt. unfold spentTxOutHeaderCode.
  rewrite headerCode_flag, headerCode_height by done. fold (spentTxOutHeaderCode c). set (v := vlq (spentTxOutHeaderCode c)) in *.
  assert (Hoff : (if 0 <? st_Height c then len v + snd (deserializeVLQ (drop (Z.to_nat (len v)) (v ++ mid ++ t ++ rest))) else len v) = len (v ++ mid)).
  { rewrite Hd, len_app. subst mid. destruct (0 <? st_Height c); [|rewrite len_nil; lia]. by rewrite deserializeVLQ_vlq by (unfold is_uint; lia). }
  cbv zeta. rewrite Hoff. rewrite (app_assoc v), to_nat_len, drop_app_length, (len_app (v ++ mid)), (proj2 (Z.leb_gt _ _)) by (rewrite !len_app; lia).
  rewrite andb_false_r. unfold t. rewrite decodeCompressedTxOut_spec by done. cbn [mbind outcome_bind]. fold t.
  rewrite amount_int by done. rewrite (app_assoc v), (len_app (v ++ mid)). by destruct c.
Qed.

(** * The spend journal *)

Definition journal_bytes (l : list SpentTxOut) : bytes := concat (map stxo_bytes l).

Lemma put_stxos_spec l : forall pre zeros, Forall coin_ok l -> len (journal_bytes l) = len zeros ->
  put_stxos l (len pre) (pre ++ zeros) = Ok (pre ++ journal_bytes l).
Proof.
  induction l as [|c l IH]; intros pre zeros Hok Hl.
  - rewrite (len_zero_nil zeros) by (symmetry; exact Hl). done.
  - apply Forall_cons in Hok as [Hc Hok]. unfold journal_bytes in *. cbn [map concat put_stxos] in *.
    rewrite len_app in Hl. pose proof (len_nonneg (concat (map stxo_bytes l))).
    rewrite put_from_app with (enc := stxo_bytes c) by (try apply putSpentTxOut_spec; done || lia). cbn [mbind outcome_bind].
    rewrite IH by (done || (unfold len in *; rewrite length_drop; lia)). by rewrite app_assoc.
Qed.

Lemma journal_size l : Forall coin_ok l -> foldr (fun stxo n => spentTxOutSerializeSize stxo + n) 0 l = len (journal_bytes (rev l)).
Proof.
  induction 1 as [|c l Hc _ IH]; [done|]. cbn [foldr rev]. unfold journal_bytes in *.
  rewrite IH, map_app, concat_app, len_app, <-stxo_bytes_len by done. cbn. rewrite app_nil_r. lia.
Qed.

Lemma journal_nonempty l : Forall coin_ok l -> l <> [] -> 0 < len (journal_bytes l).
Proof.
  intros Hok Hne. destruct Hok as [|c l (Ha & Hs & _) _]; [done|]. unfold journal_bytes. cbn [map concat]. unfold stxo_bytes at 1. rewrite !len_app.
  pose proof (txout_bytes_nonempty (st_Amount c) (st_PkScript c)). pose proof (len_nonneg (concat (map stxo_bytes l))).
  pose proof (len_nonneg (vlq (spentTxOutHeaderCode c))). pose proof (len_nonneg (if 0 <? st_Height c then vlq 0 else [])). lia.
Qed.

Lemma serialize_journal l : Forall coin_ok l -> serializeSpendJournalEntry l = Ok (journal_bytes (rev l)).
Proof.
  intros Hok. unfold serializeSpendJournalEntry. destruct (Z.eqb_spec (len l) 0) as [E|E].
  - by rewrite (len_zero_nil l E).
  - rewrite journal_size by done. apply (put_stxos_spec (rev l) []); [by apply Forall_rev|].
    unfold len. rewrite length_replicate. lia.
Qed.

Lemma decode_stxos_spec l : forall pre acc, Forall coin_ok l ->
  decode_stxos (length l) (pre ++ journal_bytes l) (len pre) acc = Ok (rev l ++ acc).
Proof.
  induction l as [|c l IH]; intros pre acc Hok; [done|]. apply Forall_cons in Hok as [Hc Hok]. cbn [length decode_stxos].
  assert (Hs : slice (pre ++ journal_bytes (c :: l)) (len pre) (len (pre ++ journal_bytes (c :: l))) = Ok (journal_bytes (c :: l))).
  { pose proof (slice_exact pre (journal_bytes (c :: l)) []) as Hs. rewrite app_nil_r in Hs. apply Hs; rewrite ?len_app; lia. }
  rewrite Hs. cbn [mbind outcome_bind]. unfold journal_bytes. cbn [map concat]. rewrite decodeSpentTxOut_spec by done.
  cbn [mbind outcome_bind]. rewrite <-len_app, app_assoc. fold (journal_bytes l). rewrite IH by done. cbn. by rewrite <-app_assoc.
Qed.

Lemma deserialize_journal l txns : Forall coin_ok l -> num_stxos txns = length l ->
  deserializeSpendJournalEntry (journal_bytes (rev l)) txns = Ok l.
Proof.
  intros Hok Hn. unfold deserializeSpendJournalEntry. rewrite Hn. destruct (decide (l = [])) as [->|Hne]; [done|].
  rewrite (proj2 (Z.eqb_neq _ 0)).
  - rewrite <-length_rev. etransitivity; [apply (decode_stxos_spec (rev l) [] []); by apply Forall_rev|]. by rewrite rev_involutive, app_nil_r.
  - pose proof (journal_nonempty (rev l)) as Hj. cut (0 < len (journal_bytes (rev l))); [lia|]. apply Hj; [by apply Forall_rev|].
    intros E. apply (f_equal (@rev _)) in E. by rewrite rev_involutive in E.
Qed.
