(* ===== verification/StoreUtxo.v ===== *)
(** The set of unspent outputs in the database: what node/chaindata/chaindb_io.go stores
    represents the abstract set of UtxoSet.v, views loaded from it are coherent with it, and
    writing a view back represents the set the view stands for. *)

From stdpp Require Import gmap fin_maps.
From S2P Require Import Prelude Big WireEncoding WireTx Chainhash WireHeader WireMsg Script Compress Utxo UtxoSet ChainStore StoreFacts.

(** * Keys *)

Definition op_ok (o : OutPoint) : Prop := len (Op_Hash o) = HashSize /\ is_uint 32 (Op_Index o).

Definition key_of (o : OutPoint) : bytes := Op_Hash o ++ vlq (Op_Index o).

Lemma index_uint o : op_ok o -> is_uint 64 (Op_Index o).
Proof. unfold op_ok, is_uint. lia. Qed.

Lemma outpointKey_spec o : op_ok o -> outpointKey o = Ok (key_of o).
Proof.
  intros Ho. pose proof (index_uint o Ho) as Hi. unfold outpointKey. rewrite serializeSizeVLQ_len, to_nat_len by done.
  rewrite putVLQ_app by (done || (rewrite len_replicate_nat; done)). cbn [mbind outcome_bind].
  by rewrite drop_ge, app_nil_r by (by rewrite length_replicate).
Qed.

Lemma keyToOutpoint_spec o : op_ok o -> keyToOutpoint (key_of o) = Ok o.
Proof.
  intros Ho. pose proof Ho as [Hh Hi]. unfold keyToOutpoint, key_of.
  pose proof (slice_exact [] (Op_Hash o) (vlq (Op_Index o)) 0 HashSize) as Hs. cbn [app] in Hs. rewrite Hs by (rewrite ?len_nil; done).
  pose proof (slice_exact (Op_Hash o) (vlq (Op_Index o)) [] HashSize (len (Op_Hash o ++ vlq (Op_Index o)))) as Hr.
  rewrite app_nil_r in Hr. cbn [mbind outcome_bind]. rewrite Hr by (rewrite ?len_app; lia). cbn [mbind outcome_bind].
  pose proof (deserializeVLQ_vlq (Op_Index o) [] (index_uint o Ho)) as Hd. rewrite app_nil_r in Hd. rewrite Hd. cbn [fst].
  rewrite uwrap_id by done. by destruct o.
Qed.

Lemma key_inj o o' : op_ok o -> op_ok o' -> key_of o = key_of o' -> o = o'.
Proof. intros Ho Ho' E. pose proof (keyToOutpoint_spec o Ho) as H. rewrite E, keyToOutpoint_spec in H by done. by injection H. Qed.

Lemma key_nonempty o : op_ok o -> (len (key_of o) =? 0) = false.
Proof.
  intros [Hh _]. unfold key_of. rewrite len_app, Hh. pose proof (len_nonneg (vlq (Op_Index o))). apply Z.eqb_neq. unfold HashSize. lia.
Qed.

(** * Entries *)

Definition entry_bytes (c : SpentTxOut) : bytes :=
  vlq (spentTxOutHeaderCode c) ++ txout_bytes (st_Amount c) (st_PkScript c).

Definition entry_of (c : SpentTxOut) : UtxoEntry :=
  {| entry_amount := st_Amount c; entry_pkScript := st_PkScript c; entry_blockHeight := st_Height c;
     packedFlags := if st_IsCoinBase c then Z.lor 0 tfCoinBase else 0 |}.

Lemma coin_of_entry c : coin_of (Some (entry_of c)) = Some c.
Proof. by destruct c as [a s h [|]]. Qed.

Lemma entry_bytes_nonempty c : 0 < len (entry_bytes c).
Proof.
  unfold entry_bytes. rewrite len_app. pose proof (txout_bytes_nonempty (st_Amount c) (st_PkScript c)).
  pose proof (len_nonneg (vlq (spentTxOutHeaderCode c))). lia.
Qed.

Lemma serialize_entry e : IsSpent e = false -> coin_ok (stxo_of e) -> serializeUtxoEntry e = Ok (Some (entry_bytes (stxo_of e))).
Proof.
  intros Hsp Hc. pose proof Hc as (Ha & Hs & _). unfold serializeUtxoEntry, utxoEntryHeaderCode. rewrite Hsp. cbn [mbind outcome_bind].
  change (headerCode (entry_blockHeight e) (Entry_IsCoinBase e)) with (spentTxOutHeaderCode (stxo_of e)).
  change (entry_amount e) with (st_Amount (stxo_of e)). change (entry_pkScript e) with (st_PkScript (stxo_of e)).
  rewrite amount_uint by done. set (c := stxo_of e) in *.
  assert (Hl : serializeSizeVLQ (spentTxOutHeaderCode c) + compressedTxOutSize (st_Amount c) (st_PkScript c) = len (entry_bytes c)).
  { unfold entry_bytes. by rewrite len_app, txout_bytes_len, serializeSizeVLQ_len by (done || apply headerCode_uint). }
  rewrite Hl, to_nat_len. unfold entry_bytes. set (v := vlq _). set (t := txout_bytes _ _).
  rewrite putVLQ_app by (apply headerCode_uint || (fold v; rewrite len_replicate_nat, length_app; unfold len; lia)).
  fold v. cbn [mbind outcome_bind]. rewrite drop_replicate, length_app. replace (length v + length t - length v)%nat with (length t) by lia.
  rewrite put_from_app with (enc := t).
  - cbn [mbind outcome_bind]. by rewrite drop_ge, app_nil_r by by rewrite length_replicate.
  - apply putCompressedTxOut_spec; [done..|]. fold t. by rewrite len_replicate_nat.
Qed.

Lemma deserialize_entry c : coin_ok c -> DeserializeUtxoEntry (entry_bytes c) = Ok (entry_of c).
Proof.
  intros Hc. pose proof Hc as (Ha & Hs & Hh). unfold DeserializeUtxoEntry, entry_bytes. set (t := txout_bytes _ _).
  destruct (vlq_head (spentTxOutHeaderCode c) t) as (-> & -> & ->); [apply headerCode_uint|apply txout_bytes_nonempty|].
  unfold spentTxOutHeaderCode. rewrite headerCode_flag, headerCode_height by done.
  rewrite <-(app_nil_r t). unfold t. rewrite decodeCompressedTxOut_spec by done. cbn [mbind outcome_bind]. by rewrite amount_int.
Qed.

(** * The bucket of unspent outputs *)

(** The bucket holds the entries of a set of unspent outputs. *)
Definition represents (b : bucket) (U : utxo_set) : Prop :=
  forall o, op_ok o -> b !! key_of o = entry_bytes <$> U !! o.

Definition coins_ok (U : utxo_set) : Prop := map_Forall (fun _ c => coin_ok c) U.

(** A database whose bucket of unspent outputs represents a set. *)
Definition stores (tx : dbTx) (U : utxo_set) : Prop :=
  exists b, meta_buckets tx !! UtxoSetBucketName = Some b /\ represents b U.

Lemma fetch_stored tx U o : stores tx U -> coins_ok U -> op_ok o -> FetchUtxoEntry o tx = Ok (entry_of <$> U !! o).
Proof.
  intros (b & Hb & Hr) Hok Ho. unfold FetchUtxoEntry, get_in, Bucket. rewrite outpointKey_spec by done. cbn [mbind outcome_bind].
  rewrite Hb. cbn [mbind outcome_bind]. unfold bucket_Get. rewrite key_nonempty, Hr by done.
  destruct (U !! o) as [c|] eqn:E; [|done]. cbn [fmap option_fmap option_map]. pose proof (entry_bytes_nonempty c).
  assert (Hc : coin_ok c) by by eapply Hok. rewrite (proj2 (Z.eqb_neq _ 0)) by lia. by rewrite deserialize_entry by done.
Qed.

(** * Coherent views *)

(** An entry that is not modified agrees with the database. *)
Definition entry_fine (U : utxo_set) (o : OutPoint) (entry : option UtxoEntry) : Prop :=
  op_ok o /\
  match entry with
  | None => U !! o = None
  | Some e => (IsSpent e = false -> coin_ok (stxo_of e)) /\ (isModified e = false -> coin_of (Some e) = U !! o)
  end.

Definition coherent (U : utxo_set) (view : UtxoViewpoint) : Prop := map_Forall (entry_fine U) (entries view).

(** What the loop leaves at a key: the coin of a modified entry, or what was there. *)
Definition written (entry : option (option UtxoEntry)) (old : option bytes) : option bytes :=
  match entry with
  | Some (Some e) => if isModified e then entry_bytes <$> coin_of (Some e) else old
  | _ => old
  end.

Lemma put_utxo_spec U o entry b : entry_fine U o entry ->
  exists b', put_utxo o entry b = Ok b' /\ b' !! key_of o = written (Some entry) (b !! key_of o) /\
    forall k, k <> key_of o -> b' !! k = b !! k.
Proof.
  intros [Ho He]. unfold put_utxo, written, coin_of. destruct entry as [e|]; [|by exists b].
  destruct (isModified e); cbn [negb]; [|by exists b]. destruct He as [Hc _]. destruct (IsSpent e) eqn:Es.
  - rewrite outpointKey_spec by done. cbn [mbind outcome_bind]. eexists. split; [done|]. unfold bucket_Delete. rewrite key_nonempty by done.
    split; [by rewrite lookup_delete_eq|]. intros k Hk. by rewrite lookup_delete_ne.
  - rewrite serialize_entry, outpointKey_spec by auto. cbn [mbind outcome_bind default]. unfold bucket_Put. rewrite key_nonempty by done.
    eexists. split; [done|]. split; [by rewrite lookup_insert_eq|]. intros k Hk. by rewrite lookup_insert_ne.
Qed.

Lemma put_utxos_spec U l : forall b, NoDup l.*1 -> Forall (fun oe => entry_fine U oe.1 oe.2) l ->
  exists b', put_utxos l b = Ok b' /\ forall o, op_ok o -> b' !! key_of o = written ((list_to_map l : gmap _ _) !! o) (b !! key_of o).
Proof.
  induction l as [|[o e] l IH]; intros b Hn Hl; [by exists b|]. cbn in Hn. apply NoDup_cons in Hn as [Hni Hn].
  apply Forall_cons in Hl as [He Hl]. cbn in He. destruct (put_utxo_spec U o e b He) as (b1 & E1 & Ho & Hk). cbn [put_utxos]. rewrite E1. cbn [mbind outcome_bind].
  destruct (IH b1 Hn Hl) as (b2 & E2 & Hb). exists b2. split; [done|]. intros o' Ho'. rewrite Hb by done. cbn [list_to_map foldr uncurry].
  destruct (decide (o = o')) as [->|Hne].
  - rewrite lookup_insert_eq, not_elem_of_list_to_map_1 by done. exact Ho.
  - rewrite lookup_insert_ne by done. rewrite Hk; [done|]. intros Ek. apply Hne. symmetry. eapply key_inj; [done|apply He|done].
Qed.

(** Writing a view to the database, in any order of its entries. *)
Lemma put_view U view order tx : stores tx U -> coherent U view -> order ≡ₚ map_to_list (entries view) ->
  exists tx', PutUtxoView order tx = Ok tx' /\ stores tx' (utxos U view) /\
    forall name, name <> UtxoSetBucketName -> meta_buckets tx' !! name = meta_buckets tx !! name.
Proof.
  intros (b & Hb & Hr) Hc Hp. unfold PutUtxoView, Bucket. rewrite Hb. cbn [mbind outcome_bind].
  assert (Hn : NoDup order.*1) by (rewrite Hp; apply NoDup_fst_map_to_list).
  assert (Hf : Forall (fun oe => entry_fine U oe.1 oe.2) order).
  { rewrite Hp. apply Forall_forall. intros [o e] Hi. apply elem_of_map_to_list in Hi. by apply (Hc o e). }
  destruct (put_utxos_spec U order b Hn Hf) as (b' & E & Hb'). rewrite E. cbn [mbind outcome_bind]. eexists. split; [done|]. split.
  - exists b'. split; [cbn; by rewrite lookup_insert_eq|]. intros o Ho. rewrite Hb' by done.
    rewrite (list_to_map_proper order (map_to_list (entries view)) Hn Hp), list_to_map_to_list, Hr, utxos_lookup by done.
    destruct (entries view !! o) as [e|] eqn:Ee; [|done]. destruct (Hc o e Ee) as [_ He]. destruct e as [e|]; cbn; [|by rewrite He].
    destruct (isModified e); [done|]. destruct He as [_ He]. by rewrite <-He.
  - intros name Hne. cbn. by rewrite lookup_insert_ne.
Qed.
