(* ===== verification/StoreReorg.v ===== *)
(** Blocks, views and the database together: the operations of a view keep it coherent with
    the database it was loaded from, and a block that is connected, stored, read back and
    disconnected leaves the set of unspent outputs the database stands for as it was. *)

From stdpp Require Import gmap fin_maps.
From S2P Require Import Prelude Big WireEncoding WireTx Chainhash WireHeader WireMsg Script Standard Compress Utxo UtxoSet ChainStore StoreFacts StoreUtxo.

(** * Coherence *)

Lemma coherent_put U o e view : coherent U view -> entry_fine U o (Some e) -> coherent U (put_entry o e view).
Proof. intros Hc He. by apply map_Forall_insert_2. Qed.

Lemma put_put o a b view : put_entry o a (put_entry o b view) = put_entry o a view.
Proof. unfold put_entry, set_entries. cbn. by rewrite insert_insert_eq. Qed.

Lemma lookup_fine U view o e : coherent U view -> LookupEntry view o = Some e -> entry_fine U o (Some e).
Proof.
  unfold LookupEntry. intros Hc He. destruct (entries view !! o) as [[e'|]|] eqn:E; [|done..]. injection He as ->. by apply Hc.
Qed.

Lemma spend_modified e : IsSpent e = false -> isModified (Spend e) = true.
Proof.
  intros E. unfold Spend. rewrite E. unfold isModified, with_flags. cbn [packedFlags]. rewrite Z.land_lor_distr_l.
  change (Z.land (Z.lor tfSpent tfModified) tfModified) with tfModified. apply Z.eqb_eq, Z.bits_inj'. intros n _.
  rewrite Z.lor_spec, Z.land_spec. by destruct (Z.testbit (packedFlags e) n), (Z.testbit tfModified n).
Qed.

Lemma spend_fine U o e : op_ok o -> IsSpent e = false \/ entry_fine U o (Some e) -> entry_fine U o (Some (Spend e)).
Proof.
  intros Ho He. destruct (IsSpent e) eqn:E.
  - destruct He as [|He]; [done|]. unfold Spend. by rewrite E.
  - split; [done|]. rewrite spend_spent, spend_modified by done. done.
Qed.

Lemma modified_fine U o e : op_ok o -> isModified e = true -> coin_ok (stxo_of e) -> entry_fine U o (Some e).
Proof. intros Ho Hm Hc. split; [done|]. by rewrite Hm. Qed.

Definition out_ok (out : TxOut) : Prop := amount_bound (Value out) /\ script_bound (PkScript out).
Definition tx_ok (tx : MsgTx) : Prop :=
  Forall out_ok (Tx_TxOut tx) /\ Forall (fun ti => op_ok (PreviousOutPoint ti)) (Tx_TxIn tx).

Section views.
Context `{HashFunction} `{NetText} `{RandomId}.
Context (U : utxo_set) (height : Z) (Hheight : is_int 32 height).

Lemma len_TxHash tx : len (TxHash tx) = HashSize.
Proof. apply sha256_size. Qed.

Lemma hash_op_ok tx i : op_ok {| Op_Hash := TxHash tx; Op_Index := uwrap 32 i |}.
Proof. split; cbn; [apply len_TxHash|by apply uwrap_range]. Qed.

Lemma addTxOut_coherent o out cb view : coherent U view -> op_ok o -> out_ok out -> coherent U (addTxOut o out cb height view).
Proof.
  intros Hc Ho [Ha Hs]. unfold addTxOut. destruct (IsUnspendable _); [done|]. apply coherent_put; [done|].
  apply modified_fine; [done|by destruct cb|]. by split_and!.
Qed.

Lemma add_outs_coherent tx cb outs : forall i view, coherent U view -> Forall out_ok outs ->
  coherent U (add_outs (TxHash tx) cb height i outs view).
Proof.
  induction outs as [|out outs IH]; intros i view Hc Ho; [done|]. apply Forall_cons in Ho as [Ho Hos]. cbn.
  apply IH; [|done]. apply addTxOut_coherent; [done|apply hash_op_ok|done].
Qed.

Lemma spend_ins_coherent ins : forall view st view' st', coherent U view ->
  spend_ins ins view st = Ok (view', st') -> coherent U view'.
Proof.
  induction ins as [|ti ins IH]; intros view st view' st' Hc; cbn [spend_ins]; [by intros [= <- <-]|].
  destruct (LookupEntry view (PreviousOutPoint ti)) as [e|] eqn:E; [|done]. apply IH. pose proof (lookup_fine U view _ e Hc E) as He.
  apply coherent_put; [done|]. apply spend_fine; [apply He|by right].
Qed.

Lemma swap_ins_coherent tx ins : forall i outs view st view' st', coherent U view -> Forall out_ok outs ->
  connect_swap_ins tx height i ins outs view st = Ok (view', st') -> coherent U view'.
Proof.
  induction ins as [|ti ins IH]; intros i outs view st view' st' Hc Ho; cbn [connect_swap_ins]; [by intros [= <- <-]|].
  destruct (LookupEntry view (PreviousOutPoint ti)) as [e|] eqn:E.
  - destruct Ho as [|out outs Ho Hos]; [done|]. apply IH; [|done]. apply addTxOut_coherent; [|apply hash_op_ok|done].
    pose proof (lookup_fine U view _ e Hc E) as He. apply coherent_put; [done|]. apply spend_fine; [apply He|by right].
  - apply IH; [done|]. by destruct Ho.
Qed.

Lemma ead_connect_coherent tx view view' : coherent U view -> connectEADTransaction tx view = Ok view' -> coherent U view'.
Proof.
  intros Hc. unfold connectEADTransaction. destruct (negb (beacon view)); [by intros [= <-]|].
  destruct (ead_register _ _ _ _); cbn; [by intros [= <-]|done..].
Qed.

Lemma ead_disconnect_coherent st view view' : coherent U view -> disconnectEADAddresses st view = Ok view' -> coherent U view'.
Proof.
  intros Hc. unfold disconnectEADAddresses. destruct st as [l|]; [|by intros [= <-]].
  destruct (ead_revoke _ _); cbn; [by intros [= <-]|done..].
Qed.

Lemma connect_coherent tx view st view' st' : coherent U view -> tx_ok tx ->
  ConnectTransaction tx height view st = Ok (view', st') -> coherent U view'.
Proof.
  intros Hc [Ho _]. unfold ConnectTransaction. destruct (IsCoinBase tx).
  { intros [= <- <-]. by apply add_outs_coherent. }
  destruct (SwapTx tx).
  { unfold connectSwapTransaction. destruct (ValidateSwapTxStructure _ _); cbn; [|done..]. by apply swap_ins_coherent. }
  set (m := if Version tx =? TxVerEADAction then _ else _).
  assert (Hm : forall v, m = Ok v -> coherent U v).
  { unfold m. destruct (Version tx =? TxVerEADAction); [intros v; by apply ead_connect_coherent|by intros v [= <-]]. }
  destruct m as [v| |]; cbn; [|done..]. specialize (Hm v eq_refl). destruct (spend_ins _ _ _) as [[v1 st1]| |] eqn:Es; cbn; [|done..].
  apply spend_ins_coherent in Es; [|done]. destruct (disconnectEADAddresses _ _) as [v2| |] eqn:Ed; cbn; [|done..]. intros [= <- <-].
  eapply ead_disconnect_coherent; [|exact Ed]. by apply add_outs_coherent.
Qed.

Lemma connect_txs_coherent txs : forall view st view' st', coherent U view -> Forall tx_ok txs ->
  connect_txs height txs view st = Ok (view', st') -> coherent U view'.
Proof.
  induction txs as [|tx txs IH]; intros view st view' st' Hc Ht; cbn [connect_txs]; [by intros [= <- <-]|].
  apply Forall_cons in Ht as [Ht Hts]. destruct (ConnectTransaction _ _ _ _) as [[v st1]| |] eqn:E; cbn; [|done..].
  apply IH; [|done]. by eapply connect_coherent.
Qed.

(** ** Disconnecting *)

Lemma spend_outs_coherent tx flags outs : forall i view, flags = 0 \/ flags = tfCoinBase -> coherent U view ->
  coherent U (spend_outs (TxHash tx) flags height i outs view).
Proof.
  induction outs as [|out outs IH]; intros i view Hf Hc; [done|]. cbn. apply IH; [done|]. destruct (IsUnspendable _); [done|].
  apply coherent_put; [done|]. apply spend_fine; [apply hash_op_ok|].
  destruct (LookupEntry view _) as [e|] eqn:E; [right; by eapply lookup_fine|left]. by destruct Hf as [-> | ->].
Qed.

Lemma restored_fine o c : op_ok o -> coin_ok c -> entry_fine U o (Some (restored c)).
Proof. intros Ho Hc. apply modified_fine; [done|by destruct c as [a s h [|]]|]. by destruct c as [a s h [|]]. Qed.

Lemma index_stxo_in l i c : index_stxo l i = Ok c -> c ∈ l.
Proof.
  unfold index_stxo. destruct (i <? 0); [done|]. destruct (l !! Z.to_nat i) eqn:E; [|done]. intros [= <-]. by eapply list_elem_of_lookup_2.
Qed.

Lemma restore_ins_coherent fetch hash l rins : Forall (fun c => coin_ok c /\ st_Height c <> 0) l ->
  forall i view view' j l', Forall (fun ti => op_ok (PreviousOutPoint ti)) rins -> coherent U view ->
  restore_ins fetch hash rins l i view = Ok (view', j, l') -> coherent U view' /\ l' = l.
Proof.
  intros Hl. induction rins as [|ti rins IH]; intros i view view' j l' Ho Hc; cbn [restore_ins]; [by intros [= <- <- <-]|].
  apply Forall_cons in Ho as [Ho Hos]. unfold restore_in. destruct (index_stxo l i) as [c| |] eqn:Ei; cbn [mbind outcome_bind]; [|done..].
  apply index_stxo_in in Ei. rewrite Forall_forall in Hl. apply Hl in Ei as [Hok Hh].
  rewrite (proj2 (Z.eqb_neq _ 0)) by done. cbn [mbind outcome_bind]. apply IH; [done|].
  destruct (LookupEntry view (PreviousOutPoint ti)); rewrite ?put_put; (apply coherent_put; [done|by apply restored_fine]).
Qed.

Lemma disconnect_txs_coherent fetch l rtxs : Forall (fun c => coin_ok c /\ st_Height c <> 0) l ->
  forall i view view' l', Forall tx_ok rtxs -> coherent U view ->
  disconnect_txs fetch height rtxs l i view = Ok (view', l') -> coherent U view'.
Proof.
  intros Hl. induction rtxs as [|tx rtxs IH]; intros i view view' l' Ht Hc; cbn [disconnect_txs]; [by intros [= <- <-]|].
  apply Forall_cons in Ht as [[_ Hi] Ht].
  assert (Hs : forall flags, flags = 0 \/ flags = tfCoinBase -> coherent U (spend_outs (TxHash tx) flags height 0 (Tx_TxOut tx) view))
    by (intros; by apply spend_outs_coherent).
  destruct rtxs as [|tx' rtxs]; [intros [= <- <-]; apply Hs; by right|].
  destruct (restore_ins _ _ _ _ _ _) as [[[v j] l2]| |] eqn:E; cbn [mbind outcome_bind]; [|done..].
  eapply (restore_ins_coherent fetch) in E as [Hv ->]; [by apply IH|exact Hl|by apply Forall_rev|apply Hs; by left].
Qed.

(** * Coins that can be stored *)

Lemma coins_ok_utxos view : coins_ok U -> coherent U view -> coins_ok (utxos U view).
Proof.
  intros HU Hc o c. rewrite utxos_lookup. destruct (entries view !! o) as [[e|]|] eqn:E; [|done|apply HU].
  destruct (Hc o _ E) as (_ & He & _). unfold coin_of. destruct (IsSpent e); [done|]. intros [= <-]. by apply He.
Qed.
End views.

Section coins.
Context `{HashFunction} `{NetText} `{RandomId}.
Context (height : Z) (Hheight : is_int 32 height).

Lemma coins_ok_add hash cb outs : forall i U, Forall out_ok outs -> coins_ok U -> coins_ok (add_coins hash cb height i outs U).
Proof.
  induction outs as [|out outs IH]; intros i U Ho HU; [done|]. apply Forall_cons in Ho as [[Ha Hs] Ho]. cbn. apply IH; [done|].
  destruct (IsUnspendable _); [done|]. apply map_Forall_insert_2; [|done]. by split_and!.
Qed.

Lemma coins_ok_remove ins : forall U, coins_ok U -> coins_ok (remove_ins ins U).
Proof.
  unfold remove_ins. induction ins as [|ti ins IH]; intros U HU; [done|]. apply IH. by apply map_Forall_delete.
Qed.

Lemma coins_ok_apply tx U : tx_ok tx -> coins_ok U -> coins_ok (apply_tx height tx U).
Proof.
  intros [Ho _] HU. apply coins_ok_add; [done|]. destruct (IsCoinBase tx); [done|]. by apply coins_ok_remove.
Qed.

Lemma coins_ok_apply_txs txs : forall U, Forall tx_ok txs -> coins_ok U -> coins_ok (apply_txs height txs U).
Proof.
  induction txs as [|tx txs IH]; intros U Ht HU; [done|]. apply Forall_cons in Ht as [Ht Hts]. apply IH; [done|]. by apply coins_ok_apply.
Qed.

Lemma all_spent_ok txs : forall U, Forall tx_ok txs -> coins_ok U -> valid_txs height txs U ->
  Forall (fun c => coin_ok c /\ st_Height c <> 0) (all_spent height txs U).
Proof.
  induction txs as [|tx txs IH]; intros U Ht HU Hv; [constructor|]. apply Forall_cons in Ht as [Ht Hts].
  destruct Hv as (_ & [_ Hh] & _ & Hv). cbn. apply Forall_app. split; [|apply IH; [done|by apply coins_ok_apply|done]].
  apply Forall_and. split; [|exact Hh]. unfold spent_coins. destruct (IsCoinBase tx); [constructor|].
  apply Forall_forall. intros c Hc. apply list_elem_of_omap in Hc as (ti & _ & Hc). by apply (HU _ _ Hc).
Qed.

(** The journal has an entry for each input of the transactions after the coinbase. *)
Lemma num_stxos_spent txs : forall U, Forall (fun tx => IsCoinBase tx = false) txs -> valid_txs height txs U ->
  num_stxos txs = length (all_spent height txs U).
Proof.
  induction txs as [|tx txs IH]; intros U Hn Hv; [done|]. apply Forall_cons in Hn as [Hn Hns]. destruct Hv as (_ & [Hi _] & _ & Hv).
  change (num_stxos (tx :: txs)) with (length (Tx_TxIn tx) + num_stxos txs)%nat. cbn [all_spent]. rewrite length_app, (IH (apply_tx height tx U)) by done. by destruct (spent_coins_each tx U Hn Hi) as [-> _].
Qed.
End coins.

(** * The journal in the database *)

Lemma journal_stored hash l tx b : (len hash =? 0) = false -> Forall coin_ok l ->
  meta_buckets tx !! SpendJournalBucketName = Some b ->
  exists tx', PutSpendJournalEntry hash l tx = Ok tx' /\
    (forall cb txs, num_stxos txs = length l -> FetchSpendJournalEntry hash (cb :: txs) tx' = Ok l) /\
    forall name, name <> SpendJournalBucketName -> meta_buckets tx' !! name = meta_buckets tx !! name.
Proof.
  intros Hh Hl Hb. unfold PutSpendJournalEntry, put_in, Bucket. rewrite serialize_journal, Hb by done. cbn [mbind outcome_bind].
  unfold bucket_Put. rewrite Hh. cbn [mbind outcome_bind]. eexists. split; [done|]. split.
  - intros cb txs Hn. unfold FetchSpendJournalEntry, get_in, Bucket, set_bucket. cbn [meta_buckets]. rewrite lookup_insert_eq.
    cbn [mbind outcome_bind]. unfold bucket_Get. rewrite Hh, lookup_insert_eq. cbn [from_option id]. by rewrite deserialize_journal.
  - intros name Hne. unfold set_bucket. cbn [meta_buckets]. by rewrite lookup_insert_ne.
Qed.

Lemma stores_other tx tx' U : meta_buckets tx' !! UtxoSetBucketName = meta_buckets tx !! UtxoSetBucketName -> stores tx U -> stores tx' U.
Proof. intros E (b & Hb & Hr). exists b. by rewrite E. Qed.

(** * Loading *)

Section loading.
Context (tx : dbTx) (U : utxo_set) (Hst : stores tx U) (HU : coins_ok U).

Lemma fetched_fine o : op_ok o -> entry_fine U o (entry_of <$> U !! o).
Proof.
  intros Ho. split; [done|]. destruct (U !! o) as [c|] eqn:E; cbn [fmap option_fmap option_map]; [|done].
  rewrite coin_of_entry. split; [|done]. intros _. specialize (HU o c E). by destruct c as [a s h [|]].
Qed.

Lemma fetch_all_spec l : forall view, Forall op_ok l -> coherent U view ->
  exists view', fetch_all (fun o => FetchUtxoEntry o tx) l view = Ok view' /\ coherent U view' /\
    beacon view' = beacon view /\ eadAddresses view' = eadAddresses view /\
    forall o, entries view' !! o = if decide (o ∈ l) then Some (entry_of <$> U !! o) else entries view !! o.
Proof.
  induction l as [|o l IH]; intros view Hl Hc.
  - exists view. by split_and!.
  - apply Forall_cons in Hl as [Ho Hl]. cbn [fetch_all]. rewrite (fetch_stored tx U) by done. cbn [mbind outcome_bind].
    destruct (IH (set_entries (<[o:=entry_of <$> U !! o]> (entries view)) view) Hl) as (v & E & Hv & Hb & He & Hlk).
    { apply map_Forall_insert_2; [by apply fetched_fine|done]. }
    exists v. split_and!; [done..|]. intros o'. rewrite Hlk. cbn [set_entries entries].
    destruct (decide (o' ∈ l)); [by rewrite decide_True by by right|].
    destruct (decide (o = o')) as [->|Hne]; [by rewrite lookup_insert_eq, decide_True by by left|].
    rewrite lookup_insert_ne by done. rewrite decide_False; [done|]. set_solver.
Qed.

Lemma fetch_main_spec fetch_ead m X view : fetch_ead = Ok m -> set_Forall op_ok X -> coherent U view ->
  exists view', FetchUtxosMain (fun o => FetchUtxoEntry o tx) fetch_ead X view = Ok view' /\ coherent U view' /\
    forall o, entries view' !! o = if decide (o ∈ X) then Some (entry_of <$> U !! o) else entries view !! o.
Proof.
  intros -> Ho Hc. unfold FetchUtxosMain. destruct (bool_decide_reflect (X = ∅)) as [->|_].
  { exists view. split_and!; [done..|]. intros o. by rewrite decide_False by set_solver. }
  destruct (fetch_all_spec (elements X) view) as (v & E & Hv & _ & _ & Hlk); [|done|].
  { apply Forall_forall. intros o Hi. by apply Ho, elem_of_elements. }
  rewrite E. cbn [mbind outcome_bind].
  assert (Hlk' : forall o, entries v !! o = if decide (o ∈ X) then Some (entry_of <$> U !! o) else entries view !! o).
  { intros o. rewrite Hlk. by destruct (decide (o ∈ elements X)) as [Hi|Hi], (decide (o ∈ X)) as [Hj|Hj]; rewrite elem_of_elements in Hi. }
  destruct (negb (beacon v)); [by exists v|]. exists (set_ead m v). by split_and!.
Qed.
End loading.

(** * The properties *)

(** C17: Loading outputs into a view from a database that stores a set of unspent outputs.
    [FetchUtxos] does not fail, gives every output asked for an entry, keeps the entries the
    view had, keeps the view coherent with the database, and does not change the set the view
    stands for over it. *)
Theorem fetch_utxos_faithful tx U view ops fetch_ead m :
  stores tx U -> coins_ok U -> coherent U view -> set_Forall op_ok ops -> fetch_ead = Ok m ->
  exists view', FetchUtxos (fun o => FetchUtxoEntry o tx) fetch_ead ops view = Ok view' /\
    coherent U view' /\ utxos U view' = utxos U view /\ set_Forall (fun o => is_Some (entries view' !! o)) ops /\
    forall o e, entries view !! o = Some e -> entries view' !! o = Some e.
Proof.
  intros Hst HU Hc Ho He. unfold FetchUtxos. destruct (bool_decide_reflect (ops = ∅)) as [->|_].
  { exists view. by split_and!. }
  set (X := filter (fun o => entries view !! o = None) ops).
  destruct (fetch_main_spec tx U Hst HU fetch_ead m X view He) as (v & E & Hv & Hlk); [|done|].
  { intros o Hi. apply Ho. by apply elem_of_filter in Hi as [_ Hi]. }
  assert (HX : forall o, o ∈ X <-> entries view !! o = None /\ o ∈ ops) by (intros o; unfold X; by rewrite elem_of_filter).
  exists v. split_and!; [done..| | |].
  - apply map_eq. intros o. rewrite !utxos_lookup, Hlk. destruct (decide (o ∈ X)) as [Hi|]; [|done].
    apply HX in Hi as [-> _]. destruct (U !! o) as [c|]; [apply coin_of_entry|done].
  - intros o Hi. rewrite Hlk. destruct (decide (o ∈ X)) as [|Hn]; [done|].
    destruct (entries view !! o) eqn:Eo; [done|]. destruct Hn. by apply HX.
  - intros o e Eo. rewrite Hlk, decide_False; [done|]. rewrite HX, Eo. by intros [? _].
Qed.

Section reorg.
Context `{HashFunction} `{NetText} `{RandomId}.

(** C7: A block survives a reorganization.  The database stores a set [U], a view coherent
    with it stands for a set in which the block is valid: when [ConnectTransactions] succeeds, writing
    the view (in any order of its entries) and the spend journal succeeds, the database then
    stores the set with the block applied; the journal is read back, and from any view over
    the database that stands for what it stores, [DisconnectTransactions] with the journal
    and writing the view succeed and the database stores the set before the block. *)
Theorem reorg_roundtrip fetch hash prevHash height txs db U view view' stxos order journal :
  stores db U -> coins_ok U -> coherent U view ->
  meta_buckets db !! SpendJournalBucketName = Some journal -> (len hash =? 0) = false ->
  is_int 32 height -> Forall tx_ok txs -> valid_block height txs (utxos U view) ->
  ConnectTransactions hash height txs view (Some []) = Ok (view', Some stxos) ->
  order ≡ₚ map_to_list (entries view') ->
  let U' := apply_txs height txs (utxos U view) in
  exists db1 db2, PutUtxoView order db = Ok db1 /\ PutSpendJournalEntry hash stxos db1 = Ok db2 /\ stores db2 U' /\
    FetchSpendJournalEntry hash txs db2 = Ok stxos /\
    forall view2, coherent U' view2 -> utxos U' view2 = U' ->
    exists view3, DisconnectTransactions fetch height txs prevHash stxos view2 = Ok (view3, stxos) /\
    forall order', order' ≡ₚ map_to_list (entries view3) ->
    exists db3, PutUtxoView order' db2 = Ok db3 /\ stores db3 (utxos U view).
Proof.
  intros Hst HU Hc Hj Hh Hht Hok Hv Hcon Hp U'. destruct txs as [|cb txs]; [done|]. destruct Hv as (Hcb & Hn & Hv).
  unfold ConnectTransactions in Hcon. destruct (connect_txs _ _ _ _) as [[v st]| |] eqn:Ec; cbn [mbind outcome_bind] in Hcon; [|done..].
  injection Hcon as <- ->. pose proof (connect_txs_coherent U height Hht _ _ _ _ _ Hc Hok Ec) as Hcv.
  apply (connect_txs_coins U) in Ec as [Ev Est]; [|done]. set (coins := all_spent height (cb :: txs) (utxos U view)) in *.
  assert (stxos = coins) as -> by (injection Est as Est; exact Est).
  pose proof (coins_ok_utxos U view HU Hc) as HV. pose proof (all_spent_ok height Hht _ _ Hok HV Hv) as Hs. fold coins in Hs.
  destruct (put_view U _ order db Hst Hcv Hp) as (db1 & E1 & S1 & O1). rewrite Ev in S1. fold U' in S1.
  destruct (journal_stored hash coins db1 journal Hh) as (db2 & E2 & F2 & O2).
  { by apply (Forall_impl _ _ _ Hs); intros c [Hcc _]. } { by rewrite O1. }
  assert (S2 : stores db2 U') by (eapply stores_other; [|exact S1]; by apply O2).
  exists db1, db2. split_and!; [done..| |].
  - apply F2. unfold coins. cbn [all_spent]. unfold spent_coins at 1. rewrite Hcb. apply num_stxos_spent; [done|]. by destruct Hv as (_ & _ & _ & ?).
  - intros view2 Hc2 E. destruct (disconnect_txs_coins U' fetch height cb txs (utxos U view) [] view2 Hcb Hn Hv E) as (v3 & E3 & E4).
    fold coins in E3. rewrite app_nil_r in E3. exists (SetBestHash prevHash v3). split.
    + unfold DisconnectTransactions. rewrite (count_spent_coins height cb txs (utxos U view)) by done. fold coins. cbn [mbind outcome_bind].
      rewrite Z.eqb_refl. cbn [negb]. by rewrite E3.
    + intros order' Hp'. pose proof (disconnect_txs_coherent U' height fetch coins _ Hs _ _ _ _ (Forall_rev Hok) Hc2 E3) as Hc3.
      destruct (put_view U' (SetBestHash prevHash v3) order' db2 S2 Hc3 Hp') as (db3 & E5 & S3 & _). exists db3. split; [done|].
      by rewrite utxos_best, E4 in S3.
Qed.

End reorg.

(** * A concrete database *)

Lemma represents_empty : represents ∅ ∅.
Proof. intros o _. by rewrite !lookup_empty. Qed.

Lemma represents_insert b U o c : op_ok o -> represents b U -> represents (<[key_of o := entry_bytes c]> b) (<[o := c]> U).
Proof.
  intros Ho Hr o' Ho'. destruct (decide (o = o')) as [->|Hne]; [by rewrite !lookup_insert_eq|].
  rewrite !lookup_insert_ne; [by apply Hr|done|]. intros E. apply Hne. by apply key_inj.
Qed.

Section examples.
#[local] Existing Instance UtxoSet.example_hash.
#[local] Existing Instance UtxoSet.example_text.
#[local] Existing Instance UtxoSet.example_ids.

Definition example_coin : SpentTxOut :=
  {| st_Amount := 100; st_PkScript := mkbytes [Opcode.OP_1]; st_Height := 5; st_IsCoinBase := false |}.
Definition example_set : utxo_set := {[ example_origin := example_coin ]}.
Definition example_db : dbTx :=
  {| meta_values := ∅;
     meta_buckets := <[UtxoSetBucketName := {[ key_of example_origin := entry_bytes example_coin ]}]>
                       {[ SpendJournalBucketName := ∅ ]} |}.
Definition empty_view : UtxoViewpoint := NewUtxoViewpoint false.

Lemma example_op_ok : op_ok example_origin.
Proof. split; [vm_compute; reflexivity|unfold is_uint; cbn; lia]. Qed.

Lemma example_coin_ok : coin_ok example_coin.
Proof. split; [unfold amount_bound; cbn; lia|]. split; [vm_compute; discriminate|unfold is_int; cbn; lia]. Qed.

Lemma example_stores : stores example_db example_set.
Proof.
  exists {[ key_of example_origin := entry_bytes example_coin ]}. split; [apply lookup_insert_eq|]. change (represents (<[key_of example_origin := entry_bytes example_coin]> ∅) (<[example_origin := example_coin]> ∅)).
  apply represents_insert; [apply example_op_ok|apply represents_empty].
Qed.

Lemma example_coins_ok : coins_ok example_set.
Proof. apply map_Forall_singleton, example_coin_ok. Qed.

Lemma fetch_utxos_faithful_witness :
  exists view', FetchUtxos (fun o => FetchUtxoEntry o example_db) (Ok ∅) {[ example_origin ]} empty_view = Ok view' /\
    coherent example_set view' /\ utxos example_set view' = example_set.
Proof.
  destruct (fetch_utxos_faithful example_db example_set empty_view {[ example_origin ]} (Ok ∅) ∅) as (v & E & Hc & Hu & _).
  - exact example_stores.
  - exact example_coins_ok.
  - apply map_Forall_empty.
  - apply set_Forall_singleton, example_op_ok.
  - reflexivity.
  - exists v. split; [exact E|]. split; [exact Hc|]. rewrite Hu. reflexivity.
Defined.

Definition example_loaded : UtxoViewpoint := put_entry example_origin (entry_of example_coin) empty_view.

Lemma example_loaded_coherent : coherent example_set example_loaded.
Proof.
  apply coherent_put; [apply map_Forall_empty|]. split; [apply example_op_ok|]. split; [intros _; apply example_coin_ok|].
  intros _. vm_compute. reflexivity.
Qed.

Lemma example_txs_ok : Forall tx_ok example_txs.
Proof.
  assert (Ho : forall v, 0 <= v < 2 ^ 60 -> out_ok (example_out v)) by (intros v Hv; split; [done|vm_compute; discriminate]).
  assert (Hz : op_ok {| Op_Hash := ZeroHash; Op_Index := 0xffffffff |}) by (split; [vm_compute; reflexivity|unfold is_uint; cbn; lia]).
  apply Forall_cons. split; [split|apply Forall_singleton; split].
  - apply Forall_singleton, Ho. lia.
  - by apply Forall_singleton.
  - apply Forall_cons. split; [apply Ho; lia|]. apply Forall_singleton, Ho. lia.
  - apply Forall_singleton, example_op_ok.
Qed.

Lemma example_block_valid : valid_block 7 example_txs (utxos example_set example_loaded).
Proof.
  split; [vm_compute; reflexivity|]. split; [repeat constructor|].
  split; [reflexivity|]. split; [split; [intros Hc; discriminate|constructor]|]. split; [apply fresh_check_ok; vm_compute; reflexivity|].
  split; [reflexivity|]. split; [apply inputs_check_ok; vm_compute; reflexivity|].
  split; [apply fresh_check_ok; vm_compute; reflexivity|exact I].
Qed.

Lemma example_block_connects :
  exists view' stxos, ConnectTransactions (replicate 32 Byte.x09) 7 example_txs example_loaded (Some []) = Ok (view', Some stxos).
Proof.
  assert (Hb : match ConnectTransactions (replicate 32 Byte.x09) 7 example_txs example_loaded (Some []) with
               | Ok (_, Some _) => true | _ => false end = true) by (vm_compute; reflexivity).
  destruct (ConnectTransactions _ _ _ _ _) as [[view' [stxos|]]| |]; [by exists view', stxos|done..].
Qed.

Lemma reorg_roundtrip_witness :
  exists view' stxos db1 db2, ConnectTransactions (replicate 32 Byte.x09) 7 example_txs example_loaded (Some []) = Ok (view', Some stxos) /\
    PutUtxoView (map_to_list (entries view')) example_db = Ok db1 /\
    PutSpendJournalEntry (replicate 32 Byte.x09) stxos db1 = Ok db2 /\
    exists view3 db3, DisconnectTransactions (fun _ => Ok None) 7 example_txs ZeroHash stxos empty_view = Ok (view3, stxos) /\
      PutUtxoView (map_to_list (entries view3)) db2 = Ok db3 /\ stores db3 (utxos example_set example_loaded).
Proof.
  destruct example_block_connects as (view' & stxos & E).
  destruct (reorg_roundtrip (fun _ => Ok None) (replicate 32 Byte.x09) ZeroHash 7 example_txs example_db example_set example_loaded
    view' stxos (map_to_list (entries view')) ∅ example_stores example_coins_ok example_loaded_coherent) as (db1 & db2 & E1 & E2 & _ & _ & Hd).
  - reflexivity.
  - reflexivity.
  - unfold is_int. cbn. lia.
  - exact example_txs_ok.
  - exact example_block_valid.
  - exact E.
  - reflexivity.
  - destruct (Hd empty_view) as (view3 & E3 & Hp).
    + apply map_Forall_empty.
    + apply map_eq. intros o. rewrite utxos_lookup. reflexivity.
    + destruct (Hp (map_to_list (entries view3)) (reflexivity _)) as (db3 & E4 & S3).
      exists view', stxos, db1, db2. split; [exact E|]. split; [exact E1|]. split; [exact E2|]. exists view3, db3.
      split; [exact E3|]. split; [exact E4|exact S3].
Defined.

End examples.
