(* ===== verification/StoreIndex.v ===== *)
(** Keys, cursors and records of the chain database of node/chaindata/chaindb_io.go: the order
    of the keys of unspent outputs and the search by hash, the best state, the records of
    shards, and the journal of a block with a cross-shard swap. *)

From stdpp Require Import gmap fin_maps.
From S2P Require Import Prelude Big WireEncoding WireTx Chainhash WireHeader WireMsg Script Compress Utxo UtxoSet ChainStore StoreFacts StoreUtxo StoreReorg.

(** * The order of keys *)

Lemma unsigned_inj x y : byte.unsigned x = byte.unsigned y -> x = y.
Proof. intros E. rewrite <-(byte.of_Z_unsigned x), <-(byte.of_Z_unsigned y). by f_equal. Qed.

Lemma key_le_refl a : key_le a a = true.
Proof. induction a as [|x a IH]; [done|]. cbn. by rewrite Z.ltb_irrefl. Qed.

Lemma key_le_total a : forall b, key_le a b = false -> key_le b a = true.
Proof.
  induction a as [|x a IH]; intros [|y b]; cbn; try done.
  destruct (byte.unsigned x <? byte.unsigned y); [done|]. destruct (byte.unsigned y <? byte.unsigned x); [done|]. apply IH.
Qed.

Lemma key_le_trans a : forall b c, key_le a b = true -> key_le b c = true -> key_le a c = true.
Proof.
  induction a as [|x a IH]; intros [|y b] [|z c]; cbn; try done.
  repeat (match goal with |- context [?u <? ?v] => destruct (Z.ltb_spec u v) end); try done; try lia. apply IH.
Qed.

Lemma key_le_antisym a : forall b, key_le a b = true -> key_le b a = true -> a = b.
Proof.
  induction a as [|x a IH]; intros [|y b]; cbn; try done.
  repeat (match goal with |- context [?u <? ?v] => destruct (Z.ltb_spec u v) end); try done; try lia.
  intros H1 H2. f_equal; [apply unsigned_inj; lia|by apply IH].
Qed.

(** Prefixes of the same length are in the order of the whole. *)
Lemma key_le_prefix a : forall b x y, length a = length b -> key_le (a ++ x) (b ++ y) = true -> key_le a b = true.
Proof.
  induction a as [|u a IH]; intros [|v b] x y; cbn; try done. intros [= L].
  destruct (byte.unsigned u <? byte.unsigned v); [done|]. destruct (byte.unsigned v <? byte.unsigned u); [done|]. by apply IH.
Qed.

Lemma key_le_same a x y : key_le (a ++ x) (a ++ y) = key_le x y.
Proof. induction a as [|u a IH]; [done|]. cbn. by rewrite Z.ltb_irrefl. Qed.

(** * The cursor *)

Lemma seek_some_aux key (l : list (bytes * bytes)) kv :
  foldr (fun kv best => if negb (key_le key (fst kv)) then best
    else match best with Some kv' => if key_le (fst kv') (fst kv) then Some kv' else Some kv | None => Some kv end) None l = Some kv ->
  kv ∈ l /\ key_le key (fst kv) = true /\ forall kv', kv' ∈ l -> key_le key (fst kv') = true -> key_le (fst kv) (fst kv') = true.
Proof.
  revert kv. induction l as [|p l IH]; intros kv; [done|]. cbn [foldr].
  destruct (key_le key (fst p)) eqn:Ep; cbn [negb].
  - destruct (foldr _ None l) as [q|] eqn:Eq.
    + destruct (IH q eq_refl) as (Hi & Hk & Hm). destruct (key_le (fst q) (fst p)) eqn:Eqp; intros [= <-].
      * split_and!; [by right|done|]. intros kv' [->|Hj]%list_elem_of_In%in_inv Hle; [done|]. apply Hm; [by apply list_elem_of_In|done].
      * split_and!; [by left|done|]. apply key_le_total in Eqp. intros kv' [<-|Hj]%list_elem_of_In%in_inv Hle; [apply key_le_refl|].
        eapply key_le_trans; [exact Eqp|]. apply Hm; [by apply list_elem_of_In|done].
    + intros [= <-]. split_and!; [by left|done|]. clear IH. intros kv' [<-|Hj]%list_elem_of_In%in_inv Hle; [apply key_le_refl|].
      exfalso. clear -Eq Hj Hle. induction l as [|r l IH]; [done|]. cbn in Eq. destruct Hj as [->|Hj].
      * rewrite Hle in Eq. cbn in Eq. destruct (foldr _ None l) as [q|]; [|done]. by destruct (key_le _ _).
      * apply IH; [|done]. destruct (negb _); [done|]. destruct (foldr _ None l) as [q|]; [|done]. by destruct (key_le _ _).
  - intros Eq. destruct (IH kv Eq) as (Hi & Hk & Hm). split_and!; [by right|done|].
    intros kv' [<-|Hj]%list_elem_of_In%in_inv Hle; [congruence|]. apply Hm; [by apply list_elem_of_In|done].
Qed.

Lemma seek_none_aux key (l : list (bytes * bytes)) :
  foldr (fun kv best => if negb (key_le key (fst kv)) then best
    else match best with Some kv' => if key_le (fst kv') (fst kv) then Some kv' else Some kv | None => Some kv end) None l = None ->
  forall kv, kv ∈ l -> key_le key (fst kv) = false.
Proof.
  induction l as [|r l IH]; intros Eq kv Hi; [by apply not_elem_of_nil in Hi|]. cbn in Eq.
  destruct (key_le key (fst r)) eqn:Er; cbn in Eq.
  - destruct (foldr _ None l) as [q|]; [|done]. by destruct (key_le (fst q) (fst r)).
  - apply list_elem_of_In, in_inv in Hi as [<-|Hi]; [done|]. apply IH; [done|by apply list_elem_of_In].
Qed.

Lemma seek_some key b k v : seek key b = Some (k, v) ->
  b !! k = Some v /\ key_le key k = true /\ forall k' v', b !! k' = Some v' -> key_le key k' = true -> key_le k k' = true.
Proof.
  intros E. apply seek_some_aux in E as (Hi & Hk & Hm). cbn in *. split_and!; [by apply elem_of_map_to_list|done|].
  intros k' v' E'. apply (Hm (k', v')). by apply elem_of_map_to_list.
Qed.

Lemma seek_none key b k v : seek key b = None -> b !! k = Some v -> key_le key k = false.
Proof. intros E Ek. apply (seek_none_aux key _ E (k, v)). by apply elem_of_map_to_list. Qed.

(** * Searching by hash *)

Lemma vlq_head_nonneg n : key_le [Byte.x00] (vlq n) = true.
Proof.
  pose proof (vlq_nonempty n) as Hl. destruct (vlq n) as [|b t]; [by rewrite len_nil in Hl|]. cbn.
  pose proof (byte.unsigned_range b). change (byte.unsigned Byte.x00) with 0.
  destruct (Z.ltb_spec 0 (byte.unsigned b)); [done|]. by rewrite (proj2 (Z.ltb_ge (byte.unsigned b) 0)) by lia.
Qed.

(** The bucket holds nothing else than the set. *)
Definition only (b : bucket) (U : utxo_set) : Prop :=
  forall k v, b !! k = Some v -> exists o c, op_ok o /\ U !! o = Some c /\ k = key_of o /\ v = entry_bytes c.

(** [FetchUtxoEntryByHash] seeks the key of index zero and looks at the first entry from
    there: when the set has unspent outputs of the transaction it returns one of them, and
    nil when it has none. *)
Theorem utxo_by_hash tx b U hash :
  meta_buckets tx !! UtxoSetBucketName = Some b -> represents b U -> only b U -> coins_ok U -> len hash = HashSize ->
  exists r, FetchUtxoEntryByHash hash tx = Ok r /\
    match r with
    | Some e => exists o c, Op_Hash o = hash /\ U !! o = Some c /\ coin_of (Some e) = Some c
    | None => forall o, op_ok o -> Op_Hash o = hash -> U !! o = None
    end.
Proof.
  intros Hb Hr Ho HU Hh. unfold FetchUtxoEntryByHash, Bucket. rewrite Hb. cbn [mbind outcome_bind].
  set (o0 := {| Op_Hash := hash; Op_Index := 0 |}). assert (H0 : op_ok o0) by (split; [done|unfold is_uint; cbn; lia]).
  rewrite outpointKey_spec by done. cbn [mbind outcome_bind].
  assert (Hle : forall o, Op_Hash o = hash -> key_le (key_of o0) (key_of o) = true).
  { intros o E. change (key_of o0) with (hash ++ vlq 0). unfold key_of. rewrite E, key_le_same, vlq_zero. apply vlq_head_nonneg. }
  destruct (seek (key_of o0) b) as [[k v]|] eqn:Es.
  - apply seek_some in Es as (Hk & Hlo & Hm). destruct (Ho k v Hk) as (o & c & Hok & Hc & -> & ->).
    pose proof Hok as [Hlen _]. unfold key_of. rewrite len_app, (proj2 (Z.ltb_ge _ HashSize)) by (pose proof (len_nonneg (vlq (Op_Index o))); lia).
    replace (take (Z.to_nat HashSize) (Op_Hash o ++ vlq (Op_Index o))) with (Op_Hash o)
      by (rewrite <-Hlen, to_nat_len; by rewrite take_app_length).
    destruct (bool_decide_reflect (hash = Op_Hash o)) as [E|Hne]; cbn [negb].
    + rewrite deserialize_entry by by eapply HU. exists (Some (entry_of c)). split; [done|]. exists o, c. by rewrite coin_of_entry.
    + exists None. split; [done|]. intros o' Ho' E. destruct (U !! o') as [c'|] eqn:E'; [exfalso|done]. apply Hne.
      pose proof (Hr o' Ho') as Hb'. rewrite E' in Hb'. specialize (Hm _ _ Hb' (Hle o' E)).
      assert (L : length hash = length (Op_Hash o)) by (unfold len in *; lia).
      apply key_le_antisym; [by eapply key_le_prefix, Hlo|]. rewrite <-E in *. by eapply key_le_prefix, Hm.
  - exists None. split; [done|]. intros o' Ho' E. destruct (U !! o') as [c'|] eqn:E'; [exfalso|done].
    pose proof (Hr o' Ho') as Hb'. rewrite E' in Hb'. pose proof (seek_none _ _ _ _ Es Hb') as Hf. by rewrite Hle in Hf.
Qed.

(** ** Keys out of order *)

Lemma vlq_one n : 0 <= n < 128 -> vlq n = [byte.of_Z n].
Proof.
  intros Hn. unfold vlq. change vlq_fuel with (S (vlq_fuel - 1)). cbn [vlq_digits].
  rewrite (proj2 (Z.leb_le n 0x7f)) by lia. cbn [rev app]. do 2 f_equal. rewrite Z.lor_0_r. change 0x7f with (Z.ones 7).
  rewrite Z.land_ones by lia. apply Z.mod_small. lia.
Qed.

Lemma vlq_two n : 128 <= n < 16512 -> vlq n = [byte.of_Z (n / 128 - 1 + 128); byte.of_Z (n mod 128)].
Proof.
  intros Hn. unfold vlq. change vlq_fuel with (S (S (vlq_fuel - 2))). cbn [vlq_digits].
  assert (Hd : 1 <= n / 128 <= 128) by (Z.to_euclidean_division_equations; lia).
  rewrite (proj2 (Z.leb_gt n 0x7f)), (proj2 (Z.leb_le (n / 128 - 1) 0x7f)) by lia. cbn [rev app].
  rewrite !land_7f, Z.lor_0_r, (Z.mod_small (n / 128 - 1)) by lia. do 3 f_equal.
  replace 128 with (Z.shiftl 1 7) at 2 by reflexivity. by rewrite lor_shift by lia.
Qed.

Lemma byte_val z : 0 <= z < 256 -> byte.unsigned (byte.of_Z z) = z.
Proof. intros Hz. rewrite byte.unsigned_of_Z. unfold byte.wrap. by apply Z.mod_small. Qed.

Lemma key_le_bytes x y a b : 0 <= x < 256 -> 0 <= y < 256 ->
  key_le (byte.of_Z x :: a) (byte.of_Z y :: b) = if x <? y then true else if y <? x then false else key_le a b.
Proof. intros. cbn [key_le]. by rewrite !byte_val. Qed.

Lemma vlq_inj i j : is_uint 64 i -> is_uint 64 j -> vlq i = vlq j -> i = j.
Proof.
  intros Hi Hj E. pose proof (deserializeVLQ_vlq i [] Hi) as Ei. rewrite E, deserializeVLQ_vlq in Ei by done. by injection Ei.
Qed.

Lemma vlq_order i j : 0 <= i < j -> j < 16512 -> key_le (vlq i) (vlq j) = true.
Proof.
  intros Hi Hj. destruct (Z.ltb_spec j 128), (Z.ltb_spec i 128); try lia.
  - rewrite !vlq_one, key_le_bytes by lia. by rewrite (proj2 (Z.ltb_lt i j)) by lia.
  - rewrite vlq_one, vlq_two, key_le_bytes by (Z.to_euclidean_division_equations; lia).
    by rewrite (proj2 (Z.ltb_lt i (j / 128 - 1 + 128))) by (Z.to_euclidean_division_equations; lia).
  - rewrite !vlq_two, !key_le_bytes by (Z.to_euclidean_division_equations; lia).
    destruct (Z.ltb_spec (i / 128 - 1 + 128) (j / 128 - 1 + 128)); [done|].
    destruct (Z.ltb_spec (j / 128 - 1 + 128) (i / 128 - 1 + 128)); [Z.to_euclidean_division_equations; lia|].
    by rewrite (proj2 (Z.ltb_lt (i mod 128) (j mod 128))) by (Z.to_euclidean_division_equations; lia).
Qed.

(** The keys of the outputs of a transaction are in the order of their indices up to
    index 16511, and no further: the encoding of the next index, the first of three bytes,
    comes before it. *)
Theorem utxo_key_order hash i j : 0 <= i < j -> j < 16512 ->
  key_le (key_of {| Op_Hash := hash; Op_Index := i |}) (key_of {| Op_Hash := hash; Op_Index := j |}) = true /\
  key_le (key_of {| Op_Hash := hash; Op_Index := j |}) (key_of {| Op_Hash := hash; Op_Index := i |}) = false /\
  key_le (key_of {| Op_Hash := hash; Op_Index := 16511 |}) (key_of {| Op_Hash := hash; Op_Index := 16512 |}) = false.
Proof.
  intros Hi Hj. unfold key_of. cbn [Op_Hash Op_Index]. rewrite !key_le_same. pose proof (vlq_order i j Hi Hj) as Ho.
  split_and!; [done| |vm_compute; reflexivity]. destruct (key_le (vlq j) (vlq i)) eqn:E; [|done].
  apply (key_le_antisym _ _ Ho) in E. apply vlq_inj in E; unfold is_uint; lia.
Qed.

(** * The best state *)

Lemma slice_bind_panic {B} d lo hi (k : bytes -> outcome B) : (forall x, k x = Panic) -> (x ← slice d lo hi; k x) = Panic.
Proof. intros Hk. unfold slice. destruct (_ && _); cbn; [apply Hk|done]. Qed.

Lemma slice_beyond d lo hi : len d < hi -> slice d lo hi = Panic.
Proof. intros Hl. unfold slice. rewrite (proj2 (Z.leb_gt hi (len d))) by done. by rewrite andb_false_r. Qed.

Definition best_ok (s : BestChainState) : Prop :=
  len (Best_Hash s) = HashSize /\ len (Best_MMRRoot s) = HashSize /\ is_uint 32 (Best_Height s) /\ is_int 64 (LastSerialID s) /\
  is_uint 64 (TotalTxns s) /\ 0 <= workSum s /\ len (big_Bytes (workSum s)) <= 2 ^ 31.

Lemma slice_next (pre m post : bytes) d lo hi : d = pre ++ m ++ post -> lo = len pre -> hi = len pre + len m -> slice d lo hi = Ok m.
Proof. intros -> -> ->. by apply slice_exact. Qed.

(** The side conditions of [slice_next]. *)
Ltac next := (rewrite ?app_nil_r, <-?app_assoc; reflexivity) || (rewrite ?len_app; unfold len in *; cbn [length]; lia).

(** The best state is read back from its record.  The length check of
    [DeserializeBestChainState] is for the format before the root of the mountain range and
    the serial identifier were added to it: a record of 48 to 87 bytes, which passes it,
    makes the node panic. *)
Theorem best_state_roundtrip s d :
  (best_ok s -> DeserializeBestChainState (serializeBestChainState s) = Ok s) /\
  (len d < 48 -> DeserializeBestChainState d = Err ErrCorruption) /\
  (48 <= len d < 88 -> DeserializeBestChainState d = Panic).
Proof.
  unfold DeserializeBestChainState. change (HashSize + 16) with 48. split_and!.
  - intros (Hh & Hm & Hht & Hs & Ht & Hw & Hl). unfold serializeBestChainState. set (w := big_Bytes (workSum s)) in *.
    pose proof (len_nonneg w). rewrite (uwrap_id 32 (len w)) by (unfold is_uint; lia).
    set (a1 := bo_put littleEndian 4 (Best_Height s)). set (a2 := bo_put littleEndian 8 (uwrap 64 (LastSerialID s))).
    set (a3 := bo_put littleEndian 8 (TotalTxns s)). set (a4 := bo_put littleEndian 4 (len w)).
    assert (L1 : len a1 = 4) by apply len_bo_put. assert (L2 : len a2 = 8) by apply len_bo_put.
    assert (L3 : len a3 = 8) by apply len_bo_put. assert (L4 : len a4 = 4) by apply len_bo_put.
    set (d' := Best_Hash s ++ _). assert (Ld : len d' = 88 + len w) by (unfold d'; rewrite !len_app; unfold HashSize in *; lia).
    rewrite (proj2 (Z.ltb_ge (len d') 48)) by lia. unfold HashSize in *.
    rewrite (slice_next [] (Best_Hash s) (Best_MMRRoot s ++ a1 ++ a2 ++ a3 ++ a4 ++ w) d' 0 32) by next. cbn [mbind outcome_bind].
    rewrite (slice_next (Best_Hash s) (Best_MMRRoot s) (a1 ++ a2 ++ a3 ++ a4 ++ w) d' 32 (32 + 32)) by next. cbn [mbind outcome_bind].
    rewrite (slice_next (Best_Hash s ++ Best_MMRRoot s) a1 (a2 ++ a3 ++ a4 ++ w) d' (32 + 32) (32 + 32 + 4)) by next. cbn [mbind outcome_bind].
    rewrite (slice_next (Best_Hash s ++ Best_MMRRoot s ++ a1) a2 (a3 ++ a4 ++ w) d' (32 + 32 + 4) (32 + 32 + 4 + 8)) by next. cbn [mbind outcome_bind].
    rewrite (slice_next (Best_Hash s ++ Best_MMRRoot s ++ a1 ++ a2) a3 (a4 ++ w) d' (32 + 32 + 4 + 8) (32 + 32 + 4 + 8 + 8)) by next. cbn [mbind outcome_bind].
    rewrite (slice_next (Best_Hash s ++ Best_MMRRoot s ++ a1 ++ a2 ++ a3) a4 w d' (32 + 32 + 4 + 8 + 8) (32 + 32 + 4 + 8 + 8 + 4)) by next. cbn [mbind outcome_bind].
    assert (Hw' : slice d' (32 + 32 + 4 + 8 + 8 + 4) (len d') = Ok w).
    { apply (slice_next (Best_Hash s ++ Best_MMRRoot s ++ a1 ++ a2 ++ a3 ++ a4) w []); next. }
    rewrite Hw'. cbn [mbind outcome_bind]. unfold a4, a3, a2, a1. rewrite !bo_get_put; [|done|by apply uwrap_range|done|unfold is_uint; lia].
    rewrite (uwrap_id 32 (len w)) by (unfold is_uint; lia). rewrite (proj2 (Z.ltb_ge (len w) (len w))) by lia.
    rewrite (uwrap_id 32 (32 + 32 + 4 + 8 + 8 + 4 + len w)) by (unfold is_uint; lia).
    replace (32 + 32 + 4 + 8 + 8 + 4 + len w) with (len d') by lia. rewrite Hw'. cbn [mbind outcome_bind].
    rewrite swrap_uwrap, swrap_id by (done || lia). unfold w. rewrite big_SetBytes_Bytes by done. by destruct s.
  - intros Hl. by rewrite (proj2 (Z.ltb_lt _ _)) by done.
  - intros Hl. rewrite (proj2 (Z.ltb_ge _ _)) by lia. do 5 (apply slice_bind_panic; intros ?).
    rewrite (slice_beyond d (HashSize + HashSize + 4 + 8 + 8)) by (unfold HashSize; lia). done.
Qed.

(** * Shards *)

Lemma decode_shard hash h serial : len hash = HashSize -> is_int 32 h ->
  decodeShardGenesisInfo (hash ++ bo_put littleEndian 4 (uwrap 32 h) ++ bo_put littleEndian 8 (uwrap 64 serial)) = Ok (hash, h, 0).
Proof.
  intros Hh Hi. set (a := bo_put littleEndian 4 _). set (b := bo_put littleEndian 8 _).
  assert (La : len a = 4) by apply len_bo_put. assert (Lb : len b = 8) by apply len_bo_put. unfold decodeShardGenesisInfo, HashSize in *.
  rewrite (slice_next [] hash (a ++ b) _ 0 32) by next. cbn [mbind outcome_bind].
  rewrite (slice_next hash a b _ 32 (32 + 4)) by next. cbn [mbind outcome_bind].
  rewrite (slice_next (hash ++ a) b [] _ (32 + 4) (32 + 4 + 8)) by next. cbn [mbind outcome_bind].
  unfold a. rewrite bo_get_put by (by apply uwrap_range). by rewrite swrap_uwrap, swrap_id by (done || lia).
Qed.

(** The serial identifier of the block that created a shard is lost: whatever identifier
    [StoreShardGenesisInfo] was given, [GetShardGenesisInfo] returns the shard with its height
    and its hash and the identifier zero. *)
Theorem shard_serial_lost tx b height hash serial :
  meta_buckets tx !! ShardCreationsBucketName = Some b -> b !! bo_put littleEndian 4 1 = None ->
  len hash = HashSize -> is_int 32 height ->
  exists tx1 tx2, StoreShardGenesisInfo 1 height hash serial tx = Ok tx1 /\ StoreLastShardInfo 1 tx1 = Ok tx2 /\
    GetShardGenesisInfo tx2 =
      Ok ({[ 1 := {| Sh_ID := 1; ExpansionHeight := height; ExpansionHash := hash; SerialID := 0 |} ]}, 1).
Proof.
  intros Hb Hn Hh Hi. set (val := hash ++ bo_put littleEndian 4 (uwrap 32 height) ++ bo_put littleEndian 8 (uwrap 64 serial)).
  set (key := bo_put littleEndian 4 1) in *. assert (Lk : len key = 4) by apply len_bo_put.
  assert (Hne : key <> last_shard_id) by (intros E; rewrite E in Lk; discriminate Lk).
  unfold StoreShardGenesisInfo, StoreLastShardInfo, put_in, get_in, Bucket. fold key. fold val. rewrite Hb. cbn [mbind outcome_bind].
  unfold bucket_Get, bucket_Put. rewrite Lk. change (4 =? 0) with false. cbn match. rewrite Hn. cbn [mbind outcome_bind].
  eexists _, _. split; [done|]. unfold set_bucket. cbn [meta_buckets]. rewrite lookup_insert_eq. cbn [mbind outcome_bind].
  change (len last_shard_id =? 0) with false. cbn [mbind outcome_bind]. split; [done|].
  unfold GetShardGenesisInfo, get_in, Bucket. cbn [meta_buckets]. rewrite lookup_insert_eq. cbn [mbind outcome_bind].
  unfold bucket_Get. change (len last_shard_id =? 0) with false. cbn match. rewrite lookup_insert_eq. cbn [from_option id].
  fold key. rewrite Lk. change (4 =? 0) with false. cbn match. unfold get_uint.
  assert (L4 : length key = 4%nat) by (unfold len in Lk; lia). fold key. rewrite L4. cbn [Nat.ltb Nat.leb mbind outcome_bind].
  rewrite take_ge by lia.
  assert (Hv : bo_get littleEndian key = 1) by (apply bo_get_put; unfold is_uint; cbn; lia). rewrite Hv. cbn [mbind outcome_bind].
  change (Z.to_nat 1) with 1%nat. cbn [get_shards]. unfold get_in, Bucket. cbn [meta_buckets]. rewrite lookup_insert_eq. cbn [mbind outcome_bind].
  fold key. unfold bucket_Get. rewrite Lk. change (4 =? 0) with false. cbn match. rewrite lookup_insert_ne by done. rewrite lookup_insert_eq.
  cbn [from_option id]. unfold val. rewrite decode_shard by done. done.
Qed.

(** * The journal of a swap *)

(** The journal of a block with a cross-shard swap cannot be read back.  Connecting such a
    block records the one input of the swap that is on this chain; what is stored for it is
    refused by [FetchSpendJournalEntry] as corrupt, because it expects all the inputs. *)
Theorem swap_journal_unreadable db journal hash cb tx stxo i0 i1 :
  meta_buckets db !! SpendJournalBucketName = Some journal -> (len hash =? 0) = false ->
  coin_ok stxo -> SwapTx tx = true -> Tx_TxIn tx = [i0; i1] ->
  CountSpentOutputs [cb; tx] = Ok 1 /\
  exists db1, PutSpendJournalEntry hash [stxo] db = Ok db1 /\ FetchSpendJournalEntry hash [cb; tx] db1 = Err ErrCorruption.
Proof.
  intros Hb Hh Hc Hsw Ei. split; [cbn; unfold spent_by; by rewrite Hsw, Ei|].
  unfold PutSpendJournalEntry, put_in, Bucket. rewrite serialize_journal, Hb by by apply Forall_singleton. cbn [mbind outcome_bind].
  unfold bucket_Put. rewrite Hh. cbn [mbind outcome_bind]. eexists. split; [done|].
  unfold FetchSpendJournalEntry, get_in, Bucket, set_bucket. cbn [meta_buckets]. rewrite lookup_insert_eq.
  cbn [mbind outcome_bind]. unfold bucket_Get. rewrite Hh, lookup_insert_eq. cbn [from_option id rev app].
  unfold deserializeSpendJournalEntry. cbn [num_stxos foldr]. rewrite Ei. cbn [length Nat.add].
  pose proof (journal_nonempty [stxo]) as Hj. specialize (Hj ltac:(by apply Forall_singleton) ltac:(done)).
  rewrite (proj2 (Z.eqb_neq _ 0)) by lia. unfold journal_bytes in *. cbn [map concat] in *. rewrite app_nil_r in *.
  cbn [decode_stxos]. rewrite (slice_next [] (stxo_bytes stxo) [] _ 0 (len (stxo_bytes stxo))) by next. cbn [mbind outcome_bind].
  pose proof (decodeSpentTxOut_spec stxo [] Hc) as Hd. rewrite app_nil_r in Hd. rewrite Hd. cbn [mbind outcome_bind].
  rewrite (slice_next (stxo_bytes stxo) [] [] _ (0 + len (stxo_bytes stxo)) (len (stxo_bytes stxo))) by next. done.
Qed.

(** * Concrete inputs *)

Section examples.


Lemma example_only : only {[ key_of example_origin := entry_bytes example_coin ]} example_set.
Proof.
  intros k v Hk. apply lookup_singleton_Some in Hk as [<- <-]. exists example_origin, example_coin.
  split_and!; [apply example_op_ok|apply lookup_singleton_eq|done|done].
Qed.

Lemma utxo_by_hash_witness :
  exists r, FetchUtxoEntryByHash (replicate 32 Byte.x07) example_db = Ok r /\ (r <> None).
Proof.
  destruct (utxo_by_hash example_db {[ key_of example_origin := entry_bytes example_coin ]} example_set (replicate 32 Byte.x07))
    as (r & E & Hr).
  - apply lookup_insert_eq.
  - change (represents (<[key_of example_origin := entry_bytes example_coin]> ∅) (<[example_origin := example_coin]> ∅)).
    apply represents_insert; [apply example_op_ok|apply represents_empty].
  - exact example_only.
  - exact example_coins_ok.
  - reflexivity.
  - exists r. split; [exact E|]. intros ->. specialize (Hr example_origin example_op_ok eq_refl).
    unfold example_set in Hr. rewrite lookup_singleton_eq in Hr. discriminate Hr.
Defined.

Lemma utxo_key_order_witness :
  key_le (key_of {| Op_Hash := ZeroHash; Op_Index := 127 |}) (key_of {| Op_Hash := ZeroHash; Op_Index := 128 |}) = true.
Proof. apply (utxo_key_order ZeroHash 127 128); lia. Defined.

Definition example_best : BestChainState :=
  {| Best_Hash := replicate 32 Byte.x01; Best_MMRRoot := replicate 32 Byte.x02; Best_Height := 9; LastSerialID := 12;
     TotalTxns := 34; workSum := 2 ^ 70 |}.

Lemma best_state_roundtrip_witness :
  DeserializeBestChainState (serializeBestChainState example_best) = Ok example_best /\
  DeserializeBestChainState (replicate 50 Byte.x00) = Panic /\
  DeserializeBestChainState (replicate 40 Byte.x00) = Err ErrCorruption.
Proof.
  split; [|split].
  - apply (best_state_roundtrip example_best []). split_and!; try reflexivity; try discriminate; vm_compute; try done; split; done.
  - apply (best_state_roundtrip example_best (replicate 50 Byte.x00)). unfold len. cbn. lia.
  - apply (best_state_roundtrip example_best (replicate 40 Byte.x00)). unfold len. cbn. lia.
Defined.

Definition shard_db : dbTx := {| meta_values := ∅; meta_buckets := {[ ShardCreationsBucketName := ∅ ]} |}.

Lemma shard_serial_lost_witness :
  exists tx1 tx2, StoreShardGenesisInfo 1 100 (replicate 32 Byte.x05) 77 shard_db = Ok tx1 /\ StoreLastShardInfo 1 tx1 = Ok tx2 /\
    GetShardGenesisInfo tx2 =
      Ok ({[ 1 := {| Sh_ID := 1; ExpansionHeight := 100; ExpansionHash := replicate 32 Byte.x05; SerialID := 0 |} ]}, 1).
Proof.
  apply (shard_serial_lost shard_db ∅ 100 (replicate 32 Byte.x05) 77).
  - apply lookup_singleton_eq.
  - apply lookup_empty.
  - reflexivity.
  - unfold is_int. cbn. lia.
Defined.

Definition swap_in (i : Z) : TxIn := example_in {| Op_Hash := replicate 32 Byte.x07; Op_Index := i |}.
Definition swap_tx : MsgTx :=
  {| Version := TxVerCrossShardSwap; Tx_TxIn := [swap_in 0; swap_in 1]; Tx_TxOut := [example_out 1; example_out 2]; LockTime := 0 |}.

Lemma swap_journal_unreadable_witness :
  exists db1, PutSpendJournalEntry (replicate 32 Byte.x09) [example_coin] example_db = Ok db1 /\
    FetchSpendJournalEntry (replicate 32 Byte.x09) [UtxoSet.example_coinbase; swap_tx] db1 = Err ErrCorruption.
Proof.
  apply (swap_journal_unreadable example_db ∅ (replicate 32 Byte.x09) UtxoSet.example_coinbase swap_tx example_coin (swap_in 0) (swap_in 1)).
  - reflexivity.
  - reflexivity.
  - exact example_coin_ok.
  - reflexivity.
  - reflexivity.
Defined.

End examples.
