(* ===== verification/Mmr.v ===== *)
(** Model of node/mmr: the merkle mountain range of the blocks of a chain, with the weight of
    the blocks, its store of levels and the container that follows reorganizations.

    The nodes of the store are pointers to values that are not changed once they are in the
    store, so they are values here; the bytes a node caches are a function of its hash and
    weight.  A weight is nil in the node that stands for an empty tree.  A method that takes the
    lock of the tree and releases it is its body; [SetBlock], which keeps it, is modelled with the lock. *)

From stdpp Require Import gmap.
From S2P Require Import Prelude Big WireEncoding WireTx Chainhash.

(** * node.go *)

Record TreeNode := { tn_Hash : bytes; tn_Weight : option Z; tn_Height : Z; final : bool }.

#[export] Instance TreeNode_eq_dec : EqDecision TreeNode.
Proof. solve_decision. Defined.

(** [&TreeNode{}] *)
Definition empty_node : TreeNode := {| tn_Hash := ZeroHash; tn_Weight := None; tn_Height := 0; final := false |}.

Definition set_final (b : bool) (n : TreeNode) : TreeNode :=
  {| tn_Hash := tn_Hash n; tn_Weight := tn_Weight n; tn_Height := tn_Height n; final := b |}.

Definition TreeNode_Bytes (node : TreeNode) : outcome bytes :=
  match tn_Weight node with Some w => Ok (tn_Hash node ++ big_Bytes w) | None => Panic end.

(** [intoNode] of the bytes of a node. *)
Definition intoNode (v : bytes) : outcome TreeNode :=
  if len v <? HashSize then Panic
  else Ok {| tn_Hash := take (Z.to_nat HashSize) v; tn_Weight := Some (big_SetBytes (drop (Z.to_nat HashSize) v));
             tn_Height := 0; final := false |}.

(** * helpers.go *)

(** Of an [int32]; the logarithm of a [float64] is exact enough for those. *)
Definition mmr_nextPowerOfTwo (n : Z) : Z :=
  if Z.land n (n - 1) =? 0 then n else Z.shiftl 1 (Z.log2 n + 1).

(** The bytes that are hashed: the value of the right node is copied at the offset of its own
    length. *)
Definition node_data (lv rv : bytes) : bytes :=
  copy_at (copy_at (replicate (length lv + length rv) Byte.x00) 0 lv) (length rv) rv.

(** * tree_store.go *)

Abbreviation treeStore := (list (list (option TreeNode))).

Definition log2_int (n : Z) : Z := Z.log2 n.

(** The levels from the one with [nNodes] slots. *)
Fixpoint empty_levels (levelCount : nat) (nNodes : Z) : treeStore :=
  match levelCount with
  | O => []
  | S levelCount => replicate (Z.to_nat nNodes) None :: empty_levels levelCount (Z.quot nNodes 2)
  end.

(** Of no leaves, the number of levels is the integer of an infinite logarithm. *)
Definition newTreeStore (leafCount : Z) : outcome treeStore :=
  let nextPoT := mmr_nextPowerOfTwo (swrap 32 leafCount) in
  if nextPoT <=? 0 then Panic
  else Ok (empty_levels (Z.to_nat (log2_int nextPoT + 1)) nextPoT).

Definition levelsCount (mTree : treeStore) : nat := length mTree.
Definition level (l : nat) (mTree : treeStore) : list (option TreeNode) := default [] (mTree !! l).
Definition lenOfLevel (l : nat) (mTree : treeStore) : nat := length (level l mTree).

(** [mTree.nodes[level][index] = node] *)
Definition setNode (l index : nat) (node : option TreeNode) (mTree : treeStore) : outcome treeStore :=
  match mTree !! l with
  | None => Panic
  | Some xs => if Nat.ltb index (length xs) then Ok (<[l := <[index := node]> xs]> mTree) else Panic
  end.

Fixpoint grow_levels (mTree : treeStore) (levelCount : nat) (nNodes : Z) : outcome treeStore :=
  match levelCount with
  | O => Ok mTree
  | S levelCount =>
      let xs := match mTree with xs :: _ => xs | [] => [] end in
      let missing := nNodes - len xs in
      if missing <? 0 then Panic
      else
      rest ← grow_levels (tail mTree) levelCount (Z.quot nNodes 2);
      Ok ((xs ++ replicate (Z.to_nat missing) None) :: rest)
  end.

Definition allocate (mTree : treeStore) : outcome treeStore :=
  let leafCount := Z.of_nat (lenOfLevel 0 mTree) + 1 in
  let nextPoT := mmr_nextPowerOfTwo (swrap 32 leafCount) in
  let levelCount := log2_int nextPoT + 1 in
  if Z.of_nat (length mTree) =? levelCount then Ok mTree
  else if levelCount <? Z.of_nat (length mTree) then Panic
  else grow_levels mTree (Z.to_nat levelCount) nextPoT.

Definition appendLeaf (index : Z) (node : TreeNode) (mTree : treeStore) : outcome treeStore :=
  if index <? 0 then Panic
  else if index <=? Z.of_nat (lenOfLevel 0 mTree) - 1 then setNode 0 (Z.to_nat index) (Some node) mTree
  else
  mTree ← allocate mTree;
  setNode 0 (Z.to_nat index) (Some node) mTree.

(** The node and whether it is final; a nil node is not. *)
Definition getNode (l : nat) (index : Z) (mTree : treeStore) : outcome (option TreeNode * bool) :=
  if Nat.ltb (length mTree) (l + 1) then Ok (None, false)
  else if Z.of_nat (lenOfLevel l mTree) <? index + 1 then Ok (None, false)
  else if index <? 0 then Panic
  else
  let top := mjoin (level l mTree !! Z.to_nat index) in
  Ok (top, match top with Some t => final t | None => false end).

(** The levels from one on: the nodes from [startIdx] are dropped, from half of it in the
    next. *)
Fixpoint drop_levels (startIdx : nat) (levels : treeStore) : treeStore * list (option TreeNode) :=
  match levels with
  | [] => ([], [])
  | xs :: levels =>
      let '(levels, dropped) := drop_levels (startIdx / 2) levels in
      ((take startIdx xs ++ replicate (length xs - startIdx) None) :: levels, drop startIdx xs ++ dropped)
  end.

Definition dropNodeFromTree (index : nat) (mTree : treeStore) : treeStore * list (option TreeNode) :=
  drop_levels index mTree.

Section hash.
Context `{HashFunction}.

Definition hashNodes (lnd rnd : option TreeNode) : outcome (option TreeNode * bool) :=
  match lnd with
  | None => Ok (None, false)
  | Some lnd =>
      match rnd with
      | None => Ok (Some {| tn_Hash := tn_Hash lnd; tn_Weight := tn_Weight lnd; tn_Height := 0; final := false |}, false)
      | Some rnd =>
          lv ← TreeNode_Bytes lnd;
          rv ← TreeNode_Bytes rnd;
          match tn_Weight lnd, tn_Weight rnd with
          | Some wl, Some wr =>
              Ok (Some {| tn_Hash := HashH (node_data lv rv); tn_Weight := Some (wl + wr); tn_Height := 0; final := false |}, true)
          | _, _ => Panic
          end
      end
  end.

Definition hashLeafs (lnd rnd : option TreeNode) : outcome (option TreeNode) :=
  r ← hashNodes lnd rnd; Ok (fst r).

(** The inner loop of [calcRoot], [n] turns from [leftID]; a nil root panics when it is
    marked. *)
Fixpoint calc_level (n : nat) (l leftID hashID : nat) (mTree : treeStore) (root : option TreeNode)
    : outcome (treeStore * option TreeNode) :=
  match n with
  | O => Ok (mTree, root)
  | S n =>
      parent ← getNode (l + 1) (Z.of_nat hashID) mTree;
      if (snd parent : bool) then calc_level n l (leftID + 2) (hashID + 1) mTree root
      else
      '(lnd, lFinal) ← getNode l (Z.of_nat leftID) mTree;
      '(rnd, rFinal) ← getNode l (Z.of_nat leftID + 1) mTree;
      match lnd, rnd with
      | None, None => calc_level n l (leftID + 2) hashID mTree root
      | _, _ =>
          root ← hashLeafs lnd rnd;
          match root with
          | None => Panic
          | Some root =>
              let root := set_final (lFinal && rFinal) root in
              mTree ← setNode (l + 1) hashID (Some root) mTree;
              calc_level n l (leftID + 2) (hashID + 1) mTree (Some root)
          end
      end
  end.

(** The cycle across the levels, [n] of them from [l]. *)
Fixpoint calc_levels (n l : nat) (mTree : treeStore) (root : option TreeNode) : outcome (treeStore * option TreeNode) :=
  match n with
  | O => Ok (mTree, root)
  | S n =>
      '(mTree, root) ← calc_level (Nat.div2 (lenOfLevel l mTree + 1)) l 0 0 mTree root;
      calc_levels n (S l) mTree root
  end.

Definition calcRoot (mTree : treeStore) : outcome (treeStore * option TreeNode) :=
  let leavesCount := lenOfLevel 0 mTree in
  if Nat.eqb leavesCount 1 then Ok (mTree, mjoin (level 0 mTree !! 0%nat))
  else if Nat.eqb leavesCount 2 then
    root ← hashLeafs (mjoin (level 0 mTree !! 0%nat)) (mjoin (level 0 mTree !! 1%nat));
    match root with
    | None => Panic
    | Some root =>
        let root := set_final true root in
        mTree ← setNode 1 0 (Some root) mTree;
        Ok (mTree, Some root)
    end
  else calc_levels (levelsCount mTree - 1) 0 mTree None.

(** * tree.go *)

Record BlocksMMRTree := {
  nextHeight : Z;
  chainWeight : Z;
  lastNode : option TreeNode;
  rootHash : bytes;
  mmr_store : treeStore;
  rootToHeight : gmap bytes Z;
  heightToRoot : gmap Z bytes;
  hashToHeight : gmap bytes Z
}.

Definition NewTree : outcome BlocksMMRTree :=
  store ← newTreeStore 1;
  Ok {| nextHeight := 0; chainWeight := 0; lastNode := Some empty_node; rootHash := ZeroHash; mmr_store := store;
        rootToHeight := ∅; heightToRoot := ∅; hashToHeight := ∅ |}.

(** [.Hash] of a pointer. *)
Definition node_hash (n : option TreeNode) : outcome bytes :=
  match n with Some n => Ok (tn_Hash n) | None => Panic end.

Definition appendBlock (hash : bytes) (difficulty : Z) (t : BlocksMMRTree) : outcome BlocksMMRTree :=
  match hashToHeight t !! hash with
  | Some _ => Ok t
  | None =>
      let node := {| tn_Hash := hash; tn_Weight := Some difficulty; tn_Height := nextHeight t; final := false |} in
      store ← appendLeaf (tn_Height node) node (mmr_store t);
      '(store, root) ← calcRoot store;
      rootHash ← node_hash root;
      Ok {| nextHeight := swrap 32 (nextHeight t + 1);
            chainWeight := chainWeight t + difficulty;
            lastNode := Some node;
            rootHash := rootHash;
            mmr_store := store;
            rootToHeight := <[rootHash := tn_Height node]> (rootToHeight t);
            heightToRoot := <[tn_Height node := rootHash]> (heightToRoot t);
            hashToHeight := <[hash := tn_Height node]> (hashToHeight t) |}
  end.

Definition AppendBlock := appendBlock.

(** The map from heights to roots is kept. *)
Definition PreAllocateTree (blockCount : Z) (t : BlocksMMRTree) : outcome BlocksMMRTree :=
  store ← newTreeStore blockCount;
  Ok {| nextHeight := nextHeight t; chainWeight := chainWeight t; lastNode := lastNode t; rootHash := rootHash t;
        mmr_store := store; rootToHeight := ∅; heightToRoot := heightToRoot t; hashToHeight := ∅ |}.

Definition AddBlockWithoutRebuild (hash actualMMR : bytes) (height difficulty : Z) (t : BlocksMMRTree)
    : outcome BlocksMMRTree :=
  let node := {| tn_Hash := hash; tn_Weight := Some difficulty; tn_Height := height; final := false |} in
  store ← appendLeaf height node (mmr_store t);
  Ok {| nextHeight := swrap 32 (height + 1);
        chainWeight := chainWeight t + difficulty;
        lastNode := Some node;
        rootHash := actualMMR;
        mmr_store := store;
        rootToHeight := <[actualMMR := height]> (rootToHeight t);
        heightToRoot := <[height := actualMMR]> (heightToRoot t);
        hashToHeight := <[hash := height]> (hashToHeight t) |}.

Definition set_store (store : treeStore) (t : BlocksMMRTree) : BlocksMMRTree :=
  {| nextHeight := nextHeight t; chainWeight := chainWeight t; lastNode := lastNode t; rootHash := rootHash t;
     mmr_store := store; rootToHeight := rootToHeight t; heightToRoot := heightToRoot t; hashToHeight := hashToHeight t |}.

Definition rebuildTree (node : TreeNode) (height : Z) (t : BlocksMMRTree) : outcome (bytes * BlocksMMRTree) :=
  store ← appendLeaf height node (mmr_store t);
  '(store, root) ← calcRoot store;
  root ← node_hash root;
  Ok (root, set_store store t).

Definition RebuildTreeAndAssert (t : BlocksMMRTree) : outcome BlocksMMRTree :=
  match lastNode t with
  | None => Panic
  | Some lastNode =>
      '(root, t) ← rebuildTree lastNode (tn_Height lastNode) t;
      if negb (Hash_IsEqual (rootHash t) root) then Err (errorString "mmr_root of tree mismatches with calculated root")
      else Ok t
  end.

(** The maps and the weight after the nodes of a list were dropped. *)
Fixpoint forget (dropped : list (option TreeNode)) (t : BlocksMMRTree) : outcome BlocksMMRTree :=
  match dropped with
  | [] => Ok t
  | None :: dropped => forget dropped t
  | Some treeNode :: dropped =>
      t ←
        (match hashToHeight t !! tn_Hash treeNode with
         | Some height =>
             match tn_Weight treeNode with
             | None => Panic
             | Some w =>
                 Ok {| nextHeight := nextHeight t; chainWeight := chainWeight t - w; lastNode := lastNode t;
                       rootHash := rootHash t; mmr_store := mmr_store t; rootToHeight := rootToHeight t;
                       heightToRoot := delete height (heightToRoot t);
                       hashToHeight := delete (tn_Hash treeNode) (hashToHeight t) |}
             end
         | None => Ok t
         end);
      forget dropped
        {| nextHeight := nextHeight t; chainWeight := chainWeight t; lastNode := lastNode t; rootHash := rootHash t;
           mmr_store := mmr_store t; rootToHeight := delete (tn_Hash treeNode) (rootToHeight t);
           heightToRoot := heightToRoot t; hashToHeight := hashToHeight t |}
  end.

Definition rmBlock (height : Z) (t : BlocksMMRTree) : outcome BlocksMMRTree :=
  '(treeNode, _) ← getNode 0 height (mmr_store t);
  match treeNode with
  | None => Ok t
  | Some _ =>
      let '(store, droppedNodes) := dropNodeFromTree (Z.to_nat height) (mmr_store t) in
      t ← forget droppedNodes (set_store store t);
      '(last, root) ←
        (if height =? 0 then Ok (Some empty_node, ZeroHash)
         else
         '(last, _) ← getNode 0 (swrap 32 (height - 1)) store;
         Ok (last, default ZeroHash (heightToRoot t !! swrap 32 (height - 1))));
      Ok {| nextHeight := height; chainWeight := chainWeight t; lastNode := last; rootHash := root; mmr_store := mmr_store t;
            rootToHeight := rootToHeight t; heightToRoot := heightToRoot t; hashToHeight := hashToHeight t |}
  end.

Definition RmBlock (hash : bytes) (height : Z) (t : BlocksMMRTree) : outcome BlocksMMRTree := rmBlock height t.

(** [SetBlock] between the lock and its end. *)
Definition setBlock (hash : bytes) (difficulty height : Z) (t : BlocksMMRTree) : outcome BlocksMMRTree :=
  t ← (if height <? nextHeight t then rmBlock height t else Ok t);
  appendBlock hash difficulty t.

Definition resetRootTo (hash : bytes) (height : Z) (t : BlocksMMRTree) : outcome BlocksMMRTree :=
  match hashToHeight t !! hash with
  | None => Ok t
  | Some _ => rmBlock (swrap 32 (height + 1)) t
  end.
Definition ResetRootTo := resetRootTo.

(** ** The lock

    A tree with its lock.  A method that takes the lock for writing waits while it is held: [None] is
    a call that does not return. *)
Record mutex_tree := { write_locked : bool; mx_tree : BlocksMMRTree }.

Definition with_Lock (releases : bool) (f : BlocksMMRTree -> outcome BlocksMMRTree) (m : mutex_tree) : option (outcome mutex_tree) :=
  if write_locked m then None else Some (t ← f (mx_tree m); Ok {| write_locked := negb releases; mx_tree := t |}).

(** The lock is not released. *)
Definition SetBlock (hash : bytes) (difficulty height : Z) : mutex_tree -> option (outcome mutex_tree) := with_Lock false (setBlock hash difficulty height).

Definition Current (t : BlocksMMRTree) : option TreeNode := lastNode t.
Definition CurrenWeight (t : BlocksMMRTree) : Z := chainWeight t.
Definition CurrentRoot (t : BlocksMMRTree) : bytes := rootHash t.

Definition mmr_Block (height : Z) (t : BlocksMMRTree) : outcome TreeNode :=
  '(node, _) ← getNode 0 height (mmr_store t); Ok (default empty_node node).
Definition mmr_Parent (height : Z) (t : BlocksMMRTree) : outcome TreeNode :=
  '(node, _) ← getNode 0 (swrap 32 (height - 1)) (mmr_store t); Ok (default empty_node node).

Definition RootForHeight (height : Z) (t : BlocksMMRTree) : bytes := default ZeroHash (heightToRoot t !! height).

Definition LeafByHash (blockHash : bytes) (t : BlocksMMRTree) : outcome (option TreeNode * bool) :=
  match hashToHeight t !! blockHash with
  | Some height => getNode 0 height (mmr_store t)
  | None => Ok (None, false)
  end.

Definition ActualRootForLeafByHash (blockHash : bytes) (t : BlocksMMRTree) : bytes * bool :=
  match hashToHeight t !! blockHash with
  | Some height => match heightToRoot t !! height with Some r => (r, true) | None => (ZeroHash, false) end
  | None => (ZeroHash, false)
  end.

Definition LookupNodeByRoot (mmrRoot : bytes) (t : BlocksMMRTree) : outcome (option TreeNode * bool) :=
  match rootToHeight t !! mmrRoot with
  | Some height => getNode 0 height (mmr_store t)
  | None => Ok (Some empty_node, false)
  end.

(** * container.go *)

(** A block of the index, by what the container reads of it. *)
Record BlockNode := {
  bn_hash : bytes; bn_prevMMRRoot : bytes; bn_actualMMRRoot : bytes; bn_height : Z; bn_powWeight : Z
}.

Record TreeContainer := { tc_tree : BlocksMMRTree; RootToBlock : gmap bytes bytes }.

Definition SetNodeQuick (node : BlockNode) (c : TreeContainer) : outcome TreeContainer :=
  t ← AddBlockWithoutRebuild (bn_hash node) (bn_actualMMRRoot node) (bn_height node) (bn_powWeight node) (tc_tree c);
  Ok {| tc_tree := t; RootToBlock := <[bn_actualMMRRoot node := bn_hash node]> (RootToBlock c) |}.

(** The walk to the fork: the blocks to add, the last one first, and the tree reset to the
    fork; [None] when the block found at a root is another one. *)
Fixpoint find_fork (iterMMRRoot : bytes) (ancestors : list BlockNode) (lifoToAdd : list BlockNode) (t : BlocksMMRTree)
    : outcome (option (list BlockNode * BlocksMMRTree)) :=
  match ancestors with
  | [] => Ok (Some (lifoToAdd, t))
  | iterNode :: ancestors =>
      '(bNode, topPresent) ← LookupNodeByRoot iterMMRRoot t;
      if (topPresent : bool) then
        match bNode with
        | None => Panic
        | Some bNode =>
            if negb (Hash_IsEqual (tn_Hash bNode) (bn_hash iterNode)) || negb (bn_height iterNode =? tn_Height bNode)
            then Ok None
            else t ← ResetRootTo (tn_Hash bNode) (tn_Height bNode) t; Ok (Some (lifoToAdd, t))
        end
      else find_fork (bn_prevMMRRoot iterNode) ancestors (lifoToAdd ++ [iterNode]) t
  end.

(** The blocks in the order they are added, with the root the new block is given. *)
Fixpoint add_nodes (nodes : list BlockNode) (actualRoot : bytes) (c : TreeContainer) : outcome (TreeContainer * bytes) :=
  match nodes with
  | [] => Ok (c, actualRoot)
  | bNode :: nodes =>
      if bool_decide (bn_actualMMRRoot bNode = ZeroHash) then
        t ← AppendBlock (bn_hash bNode) (bn_powWeight bNode) (tc_tree c);
        add_nodes nodes (CurrentRoot t)
          {| tc_tree := t; RootToBlock := <[CurrentRoot t := bn_hash bNode]> (RootToBlock c) |}
      else
        t ← AddBlockWithoutRebuild (bn_hash bNode) (bn_actualMMRRoot bNode) (nextHeight (tc_tree c)) (bn_powWeight bNode) (tc_tree c);
        add_nodes nodes actualRoot
          {| tc_tree := t; RootToBlock := <[bn_actualMMRRoot bNode := bn_hash bNode]> (RootToBlock c) |}
  end.

(** A block with its ancestors, the parent first.  The result is whether the block was
    added, the container, and the actual root of the block, which is set through the
    pointer. *)
Definition SetNodeToMmrWithReorganization (blockNode : BlockNode) (ancestors : list BlockNode) (c : TreeContainer)
    : outcome (bool * TreeContainer * bytes) :=
  let prevNodesMMRRoot := bn_prevMMRRoot blockNode in
  let currentMMRRoot := CurrentRoot (tc_tree c) in
  if Hash_IsEqual prevNodesMMRRoot currentMMRRoot then
    t ← AppendBlock (bn_hash blockNode) (bn_powWeight blockNode) (tc_tree c);
    Ok (true, {| tc_tree := t; RootToBlock := <[CurrentRoot t := bn_hash blockNode]> (RootToBlock c) |}, CurrentRoot t)
  else
  match ancestors with
  | [] => if 0 <? bn_height blockNode then Ok (false, c, bn_actualMMRRoot blockNode)
          else
          '(c, root) ← add_nodes [blockNode] (bn_actualMMRRoot blockNode) c; Ok (true, c, root)
  | _ =>
      fork ← find_fork (bn_prevMMRRoot blockNode) ancestors [blockNode] (tc_tree c);
      match fork with
      | None => Ok (false, c, bn_actualMMRRoot blockNode)
      | Some (lifoToAdd, t) =>
          '(c, root) ← add_nodes (rev lifoToAdd) (bn_actualMMRRoot blockNode) {| tc_tree := t; RootToBlock := RootToBlock c |};
          Ok (true, c, root)
      end
  end.

End hash.
