(* ===== verification/MmrStore.v ===== *)
(** The store of node/mmr computes the merkle mountain range of its leaves: a reference
    definition, level by level, and the loops of tree_store.go over slots and final marks. *)

From stdpp Require Import gmap.
From S2P Require Import Prelude Big WireEncoding WireTx Chainhash Mmr.

(** * Reference definition *)

(** A node by its hash and its weight. *)
Abbreviation value := (bytes * Z)%type.

Section spec.
Context `{HashFunction}.

Definition value_bytes (v : value) : bytes := v.1 ++ big_Bytes v.2.

Definition merge (a b : value) : value := (HashH (node_data (value_bytes a) (value_bytes b)), a.2 + b.2).

(** One level up: neighbours are merged, a last one without a neighbour is kept. *)
Fixpoint pair_up (l : list value) : list value :=
  match l with
  | a :: b :: l => merge a b :: pair_up l
  | l => l
  end.

Definition levels (l : nat) (leaves : list value) : list value := Nat.iter l pair_up leaves.

(** The root of the range: as many levels as there are leaves are enough. *)
Definition mmr_root (leaves : list value) : option value := head (levels (length leaves) leaves).

Definition combine_opt (a b : option value) : option value :=
  match a, b with
  | Some a, Some b => Some (merge a b)
  | Some a, None => Some a
  | None, _ => None
  end.

Lemma pair_ind {A} (P : list A -> Prop) : P [] -> (forall a, P [a]) -> (forall a b l, P l -> P (a :: b :: l)) -> forall l, P l.
Proof.
  intros H0 H1 H2 l. assert (Hp : P l /\ forall a, P (a :: l)); [|by destruct Hp].
  induction l as [|b l [IH1 IH2]]; [by split|]. split; [done|]. intros a. by apply H2.
Qed.

Lemma pair_up_lookup l : forall j, pair_up l !! j = combine_opt (l !! (2 * j)%nat) (l !! (2 * j + 1)%nat).
Proof.
  induction l as [|a|a b l IH] using pair_ind; intros j; cbn [pair_up].
  - by rewrite !lookup_nil.
  - destruct j as [|j]; [done|]. rewrite !lookup_cons_ne_0, !lookup_nil by lia. done.
  - destruct j as [|j]; [done|]. cbn [lookup list_lookup]. rewrite IH.
    replace (2 * S j)%nat with (S (S (2 * j))) by lia. by replace (S (S (2 * j)) + 1)%nat with (S (S (2 * j + 1))) by lia.
Qed.

Lemma pair_up_length l : length (pair_up l) = Nat.div2 (length l + 1).
Proof. induction l as [|a|a b l IH] using pair_ind; cbn in *; [done..|]. by rewrite IH. Qed.

Lemma levels_S l leaves : levels (S l) leaves = pair_up (levels l leaves).
Proof. done. Qed.

Lemma half_up n : (n <= 2 * Nat.div2 (n + 1) <= n + 1)%nat.
Proof.
  pose proof (Nat.div2_odd (n + 1)) as Hd. destruct (Nat.odd (n + 1)); cbn [Nat.b2n] in Hd; lia.
Qed.

Lemma levels_length l k leaves : (length leaves <= 2 ^ k)%nat -> (l <= k)%nat -> (length (levels l leaves) <= 2 ^ (k - l))%nat.
Proof.
  intros Hl. induction l as [|l IH]; intros Hk; [by rewrite Nat.sub_0_r|]. rewrite levels_S, pair_up_length.
  specialize (IH ltac:(lia)). replace (k - l)%nat with (S (k - S l)) in IH by lia. cbn [Nat.pow] in IH.
  pose proof (half_up (length (levels l leaves))). lia.
Qed.

Lemma levels_nonempty l leaves : leaves <> [] -> levels l leaves <> [].
Proof.
  intros Hne. induction l as [|l IH]; [done|]. rewrite levels_S. by destruct (levels l leaves) as [|a [|b t]].
Qed.

Lemma pair_up_single a : pair_up [a] = [a].
Proof. done. Qed.

Lemma levels_add a d leaves : levels (a + d) leaves = levels a (levels d leaves).
Proof. apply Nat.iter_add. Qed.

(** Once a single node is left it stays. *)
Lemma levels_single a r : levels a [r] = [r].
Proof. induction a as [|a IH]; [done|]. by rewrite levels_S, IH. Qed.

Lemma levels_one k leaves : (length leaves <= 2 ^ k)%nat -> leaves <> [] -> exists r, levels k leaves = [r].
Proof.
  intros Hl Hne. pose proof (levels_length k k leaves Hl ltac:(lia)) as Hd. rewrite Nat.sub_diag in Hd. cbn in Hd.
  pose proof (levels_nonempty k leaves Hne). destruct (levels k leaves) as [|r [|? ?]]; [done|by exists r|cbn in Hd; lia].
Qed.

Lemma levels_root k leaves : (length leaves <= 2 ^ k)%nat -> leaves <> [] -> levels k leaves !! 0%nat = mmr_root leaves.
Proof.
  intros Hl Hne. unfold mmr_root. set (n := length leaves) in *.
  destruct (levels_one k leaves Hl Hne) as [r Hr]. destruct (levels_one n leaves) as [r' Hr']; [|done|].
  { pose proof (Nat.pow_gt_lin_r 2 n). subst n. lia. }
  destruct (decide (k <= n)%nat) as [Hk|Hk].
  - replace n with ((n - k) + k)%nat by lia. rewrite levels_add, Hr, levels_single. done.
  - replace k with ((k - n) + n)%nat by lia. rewrite levels_add, Hr', levels_single. done.
Qed.
End spec.

(** * Slots *)

Definition at_slot (s : treeStore) (l j : nat) : option TreeNode := mjoin (level l s !! j).

Definition is_final (n : option TreeNode) : bool := match n with Some n => final n | None => false end.

(** Of [2 ^ k] leaves, each level with half the slots of the one below. *)
Definition shape (k : nat) (s : treeStore) : Prop :=
  length s = S k /\ forall l, (l <= k)%nat -> lenOfLevel l s = (2 ^ (k - l))%nat.

Lemma at_beyond k s l j : shape k s -> (k < l)%nat \/ (2 ^ (k - l) <= j)%nat -> at_slot s l j = None.
Proof.
  intros [Hn Hl] Hd. unfold at_slot, level. destruct (decide (l <= k)%nat) as [Hk|Hk].
  - destruct Hd as [|Hd]; [lia|]. specialize (Hl l Hk). unfold lenOfLevel, level in Hl. by rewrite lookup_ge_None_2 by lia.
  - rewrite (lookup_ge_None_2 s) by lia. done.
Qed.

Lemma getNode_spec k s l j : shape k s -> getNode l (Z.of_nat j) s = Ok (at_slot s l j, is_final (at_slot s l j)).
Proof.
  intros Hs. pose proof Hs as [Hn Hl]. unfold getNode. destruct (Nat.ltb_spec (length s) (l + 1)) as [Hlt|Hge].
  { by rewrite (at_beyond k) by (done || lia). }
  specialize (Hl l ltac:(lia)). rewrite Hl. destruct (Z.ltb_spec (Z.of_nat (2 ^ (k - l))) (Z.of_nat j + 1)) as [Hj|Hj].
  { by rewrite (at_beyond k) by (done || lia). }
  rewrite (proj2 (Z.ltb_ge _ _)), Nat2Z.id by lia. reflexivity.
Qed.

Lemma setNode_spec k s l j n : shape k s -> (l <= k)%nat -> (j < 2 ^ (k - l))%nat ->
  exists s', setNode l j n s = Ok s' /\ shape k s' /\
    forall l' j', at_slot s' l' j' = if decide (l' = l /\ j' = j) then n else at_slot s l' j'.
Proof.
  intros [Hn Hs] Hl Hj. destruct (lookup_lt_is_Some_2 s l) as [xs Hx]; [lia|].
  pose proof (Hs l Hl) as Hlen. unfold lenOfLevel, level in Hlen. rewrite Hx in Hlen. cbn in Hlen.
  unfold setNode. rewrite Hx, (proj2 (Nat.ltb_lt _ _)) by lia. eexists. split; [done|]. split.
  - split; [by rewrite length_insert|]. intros l' Hl'. unfold lenOfLevel, level. destruct (decide (l = l')) as [->|Hne].
    + rewrite list_lookup_insert_eq by lia. cbn. by rewrite length_insert, Hlen.
    + rewrite list_lookup_insert_ne by done. by apply Hs.
  - intros l' j'. unfold at_slot, level. destruct (decide (l = l')) as [<-|Hne].
    + rewrite list_lookup_insert_eq, Hx by lia. cbn. destruct (decide (j = j')) as [<-|Hne].
      * rewrite list_lookup_insert_eq, decide_True by (done || lia). done.
      * rewrite list_lookup_insert_ne, decide_False by (done || naive_solver). done.
    + rewrite list_lookup_insert_ne, decide_False by (done || naive_solver). done.
Qed.

(** ** Allocation *)

Lemma shape_tail k xs s : shape (S k) (xs :: s) -> length xs = (2 ^ S k)%nat /\ shape k s.
Proof.
  intros [Hn Hl]. split; [apply (Hl 0%nat); lia|]. split; [cbn in Hn; lia|]. intros l Hlk. apply (Hl (S l)). lia.
Qed.

Lemma at_cons_S xs s l j : at_slot (xs :: s) (S l) j = at_slot s l j.
Proof. done. Qed.

Lemma at_grown xs n j : mjoin ((xs ++ replicate n (@None TreeNode)) !! j) = mjoin (xs !! j).
Proof.
  destruct (decide (j < length xs)%nat) as [Hj|Hj]; [by rewrite lookup_app_l by lia|].
  rewrite lookup_app_r, (lookup_ge_None_2 xs) by lia. destruct (replicate n None !! (j - length xs)%nat) as [x|] eqn:E; [|done].
  by apply lookup_replicate_1 in E as [-> _].
Qed.

Lemma pow2_nat k : Z.of_nat (2 ^ k) = 2 ^ Z.of_nat k.
Proof. by rewrite Nat2Z.inj_pow. Qed.

Lemma pow2_half_quot k : Z.quot (2 ^ Z.of_nat (S k)) 2 = 2 ^ Z.of_nat k.
Proof.
  rewrite Nat2Z.inj_succ, Z.pow_succ_r, Z.mul_comm by lia. apply Z.quot_mul. lia.
Qed.

Lemma grow_levels_spec k : forall s, shape k s ->
  exists s', grow_levels s (S (S k)) (2 ^ Z.of_nat (S k)) = Ok s' /\ shape (S k) s' /\
    forall l j, at_slot s' l j = at_slot s l j.
Proof.
  induction k as [|k IH]; intros s Hs.
  - destruct Hs as [Hn Hl]. destruct s as [|xs [|? ?]]; try discriminate Hn. pose proof (Hl 0%nat ltac:(lia)) as Hx. cbn in Hx.
    destruct xs as [|x [|? ?]]; try discriminate Hx. exists [[x; None]; [None]]. split; [reflexivity|]. split.
    + split; [done|]. intros [|[|l]] ?; [done..|lia].
    + intros [|[|l]] j; [|by destruct j as [|[|j]]|done]. by destruct j as [|[|j]].
  - destruct s as [|xs s]; [by destruct Hs|]. apply shape_tail in Hs as [Hx Hs]. destruct (IH s Hs) as (s' & E & Hs' & Ha).
    pose proof (pow2_nat (S k)) as P1. rewrite <-Hx in P1. change (Z.of_nat (length xs)) with (len xs) in P1.
    assert (P2 : 2 ^ Z.of_nat (S (S k)) = 2 * len xs) by (rewrite P1, (Nat2Z.inj_succ (S k)), Z.pow_succ_r by lia; done).
    cbn [grow_levels tail]. rewrite pow2_half_quot. rewrite (proj2 (Z.ltb_ge _ _)) by (rewrite P2; pose proof (len_nonneg xs); lia).
    change (grow_levels s (S (S k)) (2 ^ Z.of_nat (S k))) with (grow_levels s (S (S k)) (2 ^ Z.of_nat (S k))) in E.
    cbn [grow_levels] in E. rewrite E. cbn [mbind outcome_bind]. eexists. split; [done|]. split.
    + destruct Hs' as [Hn' Hl']. split; [cbn; by rewrite Hn'|]. intros [|l] Hl.
      * unfold lenOfLevel, level. cbn [lookup list_lookup from_option id]. rewrite length_app, length_replicate, P2.
        replace (2 ^ (S (S k) - 0))%nat with (2 * length xs)%nat by (rewrite Hx; done). unfold len. lia.
      * apply (Hl' l). lia.
    + intros [|l] j; [apply at_grown|]. rewrite !at_cons_S. apply Ha.
Qed.

Lemma land_pow2_succ k : 0 < k -> Z.land (2 ^ k + 1) (2 ^ k) = 2 ^ k.
Proof.
  intros Hk. apply Z.bits_inj'. intros n Hn. rewrite Z.land_spec, Z.pow2_bits_eqb by lia. destruct (Z.eqb_spec k n) as [->|Hne]; [|by rewrite andb_false_r].
  rewrite andb_true_r. replace (2 ^ n + 1) with (Z.lor 1 (Z.shiftl 1 n)).
  - rewrite Z.lor_spec, Z.shiftl_spec, Z.sub_diag by lia. by rewrite orb_true_r.
  - rewrite lor_shift; [lia|lia|]. split; [lia|]. apply Z.pow_gt_1; lia.
Qed.

Lemma next_pow2_succ k : 0 <= k -> mmr_nextPowerOfTwo (2 ^ k + 1) = 2 ^ (k + 1).
Proof.
  intros Hk. unfold mmr_nextPowerOfTwo. replace (2 ^ k + 1 - 1) with (2 ^ k) by lia. destruct (Z.eqb_spec k 0) as [->|Hne]; [done|].
  rewrite land_pow2_succ by lia. pose proof (Z.pow_pos_nonneg 2 k). rewrite (proj2 (Z.eqb_neq _ 0)) by lia.
  assert (Hl : Z.log2 (2 ^ k + 1) = k).
  { apply Z.log2_unique; [done|]. rewrite Z.pow_succ_r by done. assert (1 < 2 ^ k) by (apply Z.pow_gt_1; lia). lia. }
  rewrite Hl, Z.shiftl_mul_pow2 by lia. lia.
Qed.

Lemma allocate_spec k s : shape k s -> (k < 30)%nat ->
  exists s', allocate s = Ok s' /\ shape (S k) s' /\ forall l j, at_slot s' l j = at_slot s l j.
Proof.
  intros Hs Hk. pose proof Hs as [Hn Hl]. unfold allocate. rewrite (Hl 0%nat), Nat.sub_0_r, pow2_nat by lia.
  assert (Hb : 2 ^ Z.of_nat k <= 2 ^ 29) by (apply Z.pow_le_mono_r; lia). pose proof (Z.pow_pos_nonneg 2 (Z.of_nat k)).
  rewrite swrap_id, next_pow2_succ by (unfold is_int; lia). unfold log2_int. rewrite Z.log2_pow2, Hn by lia.
  rewrite (proj2 (Z.eqb_neq _ _)), (proj2 (Z.ltb_ge _ _)) by lia.
  replace (Z.to_nat (Z.of_nat k + 1 + 1)) with (S (S k)) by lia. replace (Z.of_nat k + 1) with (Z.of_nat (S k)) by lia.
  by apply grow_levels_spec.
Qed.

Lemma appendLeaf_spec k s n node : shape k s -> (n < 2 ^ k)%nat \/ ((k < 30)%nat /\ (n < 2 ^ S k)%nat) ->
  exists k' s', appendLeaf (Z.of_nat n) node s = Ok s' /\ shape k' s' /\ (n < 2 ^ k')%nat /\
    (k' = k \/ k' = S k /\ (k < 30)%nat /\ (2 ^ k <= n)%nat) /\
    forall l j, at_slot s' l j = if decide (l = 0 /\ j = n)%nat then Some node else at_slot s l j.
Proof.
  intros Hs Hn. unfold appendLeaf. rewrite (proj2 (Z.ltb_ge _ 0)), Nat2Z.id by lia.
  pose proof (proj2 Hs 0%nat ltac:(lia)) as Hl. rewrite Nat.sub_0_r in Hl. rewrite Hl.
  destruct (Z.leb_spec (Z.of_nat n) (Z.of_nat (2 ^ k) - 1)).
  - destruct (setNode_spec k s 0 n (Some node) Hs) as (s' & E & Hs' & Ha); [lia|rewrite Nat.sub_0_r; lia|].
    exists k, s'. split_and!; [done|done|lia|by left|done].
  - destruct Hn as [Hn|[Hk Hn]]; [lia|]. destruct (allocate_spec k s Hs Hk) as (s1 & E1 & Hs1 & Ha1). rewrite E1. cbn [mbind outcome_bind].
    destruct (setNode_spec (S k) s1 0 n (Some node) Hs1) as (s' & E & Hs' & Ha); [lia|rewrite Nat.sub_0_r; lia|].
    exists (S k), s'. split_and!; [done|done|lia|right; lia|]. intros l j. by rewrite Ha, Ha1.
Qed.

(** * The loops *)

(** A slot holds a value, or nothing. *)
Definition slot_is (o : option TreeNode) (v : option value) : Prop :=
  match o, v with
  | Some n, Some v => tn_Hash n = v.1 /\ tn_Weight n = Some v.2
  | None, None => True
  | _, _ => False
  end.

Section loops.
Context `{HashFunction}.

Lemma slot_is_final b n v : slot_is (Some (set_final b n)) v <-> slot_is (Some n) v.
Proof. done. Qed.

Lemma hashLeafs_spec a b x y : slot_is (Some a) (Some x) -> slot_is b y ->
  exists r, hashLeafs (Some a) b = Ok (Some r) /\ slot_is (Some r) (combine_opt (Some x) y).
Proof.
  intros [Hh Hw] Hb. unfold hashLeafs, hashNodes. destruct b as [b|], y as [y|]; try done.
  - destruct Hb as [Hh' Hw']. unfold TreeNode_Bytes. rewrite Hw, Hw'. cbn [mbind outcome_bind fst]. eexists. split; [done|].
    cbn. unfold value_bytes. by rewrite Hh, Hh'.
  - eexists. split; [done|]. done.
Qed.

Section level.
Context (k l : nat) (Hl : (l < k)%nat) (s0 : treeStore) (xs : list value).
Context (Hx : forall j, slot_is (at_slot s0 l j) (xs !! j)).
Context (Hq : (length (pair_up xs) <= 2 ^ (k - S l))%nat).
Context (Hfin : forall i, is_final (at_slot s0 (S l) i) = true -> slot_is (at_slot s0 (S l) i) (pair_up xs !! i)).
Context (Hnone : forall i, (length (pair_up xs) <= i)%nat -> at_slot s0 (S l) i = None).
Context (Hpair : forall j, is_final (at_slot s0 l (2 * j)) && is_final (at_slot s0 l (2 * j + 1)) = false).

(** After [j] pairs. *)
Definition loop_inv (j : nat) (s : treeStore) : Prop :=
  shape k s /\ (forall l' i, l' <> S l -> at_slot s l' i = at_slot s0 l' i) /\
  (forall i, (i < j)%nat -> slot_is (at_slot s (S l) i) (pair_up xs !! i)) /\
  (forall i, (j <= i)%nat -> at_slot s (S l) i = at_slot s0 (S l) i) /\
  (forall i, is_final (at_slot s (S l) i) = true -> is_final (at_slot s0 (S l) i) = true).

Lemma calc_level_done n s root : forall i, (length (pair_up xs) <= i)%nat -> loop_inv (length (pair_up xs)) s ->
  calc_level n l (2 * i) (length (pair_up xs)) s root = Ok (s, root).
Proof.
  induction n as [|n IH]; intros i Hi Hs; [done|]. pose proof Hs as (Hsh & Hoth & _ & Hold & _). cbn [calc_level].
  replace (l + 1)%nat with (S l) by lia. rewrite (getNode_spec k s (S l)) by done. cbn [mbind outcome_bind snd]. rewrite Hold, Hnone by lia. cbn [is_final].
  replace (Z.of_nat (2 * i) + 1) with (Z.of_nat (2 * i + 1)) by lia. rewrite !(getNode_spec k s l) by done. cbn [mbind outcome_bind].
  rewrite !Hoth by lia. pose proof (Hx (2 * i)) as Hx0. pose proof (Hx (2 * i + 1)) as Hx1.
  pose proof (pair_up_length xs) as Lp. pose proof (half_up (length xs)). rewrite lookup_ge_None_2 in Hx0, Hx1 by lia.
  destruct (at_slot s0 l (2 * i)); [done|]. destruct (at_slot s0 l (2 * i + 1)); [done|].
  replace (2 * i + 2)%nat with (2 * S i)%nat by lia. apply IH; [lia|done].
Qed.

Lemma pair_some j : (j < length (pair_up xs))%nat -> exists a x, at_slot s0 l (2 * j) = Some a /\ xs !! (2 * j)%nat = Some x /\ slot_is (Some a) (Some x).
Proof.
  intros Hj. pose proof (pair_up_length xs) as Lp. pose proof (half_up (length xs)).
  destruct (lookup_lt_is_Some_2 xs (2 * j)) as [x Ex]; [lia|]. pose proof (Hx (2 * j)) as Hxj. rewrite Ex in Hxj.
  destruct (at_slot s0 l (2 * j)) as [a|] eqn:Ea; [|done]. by exists a, x.
Qed.

Lemma calc_level_run n : forall j s root, loop_inv j s -> (j <= length (pair_up xs))%nat -> (length (pair_up xs) <= j + n)%nat ->
  exists s' root', calc_level n l (2 * j) j s root = Ok (s', root') /\ loop_inv (length (pair_up xs)) s' /\
    (j = length (pair_up xs) -> root' = root) /\
    ((j < length (pair_up xs))%nat -> is_final (at_slot s0 (S l) (length (pair_up xs) - 1)) = false ->
     slot_is root' (pair_up xs !! (length (pair_up xs) - 1)%nat)).
Proof.
  induction n as [|n IH]; intros j s root Hs Hj Hn.
  { replace j with (length (pair_up xs)) in * by lia. exists s, root. split_and!; [done|done|done|lia]. }
  destruct (decide (j = length (pair_up xs))) as [->|Hne].
  { exists s, root. split_and!; [by apply calc_level_done|done|done|lia]. }
  pose proof Hs as (Hsh & Hoth & Hdone & Hold & Hf). destruct (pair_some j) as (a & x & Ea & Ex & Hax); [lia|]. cbn [calc_level].
  replace (l + 1)%nat with (S l) by lia. rewrite (getNode_spec k s (S l)) by done. cbn [mbind outcome_bind snd]. rewrite (Hold j) by lia.
  destruct (is_final (at_slot s0 (S l) j)) eqn:Ef.
  - replace (2 * j + 2)%nat with (2 * S j)%nat by lia. replace (j + 1)%nat with (S j) by lia.
    destruct (IH (S j) s root) as (s' & root' & E & Hs' & _ & Hr); [|lia|lia|].
    { split_and!; [done|done| |intros i Hi; apply Hold; lia|done]. intros i Hi. destruct (decide (i = j)) as [->|]; [|apply Hdone; lia].
      rewrite Hold by lia. by apply Hfin. }
    exists s', root'. split_and!; [done|done|done|]. intros _ Hlast. apply Hr; [|done].
    destruct (decide (S j = length (pair_up xs))) as [E'|]; [|lia]. rewrite <-E' in Hlast. replace (S j - 1)%nat with j in Hlast by lia. congruence.
  - replace (Z.of_nat (2 * j) + 1) with (Z.of_nat (2 * j + 1)) by lia. rewrite !(getNode_spec k s l) by done. cbn [mbind outcome_bind].
    rewrite !Hoth by lia. rewrite Ea. destruct (hashLeafs_spec a (at_slot s0 l (2 * j + 1)) x (xs !! (2 * j + 1)%nat) Hax (Hx _)) as (r & Er & Hr).
    rewrite Er. cbn [mbind outcome_bind].
    assert (Hup : slot_is (Some r) (pair_up xs !! j)) by (rewrite pair_up_lookup, Ex; exact Hr).
    set (r' := set_final _ r). assert (Hr' : final r' = false) by (change (is_final (Some a) && is_final (at_slot s0 l (2 * j + 1)) = false); rewrite <-Ea; apply Hpair).
    destruct (setNode_spec k s (S l) j (Some r') Hsh) as (s1 & E1 & Hs1 & Ha); [lia|lia|]. rewrite E1. cbn [mbind outcome_bind].
    replace (2 * j + 2)%nat with (2 * S j)%nat by lia. replace (j + 1)%nat with (S j) by lia.
    destruct (IH (S j) s1 (Some r')) as (s' & root' & E & Hs' & Hr1 & Hr2); [|lia|lia|].
    { split_and!; [done| | | |].
      - intros l' i Hl'. rewrite Ha, decide_False by naive_solver. by apply Hoth.
      - intros i Hi. rewrite Ha. destruct (decide (S l = S l /\ i = j)) as [[_ ->]|Hni]; [exact Hup|]. apply Hdone. destruct (decide (i = j)); naive_solver lia.
      - intros i Hi. rewrite Ha, decide_False by naive_solver lia. apply Hold. lia.
      - intros i. rewrite Ha. destruct (decide (S l = S l /\ i = j)) as [_|_]; [|apply Hf]. change (is_final (Some r')) with (final r'). congruence. }
    replace (match at_slot s0 l (2 * j + 1) with Some _ | _ => calc_level n l (2 * S j) (S j) s1 (Some r') end)
      with (calc_level n l (2 * S j) (S j) s1 (Some r')) by (by destruct (at_slot s0 l (2 * j + 1))).
    exists s', root'. split_and!; [done|done|done|]. intros _ Hlast. destruct (decide (S j = length (pair_up xs))) as [E'|]; [|apply Hr2; [lia|done]].
    rewrite (Hr1 E'), <-E'. replace (S j - 1)%nat with j by lia. exact Hup.
Qed.
End level.

(** * The root *)

Section root.
Context (k : nat) (leaves : list value) (Hne : leaves <> []) (Hlen : (length leaves <= 2 ^ k)%nat).

Definition finals_ok (s : treeStore) : Prop :=
  forall l j, is_final (at_slot s l j) = true ->
    l = 1%nat /\ j = 0%nat /\ ((2 <= k)%nat -> (2 <= length leaves)%nat /\ slot_is (at_slot s 1 0) (levels 1 leaves !! 0%nat)).

(** The levels up to [l] are those of the leaves, the ones above may be out of date. *)
Definition ready (l : nat) (s : treeStore) : Prop :=
  shape k s /\ finals_ok s /\
  (forall l' j, (l' <= l)%nat -> slot_is (at_slot s l' j) (levels l' leaves !! j)) /\
  (forall l' j, (l' <= k)%nat -> (length (levels l' leaves) <= j)%nat -> at_slot s l' j = None).

(** Every level is up to date. *)
Definition fresh (s : treeStore) : Prop := ready k s.

Lemma level_turn l s root : (2 <= k)%nat -> (l < k)%nat -> ready l s ->
  exists s' root', calc_level (Nat.div2 (lenOfLevel l s + 1)) l 0 0 s root = Ok (s', root') /\ ready (S l) s' /\
    (forall j, at_slot s' 0 j = at_slot s 0 j) /\
    (S l = k -> slot_is root' (levels k leaves !! 0%nat)).
Proof.
  intros Hk2 Hl (Hsh & Hfin & Hup & Hno). pose proof (levels_length (S l) k leaves Hlen ltac:(lia)) as Hq. rewrite levels_S in Hq.
  pose proof (proj2 Hsh l ltac:(lia)) as Hn.
  destruct (calc_level_run k l Hl s (levels l leaves)) with (n := Nat.div2 (lenOfLevel l s + 1)) (j := 0%nat) (s := s) (root := root)
    as (s' & root' & E & (Hsh' & Hoth & Hdone & Hold & Hf') & _ & Hr).
  - intros j. by apply Hup.
  - exact Hq.
  - intros i Hi. apply Hfin in Hi as (El & -> & Hs). injection El as ->. by apply Hs.
  - intros i Hi. apply Hno; [lia|]. by rewrite levels_S.
  - intros j. destruct (is_final (at_slot s l (2 * j + 1))) eqn:Ef; [|by rewrite andb_false_r]. apply Hfin in Ef as (_ & Hj & _). lia.
  - split_and!; [done|done|lia|done|done].
  - lia.
  - rewrite Hn. replace (k - l)%nat with (S (k - S l)) by lia. cbn [Nat.pow]. pose proof (half_up (2 * 2 ^ (k - S l))). lia.
  - exists s', root'. split; [exact E|]. assert (Hnew : forall j, slot_is (at_slot s' (S l) j) (levels (S l) leaves !! j)).
    { intros j. rewrite levels_S. destruct (decide (j < length (pair_up (levels l leaves)))%nat) as [Hj|Hj]; [by apply Hdone|].
      rewrite Hold, Hno, lookup_ge_None_2 by (rewrite ?levels_S; lia). done. }
    split_and!.
    + split_and!; [done| | |].
      * intros l' j Hfj. assert (Hs : is_final (at_slot s l' j) = true).
        { destruct (decide (l' = S l)) as [->|Hd]; [by apply Hf'|by rewrite Hoth in Hfj]. }
        apply Hfin in Hs as (-> & -> & Hs). split_and!; [done..|]. intros _. specialize (Hs Hk2) as [H2 Hs]. split; [done|].
        destruct (decide (l = 0%nat)) as [->|]; [apply Hnew|by rewrite Hoth by lia].
      * intros l' j Hl'. destruct (decide (l' = S l)) as [->|]; [apply Hnew|]. rewrite Hoth by done. apply Hup. lia.
      * intros l' j Hl' Hj. destruct (decide (l' = S l)) as [->|]; [|rewrite Hoth by done; by apply Hno].
        specialize (Hnew j). rewrite lookup_ge_None_2 in Hnew by done. by destruct (at_slot s' (S l) j).
    + intros j. by apply Hoth.
    + intros <-. destruct (levels_one (S l) leaves Hlen Hne) as [r Er]. rewrite levels_S in *. rewrite Er in Hr. cbn [length] in Hr. rewrite Er.
      apply Hr; [lia|]. cbn [Nat.sub]. destruct (is_final (at_slot s (S l) 0)) eqn:Ef; [|done]. apply Hfin in Ef as (El & _ & _). lia.
Qed.

Lemma calc_levels_spec n : forall l s root, (2 <= k)%nat -> (n + l = k)%nat -> ready l s ->
  exists s' root', calc_levels n l s root = Ok (s', root') /\ fresh s' /\ (forall j, at_slot s' 0 j = at_slot s 0 j) /\
    ((1 <= n)%nat -> slot_is root' (levels k leaves !! 0%nat)).
Proof.
  induction n as [|n IH]; intros l s root Hk2 Hk Hs.
  { exists s, root. cbn in Hk. subst l. split_and!; [done..|lia]. }
  cbn [calc_levels]. destruct (level_turn l s root) as (s1 & root1 & E1 & Hs1 & H01 & Hr1); [lia|lia|done|]. rewrite E1. cbn [mbind outcome_bind].
  destruct (IH (S l) s1 root1) as (s' & root' & E & Hs' & H0' & Hr); [lia|lia|done|]. exists s', root'. split_and!; [done|done| |].
  - intros j. by rewrite H0', H01.
  - intros _. destruct n as [|n]; [|apply Hr; lia]. injection E as -> ->. apply Hr1. lia.
Qed.

Lemma calcRoot_spec s : ready 0 s ->
  exists s' r, calcRoot s = Ok (s', Some r) /\ fresh s' /\ slot_is (Some r) (mmr_root leaves) /\
    forall j, at_slot s' 0 j = at_slot s 0 j.
Proof.
  intros Hs. pose proof Hs as (Hsh & Hfin & Hup & Hno). pose proof (proj2 Hsh 0%nat ltac:(lia)) as Hn. rewrite Nat.sub_0_r in Hn.
  unfold calcRoot. rewrite Hn. rewrite <-(levels_root k) by done.
  pose proof (Hup 0%nat 0%nat ltac:(lia)) as Hs0. assert (Hpos : (0 < length leaves)%nat) by (clear -Hne; destruct leaves; [done|cbn; lia]).
  destruct (lookup_lt_is_Some_2 leaves 0 Hpos) as [v Hv].
  change (levels 0 leaves) with leaves in Hs0. rewrite Hv in Hs0.
  destruct (at_slot s 0 0) as [a|] eqn:Ea; [|done]. destruct (decide (k = 0%nat)) as [Ek|Hk0]; [|destruct (decide (k = 1%nat)) as [Ek|Hk1]].
  - rewrite Ek. cbn [Nat.pow Nat.eqb]. fold (at_slot s 0 0). rewrite Ea. exists s, a. split_and!; [done| | |done].
    + unfold fresh. by rewrite Ek.
    + change (levels 0 leaves) with leaves. by rewrite Hv.
  - rewrite Ek. cbn [Nat.pow Nat.mul Nat.add Nat.eqb]. fold (at_slot s 0 0). fold (at_slot s 0 1). rewrite Ea.
    destruct (hashLeafs_spec a (at_slot s 0 1) v (leaves !! 1%nat) Hs0 (Hup 0%nat 1%nat ltac:(lia))) as (r & Er & Hr).
    rewrite Er. cbn [mbind outcome_bind].
    destruct (setNode_spec k s 1 0 (Some (set_final true r)) Hsh) as (s' & E & Hsh' & Ha); [lia|rewrite Ek; cbn; lia|].
    rewrite E. cbn [mbind outcome_bind].
    assert (Hroot : slot_is (Some (set_final true r)) (levels 1 leaves !! 0%nat)) by (rewrite levels_S, pair_up_lookup; change (levels 0 leaves) with leaves; cbn [Nat.mul Nat.add]; rewrite Hv; exact Hr).
    exists s', (set_final true r). split_and!; [done| |done|intros j; rewrite Ha, decide_False; [done|lia]].
    split_and!; [done| | |].
    + intros l j Hf. rewrite Ha in Hf. destruct (decide (l = 1 /\ j = 0)%nat) as [[-> ->]|]; [split_and!; [done..|lia]|].
      destruct (Hfin _ _ Hf) as (-> & -> & _). exfalso. naive_solver.
    + intros l j Hl. rewrite Ha. destruct (decide (l = 1 /\ j = 0)%nat) as [[-> ->]|Hn1]; [done|].
      destruct l as [|[|l]]; [by apply Hup| |lia]. rewrite Hno; [|lia|].
      * rewrite lookup_ge_None_2; [done|]. destruct (levels_one 1 leaves) as [x ->]; [by rewrite Ek in Hlen|done|cbn; lia].
      * destruct (levels_one 1 leaves) as [x ->]; [by rewrite Ek in Hlen|done|cbn; lia].
    + intros l j Hl Hj. rewrite Ha, decide_False; [by apply Hno|]. intros [-> ->]. pose proof (levels_nonempty 1 leaves Hne).
      destruct (levels 1 leaves); cbn in Hj; [done|lia].
  - assert (Hp : (4 <= 2 ^ k)%nat) by (change 4%nat with (2 ^ 2)%nat; apply Nat.pow_le_mono_r; lia).
    rewrite (proj2 (Nat.eqb_neq _ 1)), (proj2 (Nat.eqb_neq _ 2)) by lia. unfold levelsCount. rewrite (proj1 Hsh).
    destruct (calc_levels_spec (S k - 1) 0 s None) as (s' & root & E & Hf & Hz & Hr); [lia|lia|done|].
    specialize (Hr ltac:(lia)). destruct (levels_one k leaves Hlen Hne) as [x Ex]. rewrite Ex in *.
    destruct root as [r|]; [|done]. exists s', r. by split_and!.
Qed.
End root.
End loops.
