(* ===== verification/MmrTree.v ===== *)
(** The tree of node/mmr is a list of blocks: the operations of tree.go keep its weight, root,
    store and maps those of the blocks, and what they do outside of the cases that the node
    relies on. *)

From stdpp Require Import gmap.
From S2P Require Import Prelude Big WireEncoding WireTx Chainhash Mmr MmrStore.

(** * Levels of a longer and of a shorter list *)

Section levels.
Context `{HashFunction}.

Lemma levels_length_mono l (xs ys : list value) : (length xs <= length ys)%nat ->
  (length (levels l xs) <= length (levels l ys))%nat.
Proof.
  intros Hl. induction l as [|l IH]; [done|]. rewrite !levels_S, !pair_up_length. apply Nat.div2_le_mono. lia.
Qed.

(** A node depends on the leaves below it only. *)
Lemma levels_prefix l : forall (xs ys : list value) j, ((j + 1) * 2 ^ l <= length xs)%nat ->
  levels l (xs ++ ys) !! j = levels l xs !! j /\ is_Some (levels l xs !! j).
Proof.
  induction l as [|l IH]; intros xs ys j Hj.
  - cbn in *. rewrite lookup_app_l by lia. split; [done|]. apply lookup_lt_is_Some_2. lia.
  - cbn [Nat.pow] in Hj. rewrite !levels_S, !pair_up_lookup. destruct (IH xs ys (2 * j)%nat) as [E0 [a Ea]]; [nia|].
    destruct (IH xs ys (2 * j + 1)%nat) as [E1 [b Eb]]; [nia|]. rewrite E0, E1, Ea, Eb. split; [done|by eexists].
Qed.

Lemma levels_take l (bs : list value) i j : (i <= length bs)%nat -> (j < i / 2 ^ l)%nat ->
  levels l (take i bs) !! j = levels l bs !! j.
Proof.
  intros Hi Hj. rewrite <-(take_drop i bs) at 2. symmetry. apply levels_prefix. rewrite length_take, Nat.min_l by done.
  pose proof (Nat.Div0.mul_div_le i (2 ^ l)). nia.
Qed.

Lemma levels_take_length l (bs : list value) i : (i <= length bs)%nat -> (i / 2 ^ l <= length (levels l (take i bs)))%nat.
Proof.
  intros Hi. destruct (i / 2 ^ l)%nat as [|j] eqn:E; [lia|]. apply lookup_lt_is_Some_1 with (i := j).
  destruct (levels_prefix l (take i bs) (drop i bs) j) as [_ Hs]; [|done]. rewrite length_take, Nat.min_l by done.
  pose proof (Nat.Div0.mul_div_le i (2 ^ l)). nia.
Qed.

(** A node above the leaves is a merge, or the last leaf. *)
Lemma pair_up_last (xs : list value) v : v ∈ pair_up xs -> (exists a b, v = merge a b) \/ last xs = Some v.
Proof.
  induction xs as [|a|a b xs IH] using pair_ind; cbn [pair_up].
  - by rewrite elem_of_nil.
  - rewrite elem_of_cons, elem_of_nil. intros [->|[]]. by right.
  - rewrite elem_of_cons. intros [->|Hv]; [by left; exists a, b|]. destruct (IH Hv) as [?|Hl]; [by left|right]. by rewrite !last_cons, Hl.
Qed.
End levels.

(** * The nodes that are dropped *)

Lemma drop_levels_length start s : length (fst (drop_levels start s)) = length s.
Proof.
  revert start. induction s as [|xs s IH]; intros start; [done|]. cbn [drop_levels]. specialize (IH (start / 2)%nat).
  destruct (drop_levels (start / 2) s). cbn in *. by rewrite IH.
Qed.

Lemma drop_levels_level s : forall start l,
  level l (fst (drop_levels start s)) =
    take (start / 2 ^ l) (level l s) ++ replicate (length (level l s) - start / 2 ^ l) None.
Proof.
  induction s as [|xs s IH]; intros start l; [unfold level; rewrite !lookup_nil; cbn; by rewrite take_nil|].
  cbn [drop_levels]. specialize (IH (start / 2)%nat). destruct (drop_levels (start / 2) s) as [s' d]. cbn [fst] in *.
  destruct l as [|l]; [unfold level; cbn [lookup list_lookup from_option id Nat.pow]; by rewrite Nat.div_1_r|].
  change (level (S l) (_ :: s')) with (level l s'). change (level (S l) (xs :: s)) with (level l s).
  rewrite IH, Nat.Div0.div_div. reflexivity.
Qed.

Lemma drop_levels_shape k start s : shape k s -> shape k (fst (drop_levels start s)).
Proof.
  intros [Hn Hl]. split; [by rewrite drop_levels_length|]. intros l Hk. rewrite <-Hl by done. unfold lenOfLevel.
  rewrite drop_levels_level, length_app, length_replicate, length_take. lia.
Qed.

Lemma drop_levels_slot start s l j : at_slot (fst (drop_levels start s)) l j =
  if decide (j < start / 2 ^ l)%nat then at_slot s l j else None.
Proof.
  unfold at_slot. rewrite drop_levels_level. set (q := (start / 2 ^ l)%nat). destruct (decide (j < q)%nat) as [Hj|Hj].
  - destruct (decide (j < length (level l s))%nat) as [Hx|Hx].
    + by rewrite lookup_app_l, lookup_take_lt by (rewrite ?length_take; lia).
    + rewrite (lookup_ge_None_2 (level l s)), lookup_ge_None_2 by (rewrite ?length_app, ?length_take, ?length_replicate; lia). done.
  - destruct (((take q (level l s) ++ replicate (length (level l s) - q) None) !! j)) as [o|] eqn:E; [|done].
    apply lookup_app_Some in E as [E|[_ E]].
    + apply lookup_take_Some in E. lia.
    + by apply lookup_replicate_1 in E as [-> _].
Qed.

Lemma drop_levels_dropped s : forall start n, Some n ∈ snd (drop_levels start s) ->
  exists l j, (start / 2 ^ l <= j)%nat /\ at_slot s l j = Some n.
Proof.
  induction s as [|xs s IH]; intros start n; [cbn; by rewrite elem_of_nil|].
  cbn [drop_levels]. specialize (IH (start / 2)%nat n). destruct (drop_levels (start / 2) s) as [s' d]. cbn [snd] in *.
  rewrite elem_of_app. intros [Hn|Hn].
  - apply list_elem_of_lookup in Hn as [j Hj]. rewrite lookup_drop in Hj. exists 0%nat, (start + j)%nat.
    cbn [Nat.pow]. rewrite Nat.div_1_r. split; [lia|]. unfold at_slot, level. cbn. by rewrite Hj.
  - destruct (IH Hn) as (l & j & Hj & Ha). exists (S l), j. split; [|done]. rewrite Nat.Div0.div_div in Hj. exact Hj.
Qed.

(** The dropped leaves come first. *)
Lemma drop_levels_first start s : s <> [] ->
  exists d, snd (drop_levels start s) = drop start (level 0 s) ++ d /\
    forall n, Some n ∈ d -> exists l j, (start / 2 ^ S l <= j)%nat /\ at_slot s (S l) j = Some n.
Proof.
  destruct s as [|xs s]; [done|]. intros _. pose proof (drop_levels_dropped s (start / 2)) as Hd. cbn [drop_levels].
  destruct (drop_levels (start / 2) s) as [s' d]. cbn [snd] in *. exists d. split; [done|]. intros n Hn.
  destruct (Hd n Hn) as (l & j & Hj & Ha). exists l, j. split; [|done]. rewrite Nat.Div0.div_div in Hj. exact Hj.
Qed.

(** * The maps after nodes are dropped *)

Section forget.

Lemma forget_app xs ys : forall t, forget (xs ++ ys) t = (t ← forget xs t; forget ys t).
Proof.
  induction xs as [|[n|] xs IH]; intros t; [done| |apply IH]. cbn [forget app].
  destruct (hashToHeight t !! tn_Hash n); [destruct (tn_Weight n); [|done]|]; cbn [mbind outcome_bind]; apply IH.
Qed.

(** What is kept when only roots are forgotten. *)
Definition same_blocks (t t' : BlocksMMRTree) : Prop :=
  nextHeight t' = nextHeight t /\ chainWeight t' = chainWeight t /\ rootHash t' = rootHash t /\ mmr_store t' = mmr_store t /\
  heightToRoot t' = heightToRoot t /\ hashToHeight t' = hashToHeight t /\ rootToHeight t' ⊆ rootToHeight t.

(** Nodes that are not leaves of the tree. *)
Lemma forget_rest d : forall t, (forall n, Some n ∈ d -> hashToHeight t !! tn_Hash n = None) ->
  exists t', forget d t = Ok t' /\ same_blocks t t'.
Proof.
  induction d as [|[n|] d IH]; intros t Hd; [by exists t| |].
  - cbn [forget]. rewrite (Hd n) by set_solver. cbn [mbind outcome_bind].
    match goal with |- context [forget d ?t1] => destruct (IH t1) as (t' & E & Hs1 & Hs2 & Hs3 & Hs4 & Hs5 & Hs6 & Hsub) end; [set_solver|].
    exists t'. unfold same_blocks. split_and!; try done. etrans; [exact Hsub|apply delete_subseteq].
  - apply IH. set_solver.
Qed.

Definition leaf_node (i : nat) (v : value) : TreeNode :=
  {| tn_Hash := v.1; tn_Weight := Some v.2; tn_Height := Z.of_nat i; final := false |}.

Definition weight_of (bs : list value) : Z := sumZ snd bs.

(** The leaves of the tree from a height on. *)
Lemma forget_leaves ys : forall i t,
  (forall j y, ys !! j = Some y -> hashToHeight t !! y.1 = Some (Z.of_nat (i + j))) ->
  exists t', forget (imap (fun j y => Some (leaf_node (i + j) y)) ys) t = Ok t' /\
    nextHeight t' = nextHeight t /\ chainWeight t' = chainWeight t - weight_of ys /\ rootHash t' = rootHash t /\
    mmr_store t' = mmr_store t /\
    (forall z, heightToRoot t' !! z = if decide (Z.of_nat i <= z < Z.of_nat (i + length ys)) then None else heightToRoot t !! z) /\
    (forall h, hashToHeight t' !! h = if decide (h ∈ map fst ys) then None else hashToHeight t !! h) /\
    rootToHeight t' ⊆ rootToHeight t.
Proof.
  induction ys as [|y ys IH]; intros i t Hys.
  - exists t. split_and!; try done; [cbn; lia|].
    intros z. rewrite decide_False by (cbn; lia). done.
  - rewrite imap_cons. cbn [forget leaf_node tn_Hash tn_Weight]. pose proof (Hys 0%nat y eq_refl) as H0. rewrite H0. cbn [mbind outcome_bind].
    rewrite Nat.add_0_r in *.
    rewrite (imap_ext _ (fun j y => Some (leaf_node (S i + j) y))) by (intros; cbn; do 2 f_equal; lia).
    match goal with |- context [forget _ ?t1] => destruct (IH (S i) t1) as (t' & E & H1 & H2 & H3 & H4 & H5 & H6 & H7) end.
    { intros j z Hz. cbn [hashToHeight]. pose proof (Hys (S j) z Hz) as Hj. assert (Hne : y.1 <> z.1) by (intros Heq; rewrite Heq, Hj in H0; injection H0; lia).
      rewrite lookup_delete_ne, Hj by done. f_equal. lia. }
    exists t'. cbn [nextHeight chainWeight rootHash mmr_store heightToRoot hashToHeight rootToHeight] in *. split_and!; try done.
    + rewrite H2. change (weight_of (y :: ys)) with (y.2 + weight_of ys). lia.
    + intros z. rewrite H5. cbn [length]. destruct (decide (z = Z.of_nat i)) as [->|Hne].
      * rewrite decide_False, decide_True, lookup_delete_eq by lia. done.
      * rewrite lookup_delete_ne by done. repeat case_decide; (done || lia).
    + intros h. rewrite H6. cbn [map]. destruct (decide (h = y.1)) as [->|Hne].
      * rewrite lookup_delete_eq. rewrite (decide_True (P := y.1 ∈ _ :: _)) by set_solver. by case_decide.
      * rewrite lookup_delete_ne by done. repeat case_decide; set_solver.
    + etrans; [exact H7|apply delete_subseteq].
Qed.
End forget.

(** * The tree of a list of blocks *)

Lemma leaves_snoc bs x s s1 : (forall j, at_slot s 0 j = leaf_node j <$> bs !! j) ->
  (forall l j, at_slot s1 l j = if decide (l = 0 /\ j = length bs)%nat then Some (leaf_node (length bs) x) else at_slot s l j) ->
  forall j, at_slot s1 0 j = leaf_node j <$> (bs ++ [x]) !! j.
Proof.
  intros Hl Ha j. rewrite Ha. destruct (decide (0%nat = 0%nat /\ j = length bs)) as [[_ ->]|Hj]; [by rewrite list_lookup_middle|].
  rewrite Hl. destruct (decide (j < length bs)%nat); [by rewrite lookup_app_l|].
  rewrite !lookup_ge_None_2; [done|..]; rewrite ?length_app; cbn; naive_solver lia.
Qed.

Lemma block_hash_in (bs : list value) i v : bs !! i = Some v -> v.1 ∈ map fst bs.
Proof. intros Hi. apply list_elem_of_In, in_map, list_elem_of_In. by eapply list_elem_of_lookup_2. Qed.

(** The heights of the hashes of the blocks. *)
Definition heights_of (bs : list value) (m : gmap bytes Z) : Prop :=
  forall h z, m !! h = Some z <-> exists i v, bs !! i = Some v /\ v.1 = h /\ z = Z.of_nat i.

Lemma heights_snoc bs x m : heights_of bs m -> x.1 ∉ map fst bs -> heights_of (bs ++ [x]) (<[x.1 := Z.of_nat (length bs)]> m).
Proof.
  intros Hhs Hx h z. destruct (decide (h = x.1)) as [->|Hne].
  - rewrite lookup_insert_eq. split.
    + intros [= <-]. exists (length bs), x. by rewrite list_lookup_middle.
    + intros (i & v & Hi & Hv & ->). apply lookup_app_Some in Hi as [Hi|[Hi Hi']]; [destruct Hx; rewrite <-Hv; by eapply block_hash_in|].
      apply list_lookup_singleton_Some in Hi' as [Hi' _]. do 2 f_equal. lia.
  - rewrite lookup_insert_ne, (Hhs h z) by done. split; intros (i & v & Hi & Hv & ->); exists i, v; (split_and!; [|done..]).
    + by apply lookup_app_l_Some.
    + apply lookup_app_Some in Hi as [Hi|[_ Hi]]; [done|]. apply list_lookup_singleton_Some in Hi as [_ ->]. done.
Qed.

Section tree.
Context `{HashFunction}.

(** The hash of the root of the range of some blocks. *)
Definition root_of (bs : list value) : bytes := match mmr_root bs with Some v => v.1 | None => ZeroHash end.

Definition last_leaf (bs : list value) : TreeNode :=
  match last bs with Some v => leaf_node (length bs - 1) v | None => empty_node end.

(** The store of the blocks: the leaves are exact, and a node above is either missing or that
    of its leaves. *)
Definition store_of (bs : list value) (s : treeStore) : Prop :=
  exists k, (k <= 30)%nat /\ (length bs <= 2 ^ k)%nat /\ shape k s /\
    (forall j, at_slot s 0 j = leaf_node j <$> bs !! j) /\
    finals_ok k bs s /\
    (forall l j n, at_slot s (S l) j = Some n -> slot_is (Some n) (levels (S l) bs !! j)).

Record tree_of (bs : list value) (t : BlocksMMRTree) : Prop := {
  tree_height : nextHeight t = Z.of_nat (length bs);
  tree_weight : chainWeight t = weight_of bs;
  tree_last : lastNode t = Some (last_leaf bs);
  tree_root : rootHash t = root_of bs;
  tree_store : store_of bs (mmr_store t);
  tree_roots : forall z r, heightToRoot t !! z = Some r <->
    exists i, (i < length bs)%nat /\ z = Z.of_nat i /\ r = root_of (take (S i) bs);
  tree_hashes : heights_of bs (hashToHeight t);
  tree_lookup : forall r z, rootToHeight t !! r = Some z -> 0 <= z
}.

Lemma store_ready bs s : store_of bs s -> bs <> [] -> exists k, (k <= 30)%nat /\ (length bs <= 2 ^ k)%nat /\ ready k bs 0 s.
Proof.
  intros (k & Hk & Hb & Hsh & Hl & Hf & Hi) Hne. exists k. split_and!; [done..|]. split_and!; [done|done| |].
  - intros l j Hl0. replace l with 0%nat by lia. rewrite Hl. cbn. by destruct (bs !! j).
  - intros [|l] j Hlk Hj; [rewrite Hl; by rewrite lookup_ge_None_2 by done|].
    destruct (at_slot s (S l) j) as [n|] eqn:E; [|done]. apply Hi in E. by rewrite lookup_ge_None_2 in E by done.
Qed.

Lemma store_append bs x s : store_of bs s -> Z.of_nat (length bs) < 2 ^ 30 ->
  exists s' r, (s1 ← appendLeaf (Z.of_nat (length bs)) (leaf_node (length bs) x) s; calcRoot s1) = Ok (s', Some r) /\
    tn_Hash r = root_of (bs ++ [x]) /\ store_of (bs ++ [x]) s'.
Proof.
  intros (k & Hk & Hb & Hsh & Hl & Hf & Hi) Hn.
  destruct (appendLeaf_spec k s (length bs) (leaf_node (length bs) x) Hsh) as (k' & s1 & E1 & Hs1 & Hlt & Hkk & Ha).
  { destruct (decide (length bs < 2 ^ k)%nat) as [|Hge]; [by left|right]. assert (Hk30 : (k < 30)%nat).
    { destruct (decide (k = 30%nat)) as [->|]; [|lia]. exfalso. pose proof (pow2_nat 30). lia. }
    split; [done|]. cbn [Nat.pow]. pose proof (Nat.pow_nonzero 2 k). lia. }
  rewrite E1. cbn [mbind outcome_bind]. assert (Hk' : (k' <= 30)%nat) by lia.
  assert (Hne : bs ++ [x] <> []) by (by destruct bs). assert (Hb' : (length (bs ++ [x]) <= 2 ^ k')%nat) by (rewrite length_app; cbn; lia).
  assert (Hl1 : forall j, at_slot s1 0 j = leaf_node j <$> (bs ++ [x]) !! j).
  { by eapply leaves_snoc. }
  assert (Hr : ready k' (bs ++ [x]) 0 s1).
  { split_and!; [done| | |].
    - intros l j Hfj. rewrite Ha in Hfj. destruct (decide (l = 0%nat /\ j = length bs)) as [|Hd]; [done|].
      destruct (Hf _ _ Hfj) as (-> & -> & Hc). split_and!; [done..|]. intros Hk2. rewrite Ha, decide_False by naive_solver.
      assert (H2 : (2 <= length bs)%nat).
      { destruct Hkk as [->|(-> & _ & Hge)]; [by apply Hc|]. destruct k as [|k]; [lia|]. cbn [Nat.pow] in Hge. pose proof (Nat.pow_nonzero 2 k). lia. }
      split; [rewrite length_app; lia|]. destruct (at_slot s 1 0) as [n|] eqn:E; [|done]. apply Hi in E.
      by rewrite (proj1 (levels_prefix 1 bs [x] 0 ltac:(cbn; lia))).
    - intros l j Hl0. replace l with 0%nat by lia. rewrite Hl1. cbn. by destruct ((bs ++ [x]) !! j).
    - intros l j Hlk Hj. destruct l as [|l].
      { rewrite Hl1. by rewrite lookup_ge_None_2. }
      rewrite Ha, decide_False by naive_solver. destruct (at_slot s (S l) j) as [n|] eqn:E; [|done]. apply Hi in E.
      pose proof (levels_length_mono (S l) bs (bs ++ [x])) as Hm. rewrite length_app in Hm. rewrite lookup_ge_None_2 in E; [done|lia]. }
  destruct (calcRoot_spec k' (bs ++ [x]) Hne Hb' s1 Hr) as (s' & r & E & (Hsh' & Hf' & Hu' & _) & Hroot & Hz).
  exists s', r. split; [done|]. split.
  - unfold root_of. destruct (mmr_root (bs ++ [x])); [by destruct Hroot|done].
  - exists k'. split_and!; [done|done|done|intros j; by rewrite Hz|done|].
    intros l j n Hj. destruct (decide (S l <= k')%nat) as [Hlk|Hlk].
    + specialize (Hu' (S l) j Hlk). by rewrite Hj in Hu'.
    + rewrite (at_beyond k') in Hj by (done || lia). done.
Qed.

Lemma last_leaf_snoc bs x : last_leaf (bs ++ [x]) = leaf_node (length bs) x.
Proof. unfold last_leaf. rewrite last_snoc, length_app. cbn. f_equal. lia. Qed.

Lemma weight_cons b bs : weight_of (b :: bs) = b.2 + weight_of bs.
Proof. done. Qed.

Lemma weight_app xs ys : weight_of (xs ++ ys) = weight_of xs + weight_of ys.
Proof. induction xs as [|x xs IH]; [done|]. cbn [app]. rewrite !weight_cons, IH. lia. Qed.

Lemma weight_snoc bs x : weight_of (bs ++ [x]) = weight_of bs + x.2.
Proof. rewrite weight_app, weight_cons. cbn. lia. Qed.

Lemma NewTree_empty : exists t, NewTree = Ok t /\ tree_of [] t.
Proof.
  eexists. split; [reflexivity|]. split; try done.
  - exists 0%nat. split_and!; [lia|cbn; lia| | | |].
    + split; [done|]. intros l Hl. by replace l with 0%nat by lia.
    + intros j. by destruct j.
    + intros [|l] [|j]; done.
    + intros l j n. by destruct l.
  - intros z r. split; [done|]. intros (i & Hi & _). cbn in Hi. lia.
  - intros h z. split; [done|]. intros (i & v & Hi & _). by rewrite lookup_nil in Hi.
Qed.

(** A block that is not in the tree is appended. *)
Lemma append_tree bs x t : tree_of bs t -> x.1 ∉ map fst bs -> Z.of_nat (length bs) < 2 ^ 30 ->
  exists t', AppendBlock x.1 x.2 t = Ok t' /\ tree_of (bs ++ [x]) t'.
Proof.
  intros [Hn Hw Hl Hr Hs Hrs Hhs Hlk] Hx Hb. unfold AppendBlock, appendBlock.
  assert (Hno : hashToHeight t !! x.1 = None).
  { destruct (hashToHeight t !! x.1) as [z|] eqn:E; [|done]. apply Hhs in E as (i & v & Hi & Hv & _). destruct Hx. rewrite <-Hv.
    by eapply block_hash_in. }
  rewrite Hno, Hn. cbv zeta. cbn [tn_Height]. destruct (store_append bs x (mmr_store t) Hs Hb) as (s' & r & E & Hroot & Hs'). fold (leaf_node (length bs) x).
  destruct (appendLeaf (Z.of_nat (length bs)) (leaf_node (length bs) x) (mmr_store t)) as [s1| |]; try discriminate E.
  cbn [mbind outcome_bind] in *. rewrite E. cbn [mbind outcome_bind node_hash]. rewrite Hroot. eexists. split; [done|].
  split; cbn [nextHeight chainWeight lastNode rootHash mmr_store heightToRoot hashToHeight rootToHeight tn_Height leaf_node].
  - rewrite swrap_id by (unfold is_int; lia). rewrite length_app. cbn. lia.
  - by rewrite weight_snoc, Hw.
  - by rewrite last_leaf_snoc.
  - done.
  - done.
  - intros z q. rewrite length_app. cbn [length]. destruct (decide (z = Z.of_nat (length bs))) as [->|Hne].
    + rewrite lookup_insert_eq. split.
      * intros [= <-]. exists (length bs). split_and!; [lia|done|]. by rewrite take_ge by (rewrite length_app; cbn; lia).
      * intros (i & Hi & Hz & ->). assert (i = length bs) as -> by lia. by rewrite take_ge by (rewrite length_app; cbn; lia).
    + rewrite lookup_insert_ne, Hrs by done. split; intros (i & Hi & -> & ->); exists i; (split_and!; [lia|done|]).
      * by rewrite take_app_le by lia.
      * by rewrite take_app_le by lia.
  - by apply heights_snoc.
  - intros q z. rewrite lookup_insert_Some. intros [[_ <-]|[_ Hz]]; [lia|by eapply Hlk].
Qed.

(** ** Removal *)

(** No node above the leaves has the hash of a block, but for the copy of the last leaf. *)
Definition distinct_nodes (bs : list value) : Prop :=
  Forall (fun l => Forall (fun v => v.1 ∈ map fst bs -> last bs = Some v) (levels l bs)) (seq 1 30).

Lemma distinct_nodes_at bs l j v : distinct_nodes bs -> (1 <= l <= 30)%nat -> levels l bs !! j = Some v ->
  v.1 ∈ map fst bs -> last bs = Some v.
Proof.
  intros Hd Hl Hj. unfold distinct_nodes in Hd. rewrite Forall_forall in Hd.
  specialize (Hd l ltac:(apply list_elem_of_In, in_seq; lia)). rewrite Forall_forall in Hd. apply Hd. by eapply list_elem_of_lookup_2.
Qed.

Lemma leaves_dropped bs s i : (forall j, at_slot s 0 j = leaf_node j <$> bs !! j) -> (length bs <= lenOfLevel 0 s)%nat -> (i <= length bs)%nat ->
  drop i (level 0 s) = imap (fun j y => Some (leaf_node (i + j) y)) (drop i bs) ++ replicate (lenOfLevel 0 s - length bs) None.
Proof.
  intros Hl Hn Hi. apply list_eq. intros j. rewrite lookup_drop. specialize (Hl (i + j)%nat). unfold at_slot in Hl. unfold lenOfLevel in *.
  destruct (decide (i + j < length (level 0 s))%nat) as [Hj|Hj].
  - destruct (lookup_lt_is_Some_2 _ _ Hj) as [o Eo]. rewrite Eo in *. cbn in Hl. subst o. destruct (decide (i + j < length bs)%nat) as [Hb|Hb].
    + rewrite lookup_app_l, list_lookup_imap, lookup_drop by (rewrite length_imap, length_drop; lia).
      destruct (lookup_lt_is_Some_2 _ _ Hb) as [y ->]. done.
    + rewrite lookup_app_r, (lookup_ge_None_2 bs) by (rewrite ?length_imap, ?length_drop; lia).
      rewrite lookup_replicate_2 by (rewrite ?length_imap, ?length_drop; lia). done.
  - rewrite !lookup_ge_None_2; [done|..]; rewrite ?length_app, ?length_imap, ?length_drop, ?length_replicate; lia.
Qed.

Lemma store_drop bs s i : store_of bs s -> (i <= length bs)%nat -> store_of (take i bs) (fst (drop_levels i s)).
Proof.
  intros (k & Hk & Hb & Hsh & Hl & Hf & Hi) Hle. exists k. split_and!; [done|rewrite length_take; lia|by apply drop_levels_shape| | |].
  - intros j. rewrite drop_levels_slot. cbn [Nat.pow]. rewrite Nat.div_1_r. case_decide as Hj; [by rewrite Hl, lookup_take_lt|].
    by rewrite lookup_take_ge by lia.
  - intros l j. rewrite drop_levels_slot. case_decide as Hj; [|done]. intros Hfj. apply Hf in Hfj as (-> & -> & Hc). split_and!; [done..|].
    intros Hk2. destruct (Hc Hk2) as [H2 Hs]. rewrite drop_levels_slot, decide_True by done. rewrite levels_take by done. split; [|done].
    rewrite length_take. change (2 ^ 1)%nat with 2%nat in Hj. pose proof (Nat.Div0.mul_div_le i 2). lia.
  - intros l j n. rewrite drop_levels_slot. case_decide as Hj; [|done]. intros Hn. rewrite levels_take by done. by apply Hi.
Qed.

Lemma last_take (bs : list value) i : (S i <= length bs)%nat -> last (take (S i) bs) = bs !! i.
Proof. intros Hi. rewrite last_lookup, length_take, Nat.min_l by done. cbn [Nat.pred]. by rewrite lookup_take_lt by lia. Qed.

Lemma weight_split bs i : weight_of bs = weight_of (take i bs) + weight_of (drop i bs).
Proof.
  by rewrite <-weight_app, take_drop.
Qed.

(** The nodes that [rmBlock] drops. *)
Lemma forget_dropped bs t i : tree_of bs t -> distinct_nodes bs -> (i < length bs)%nat ->
  exists t', forget (snd (drop_levels i (mmr_store t))) (set_store (fst (drop_levels i (mmr_store t))) t) = Ok t' /\
    nextHeight t' = nextHeight t /\ chainWeight t' = weight_of (take i bs) /\ mmr_store t' = fst (drop_levels i (mmr_store t)) /\
    (forall z, heightToRoot t' !! z = if decide (Z.of_nat i <= z < Z.of_nat (length bs)) then None else heightToRoot t !! z) /\
    (forall h, hashToHeight t' !! h = if decide (h ∈ map fst (drop i bs)) then None else hashToHeight t !! h) /\
    rootToHeight t' ⊆ rootToHeight t.
Proof.
  intros [Hn Hw Hl Hr Hs Hrs Hhs Hlk] Hd Hi. destruct Hs as (k & Hk & Hb & Hsh & Hlv & Hf & Hin).
  pose proof (proj2 Hsh 0%nat ltac:(lia)) as Hlen. rewrite Nat.sub_0_r in Hlen.
  destruct (drop_levels_first i (mmr_store t)) as (d & -> & Hdr); [by destruct Hsh, (mmr_store t)|].
  rewrite (leaves_dropped bs) by (done || lia). rewrite <-app_assoc, forget_app.
  match goal with |- context [forget (imap _ _) ?t0] => destruct (forget_leaves (drop i bs) i t0) as (t1 & -> & H1 & H2 & H3 & H4 & H5 & H6 & H7) end.
  { intros j y Hj. rewrite lookup_drop in Hj. apply Hhs. by exists (i + j)%nat, y. }
  cbn [mbind outcome_bind]. cbn [set_store nextHeight chainWeight rootHash mmr_store heightToRoot hashToHeight rootToHeight] in *.
  match goal with |- context [forget ?d0 t1] => destruct (forget_rest d0 t1) as (t' & -> & S1 & S2 & S3 & S4 & S5 & S6 & S7) end.
  { intros n Hnd. apply elem_of_app in Hnd as [Hnd|Hnd]; [apply elem_of_replicate in Hnd as [? _]; done|].
    destruct (Hdr n Hnd) as (l & j & Hj & Ha). pose proof (Hin l j n Ha) as Hv. destruct (levels (S l) bs !! j) as [v|] eqn:Ev; [|done].
    destruct Hv as [Hv _]. rewrite H6, Hv. case_decide as Hm; [done|]. destruct (hashToHeight t !! v.1) as [z|] eqn:Ez; [|done].
    apply Hhs in Ez as (i' & v' & Hi' & Hvv & _). exfalso. destruct Hm.
    assert (Hlast : last bs = Some v).
    { apply (distinct_nodes_at bs (S l) j); [done| |done|rewrite <-Hvv; by eapply block_hash_in].
      destruct (decide (S l <= k)%nat); [lia|]. by rewrite (at_beyond k) in Ha by (done || lia). }
    rewrite last_lookup in Hlast. apply (block_hash_in (drop i bs) (pred (length bs) - i)). rewrite lookup_drop, <-Hlast. f_equal. lia. }
  exists t'. split_and!; [done|congruence| |congruence| | |].
  - rewrite S2, H2, Hw, (weight_split bs i). lia.
  - intros z. rewrite S5, H5, length_drop. by replace (i + (length bs - i))%nat with (length bs) by lia.
  - intros h. by rewrite S6.
  - by etrans.
Qed.

Lemma remove_tree bs t i : tree_of bs t -> distinct_nodes bs ->
  exists t', rmBlock (Z.of_nat i) t = Ok t' /\ tree_of (take i bs) t'.
Proof.
  intros Ht Hd. pose proof Ht as [Hn Hw Hl Hr Hs Hrs Hhs Hlk]. pose proof Hs as (k & Hk & Hb & Hsh & Hlv & _).
  unfold rmBlock. rewrite (getNode_spec k) by done. cbn [mbind outcome_bind]. rewrite Hlv.
  destruct (decide (i < length bs)%nat) as [Hi|Hi]; [|rewrite lookup_ge_None_2 by lia; exists t; by rewrite take_ge by lia].
  destruct (lookup_lt_is_Some_2 bs i Hi) as [v Ev]. rewrite Ev. cbn [fmap option_fmap option_map]. unfold dropNodeFromTree. rewrite Nat2Z.id.
  destruct (forget_dropped bs t i Ht Hd Hi) as (t' & E & H1 & H2 & H3 & H4 & H5 & H6).
  pose proof (store_drop bs (mmr_store t) i Hs ltac:(lia)) as Hs'. pose proof (drop_levels_shape k i _ Hsh) as Hsh'.
  pose proof (drop_levels_slot i (mmr_store t) 0) as Hsl.
  destruct (drop_levels i (mmr_store t)) as [s' d]. cbn [fst snd] in *. rewrite E. cbn [mbind outcome_bind].
  assert (Hlr : (if Z.of_nat i =? 0 then Ok (Some empty_node, ZeroHash)
    else '(last, _) ← getNode 0 (swrap 32 (Z.of_nat i - 1)) s'; Ok (last, default ZeroHash (heightToRoot t' !! swrap 32 (Z.of_nat i - 1))))
    = Ok (Some (last_leaf (take i bs)), root_of (take i bs))).
  { destruct i as [|i]; [done|]. rewrite (proj2 (Z.eqb_neq _ 0)) by lia. pose proof (pow2_nat k). assert (2 ^ Z.of_nat k <= 2 ^ 30) by (apply Z.pow_le_mono_r; lia).
    rewrite swrap_id by (unfold is_int; lia). replace (Z.of_nat (S i) - 1) with (Z.of_nat i) by lia.
    rewrite (getNode_spec k) by done. cbn [mbind outcome_bind]. rewrite Hsl. cbn [Nat.pow]. rewrite Nat.div_1_r, decide_True, Hlv by lia.
    rewrite H4, decide_False by lia. rewrite (proj2 (Hrs _ (root_of (take (S i) bs)))) by (exists i; split_and!; (done || lia)). cbn [default from_option].
    unfold last_leaf. rewrite last_take, length_take, Nat.min_l by lia. destruct (bs !! i) as [v'|] eqn:Ei; [|apply lookup_ge_None in Ei; lia].
    cbn. by rewrite Nat.sub_0_r. }
  rewrite Hlr. cbn [mbind outcome_bind]. eexists. split; [done|]. split; cbn [nextHeight chainWeight lastNode rootHash mmr_store heightToRoot hashToHeight rootToHeight].
  - rewrite length_take. lia.
  - done.
  - done.
  - done.
  - by rewrite H3.
  - intros z r. rewrite H4, length_take. split.
    + case_decide; [done|]. intros Hz. apply Hrs in Hz as (j & Hj & -> & ->). exists j. split_and!; [lia|done|]. by rewrite take_take, Nat.min_l by lia.
    + intros (j & Hj & -> & ->). rewrite decide_False by lia. apply Hrs. exists j. split_and!; [lia|done|]. by rewrite take_take, Nat.min_l by lia.
  - intros h z. rewrite H5. split.
    + case_decide as Hh; [done|]. intros Hz. apply Hhs in Hz as (j & v' & Hj & Hv & ->). exists j, v'. split_and!; [|done..].
      destruct (decide (j < i)%nat); [by rewrite lookup_take_lt|]. destruct Hh. rewrite <-Hv. apply (block_hash_in _ (j - i)).
      rewrite lookup_drop, <-Hj. f_equal. lia.
    + intros (j & v' & Hj & Hv & ->). apply lookup_take_Some in Hj as [Hj Hji]. rewrite decide_False; [apply Hhs; by exists j, v'|].
      intros Hh. apply list_elem_of_In, in_map_iff in Hh as (w & Hw1 & Hw2). apply list_elem_of_In, list_elem_of_lookup in Hw2 as [m Hm].
      rewrite lookup_drop in Hm. pose proof (proj2 (Hhs h (Z.of_nat j)) ltac:(by exists j, v')) as P1.
      pose proof (proj2 (Hhs h (Z.of_nat (i + m))) ltac:(by exists (i + m)%nat, w)) as P2. rewrite P1 in P2. injection P2. lia.
  - intros r z Hz. apply (Hlk r z). by eapply lookup_weaken.
Qed.
End tree.
