(* ===== verification/MmrOps.v ===== *)
(** The operations of the tree of node/mmr as operations on a list of blocks, the quick load of
    a stored chain, and what the lookups and the container do on a fork. *)

From stdpp Require Import gmap.
From S2P Require Import Prelude Big WireEncoding WireTx Sha256 Chainhash Mmr MmrStore MmrTree.

#[export] Instance distinct_nodes_dec `{HashFunction} bs : Decision (distinct_nodes bs).
Proof. unfold distinct_nodes. apply _. Defined.

(** * Operations as those of a list *)

Inductive mmr_op :=
| OpAppend (x : value)
| OpRemove (height : nat)
| OpSet (x : value) (height : nat)
| OpReset (hash : bytes) (height : nat).

Section ops.
Context `{HashFunction}.

(** A call on a tree with its lock; [None] does not return. *)
Definition run_op (op : mmr_op) : mutex_tree -> option (outcome mutex_tree) :=
  match op with
  | OpAppend x => with_Lock true (AppendBlock x.1 x.2)
  | OpRemove height => with_Lock true (RmBlock ZeroHash (Z.of_nat height))
  | OpSet x height => SetBlock x.1 x.2 (Z.of_nat height)
  | OpReset hash height => with_Lock true (ResetRootTo hash (Z.of_nat height))
  end.

Fixpoint run_ops (ops : list mmr_op) (m : mutex_tree) : option (outcome mutex_tree) :=
  match ops with
  | [] => Some (Ok m)
  | op :: ops => match run_op op m with Some (Ok m) => run_ops ops m | r => r end
  end.

Definition sets (op : mmr_op) : bool := match op with OpSet _ _ => true | _ => false end.
Definition unlocked (t : BlocksMMRTree) : mutex_tree := {| write_locked := false; mx_tree := t |}.

Definition add_block (x : value) (bs : list value) : list value :=
  if decide (x.1 ∈ map fst bs) then bs else bs ++ [x].

Definition spec_op (bs : list value) (op : mmr_op) : list value :=
  match op with
  | OpAppend x => add_block x bs
  | OpRemove height => take height bs
  | OpSet x height => add_block x (take height bs)
  | OpReset hash height => if decide (hash ∈ map fst bs) then take (S height) bs else bs
  end.

Definition mmr_room (bs : list value) : Prop := Z.of_nat (length bs) < 2 ^ 30.

(** There is room for a leaf, and what is removed is told apart from the nodes above it. *)
Definition op_ok (bs : list value) (op : mmr_op) : Prop :=
  mmr_room bs /\
  match op with
  | OpAppend _ => True
  | OpRemove _ | OpSet _ _ => distinct_nodes bs
  | OpReset _ height => distinct_nodes bs /\ Z.of_nat height < 2 ^ 30
  end.

Fixpoint ops_ok (bs : list value) (ops : list mmr_op) : Prop :=
  match ops with
  | [] => True
  | op :: ops => op_ok bs op /\ ops_ok (spec_op bs op) ops
  end.

Lemma tree_has bs t h : tree_of bs t -> hashToHeight t !! h = None <-> h ∉ map fst bs.
Proof.
  intros [_ _ _ _ _ _ Hhs _]. split.
  - intros Hno Hin. apply list_elem_of_In, in_map_iff in Hin as (v & <- & Hv). apply list_elem_of_In, list_elem_of_lookup in Hv as [i Hi].
    rewrite (proj2 (Hhs v.1 (Z.of_nat i))) in Hno; [done|by exists i, v].
  - intros Hin. destruct (hashToHeight t !! h) as [z|] eqn:E; [|done]. apply Hhs in E as (i & v & Hi & <- & _). destruct Hin. by eapply block_hash_in.
Qed.

Lemma add_tree bs x t : tree_of bs t -> mmr_room bs -> exists t', appendBlock x.1 x.2 t = Ok t' /\ tree_of (add_block x bs) t'.
Proof.
  intros Ht Hb. unfold add_block. case_decide as Hx; [|by apply append_tree]. exists t. split; [|done]. unfold appendBlock.
  destruct (hashToHeight t !! x.1) eqn:E; [done|]. by apply (tree_has bs) in E.
Qed.

Lemma op_simulated bs op t : tree_of bs t -> op_ok bs op -> exists t', run_op op (unlocked t) = Some (Ok {| write_locked := sets op; mx_tree := t' |}) /\ tree_of (spec_op bs op) t'.
Proof.
  intros Ht [Hb Hok]. cut (exists t', match op with OpAppend x => AppendBlock x.1 x.2 t | OpRemove i => RmBlock ZeroHash (Z.of_nat i) t
      | OpSet x i => setBlock x.1 x.2 (Z.of_nat i) t | OpReset h i => ResetRootTo h (Z.of_nat i) t end = Ok t' /\ tree_of (spec_op bs op) t').
  { intros (t' & E & Ht'). exists t'. split; [|done]. destruct op; cbn [run_op sets]; unfold SetBlock, with_Lock; cbn [write_locked unlocked mx_tree]; by rewrite E. }
  destruct op as [x|i|x i|h i]; cbn [spec_op].
  - by apply add_tree.
  - by apply remove_tree.
  - unfold setBlock. rewrite (tree_height bs) by done. unfold mmr_room in *. destruct (Z.ltb_spec (Z.of_nat i) (Z.of_nat (length bs))).
    + destruct (remove_tree bs t i Ht Hok) as (t1 & -> & Ht1). cbn [mbind outcome_bind]. apply add_tree; [done|]. unfold mmr_room. rewrite length_take. lia.
    + cbn [mbind outcome_bind]. rewrite take_ge by lia. by apply add_tree.
  - destruct Hok as [Hd Hi]. unfold ResetRootTo, resetRootTo. destruct (hashToHeight t !! h) eqn:E.
    + rewrite decide_True by (apply dec_stable; intros Hn; by rewrite (proj2 (tree_has bs t h Ht) Hn) in E).
      rewrite swrap_id by (unfold is_int; lia). replace (Z.of_nat i + 1) with (Z.of_nat (S i)) by lia. by apply remove_tree.
    + rewrite decide_False by (by apply (tree_has bs) in E). by exists t.
Qed.

(** C9: The tree behaves as the list of its blocks: whatever blocks are appended, removed or reset
    to, every call returns, and the weight, the height, the root of the tree and of every
    block in it are those that the list gives from scratch.  So does the last call when it sets a
    block, and the tree is then locked: an append, a set, a removal or a reset after a block was
    set never returns. *)
Theorem mmr_refines_list ops : ops_ok [] ops ->
  exists t0, NewTree = Ok t0 /\
  if existsb sets (removelast ops) then run_ops ops (unlocked t0) = None
  else exists t, run_ops ops (unlocked t0) = Some (Ok {| write_locked := match last ops with Some op => sets op | None => false end; mx_tree := t |}) /\
    tree_of (foldl spec_op [] ops) t.
Proof.
  destruct NewTree_empty as (t0 & -> & Ht0). intros Hok. exists t0. split; [done|]. revert t0 Ht0 Hok. generalize (@nil value) as bs.
  induction ops as [|op ops IH]; intros bs t Ht Hok; [by exists t|]. destruct Hok as [Hop Hok]. cbn [run_ops foldl].
  destruct (op_simulated bs op t Ht Hop) as (t1 & -> & Ht1). destruct ops as [|op' ops]; [by exists t1|].
  change (removelast (op :: op' :: ops)) with (op :: removelast (op' :: ops)). cbn [existsb]. rewrite last_cons_cons.
  destruct (sets op) eqn:Es; cbn [orb]; [|by apply (IH (spec_op bs op))]. cbn [run_ops]. by destruct op'.
Qed.
End ops.

(** * The quick load *)

Lemma next_pow2_bound n : 1 <= n <= 2 ^ 30 -> exists k, (k <= 30)%nat /\ mmr_nextPowerOfTwo n = 2 ^ Z.of_nat k /\ n <= 2 ^ Z.of_nat k.
Proof.
  intros Hn. pose proof (Z.log2_nonneg n) as H0. pose proof (Z.log2_spec n ltac:(lia)) as Hl. unfold mmr_nextPowerOfTwo.
  destruct (decide (n = 2 ^ Z.log2 n)) as [E|E].
  - exists (Z.to_nat (Z.log2 n)). rewrite Z2Nat.id by done. assert (Hz : Z.land n (n - 1) = 0).
    { set (L := Z.log2 n) in *. clearbody L. subst n. pose proof (Z.pow_pos_nonneg 2 L). replace (2 ^ L - 1) with (Z.ones L) by (rewrite Z.ones_equiv; lia).
      rewrite Z.land_ones, Z.mod_same by lia. done. }
    rewrite Hz. split_and!; [|done|lia]. assert (Z.log2 n <= 30); [|lia].
    pose proof (Z.log2_le_mono n (2 ^ 30) ltac:(lia)) as Hm. by rewrite Z.log2_pow2 in Hm.
  - assert (Hlt : n < 2 ^ 30).
    { destruct (decide (n = 2 ^ 30)) as [->|]; [|lia]. rewrite Z.log2_pow2 in E; lia. }
    assert (Hlog : Z.log2 n < 30) by (apply Z.log2_lt_pow2; lia).
    assert (Hz : Z.land n (n - 1) <> 0).
    { intros Hz. assert (Hb : Z.testbit (Z.land n (n - 1)) (Z.log2 n) = true); [|by rewrite Hz, Z.bits_0 in Hb].
      rewrite Z.land_spec, Z.bit_log2 by lia. replace (Z.log2 n) with (Z.log2 (n - 1)); [rewrite Z.bit_log2; [done|]|].
      - pose proof (Z.pow_pos_nonneg 2 (Z.log2 n)). destruct (decide (n = 1)) as [->|]; [done|]. lia.
      - apply Z.log2_unique; [done|lia]. }
    rewrite (proj2 (Z.eqb_neq _ 0)) by done. exists (Z.to_nat (Z.log2 n + 1)). rewrite Z2Nat.id by lia.
    rewrite Z.shiftl_mul_pow2 by lia. split_and!; [lia|lia|]. rewrite Z.add_1_r. lia.
Qed.

Lemma empty_levels_shape k : shape k (empty_levels (S k) (2 ^ Z.of_nat k)).
Proof.
  induction k as [|k IH]; [split; [done|]; intros l Hl; by replace l with 0%nat by lia|].
  cbn [empty_levels]. rewrite pow2_half_quot. destruct IH as [Hn Hl]. cbn [empty_levels] in Hn, Hl. split; [cbn in *; by rewrite Hn|].
  intros [|l] Hlk; [|apply (Hl l); lia]. unfold lenOfLevel, level. cbn [lookup list_lookup from_option id].
  rewrite length_replicate, <-pow2_nat, Nat2Z.id. done.
Qed.

Lemma empty_levels_slot n : forall m l j, at_slot (empty_levels n m) l j = None.
Proof.
  induction n as [|n IH]; intros m [|l] j; [done..| |apply IH]. unfold at_slot, level. cbn [empty_levels lookup list_lookup from_option id].
  destruct (replicate (Z.to_nat m) None !! j) as [o|] eqn:E; [|done]. by apply lookup_replicate_1 in E as [-> _].
Qed.

(** Only leaves. *)
Definition bare (k : nat) (bs : list value) (s : treeStore) : Prop :=
  shape k s /\ (forall j, at_slot s 0 j = leaf_node j <$> bs !! j) /\ forall l j, at_slot s (S l) j = None.

Lemma newTreeStore_bare n : (1 <= n)%nat -> Z.of_nat n <= 2 ^ 30 ->
  exists k s, (k <= 30)%nat /\ (n <= 2 ^ k)%nat /\ newTreeStore (Z.of_nat n) = Ok s /\ bare k [] s.
Proof.
  intros H1 Hn. destruct (next_pow2_bound (Z.of_nat n)) as (k & Hk & E & Hle); [lia|]. exists k. unfold newTreeStore.
  rewrite swrap_id by (unfold is_int; lia). rewrite E. pose proof (Z.pow_pos_nonneg 2 (Z.of_nat k)). rewrite (proj2 (Z.leb_gt _ 0)) by lia.
  unfold log2_int. rewrite Z.log2_pow2 by lia. replace (Z.to_nat (Z.of_nat k + 1)) with (S k) by lia.
  eexists. split_and!; [done|rewrite <-pow2_nat in Hle; lia|done|]. split_and!; [apply empty_levels_shape| |intros; apply empty_levels_slot].
  intros j. by rewrite empty_levels_slot, lookup_nil.
Qed.

Lemma bare_append k bs x s : bare k bs s -> (length bs < 2 ^ k)%nat ->
  exists s', appendLeaf (Z.of_nat (length bs)) (leaf_node (length bs) x) s = Ok s' /\ bare k (bs ++ [x]) s'.
Proof.
  intros (Hsh & Hl & Hi) Hb. destruct (appendLeaf_spec k s (length bs) (leaf_node (length bs) x) Hsh) as (k' & s' & E & Hs' & _ & Hkk & Ha); [by left|].
  assert (k' = k) as -> by (destruct Hkk as [|(_ & _ & ?)]; [done|lia]). exists s'. split; [done|]. split_and!; [done| |].
  - by eapply leaves_snoc.
  - intros l j. by rewrite Ha, decide_False by naive_solver.
Qed.

Lemma bare_ready `{HashFunction} k bs s : bare k bs s -> ready k bs 0 s.
Proof.
  intros (Hsh & Hl & Hi). split_and!; [done| | |].
  - intros [|l] j; rewrite ?Hi, ?Hl; [|done]. by destruct (bs !! j).
  - intros l j Hl0. replace l with 0%nat by lia. rewrite Hl. cbn. by destruct (bs !! j).
  - intros [|l] j _ Hj; rewrite ?Hi, ?Hl; [|done]. by rewrite lookup_ge_None_2.
Qed.

Section load.
Context `{HashFunction}.

(** The tree while the blocks [bs] with the stored roots [rs] are loaded. *)
Record loaded (k : nat) (bs : list value) (rs : list bytes) (t : BlocksMMRTree) : Prop := {
  loaded_height : nextHeight t = Z.of_nat (length bs);
  loaded_weight : chainWeight t = weight_of bs;
  loaded_last : lastNode t = Some (last_leaf bs);
  loaded_root : rootHash t = default ZeroHash (last rs);
  loaded_store : bare k bs (mmr_store t);
  loaded_roots : forall z r, heightToRoot t !! z = Some r <-> exists i, rs !! i = Some r /\ z = Z.of_nat i;
  loaded_hashes : heights_of bs (hashToHeight t);
  loaded_lookup : forall r z, rootToHeight t !! r = Some z -> 0 <= z
}.

(** The node of a stored block: its value, its root and its height. *)
Definition stored_node (i : nat) (x : value) (r : bytes) : BlockNode :=
  {| bn_hash := x.1; bn_prevMMRRoot := ZeroHash; bn_actualMMRRoot := r; bn_height := Z.of_nat i; bn_powWeight := x.2 |}.

Fixpoint load_nodes (nodes : list BlockNode) (c : TreeContainer) : outcome TreeContainer :=
  match nodes with
  | [] => Ok c
  | node :: nodes => c ← SetNodeQuick node c; load_nodes nodes c
  end.

Fixpoint stored_nodes (i : nat) (xs : list (value * bytes)) : list BlockNode :=
  match xs with
  | [] => []
  | (x, r) :: xs => stored_node i x r :: stored_nodes (S i) xs
  end.

Definition quick_load (xs : list (value * bytes)) : outcome TreeContainer :=
  t ← NewTree;
  t ← PreAllocateTree (Z.of_nat (length xs)) t;
  c ← load_nodes (stored_nodes 0 xs) {| tc_tree := t; RootToBlock := ∅ |};
  t ← RebuildTreeAndAssert (tc_tree c);
  Ok {| tc_tree := t; RootToBlock := RootToBlock c |}.

Lemma load_one k bs rs x r c : loaded k bs rs (tc_tree c) -> length rs = length bs -> x.1 ∉ map fst bs -> (length bs < 2 ^ k)%nat -> (k <= 30)%nat ->
  exists c', SetNodeQuick (stored_node (length bs) x r) c = Ok c' /\ loaded k (bs ++ [x]) (rs ++ [r]) (tc_tree c').
Proof.
  intros [Hn Hw Hl Hr Hs Hrs Hhs Hlk] Hlen Hx Hb Hk. unfold SetNodeQuick, AddBlockWithoutRebuild. cbn [stored_node bn_hash bn_actualMMRRoot bn_height bn_powWeight].
  destruct (bare_append k bs x (mmr_store (tc_tree c)) Hs Hb) as (s' & E & Hs'). fold (leaf_node (length bs) x). cbv zeta. rewrite E. cbn [mbind outcome_bind].
  eexists. split; [done|]. pose proof (pow2_nat k). assert (2 ^ Z.of_nat k <= 2 ^ 30) by (apply Z.pow_le_mono_r; lia).
  split; cbn [tc_tree nextHeight chainWeight lastNode rootHash mmr_store heightToRoot hashToHeight rootToHeight].
  - rewrite swrap_id by (unfold is_int; lia). rewrite length_app. cbn. lia.
  - by rewrite weight_snoc, Hw.
  - by rewrite last_leaf_snoc.
  - by rewrite last_snoc.
  - done.
  - intros z q. rewrite <-Hlen. destruct (decide (z = Z.of_nat (length rs))) as [->|Hne].
    + rewrite lookup_insert_eq. split; [intros [= <-]; exists (length rs); by rewrite list_lookup_middle|].
      intros (i & Hi & Hz). assert (i = length rs) as -> by lia. by rewrite list_lookup_middle in Hi.
    + rewrite lookup_insert_ne, Hrs by done. split; intros (i & Hi & ->); exists i; (split; [|done]); [by apply lookup_app_l_Some|].
      apply lookup_app_Some in Hi as [Hi|[Hge Hi]]; [done|]. apply list_lookup_singleton_Some in Hi as [Hi _]. lia.
  - by apply heights_snoc.
  - intros q z. rewrite lookup_insert_Some. intros [[_ <-]|[_ Hz]]; [lia|by eapply Hlk].
Qed.

Lemma load_all k xs : forall bs rs c, loaded k bs rs (tc_tree c) -> length rs = length bs -> NoDup (map fst (bs ++ map fst xs)) ->
  (length bs + length xs <= 2 ^ k)%nat -> (k <= 30)%nat ->
  exists c', load_nodes (stored_nodes (length bs) xs) c = Ok c' /\ loaded k (bs ++ map fst xs) (rs ++ map snd xs) (tc_tree c').
Proof.
  induction xs as [|[x r] xs IH]; intros bs rs c Hc Hlen Hnd Hb Hk; [exists c; by rewrite !app_nil_r|].
  cbn [stored_nodes load_nodes map fst snd length] in *. rewrite map_app in Hnd. cbn [map] in Hnd.
  apply NoDup_app in Hnd as Hnd'. destruct Hnd' as (_ & Hdis & _).
  destruct (load_one k bs rs x r c) as (c1 & -> & Hc1); [done|done| |lia|done|].
  { intros Hin. apply (Hdis _ Hin). set_solver. }
  cbn [mbind outcome_bind]. destruct (IH (bs ++ [x]) (rs ++ [r]) c1) as (c' & E & Hc'); [done|rewrite !length_app; cbn; lia| |rewrite length_app; cbn; lia|done|].
  { rewrite <-app_assoc. cbn [app]. by rewrite map_app. }
  rewrite length_app, Nat.add_1_r in E. exists c'. split; [done|]. by rewrite <-!app_assoc in Hc'.
Qed.

Lemma start_loaded n : (1 <= n)%nat -> Z.of_nat n <= 2 ^ 30 ->
  exists k t, (k <= 30)%nat /\ (n <= 2 ^ k)%nat /\ (t ← NewTree; PreAllocateTree (Z.of_nat n) t) = Ok t /\ loaded k [] [] t.
Proof.
  intros H1 Hn. destruct (newTreeStore_bare n H1 Hn) as (k & s & Hk & Hle & E & Hs). exists k.
  destruct NewTree eqn:Et; try discriminate Et. injection Et as <-. cbn [mbind outcome_bind]. unfold PreAllocateTree. rewrite E. cbn [mbind outcome_bind].
  eexists. split_and!; [done|done|done|]. split; try done.
  - intros z r. split; [done|]. by intros (i & Hi & _).
  - intros h z. split; [done|]. by intros (i & v & Hi & _).
Qed.

(** The root that is computed at the end, and the tree with it. *)
Lemma rebuild_loaded k bs rs t : loaded k bs rs t -> length rs = length bs -> bs <> [] -> (length bs <= 2 ^ k)%nat -> (k <= 30)%nat ->
  exists s', store_of bs s' /\
    RebuildTreeAndAssert t = if Hash_IsEqual (default ZeroHash (last rs)) (root_of bs) then Ok (set_store s' t)
                             else Err (errorString "mmr_root of tree mismatches with calculated root").
Proof.
  intros [Hn Hw Hl Hr Hs Hrs Hhs Hlk] Hlen Hne Hb Hk. unfold RebuildTreeAndAssert, rebuildTree. rewrite Hl.
  destruct (exists_last Hne) as (xs & x & ->). rewrite last_leaf_snoc. cbn [tn_Height leaf_node]. fold (leaf_node (length xs) x).
  rewrite length_app in Hb. cbn in Hb. pose proof Hs as (Hsh & Hlv & Hin).
  destruct (appendLeaf_spec k (mmr_store t) (length xs) (leaf_node (length xs) x) Hsh) as (k' & s1 & -> & Hs1 & _ & Hkk & Ha); [left; lia|].
  assert (k' = k) as -> by (destruct Hkk as [|(_ & _ & ?)]; [done|lia]). cbn [mbind outcome_bind].
  assert (Hbare : bare k (xs ++ [x]) s1).
  { split_and!; [done| |].
    - intros j. rewrite Ha. destruct (decide (0%nat = 0%nat /\ j = length xs)) as [[_ ->]|]; [by rewrite list_lookup_middle|done].
    - intros l j. by rewrite Ha, decide_False by naive_solver. }
  assert (Hb' : (length (xs ++ [x]) <= 2 ^ k)%nat) by (rewrite length_app; cbn; lia).
  destruct (calcRoot_spec k (xs ++ [x]) Hne Hb' s1 (bare_ready k _ _ Hbare)) as (s' & r & -> & (Hsh' & Hf' & Hu' & _) & Hroot & Hz).
  cbn [mbind outcome_bind node_hash set_store rootHash]. rewrite Hr. exists s'.
  assert (Hrr : tn_Hash r = root_of (xs ++ [x])) by (unfold root_of; destruct (mmr_root (xs ++ [x])); [by destruct Hroot|done]).
  rewrite Hrr. split; [|by destruct (Hash_IsEqual _ _)].
  exists k. destruct Hbare as (_ & Hl1 & _). split_and!; [done|done|done|intros j; by rewrite Hz|done|].
  intros l j n Hj. destruct (decide (S l <= k)%nat) as [Hlk'|Hlk'].
  - specialize (Hu' (S l) j Hlk'). by rewrite Hj in Hu'.
  - rewrite (at_beyond k) in Hj by (done || lia). done.
Qed.

Definition prefix_roots (bs : list value) : list bytes := imap (fun i _ => root_of (take (S i) bs)) bs.

Lemma prefix_roots_at bs i : (i < length bs)%nat -> prefix_roots bs !! i = Some (root_of (take (S i) bs)).
Proof. intros Hi. unfold prefix_roots. rewrite list_lookup_imap. by destruct (lookup_lt_is_Some_2 bs i Hi) as [v ->]. Qed.

Lemma prefix_roots_length bs : length (prefix_roots bs) = length bs.
Proof. apply length_imap. Qed.

Lemma prefix_roots_last bs : bs <> [] -> last (prefix_roots bs) = Some (root_of bs).
Proof.
  intros Hne. assert (0 < length bs)%nat by (clear -Hne; destruct bs; [done|cbn; lia]).
  rewrite last_lookup, prefix_roots_length, prefix_roots_at by lia. by rewrite take_ge by lia.
Qed.
End load.

Section claims.
Context `{HashFunction}.

Lemma quick_load_run xs : xs <> [] -> NoDup (map fst (map fst xs)) -> Z.of_nat (length xs) <= 2 ^ 30 ->
  exists k t' s' m, loaded k (map fst xs) (map snd xs) t' /\ store_of (map fst xs) s' /\
    quick_load xs = if Hash_IsEqual (default ZeroHash (last (map snd xs))) (root_of (map fst xs))
                    then Ok {| tc_tree := set_store s' t'; RootToBlock := m |}
                    else Err (errorString "mmr_root of tree mismatches with calculated root").
Proof.
  intros Hne Hnd Hn. assert (0 < length xs)%nat by (clear -Hne; destruct xs; [done|cbn; lia]).
  destruct (start_loaded (length xs)) as (k & t0 & Hk & Hle & E0 & Ht0); [lia|done|].
  destruct (load_all k xs [] [] {| tc_tree := t0; RootToBlock := ∅ |} Ht0) as (c' & E1 & Hc'); [done|done|done|done|].
  cbn [length app] in *. destruct (rebuild_loaded k (map fst xs) (map snd xs) (tc_tree c') Hc') as (s' & Hs' & E2); [by rewrite !length_map|by destruct xs|by rewrite length_map|done|].
  exists k, (tc_tree c'), s', (RootToBlock c'). split_and!; [done..|]. unfold quick_load.
  destruct NewTree as [t| |]; try discriminate E0. cbn [mbind outcome_bind] in *. rewrite E0. cbn [mbind outcome_bind].
  rewrite E1. cbn [mbind outcome_bind]. rewrite E2. by destruct (Hash_IsEqual _ _).
Qed.

(** C21: Loading the blocks of a stored chain with the roots they were stored with, and one rebuild
    at the end, gives the tree that appending the blocks one by one gives. *)
Theorem quick_load_equivalent bs : bs <> [] -> NoDup (map fst bs) -> Z.of_nat (length bs) <= 2 ^ 30 ->
  exists c, quick_load (zip bs (prefix_roots bs)) = Ok c /\ tree_of bs (tc_tree c).
Proof.
  intros Hne Hnd Hn. set (xs := zip bs (prefix_roots bs)). pose proof (prefix_roots_length bs) as Hl.
  assert (Hf : map fst xs = bs) by (apply fst_zip; lia). assert (Hs : map snd xs = prefix_roots bs) by (apply snd_zip; lia).
  destruct (quick_load_run xs) as (k & t' & s' & m & Ht & Hst & E).
  - intros Hx. rewrite Hx in Hf. by subst bs.
  - by rewrite Hf.
  - by rewrite <-(length_map fst), Hf.
  - rewrite Hf, Hs in *. rewrite prefix_roots_last in E by done. cbn [default from_option] in E. unfold Hash_IsEqual in E. rewrite bool_decide_eq_true_2 in E by done.
    eexists. split; [exact E|]. destruct Ht as [H1 H2 H3 H4 _ H6 H7 H8]. cbn [tc_tree]. split; cbn [set_store nextHeight chainWeight lastNode rootHash mmr_store heightToRoot hashToHeight rootToHeight]; try done.
    + rewrite H4. by rewrite prefix_roots_last by done.
    + intros z r. rewrite H6. split.
      * intros (i & Hi & ->). pose proof (lookup_lt_Some _ _ _ Hi) as Hlt. rewrite Hl in Hlt. rewrite prefix_roots_at in Hi by done. injection Hi as <-. by exists i.
      * intros (i & Hi & -> & ->). exists i. by rewrite prefix_roots_at.
Qed.

(** A stored last root that is not that of the blocks is refused. *)
Theorem quick_load_mismatch xs : xs <> [] -> NoDup (map fst (map fst xs)) -> Z.of_nat (length xs) <= 2 ^ 30 ->
  last (map snd xs) <> Some (root_of (map fst xs)) ->
  quick_load xs = Err (errorString "mmr_root of tree mismatches with calculated root").
Proof.
  intros Hne Hnd Hn Hr. destruct (quick_load_run xs Hne Hnd Hn) as (k & t' & s' & m & _ & _ & ->).
  destruct (last (map snd xs)) as [r|] eqn:El.
  - cbn [default from_option id]. unfold Hash_IsEqual. rewrite bool_decide_eq_false_2; [done|]. intros Heq. apply Hr. by rewrite <-Heq.
  - apply last_None in El. by destruct xs.
Qed.

(** ** Lookups *)

Lemma leaf_not_final bs s z : store_of bs s -> 0 <= z -> exists o, getNode 0 z s = Ok (o, false).
Proof.
  intros (k & _ & _ & Hsh & Hl & _) Hz. pose proof (getNode_spec k s 0 (Z.to_nat z) Hsh) as E. rewrite Z2Nat.id in E by done.
  rewrite E, Hl. eexists. f_equal. f_equal. by destruct (bs !! Z.to_nat z).
Qed.

Lemma root_lookup_false bs t r : tree_of bs t -> exists o, LookupNodeByRoot r t = Ok (o, false).
Proof.
  intros [_ _ _ _ Hs _ _ Hlk]. unfold LookupNodeByRoot. destruct (rootToHeight t !! r) as [z|] eqn:E; [|by eexists].
  apply (leaf_not_final bs); [done|by eapply Hlk].
Qed.

(** [LeafByHash] gives the leaf of every block of the tree, and says that it was not found:
    what it reports is the final mark of the slot, which leaves never carry. *)
Theorem leaf_by_hash_reported_missing bs t i v : tree_of bs t -> bs !! i = Some v ->
  LeafByHash v.1 t = Ok (Some (leaf_node i v), false).
Proof.
  intros [_ _ _ _ (k & _ & _ & Hsh & Hl & _) _ Hhs _] Hi. unfold LeafByHash.
  rewrite (proj2 (Hhs v.1 (Z.of_nat i))) by (by exists i, v). rewrite (getNode_spec k) by done. by rewrite Hl, Hi.
Qed.

Lemma fork_never_found bs t : tree_of bs t -> forall ancestors r lifo, find_fork r ancestors lifo t = Ok (Some (lifo ++ ancestors, t)).
Proof.
  intros Ht. induction ancestors as [|n ancestors IH]; intros r lifo; cbn [find_fork]; [by rewrite app_nil_r|].
  destruct (root_lookup_false bs t r Ht) as [o ->]. cbn [mbind outcome_bind]. rewrite IH. by rewrite <-app_assoc.
Qed.

(** C36: A block that does not extend the tip makes the container add the whole chain of the block,
    from its first block, after the leaves that are there: the fork is never found and nothing
    is removed. *)
Theorem fork_readds_chain bs c node ancestors : tree_of bs (tc_tree c) ->
  bn_prevMMRRoot node <> root_of bs -> ancestors <> [] ->
  SetNodeToMmrWithReorganization node ancestors c =
    ('(c', root) ← add_nodes (rev ancestors ++ [node]) (bn_actualMMRRoot node) c; Ok (true, c', root)).
Proof.
  intros Ht Hr Ha. unfold SetNodeToMmrWithReorganization, CurrentRoot. rewrite (tree_root bs) by done. unfold Hash_IsEqual.
  rewrite bool_decide_eq_false_2 by done. destruct ancestors as [|n ancestors]; [done|].
  rewrite (fork_never_found bs) by done. cbn [mbind outcome_bind app rev]. destruct c as [t m]. cbn [tc_tree RootToBlock]. reflexivity.
Qed.
End claims.

(** ** The bytes that are hashed *)

Lemma node_data_eq lv rv : node_data lv rv =
  take (length rv) (lv ++ replicate (length rv) Byte.x00) ++ take (length lv) rv ++ drop (length rv + Nat.min (length lv) (length rv)) (lv ++ replicate (length rv) Byte.x00).
Proof.
  unfold node_data. pose proof (copy_at_fresh [] (length lv + length rv) lv ltac:(lia)) as E. unfold zeros in E. cbn [app length] in E. rewrite E.
  replace (length lv + length rv - length lv)%nat with (length rv) by lia. unfold copy_at. rewrite length_app, length_replicate.
  replace (length lv + length rv - length rv)%nat with (length lv) by lia. f_equal. f_equal.
  destruct (decide (length lv <= length rv)%nat); [by rewrite Nat.min_l by lia|]. rewrite Nat.min_r by lia. by rewrite !take_ge by lia.
Qed.

(** Values of one length are hashed one after the other. *)
Lemma node_data_same lv rv : length lv = length rv -> node_data lv rv = lv ++ rv.
Proof.
  intros E. rewrite node_data_eq, <-E, take_app_length, (take_ge rv), drop_ge, app_nil_r by (rewrite ?length_app, ?length_replicate; lia). done.
Qed.

Lemma node_data_tail lv rv b b' : (length lv <= length rv)%nat -> node_data lv (rv ++ [b]) = node_data lv (rv ++ [b']).
Proof. intros Hl. rewrite !node_data_eq, !length_app. cbn [length]. by rewrite !(take_app_le rv) by lia. Qed.

Lemma big_Bytes_last w : 0 < w -> exists b, big_Bytes w = removelast (big_Bytes w) ++ [b].
Proof.
  intros Hw. pose proof (big_Bytes_len w Hw) as [Hl _]. pose proof (Z.log2_nonneg w). pose proof (Z.div_pos (Z.log2 w) 8).
  destruct (exists_last (l := big_Bytes w)) as (x & b & E); [intros E; rewrite E in Hl; unfold len in Hl; cbn in Hl; lia|].
  exists b. by rewrite E, removelast_last.
Qed.

Lemma le_split_cons n w : le_split (S n) w = byte.of_Z w :: le_split n (Z.shiftr w 8).
Proof. reflexivity. Qed.

Lemma big_Bytes_high w w' : 0 < w -> 0 < w' -> len (big_Bytes w) = len (big_Bytes w') -> w / 256 = w' / 256 ->
  removelast (big_Bytes w) = removelast (big_Bytes w').
Proof.
  intros Hw Hw' El Ed. destruct (big_Bytes_len w Hw) as [L _], (big_Bytes_len w' Hw') as [L' _]. rewrite L, L' in El.
  unfold big_Bytes. rewrite !(proj2 (Z.eqb_neq _ 0)), !Z.abs_eq by lia. rewrite El. pose proof (Z.div_pos (Z.log2 w') 8). pose proof (Z.log2_nonneg w').
  replace (Z.to_nat (Z.log2 w' / 8 + 1)) with (S (Z.to_nat (Z.log2 w' / 8))) by lia.
  rewrite !le_split_cons. cbn [rev]. rewrite !removelast_last, !Z.shiftr_div_pow2 by lia. change (2 ^ 8) with 256. by rewrite Ed.
Qed.

(** When the right node has the longer value, the end of it is not hashed: weights that differ
    in their last byte give the parent the same hash. *)
Theorem right_weight_not_hashed `{HashFunction} a r r' wa w w' :
  tn_Weight a = Some wa -> tn_Weight r = Some w -> tn_Weight r' = Some w' -> tn_Hash r = tn_Hash r' ->
  0 < w -> 0 < w' -> len (big_Bytes w) = len (big_Bytes w') -> w / 256 = w' / 256 ->
  len (tn_Hash a ++ big_Bytes wa) < len (tn_Hash r ++ big_Bytes w) ->
  exists p p', hashNodes (Some a) (Some r) = Ok (Some p, true) /\ hashNodes (Some a) (Some r') = Ok (Some p', true) /\
    tn_Hash p = tn_Hash p' /\ tn_Weight p = Some (wa + w) /\ tn_Weight p' = Some (wa + w').
Proof.
  intros Ha Hr Hr' Eh Hw Hw' El Ed Hlen. unfold hashNodes, TreeNode_Bytes. rewrite Ha, Hr, Hr'. cbn [mbind outcome_bind].
  do 2 eexists. split_and!; [done|done| |done|done]. cbn [tn_Hash]. f_equal. rewrite <-Eh.
  pose proof (big_Bytes_high w w' Hw Hw' El Ed) as R. destruct (big_Bytes_last w Hw) as [b Eb], (big_Bytes_last w' Hw') as [b' Eb'].
  set (x := removelast (big_Bytes w)) in *. set (x' := removelast (big_Bytes w')) in *. rewrite Eb, Eb', <-R, !(app_assoc (tn_Hash r)).
  apply node_data_tail. rewrite Eb in Hlen. unfold len in Hlen. rewrite !length_app in *. cbn [length] in Hlen. lia.
Qed.

(** * Concrete chains *)

#[local] Existing Instance sha256_instance.

Definition example_block (n : Z) : value := (replicate 31 Byte.x07 ++ [byte.of_Z n], n + 5).

Definition example_ops : list mmr_op :=
  [OpAppend (example_block 1); OpAppend (example_block 2); OpAppend (example_block 3); OpRemove 1;
   OpAppend (example_block 4); OpReset (example_block 1).1 0; OpSet (example_block 5) 1].

Lemma mmr_refines_list_witness :
  ops_ok [] example_ops /\ exists t0 t, NewTree = Ok t0 /\ run_ops example_ops (unlocked t0) = Some (Ok {| write_locked := true; mx_tree := t |}) /\
    tree_of (foldl spec_op [] example_ops) t.
Proof.
  assert (Hok : ops_ok [] example_ops).
  { unfold example_ops. cbn [ops_ok]. unfold op_ok. split_and!; try done; apply (bool_decide_unpack _); vm_compute; exact I. }
  split; [exact Hok|]. destruct (mmr_refines_list example_ops Hok) as (t0 & E0 & t & E & Ht). exists t0, t. split; [exact E0|]. split; [exact E|exact Ht].
Defined.

Definition example_chain : list value := [example_block 1; example_block 2; example_block 3].

Lemma example_chain_distinct : NoDup (map fst example_chain).
Proof. apply (bool_decide_unpack _). vm_compute. exact I. Qed.

Lemma example_tree : exists t, tree_of example_chain t.
Proof.
  destruct NewTree_empty as (t0 & _ & H0).
  destruct (append_tree [] (example_block 1) t0 H0) as (t1 & _ & H1); [set_solver|done|].
  destruct (append_tree _ (example_block 2) t1 H1) as (t2 & _ & H2); [apply (bool_decide_unpack _); vm_compute; exact I|done|].
  destruct (append_tree _ (example_block 3) t2 H2) as (t3 & _ & H3); [apply (bool_decide_unpack _); vm_compute; exact I|done|].
  by exists t3.
Qed.

Lemma quick_load_equivalent_witness :
  exists c, quick_load (zip example_chain (prefix_roots example_chain)) = Ok c /\ tree_of example_chain (tc_tree c).
Proof. apply (quick_load_equivalent example_chain); [done|exact example_chain_distinct|done]. Defined.

Lemma quick_load_mismatch_witness :
  quick_load (zip example_chain (replicate 3 ZeroHash)) = Err (errorString "mmr_root of tree mismatches with calculated root").
Proof. apply quick_load_mismatch; [done|exact example_chain_distinct|done|]. apply (bool_decide_unpack _). vm_compute. exact I. Defined.

Lemma leaf_by_hash_reported_missing_witness :
  exists t, tree_of example_chain t /\ LeafByHash (example_block 2).1 t = Ok (Some (leaf_node 1 (example_block 2)), false).
Proof.
  destruct example_tree as [t Ht]. exists t. split; [exact Ht|].
  exact (leaf_by_hash_reported_missing example_chain t 1 (example_block 2) Ht eq_refl).
Defined.

Definition example_node (n height : Z) (prev actual : bytes) : BlockNode :=
  {| bn_hash := (example_block n).1; bn_prevMMRRoot := prev; bn_actualMMRRoot := actual; bn_height := height; bn_powWeight := n + 5 |}.

(** A block on the second of the three blocks, and the two below it. *)
Definition fork_block : BlockNode := example_node 9 2 (root_of (take 2 example_chain)) ZeroHash.
Definition fork_ancestors : list BlockNode :=
  [example_node 2 1 (root_of (take 1 example_chain)) (root_of (take 2 example_chain));
   example_node 1 0 ZeroHash (root_of (take 1 example_chain))].

Lemma fork_readds_chain_witness :
  (exists t, tree_of example_chain t /\
    SetNodeToMmrWithReorganization fork_block fork_ancestors {| tc_tree := t; RootToBlock := ∅ |} =
      ('(c', root) ← add_nodes (rev fork_ancestors ++ [fork_block]) ZeroHash {| tc_tree := t; RootToBlock := ∅ |}; Ok (true, c', root))) /\
  match (c ← quick_load (zip example_chain (prefix_roots example_chain)); SetNodeToMmrWithReorganization fork_block fork_ancestors c) with
  | Ok (_, c, _) => nextHeight (tc_tree c) =? 6
  | _ => false
  end = true.
Proof.
  split; [|vm_compute; reflexivity]. destruct example_tree as [t Ht]. exists t. split; [exact Ht|].
  apply (fork_readds_chain example_chain {| tc_tree := t; RootToBlock := ∅ |} fork_block fork_ancestors Ht); [|done].
  apply (bool_decide_unpack _). vm_compute. exact I.
Defined.

Definition weighted (w : Z) : TreeNode := {| tn_Hash := ZeroHash; tn_Weight := Some w; tn_Height := 0; final := false |}.

Lemma right_weight_not_hashed_witness :
  exists p p', hashNodes (Some (weighted 7)) (Some (weighted 258)) = Ok (Some p, true) /\
    hashNodes (Some (weighted 7)) (Some (weighted 300)) = Ok (Some p', true) /\
    tn_Hash p = tn_Hash p' /\ tn_Weight p = Some 265 /\ tn_Weight p' = Some 307.
Proof. apply (right_weight_not_hashed (weighted 7) (weighted 258) (weighted 300) 7 258 300); (done || vm_compute; reflexivity). Defined.
