(* ===== verification/BlockNodes.v ===== *)
(** Model of node/blocknodes: the nodes of the tree of blocks, their status, ancestors and the
    median of past times.

    A node is a pointer: [node_ptr] is its identity, which Go's comparison of interfaces
    compares, and the parent is part of the node, so that every walk to the first block is
    structural.  The two fields that are changed after the node is made, the status and the
    root of the mountain range, are kept apart by who changes them. *)

From stdpp Require Import gmap sorting.
From S2P Require Import Prelude Big WireEncoding WireTx Chainhash WireHeader Pow.

(** * Status flags *)

Definition StatusDataStored : Z := 1.
Definition StatusValid : Z := 2.
Definition StatusValidateFailed : Z := 4.
Definition StatusInvalidAncestor : Z := 8.
Definition StatusNone : Z := 0.

Definition HaveData (status : Z) : bool := negb (Z.land status StatusDataStored =? 0).
Definition KnownValid (status : Z) : bool := negb (Z.land status StatusValid =? 0).
Definition KnownInvalid (status : Z) : bool :=
  negb (Z.land status (Z.lor StatusValidateFailed StatusInvalidAncestor) =? 0).

(** * Nodes *)

(** A header, by the methods of the interface that the nodes and the chain call on it. *)
Record header_info := {
  hi_BlockHash : bytes; hi_PrevBlockHash : bytes; hi_PrevBlocksMMRRoot : bytes;
  hi_Version : Z; hi_Height : Z; hi_Bits : Z; hi_K : Z; hi_VoteK : Z; hi_Timestamp : Z; hi_Shards : Z
}.

(** The fields of a node that do not change. *)
Record node_info := {
  node_ptr : Z; node_hash : bytes; node_workSum : Z; node_serialID : Z; node_timestamp : Z;
  node_powWeight : Z; node_header : header_info
}.

Inductive IBlockNode :=
| first_node (i : node_info)
| child_node (i : node_info) (parent : IBlockNode).

Definition info (node : IBlockNode) : node_info := match node with first_node i | child_node i _ => i end.
Definition Parent (node : IBlockNode) : option IBlockNode :=
  match node with first_node _ => None | child_node _ parent => Some parent end.

Definition GetHash (node : IBlockNode) : bytes := node_hash (info node).
Definition PrevMMRRoot (node : IBlockNode) : bytes := hi_PrevBlocksMMRRoot (node_header (info node)).
Definition PrevHash (node : IBlockNode) : bytes := hi_PrevBlockHash (node_header (info node)).
Definition node_Version (node : IBlockNode) : Z := BVersion_Version (hi_Version (node_header (info node))).
Definition Height (node : IBlockNode) : Z := hi_Height (node_header (info node)).
Definition SerialID (node : IBlockNode) : Z := node_serialID (info node).
Definition node_Bits (node : IBlockNode) : Z := hi_Bits (node_header (info node)).
Definition node_K (node : IBlockNode) : Z := hi_K (node_header (info node)).
Definition node_VoteK (node : IBlockNode) : Z := hi_VoteK (node_header (info node)).
Definition PowWeight (node : IBlockNode) : Z := node_powWeight (info node).
Definition WorkSum (node : IBlockNode) : Z := node_workSum (info node).
Definition Timestamp (node : IBlockNode) : Z := node_timestamp (info node).

(** [NewBeaconBlockNode] and [NewShardBlockNode]; the pointer is the one of the allocation. *)
Definition NewBlockNode (ptr : Z) (blockHeader : header_info) (parent : option IBlockNode) (serialID : Z) : IBlockNode :=
  let i := {| node_ptr := ptr; node_hash := hi_BlockHash blockHeader; node_workSum := CalcWork (hi_Bits blockHeader);
              node_serialID := 0; node_timestamp := hi_Timestamp blockHeader;
              node_powWeight := CalcWork (hi_Bits blockHeader); node_header := blockHeader |} in
  match parent with
  | None => first_node i
  | Some parent =>
      child_node {| node_ptr := ptr; node_hash := node_hash i; node_workSum := WorkSum parent + node_workSum i;
                    node_serialID := serialID; node_timestamp := node_timestamp i;
                    node_powWeight := node_powWeight i; node_header := blockHeader |} parent
  end.

(** [a == b] of two nodes, and of nodes that may be nil. *)
Definition node_eqb (a b : IBlockNode) : bool := node_ptr (info a) =? node_ptr (info b).
Definition opt_node_eqb (a b : option IBlockNode) : bool :=
  match a, b with Some a, Some b => node_eqb a b | None, None => true | _, _ => false end.

(** The walk to the node of a height. *)
Fixpoint walk_to (height : Z) (n : IBlockNode) : option IBlockNode :=
  if Height n =? height then Some n
  else match n with first_node _ => None | child_node _ parent => walk_to height parent end.

Definition Ancestor (height : Z) (node : IBlockNode) : option IBlockNode :=
  if (height <? 0) || (Height node <? height) then None else walk_to height node.

Definition RelativeAncestor (distance : Z) (node : IBlockNode) : option IBlockNode :=
  Ancestor (swrap 32 (Height node - distance)) node.

(** * Median of past times *)

Definition beaconMedianTimeBlocks : Z := 11.
Definition shardMedianTimeBlocks : Z := 23.

(** The timestamps of at most [n] nodes. *)
Fixpoint past_times (n : nat) (node : IBlockNode) : list Z :=
  match n with
  | O => []
  | S n => Timestamp node :: match node with first_node _ => [] | child_node _ parent => past_times n parent end
  end.

(** [sort.Sort(types.TimeSorter(timestamps))] *)
Definition TimeSorter (timestamps : list Z) : list Z := merge_sort Z.le timestamps.

Definition CalcPastMedianTimeForN (nBlocks : Z) (node : IBlockNode) : outcome Z :=
  if nBlocks <? 0 then Panic
  else
  let timestamps := past_times (Z.to_nat nBlocks) node in
  let numNodes := length timestamps in
  match TimeSorter timestamps !! (numNodes / 2)%nat with
  | Some medianTimestamp => Ok medianTimestamp
  | None => Panic
  end.

Definition medianTimeBlocks (isBeacon : bool) : Z := if isBeacon then beaconMedianTimeBlocks else shardMedianTimeBlocks.
Definition CalcPastMedianTime (isBeacon : bool) (node : IBlockNode) : outcome Z :=
  CalcPastMedianTimeForN (medianTimeBlocks isBeacon) node.

#[export] Instance header_info_eq_dec : EqDecision header_info.
Proof. solve_decision. Defined.
#[export] Instance node_info_eq_dec : EqDecision node_info.
Proof. solve_decision. Defined.
#[export] Instance IBlockNode_eq_dec : EqDecision IBlockNode.
Proof. intros a b. unfold Decision. decide equality; apply decide; apply _. Defined.

(** * Facts *)

(** The nodes from the first one to a node. *)
Fixpoint path (node : IBlockNode) : list IBlockNode :=
  match node with first_node _ => [node] | child_node _ parent => path parent ++ [node] end.

(** The heights count the nodes from the first one. *)
Fixpoint linked (node : IBlockNode) : Prop :=
  match node with
  | first_node _ => Height node = 0
  | child_node _ parent => Height node = Height parent + 1 /\ linked parent
  end.

(** A branch that an [int32] can count. *)
Definition sized (node : IBlockNode) : Prop := linked node /\ Height node < 2 ^ 31 - 1.

Lemma path_length node : linked node -> Z.of_nat (length (path node)) = Height node + 1.
Proof.
  induction node as [i|i p IH]; cbn [path linked]; [intros ->; done|]. intros [E Hp]. specialize (IH Hp).
  rewrite length_app. cbn [length]. lia.
Qed.

Lemma Height_nonneg node : linked node -> 0 <= Height node.
Proof. intros Hn. apply path_length in Hn. pose proof (Nat2Z.is_nonneg (length (path node))). destruct node; cbn [path] in *; rewrite ?length_app in *; cbn [length] in *; lia. Qed.

Lemma path_last node : last (path node) = Some node.
Proof. destruct node; cbn [path]; [done|]. by rewrite last_snoc. Qed.

Lemma self_in_path node : node ∈ path node.
Proof. destruct node; cbn [path]; set_solver. Qed.

Lemma path_self node : linked node -> path node !! Z.to_nat (Height node) = Some node.
Proof.
  intros Hn. pose proof (path_length _ Hn). pose proof (path_last node) as Hl. rewrite last_lookup in Hl. rewrite <-Hl. f_equal. lia.
Qed.

Lemma path_heights node i a : linked node -> path node !! i = Some a -> Height a = Z.of_nat i /\ linked a /\ path a = take (S i) (path node).
Proof.
  induction node as [x|x p IH]; cbn [path linked].
  - intros H0 Hi. destruct i as [|i]; [|done]. injection Hi as <-. done.
  - intros [E Hp] Hi. pose proof (path_length _ Hp). apply lookup_app_Some in Hi as [Hi|[Hge Hi]].
    + destruct (IH Hp Hi) as (H1 & H2 & H3). split_and!; [done|done|]. rewrite take_app_le; [done|]. apply lookup_lt_Some in Hi. lia.
    + apply list_lookup_singleton_Some in Hi as [Hz <-]. split_and!; [lia|done|]. rewrite take_ge; [done|]. rewrite length_app. cbn. lia.
Qed.

Lemma walk_to_path node h : linked node -> 0 <= h -> walk_to h node = path node !! Z.to_nat h.
Proof.
  intros Hn H0. induction node as [x|x p IH]; cbn [walk_to path].
  - cbn [linked] in Hn. rewrite Hn. destruct (Z.eqb_spec 0 h) as [<-|]; [done|]. by rewrite lookup_ge_None_2 by (cbn; lia).
  - destruct Hn as [E Hp]. pose proof (path_length _ Hp). destruct (Z.eqb_spec (Height (child_node x p)) h) as [<-|Hne].
    + rewrite lookup_app_r by lia. replace (Z.to_nat _ - _)%nat with 0%nat by lia. done.
    + rewrite IH by done. destruct (decide (Z.to_nat h < length (path p))%nat); [by rewrite lookup_app_l|].
      rewrite !lookup_ge_None_2; rewrite ?length_app; cbn [length]; (done || lia).
Qed.

(** The ancestor at a height is the node of that height on the path. *)
Lemma Ancestor_path node h : linked node -> 0 <= h -> Ancestor h node = path node !! Z.to_nat h.
Proof.
  intros Hn H0. unfold Ancestor. rewrite (proj2 (Z.ltb_ge h 0)) by done. cbn [orb]. pose proof (path_length _ Hn).
  destruct (Z.ltb_spec (Height node) h); [by rewrite lookup_ge_None_2 by lia|by apply walk_to_path].
Qed.

Lemma Ancestor_some node h : linked node -> 0 <= h <= Height node -> exists a, Ancestor h node = Some a /\ Height a = h /\ linked a.
Proof.
  intros Hn Hh. rewrite Ancestor_path by lia || done. pose proof (path_length _ Hn).
  destruct (lookup_lt_is_Some_2 (path node) (Z.to_nat h)) as [a Ha]; [lia|]. exists a. split; [done|].
  destruct (path_heights _ _ _ Hn Ha) as (Hz & Hl & _). split; [lia|done].
Qed.

Lemma linked_parent node p : linked node -> Parent node = Some p -> linked p /\ Height node = Height p + 1.
Proof. destruct node as [x|x q]; [done|]. intros [E Hq] [= ->]. done. Qed.

(** ** The median *)

(** How many of some times are before a time. *)
Definition before (m : Z) (ts : list Z) : nat := length (filter (fun t => t < m) ts).

Lemma before_none m ts : Forall (fun t => m <= t) ts -> before m ts = 0%nat.
Proof.
  unfold before. induction 1 as [|t ts Ht Hts IH]; [done|]. rewrite filter_cons_False by lia. exact IH.
Qed.

Lemma sorted_before ts : Sorted Z.le ts -> forall k v m, ts !! k = Some v -> m <= v <-> (before m ts <= k)%nat.
Proof.
  intros Hs. apply Sorted_StronglySorted in Hs; [|intros ???; lia]. induction Hs as [|t ts Hs IH Ht]; intros k v m; [done|].
  unfold before. destruct (decide (t < m)) as [Hlt|Hge].
  - rewrite filter_cons_True by done. cbn [length]. destruct k as [|k]; cbn [lookup list_lookup].
    + intros [= <-]. lia.
    + intros Hk. rewrite (IH k v m Hk). unfold before. lia.
  - rewrite filter_cons_False by done. assert (Hn : Forall (fun u => m <= u) ts) by (eapply Forall_impl; [exact Ht|]; intros; cbn in *; lia).
    pose proof (before_none m ts Hn) as E. unfold before in E. rewrite E. split; [lia|intros _].
    destruct k as [|k]; cbn [lookup list_lookup] in *; [naive_solver lia|]. rewrite Forall_lookup in Hn. naive_solver.
Qed.

Lemma before_perm m ts ts' : ts ≡ₚ ts' -> before m ts = before m ts'.
Proof. intros E. unfold before. by rewrite E. Qed.

Lemma before_app m ts ts' : before m (ts ++ ts') = (before m ts + before m ts')%nat.
Proof. unfold before. by rewrite filter_app, length_app. Qed.

Lemma past_times_length n node : length (past_times n node) = Nat.min n (length (path node)).
Proof.
  revert n. induction node as [x|x p IH]; intros [|n]; cbn [past_times path length]; [done|destruct n; done|by rewrite Nat.min_0_l|].
  rewrite IH, length_app. cbn [length]. lia.
Qed.

Lemma past_times_child n x p : past_times (S n) (child_node x p) = Timestamp (child_node x p) :: past_times n p.
Proof. done. Qed.

(** One more time, if there are enough nodes. *)
Lemma past_times_S node : forall n, exists ts, past_times (S n) node = past_times n node ++ ts.
Proof.
  induction node as [x|x p IH]; intros [|n]; [by eexists|by exists []|by eexists|].
  destruct (IH n) as [ts E]. exists ts. by rewrite !past_times_child, E.
Qed.

Lemma past_times_path n node t : t ∈ past_times n node -> exists a, a ∈ path node /\ Timestamp a = t.
Proof.
  revert node. induction n as [|n IH]; intros node; [by cbn; rewrite elem_of_nil|]. destruct node as [i|i p].
  - cbn [past_times path]. intros Ht. apply list_elem_of_singleton in Ht as ->. exists (first_node i). split; [set_solver|done].
  - rewrite past_times_child. intros Ht. apply elem_of_cons in Ht as [->|Ht]; [exists (child_node i p); split; [apply self_in_path|done]|].
    destruct (IH p Ht) as (a & Ha & E). exists a. split; [cbn [path]; set_solver|done].
Qed.

Lemma median_time_spec nBlocks node : 0 < nBlocks -> exists v, CalcPastMedianTimeForN nBlocks node = Ok v /\
  let ts := past_times (Z.to_nat nBlocks) node in
  v ∈ ts /\ forall m, m <= v <-> (before m ts <= length ts / 2)%nat.
Proof.
  intros Hn. unfold CalcPastMedianTimeForN. rewrite (proj2 (Z.ltb_ge _ 0)) by lia. set (ts := past_times _ node).
  assert (Hp : TimeSorter ts ≡ₚ ts) by apply merge_sort_Permutation.
  assert (Hl : (0 < length ts)%nat).
  { unfold ts. rewrite past_times_length. destruct node; cbn [path]; rewrite ?length_app; cbn [length]; lia. }
  destruct (lookup_lt_is_Some_2 (TimeSorter ts) (length ts / 2)) as [v Ev].
  { rewrite (Permutation_length Hp). apply Nat.div_lt; lia. }
  rewrite Ev. exists v. split; [done|]. cbv zeta. split.
  - rewrite <-Hp. by eapply list_elem_of_lookup_2.
  - intros m. rewrite (sorted_before (TimeSorter ts)) by (try exact Ev; apply Sorted_merge_sort; intros ??; lia).
    by rewrite (before_perm m _ _ Hp).
Qed.

(** A block whose timestamp is after the median time of its parent does not put the median time
    back: time, as the rules of the chain see it, is monotone along the chain. *)
Theorem median_time_monotone isBeacon x p m : CalcPastMedianTime isBeacon p = Ok m -> m < Timestamp (child_node x p) ->
  exists m', CalcPastMedianTime isBeacon (child_node x p) = Ok m' /\ m <= m'.
Proof.
  unfold CalcPastMedianTime. assert (Hn : 0 < medianTimeBlocks isBeacon) by (by destruct isBeacon).
  set (n := medianTimeBlocks isBeacon) in *. intros Em Hlt.
  destruct (median_time_spec n p Hn) as (v & Ev & _ & Hv). rewrite Em in Ev. injection Ev as <-.
  destruct (median_time_spec n (child_node x p) Hn) as (m' & Em' & _ & Hm'). exists m'. split; [done|].
  apply Hm'. pose proof (proj1 (Hv m) ltac:(lia)) as Hb. rewrite past_times_length in Hb. rewrite past_times_length.
  destruct (Z.to_nat n) as [|k] eqn:Ek; [lia|]. cbn [past_times path]. destruct (past_times_S p k) as [ts E]. rewrite E, before_app in Hb.
  unfold before at 1. rewrite filter_cons_False by lia. fold (before m (past_times k p)). rewrite length_app. cbn [length].
  eapply Nat.le_trans; [|apply Nat.Div0.div_le_mono]; [exact (Nat.le_trans _ _ _ (Nat.le_add_r _ _) Hb)|lia].
Qed.

(** A chain of blocks with some timestamps, the last one first; heights count from zero. *)
Fixpoint example_nodes (ts : list Z) : option IBlockNode :=
  match ts with
  | [] => None
  | t :: ts =>
      let n := Z.of_nat (length ts) in
      let h := {| hi_BlockHash := [byte.of_Z n]; hi_PrevBlockHash := [byte.of_Z (n - 1)]; hi_PrevBlocksMMRRoot := [];
                  hi_Version := 0; hi_Height := n; hi_Bits := 0x1d00ffff; hi_K := 0; hi_VoteK := 0; hi_Timestamp := t; hi_Shards := 0 |} in
      Some (NewBlockNode n h (example_nodes ts) n)
  end.

Definition tip_of (ts : list Z) : IBlockNode :=
  default (first_node {| node_ptr := 0; node_hash := []; node_workSum := 0; node_serialID := 0; node_timestamp := 0; node_powWeight := 0;
    node_header := {| hi_BlockHash := []; hi_PrevBlockHash := []; hi_PrevBlocksMMRRoot := []; hi_Version := 0; hi_Height := 0; hi_Bits := 0;
                      hi_K := 0; hi_VoteK := 0; hi_Timestamp := 0; hi_Shards := 0 |} |}) (example_nodes ts).

Lemma median_time_monotone_witness :
  exists node m', example_nodes [8; 9; 4; 7; 5] = Some node /\ CalcPastMedianTime true node = Ok m' /\ 7 <= m'.
Proof.
  destruct (example_nodes [9; 4; 7; 5]) as [p|] eqn:E; [|discriminate E].
  destruct (example_nodes [8; 9; 4; 7; 5]) as [[i|i q]|] eqn:E'; try discriminate E'.
  assert (Hq : q = p) by (cbn [example_nodes] in E, E'; rewrite E in E'; unfold NewBlockNode in E'; congruence). subst q.
  destruct (median_time_monotone true i p 7) as (m' & Em & Hm).
  - injection E as <-. vm_compute. reflexivity.
  - injection E' as <- _. vm_compute. reflexivity.
  - exists (child_node i p), m'. by split.
Defined.
