(* ===== verification/ChainView.v ===== *)
(** Model of node/blockchain/chainview.go: the flat view of a branch of the tree of blocks, from
    its tip to the first block, with the mountain range of the branch.

    The view keeps a slice of nodes and reuses its capacity; a slot that was given up is set to
    nil when the slice grows again, so the slice is a list.  The roots that the nodes are given
    by the mountain range are a map from pointers. *)

From stdpp Require Import gmap sorting.
From S2P Require Import Prelude Big WireEncoding WireTx Chainhash WireHeader Pow Mmr MmrStore MmrTree BlockNodes.

(** * The logarithm *)

Definition log2FloorMasks : list Z := [0xffff0000; 0xff00; 0xf0; 0xc; 0x2].

Definition log2_turn (st : Z * Z * Z) (mask : Z) : Z * Z * Z :=
  let '(rv, exponent, n) := st in
  let '(rv, n) := if negb (Z.land n mask =? 0) then (uwrap 8 (rv + exponent), Z.shiftr n exponent) else (rv, n) in
  (rv, Z.shiftr exponent 1, n).

Definition fastLog2Floor (n : Z) : Z :=
  let '(rv, _, _) := foldl log2_turn (0, 16, n) log2FloorMasks in rv.

(** * The view *)

Record chainView := { view_nodes : list (option IBlockNode); view_mmr : TreeContainer }.

(** The roots of the nodes. *)
Abbreviation node_roots := (gmap Z bytes).

Definition ActualMMRRoot (roots : node_roots) (node : IBlockNode) : bytes := default ZeroHash (roots !! node_ptr (info node)).
Definition SetActualMMRRoot (root : bytes) (node : IBlockNode) (roots : node_roots) : node_roots :=
  <[node_ptr (info node) := root]> roots.

(** A node as the mountain range sees it. *)
Definition mmr_node (roots : node_roots) (node : IBlockNode) : BlockNode :=
  {| bn_hash := GetHash node; bn_prevMMRRoot := PrevMMRRoot node; bn_actualMMRRoot := ActualMMRRoot roots node;
     bn_height := Height node; bn_powWeight := PowWeight node |}.

Fixpoint ancestors (node : IBlockNode) : list IBlockNode :=
  match node with first_node _ => [] | child_node _ parent => parent :: ancestors parent end.

(** [c.nodes[node.Height()] = node] down to the first node that is there. *)
Fixpoint fill_nodes (node : IBlockNode) (nodes : list (option IBlockNode)) : outcome (list (option IBlockNode)) :=
  let h := Height node in
  if h <? 0 then Panic
  else
  match nodes !! Z.to_nat h with
  | None => Panic
  | Some slot =>
      if opt_node_eqb slot (Some node) then Ok nodes
      else
      let nodes := <[Z.to_nat h := Some node]> nodes in
      match node with first_node _ => Ok nodes | child_node _ parent => fill_nodes parent nodes end
  end.

Definition resize_nodes (needed : nat) (nodes : list (option IBlockNode)) : list (option IBlockNode) :=
  take needed nodes ++ replicate (needed - length nodes) None.

Definition genesis (c : chainView) : option IBlockNode := mjoin (head (view_nodes c)).
Definition view_tip (c : chainView) : option IBlockNode := mjoin (last (view_nodes c)).
Definition view_height (c : chainView) : Z := len (view_nodes c) - 1.

Definition nodeByHeight (height : Z) (c : chainView) : option IBlockNode :=
  if (height <? 0) || (len (view_nodes c) <=? height) then None else mjoin (view_nodes c !! Z.to_nat height).

Definition contains (node : IBlockNode) (c : chainView) : bool := opt_node_eqb (nodeByHeight (Height node) c) (Some node).

Definition next (node : option IBlockNode) (c : chainView) : option IBlockNode :=
  match node with
  | None => None
  | Some node => if contains node c then nodeByHeight (swrap 32 (Height node + 1)) c else None
  end.

Definition view_Equals (c other : chainView) : bool :=
  Nat.eqb (length (view_nodes c)) (length (view_nodes other)) && opt_node_eqb (view_tip c) (view_tip other).

Definition view_HashByMMR (root : bytes) (c : chainView) : option bytes := RootToBlock (view_mmr c) !! root.

(** The walk to a node of the view. *)
Fixpoint walk_to_view (c : chainView) (node : IBlockNode) : option IBlockNode :=
  if contains node c then Some node
  else match node with first_node _ => None | child_node _ parent => walk_to_view c parent end.

Definition findFork (node : option IBlockNode) (c : chainView) : option IBlockNode :=
  match node with
  | None => None
  | Some node =>
      let chainHeight := view_height c in
      node ← (if chainHeight <? Height node then Ancestor chainHeight node else Some node);
      walk_to_view c node
  end.

(** ** Locators *)

Definition maxEntries (height : Z) : Z :=
  if height <=? 12 then uwrap 8 (uwrap 8 height + 1)
  else uwrap 8 (12 + fastLog2Floor (uwrap 32 (uwrap 32 height - 10))).

(** The entries from a node, [entries] of them already there. *)
Fixpoint locator_loop (fuel : nat) (c : chainView) (node : option IBlockNode) (step entries : Z) : outcome (list bytes) :=
  match fuel, node with
  | _, None => Ok []
  | O, _ => Panic
  | S fuel, Some node =>
      if Height node =? 0 then Ok [GetHash node]
      else
      let height := swrap 32 (Height node - step) in
      let height := if height <? 0 then 0 else height in
      node' ←
        (if contains node c then
           match view_nodes c !! Z.to_nat height with Some n => Ok n | None => Panic end
         else Ok (Ancestor height node));
      let step := if 10 <? entries + 1 then swrap 32 (step * 2) else step in
      rest ← locator_loop fuel c node' step (entries + 1);
      Ok (GetHash node :: rest)
  end.

(** A locator has at most as many entries as the height and one. *)
Definition blockLocator (node : option IBlockNode) (c : chainView) : outcome (list bytes) :=
  let node := match node with None => view_tip c | _ => node end in
  match node with
  | None => Ok []
  | Some n => locator_loop (Z.to_nat (Height n) + 1) c node 1 0
  end.

Section hash.
Context `{HashFunction}.

Definition newChainView : outcome chainView :=
  t ← NewTree;
  Ok {| view_nodes := []; view_mmr := {| tc_tree := t; RootToBlock := ∅ |} |}.

(** The mountain range of a view or of the index after a node. *)
Definition set_node_mmr (node : IBlockNode) (quickAdd : bool) (c : TreeContainer) (roots : node_roots)
    : outcome (TreeContainer * node_roots) :=
  if quickAdd then c ← SetNodeQuick (mmr_node roots node) c; Ok (c, roots)
  else
  '(_, c, root) ← SetNodeToMmrWithReorganization (mmr_node roots node) (map (mmr_node roots) (ancestors node)) c;
  Ok (c, SetActualMMRRoot root node roots).

Definition setTip (node : option IBlockNode) (quickAdd : bool) (c : chainView) (roots : node_roots)
    : outcome (chainView * node_roots) :=
  match node with
  | None => Ok ({| view_nodes := []; view_mmr := view_mmr c |}, roots)
  | Some node =>
      let needed := swrap 32 (Height node + 1) in
      if needed <? 0 then Panic
      else
      let nodes := resize_nodes (Z.to_nat needed) (view_nodes c) in
      '(tree, roots) ← set_node_mmr node quickAdd (view_mmr c) roots;
      nodes ← fill_nodes node nodes;
      Ok ({| view_nodes := nodes; view_mmr := tree |}, roots)
  end.

Definition SetTip (node : option IBlockNode) := setTip node false.
Definition SetQuickTip (node : option IBlockNode) := setTip node true.
End hash.
