(* ===== verification/ViewFacts.v ===== *)
(** The view of a branch is the path to its tip: what the walks, forks and locators of
    chainview.go compute on it. *)

From stdpp Require Import gmap sorting.
From S2P Require Import Prelude Big WireEncoding WireTx Sha256 Chainhash WireHeader Pow Mmr MmrStore MmrTree BlockNodes ChainView.

(** * The logarithm *)

Lemma log2_turn_spec n rv e a : 0 < n < 2 ^ (2 * a) -> 0 < a <= 16 -> 0 <= rv -> rv + a <= 255 -> e = a ->
  exists rv' n', log2_turn (rv, e, n) (Z.shiftl (Z.ones a) a) = (rv', Z.shiftr a 1, n') /\
    0 < n' < 2 ^ a /\ rv' + Z.log2 n' = rv + Z.log2 n /\ rv <= rv' <= rv + a.
Proof.
  intros Hn Ha Hrv He ->. unfold log2_turn. pose proof (Z.pow_pos_nonneg 2 a ltac:(lia) ltac:(lia)) as Hp.
  assert (Hl : Z.land n (Z.shiftl (Z.ones a) a) = Z.shiftl (Z.shiftr n a) a).
  { apply Z.bits_inj'. intros i Hi. rewrite Z.land_spec, !Z.shiftl_spec by lia. destruct (Z.ltb_spec i a).
    - rewrite !(Z.testbit_neg_r _ (i - a)) by lia. by rewrite andb_false_r.
    - rewrite Z.shiftr_spec by lia. replace (i - a + a) with i by lia. destruct (Z.ltb_spec (i - a) a).
      + rewrite Z.ones_spec_low by lia. by rewrite andb_true_r.
      + rewrite Z.ones_spec_high, andb_false_r by lia. symmetry. apply Z.bits_above_log2; [lia|].
        apply Z.log2_lt_pow2; [lia|]. eapply Z.lt_le_trans; [apply Hn|]. apply Z.pow_le_mono_r; lia. }
  rewrite Hl, Z.shiftl_mul_pow2, Z.shiftr_div_pow2 by lia. set (q := n / 2 ^ a).
  assert (Hq : 0 <= q < 2 ^ a).
  { split; [apply Z.div_pos; lia|]. apply Z.div_lt_upper_bound; [lia|]. rewrite <-Z.pow_add_r by lia. replace (a + a) with (2 * a) by lia. lia. }
  destruct (Z.eqb_spec (q * 2 ^ a) 0) as [Hz|Hz]; cbn [negb].
  - assert (Hq0 : q = 0) by nia. exists rv, n. split_and!; try lia; [done|]. apply Z.div_small_iff in Hq0; lia.
  - assert (0 < q) by nia. unfold uwrap. rewrite Z.mod_small by (change (2 ^ 8) with 256; lia). exists (rv + a), q. split_and!; try lia; [done|].
    assert (Eq : q = Z.shiftr n a) by (symmetry; apply Z.shiftr_div_pow2; lia). rewrite Eq, Z.log2_shiftr by lia.
    rewrite Z.max_r; [lia|]. assert (a <= Z.log2 n); [|lia]. apply Z.log2_le_pow2; [lia|].
    destruct (Z.lt_ge_cases n (2 ^ a)) as [Hlt|]; [|done]. assert (q = 0) by (apply Z.div_small; lia). lia.
Qed.

Lemma fastLog2Floor_eq n : 0 < n < 2 ^ 32 -> fastLog2Floor n = Z.log2 n.
Proof.
  intros Hn. unfold fastLog2Floor, log2FloorMasks. cbn [foldl].
  destruct (log2_turn_spec n 0 16 16) as (r1 & n1 & E1 & H1 & S1 & B1); [exact Hn|lia..|]. change (Z.shiftl (Z.ones 16) 16) with 0xffff0000 in E1. rewrite E1. change (Z.shiftr 16 1) with 8.
  destruct (log2_turn_spec n1 r1 8 8) as (r2 & n2 & E2 & H2 & S2 & B2); [exact H1|lia..|]. change (Z.shiftl (Z.ones 8) 8) with 0xff00 in E2. rewrite E2. change (Z.shiftr 8 1) with 4.
  destruct (log2_turn_spec n2 r2 4 4) as (r3 & n3 & E3 & H3 & S3 & B3); [exact H2|lia..|]. change (Z.shiftl (Z.ones 4) 4) with 0xf0 in E3. rewrite E3. change (Z.shiftr 4 1) with 2.
  destruct (log2_turn_spec n3 r3 2 2) as (r4 & n4 & E4 & H4 & S4 & B4); [exact H3|lia..|]. change (Z.shiftl (Z.ones 2) 2) with 0xc in E4. rewrite E4. change (Z.shiftr 2 1) with 1.
  destruct (log2_turn_spec n4 r4 1 1) as (r5 & n5 & E5 & H5 & S5 & B5); [exact H4|lia..|]. change (Z.shiftl (Z.ones 1) 1) with 0x2 in E5. rewrite E5.
  change (2 ^ 1) with 2 in H5. assert (n5 = 1) as -> by lia. change (Z.log2 1) with 0 in S5. lia.
Qed.

(** * Views of paths *)

(** The view of the branch that ends in a node. *)
Definition view_of (tip : IBlockNode) (c : chainView) : Prop := view_nodes c = map Some (path tip).

(** Pointers tell the nodes of two branches apart. *)
Definition one_identity (a b : IBlockNode) : Prop :=
  forall x y, x ∈ path a -> y ∈ path b -> node_ptr (info x) = node_ptr (info y) -> x = y.

Lemma one_identity_parent a i p : one_identity a (child_node i p) -> one_identity a p.
Proof. intros Hid x y Hx Hy. apply Hid; [done|]. cbn [path]. set_solver. Qed.

Section view.
Context (tip : IBlockNode) (c : chainView) (Ht : sized tip) (Hc : view_of tip c).

Lemma view_len : len (view_nodes c) = Height tip + 1.
Proof. rewrite Hc. unfold len. rewrite length_map. apply path_length, Ht. Qed.

Lemma view_tip_eq : view_tip c = Some tip.
Proof. unfold view_tip. rewrite Hc. change (map Some (path tip)) with (Some <$> path tip). by rewrite fmap_last, path_last. Qed.

Lemma view_height_eq : view_height c = Height tip.
Proof. unfold view_height. rewrite view_len. lia. Qed.

Lemma nodeByHeight_eq h : nodeByHeight h c = Ancestor h tip.
Proof.
  unfold nodeByHeight. rewrite view_len. unfold Ancestor. destruct (Z.ltb_spec h 0); [done|]. cbn [orb].
  destruct (Z.leb_spec (Height tip + 1) h), (Z.ltb_spec (Height tip) h); try lia; [done|].
  rewrite walk_to_path by (done || apply Ht). rewrite Hc, list_lookup_fmap. by destruct (path tip !! Z.to_nat h).
Qed.

(** A node is in the view exactly when it is on the path. *)
Lemma contains_iff node : linked node -> one_identity tip node -> contains node c = true <-> node ∈ path tip.
Proof.
  intros Hn Hid. unfold contains. rewrite nodeByHeight_eq, Ancestor_path by (apply Ht || by apply Height_nonneg). split.
  - destruct (path tip !! _) as [x|] eqn:E; [|done]. cbn [opt_node_eqb]. intros Hx. apply Z.eqb_eq in Hx.
    apply list_elem_of_lookup_2 in E. by rewrite <-(Hid x node E (self_in_path node) Hx).
  - intros Hin. apply list_elem_of_lookup in Hin as [i Hi]. destruct (path_heights _ _ _ (proj1 Ht) Hi) as (Hz & _). rewrite Hz, Nat2Z.id, Hi.
    cbn [opt_node_eqb]. apply Z.eqb_refl.
Qed.

Lemma walk_to_view_spec node : linked node -> one_identity tip node ->
  match walk_to_view c node with
  | Some f => f ∈ path tip /\ f ∈ path node /\ forall x, x ∈ path tip -> x ∈ path node -> Height x <= Height f
  | None => forall x, x ∈ path tip -> x ∉ path node
  end.
Proof.
  induction node as [i|i p IH]; intros Hn Hid; cbn [walk_to_view].
  - destruct (contains (first_node i) c) eqn:E.
    + apply contains_iff in E; [|done..]. split_and!; [done|apply self_in_path|]. intros x _ Hx. cbn [path] in Hx. apply list_elem_of_singleton in Hx as ->. lia.
    + intros x Hx Hx'. cbn [path] in Hx'. apply list_elem_of_singleton in Hx' as ->. apply contains_iff in Hx; [congruence|done..].
  - destruct (contains (child_node i p) c) eqn:E.
    + apply contains_iff in E; [|done..]. split_and!; [done|apply self_in_path|]. intros x _ Hx. apply list_elem_of_lookup in Hx as [j Hj].
      pose proof (lookup_lt_Some _ _ _ Hj). destruct (path_heights _ _ _ Hn Hj) as (Hz & _). pose proof (path_length _ Hn). lia.
    + specialize (IH (proj2 Hn) (one_identity_parent _ _ _ Hid)). assert (Hno : child_node i p ∉ path tip).
      { intros Hin. apply contains_iff in Hin; [congruence|done..]. }
      destruct (walk_to_view c p) as [f|].
      * destruct IH as (H1 & H2 & H3). split_and!; [done|cbn [path]; set_solver|]. intros x Hx Hx'. cbn [path] in Hx'.
        apply elem_of_app in Hx' as [Hx'|Hx']; [by apply H3|]. apply list_elem_of_singleton in Hx' as ->. done.
      * intros x Hx Hx'. cbn [path] in Hx'. apply elem_of_app in Hx' as [Hx'|Hx']; [by apply (IH x)|]. apply list_elem_of_singleton in Hx' as ->. done.
Qed.
End view.

Lemma path_incl node i a : linked node -> path node !! i = Some a -> forall x, x ∈ path a <-> x ∈ path node /\ Height x <= Height a.
Proof.
  intros Hn Hi x. destruct (path_heights _ _ _ Hn Hi) as (Hz & _ & ->). rewrite elem_of_take, list_elem_of_lookup. split.
  - intros (j & Hj & Hlt). split; [by exists j|]. destruct (path_heights _ _ _ Hn Hj) as (Hx & _). lia.
  - intros [[j Hj] Hle]. exists j. split; [done|]. destruct (path_heights _ _ _ Hn Hj) as (Hx & _). lia.
Qed.

Lemma one_identity_sub a b b' : one_identity a b -> (forall x, x ∈ path b' -> x ∈ path b) -> one_identity a b'.
Proof. intros Hid Hs x y Hx Hy. apply Hid; [done|by apply Hs]. Qed.

(** [findFork] gives the last node that the branch of a node and the view have in common, and nil
    exactly when they have none. *)
Lemma find_fork_common tip c node : sized tip -> view_of tip c -> linked node -> one_identity tip node ->
  match findFork (Some node) c with
  | Some f => f ∈ path tip /\ f ∈ path node /\ forall x, x ∈ path tip -> x ∈ path node -> Height x <= Height f
  | None => forall x, x ∈ path tip -> x ∉ path node
  end.
Proof.
  intros Ht Hc Hn Hid. unfold findFork. rewrite (view_height_eq tip) by done. destruct (Z.ltb_spec (Height tip) (Height node)) as [Hlt|Hge].
  - pose proof (Height_nonneg tip (proj1 Ht)) as H0. destruct (Ancestor_some node (Height tip) Hn ltac:(lia)) as (a & Ea & Ha & Hla).
    rewrite Ea. cbn [mbind option_bind]. rewrite Ancestor_path in Ea by done. pose proof (path_incl _ _ _ Hn Ea) as Hp.
    assert (Hsub : forall x, x ∈ path a -> x ∈ path node) by (intros x Hx; by apply Hp).
    pose proof (walk_to_view_spec tip c Ht Hc a Hla (one_identity_sub _ _ _ Hid Hsub)) as Hw.
    assert (Hup : forall x, x ∈ path tip -> x ∈ path node -> x ∈ path a).
    { intros x Hx Hx'. apply Hp. split; [done|]. apply list_elem_of_lookup in Hx as [j Hj]. pose proof (lookup_lt_Some _ _ _ Hj).
      destruct (path_heights _ _ _ (proj1 Ht) Hj) as (Hz & _). pose proof (path_length _ (proj1 Ht)). lia. }
    destruct (walk_to_view c a) as [f|]; [|intros x Hx Hx'; by apply (Hw x Hx), Hup].
    destruct Hw as (H1 & H2 & H3). split_and!; [done|by apply Hsub|]. intros x Hx Hx'. apply H3; [done|by apply Hup].
  - cbn [mbind option_bind]. by apply walk_to_view_spec.
Qed.

(** * Setting the tip *)

(** Below a node that is on both paths the paths agree. *)
Lemma fill_nodes_path node : forall nodes tl old, linked node -> 
  length nodes = S (Z.to_nat (Height node)) ->
  (forall i a x, nodes !! i = Some (Some a) -> x ∈ path node -> node_ptr (info a) = node_ptr (info x) -> a = x) ->
  (forall i a, nodes !! i = Some (Some a) -> old !! i = Some a) ->
  (forall i a, old !! i = Some a -> forall j, (j <= i)%nat -> old !! j = path a !! j) ->
  (forall i, (i < length old)%nat -> (i < length nodes)%nat -> nodes !! i = Some (old !! i)) ->
  fill_nodes node (nodes ++ tl) = Ok (map Some (path node) ++ tl).
Proof.
  assert (Hstep : forall node nodes (tl : list (option IBlockNode)), length nodes = S (Z.to_nat (Height node)) ->
    exists slot, nodes !! Z.to_nat (Height node) = Some slot /\ (nodes ++ tl) !! Z.to_nat (Height node) = Some slot /\
      <[Z.to_nat (Height node) := Some node]> (nodes ++ tl) = take (Z.to_nat (Height node)) nodes ++ Some node :: tl).
  { clear node. intros node nodes tl Hl. destruct (lookup_lt_is_Some_2 nodes (Z.to_nat (Height node))) as [slot Hs]; [lia|]. exists slot.
    split; [done|]. split; [by apply lookup_app_l_Some|]. rewrite insert_app_l by lia. rewrite insert_take_drop by lia.
    rewrite drop_ge by lia. by rewrite <-app_assoc. }
  assert (Hstop : forall node nodes old (tl : list (option IBlockNode)), linked node -> length nodes = S (Z.to_nat (Height node)) ->
    nodes !! Z.to_nat (Height node) = Some (Some node) ->
    (forall i a, nodes !! i = Some (Some a) -> old !! i = Some a) ->
    (forall i a, old !! i = Some a -> forall j, (j <= i)%nat -> old !! j = path a !! j) ->
    (forall i, (i < length old)%nat -> (i < length nodes)%nat -> nodes !! i = Some (old !! i)) -> nodes = map Some (path node)).
  { clear node. intros node nodes old tl Hn Hl Hs Ho Hp Ha. pose proof (Ho _ _ Hs) as Hold. pose proof (path_length _ Hn) as Hpl. pose proof (Height_nonneg _ Hn).
    apply list_eq. intros j. destruct (decide (j < length nodes)%nat) as [Hj|Hj].
    - pose proof (lookup_lt_Some _ _ _ Hold). rewrite Ha by lia. rewrite (Hp _ _ Hold) by lia. rewrite list_lookup_fmap.
      destruct (path node !! j) eqn:E; [done|]. apply lookup_ge_None in E. lia.
    - rewrite !lookup_ge_None_2; [done|rewrite length_map; lia|lia]. }
  induction node as [i|i p IH]; intros nodes tl old Hn Hl Hid Ho Hp Ha; cbn [fill_nodes]; pose proof (Height_nonneg _ Hn) as H0;
    rewrite (proj2 (Z.ltb_ge _ 0)) by done; destruct (Hstep _ _ tl Hl) as (slot & Hs & Hs' & Hins); rewrite Hs', Hins.
  - destruct (opt_node_eqb slot (Some (first_node i))) eqn:E.
    + destruct slot as [a|]; [|done]. apply Z.eqb_eq in E. pose proof (Hid _ _ _ Hs (self_in_path _) E) as ->. by rewrite (Hstop _ nodes old tl Hn Hl Hs) by done.
    + cbn [linked] in Hn. rewrite Hn. done.
  - destruct (opt_node_eqb slot (Some (child_node i p))) eqn:E.
    + destruct slot as [a|]; [|done]. apply Z.eqb_eq in E. pose proof (Hid _ _ _ Hs (self_in_path _) E) as ->. by rewrite (Hstop _ nodes old tl Hn Hl Hs) by done.
    + destruct Hn as [Eh Hp']. pose proof (Height_nonneg _ Hp'). rewrite (IH (take (Z.to_nat (Height (child_node i p))) nodes) (Some (child_node i p) :: tl) old).
      * cbn [path]. rewrite map_app, <-app_assoc. done.
      * done.
      * rewrite length_take. lia.
      * intros k a x Hk Hx. apply lookup_take_Some in Hk as [Hk _]. apply (Hid k); [done|]. cbn [path]. set_solver.
      * intros k a Hk. apply lookup_take_Some in Hk as [Hk _]. by apply Ho.
      * exact Hp.
      * intros k Hk Hk'. rewrite length_take in Hk'. rewrite lookup_take_lt by lia. apply Ha; lia.
Qed.

Section set_tip.
Context `{HashFunction}.

Lemma resize_nodes_facts needed (old : list IBlockNode) :
  length (resize_nodes needed (map Some old)) = needed /\
  (forall i a, resize_nodes needed (map Some old) !! i = Some (Some a) -> old !! i = Some a) /\
  (forall i, (i < length old)%nat -> (i < needed)%nat -> resize_nodes needed (map Some old) !! i = Some (old !! i)).
Proof.
  unfold resize_nodes. rewrite length_map. split_and!.
  - rewrite length_app, length_take, length_map, length_replicate. lia.
  - intros i a Hi. apply lookup_app_Some in Hi as [Hi|[_ Hi]].
    + apply lookup_take_Some in Hi as [Hi _]. rewrite list_lookup_fmap in Hi. destruct (old !! i); [by injection Hi as ->|done].
    + apply lookup_replicate_1 in Hi as [? _]. done.
  - intros i Hi Hn. rewrite lookup_app_l by (rewrite length_take, length_map; lia). rewrite lookup_take_lt, list_lookup_fmap by done.
    by destruct (lookup_lt_is_Some_2 old i Hi) as [a ->].
Qed.

(** The nodes of the branch that a view shows; none for a view without a tip. *)
Definition branch (tip : option IBlockNode) : list IBlockNode := match tip with Some tip => path tip | None => [] end.
Definition view_branch (tip : option IBlockNode) (c : chainView) : Prop := view_nodes c = map Some (branch tip).

Lemma fill_resized tip c node : view_branch tip c -> (forall t, tip = Some t -> linked t /\ one_identity t node) -> linked node ->
  fill_nodes node (resize_nodes (S (Z.to_nat (Height node))) (view_nodes c)) = Ok (map Some (path node)).
Proof.
  intros Hc Hid Hn. rewrite Hc. destruct (resize_nodes_facts (S (Z.to_nat (Height node))) (branch tip)) as (F1 & F2 & F3).
  pose proof (fill_nodes_path node _ [] (branch tip) Hn F1) as E. rewrite !app_nil_r in E. apply E; clear E.
  - intros i a x Hi Hx Hp. destruct tip as [t|]; [|apply F2 in Hi; done]. destruct (Hid t eq_refl) as [_ Ht]. apply Ht; [|done..].
    apply F2 in Hi. by eapply list_elem_of_lookup_2.
  - exact F2.
  - intros i a Hi j Hj. destruct tip as [t|]; [|done]. destruct (Hid t eq_refl) as [Ht _]. cbn [branch] in *.
    destruct (path_heights _ _ _ Ht Hi) as (_ & _ & ->). by rewrite lookup_take_lt by lia.
  - intros i Hi Hl. rewrite F1 in Hl. by apply F3.
Qed.

(** Whatever branch a view shows, setting the tip makes it show the branch of the new tip: the
    nodes that are reused are those that the branches share. *)
Theorem set_tip_branch tip node quickAdd c roots c' roots' :
  view_branch tip c -> (forall t, tip = Some t -> linked t /\ one_identity t node) -> sized node ->
  setTip (Some node) quickAdd c roots = Ok (c', roots') -> view_of node c'.
Proof.
  intros Hc Hid [Hn Hs]. unfold setTip. pose proof (Height_nonneg _ Hn). rewrite swrap_id by (unfold is_int; lia).
  rewrite (proj2 (Z.ltb_ge _ 0)) by lia. replace (Z.to_nat (Height node + 1)) with (S (Z.to_nat (Height node))) by lia.
  destruct (set_node_mmr node quickAdd (view_mmr c) roots) as [[tree r]| |]; cbn [mbind outcome_bind]; try done.
  rewrite (fill_resized tip) by done. cbn [mbind outcome_bind]. intros [= <- <-]. done.
Qed.

Definition node_value (node : IBlockNode) : value := (GetHash node, PowWeight node).
Definition branch_values (node : IBlockNode) : list value := map node_value (path node).

(** A child of the tip becomes the tip. *)
Lemma SetTip_child tip i c roots : sized (child_node i tip) -> one_identity tip (child_node i tip) -> view_of tip c ->
  tree_of (branch_values tip) (tc_tree (view_mmr c)) -> Height tip < 2 ^ 30 - 1 ->
  PrevMMRRoot (child_node i tip) = root_of (branch_values tip) ->
  GetHash (child_node i tip) ∉ map GetHash (path tip) ->
  exists c' roots', SetTip (Some (child_node i tip)) c roots = Ok (c', roots') /\ view_of (child_node i tip) c' /\
    tree_of (branch_values (child_node i tip)) (tc_tree (view_mmr c')) /\
    ActualMMRRoot roots' (child_node i tip) = root_of (branch_values (child_node i tip)) /\
    view_HashByMMR (root_of (branch_values (child_node i tip))) c' = Some (GetHash (child_node i tip)).
Proof.
  intros Hs Hid Hc Ht Hh Hr Hf. pose proof Hs as [Hn Hs']. pose proof (Height_nonneg _ Hn). set (node := child_node i tip) in *.
  assert (Hb : branch_values node = branch_values tip ++ [node_value node]) by (unfold branch_values, node; cbn [path]; by rewrite map_app).
  destruct (append_tree (branch_values tip) (node_value node) (tc_tree (view_mmr c)) Ht) as (t' & Et & Ht').
  - unfold branch_values. by rewrite map_map.
  - unfold branch_values. rewrite length_map, path_length by apply Hn. lia.
  - rewrite <-Hb in Ht'. assert (Em : set_node_mmr node false (view_mmr c) roots =
      Ok ({| tc_tree := t'; RootToBlock := <[root_of (branch_values node) := GetHash node]> (RootToBlock (view_mmr c)) |},
          SetActualMMRRoot (root_of (branch_values node)) node roots)).
    { unfold set_node_mmr, SetNodeToMmrWithReorganization, CurrentRoot. rewrite (tree_root _ _ Ht). cbn [bn_prevMMRRoot mmr_node bn_hash bn_powWeight].
      rewrite Hr. unfold Hash_IsEqual. rewrite bool_decide_eq_true_2 by done. cbn [node_value fst snd] in Et. rewrite Et. cbn [mbind outcome_bind].
      by rewrite (tree_root _ _ Ht'). }
    unfold SetTip, setTip. rewrite swrap_id by (unfold is_int; lia). rewrite (proj2 (Z.ltb_ge _ 0)) by lia.
    replace (Z.to_nat (Height node + 1)) with (S (Z.to_nat (Height node))) by lia. rewrite Em. cbn [mbind outcome_bind].
    rewrite (fill_resized (Some tip)); [|done|intros t [= <-]; split; [apply Hn|done]|done]. cbn [mbind outcome_bind].
    do 2 eexists. split; [done|]. cbn [view_nodes view_mmr tc_tree]. split_and!; [done|done| |].
    + unfold ActualMMRRoot, SetActualMMRRoot. by rewrite lookup_insert_eq.
    + unfold view_HashByMMR. cbn [view_mmr RootToBlock]. by rewrite lookup_insert_eq.
Qed.

(** C23: A block on the tip, with the root of the branch: the view is extended, its mountain range is
    that of the new branch, and the block is given its root. *)
Theorem set_tip_extends tip i c roots : sized (child_node i tip) -> one_identity tip (child_node i tip) -> view_of tip c ->
  tree_of (branch_values tip) (tc_tree (view_mmr c)) -> Height tip < 2 ^ 30 - 1 ->
  PrevMMRRoot (child_node i tip) = root_of (branch_values tip) ->
  GetHash (child_node i tip) ∉ map GetHash (path tip) ->
  exists c' roots', SetTip (Some (child_node i tip)) c roots = Ok (c', roots') /\ view_of (child_node i tip) c' /\
    tree_of (branch_values (child_node i tip)) (tc_tree (view_mmr c')) /\
    ActualMMRRoot roots' (child_node i tip) = root_of (branch_values (child_node i tip)) /\
    view_HashByMMR (root_of (branch_values (child_node i tip))) c' = Some (GetHash (child_node i tip)).
Proof. apply SetTip_child. Qed.
End set_tip.

(** * Locators *)

(** The heights a locator takes. *)
Fixpoint locator_heights (fuel : nat) (h step entries : Z) : list Z :=
  match fuel with
  | O => []
  | S fuel =>
      if h =? 0 then [0]
      else h :: locator_heights fuel (Z.max 0 (h - step)) (if 10 <? entries + 1 then step * 2 else step) (entries + 1)
  end.

Lemma locator_heights_zero fuel step entries : (0 < fuel)%nat -> locator_heights fuel 0 step entries = [0].
Proof. by destruct fuel; [lia|]. Qed.

Lemma locator_heights_double fuel : forall h step entries, 10 <= entries -> 1 <= step -> 0 < h < Z.of_nat fuel ->
  len (locator_heights fuel h step entries) = 2 + Z.log2 ((h + step - 1) / step).
Proof.
  induction fuel as [|fuel IH]; intros h step entries He Hs Hh; [lia|]. cbn [locator_heights].
  rewrite (proj2 (Z.eqb_neq h 0)), (proj2 (Z.ltb_lt 10 _)), len_cons by lia. destruct (Z.le_gt_cases h step) as [Hle|Hgt].
  - rewrite Z.max_l, locator_heights_zero by lia. assert (E : (h + step - 1) / step = 1).
    { symmetry. apply Z.div_unique with (h - 1); lia. }
    rewrite E. done.
  - rewrite Z.max_r, IH by lia. replace (h - step + step * 2 - 1) with (h + step - 1) by lia.
    rewrite (Z.mul_comm step 2), Z.mul_comm, <-Z.div_div by lia. set (q := (h + step - 1) / step).
    assert (2 <= q) by (apply Z.div_le_lower_bound; lia).
    replace (q / 2) with (Z.shiftr q 1) by (rewrite Z.shiftr_div_pow2 by lia; done).
    assert (1 <= Z.log2 q) by (apply Z.log2_le_pow2; [lia|change (2 ^ 1) with 2; lia]). rewrite Z.log2_shiftr, Z.max_r by lia. lia.
Qed.

Lemma locator_heights_linear k : forall fuel h, 0 <= h < Z.of_nat fuel -> (k <= 10)%nat ->
  len (locator_heights fuel h 1 (10 - Z.of_nat k)) = if h <=? Z.of_nat k then h + 1 else Z.of_nat k + 2 + Z.log2 (h - Z.of_nat k).
Proof.
  induction k as [|k IH]; intros fuel h Hh Hk.
  - rewrite !Z.sub_0_r. destruct (Z.leb_spec h (Z.of_nat 0)).
    + replace h with 0 by lia. rewrite locator_heights_zero by lia. done.
    + rewrite locator_heights_double by lia. rewrite Z.div_1_r. do 2 f_equal. lia.
  - destruct fuel as [|fuel]; [lia|]. cbn [locator_heights]. destruct (Z.eqb_spec h 0) as [->|Hne].
    + rewrite (proj2 (Z.leb_le _ _)) by lia. done.
    + rewrite (proj2 (Z.ltb_ge 10 _)), len_cons, Z.max_r by lia. replace (10 - Z.of_nat (S k) + 1) with (10 - Z.of_nat k) by lia.
      rewrite IH by lia. destruct (Z.leb_spec (h - 1) (Z.of_nat k)), (Z.leb_spec h (Z.of_nat (S k))); try lia.
      replace (h - 1 - Z.of_nat k) with (h - Z.of_nat (S k)) by lia. lia.
Qed.

(** The room a locator is given is exactly what it takes. *)
Lemma locator_heights_max h : 0 <= h < 2 ^ 31 -> len (locator_heights (Z.to_nat h + 1) h 1 0) = maxEntries h.
Proof.
  intros Hh. pose proof (locator_heights_linear 10 (Z.to_nat h + 1) h ltac:(lia) ltac:(lia)) as E. change (10 - Z.of_nat 10) with 0 in E.
  rewrite E. unfold maxEntries.
  destruct (Z.leb_spec h 12) as [Hle|Hgt].
  - unfold uwrap. rewrite (Z.mod_small h), Z.mod_small by (change (2 ^ 8) with 256; lia). destruct (Z.leb_spec h (Z.of_nat 10)); [done|].
    assert (h = 11 \/ h = 12) as [->| ->] by lia; done.
  - rewrite (proj2 (Z.leb_gt _ _)) by lia. unfold uwrap at 3. rewrite Z.mod_small by lia. unfold uwrap at 2. rewrite Z.mod_small by lia.
    rewrite fastLog2Floor_eq by lia. change (Z.of_nat 10) with 10. assert (Z.log2 (h - 10) < 31) by (apply Z.log2_lt_pow2; lia).
    pose proof (Z.log2_nonneg (h - 10)). unfold uwrap. rewrite Z.mod_small by (change (2 ^ 8) with 256; lia). lia.
Qed.

Lemma locator_heights_sorted fuel : forall h step entries, 0 <= h < Z.of_nat fuel -> 1 <= step ->
  StronglySorted (fun a b : Z => b < a) (locator_heights fuel h step entries) /\ Forall (fun x => 0 <= x <= h) (locator_heights fuel h step entries) /\
  last (locator_heights fuel h step entries) = Some 0.
Proof.
  induction fuel as [|fuel IH]; intros h step entries Hh Hs; [lia|]. cbn [locator_heights]. destruct (Z.eqb_spec h 0) as [->|Hne].
  - split_and!; [repeat constructor|repeat constructor; lia|done].
  - set (step' := if 10 <? entries + 1 then step * 2 else step). assert (Hs' : 1 <= step') by (unfold step'; destruct (10 <? entries + 1); lia).
    destruct (IH (Z.max 0 (h - step)) step' (entries + 1) ltac:(lia) Hs') as (H1 & H2 & H3). split_and!.
    + constructor; [done|]. eapply Forall_impl; [exact H2|]. intros x Hx. cbn in Hx. lia.
    + constructor; [lia|]. eapply Forall_impl; [exact H2|]. intros x Hx. cbn in Hx. lia.
    + by rewrite last_cons, H3.
Qed.

Section locator.
Context (tip : IBlockNode) (c : chainView) (Ht : sized tip) (Hc : view_of tip c).
Context (node : IBlockNode) (Hn : linked node) (Hid : one_identity tip node).

(** A lookup in the view of the slot below one of its nodes is the ancestor. *)
Lemma locator_step a h : a ∈ path node -> 0 <= h <= Height a ->
  (if contains a c then match view_nodes c !! Z.to_nat h with Some n => Ok n | None => Panic end else Ok (Ancestor h a))
  = Ok (path node !! Z.to_nat h).
Proof.
  intros Ha Hh. apply list_elem_of_lookup in Ha as [i Hi]. destruct (path_heights _ _ _ Hn Hi) as (Hz & Hla & Hp).
  assert (Hanc : path a !! Z.to_nat h = path node !! Z.to_nat h) by (rewrite Hp; apply lookup_take_lt; lia).
  destruct (contains a c) eqn:E.
  - apply (contains_iff tip c Ht Hc) in E; [|done|].
    + apply list_elem_of_lookup in E as [j Hj]. destruct (path_heights _ _ _ (proj1 Ht) Hj) as (Hz' & _ & Hp').
      rewrite Hc, list_lookup_fmap. rewrite <-Hanc, Hp', lookup_take_lt by lia.
      pose proof (lookup_lt_Some _ _ _ Hj). destruct (path tip !! Z.to_nat h) eqn:E'; [done|]. apply lookup_ge_None in E'. lia.
    + eapply one_identity_sub; [exact Hid|]. intros x. rewrite Hp. intros Hx. apply elem_of_take in Hx as (k & Hk & _). by eapply list_elem_of_lookup_2.
  - by rewrite Ancestor_path, Hanc by (done || lia).
Qed.

Lemma locator_loop_run fuel : forall a step entries, a ∈ path node -> Height a < Z.of_nat fuel -> 1 <= step -> Height a + step <= 2 ^ 30 ->
  exists ns, locator_loop fuel c (Some a) step entries = Ok (map GetHash ns) /\
    map Height ns = locator_heights fuel (Height a) step entries /\ head ns = Some a /\ Forall (fun n => n ∈ path node) ns.
Proof.
  induction fuel as [|fuel IH]; intros a step entries Ha Hf Hs Hh.
  { apply list_elem_of_lookup in Ha as [i Hi]. destruct (path_heights _ _ _ Hn Hi) as (Hz & _). lia. }
  pose proof Ha as Ha'. apply list_elem_of_lookup in Ha' as [i Hi]. destruct (path_heights _ _ _ Hn Hi) as (Hz & Hla & _).
  cbn [locator_loop locator_heights]. destruct (Z.eqb_spec (Height a) 0) as [E|Hne].
  - exists [a]. cbn [map]. rewrite E. split_and!; [done|done|done|by constructor].
  - rewrite (swrap_id 32 (Height a - step)) by (unfold is_int; lia). set (h' := if Height a - step <? 0 then 0 else Height a - step).
    assert (Eh : h' = Z.max 0 (Height a - step)) by (unfold h'; destruct (Z.ltb_spec (Height a - step) 0); lia).
    rewrite locator_step by (done || lia). cbn [mbind outcome_bind].
    destruct (path node !! Z.to_nat h') as [b|] eqn:Eb; [|apply lookup_ge_None in Eb; apply lookup_lt_Some in Hi; lia].
    destruct (path_heights _ _ _ Hn Eb) as (Hzb & _). rewrite Z2Nat.id in Hzb by lia.
    assert (Hb : b ∈ path node) by (by eapply list_elem_of_lookup_2). destruct (decide (h' = 0)) as [E0|Hpos].
    + destruct fuel as [|fuel]; [lia|]. cbn [locator_loop locator_heights]. rewrite Hzb, <-Eh, E0. cbn [Z.eqb]. exists [a; b]. cbn [map mbind outcome_bind].
      split_and!; [done|by rewrite Hzb, E0|done|by repeat constructor].
    + set (step' := if 10 <? entries + 1 then swrap 32 (step * 2) else step).
      assert (Es : step' = (if 10 <? entries + 1 then step * 2 else step) /\ 1 <= step' /\ h' + step' <= 2 ^ 30).
      { unfold step'. destruct (10 <? entries + 1); [rewrite swrap_id by (unfold is_int; lia)|]; lia. }
      destruct Es as (Es & Hs' & Hh'). destruct (IH b step' (entries + 1) Hb) as (ns & E1 & E2 & E3 & E4); [lia|done|lia|].
      rewrite E1. cbn [mbind outcome_bind]. exists (a :: ns). cbn [map]. rewrite E2, Hzb, Es, Eh. split_and!; [done|done|done|by constructor].
Qed.
End locator.

Lemma locator_heights_first fuel : forall h step entries k, (k <= 10)%nat -> 0 <= h < Z.of_nat fuel -> Z.of_nat k <= h -> step = 1 -> entries + Z.of_nat k <= 10 ->
  locator_heights fuel h step entries !! k = Some (h - Z.of_nat k).
Proof.
  induction fuel as [|fuel IH]; intros h step entries k Hk Hh Hkh -> He; [lia|]. cbn [locator_heights]. destruct (Z.eqb_spec h 0) as [->|Hne].
  - assert (k = 0%nat) as -> by lia. done.
  - destruct k as [|k]; [cbn; f_equal; lia|]. cbn [lookup list_lookup]. rewrite (proj2 (Z.ltb_ge 10 _)) by lia.
    rewrite IH by lia. f_equal. lia.
Qed.

(** One entry from the one before: the distances double after the first eleven. *)
Lemma locator_heights_step fuel : forall h (e k : nat) x y,
  locator_heights fuel h (2 ^ Z.of_nat (e - 10)) (Z.of_nat e) !! k = Some x -> locator_heights fuel h (2 ^ Z.of_nat (e - 10)) (Z.of_nat e) !! S k = Some y ->
  y = Z.max 0 (x - 2 ^ Z.of_nat (e + k - 10)).
Proof.
  induction fuel as [|fuel IH]; intros h e k x y; cbn [locator_heights]; [done|]. destruct (Z.eqb_spec h 0) as [->|Hne]; [by destruct k|].
  assert (Es : (if 10 <? Z.of_nat e + 1 then 2 ^ Z.of_nat (e - 10) * 2 else 2 ^ Z.of_nat (e - 10)) = 2 ^ Z.of_nat (S e - 10)).
  { destruct (Z.ltb_spec 10 (Z.of_nat e + 1)).
    - replace (Z.of_nat (S e - 10)) with (Z.succ (Z.of_nat (e - 10))) by lia. rewrite Z.pow_succ_r by lia. lia.
    - f_equal. lia. }
  rewrite Es. replace (Z.of_nat e + 1) with (Z.of_nat (S e)) by lia. destruct k as [|k]; cbn [lookup list_lookup].
  - intros [= <-]. destruct fuel as [|fuel]; [done|]. cbn [locator_heights]. rewrite Nat.add_0_r. destruct (Z.eqb_spec (Z.max 0 (h - 2 ^ Z.of_nat (e - 10))) 0); intros [= <-]; lia.
  - intros Hx Hy. rewrite (IH _ (S e) k x y Hx Hy). do 3 f_equal. lia.
Qed.

Lemma maxEntries_bound h : 0 <= h < 2 ^ 31 -> maxEntries h <= 42.
Proof.
  intros Hh. unfold maxEntries. destruct (Z.leb_spec h 12).
  - unfold uwrap. rewrite (Z.mod_small h), Z.mod_small by (change (2 ^ 8) with 256; lia). lia.
  - unfold uwrap at 3. rewrite Z.mod_small by lia. unfold uwrap at 2. rewrite Z.mod_small by lia. rewrite fastLog2Floor_eq by lia.
    assert (Z.log2 (h - 10) < 31) by (apply Z.log2_lt_pow2; lia). pose proof (Z.log2_nonneg (h - 10)).
    unfold uwrap. rewrite Z.mod_small by (change (2 ^ 8) with 256; lia). lia.
Qed.

Lemma sorted_heights (ns : list IBlockNode) : StronglySorted (fun a b : Z => b < a) (map Height ns) ->
  StronglySorted (fun a b => Height b < Height a) ns.
Proof.
  induction ns as [|n ns IH]; [constructor|]. cbn [map]. intros Hs. apply StronglySorted_inv in Hs as [Hs Hf]. constructor; [by apply IH|].
  apply Forall_map in Hf. exact Hf.
Qed.

(** C30: A locator names a node, its last ten ancestors, and then ancestors at doubling distances down
    to the first block: the entry after entry [k] is 2^(k-10) below it for [k] from 10 on, and 1 below it
    before, or is the first block.  It takes exactly the room that was computed for it, at
    most 42 entries for any height. *)
Theorem block_locator_spec tip c node : sized tip -> view_of tip c -> linked node -> one_identity tip node -> Height node < 2 ^ 30 ->
  exists ns, blockLocator (Some node) c = Ok (map GetHash ns) /\ len ns = maxEntries (Height node) /\ len ns <= 42 /\
    head ns = Some node /\ last ns = head (path node) /\ Forall (fun n => n ∈ path node) ns /\
    StronglySorted (fun a b => Height b < Height a) ns /\
    (forall k, (k <= 10)%nat -> Z.of_nat k <= Height node -> ns !! k = path node !! Z.to_nat (Height node - Z.of_nat k)) /\
    forall k a b, ns !! k = Some a -> ns !! S k = Some b -> Height b = Z.max 0 (Height a - 2 ^ Z.of_nat (k - 10)).
Proof.
  intros Ht Hc Hn Hid Hh. pose proof (Height_nonneg _ Hn) as H0. set (fuel := (Z.to_nat (Height node) + 1)%nat).
  destruct (locator_loop_run tip c Ht Hc node Hn Hid fuel node 1 0) as (ns & E & Eh & Hd & Hp); [apply self_in_path|unfold fuel; lia|lia|lia|].
  assert (Hlen : len ns = maxEntries (Height node)).
  { rewrite <-(len_map Height), Eh. apply locator_heights_max. lia. }
  destruct (locator_heights_sorted fuel (Height node) 1 0) as (S1 & S2 & S3); [unfold fuel; lia|lia|]. rewrite <-Eh in S1, S3.
  assert (Hat : forall k n, ns !! k = Some n -> path node !! Z.to_nat (Height n) = Some n).
  { intros k n Hk. rewrite Forall_lookup in Hp. specialize (Hp k n Hk). apply list_elem_of_lookup in Hp as [j Hj].
    destruct (path_heights _ _ _ Hn Hj) as (Hz & _). by rewrite Hz, Nat2Z.id. }
  exists ns. split_and!; [exact E|exact Hlen|rewrite Hlen; apply maxEntries_bound; lia|done| |done|by apply sorted_heights| |].
  - change (map Height ns) with (Height <$> ns) in S3. rewrite fmap_last in S3. destruct (last ns) as [n|] eqn:El; [|done]. injection S3 as Hz.
    rewrite last_lookup in El. apply Hat in El. rewrite Hz in El. by rewrite <-El, head_lookup.
  - intros k Hk Hkh. assert (Hf : map Height ns !! k = Some (Height node - Z.of_nat k)).
    { rewrite Eh. apply locator_heights_first; unfold fuel; lia. }
    rewrite list_lookup_fmap in Hf. destruct (ns !! k) as [n|] eqn:Ek; [|done]. injection Hf as Hz. rewrite <-Hz. by rewrite (Hat _ _ Ek).
  - intros k a b' Ha Hb. apply (f_equal (fmap Height)) in Ha, Hb. rewrite <-list_lookup_fmap in Ha, Hb. change (Height <$> ns) with (map Height ns) in Ha, Hb.
    rewrite Eh in Ha, Hb. by apply (locator_heights_step fuel (Height node) 0 k).
Qed.

(** * Concrete branches *)

Lemma one_identity_check a b :
  Forall (fun x => Forall (fun y => node_ptr (info x) = node_ptr (info y) -> x = y) (path b)) (path a) -> one_identity a b.
Proof. intros Hf x y Hx Hy. rewrite Forall_forall in Hf. specialize (Hf x Hx). rewrite Forall_forall in Hf. by apply Hf. Qed.

#[local] Existing Instance sha256_instance.

Definition example_header (ptr height : Z) (root : bytes) : header_info :=
  {| hi_BlockHash := replicate 31 Byte.x05 ++ [byte.of_Z ptr]; hi_PrevBlockHash := []; hi_PrevBlocksMMRRoot := root; hi_Version := 0; hi_Height := height;
     hi_Bits := 0x1d00ffff; hi_K := 0; hi_VoteK := 0; hi_Timestamp := 1000 + ptr; hi_Shards := 0 |}.

Definition branch_root (node : IBlockNode) : bytes := root_of (branch_values node).

Definition node0 : IBlockNode := NewBlockNode 0 (example_header 0 0 ZeroHash) None 0.
Definition node1 : IBlockNode := NewBlockNode 1 (example_header 1 1 ZeroHash) (Some node0) 1.
Definition node2_info : node_info := info (NewBlockNode 2 (example_header 2 2 (branch_root node1)) (Some node1) 2).
Definition node2 : IBlockNode := child_node node2_info node1.
Definition node2' : IBlockNode := NewBlockNode 3 (example_header 3 2 ZeroHash) (Some node1) 3.
Definition node3' : IBlockNode := NewBlockNode 4 (example_header 4 3 ZeroHash) (Some node2') 4.

Definition example_view (tip : IBlockNode) : chainView :=
  {| view_nodes := map Some (path tip);
     view_mmr := {| tc_tree := match NewTree with Ok t => t | _ => {| nextHeight := 0; chainWeight := 0; lastNode := None; rootHash := ZeroHash; mmr_store := [];
                                  rootToHeight := ∅; heightToRoot := ∅; hashToHeight := ∅ |} end; RootToBlock := ∅ |} |}.

Lemma example_sized : sized node2 /\ sized node3' /\ sized node1.
Proof. by vm_compute. Qed.

Lemma block_locator_spec_witness :
  exists ns, blockLocator (Some node3') (example_view node2) = Ok (map GetHash ns) /\ len ns = maxEntries (Height node3') /\ len ns <= 42 /\
    head ns = Some node3' /\ last ns = head (path node3') /\ Forall (fun n => n ∈ path node3') ns /\
    StronglySorted (fun a b => Height b < Height a) ns /\
    (forall k, (k <= 10)%nat -> Z.of_nat k <= Height node3' -> ns !! k = path node3' !! Z.to_nat (Height node3' - Z.of_nat k)) /\
    forall k a b, ns !! k = Some a -> ns !! S k = Some b -> Height b = Z.max 0 (Height a - 2 ^ Z.of_nat (k - 10)).
Proof.
  destruct example_sized as (H2 & H3 & _). apply (block_locator_spec node2 (example_view node2) node3' H2); [reflexivity|apply H3| |reflexivity].
  apply one_identity_check. apply (bool_decide_unpack _). vm_compute. exact I.
Defined.

Lemma set_tip_branch_witness : exists c' roots', setTip (Some node2) false (example_view node3') ∅ = Ok (c', roots') /\ view_of node2 c'.
Proof.
  destruct (setTip (Some node2) false (example_view node3') ∅) as [[c' roots']| |] eqn:E.
  - exists c', roots'. split; [reflexivity|]. apply (set_tip_branch (Some node3') node2 false (example_view node3') ∅ c' roots'); [reflexivity| |apply example_sized|exact E].
    intros t [= <-]. split; [apply example_sized|]. apply one_identity_check. apply (bool_decide_unpack _). vm_compute. exact I.
  - vm_compute in E. discriminate E.
  - vm_compute in E. discriminate E.
Defined.

Lemma example_tree1 : exists t, tree_of (branch_values node1) t.
Proof.
  destruct NewTree_empty as (t0 & _ & H0).
  destruct (append_tree [] (node_value node0) t0 H0) as (t1 & _ & H1); [set_solver|done|].
  destruct (append_tree _ (node_value node1) t1 H1) as (t2 & _ & H2); [apply (bool_decide_unpack _); vm_compute; exact I|done|].
  by exists t2.
Qed.

Lemma set_tip_extends_witness : exists c c' roots', view_of node1 c /\ SetTip (Some node2) c ∅ = Ok (c', roots') /\ view_of node2 c' /\
  tree_of (branch_values node2) (tc_tree (view_mmr c')) /\ ActualMMRRoot roots' node2 = root_of (branch_values node2) /\
  view_HashByMMR (root_of (branch_values node2)) c' = Some (GetHash node2).
Proof.
  destruct example_tree1 as [t Ht]. set (c := {| view_nodes := map Some (path node1); view_mmr := {| tc_tree := t; RootToBlock := ∅ |} |}).
  destruct (set_tip_extends node1 node2_info c ∅) as (c' & roots' & H1 & H2 & H3 & H4 & H5).
  - apply example_sized.
  - apply one_identity_check. apply (bool_decide_unpack _). vm_compute. exact I.
  - reflexivity.
  - exact Ht.
  - reflexivity.
  - reflexivity.
  - apply (bool_decide_unpack _). vm_compute. exact I.
  - exists c, c', roots'. split_and!; [reflexivity|exact H1|exact H2|exact H3|exact H4|exact H5].
Defined.
