(* ===== verification/Threshold.v ===== *)
(** Model of node/blockchain/thresholdstate.go and of the deployment checker of versionbits.go:
    the states a rule change goes through, window by window, with a cache of the states.

    A call may fail or succeed after it has written to the cache, so the cache is returned next
    to the outcome. *)

From stdpp Require Import gmap sorting.
From S2P Require Import Prelude Big WireEncoding WireTx Chainhash WireHeader Pow BlockNodes.

Inductive ThresholdState :=
| ThresholdDefined | ThresholdStarted | ThresholdLockedIn | ThresholdActive | ThresholdFailed.

#[export] Instance ThresholdState_eq_dec : EqDecision ThresholdState.
Proof. solve_decision. Defined.

(** The interface of the checkers. *)
Record thresholdConditionChecker := {
  BeginTime : Z; EndTime : Z; RuleChangeActivationThreshold : Z; MinerConfirmationWindow : Z;
  Condition : IBlockNode -> outcome bool
}.

Abbreviation thresholdStateCache := (gmap bytes ThresholdState).

Definition cache_Lookup (hash : bytes) (c : thresholdStateCache) : option ThresholdState := c !! hash.
Definition cache_Update (hash : bytes) (state : ThresholdState) (c : thresholdStateCache) : thresholdStateCache :=
  <[hash := state]> c.
Definition newThresholdCaches (numCaches : Z) : list thresholdStateCache := replicate (Z.to_nat numCaches) ∅.

Section state.
Context (isBeacon : bool) (checker : thresholdConditionChecker).

Definition confirmationWindow : Z := swrap 32 (MinerConfirmationWindow checker).

Definition median_unix (node : IBlockNode) : outcome Z :=
  t ← CalcPastMedianTime isBeacon node; Ok (uwrap 64 t).

(** The walk back over the windows whose state is not known: the cache, the node it ends at and
    the nodes that need a state, the last block first. *)
Fixpoint needed_states (fuel : nat) (prevNode : option IBlockNode) (cache : thresholdStateCache)
    : outcome (thresholdStateCache * option IBlockNode * list IBlockNode) :=
  match prevNode with
  | None => Ok (cache, None, [])
  | Some node =>
      match fuel with
      | O => Panic
      | S fuel =>
          match cache_Lookup (GetHash node) cache with
          | Some _ => Ok (cache, Some node, [])
          | None =>
              t ← median_unix node;
              if t <? BeginTime checker then Ok (cache_Update (GetHash node) ThresholdDefined cache, Some node, [])
              else
              '(cache, last, needed) ← needed_states fuel (RelativeAncestor confirmationWindow node) cache;
              Ok (cache, last, node :: needed)
          end
      end
  end.

(** The votes among [n] nodes. *)
Fixpoint count_votes (n : nat) (countNode : option IBlockNode) (count : Z) : outcome Z :=
  match n with
  | O => Ok count
  | S n =>
      match countNode with
      | None => Panic
      | Some node =>
          condition ← Condition checker node;
          count_votes n (Parent node) (if (condition : bool) then uwrap 32 (count + 1) else count)
      end
  end.

Definition next_state (prevNode : IBlockNode) (state : ThresholdState) : outcome ThresholdState :=
  match state with
  | ThresholdDefined =>
      t ← median_unix prevNode;
      if EndTime checker <=? t then Ok ThresholdFailed
      else if BeginTime checker <=? t then Ok ThresholdStarted
      else Ok ThresholdDefined
  | ThresholdStarted =>
      t ← median_unix prevNode;
      if EndTime checker <=? t then Ok ThresholdFailed
      else
      count ← count_votes (Z.to_nat confirmationWindow) (Some prevNode) 0;
      if RuleChangeActivationThreshold checker <=? count then Ok ThresholdLockedIn else Ok ThresholdStarted
  | ThresholdLockedIn => Ok ThresholdActive
  | ThresholdActive => Ok ThresholdActive
  | ThresholdFailed => Ok ThresholdFailed
  end.

(** The states of the windows that need one, the oldest first. *)
Fixpoint update_states (needed : list IBlockNode) (state : ThresholdState) (cache : thresholdStateCache)
    : thresholdStateCache * outcome ThresholdState :=
  match needed with
  | [] => (cache, Ok state)
  | node :: needed =>
      match next_state node state with
      | Ok state => update_states needed state (cache_Update (GetHash node) state cache)
      | Err e => (cache, Err e)
      | Panic => (cache, Panic)
      end
  end.

(** The state for the block after a node. *)
Definition thresholdState (prevNode : option IBlockNode) (cache : thresholdStateCache)
    : thresholdStateCache * outcome ThresholdState :=
  match prevNode with
  | None => (cache, Ok ThresholdDefined)
  | Some node =>
      let next := swrap 32 (Height node + 1) in
      if next <? confirmationWindow then (cache, Ok ThresholdDefined)
      else if confirmationWindow =? 0 then (cache, Panic)
      else
      let prevNode := Ancestor (swrap 32 (Height node - Z.rem next confirmationWindow)) node in
      match needed_states (Z.to_nat (Height node) + 1) prevNode cache with
      | Ok (cache, last, needed) =>
          match last with
          | Some node =>
              match cache_Lookup (GetHash node) cache with
              | Some state => update_states (rev needed) state cache
              | None => (cache, Err AssertError)
              end
          | None => update_states (rev needed) ThresholdDefined cache
          end
      | Err e => (cache, Err e)
      | Panic => (cache, Panic)
      end
  end.
End state.

(** * versionbits.go *)

Definition vbTopBits : Z := 0x20000000.
Definition vbTopMask : Z := 0xe0000000.
Definition vbNumBits : Z := 29.

(** types/chaincfg *)
Record ConsensusDeployment := { BitNumber : Z; StartTime : Z; ExpireTime : Z }.
Definition DeploymentCSV : Z := 0.
Definition DeploymentSegwit : Z := 1.
Definition DefinedDeployments : Z := 2.

Definition deployment_condition (deployment : ConsensusDeployment) (node : IBlockNode) : outcome bool :=
  let conditionMask := uwrap 32 (Z.shiftl 1 (BitNumber deployment)) in
  let version := uwrap 32 (node_Version node) in
  Ok ((Z.land version vbTopMask =? vbTopBits) && negb (Z.land version conditionMask =? 0)).

Definition deploymentChecker (deployment : ConsensusDeployment) (threshold window : Z) : thresholdConditionChecker :=
  {| BeginTime := StartTime deployment; EndTime := ExpireTime deployment; RuleChangeActivationThreshold := threshold;
     MinerConfirmationWindow := window; Condition := deployment_condition deployment |}.

(** The deployments of the parameters are an array of [DefinedDeployments]. *)
Definition deploymentState (isBeacon : bool) (deployments : list ConsensusDeployment) (threshold window : Z)
    (prevNode : option IBlockNode) (deploymentID : Z) (caches : list thresholdStateCache)
    : list thresholdStateCache * outcome ThresholdState :=
  if (deploymentID =? DeploymentCSV) || (deploymentID =? DeploymentSegwit) then (caches, Ok ThresholdActive)
  else if len deployments <? deploymentID then (caches, Err (errorString "deployment ID does not exist"))
  else
  match deployments !! Z.to_nat deploymentID, caches !! Z.to_nat deploymentID with
  | Some deployment, Some cache =>
      let '(cache, r) := thresholdState isBeacon (deploymentChecker deployment threshold window) prevNode cache in
      (<[Z.to_nat deploymentID := cache]> caches, r)
  | _, _ => (caches, Panic)
  end.

Definition IsDeploymentActive (isBeacon : bool) (deployments : list ConsensusDeployment) (threshold window : Z)
    (tip : option IBlockNode) (deploymentID : Z) (caches : list thresholdStateCache) : list thresholdStateCache * outcome bool :=
  let '(caches, r) := deploymentState isBeacon deployments threshold window tip deploymentID caches in
  (caches, state ← r; Ok (bool_decide (state = ThresholdActive))).
