(* ===== verification/ThresholdFacts.v ===== *)
(** The cached computation of threshold states is the recursive definition of them, the states
    only move forward, and every rule change is decided. *)

From stdpp Require Import gmap sorting.
From S2P Require Import Prelude Big WireEncoding WireTx Chainhash WireHeader Pow BlockNodes Threshold.

Section facts.
Context (isBeacon : bool) (checker : thresholdConditionChecker).
Local Abbreviation w := (confirmationWindow checker).
Local Abbreviation median := (median_unix isBeacon).
Local Abbreviation next_state := (next_state isBeacon checker).

(** * The definition without a cache *)

(** The state after the window that a node is the last block of. *)
Fixpoint reference (fuel : nat) (node : option IBlockNode) : outcome ThresholdState :=
  match node with
  | None => Ok ThresholdDefined
  | Some node =>
      match fuel with
      | O => Panic
      | S fuel =>
          t ← median node;
          if t <? BeginTime checker then Ok ThresholdDefined
          else
          state ← reference fuel (RelativeAncestor w node);
          next_state node state
      end
  end.

Definition state_after (node : IBlockNode) : outcome ThresholdState := reference (Z.to_nat (Height node) + 1) (Some node).

(** The last block of a window. *)
Definition window_end (node : IBlockNode) : Prop := (Height node + 1) mod w = 0.

(** A set of nodes closed under parents, each with a hash of its own, on which the condition of
    the checker is defined. *)
Record block_tree (U : IBlockNode -> Prop) : Prop := {
  tree_parent : forall n p, U n -> Parent n = Some p -> U p;
  tree_linked : forall n, U n -> sized n;
  tree_hash : forall a b, U a -> U b -> GetHash a = GetHash b -> a = b;
  tree_condition : forall n, U n -> exists b, Condition checker n = Ok b
}.

Context (U : IBlockNode -> Prop) (HU : block_tree U) (Hw : 0 < w).

Lemma median_ok node : exists t, median node = Ok t.
Proof.
  unfold median_unix, CalcPastMedianTime. destruct (median_time_spec (medianTimeBlocks isBeacon) node) as (t & -> & _); [by destruct isBeacon|].
  by eexists.
Qed.

Lemma U_path n a : U n -> a ∈ path n -> U a.
Proof.
  intros Hn. induction n as [i|i p IH]; cbn [path].
  - intros Ha. by apply list_elem_of_singleton in Ha as ->.
  - intros Ha. apply elem_of_app in Ha as [Ha|Ha]; [|by apply list_elem_of_singleton in Ha as ->].
    apply IH; [|done]. by eapply tree_parent.
Qed.

Lemma ancestor_in n h a : U n -> 0 <= h -> Ancestor h n = Some a -> U a /\ Height a = h.
Proof.
  intros Hn H0 Ha. pose proof (tree_linked U HU n Hn) as [Hl _]. rewrite Ancestor_path in Ha by done.
  destruct (path_heights _ _ _ Hl Ha) as (Hz & _). split; [|lia]. eapply U_path; [exact Hn|]. by eapply list_elem_of_lookup_2.
Qed.

(** The window before. *)
Lemma previous_window n : U n -> window_end n ->
  w <= Height n + 1 /\
  match RelativeAncestor w n with
  | None => Height n + 1 = w
  | Some a => U a /\ window_end a /\ Height a = Height n - w
  end.
Proof.
  intros Hn He. pose proof (tree_linked U HU n Hn) as [Hl Hs]. pose proof (Height_nonneg _ Hl) as H0.
  apply Z.mod_divide in He as Hd; [|lia]. destruct Hd as [k Hk]. assert (1 <= k) by nia. split; [nia|].
  unfold RelativeAncestor. rewrite swrap_id by (unfold is_int; nia). destruct (decide (k = 1)) as [->|Hk1].
  - unfold Ancestor. rewrite (proj2 (Z.ltb_lt (Height n - w) 0)) by lia. cbn [orb]. lia.
  - destruct (Ancestor_some n (Height n - w) Hl ltac:(nia)) as (a & Ea & Ha & _). rewrite Ea.
    destruct (ancestor_in n (Height n - w) a Hn ltac:(nia) Ea) as [HUa _]. split_and!; [done| |done]. unfold window_end. rewrite Ha.
    replace (Height n - w + 1) with ((k - 1) * w) by lia. apply Z.mod_mul. lia.
Qed.

Lemma count_votes_ok n : forall node c, U node -> Z.of_nat n <= Height node + 1 -> exists r, count_votes checker n (Some node) c = Ok r.
Proof.
  induction n as [|n IH]; intros node c Hn Hh; [by eexists|]. cbn [count_votes].
  destruct (tree_condition U HU node Hn) as [b ->]. cbn [mbind outcome_bind]. pose proof (tree_linked U HU node Hn) as [Hl _].
  destruct n as [|n]; [by eexists|]. destruct node as [i|i p]; [cbn [linked] in Hl; lia|]. cbn [Parent].
  apply IH; [by eapply tree_parent|]. destruct Hl as [E _]. lia.
Qed.

Lemma next_state_ok n s : U n -> window_end n -> exists s', next_state n s = Ok s'.
Proof.
  intros Hn He. destruct (previous_window n Hn He) as [Hle _]. unfold Threshold.next_state. destruct (median_ok n) as [t Et]. rewrite Et.
  destruct s; cbn [mbind outcome_bind]; try by eexists.
  - destruct (EndTime checker <=? t); [by eexists|]. destruct (BeginTime checker <=? t); by eexists.
  - destruct (EndTime checker <=? t); [by eexists|].
    destruct (count_votes_ok (Z.to_nat w) n 0 Hn ltac:(lia)) as [r ->]. cbn [mbind outcome_bind]. destruct (_ <=? r); by eexists.
Qed.

(** The recursion ends, and more fuel does not change the state. *)
Lemma reference_ok fuel : forall node, U node -> window_end node -> Height node < Z.of_nat fuel ->
  exists s, reference fuel (Some node) = Ok s /\ forall fuel', Height node < Z.of_nat fuel' -> reference fuel' (Some node) = Ok s.
Proof.
  induction fuel as [|fuel IH]; intros node Hn He Hf.
  { pose proof (tree_linked U HU node Hn) as [Hl _]. apply Height_nonneg in Hl. lia. }
  cbn [reference]. destruct (median_ok node) as [t Et]. rewrite Et. cbn [mbind outcome_bind].
  pose proof (tree_linked U HU node Hn) as [Hl _]. apply Height_nonneg in Hl.
  destruct (t <? BeginTime checker) eqn:Eb.
  - exists ThresholdDefined. split; [done|]. intros [|fuel'] Hf'; [lia|]. cbn [reference]. rewrite Et. cbn [mbind outcome_bind]. by rewrite Eb.
  - destruct (previous_window node Hn He) as [_ Hp]. destruct (RelativeAncestor w node) as [a|] eqn:Ea.
    + destruct Hp as (HUa & Hea & Ha). destruct (IH a HUa Hea ltac:(lia)) as (s & -> & Hs). cbn [mbind outcome_bind].
      destruct (next_state_ok node s Hn He) as [s' Es']. rewrite Es'. exists s'. split; [done|].
      intros [|fuel'] Hf'; [lia|]. cbn [reference]. rewrite Et. cbn [mbind outcome_bind]. rewrite Eb, Ea, Hs by lia. exact Es'.
    + assert (Ed : forall f, reference f None = Ok ThresholdDefined) by (by intros []). rewrite Ed. cbn [mbind outcome_bind].
      destruct (next_state_ok node ThresholdDefined Hn He) as [s' Es']. rewrite Es'. exists s'. split; [done|].
      intros [|fuel'] Hf'; [lia|]. cbn [reference]. rewrite Et. cbn [mbind outcome_bind]. rewrite Eb, Ea, Ed. exact Es'.
Qed.

Lemma state_after_ok node : U node -> window_end node -> exists s, state_after node = Ok s /\
  forall fuel, Height node < Z.of_nat fuel -> reference fuel (Some node) = Ok s.
Proof. intros Hn He. apply reference_ok; [done..|]. pose proof (tree_linked U HU node Hn) as [Hl _]. apply Height_nonneg in Hl. lia. Qed.

(** * The cache *)

(** What the cache holds of the ends of windows is their state. *)
Definition cache_ok (cache : thresholdStateCache) : Prop :=
  forall n s, U n -> window_end n -> cache !! GetHash n = Some s -> state_after n = Ok s.

Lemma cache_ok_update cache n s : cache_ok cache -> U n -> state_after n = Ok s -> cache_ok (cache_Update (GetHash n) s cache).
Proof.
  intros Hc Hn Hs m s' Hm He. unfold cache_Update. rewrite lookup_insert_Some. intros [[Hh <-]|[_ Hl]]; [|by apply Hc].
  by rewrite <-(tree_hash U HU n m Hn Hm Hh).
Qed.

Lemma update_states_app xs ys s c :
  update_states isBeacon checker (xs ++ ys) s c =
    match update_states isBeacon checker xs s c with (c, Ok s) => update_states isBeacon checker ys s c | r => r end.
Proof.
  revert s c. induction xs as [|x xs IH]; intros s c; [done|]. cbn [app update_states]. destruct (next_state x s); [apply IH|done..].
Qed.

Definition optional_end (node : option IBlockNode) : Prop := match node with Some n => U n /\ window_end n | None => True end.
Definition optional_state (node : option IBlockNode) : outcome ThresholdState :=
  match node with Some n => state_after n | None => Ok ThresholdDefined end.

Lemma needed_states_spec fuel : forall node cache, optional_end node -> (forall n, node = Some n -> Height n < Z.of_nat fuel) -> cache_ok cache ->
  exists cache' last needed s0 cache'' s, needed_states isBeacon checker fuel node cache = Ok (cache', last, needed) /\
    match last with Some m => cache' !! GetHash m = Some s0 | None => s0 = ThresholdDefined end /\
    update_states isBeacon checker (rev needed) s0 cache' = (cache'', Ok s) /\ cache_ok cache'' /\ optional_state node = Ok s.
Proof.
  induction fuel as [|fuel IH]; intros node cache Hn Hf Hc; (destruct node as [node|]; [|exists cache, None, [], ThresholdDefined, cache, ThresholdDefined; by split_and!]).
  { destruct Hn as [Hn _]. pose proof (tree_linked U HU node Hn) as [Hl _]. apply Height_nonneg in Hl. specialize (Hf node eq_refl). lia. }
  destruct Hn as [Hn He]. specialize (Hf node eq_refl). cbn [needed_states]. unfold cache_Lookup.
  destruct (cache !! GetHash node) as [s|] eqn:Ec.
  { exists cache, (Some node), [], s, cache, s. split_and!; try done. by apply Hc. }
  destruct (state_after_ok node Hn He) as (s & Hs & Hsf). pose proof (Hsf (S fuel) ltac:(lia)) as Hr. cbn [reference] in Hr.
  destruct (median_ok node) as [t Et]. rewrite Et in Hr |- *. cbn [mbind outcome_bind] in Hr |- *. destruct (t <? BeginTime checker) eqn:Eb.
  { injection Hr as <-. eexists _, _, _, ThresholdDefined, _, ThresholdDefined. split_and!; try done; [by apply lookup_insert_eq|]. by apply cache_ok_update. }
  destruct (previous_window node Hn He) as [_ Hp].
  destruct (IH (RelativeAncestor w node) cache) as (c1 & last & needed & s0 & c2 & s1 & E1 & Hl & E2 & Hc2 & Hs1).
  - destruct (RelativeAncestor w node); [by destruct Hp as (? & ? & _)|done].
  - intros a Ea. rewrite Ea in Hp. destruct Hp as (_ & _ & Ha). lia.
  - done.
  - rewrite E1. cbn [mbind outcome_bind]. exists c1, last, (node :: needed), s0, (cache_Update (GetHash node) s c2), s.
    assert (Hns : next_state node s1 = Ok s).
    { destruct (RelativeAncestor w node) as [a|]; cbn [optional_state] in Hs1.
      - destruct Hp as (HUa & Hea & Ha). destruct (state_after_ok a HUa Hea) as (s2 & Hs2 & Hf2). rewrite (Hf2 fuel) in Hr by lia.
        rewrite Hs2 in Hs1. injection Hs1 as ->. exact Hr.
      - injection Hs1 as <-. destruct fuel; exact Hr. }
    split_and!; [done|done| |by apply cache_ok_update|done].
    cbn [rev]. rewrite update_states_app, E2. cbn [update_states]. by rewrite Hns.
Qed.

(** The end of the last whole window, for the block after a node. *)
Definition last_window_end (node : IBlockNode) : option IBlockNode := Ancestor (Height node - (Height node + 1) mod w) node.

Lemma last_window_end_spec node : U node -> w <= Height node + 1 ->
  exists e, last_window_end node = Some e /\ U e /\ window_end e /\ Height node - w < Height e <= Height node.
Proof.
  intros Hn Hle. pose proof (tree_linked U HU node Hn) as [Hl _]. pose proof (Height_nonneg _ Hl).
  pose proof (Z.mod_pos_bound (Height node + 1) w Hw) as Hm. pose proof (Z.div_mod (Height node + 1) w ltac:(lia)) as Hd.
  unfold last_window_end. destruct (Ancestor_some node (Height node - (Height node + 1) mod w) Hl) as (e & Ee & He & _); [lia|].
  exists e. split; [done|]. destruct (ancestor_in node (Height node - (Height node + 1) mod w) e Hn ltac:(lia) Ee) as [HUe _]. split_and!; [done| |lia|lia].
  unfold window_end. rewrite He. replace (Height node - (Height node + 1) mod w + 1) with ((Height node + 1) / w * w) by lia.
  apply Z.mod_mul. lia.
Qed.

(** The state for the block after a node, without a cache. *)
Definition reference_state (node : IBlockNode) : outcome ThresholdState :=
  if Height node + 1 <? w then Ok ThresholdDefined else optional_state (last_window_end node).

(** C22: The state is that of the recursive definition whatever the cache holds, as long as what it
    holds is right, and then it stays right: the cache cannot be observed. *)
Theorem threshold_cache_transparent node cache : U node -> cache_ok cache ->
  exists cache' s, thresholdState isBeacon checker (Some node) cache = (cache', Ok s) /\ reference_state node = Ok s /\ cache_ok cache'.
Proof.
  intros Hn Hc. pose proof (tree_linked U HU node Hn) as [Hl Hs]. pose proof (Height_nonneg _ Hl) as H0.
  unfold thresholdState, reference_state. rewrite (swrap_id 32 (Height node + 1)) by (unfold is_int; lia).
  destruct (Z.ltb_spec (Height node + 1) w) as [Hlt|Hge]; [by exists cache, ThresholdDefined|].
  rewrite (proj2 (Z.eqb_neq w 0)) by lia. rewrite Z.rem_mod_nonneg by lia.
  pose proof (Z.mod_pos_bound (Height node + 1) w Hw). rewrite swrap_id by (unfold is_int; lia).
  destruct (last_window_end_spec node Hn Hge) as (e & Ee & HUe & He & Hh). fold (last_window_end node). rewrite Ee.
  destruct (needed_states_spec (Z.to_nat (Height node) + 1) (Some e) cache) as (c1 & last & needed & s0 & c2 & s & E1 & Hl1 & E2 & Hc2 & Hs1).
  - by split.
  - intros n [= <-]. lia.
  - done.
  - rewrite E1. exists c2, s. split_and!; [|done|done]. destruct last as [m|]; [|by subst s0]. unfold cache_Lookup. by rewrite Hl1.
Qed.

(** * How states move *)

Inductive threshold_step : ThresholdState -> ThresholdState -> Prop :=
| step_stay s : s <> ThresholdLockedIn -> threshold_step s s
| step_start : threshold_step ThresholdDefined ThresholdStarted
| step_expire s : s = ThresholdDefined \/ s = ThresholdStarted -> threshold_step s ThresholdFailed
| step_lock : threshold_step ThresholdStarted ThresholdLockedIn
| step_activate : threshold_step ThresholdLockedIn ThresholdActive.

(** What the rules for headers guarantee of times. *)
Definition times_follow (T : IBlockNode -> Prop) : Prop :=
  (forall n, T n -> 0 <= Timestamp n < 2 ^ 63) /\
  (forall i p m, T (child_node i p) -> CalcPastMedianTime isBeacon p = Ok m -> m < Timestamp (child_node i p)).

Context (HT : times_follow U).

Lemma median_range node : U node -> exists t, median node = Ok t /\ CalcPastMedianTime isBeacon node = Ok t /\ 0 <= t < 2 ^ 63.
Proof.
  intros Hn. unfold median_unix, CalcPastMedianTime. destruct (median_time_spec (medianTimeBlocks isBeacon) node) as (t & -> & Hin & _); [by destruct isBeacon|].
  destruct (past_times_path _ _ _ Hin) as (a & Ha & <-). pose proof (proj1 HT a (U_path node a Hn Ha)) as Hr.
  exists (Timestamp a). cbn [mbind outcome_bind]. unfold uwrap. rewrite Z.mod_small by lia. split_and!; (done || lia).
Qed.

Lemma median_mono n a : U n -> a ∈ path n -> forall ta tn, median a = Ok ta -> median n = Ok tn -> ta <= tn.
Proof.
  induction n as [i|i p IH]; intros Hn Ha ta tn Ea En; cbn [path] in Ha.
  - apply list_elem_of_singleton in Ha as ->. assert (ta = tn) by congruence. lia.
  - apply elem_of_app in Ha as [Ha|Ha]; [|apply list_elem_of_singleton in Ha as ->; assert (ta = tn) by congruence; lia].
    assert (Hp : U p) by (by eapply tree_parent). destruct (median_range p Hp) as (tp & Etp & Ecp & Hr).
    destruct (median_range _ Hn) as (tn' & En' & Ecn & Hrn). pose proof (IH Hp Ha ta tp Ea Etp).
    destruct (median_time_monotone isBeacon i p tp Ecp (proj2 HT i p tp Hn Ecp)) as (m' & Em & Hle).
    assert (m' = tn) by congruence. lia.
Qed.

Lemma previous_on_path n a : U n -> RelativeAncestor w n = Some a -> window_end n -> a ∈ path n.
Proof.
  intros Hn Ha He. destruct (previous_window n Hn He) as [Hle Hp]. rewrite Ha in Hp. destruct Hp as (HUa & _ & Hh).
  pose proof (tree_linked U HU n Hn) as [Hl Hs]. unfold RelativeAncestor in Ha. rewrite swrap_id in Ha by (unfold is_int; lia).
  pose proof (tree_linked U HU a HUa) as [Hla _]. apply Height_nonneg in Hla. rewrite Ancestor_path in Ha by (done || lia). by eapply list_elem_of_lookup_2.
Qed.

Lemma state_after_unfold n : U n -> window_end n -> exists t, median n = Ok t /\
  state_after n = if t <? BeginTime checker then Ok ThresholdDefined
                  else s ← optional_state (RelativeAncestor w n); next_state n s.
Proof.
  intros Hn He. destruct (median_ok n) as [t Et]. exists t. split; [done|]. destruct (state_after_ok n Hn He) as (s & Hs & Hf).
  pose proof (tree_linked U HU n Hn) as [Hl _]. apply Height_nonneg in Hl. rewrite Hs, <-(Hf (S (Z.to_nat (Height n) + 1))) by lia.
  cbn [reference]. rewrite Et. cbn [mbind outcome_bind]. destruct (t <? BeginTime checker); [done|].
  destruct (previous_window n Hn He) as [_ Hp]. destruct (RelativeAncestor w n) as [a|] eqn:Ea; [|by rewrite Nat.add_1_r].
  destruct Hp as (HUa & Hea & Ha). destruct (state_after_ok a HUa Hea) as (sa & Hsa & Hfa). cbn [optional_state]. rewrite Hsa, Hfa by lia. done.
Qed.

(** From one window to the next a rule change moves one step forward, or stays, or fails before
    it is locked in; what is active or failed stays so. *)
Theorem threshold_steps n a sa s : U n -> window_end n -> RelativeAncestor w n = Some a ->
  state_after a = Ok sa -> state_after n = Ok s -> threshold_step sa s.
Proof.
  intros Hn He Ha Hsa Hs. destruct (state_after_unfold n Hn He) as (t & Et & Eu). rewrite Hs, Ha in Eu. cbn [optional_state] in Eu. rewrite Hsa in Eu.
  destruct (previous_window n Hn He) as [_ Hp]. rewrite Ha in Hp. destruct Hp as (HUa & Hea & _).
  destruct (Z.ltb_spec t (BeginTime checker)) as [Hlt|Hge].
  - injection Eu as ->. destruct (state_after_unfold a HUa Hea) as (ta & Eta & Eua). pose proof (median_mono n a Hn (previous_on_path n a Hn Ha He) ta t Eta Et).
    rewrite (proj2 (Z.ltb_lt _ _)), Hsa in Eua by lia. injection Eua as ->. by constructor.
  - cbn [mbind outcome_bind] in Eu. unfold Threshold.next_state in Eu. rewrite Et in Eu. cbn [mbind outcome_bind] in Eu. destruct sa.
    + destruct (EndTime checker <=? t); [injection Eu as ->; by constructor; left|]. destruct (BeginTime checker <=? t); injection Eu as ->; by constructor.
    + destruct (EndTime checker <=? t); [injection Eu as ->; constructor; by right|].
      destruct (count_votes _ _ _ _) as [r| |]; cbn [mbind outcome_bind] in Eu; try done. destruct (_ <=? r); injection Eu as ->; by constructor.
    + injection Eu as ->. constructor.
    + injection Eu as ->. by constructor.
    + injection Eu as ->. by constructor.
Qed.

(** * Every rule change is decided *)

Definition decided (s : ThresholdState) : Prop := s = ThresholdActive \/ s = ThresholdFailed.

Lemma window_gap e n : U n -> window_end e -> window_end n -> e ∈ path n -> e <> n ->
  exists a, RelativeAncestor w n = Some a /\ U a /\ window_end a /\ Height a = Height n - w /\ e ∈ path a.
Proof.
  intros Hn He Hen Hin Hne. pose proof (tree_linked U HU n Hn) as [Hl Hs]. pose proof Hin as Hin'. apply list_elem_of_lookup in Hin' as [i Hi].
  destruct (path_heights _ _ _ Hl Hi) as (Hz & Hle & _). pose proof (path_self n Hl) as Hself. pose proof (path_length n Hl) as Hpl. pose proof (lookup_lt_Some _ _ _ Hi).
  assert (Hlt : Height e < Height n).
  { destruct (Z.lt_ge_cases (Height e) (Height n)) as [|Hge]; [done|]. exfalso. apply Hne. replace i with (Z.to_nat (Height n)) in Hi by lia. congruence. }
  destruct (previous_window n Hn Hen) as [Hw1 Hp]. apply Z.mod_divide in He as [ke Hke]; [|lia]. apply Z.mod_divide in Hen as [kn Hkn]; [|lia].
  assert (Hk : ke < kn) by (apply (Z.mul_lt_mono_pos_r w); lia).
  assert (Hgap : Height e <= Height n - w) by (assert (ke * w <= (kn - 1) * w) by (apply Z.mul_le_mono_nonneg_r; lia); lia).
  destruct (RelativeAncestor w n) as [a|] eqn:Ea; [|pose proof (Height_nonneg _ Hle); lia]. destruct Hp as (HUa & Hea & Ha).
  exists a. split_and!; try done. unfold RelativeAncestor in Ea. rewrite swrap_id in Ea by (unfold is_int; lia).
  pose proof (Height_nonneg _ Hle). rewrite Ancestor_path in Ea by (done || lia). destruct (path_heights _ _ _ Hl Ea) as (_ & _ & Hpa).
  rewrite Hpa. apply elem_of_take. exists i. split; [done|lia].
Qed.

(** C28: Once the median time of the last block of a window is past the end time, the rule change is
    active or failed after that window, and after every later window of the branch. *)
Theorem rule_change_decided e n t : U n -> window_end e -> window_end n -> e ∈ path n ->
  median e = Ok t -> BeginTime checker <= EndTime checker <= t ->
  exists s, decided s /\ state_after e = Ok s /\ state_after n = Ok s.
Proof.
  intros Hn He Hen Hin Et Ht. assert (HUe : U e) by (by eapply U_path).
  assert (Hse : exists s, decided s /\ state_after e = Ok s).
  { destruct (state_after_unfold e HUe He) as (t' & Et' & Eu). assert (t' = t) as -> by congruence. rewrite (proj2 (Z.ltb_ge t _)) in Eu by lia.
    destruct (state_after_ok e HUe He) as (s & Hs & _). exists s. split; [|done]. rewrite Hs in Eu.
    destruct (optional_state _) as [s0| |]; cbn [mbind outcome_bind] in Eu; try done. unfold Threshold.next_state in Eu. rewrite Et in Eu.
    destruct s0; cbn [mbind outcome_bind] in Eu; rewrite ?(proj2 (Z.leb_le (EndTime checker) t)) in Eu by lia; injection Eu as ->; unfold decided; tauto. }
  destruct Hse as (s & Hd & Hs). exists s. split_and!; [done|done|].
  remember (Z.to_nat (Height n)) as m eqn:Em. revert n Hn Hen Hin Em. induction m as [m IH] using lt_wf_ind. intros n Hn Hen Hin ->.
  destruct (decide (e = n)) as [->|Hne]; [done|]. destruct (window_gap e n Hn He Hen Hin Hne) as (a & Ea & HUa & Hea & Ha & Hina).
  pose proof (tree_linked U HU a HUa) as [Hla _]. apply Height_nonneg in Hla.
  assert (Hsa : state_after a = Ok s) by (apply (IH (Z.to_nat (Height a))); [lia|done..]).
  destruct (state_after_ok n Hn Hen) as (s' & Hs' & _). pose proof (threshold_steps n a s s' Hn Hen Ea Hsa Hs') as Hst.
  rewrite Hs'. f_equal. destruct Hd as [->| ->]; inversion Hst; subst; intuition congruence.
Qed.

(** ** Activation *)

Lemma count_all n : forall node c, U node -> Z.of_nat n <= Height node + 1 -> 0 <= c -> c + Z.of_nat n < 2 ^ 32 ->
  (forall x, x ∈ path node -> Height node - Z.of_nat n < Height x -> Condition checker x = Ok true) ->
  count_votes checker n (Some node) c = Ok (c + Z.of_nat n).
Proof.
  induction n as [|n IH]; intros node c Hn Hh Hc Hcn Hall; [cbn; f_equal; lia|]. cbn [count_votes].
  rewrite (Hall node) by (apply self_in_path || lia). cbn [mbind outcome_bind]. unfold uwrap. rewrite Z.mod_small by lia.
  pose proof (tree_linked U HU node Hn) as [Hl _]. destruct n as [|n]; [cbn; f_equal; lia|]. destruct node as [i|i p]; [cbn [linked] in Hl; lia|]. cbn [Parent].
  destruct Hl as [E Hlp]. rewrite IH; [f_equal; lia|by eapply tree_parent|lia|lia|lia|].
  intros x Hx Hxh. apply Hall; [cbn [path]; set_solver|lia].
Qed.

(** When every block of a window signals for a rule change whose vote has started, and it does not
    expire, the change is locked in after the window and active after the next. *)
Theorem signalling_activates a e n t : U n -> window_end e -> window_end n ->
  RelativeAncestor w n = Some e -> RelativeAncestor w e = Some a -> state_after a = Ok ThresholdStarted ->
  (forall x, x ∈ path e -> Height a < Height x -> Condition checker x = Ok true) ->
  RuleChangeActivationThreshold checker <= w -> median e = Ok t -> t < EndTime checker ->
  state_after e = Ok ThresholdLockedIn /\ state_after n = Ok ThresholdActive.
Proof.
  intros Hn He Hen Ene Eea Hsa Hall Hth Et Hlt. pose proof (previous_on_path n e Hn Ene Hen) as Hin. assert (HUe : U e) by (by eapply U_path).
  pose proof (previous_on_path e a HUe Eea He) as Hina. destruct (previous_window e HUe He) as [Hwe Hp]. rewrite Eea in Hp. destruct Hp as (HUa & Hea & Ha).
  assert (Hse : state_after e = Ok ThresholdLockedIn).
  { destruct (state_after_unfold e HUe He) as (t' & Et' & Eu). assert (t' = t) as -> by congruence.
    destruct (state_after_unfold a HUa Hea) as (ta & Eta & Eua). pose proof (median_mono e a HUe Hina ta t Eta Et).
    destruct (Z.ltb_spec ta (BeginTime checker)); [congruence|]. rewrite (proj2 (Z.ltb_ge t _)) in Eu by lia.
    rewrite Eu, Eea. cbn [optional_state]. rewrite Hsa. cbn [mbind outcome_bind]. unfold Threshold.next_state. rewrite Et. cbn [mbind outcome_bind].
    rewrite (proj2 (Z.leb_gt _ t)) by lia. pose proof (tree_linked U HU e HUe) as [Hle Hse].
    rewrite count_all; [|done|lia|lia|lia|intros x Hx Hxh; apply Hall; [done|lia]]. cbn [mbind outcome_bind].
    rewrite (proj2 (Z.leb_le _ _)) by lia. done. }
  split; [done|]. destruct (state_after_ok n Hn Hen) as (s & Hs & _). pose proof (threshold_steps n e _ s Hn Hen Ene Hse Hs) as Hst.
  rewrite Hs. f_equal. inversion Hst; subst; [done|intuition congruence|done].
Qed.
End facts.

(** The array of deployments has two entries, both of which are answered before it is read; the
    first identifier after them passes the check of the bounds and the read panics. *)
Theorem next_deployment_panics isBeacon deployments threshold window prevNode caches id : len deployments = DefinedDeployments -> 0 <= id ->
  deploymentState isBeacon deployments threshold window prevNode id caches =
    (caches, if id <=? DeploymentSegwit then Ok ThresholdActive
             else if id =? DefinedDeployments then Panic
             else Err (errorString "deployment ID does not exist")).
Proof.
  intros Hl Hid. unfold deploymentState. rewrite Hl. destruct (Z.leb_spec id DeploymentSegwit) as [Hle|Hgt]; unfold DeploymentSegwit, DeploymentCSV, DefinedDeployments in *.
  - assert (id = 0 \/ id = 1) as [->| ->] by lia; done.
  - rewrite (proj2 (Z.eqb_neq id 0)), (proj2 (Z.eqb_neq id 1)) by lia. cbn [orb]. destruct (Z.eqb_spec id 2) as [->|Hne].
    + cbn [Z.ltb Z.compare Pos.compare Pos.compare_cont]. rewrite lookup_ge_None_2; [done|]. unfold len in Hl. lia.
    + by rewrite (proj2 (Z.ltb_lt 2 id)) by lia.
Qed.

(** * Concrete chains *)

Lemma path_tree checker tip : sized tip -> NoDup (map GetHash (path tip)) -> (forall n, exists b, Condition checker n = Ok b) ->
  block_tree checker (fun n => n ∈ path tip).
Proof.
  intros [Hl Hs] Hd Hc. assert (Hat : forall n, n ∈ path tip -> linked n /\ Height n <= Height tip /\ forall x, x ∈ path n -> x ∈ path tip).
  { intros n Hn. apply list_elem_of_lookup in Hn as [i Hi]. destruct (path_heights _ _ _ Hl Hi) as (Hz & Hln & Hp). split_and!; [done| |].
    - pose proof (lookup_lt_Some _ _ _ Hi). pose proof (path_length _ Hl). lia.
    - intros x. rewrite Hp. intros Hx. apply elem_of_take in Hx as (j & Hj & _). by eapply list_elem_of_lookup_2. }
  split.
  - intros n p Hn Hp. apply (Hat n Hn). destruct n as [i|i q]; [done|]. injection Hp as ->. cbn [path]. apply elem_of_app. left. apply self_in_path.
  - intros n Hn. destruct (Hat n Hn) as (Hln & Hle & _). split; [done|lia].
  - intros a b Ha Hb Hh. apply list_elem_of_lookup in Ha as [i Hi], Hb as [j Hj].
    assert (Ei : map GetHash (path tip) !! i = Some (GetHash a)) by (rewrite list_lookup_fmap, Hi; done).
    assert (Ej : map GetHash (path tip) !! j = Some (GetHash b)) by (rewrite list_lookup_fmap, Hj; done).
    rewrite Hh in Ei. pose proof (NoDup_lookup _ _ _ _ Hd Ei Ej). congruence.
  - intros n _. apply Hc.
Qed.

(** The rules for the times of a branch, checked. *)
Definition times_check (isBeacon : bool) (n : IBlockNode) : bool :=
  (0 <=? Timestamp n) && (Timestamp n <? 2 ^ 63) &&
  match n with
  | first_node _ => true
  | child_node _ p => match CalcPastMedianTime isBeacon p with Ok m => m <? Timestamp n | _ => false end
  end.

Lemma path_times isBeacon tip : forallb (times_check isBeacon) (path tip) = true -> times_follow isBeacon (fun n => n ∈ path tip).
Proof.
  intros Hf. rewrite forallb_forall in Hf. split.
  - intros n Hn. apply list_elem_of_In, Hf in Hn. unfold times_check in Hn. apply andb_prop in Hn as [Hn _]. apply andb_prop in Hn as [H1 H2]. lia.
  - intros i p m Hn Em. apply list_elem_of_In, Hf in Hn. unfold times_check in Hn. apply andb_prop in Hn as [_ Hn]. rewrite Em in Hn. lia.
Qed.

Definition chain_of_8 : IBlockNode := tip_of [80; 70; 60; 50; 40; 30; 20; 10].
Definition block_at (h : nat) : IBlockNode := default chain_of_8 (path chain_of_8 !! h).

Definition example_checker (end_time : Z) (vote : bool) : thresholdConditionChecker :=
  {| BeginTime := 15; EndTime := end_time; RuleChangeActivationThreshold := 2; MinerConfirmationWindow := 2; Condition := fun _ => Ok vote |}.

Lemma example_block_tree e v : block_tree (example_checker e v) (fun n => n ∈ path chain_of_8).
Proof.
  apply path_tree; [split; [vm_compute; tauto|vm_compute; reflexivity]| |by eexists]. apply (bool_decide_unpack _). vm_compute. exact I.
Qed.

Lemma example_times : times_follow true (fun n => n ∈ path chain_of_8).
Proof. apply path_times. vm_compute. reflexivity. Qed.

Lemma block_at_in h : block_at h ∈ path chain_of_8.
Proof.
  unfold block_at. destruct (path chain_of_8 !! h) eqn:E; cbn [default from_option]; [by eapply list_elem_of_lookup_2|apply self_in_path].
Qed.

Lemma threshold_cache_transparent_witness :
  exists cache' s, thresholdState true (example_checker 100 true) (Some (block_at 6)) ∅ = (cache', Ok s) /\
    reference_state true (example_checker 100 true) (block_at 6) = Ok s /\ cache_ok true (example_checker 100 true) (fun n => n ∈ path chain_of_8) cache'.
Proof.
  apply (threshold_cache_transparent true (example_checker 100 true) (fun n => n ∈ path chain_of_8) (example_block_tree 100 true)).
  - reflexivity.
  - apply block_at_in.
  - intros n s _ _ Hl. discriminate Hl.
Defined.

Lemma threshold_steps_witness : threshold_step ThresholdStarted ThresholdLockedIn.
Proof.
  apply (threshold_steps true (example_checker 100 true) (fun n => n ∈ path chain_of_8) (example_block_tree 100 true) eq_refl example_times (block_at 3) (block_at 1)).
  - apply block_at_in.
  - vm_compute. reflexivity.
  - vm_compute. reflexivity.
  - vm_compute. reflexivity.
  - vm_compute. reflexivity.
Defined.

Lemma rule_change_decided_witness :
  exists s, decided s /\ state_after true (example_checker 30 false) (block_at 3) = Ok s /\ state_after true (example_checker 30 false) (block_at 7) = Ok s.
Proof.
  apply (rule_change_decided true (example_checker 30 false) (fun n => n ∈ path chain_of_8) (example_block_tree 30 false) eq_refl example_times (block_at 3) (block_at 7) 30).
  - apply block_at_in.
  - vm_compute. reflexivity.
  - vm_compute. reflexivity.
  - apply (bool_decide_unpack _). vm_compute. exact I.
  - vm_compute. reflexivity.
  - vm_compute. split; discriminate.
Defined.

Lemma signalling_activates_witness :
  state_after true (example_checker 100 true) (block_at 3) = Ok ThresholdLockedIn /\ state_after true (example_checker 100 true) (block_at 5) = Ok ThresholdActive.
Proof.
  apply (signalling_activates true (example_checker 100 true) (fun n => n ∈ path chain_of_8) (example_block_tree 100 true) eq_refl example_times (block_at 1) (block_at 3) (block_at 5) 30).
  - apply block_at_in.
  - vm_compute. reflexivity.
  - vm_compute. reflexivity.
  - vm_compute. reflexivity.
  - vm_compute. reflexivity.
  - vm_compute. reflexivity.
  - intros x _ _. reflexivity.
  - vm_compute. discriminate.
  - vm_compute. reflexivity.
  - vm_compute. reflexivity.
Defined.

Lemma next_deployment_panics_witness :
  deploymentState true (replicate 2 {| BitNumber := 0; StartTime := 0; ExpireTime := 0 |}) 2 2 None 2 (newThresholdCaches 2) =
    (newThresholdCaches 2, Panic).
Proof. apply (next_deployment_panics true _ 2 2 None (newThresholdCaches 2) 2); [reflexivity|discriminate]. Defined.
