(* ===== verification/Difficulty.v ===== *)
(** Model of node/blockchain/difficulty.go: the difficulty the next block must have, and the
    easiest one a block may claim some time after a checkpoint.

    Durations are in nanoseconds, as in package time; the targets are unbounded. *)

From stdpp Require Import gmap sorting.
From S2P Require Import Prelude Big WireEncoding WireTx Chainhash WireHeader Pow BlockNodes.

(** types/chaincfg: [PowParams] *)
Record PowParams := {
  pp_PowLimit : Z; PowLimitBits : Z; TargetTimespan : Z; RetargetAdjustmentFactor : Z;
  ReduceMinDifficulty : bool; MinDiffReductionTime : Z
}.

Record retargetOpts := { minRetargetTimespan : Z; maxRetargetTimespan : Z; blocksPerRetarget : Z }.

Definition time_Second : Z := 1000000000.

(** chain.go: the options [New] computes. *)
Definition newRetargetOpts (pp : PowParams) (blocks : Z) : retargetOpts :=
  let targetTimespan := Z.quot (TargetTimespan pp) time_Second in
  {| minRetargetTimespan := Z.quot targetTimespan (RetargetAdjustmentFactor pp);
     maxRetargetTimespan := targetTimespan * RetargetAdjustmentFactor pp;
     blocksPerRetarget := swrap 32 blocks |}.

(** The loop of [calcEasiestDifficulty]; more turns than there are seconds are not needed as
    long as a retarget takes some time. *)
Fixpoint easiest_loop (fuel : nat) (powLimit factor maxTimespan newTarget durationVal : Z) : outcome Z :=
  if (0 <? durationVal) && (newTarget <? powLimit) then
    match fuel with
    | O => Panic
    | S fuel => easiest_loop fuel powLimit factor maxTimespan (newTarget * factor) (durationVal - maxTimespan)
    end
  else Ok newTarget.

Definition calcEasiestDifficulty (pp : PowParams) (opts : retargetOpts) (bits duration : Z) : outcome Z :=
  let durationVal := Z.quot duration time_Second in
  let reductionTime := Z.quot (MinDiffReductionTime pp) time_Second in
  if ReduceMinDifficulty pp && (reductionTime <? durationVal) then Ok (PowLimitBits pp)
  else
  newTarget ← easiest_loop (Z.to_nat durationVal) (pp_PowLimit pp) (RetargetAdjustmentFactor pp) (maxRetargetTimespan opts)
                (CompactToBig bits) durationVal;
  Ok (BigToCompact (if pp_PowLimit pp <? newTarget then pp_PowLimit pp else newTarget)).

(** The walk to the last block without the special rule. *)
Fixpoint skip_minimum (node : IBlockNode) (blocks powLimitBits : Z) : option IBlockNode :=
  if negb (Z.rem (Height node) blocks =? 0) && (node_Bits node =? powLimitBits) then
    match node with first_node _ => None | child_node _ parent => skip_minimum parent blocks powLimitBits end
  else Some node.

Definition findPrevTestNetDifficulty (startNode : option IBlockNode) (blocks powLimitBits : Z) : Z :=
  match startNode with
  | None => powLimitBits
  | Some node => match skip_minimum node blocks powLimitBits with Some n => node_Bits n | None => powLimitBits end
  end.

Definition calcNextRequiredDifficulty (pp : PowParams) (opts : retargetOpts) (lastNode : option IBlockNode) (newBlockTime : Z) : outcome Z :=
  match lastNode with
  | None => Ok (PowLimitBits pp)
  | Some lastNode =>
      if blocksPerRetarget opts =? 0 then Panic
      else if negb (Z.rem (swrap 32 (Height lastNode + 1)) (blocksPerRetarget opts) =? 0) then
        if ReduceMinDifficulty pp then
          let reductionTime := Z.quot (MinDiffReductionTime pp) time_Second in
          let allowMinTime := swrap 64 (Timestamp lastNode + reductionTime) in
          if allowMinTime <? newBlockTime then Ok (PowLimitBits pp)
          else Ok (findPrevTestNetDifficulty (Some lastNode) (blocksPerRetarget opts) (PowLimitBits pp))
        else Ok (node_Bits lastNode)
      else
      match RelativeAncestor (swrap 32 (blocksPerRetarget opts - 5)) lastNode with
      | None => Err AssertError
      | Some firstNode =>
          epochStartMedianTimestamp ← CalcPastMedianTimeForN 5 firstNode;
          epochEndMedianTimestamp ← CalcPastMedianTimeForN 5 lastNode;
          let actualTimespan := swrap 64 (epochEndMedianTimestamp - epochStartMedianTimestamp) in
          let adjustedTimespan :=
            if actualTimespan <? minRetargetTimespan opts then minRetargetTimespan opts
            else if maxRetargetTimespan opts <? actualTimespan then maxRetargetTimespan opts
            else actualTimespan in
          let oldTarget := CompactToBig (node_Bits lastNode) in
          let targetTimeSpan := Z.quot (TargetTimespan pp) time_Second in
          newTarget ← big_Div (oldTarget * adjustedTimespan) targetTimeSpan;
          let newTarget := if pp_PowLimit pp <? newTarget then pp_PowLimit pp else newTarget in
          Ok (BigToCompact newTarget)
      end
  end.

(** * Facts *)

(** Parameters with a target timespan and a factor that are positive, and a limit that a compact
    form can hold. *)
Definition pow_params_ok (pp : PowParams) : Prop :=
  0 < Z.quot (TargetTimespan pp) time_Second /\ 1 <= RetargetAdjustmentFactor pp <= Z.quot (TargetTimespan pp) time_Second /\
  0 < pp_PowLimit pp < 2 ^ 256.

Lemma fits_254 n : 0 <= n < 2 ^ 256 -> len (big_Bytes n) <= 254.
Proof. intros Hn. pose proof (big_Bytes_le n 32). lia. Qed.

Lemma BigToCompact_le n : 0 <= n < 2 ^ 256 -> CompactToBig (BigToCompact n) <= n.
Proof.
  intros Hn. destruct (decide (n = 0)) as [->|Hz]; [done|]. destruct (CompactToBig_BigToCompact n) as (k & Hk & -> & _); [lia|by apply fits_254|].
  assert (Hp : 0 < 256 ^ k) by (apply Z.pow_pos_nonneg; lia). pose proof (Z.mul_div_le n (256 ^ k) Hp). lia.
Qed.

Section retarget.
Context (pp : PowParams) (blocks : Z) (Hpp : pow_params_ok pp).
Local Abbreviation opts := (newRetargetOpts pp blocks).
Local Abbreviation T := (Z.quot (TargetTimespan pp) time_Second).
Local Abbreviation f := (RetargetAdjustmentFactor pp).
Local Abbreviation limit := (pp_PowLimit pp).

Lemma timespans : 1 <= minRetargetTimespan opts /\ minRetargetTimespan opts = T / f /\ minRetargetTimespan opts <= T /\ T <= maxRetargetTimespan opts /\ maxRetargetTimespan opts = T * f.
Proof.
  destruct Hpp as (H1 & H2 & _). cbn [newRetargetOpts minRetargetTimespan maxRetargetTimespan]. rewrite Z.quot_div_nonneg by lia.
  split_and!; [apply Z.div_le_lower_bound; lia|done|apply Z.div_le_upper_bound; nia|nia|done].
Qed.

(** The timespan of a retarget, limited. *)
Definition clamp_timespan (actual : Z) : Z := Z.max (T / f) (Z.min (T * f) actual).

Lemma clamp_timespan_eq actual :
  (if actual <? minRetargetTimespan opts then minRetargetTimespan opts
   else if maxRetargetTimespan opts <? actual then maxRetargetTimespan opts else actual) = clamp_timespan actual.
Proof.
  destruct timespans as (H1 & E1 & H2 & H3 & E2). unfold clamp_timespan. rewrite <-E1, <-E2.
  destruct (Z.ltb_spec actual (minRetargetTimespan opts)); [lia|]. destruct (Z.ltb_spec (maxRetargetTimespan opts) actual); lia.
Qed.

(** Timestamps an [int64] can subtract. *)
Definition times_in_range (node : IBlockNode) : Prop := forall n, n ∈ path node -> 0 <= Timestamp n < 2 ^ 62.

Lemma median5_range node : times_in_range node -> exists t, CalcPastMedianTimeForN 5 node = Ok t /\ 0 <= t < 2 ^ 62.
Proof.
  intros Hr. destruct (median_time_spec 5 node) as (t & E & Hin & _); [lia|]. exists t. split; [done|].
  destruct (past_times_path _ _ _ Hin) as (a & Ha & <-). by apply Hr.
Qed.

(** C27: At the end of an epoch the target is scaled by the time the epoch took, between the median
    times of five blocks at its ends, by at most the adjustment factor either way, up to the
    limit; the compact form is at most that. *)
Theorem retarget_spec lastNode newBlockTime : sized lastNode -> times_in_range lastNode -> 5 <= blocks < 2 ^ 31 ->
  (Height lastNode + 1) mod blocks = 0 -> 0 < CompactToBig (node_Bits lastNode) <= limit ->
  exists firstNode t1 t2, Ancestor (Height lastNode - blocks + 5) lastNode = Some firstNode /\
    CalcPastMedianTimeForN 5 firstNode = Ok t1 /\ CalcPastMedianTimeForN 5 lastNode = Ok t2 /\
    let old := CompactToBig (node_Bits lastNode) in
    let target := Z.min limit (old * clamp_timespan (t2 - t1) / T) in
    calcNextRequiredDifficulty pp opts (Some lastNode) newBlockTime = Ok (BigToCompact target) /\
    Z.min limit (old * (T / f) / T) <= target <= Z.min limit (old * f) /\ CompactToBig (BigToCompact target) <= target.
Proof.
  intros [Hl Hs] Hr Hb Hm Ho. pose proof (Height_nonneg _ Hl) as H0. destruct Hpp as (HT & Hf & Hlim).
  apply Z.mod_divide in Hm as Hd; [|lia]. destruct Hd as [k Hk]. assert (1 <= k) by nia.
  destruct (Ancestor_some lastNode (Height lastNode - blocks + 5) Hl) as (a & Ea & Ha & Hla); [nia|].
  assert (Hpa : forall n, n ∈ path a -> n ∈ path lastNode).
  { intros n. rewrite Ancestor_path in Ea by (done || nia). destruct (path_heights _ _ _ Hl Ea) as (_ & _ & ->). intros Hn.
    apply elem_of_take in Hn as (j & Hj & _). by eapply list_elem_of_lookup_2. }
  destruct (median5_range a) as (t1 & E1 & H1); [intros n Hn; by apply Hr, Hpa|]. destruct (median5_range lastNode Hr) as (t2 & E2 & H2).
  exists a, t1, t2. split_and!; [done|done|done|]. cbv zeta. unfold calcNextRequiredDifficulty.
  assert (Eb : blocksPerRetarget opts = blocks) by (cbn; apply swrap_id; unfold is_int; lia). rewrite Eb.
  rewrite (proj2 (Z.eqb_neq blocks 0)) by lia. rewrite (swrap_id 32 (Height lastNode + 1)) by (unfold is_int; lia).
  rewrite Z.rem_mod_nonneg, Hm by lia. cbn [Z.eqb negb]. rewrite (swrap_id 32 (blocks - 5)) by (unfold is_int; lia). unfold RelativeAncestor.
  rewrite (swrap_id 32 (Height lastNode - (blocks - 5))) by (unfold is_int; lia). replace (Height lastNode - (blocks - 5)) with (Height lastNode - blocks + 5) by lia.
  rewrite Ea, E1, E2. cbn [mbind outcome_bind]. rewrite (swrap_id 64 (t2 - t1)) by (unfold is_int; lia). rewrite clamp_timespan_eq.
  unfold big_Div. rewrite (proj2 (Z.eqb_neq T 0)), (proj2 (Z.ltb_ge T 0)) by lia. cbn [mbind outcome_bind].
  set (old := CompactToBig (node_Bits lastNode)) in *. set (adj := clamp_timespan (t2 - t1)).
  assert (Hadj : T / f <= adj <= T * f).
  { unfold adj, clamp_timespan. assert (T / f <= T) by (apply Z.div_le_upper_bound; nia). nia. }
  assert (Hmin : (if limit <? old * adj / T then limit else old * adj / T) = Z.min limit (old * adj / T)).
  { destruct (Z.ltb_spec limit (old * adj / T)); lia. }
  rewrite Hmin. assert (H1f : 0 <= T / f) by (apply Z.div_pos; lia). split_and!; [done| | |].
  - apply Z.min_le_compat_l. apply Z.div_le_mono; nia.
  - apply Z.min_le_compat_l. apply Z.div_le_upper_bound; nia.
  - apply BigToCompact_le. assert (0 <= old * adj / T) by (apply Z.div_pos; nia). lia.
Qed.

(** ** The easiest difficulty *)

(** How many retargets fit in some seconds. *)
Definition retarget_count (seconds : Z) : Z := if seconds <=? 0 then 0 else (seconds + T * f - 1) / (T * f).

Lemma retarget_count_step seconds : 0 < seconds -> retarget_count seconds = retarget_count (seconds - T * f) + 1.
Proof.
  intros Hs. destruct Hpp as (HT & Hf & _). assert (HM : 0 < T * f) by nia. set (M := T * f) in *. unfold retarget_count.
  rewrite (proj2 (Z.leb_gt seconds 0)) by lia. fold M. destruct (Z.leb_spec (seconds - M) 0) as [Hle|Hgt].
  - symmetry. apply Z.div_unique with (seconds - 1); lia.
  - replace (seconds + M - 1) with (seconds - M + M - 1 + 1 * M) by lia. by rewrite Z.div_add by lia.
Qed.

Lemma retarget_count_nonneg seconds : 0 <= retarget_count seconds.
Proof.
  destruct Hpp as (HT & Hf & _). unfold retarget_count. destruct (Z.leb_spec seconds 0); [lia|]. apply Z.div_pos; nia.
Qed.

Lemma easiest_loop_spec fuel : forall t d, 0 < t -> d <= Z.of_nat fuel ->
  exists r, easiest_loop fuel limit f (maxRetargetTimespan opts) t d = Ok r /\ 0 < r /\
    Z.min limit r = Z.min limit (t * f ^ retarget_count d).
Proof.
  destruct timespans as (_ & _ & _ & HM & EM). destruct Hpp as (HT & Hf & Hlim).
  induction fuel as [|fuel IH]; intros t d Ht Hd; cbn [easiest_loop].
  - rewrite (proj2 (Z.ltb_ge 0 d)) by lia. exists t. split_and!; [done|done|]. unfold retarget_count. rewrite (proj2 (Z.leb_le d 0)) by lia. f_equal. lia.
  - destruct (Z.ltb_spec 0 d) as [Hpos|Hle]; cbn [andb].
    + destruct (Z.ltb_spec t limit) as [Hlt|Hge].
      * destruct (IH (t * f) (d - maxRetargetTimespan opts)) as (r & E & Hr & Hmin); [nia|lia|]. exists r. split_and!; [done|done|].
        rewrite Hmin, EM. rewrite (retarget_count_step d), Z.pow_add_r, Z.pow_1_r by (try apply retarget_count_nonneg; lia). f_equal. lia.
      * exists t. split_and!; [done|done|]. assert (1 <= f ^ retarget_count d) by (pose proof (Z.pow_pos_nonneg f (retarget_count d)); pose proof (retarget_count_nonneg d); lia). nia.
    + exists t. split_and!; [done|done|]. unfold retarget_count. rewrite (proj2 (Z.leb_le d 0)) by lia. f_equal. lia.
Qed.

(** Targets that [n] retargets can give. *)
Inductive retargets : nat -> Z -> Z -> Prop :=
| retargets_none t : retargets 0 t t
| retargets_some n t u v : retargets n t u -> 0 < v <= Z.min limit (u * f) -> retargets (S n) t v.

Lemma retargets_bound n t u : retargets n t u -> 0 < t <= limit -> 0 < u <= Z.min limit (t * f ^ Z.of_nat n).
Proof.
  destruct Hpp as (HT & Hf & Hlim). intros Hr Ht. induction Hr as [t|n t u v Hr IH Hv]; [rewrite Z.pow_0_r; lia|].
  specialize (IH Ht). rewrite Nat2Z.inj_succ, Z.pow_succ_r by lia. split; [lia|]. apply Z.min_glb; [lia|]. etrans; [apply Hv|].
  etrans; [apply Z.le_min_r|]. nia.
Qed.

(** The easiest difficulty is found after as many turns as there are retargets in the time, it is
    the target multiplied by the factor for each, up to the limit, and no target that a compact
    form can hold and that so many retargets can give is refused by it. *)
Theorem easiest_difficulty_spec bits duration : ReduceMinDifficulty pp = false -> 0 < CompactToBig bits <= limit ->
  let n := retarget_count (Z.quot duration time_Second) in
  let easiest := Z.min limit (CompactToBig bits * f ^ n) in
  calcEasiestDifficulty pp opts bits duration = Ok (BigToCompact easiest) /\
  forall m t, Z.of_nat m <= n -> retargets m (CompactToBig bits) t -> CompactToBig (BigToCompact t) = t ->
    t <= CompactToBig (BigToCompact easiest).
Proof.
  intros Hred Ho. cbv zeta. set (n := retarget_count _). pose proof (retarget_count_nonneg (Z.quot duration time_Second)) as Hn. fold n in Hn.
  pose proof Hpp as (HT & Hf & Hlim). assert (Hpow : 0 < f ^ n) by (apply Z.pow_pos_nonneg; lia). split.
  - unfold calcEasiestDifficulty. rewrite Hred. cbn [andb].
    destruct (easiest_loop_spec (Z.to_nat (Z.quot duration time_Second)) (CompactToBig bits) (Z.quot duration time_Second)) as (r & E & Hr & Hmin); [lia|lia|].
    rewrite E. cbn [mbind outcome_bind]. fold n in Hmin. rewrite <-Hmin. f_equal. f_equal. destruct (Z.ltb_spec limit r); lia.
  - intros m t Hm Hr Ht. destruct (retargets_bound m _ t Hr Ho) as [Hpos Hle].
    assert (f ^ Z.of_nat m <= f ^ n) by (apply Z.pow_le_mono_r; lia).
    assert (Hmn : Z.min limit (CompactToBig bits * f ^ Z.of_nat m) <= Z.min limit (CompactToBig bits * f ^ n)) by (apply Z.min_le_compat_l; nia).
    apply compact_round_mono; [lia| |done]. apply fits_254. nia.
Qed.
End retarget.

(** * Concrete parameters *)

(** The beacon chain of the main network. *)
Definition main_pow_params : PowParams :=
  {| pp_PowLimit := 0x40000 * 256 ^ 23; PowLimitBits := 0x1a040000; TargetTimespan := 14 * 24 * 3600 * time_Second; RetargetAdjustmentFactor := 4;
     ReduceMinDifficulty := false; MinDiffReductionTime := 0 |}.

Lemma main_pow_params_ok : pow_params_ok main_pow_params.
Proof. vm_compute. repeat split; discriminate. Qed.

(** A hundred days after the checkpoint there are two retargets. *)
Lemma easiest_difficulty_spec_witness :
  let n := retarget_count main_pow_params (Z.quot (100 * 24 * 3600 * time_Second) time_Second) in
  let easiest := Z.min (pp_PowLimit main_pow_params) (CompactToBig 0x19040000 * RetargetAdjustmentFactor main_pow_params ^ n) in
  (n = 2 /\ easiest = 0x40000 * 256 ^ 22 * 16) /\
  calcEasiestDifficulty main_pow_params (newRetargetOpts main_pow_params 2048) 0x19040000 (100 * 24 * 3600 * time_Second) = Ok (BigToCompact easiest) /\
  forall m t, Z.of_nat m <= n -> retargets main_pow_params m (CompactToBig 0x19040000) t -> CompactToBig (BigToCompact t) = t ->
    t <= CompactToBig (BigToCompact easiest).
Proof.
  split; [vm_compute; split; reflexivity|]. apply (easiest_difficulty_spec main_pow_params 2048 main_pow_params_ok 0x19040000 (100 * 24 * 3600 * time_Second)).
  - reflexivity.
  - vm_compute. split; [reflexivity|discriminate].
Defined.

(** A test network of the highest limit. *)
Definition example_pow_params : PowParams :=
  {| pp_PowLimit := 2 ^ 255; PowLimitBits := 0x207fffff; TargetTimespan := 14 * 24 * 3600 * time_Second; RetargetAdjustmentFactor := 4;
     ReduceMinDifficulty := false; MinDiffReductionTime := 0 |}.

Lemma example_pow_params_ok : pow_params_ok example_pow_params.
Proof. vm_compute. repeat split; discriminate. Qed.

(** Eight blocks, a retarget after the eighth. *)
Definition epoch_of_8 : IBlockNode := tip_of [80000; 70000; 60000; 50000; 40000; 30000; 20000; 10000].

Lemma retarget_spec_witness :
  exists firstNode t1 t2, Ancestor (Height epoch_of_8 - 8 + 5) epoch_of_8 = Some firstNode /\
    CalcPastMedianTimeForN 5 firstNode = Ok t1 /\ CalcPastMedianTimeForN 5 epoch_of_8 = Ok t2 /\
    let old := CompactToBig (node_Bits epoch_of_8) in
    let target := Z.min (pp_PowLimit example_pow_params) (old * clamp_timespan example_pow_params (t2 - t1) / Z.quot (TargetTimespan example_pow_params) time_Second) in
    calcNextRequiredDifficulty example_pow_params (newRetargetOpts example_pow_params 8) (Some epoch_of_8) 90000 = Ok (BigToCompact target) /\
    Z.min (pp_PowLimit example_pow_params) (old * (Z.quot (TargetTimespan example_pow_params) time_Second / RetargetAdjustmentFactor example_pow_params) / Z.quot (TargetTimespan example_pow_params) time_Second) <= target
      <= Z.min (pp_PowLimit example_pow_params) (old * RetargetAdjustmentFactor example_pow_params) /\
    CompactToBig (BigToCompact target) <= target.
Proof.
  apply (retarget_spec example_pow_params 8 example_pow_params_ok epoch_of_8 90000).
  - vm_compute. tauto.
  - assert (Hf : Forall (fun n => 0 <= Timestamp n < 2 ^ 62) (path epoch_of_8)) by (apply (bool_decide_unpack _); vm_compute; exact I).
    rewrite Forall_forall in Hf. exact Hf.
  - lia.
  - reflexivity.
  - vm_compute. split; [reflexivity|discriminate].
Defined.
