(* ===== verification/ChainIndex.v ===== *)
(** Model of node/blockchain/blockindex.go, runtime_block_storage.go and orphan_index.go: the tree
    of all known blocks, the blocks that wait for a parent, and the nodes a reorganization
    detaches and attaches. *)

From stdpp Require Import gmap sorting.
From S2P Require Import Prelude Big WireEncoding WireTx Chainhash WireHeader Pow Mmr MmrStore MmrTree BlockNodes ChainView.

(** * The index *)

(** The statuses of nodes and the dirty set are by pointer. *)
Record blockIndex := {
  bi_index : gmap bytes IBlockNode; bi_dirty : gmap Z IBlockNode; bi_mmrTree : TreeContainer; bi_status : gmap Z Z
}.

Definition HaveBlock (hash : bytes) (bi : blockIndex) : bool := bool_decide (is_Some (bi_index bi !! hash)).
Definition index_HashByMMR (root : bytes) (bi : blockIndex) : option bytes := RootToBlock (bi_mmrTree bi) !! root.
Definition LookupNode (hash : bytes) (bi : blockIndex) : option IBlockNode := bi_index bi !! hash.

(** The zero hash is looked up when the root is unknown. *)
Definition LookupNodeByMMRRoot (root : bytes) (bi : blockIndex) : option IBlockNode :=
  bi_index bi !! default ZeroHash (RootToBlock (bi_mmrTree bi) !! root).

Definition NodeStatus (node : IBlockNode) (bi : blockIndex) : Z := default StatusNone (bi_status bi !! node_ptr (info node)).

Definition set_status (node : IBlockNode) (status : Z) (bi : blockIndex) : blockIndex :=
  {| bi_index := bi_index bi; bi_dirty := <[node_ptr (info node) := node]> (bi_dirty bi); bi_mmrTree := bi_mmrTree bi;
     bi_status := <[node_ptr (info node) := status]> (bi_status bi) |}.

Definition SetStatusFlags (node : IBlockNode) (flags : Z) (bi : blockIndex) : blockIndex :=
  set_status node (Z.lor (NodeStatus node bi) flags) bi.
Definition UnsetStatusFlags (node : IBlockNode) (flags : Z) (bi : blockIndex) : blockIndex :=
  set_status node (Z.ldiff (NodeStatus node bi) flags) bi.

Definition MMRTreeRoot (bi : blockIndex) : bytes := CurrentRoot (tc_tree (bi_mmrTree bi)).

(** Writes the dirty nodes in some order; [store] writes one of them. *)
Definition flushToDB {Db} (store : IBlockNode -> Z -> Db -> outcome Db) (order : list IBlockNode) (bi : blockIndex) (db : Db)
    : outcome (blockIndex * Db) :=
  if bool_decide (bi_dirty bi = ∅) then Ok (bi, db)
  else
  db ← foldl (fun db node => db ← db; store node (NodeStatus node bi) db) (Ok db) order;
  Ok ({| bi_index := bi_index bi; bi_dirty := ∅; bi_mmrTree := bi_mmrTree bi; bi_status := bi_status bi |}, db).

Section hash.
Context `{HashFunction}.

Definition newBlockIndex : outcome blockIndex :=
  t ← NewTree;
  Ok {| bi_index := ∅; bi_dirty := ∅; bi_mmrTree := {| tc_tree := t; RootToBlock := ∅ |}; bi_status := ∅ |}.

Definition addNode (node : IBlockNode) (quickAdd : bool) (bi : blockIndex) (roots : node_roots) : outcome (blockIndex * node_roots) :=
  '(tree, roots) ← set_node_mmr node quickAdd (bi_mmrTree bi) roots;
  Ok ({| bi_index := <[GetHash node := node]> (bi_index bi); bi_dirty := bi_dirty bi; bi_mmrTree := tree; bi_status := bi_status bi |}, roots).

Definition AddNode (node : IBlockNode) (bi : blockIndex) (roots : node_roots) : outcome (blockIndex * node_roots) :=
  '(bi, roots) ← addNode node false bi roots;
  Ok ({| bi_index := bi_index bi; bi_dirty := <[node_ptr (info node) := node]> (bi_dirty bi); bi_mmrTree := bi_mmrTree bi; bi_status := bi_status bi |}, roots).

Definition setFromCache (index : gmap bytes IBlockNode) (dirty : gmap Z IBlockNode) (tip : IBlockNode) (bi : blockIndex) (roots : node_roots)
    : outcome (blockIndex * node_roots) :=
  '(tree, roots) ← set_node_mmr tip false (bi_mmrTree bi) roots;
  t ← RebuildTreeAndAssert (tc_tree tree);
  Ok ({| bi_index := index ∪ bi_index bi; bi_dirty := dirty ∪ bi_dirty bi;
         bi_mmrTree := {| tc_tree := t; RootToBlock := RootToBlock tree |}; bi_status := bi_status bi |}, roots).
End hash.

(** * Orphans *)

(** An orphan by what the pool reads of it. *)
Record orphanBlock := { ob_hash : bytes; ob_prevMMRRoot : bytes; ob_actualMMR : bytes; expiration : Z }.

#[export] Instance orphanBlock_eq_dec : EqDecision orphanBlock.
Proof. solve_decision. Defined.

Record orphanIndex := {
  orphans : gmap bytes orphanBlock; actualMMRToBlock : gmap bytes orphanBlock;
  mmrRootsOrphans : gmap bytes (list orphanBlock); oldestOrphan : option orphanBlock
}.

Definition maxOrphanBlocks : Z := 100.

Definition IsKnownOrphan (hash : bytes) (oi : orphanIndex) : bool := bool_decide (is_Some (orphans oi !! hash)).

(** The first orphan of a chain of orphans; a chain that closes on itself is followed for
    ever. *)
Fixpoint orphan_root (fuel : nat) (orphanRoot prevHash : bytes) (oi : orphanIndex) : option bytes :=
  match fuel with
  | O => None
  | S fuel =>
      match orphans oi !! prevHash with
      | None => Some orphanRoot
      | Some orphan =>
          match actualMMRToBlock oi !! ob_prevMMRRoot orphan with
          | Some parent => orphan_root fuel prevHash (ob_hash parent) oi
          | None => Some prevHash
          end
      end
  end.

Definition GetOrphanMMRRoot (fuel : nat) (hash : bytes) (oi : orphanIndex) : option bytes := orphan_root fuel hash hash oi.

Definition removeOrphanBlock (orphan : orphanBlock) (oi : orphanIndex) : orphanIndex :=
  let rest := filter (fun o => ob_hash o <> ob_hash orphan) (default [] (mmrRootsOrphans oi !! ob_prevMMRRoot orphan)) in
  {| orphans := delete (ob_hash orphan) (orphans oi);
     actualMMRToBlock := actualMMRToBlock oi;
     mmrRootsOrphans := if bool_decide (rest = []) then delete (ob_prevMMRRoot orphan) (mmrRootsOrphans oi)
                        else <[ob_prevMMRRoot orphan := rest]> (mmrRootsOrphans oi);
     oldestOrphan := oldestOrphan oi |}.

(** The turn of one orphan: removed if it has expired, otherwise perhaps the oldest one. *)
Definition expire_turn (now : Z) (oi : orphanIndex) (oBlock : orphanBlock) : orphanIndex :=
  if expiration oBlock <? now then removeOrphanBlock oBlock oi
  else
  let older := match oldestOrphan oi with None => true | Some o => expiration oBlock <? expiration o end in
  if older then {| orphans := orphans oi; actualMMRToBlock := actualMMRToBlock oi; mmrRootsOrphans := mmrRootsOrphans oi; oldestOrphan := Some oBlock |}
  else oi.

(** [order] is the order of the iteration over the map of orphans; an entry that is deleted
    before its turn is not visited, and only its own turn deletes one. *)
Definition addOrphanBlock (now : Z) (order : list orphanBlock) (hash prevMMRRoot blockActualMMR : bytes) (oi : orphanIndex) : outcome orphanIndex :=
  let oi := foldl (expire_turn now) oi order in
  oi ←
    (if maxOrphanBlocks <? Z.of_nat (size (orphans oi)) + 1 then
       match oldestOrphan oi with
       | None => Panic
       | Some oldest =>
           let oi := removeOrphanBlock oldest oi in
           Ok {| orphans := orphans oi; actualMMRToBlock := actualMMRToBlock oi; mmrRootsOrphans := mmrRootsOrphans oi; oldestOrphan := None |}
       end
     else Ok oi);
  let oBlock := {| ob_hash := hash; ob_prevMMRRoot := prevMMRRoot; ob_actualMMR := blockActualMMR; expiration := now + 3600000000000 |} in
  Ok {| orphans := <[hash := oBlock]> (orphans oi);
        actualMMRToBlock := if Hash_IsZero blockActualMMR then actualMMRToBlock oi else <[blockActualMMR := oBlock]> (actualMMRToBlock oi);
        mmrRootsOrphans := <[prevMMRRoot := default [] (mmrRootsOrphans oi !! prevMMRRoot) ++ [oBlock]]> (mmrRootsOrphans oi);
        oldestOrphan := oldestOrphan oi |}.

(** * Storage *)

Record rBlockStorage := { index : blockIndex; bestChain : chainView; orphan_index : orphanIndex; lastSerialID : Z }.

Definition set_index (bi : blockIndex) (storage : rBlockStorage) : rBlockStorage :=
  {| index := bi; bestChain := bestChain storage; orphan_index := orphan_index storage; lastSerialID := lastSerialID storage |}.

(** The parent, and whether it exists; the error of an invalid parent comes with [true]. *)
Definition getBlockParent (prevMMRRoot : bytes) (storage : rBlockStorage) : bool * outcome IBlockNode :=
  match LookupNodeByMMRRoot prevMMRRoot (index storage) with
  | None => (false, Err (RuleError "ErrPreviousBlockUnknown"))
  | Some prevNode =>
      if KnownInvalid (NodeStatus prevNode (index storage)) then (true, Err (RuleError "ErrInvalidAncestorBlock"))
      else (true, Ok prevNode)
  end.

(** The hash of the parent, whether it is found and whether it is in the main chain. *)
Definition getBlockParentHash (prevMMRRoot : bytes) (storage : rBlockStorage) : bytes * bool * bool :=
  match view_HashByMMR prevMMRRoot (bestChain storage) with
  | Some h => (h, true, true)
  | None =>
      match index_HashByMMR prevMMRRoot (index storage) with
      | Some h => (h, true, false)
      | None => (ZeroHash, false, false)
      end
  end.

Definition getMMRRootForHash (blockHash : bytes) (storage : rBlockStorage) : bytes * bool :=
  let '(actualRoot, found) := ActualRootForLeafByHash blockHash (tc_tree (view_mmr (bestChain storage))) in
  if found then (actualRoot, found) else ActualRootForLeafByHash blockHash (tc_tree (bi_mmrTree (index storage))).

(** The nodes from one down to the fork, pushed to the front, and whether the walk met an invalid
    one. *)
Fixpoint attach_walk (n : IBlockNode) (forkNode : option IBlockNode) (bi : blockIndex) (attachNodes : list IBlockNode) : list IBlockNode * bool :=
  if opt_node_eqb (Some n) forkNode then (attachNodes, false)
  else if KnownInvalid (NodeStatus n bi) then (attachNodes, true)
  else
  match n with
  | first_node _ => (n :: attachNodes, false)
  | child_node _ parent => attach_walk parent forkNode bi (n :: attachNodes)
  end.

Fixpoint detach_walk (n : IBlockNode) (forkNode : option IBlockNode) : list IBlockNode :=
  if opt_node_eqb (Some n) forkNode then []
  else n :: match n with first_node _ => [] | child_node _ parent => detach_walk parent forkNode end.

Definition getReorganizeNodes (node : IBlockNode) (storage : rBlockStorage) : outcome (list IBlockNode * list IBlockNode * rBlockStorage) :=
  match Parent node with
  | None => Panic
  | Some parent =>
      if KnownInvalid (NodeStatus parent (index storage)) then
        Ok ([], [], set_index (SetStatusFlags node StatusInvalidAncestor (index storage)) storage)
      else
      let forkNode := findFork (Some node) (bestChain storage) in
      let '(attachNodes, invalidChain) := attach_walk node forkNode (index storage) [] in
      if (invalidChain : bool) then
        Ok ([], [], set_index (foldl (fun bi n => SetStatusFlags n StatusInvalidAncestor bi) (index storage) attachNodes) storage)
      else
      let detachNodes := match view_tip (bestChain storage) with None => [] | Some tip => detach_walk tip forkNode end in
      Ok (detachNodes, attachNodes, storage)
  end.
