(* ===== verification/IndexFacts.v ===== *)
(** What a reorganization detaches and attaches, how invalid branches are kept out, and the pool
    of orphans. *)

From stdpp Require Import gmap sorting.
From S2P Require Import Prelude Big WireEncoding WireTx Sha256 Chainhash WireHeader Pow Mmr MmrStore MmrTree BlockNodes ChainView ViewFacts ChainIndex.

(** * Walks to a fork *)

(** Pointers tell the nodes of a branch apart. *)
Definition identified (ns : list IBlockNode) : Prop :=
  forall x y, x ∈ ns -> y ∈ ns -> node_ptr (info x) = node_ptr (info y) -> x = y.

Lemma identified_sub ns ms : identified ns -> (forall x, x ∈ ms -> x ∈ ns) -> identified ms.
Proof. intros Hid Hs x y Hx Hy. apply Hid; by apply Hs. Qed.

(** A branch cut in two: up to the fork, and after it. *)
Definition split_at (node : IBlockNode) (fork : option IBlockNode) (common after : list IBlockNode) : Prop :=
  path node = common ++ after /\ last common = fork.

Lemma split_fork node fork common after : identified (path node) -> linked node -> split_at node fork common after ->
  opt_node_eqb (Some node) fork = bool_decide (after = []).
Proof.
  intros Hid Hl [Hp Hf]. destruct fork as [f|]; cbn [opt_node_eqb].
  - assert (Hfin : f ∈ path node) by (rewrite Hp; apply elem_of_app; left; rewrite last_lookup in Hf; by eapply list_elem_of_lookup_2).
    destruct (bool_decide_reflect (after = [])) as [->|Hne].
    + rewrite app_nil_r in Hp. pose proof (path_last node) as Hl'. rewrite Hp in Hl'. assert (f = node) as -> by congruence. apply Z.eqb_refl.
    + apply Z.eqb_neq. intros Heq. pose proof (Hid _ _ (self_in_path node) Hfin Heq) as <-. apply Hne.
      rewrite last_lookup in Hf. assert (Hi : path node !! pred (length common) = Some node).
      { rewrite Hp. by apply lookup_app_l_Some. }
      destruct (path_heights _ _ _ Hl Hi) as (Hz & _). pose proof (path_length _ Hl) as Hpl. rewrite Hp, length_app in Hpl.
      pose proof (lookup_lt_Some _ _ _ Hf). destruct after; [done|]. cbn [length] in Hpl. lia.
  - apply last_None in Hf as ->. cbn [app] in Hp. rewrite bool_decide_eq_false_2; [done|]. intros ->. destruct node; cbn [path] in Hp; [done|].
    by destruct (path node).
Qed.

Lemma split_parent i p fork common after : split_at (child_node i p) fork common after -> after <> [] ->
  exists after', after = after' ++ [child_node i p] /\ split_at p fork common after'.
Proof.
  intros [Hp Hf] Hne. destruct (exists_last Hne) as (after' & x & ->). cbn [path] in Hp. rewrite app_assoc in Hp.
  apply app_inj_tail in Hp as [Hp <-]. by exists after'.
Qed.

Definition invalid_in (bi : blockIndex) (n : IBlockNode) : Prop := KnownInvalid (NodeStatus n bi) = true.

Lemma attach_walk_valid bi fork common node : forall after acc, identified (path node) -> linked node -> split_at node fork common after ->
  Forall (fun n => ~ invalid_in bi n) after -> attach_walk node fork bi acc = (after ++ acc, false).
Proof.
  induction node as [i|i p IH]; intros after acc Hid Hl Hs Hv; cbn [attach_walk]; rewrite (split_fork _ _ _ _ Hid Hl Hs);
    (destruct (bool_decide_reflect (after = [])) as [->|Hne]; [done|]).
  - destruct Hs as [Hp Hf]. cbn [path] in Hp. assert (after = [first_node i]) as ->.
    { destruct common as [|x [|? ?]]; cbn [app] in Hp; [done|injection Hp as _ <-; done|done]. }
    apply Forall_cons in Hv as [Hv _]. unfold invalid_in in Hv. by destruct (KnownInvalid _).
  - destruct (split_parent _ _ _ _ _ Hs Hne) as (after' & -> & Hs'). apply Forall_app in Hv as [Hv Hv']. apply Forall_cons in Hv' as [Hv' _].
    unfold invalid_in in Hv'. destruct (KnownInvalid _); [by destruct Hv'|]. rewrite (IH after'); [by rewrite <-app_assoc| |apply Hl|done|done].
    eapply identified_sub; [exact Hid|]. intros x Hx. cbn [path]. set_solver.
Qed.

(** With an invalid node the walk stops at the last of them. *)
Lemma attach_walk_invalid bi fork common node : forall after acc, identified (path node) -> linked node -> split_at node fork common after ->
  Exists (invalid_in bi) after -> exists before n tail, after = before ++ n :: tail /\ invalid_in bi n /\ Forall (fun n => ~ invalid_in bi n) tail /\
    attach_walk node fork bi acc = (tail ++ acc, true).
Proof.
  induction node as [i|i p IH]; intros after acc Hid Hl Hs Hv; cbn [attach_walk]; rewrite (split_fork _ _ _ _ Hid Hl Hs);
    (destruct (bool_decide_reflect (after = [])) as [->|Hne]; [by apply Exists_nil in Hv|]).
  - destruct Hs as [Hp Hf]. cbn [path] in Hp. assert (after = [first_node i]) as ->.
    { destruct common as [|x [|? ?]]; cbn [app] in Hp; [done|injection Hp as _ <-; done|done]. }
    apply Exists_cons in Hv as [Hv|Hv]; [|by apply Exists_nil in Hv]. exists [], (first_node i), []. unfold invalid_in in *. rewrite Hv. by split_and!.
  - destruct (split_parent _ _ _ _ _ Hs Hne) as (after' & -> & Hs'). destruct (KnownInvalid (NodeStatus (child_node i p) bi)) eqn:Ek.
    + exists after', (child_node i p), []. by split_and!.
    + apply Exists_app in Hv as [Hv|Hv].
      * destruct (IH after' (child_node i p :: acc)) as (b & n & tl & -> & H1 & H2 & E); [|apply Hl|done|done|].
        { eapply identified_sub; [exact Hid|]. intros x Hx. cbn [path]. set_solver. }
        exists b, n, (tl ++ [child_node i p]). rewrite E, <-!app_assoc. cbn [app]. split_and!; [done|done| |done].
        apply Forall_app. split; [done|]. constructor; [|constructor]. unfold invalid_in. by rewrite Ek.
      * apply Exists_cons in Hv as [Hv|Hv]; [|by apply Exists_nil in Hv]. unfold invalid_in in Hv. congruence.
Qed.

Lemma detach_walk_spec fork common node : forall after, identified (path node) -> linked node -> split_at node fork common after ->
  detach_walk node fork = rev after.
Proof.
  induction node as [i|i p IH]; intros after Hid Hl Hs; cbn [detach_walk]; rewrite (split_fork _ _ _ _ Hid Hl Hs);
    (destruct (bool_decide_reflect (after = [])) as [->|Hne]; [done|]).
  - destruct Hs as [Hp Hf]. cbn [path] in Hp. destruct common as [|x [|? ?]]; cbn [app] in Hp; [by subst after|injection Hp as _ <-; done|done].
  - destruct (split_parent _ _ _ _ _ Hs Hne) as (after' & -> & Hs'). rewrite rev_app_distr. cbn [rev app]. f_equal. apply IH; [|apply Hl|done].
    eapply identified_sub; [exact Hid|]. intros x Hx. cbn [path]. set_solver.
Qed.

(** The fork cuts the branch of a node and that of the tip after the same nodes. *)
Lemma fork_splits tip c node : sized tip -> view_of tip c -> linked node -> identified (path tip ++ path node) ->
  exists common detached attached, split_at tip (findFork (Some node) c) common (rev detached) /\
    split_at node (findFork (Some node) c) common attached /\ (forall x, x ∈ attached -> x ∉ path tip).
Proof.
  intros Ht Hc Hn Hid. assert (Hone : one_identity tip node) by (intros x y Hx Hy; apply Hid; set_solver).
  pose proof (find_fork_common tip c node Ht Hc Hn Hone) as Hf. destruct (findFork (Some node) c) as [f|].
  - destruct Hf as (H1 & H2 & H3). apply list_elem_of_lookup in H1 as [i Hi], H2 as [j Hj].
    destruct (path_heights _ _ _ (proj1 Ht) Hi) as (Hz & _ & Hp). destruct (path_heights _ _ _ Hn Hj) as (Hz' & _ & Hp').
    exists (path f), (rev (drop (S i) (path tip))), (drop (S j) (path node)). rewrite rev_involutive. unfold split_at.
    rewrite path_last. split_and!; [by rewrite Hp at 1; rewrite take_drop|done|by rewrite Hp' at 1; rewrite take_drop|done|].
    intros x Hx Hxt. apply list_elem_of_lookup in Hx as [k Hk]. rewrite lookup_drop in Hk. destruct (path_heights _ _ _ Hn Hk) as (Hzk & _).
    specialize (H3 x Hxt ltac:(by eapply list_elem_of_lookup_2)). lia.
  - exists [], (rev (path tip)), (path node). rewrite rev_involutive. unfold split_at. split_and!; try done. intros x Hx Hxt. by apply (Hf x).
Qed.

(** * Reorganizations *)

Lemma set_flags_status n flags bi m : NodeStatus m (SetStatusFlags n flags bi) =
  if decide (node_ptr (info m) = node_ptr (info n)) then Z.lor (NodeStatus n bi) flags else NodeStatus m bi.
Proof.
  unfold SetStatusFlags, set_status, NodeStatus at 1. cbn [bi_status]. case_decide as E.
  - by rewrite E, lookup_insert_eq.
  - by rewrite lookup_insert_ne.
Qed.

Lemma mark_status ns : forall bi m, exists s, NodeStatus m (foldl (fun bi n => SetStatusFlags n StatusInvalidAncestor bi) bi ns) = s /\
  (KnownInvalid (NodeStatus m bi) = true -> KnownInvalid s = true) /\ (m ∈ ns -> KnownInvalid s = true).
Proof.
  assert (Hk : forall s, KnownInvalid (Z.lor s StatusInvalidAncestor) = true).
  { intros s. unfold KnownInvalid. apply negb_true_iff, Z.eqb_neq. intros Hz. assert (Hb : Z.testbit (Z.land (Z.lor s StatusInvalidAncestor) (Z.lor StatusValidateFailed StatusInvalidAncestor)) 3 = true).
    { rewrite Z.land_spec, Z.lor_spec. unfold StatusInvalidAncestor. change (Z.testbit 8 3) with true. by rewrite orb_true_r. }
    by rewrite Hz in Hb. }
  induction ns as [|n ns IH]; intros bi m; cbn [foldl]; [exists (NodeStatus m bi); split_and!; [done|done|by rewrite elem_of_nil]|].
  destruct (IH (SetStatusFlags n StatusInvalidAncestor bi) m) as (s & E & H1 & H2). exists s. split; [done|]. rewrite set_flags_status in H1.
  destruct (decide (node_ptr (info m) = node_ptr (info n))) as [Hp|Hp].
  - rewrite Hk in H1. by split; intros _; apply H1.
  - split; [done|]. rewrite elem_of_cons. intros [->|Hm]; [done|by apply H2].
Qed.

(** On valid branches [getReorganizeNodes] cuts the main chain and the branch of the node at their
    fork: what is detached, the tip first, is the end of the main chain, what is attached is the
    end of the branch and none of it is in the main chain, so that detaching and attaching turns
    one branch into the other. *)
Theorem reorganize_nodes_spec tip node parent storage : Parent node = Some parent -> sized tip -> view_of tip (bestChain storage) ->
  linked node -> identified (path tip ++ path node) -> (forall n, n ∈ path node -> ~ invalid_in (index storage) n) ->
  exists common detached attached, getReorganizeNodes node storage = Ok (detached, attached, storage) /\
    path tip = common ++ rev detached /\ path node = common ++ attached /\ (forall x, x ∈ attached -> x ∉ path tip) /\
    last common = findFork (Some node) (bestChain storage).
Proof.
  intros Hp Ht Hc Hn Hid Hv. destruct (fork_splits tip (bestChain storage) node Ht Hc Hn Hid) as (common & detached & attached & Hs1 & Hs2 & Hx).
  exists common, detached, attached. pose proof Hs1 as [H1 Hl]. pose proof Hs2 as [H2 _]. split_and!; try done.
  unfold getReorganizeNodes. rewrite Hp. assert (Hpar : KnownInvalid (NodeStatus parent (index storage)) = false).
  { apply not_true_is_false. intros Hi. apply (Hv parent); [|done]. destruct node as [i|i q]; [done|]. injection Hp as ->. cbn [path].
    apply elem_of_app. left. apply self_in_path. }
  rewrite Hpar. rewrite (attach_walk_valid _ _ common node attached []); [|by eapply identified_sub; [exact Hid|set_solver]|done|done|].
  - rewrite app_nil_r. rewrite (view_tip_eq tip) by done. rewrite (detach_walk_spec _ common tip (rev detached)); [by rewrite rev_involutive| |apply Ht|done].
    eapply identified_sub; [exact Hid|set_solver].
  - apply Forall_forall. intros n Hin. apply Hv. rewrite H2. apply elem_of_app. by right.
Qed.

(** C29: A branch with an invalid block that is not in the main chain is never reorganized to: nothing
    is detached or attached, and afterwards the block itself is known to be invalid. *)
Theorem reorganize_nodes_invalid tip node parent storage bad : Parent node = Some parent -> sized tip -> view_of tip (bestChain storage) ->
  linked node -> identified (path tip ++ path node) -> (forall n, n ∈ path node -> n ∈ path tip -> ~ invalid_in (index storage) n) ->
  bad ∈ path parent -> invalid_in (index storage) bad ->
  exists storage', getReorganizeNodes node storage = Ok ([], [], storage') /\ bestChain storage' = bestChain storage /\
    invalid_in (index storage') node.
Proof.
  intros Hp Ht Hc Hn Hid Hmain Hbad Hinv. unfold getReorganizeNodes. rewrite Hp.
  destruct (KnownInvalid (NodeStatus parent (index storage))) eqn:Ek.
  { eexists. split; [done|]. split; [done|]. cbn [index set_index]. unfold invalid_in.
    destruct (mark_status [node] (index storage) node) as (s & E & _ & Hs). cbn [foldl] in E. rewrite E. apply Hs. set_solver. }
  assert (Hpn : forall x, x ∈ path parent -> x ∈ path node).
  { destruct node as [i|i q]; [done|]. injection Hp as ->. cbn [path]. set_solver. }
  destruct (fork_splits tip (bestChain storage) node Ht Hc Hn Hid) as (common & detached & attached & [H1 Hl] & Hs2 & Hx). pose proof Hs2 as [H2 _].
  assert (Hin : bad ∈ attached).
  { pose proof (Hpn _ Hbad) as Hb. rewrite H2 in Hb. apply elem_of_app in Hb as [Hb|]; [|done]. exfalso.
    apply (Hmain bad); [by apply Hpn| |done]. rewrite H1. apply elem_of_app. by left. }
  destruct (attach_walk_invalid (index storage) (findFork (Some node) (bestChain storage)) common node attached []) as (b & n & tl & E & Hi & Hv & Ew).
  - eapply identified_sub; [exact Hid|set_solver].
  - done.
  - done.
  - apply Exists_exists. by exists bad.
  - rewrite Ew, app_nil_r. eexists. split; [done|]. split; [done|]. cbn [index set_index]. unfold invalid_in.
    destruct (mark_status tl (index storage) node) as (s & Es & Hk & Hs). rewrite Es.
    pose proof (path_last node) as Hlast. rewrite H2, E in Hlast. destruct (exists_last (l := n :: tl)) as (xs & x & Exs); [done|].
    rewrite Exs, !app_assoc, last_snoc in Hlast. injection Hlast as ->. destruct xs as [|y xs].
    + injection Exs as -> ->. by apply Hk.
    + injection Exs as -> ->. apply Hs. set_solver.
Qed.

(** * The pool of orphans *)

(** C35: A block that announces the root it builds on as the root it leads to is its own parent in the
    pool, and the search for the first orphan of its chain does not end. *)
Theorem orphan_root_never_ends now order hash root oi oi' : root <> ZeroHash ->
  addOrphanBlock now order hash root root oi = Ok oi' -> forall fuel, GetOrphanMMRRoot fuel hash oi' = None.
Proof.
  intros Hr. unfold addOrphanBlock. set (oi1 := foldl _ _ _). set (r := if maxOrphanBlocks <? _ then _ else _).
  destruct r as [oi2| |]; cbn [mbind outcome_bind]; try done. intros [= <-]. unfold Hash_IsZero, Hash_IsEqual.
  rewrite bool_decide_eq_false_2 by done. unfold GetOrphanMMRRoot. intros fuel. generalize hash at 1 as r0. induction fuel as [|fuel IH]; intros r0; [done|].
  cbn [orphan_root orphans actualMMRToBlock]. rewrite lookup_insert_eq. cbn [ob_prevMMRRoot ob_hash]. rewrite lookup_insert_eq. cbn [ob_hash]. apply IH.
Qed.

(** * Concrete branches *)

#[local] Existing Instance sha256_instance.

Definition example_storage (status : gmap Z Z) : rBlockStorage :=
  {| index := {| bi_index := ∅; bi_dirty := ∅; bi_mmrTree := view_mmr (example_view node2); bi_status := status |};
     bestChain := example_view node2;
     orphan_index := {| orphans := ∅; actualMMRToBlock := ∅; mmrRootsOrphans := ∅; oldestOrphan := None |}; lastSerialID := 0 |}.

Lemma example_identified : identified (path node2 ++ path node3').
Proof.
  assert (Hf : Forall (fun x => Forall (fun y => node_ptr (info x) = node_ptr (info y) -> x = y) (path node2 ++ path node3')) (path node2 ++ path node3')).
  { apply (bool_decide_unpack _). vm_compute. exact I. }
  intros x y Hx Hy. rewrite Forall_forall in Hf. specialize (Hf x Hx). rewrite Forall_forall in Hf. by apply Hf.
Qed.

Lemma reorganize_nodes_spec_witness :
  exists common detached attached, getReorganizeNodes node3' (example_storage ∅) = Ok (detached, attached, example_storage ∅) /\
    path node2 = common ++ rev detached /\ path node3' = common ++ attached /\ (forall x, x ∈ attached -> x ∉ path node2) /\
    last common = findFork (Some node3') (bestChain (example_storage ∅)).
Proof.
  apply (reorganize_nodes_spec node2 node3' node2' (example_storage ∅)).
  - reflexivity.
  - apply example_sized.
  - reflexivity.
  - apply example_sized.
  - exact example_identified.
  - intros n _. unfold invalid_in, NodeStatus. cbn [index example_storage bi_status]. rewrite lookup_empty. discriminate.
Defined.

Lemma reorganize_nodes_invalid_witness :
  exists storage', getReorganizeNodes node3' (example_storage {[1 := StatusNone; 3 := StatusValidateFailed]}) = Ok ([], [], storage') /\
    bestChain storage' = example_view node2 /\ invalid_in (index storage') node3'.
Proof.
  apply (reorganize_nodes_invalid node2 node3' node2' (example_storage {[1 := StatusNone; 3 := StatusValidateFailed]}) node2').
  - reflexivity.
  - apply example_sized.
  - reflexivity.
  - apply example_sized.
  - exact example_identified.
  - intros n _ Hn. assert (Hf : Forall (fun n => KnownInvalid (NodeStatus n (index (example_storage {[1 := StatusNone; 3 := StatusValidateFailed]}))) = false) (path node2)).
    { apply (bool_decide_unpack _). vm_compute. exact I. }
    rewrite Forall_forall in Hf. unfold invalid_in. rewrite (Hf n Hn). discriminate.
  - apply self_in_path.
  - vm_compute. reflexivity.
Defined.

Lemma orphan_root_never_ends_witness :
  exists oi', addOrphanBlock 0 [] (replicate 32 Byte.x01) (replicate 32 Byte.x02) (replicate 32 Byte.x02) (orphan_index (example_storage ∅)) = Ok oi' /\
    forall fuel, GetOrphanMMRRoot fuel (replicate 32 Byte.x01) oi' = None.
Proof.
  destruct (addOrphanBlock 0 [] (replicate 32 Byte.x01) (replicate 32 Byte.x02) (replicate 32 Byte.x02) (orphan_index (example_storage ∅))) as [oi'| |] eqn:E.
  - exists oi'. split; [reflexivity|]. apply (orphan_root_never_ends 0 [] (replicate 32 Byte.x01) (replicate 32 Byte.x02) (orphan_index (example_storage ∅))); [discriminate|exact E].
  - vm_compute in E. discriminate E.
  - vm_compute in E. discriminate E.
Defined.
