(* ===== verification/Treap.v ===== *)
(** Model of database/internal/treap: the binary search trees, with a random priority at each
    node, that cache the keys of the database.

    The nodes are cells of a store and a pointer is the address of a cell or nil, so that what
    the mutable treap changes in place, and what the immutable one must not change, can be told
    apart.  The result of [rand.Int] is an argument of the operations that call it.  The loops
    that follow pointers have fuel, one more than the number of cells allocated. *)

From stdpp Require Import gmap.
From S2P Require Import Prelude.

(** * The order of keys *)

(** [bytes.Compare] *)
Fixpoint Compare (a b : bytes) : comparison :=
  match a, b with
  | [], [] => Eq
  | [], _ :: _ => Lt
  | _ :: _, [] => Gt
  | x :: a, y :: b => match byte.unsigned x ?= byte.unsigned y with Eq => Compare a b | c => c end
  end.

(** * Nodes and the store *)

Abbreviation pointer := (option nat).

Record treapNode := { tn_key : bytes; tn_value : bytes; tn_priority : Z; tn_left : pointer; tn_right : pointer }.

Record store := { cells : gmap nat treapNode; allocated : nat }.

Definition M (A : Type) : Type := store -> outcome (A * store).

#[export] Instance M_ret : MRet M := fun A a s => Ok (a, s).
#[export] Instance M_bind : MBind M := fun A B f m s =>
  match m s with Ok (a, s) => f a s | Err e => Err e | Panic => Panic end.

Definition panic {A} : M A := fun _ => Panic.
Definition alloc (n : treapNode) : M nat :=
  fun s => Ok (allocated s, {| cells := <[allocated s := n]> (cells s); allocated := S (allocated s) |}).
Definition load (p : nat) : M treapNode := fun s => match cells s !! p with Some n => Ok (n, s) | None => Panic end.
Definition write_node (p : nat) (n : treapNode) : M unit :=
  fun s => Ok (tt, {| cells := <[p := n]> (cells s); allocated := allocated s |}).
Definition fuel : M nat := fun s => Ok (S (allocated s), s).
(** A pointer that is followed must not be nil. *)
Definition deref (p : pointer) : M nat := match p with Some p => mret p | None => panic end.

Definition with_left (p : pointer) (n : treapNode) : treapNode :=
  {| tn_key := tn_key n; tn_value := tn_value n; tn_priority := tn_priority n; tn_left := p; tn_right := tn_right n |}.
Definition with_right (p : pointer) (n : treapNode) : treapNode :=
  {| tn_key := tn_key n; tn_value := tn_value n; tn_priority := tn_priority n; tn_left := tn_left n; tn_right := p |}.
Definition with_value (v : bytes) (n : treapNode) : treapNode :=
  {| tn_key := tn_key n; tn_value := v; tn_priority := tn_priority n; tn_left := tn_left n; tn_right := tn_right n |}.

Definition set_left (x : nat) (p : pointer) : M unit := n ← load x; write_node x (with_left p n).
Definition set_right (x : nat) (p : pointer) : M unit := n ← load x; write_node x (with_right p n).

Definition nodeFieldsSize : Z := 72.
Definition nodeSize (n : treapNode) : Z := uwrap 64 (nodeFieldsSize + uwrap 64 (len (tn_key n) + len (tn_value n))).
Definition newTreapNode (key value : bytes) (priority : Z) : M nat :=
  alloc {| tn_key := key; tn_value := value; tn_priority := priority; tn_left := None; tn_right := None |}.
Definition cloneTreapNode (x : nat) : M nat := n ← load x; alloc n.

(** * Stacks of parents *)

Definition staticDepth : nat := 128.

(** [overflow] holds as many items as its capacity. *)
Record parentStack := { ps_index : nat; ps_items : list pointer; ps_overflow : list pointer }.
Definition empty_stack : parentStack := {| ps_index := 0; ps_items := replicate staticDepth None; ps_overflow := [] |}.

Definition stack_Len (s : parentStack) : nat := ps_index s.

Definition stack_At (n : Z) (s : parentStack) : pointer :=
  let index := Z.of_nat (ps_index s) - n - 1 in
  if index <? 0 then None
  else if index <? Z.of_nat staticDepth then default None (ps_items s !! Z.to_nat index)
  else default None (ps_overflow s !! (Z.to_nat index - staticDepth)%nat).

Definition stack_Pop (s : parentStack) : pointer * parentStack :=
  match ps_index s with
  | O => (None, s)
  | S index =>
      if decide (index < staticDepth)%nat then
        (default None (ps_items s !! index),
         {| ps_index := index; ps_items := <[index := None]> (ps_items s); ps_overflow := ps_overflow s |})
      else
        (default None (ps_overflow s !! (index - staticDepth)%nat),
         {| ps_index := index; ps_items := ps_items s; ps_overflow := <[(index - staticDepth)%nat := None]> (ps_overflow s) |})
  end.

Definition stack_Push (node : nat) (s : parentStack) : parentStack :=
  if decide (ps_index s < staticDepth)%nat then
    {| ps_index := S (ps_index s); ps_items := <[ps_index s := Some node]> (ps_items s); ps_overflow := ps_overflow s |}
  else
    let index := (ps_index s - staticDepth)%nat in
    let overflow := if decide (length (ps_overflow s) < index + 1)%nat
      then ps_overflow s ++ replicate (index + 1 - length (ps_overflow s)) None else ps_overflow s in
    {| ps_index := S (ps_index s); ps_items := ps_items s; ps_overflow := <[index := Some node]> overflow |}.

(** * Steps the operations share *)

(** The walk down to a key: the parents, the last of them first, the result of the last
    comparison, and the node with the key, which is the top of the parents then. *)
Fixpoint descend (fuel : nat) (key : bytes) (node : pointer) (parents : parentStack) (compareResult : comparison)
    : M (parentStack * comparison * pointer) :=
  match node with
  | None => mret (parents, compareResult, None)
  | Some x =>
      match fuel with
      | O => panic
      | S fuel =>
          let parents := stack_Push x parents in
          n ← load x;
          match Compare key (tn_key n) with
          | Lt => descend fuel key (tn_left n) parents Lt
          | Gt => descend fuel key (tn_right n) parents Gt
          | Eq => mret (parents, Eq, Some x)
          end
      end
  end.

(** [relinkGrandparent]: the root afterwards. *)
Definition relinkGrandparent (node parent : nat) (grandparent : pointer) (root : pointer) : M pointer :=
  match grandparent with
  | None => mret (Some node)
  | Some g =>
      n ← load g;
      _ ← (if decide (tn_left n = Some parent) then set_left g (Some node) else set_right g (Some node));
      mret root
  end.

Definition attach (compareResult : comparison) (parent node : nat) : M unit :=
  match compareResult with Lt => set_left parent (Some node) | _ => set_right parent (Some node) end.

(** The rotations after an insertion, up to a parent of smaller or equal priority. *)
Fixpoint rotate_up (fuel : nat) (node : nat) (parents : parentStack) (root : pointer) : M pointer :=
  if decide (stack_Len parents = 0%nat) then mret root
  else
  match fuel with
  | O => panic
  | S fuel =>
      let '(parent, parents) := stack_Pop parents in
      parent ← deref parent;
      n ← load node;
      p ← load parent;
      if tn_priority p <=? tn_priority n then mret root
      else
      _ ← (if decide (tn_left p = Some node) then
             _ ← set_right node (Some parent); set_left parent (tn_right n)
           else _ ← set_left node (Some parent); set_right parent (tn_left n));
      root ← relinkGrandparent node parent (stack_At 0 parents) root;
      rotate_up fuel node parents root
  end.

(** The rotations before a removal: they move a node down to a leaf.  The immutable treap copies
    the children it moves up.  The result is the parent of the leaf and the root. *)
Fixpoint sink (fuel : nat) (immutable : bool) (node : nat) (parent root : pointer) : M (pointer * pointer) :=
  n ← load node;
  match tn_left n, tn_right n with
  | None, None => mret (parent, root)
  | _, _ =>
      match fuel with
      | O => panic
      | S fuel =>
          '(child, isLeft) ←
            match tn_left n, tn_right n with
            | None, None => panic
            | None, Some r => mret (r, false)
            | Some l, None => mret (l, true)
            | Some l, Some r =>
                nl ← load l; nr ← load r;
                mret (if tn_priority nr <=? tn_priority nl then (l, true) else (r, false))
            end;
          child ← (if immutable then cloneTreapNode child else mret child);
          c ← load child;
          _ ← (if (isLeft : bool) then
                 _ ← set_right child (Some node); set_left node (tn_right c)
               else _ ← set_left child (Some node); set_right node (tn_left c));
          root ← relinkGrandparent child node parent root;
          sink fuel immutable node (Some child) root
      end
  end.

(** The removal of a leaf from its parent. *)
Definition unlink (parent node : nat) : M unit :=
  p ← load parent;
  if decide (tn_right p = Some node) then set_right parent None else set_left parent None.

(** The walk to the smallest node, pushing the nodes on the way. *)
Fixpoint push_left (fuel : nat) (node : pointer) (parents : parentStack) : M parentStack :=
  match node with
  | None => mret parents
  | Some x =>
      match fuel with
      | O => panic
      | S fuel => n ← load x; push_left fuel (tn_left n) (stack_Push x parents)
      end
  end.

(** [ForEach], with a function that changes some state and tells whether to go on. *)
Fixpoint for_each {S} (fuel : nat) (fn : bytes -> bytes -> S -> M (S * bool)) (parents : parentStack) (st : S) : M S :=
  if decide (stack_Len parents = 0%nat) then mret st
  else
  match fuel with
  | O => panic
  | Datatypes.S fuel =>
      let '(node, parents) := stack_Pop parents in
      x ← deref node;
      n ← load x;
      '(st, go_on) ← fn (tn_key n) (tn_value n) st;
      if negb go_on then mret st
      else
      f ← Treap.fuel;
      parents ← push_left f (tn_right n) parents;
      for_each fuel fn parents st
  end.

Definition treap_ForEach {S} (fn : bytes -> bytes -> S -> M (S * bool)) (root : pointer) (st : S) : M S :=
  f ← fuel;
  parents ← push_left f root empty_stack;
  for_each f fn parents st.

Definition value_of (value : option bytes) : bytes := default [] value.

(** * The mutable treap *)

Record Mutable := { mt_root : pointer; mt_count : Z; mt_totalSize : Z }.

Definition NewMutable : Mutable := {| mt_root := None; mt_count := 0; mt_totalSize := 0 |}.
Definition mutable_Reset (t : Mutable) : Mutable := NewMutable.

(** The node of a key and its parent. *)
Fixpoint get_loop (fuel : nat) (key : bytes) (node parent : pointer) : M (pointer * pointer) :=
  match node with
  | None => mret (None, None)
  | Some x =>
      match fuel with
      | O => panic
      | S fuel =>
          n ← load x;
          match Compare key (tn_key n) with
          | Lt => get_loop fuel key (tn_left n) (Some x)
          | Gt => get_loop fuel key (tn_right n) (Some x)
          | Eq => mret (Some x, parent)
          end
      end
  end.

Definition get_node (key : bytes) (root : pointer) : M (pointer * pointer) := f ← fuel; get_loop f key root None.
Definition treap_Has (key : bytes) (root : pointer) : M bool := '(node, _) ← get_node key root; mret (bool_decide (is_Some node)).
Definition treap_Get (key : bytes) (root : pointer) : M (option bytes) :=
  '(node, _) ← get_node key root;
  match node with None => mret None | Some x => n ← load x; mret (Some (tn_value n)) end.

Definition mutable_Len (t : Mutable) : Z := mt_count t.
Definition mutable_Size (t : Mutable) : Z := mt_totalSize t.
Definition mutable_Has (key : bytes) (t : Mutable) : M bool := treap_Has key (mt_root t).
Definition mutable_Get (key : bytes) (t : Mutable) : M (option bytes) := treap_Get key (mt_root t).

Definition mutable_Put (priority : Z) (key : bytes) (value : option bytes) (t : Mutable) : M Mutable :=
  let value := value_of value in
  match mt_root t with
  | None =>
      x ← newTreapNode key value priority;
      n ← load x;
      mret {| mt_root := Some x; mt_count := 1; mt_totalSize := nodeSize n |}
  | Some root =>
      f ← fuel;
      '(parents, compareResult, found) ← descend f key (Some root) empty_stack Eq;
      match found with
      | Some x =>
          n ← load x;
          _ ← write_node x (with_value value n);
          mret {| mt_root := mt_root t; mt_count := mt_count t;
                  mt_totalSize := uwrap 64 (uwrap 64 (mt_totalSize t - len (tn_value n)) + len value) |}
      | None =>
          x ← newTreapNode key value priority;
          n ← load x;
          parent ← deref (stack_At 0 parents);
          _ ← attach compareResult parent x;
          root ← rotate_up (stack_Len parents) x parents (Some root);
          mret {| mt_root := root; mt_count := swrap 64 (mt_count t + 1); mt_totalSize := uwrap 64 (mt_totalSize t + nodeSize n) |}
      end
  end.

Definition mutable_Delete (key : bytes) (t : Mutable) : M Mutable :=
  '(node, parent) ← get_node key (mt_root t);
  match node with
  | None => mret t
  | Some x =>
      n ← load x;
      match parent, tn_left n, tn_right n with
      | None, None, None => mret NewMutable
      | _, _, _ =>
          f ← fuel;
          '(parent, root) ← sink f false x parent (mt_root t);
          parent ← deref parent;
          _ ← unlink parent x;
          mret {| mt_root := root; mt_count := swrap 64 (mt_count t - 1); mt_totalSize := uwrap 64 (mt_totalSize t - nodeSize n) |}
      end
  end.

Definition mutable_ForEach {S} (fn : bytes -> bytes -> S -> M (S * bool)) (t : Mutable) : S -> M S := treap_ForEach fn (mt_root t).

(** * The immutable treap *)

Record Immutable := { im_root : pointer; im_count : Z; im_totalSize : Z }.

Definition NewImmutable : Immutable := {| im_root := None; im_count := 0; im_totalSize := 0 |}.
Definition immutable_Len (t : Immutable) : Z := im_count t.
Definition immutable_Size (t : Immutable) : Z := im_totalSize t.

Definition immutable_Has (key : bytes) (t : Immutable) : M bool := treap_Has key (im_root t).
Definition immutable_Get (key : bytes) (t : Immutable) : M (option bytes) := treap_Get key (im_root t).

(** A copy of a node is made the child of the copy of its parent. *)
Definition link_copy (oldParent : pointer) (node copy : nat) : M unit :=
  match oldParent with
  | None => mret tt
  | Some p =>
      n ← load p;
      if decide (tn_left n = Some node) then set_left p (Some copy) else set_right p (Some copy)
  end.

(** The walk down to a key, over copies. *)
Fixpoint descend_copy (fuel : nat) (key : bytes) (node : pointer) (parents : parentStack) (compareResult : comparison)
    : M (parentStack * comparison * pointer) :=
  match node with
  | None => mret (parents, compareResult, None)
  | Some x =>
      match fuel with
      | O => panic
      | S fuel =>
          nodeCopy ← cloneTreapNode x;
          _ ← link_copy (stack_At 0 parents) x nodeCopy;
          let parents := stack_Push nodeCopy parents in
          n ← load x;
          match Compare key (tn_key n) with
          | Lt => descend_copy fuel key (tn_left n) parents Lt
          | Gt => descend_copy fuel key (tn_right n) parents Gt
          | Eq => mret (parents, Eq, Some nodeCopy)
          end
      end
  end.

Definition stack_Bottom (s : parentStack) : pointer := stack_At (Z.of_nat (stack_Len s) - 1) s.

Definition immutable_Put (priority : Z) (key : bytes) (value : option bytes) (t : Immutable) : M Immutable :=
  let value := value_of value in
  match im_root t with
  | None =>
      x ← newTreapNode key value priority;
      n ← load x;
      mret {| im_root := Some x; im_count := 1; im_totalSize := nodeSize n |}
  | Some root =>
      f ← fuel;
      '(parents, compareResult, found) ← descend_copy f key (Some root) empty_stack Eq;
      match found with
      | Some x =>
          n ← load x;
          _ ← write_node x (with_value value n);
          mret {| im_root := stack_Bottom parents; im_count := im_count t;
                  im_totalSize := uwrap 64 (uwrap 64 (im_totalSize t - len (tn_value n)) + len value) |}
      | None =>
          x ← newTreapNode key value priority;
          n ← load x;
          parent ← deref (stack_At 0 parents);
          _ ← attach compareResult parent x;
          root ← rotate_up (stack_Len parents) x parents (stack_Bottom parents);
          mret {| im_root := root; im_count := swrap 64 (im_count t + 1); im_totalSize := uwrap 64 (im_totalSize t + nodeSize n) |}
      end
  end.

(** The copies of the first [i] parents, from the root down. *)
Fixpoint copy_parents (i : nat) (parents newParents : parentStack) : M parentStack :=
  match i with
  | O => mret newParents
  | S i =>
      node ← deref (stack_At (Z.of_nat i) parents);
      nodeCopy ← cloneTreapNode node;
      _ ← link_copy (stack_At 0 newParents) node nodeCopy;
      copy_parents i parents (stack_Push nodeCopy newParents)
  end.

Definition immutable_Delete (key : bytes) (t : Immutable) : M Immutable :=
  f ← fuel;
  '(parents, _, delNode) ← descend f key (im_root t) empty_stack Eq;
  match delNode with
  | None => mret t
  | Some x =>
      n ← load x;
      match stack_At 1 parents, tn_left n, tn_right n with
      | None, None, None => mret NewImmutable
      | _, _, _ =>
          newParents ← copy_parents (stack_Len parents) parents empty_stack;
          let '(delNode, newParents) := stack_Pop newParents in
          delNode ← deref delNode;
          '(parent, root) ← sink f true delNode (stack_At 0 newParents) (stack_Bottom newParents);
          parent ← deref parent;
          _ ← unlink parent delNode;
          mret {| im_root := root; im_count := swrap 64 (im_count t - 1); im_totalSize := uwrap 64 (im_totalSize t - nodeSize n) |}
      end
  end.

Definition immutable_ForEach {S} (fn : bytes -> bytes -> S -> M (S * bool)) (t : Immutable) : S -> M S := treap_ForEach fn (im_root t).
