(* ===== verification/TreapIter.v ===== *)
(** Model of database/internal/treap/treapiter.go: iterators over the nodes of a treap, forwards
    and backwards, in a range of keys.

    An iterator keeps the root it was made with; one over a mutable treap is told about changes
    by [ForceReseek], which is given the treap. *)

From stdpp Require Import gmap.
From S2P Require Import Prelude Treap.

Record Iterator := {
  it_mutable : bool; it_root : pointer; it_node : pointer; it_parents : parentStack; it_isNew : bool;
  it_seekKey : option bytes; it_startKey : option bytes; it_limitKey : option bytes
}.

Definition position (node : pointer) (parents : parentStack) (it : Iterator) : Iterator :=
  {| it_mutable := it_mutable it; it_root := it_root it; it_node := node; it_parents := parents; it_isNew := it_isNew it;
     it_seekKey := it_seekKey it; it_startKey := it_startKey it; it_limitKey := it_limitKey it |}.
Definition not_new (it : Iterator) : Iterator :=
  {| it_mutable := it_mutable it; it_root := it_root it; it_node := it_node it; it_parents := it_parents it; it_isNew := false;
     it_seekKey := it_seekKey it; it_startKey := it_startKey it; it_limitKey := it_limitKey it |}.
Definition reseek (root : pointer) (seekKey : option bytes) (it : Iterator) : Iterator :=
  {| it_mutable := it_mutable it; it_root := root; it_node := it_node it; it_parents := it_parents it; it_isNew := it_isNew it;
     it_seekKey := seekKey; it_startKey := it_startKey it; it_limitKey := it_limitKey it |}.

Definition newIterator (mutable : bool) (startKey limitKey : option bytes) (root : pointer) : Iterator :=
  {| it_mutable := mutable; it_root := root; it_node := None; it_parents := empty_stack; it_isNew := true;
     it_seekKey := None; it_startKey := startKey; it_limitKey := limitKey |}.
Definition mutable_Iterator (startKey limitKey : option bytes) (t : Mutable) : Iterator :=
  newIterator true startKey limitKey (mt_root t).
Definition immutable_Iterator (startKey limitKey : option bytes) (t : Immutable) : Iterator :=
  newIterator false startKey limitKey (im_root t).

(** A key outside of the range of the iterator. *)
Definition out_of_range (it : Iterator) (key : bytes) : bool :=
  match it_startKey it with Some start => bool_decide (Compare key start = Lt) | None => false end ||
  match it_limitKey it with Some limit => negb (bool_decide (Compare key limit = Lt)) | None => false end.

Definition limitIterator (it : Iterator) : M (Iterator * bool) :=
  match it_node it with
  | None => mret (it, false)
  | Some x =>
      n ← load x;
      mret (if out_of_range it (tn_key n) then (position None (it_parents it) it, false) else (it, true))
  end.

(** ** Positions *)

Fixpoint pop_parents (n : nat) (s : parentStack) : parentStack :=
  match n with O => s | S n => pop_parents n (snd (stack_Pop s)) end.

(** The walk down of [seek]: the parents, the node selected and its depth, and whether the key
    itself was found and asked for. *)
Fixpoint seek_loop (fuel : nat) (key : bytes) (exactMatch greater : bool) (node : pointer) (parents : parentStack)
    (selected : pointer) (depth : nat) : M (parentStack * pointer * nat * bool) :=
  match node with
  | None => mret (parents, selected, depth, false)
  | Some x =>
      match fuel with
      | O => panic
      | S fuel =>
          let parents := stack_Push x parents in
          n ← load x;
          match Compare key (tn_key n) with
          | Lt =>
              let '(selected, depth) := if greater then (Some x, (stack_Len parents - 1)%nat) else (selected, depth) in
              seek_loop fuel key exactMatch greater (tn_left n) parents selected depth
          | Gt =>
              let '(selected, depth) := if greater then (selected, depth) else (Some x, (stack_Len parents - 1)%nat) in
              seek_loop fuel key exactMatch greater (tn_right n) parents selected depth
          | Eq =>
              if exactMatch then mret (snd (stack_Pop parents), Some x, depth, true)
              else seek_loop fuel key exactMatch greater (if greater then tn_right n else tn_left n) parents selected depth
          end
      end
  end.

Definition seek (key : bytes) (exactMatch greater : bool) (it : Iterator) : M (Iterator * bool) :=
  f ← fuel;
  '(parents, node, depth, exact) ← seek_loop f key exactMatch greater (it_root it) empty_stack None 0;
  let parents := if (exact : bool) then parents else pop_parents (stack_Len parents - depth) parents in
  limitIterator (position node parents it).

Definition child_of (leftmost : bool) (n : treapNode) : pointer := if leftmost then tn_left n else tn_right n.

(** The walk to the first or the last node. *)
Fixpoint edge_loop (fuel : nat) (leftmost : bool) (node : nat) (parents : parentStack) : M (nat * parentStack) :=
  match fuel with
  | O => panic
  | S fuel =>
      n ← load node;
      match child_of leftmost n with
      | None => mret (node, parents)
      | Some child => edge_loop fuel leftmost child (stack_Push node parents)
      end
  end.

Definition edge (leftmost : bool) (it : Iterator) : M (Iterator * bool) :=
  match it_root it with
  | None => mret (position (it_node it) empty_stack it, false)
  | Some root =>
      f ← fuel;
      '(node, parents) ← edge_loop f leftmost root empty_stack;
      mret (position (Some node) parents it, true)
  end.

Definition First (it : Iterator) : M (Iterator * bool) :=
  let it := not_new it in
  match it_startKey it with Some start => seek start true true it | None => edge true it end.

Definition Last (it : Iterator) : M (Iterator * bool) :=
  let it := not_new it in
  match it_limitKey it with Some limit => seek limit false false it | None => edge false it end.

Definition Seek (key : bytes) (it : Iterator) : M (Iterator * bool) := seek key true true (not_new it).

(** ** Moves *)

(** The walk up while a node is the child of its parent on the side the iterator moves to. *)
Fixpoint climb (fuel : nat) (forwards : bool) (node : nat) (parent : pointer) (parents : parentStack) : M (pointer * parentStack) :=
  match parent with
  | None => mret (None, parents)
  | Some p =>
      n ← load p;
      if decide (child_of (negb forwards) n = Some node) then
        match fuel with
        | O => panic
        | S fuel => let '(parent', parents) := stack_Pop parents in climb fuel forwards p parent' parents
        end
      else mret (Some p, parents)
  end.

Definition move (forwards : bool) (it : Iterator) : M (Iterator * bool) :=
  if it_isNew it then (if forwards then First it else Last it)
  else
  match it_node it with
  | None => mret (it, false)
  | Some x =>
      match it_seekKey it with
      | Some seekKey => seek seekKey false forwards (reseek (it_root it) None it)
      | None =>
          n ← load x;
          match child_of (negb forwards) n with
          | None =>
              let '(parent, parents) := stack_Pop (it_parents it) in
              '(node, parents) ← climb (stack_Len (it_parents it)) forwards x parent parents;
              limitIterator (position node parents it)
          | Some child =>
              f ← fuel;
              '(node, parents) ← edge_loop f forwards child (stack_Push x (it_parents it));
              limitIterator (position (Some node) parents it)
          end
      end
  end.

Definition Next : Iterator -> M (Iterator * bool) := move true.
Definition Prev : Iterator -> M (Iterator * bool) := move false.

Definition iter_Valid (it : Iterator) : bool := bool_decide (is_Some (it_node it)).
Definition iter_Key (it : Iterator) : M (option bytes) :=
  match it_node it with None => mret None | Some x => n ← load x; mret (Some (tn_key n)) end.
Definition iter_Value (it : Iterator) : M (option bytes) :=
  match it_node it with None => mret None | Some x => n ← load x; mret (Some (tn_value n)) end.

Definition ForceReseek (t : Mutable) (it : Iterator) : M Iterator :=
  if negb (it_mutable it) then mret it
  else
  key ← iter_Key it;
  mret (reseek (mt_root t) key it).
