(* ===== verification/TreapStore.v ===== *)
(** Trees of addresses and contexts, what it means that a store holds a treap, the stack of
    parents as a list, and the order of keys. *)

From stdpp Require Import gmap sorting.
From S2P Require Import Prelude Treap.

(** * The order of keys *)

Definition key_lt (a b : bytes) : Prop := Compare a b = Lt.

#[export] Instance key_lt_dec : RelDecision key_lt.
Proof. intros a b. unfold key_lt. apply _. Defined.

Lemma Compare_refl a : Compare a a = Eq.
Proof. induction a as [|x a IH]; cbn; [done|]. by rewrite Z.compare_refl. Qed.

Lemma Compare_Eq a b : Compare a b = Eq -> a = b.
Proof.
  revert b. induction a as [|x a IH]; intros [|y b]; cbn; try done.
  destruct (Z.compare_spec (byte.unsigned x) (byte.unsigned y)) as [E|?|?]; try done.
  intros H. f_equal; [|by apply IH]. by apply byte.unsigned_inj.
Qed.

Lemma Compare_sym a b : Compare b a = CompOpp (Compare a b).
Proof.
  revert b. induction a as [|x a IH]; intros [|y b]; cbn; try done.
  rewrite Z.compare_antisym. destruct (byte.unsigned x ?= byte.unsigned y); cbn; [apply IH|done|done].
Qed.

Lemma Compare_Gt a b : Compare a b = Gt <-> key_lt b a.
Proof. unfold key_lt. rewrite (Compare_sym a b). destruct (Compare a b); cbn; split; congruence. Qed.

Lemma key_lt_trans a b c : key_lt a b -> key_lt b c -> key_lt a c.
Proof.
  unfold key_lt. revert b c. induction a as [|x a IH]; intros [|y b] [|z c]; cbn; try done.
  destruct (Z.compare_spec (byte.unsigned x) (byte.unsigned y)) as [E|E|E], (Z.compare_spec (byte.unsigned y) (byte.unsigned z)) as [E'|E'|E']; try done; intros H1 H2;
    destruct (Z.compare_spec (byte.unsigned x) (byte.unsigned z)); try lia; try done. by eapply IH.
Qed.

Lemma key_lt_irrefl a : ~ key_lt a a.
Proof. unfold key_lt. by rewrite Compare_refl. Qed.

#[export] Instance key_lt_strict : StrictOrder key_lt.
Proof. split; [exact key_lt_irrefl|exact key_lt_trans]. Qed.

Definition key_cmp a b : {key_lt a b} + {a = b} + {key_lt b a}.
Proof.
  destruct (Compare a b) eqn:E; [left; right; by apply Compare_Eq|left; left; exact E|right; by apply Compare_Gt].
Defined.

(** * Stacks of parents as lists, the top first *)

Definition slot (s : parentStack) (i : nat) : pointer :=
  if decide (i < staticDepth)%nat then default None (ps_items s !! i) else default None (ps_overflow s !! (i - staticDepth)%nat).

Definition stack_is (s : parentStack) (l : list nat) : Prop :=
  ps_index s = length l /\ length (ps_items s) = staticDepth /\ (length l - staticDepth <= length (ps_overflow s))%nat /\
  forall i, slot s i = reverse l !! i.

#[local] Opaque staticDepth.

Lemma stack_is_empty : stack_is empty_stack [].
Proof.
  unfold stack_is, slot, empty_stack. cbn [ps_index ps_items ps_overflow length]. split_and!; [done|by rewrite length_replicate|lia|].
  intros i. destruct (decide (i < staticDepth)%nat) as [Hi|Hi]; [|done].
  rewrite (proj2 (lookup_replicate _ _ _ _)) by done. done.
Qed.

Lemma rev_cons_lookup {A} (x : A) l i : reverse (x :: l) !! i = if decide (i = length l) then Some x else reverse l !! i.
Proof.
  rewrite reverse_cons. destruct (decide (i = length l)) as [->|Hi].
  - rewrite lookup_app_r by (rewrite length_reverse; lia). rewrite length_reverse, Nat.sub_diag. done.
  - destruct (decide (i < length l)%nat); [by rewrite lookup_app_l by (rewrite length_reverse; lia)|].
    rewrite !lookup_ge_None_2; rewrite ?length_app, ?length_reverse; cbn; (done || lia).
Qed.

Lemma default_insert (l : list pointer) i j v : (i < length l)%nat ->
  default None (<[i := v]> l !! j) = if decide (j = i) then v else default None (l !! j).
Proof.
  intros Hi. destruct (decide (j = i)) as [->|Hne]; [by rewrite list_lookup_insert_eq by done|by rewrite list_lookup_insert_ne by done].
Qed.

Lemma stack_is_Push s l x : stack_is s l -> stack_is (stack_Push x s) (x :: l).
Proof.
  intros (Hi & Hl & Ho & Hs). unfold stack_Push. rewrite Hi.
  destruct (decide (length l < staticDepth)%nat) as [Hd|Hd]; unfold stack_is; cbn [ps_index ps_items ps_overflow length].
  - split_and!; [done|by rewrite length_insert|lia|]. intros i. specialize (Hs i). unfold slot in *. cbn [ps_items ps_overflow].
    rewrite rev_cons_lookup. destruct (decide (i < staticDepth)%nat) as [Hlt|Hge].
    + rewrite default_insert by lia. by destruct (decide (i = length l)).
    + by rewrite decide_False by lia.
  - set (ov := if decide _ then _ else _).
    assert (Hov : (length l - staticDepth < length ov)%nat /\ forall j, default None (ov !! j) = default None (ps_overflow s !! j)).
    { unfold ov. destruct (decide _) as [Hlt|Hge]; [|split; [lia|done]]. rewrite length_app, length_replicate. split; [lia|]. intros j.
      destruct (decide (j < length (ps_overflow s))%nat); [by rewrite lookup_app_l by done|].
      rewrite lookup_app_r, (lookup_ge_None_2 (ps_overflow s)) by lia. cbn [default].
      destruct (replicate _ None !! _) as [p|] eqn:E; [|done]. apply lookup_replicate in E as [-> _]. done. }
    destruct Hov as [Hlen Hdef]. split_and!; [done|done|rewrite length_insert; lia|]. intros i. specialize (Hs i).
    unfold slot in *. cbn [ps_items ps_overflow]. rewrite rev_cons_lookup. destruct (decide (i < staticDepth)%nat) as [Hlt|Hge].
    + by rewrite decide_False by lia.
    + rewrite default_insert by done. rewrite Hdef, Hs. destruct (decide (i - staticDepth = length l - staticDepth)%nat), (decide (i = length l)); (done || lia).
Qed.

Lemma stack_is_Pop s l : stack_is s l -> exists s', stack_Pop s = (head l, s') /\ stack_is s' (tail l).
Proof.
  intros (Hi & Hl & Ho & Hs). unfold stack_Pop. rewrite Hi. destruct l as [|x l]; cbn [length head tail].
  { eexists. split; [done|]. by split_and!. }
  cbn [length] in *. pose proof (Hs (length l)) as Hx. rewrite rev_cons_lookup, decide_True in Hx by done. unfold slot in Hx.
  destruct (decide (length l < staticDepth)%nat) as [Hd|Hd]; rewrite Hx; eexists; (split; [done|]);
    unfold stack_is; cbn [ps_index ps_items ps_overflow]; (split_and!; [done|by rewrite ?length_insert|rewrite ?length_insert; lia|]);
    intros i; specialize (Hs i); unfold slot in *; cbn [ps_items ps_overflow]; rewrite rev_cons_lookup in Hs.
  - destruct (decide (i < staticDepth)%nat) as [Hlt|Hge].
    + rewrite default_insert by lia. destruct (decide (i = length l)) as [->|]; [|done]. by rewrite lookup_ge_None_2 by (rewrite length_reverse; lia).
    + by rewrite decide_False in Hs by lia.
  - destruct (decide (i < staticDepth)%nat) as [Hlt|Hge].
    + by rewrite decide_False in Hs by lia.
    + rewrite default_insert by lia. destruct (decide (i - staticDepth = length l - staticDepth)%nat), (decide (i = length l)); try lia; [|done].
      by rewrite lookup_ge_None_2 by (rewrite length_reverse; lia).
Qed.

Lemma stack_At_slot s n : - 1 <= n -> stack_At n s = if decide (Z.of_nat (ps_index s) <= n) then None else slot s (Z.to_nat (Z.of_nat (ps_index s) - n - 1)).
Proof.
  intros Hn. unfold stack_At, slot. destruct (Z.ltb_spec (Z.of_nat (ps_index s) - n - 1) 0), (decide (Z.of_nat (ps_index s) <= n)); try lia; [done|].
  destruct (Z.ltb_spec (Z.of_nat (ps_index s) - n - 1) (Z.of_nat staticDepth)), (decide (Z.to_nat (Z.of_nat (ps_index s) - n - 1) < staticDepth)%nat); (done || lia).
Qed.

Lemma stack_is_At s l (n : nat) : stack_is s l -> stack_At (Z.of_nat n) s = l !! n.
Proof.
  intros (Hi & Hl & Ho & Hs). rewrite stack_At_slot, Hi by lia. destruct (decide _) as [Hle|Hgt].
  - by rewrite lookup_ge_None_2 by lia.
  - rewrite Hs, reverse_lookup by lia. f_equal. lia.
Qed.

Lemma stack_is_Bottom s l : stack_is s l -> stack_Bottom s = last l.
Proof.
  intros H. unfold stack_Bottom, stack_Len. pose proof H as (Hi & Hl & Ho & Hs). rewrite Hi. destruct l as [|x l].
  - change (Z.of_nat (length (@nil nat)) - 1) with (-1). rewrite stack_At_slot, Hi by lia. rewrite decide_False by (cbn; lia). by rewrite Hs.
  - replace (Z.of_nat (length (x :: l)) - 1) with (Z.of_nat (length l)) by (cbn; lia).
    rewrite (stack_is_At s (x :: l)) by done. by rewrite last_lookup.
Qed.

Lemma stack_is_Len s l : stack_is s l -> stack_Len s = length l.
Proof. by intros (Hi & _). Qed.

(** * Trees of addresses *)

Inductive tree := E | T (l : tree) (x : nat) (k v : bytes) (p : Z) (r : tree).

Definition ptr (t : tree) : pointer := match t with E => None | T _ x _ _ _ _ => Some x end.

Definition cell (k v : bytes) (p : Z) (l r : pointer) : treapNode :=
  {| tn_key := k; tn_value := v; tn_priority := p; tn_left := l; tn_right := r |}.

(** The cells of a store hold a tree. *)
Fixpoint rep (c : gmap nat treapNode) (t : tree) : Prop :=
  match t with
  | E => True
  | T l x k v p r => c !! x = Some (cell k v p (ptr l) (ptr r)) /\ rep c l /\ rep c r
  end.

Fixpoint locs (t : tree) : list nat :=
  match t with E => [] | T l x _ _ _ r => x :: locs l ++ locs r end.

Fixpoint inorder (t : tree) : list (bytes * bytes) :=
  match t with E => [] | T l _ k v _ r => inorder l ++ (k, v) :: inorder r end.

(** The tree without its addresses. *)
Fixpoint strip (t : tree) : tree :=
  match t with E => E | T l _ k v p r => T (strip l) 0 k v p (strip r) end.

Lemma inorder_strip t : inorder (strip t) = inorder t.
Proof. induction t as [|l IHl x k v p r IHr]; cbn; [done|]. by rewrite IHl, IHr. Qed.

Lemma strip_inorder t t' : strip t = strip t' -> inorder t = inorder t'.
Proof. intros H. by rewrite <-inorder_strip, H, inorder_strip. Qed.

Lemma length_locs t : length (locs t) = length (inorder t).
Proof. induction t as [|l IHl x k v p r IHr]; cbn; [done|]. rewrite !length_app. cbn. lia. Qed.

(** ** Contexts: the way down to a subtree, the last step first *)

Inductive frame := L (x : nat) (k v : bytes) (p : Z) (r : tree) | R (l : tree) (x : nat) (k v : bytes) (p : Z).

Definition fill (f : frame) (t : tree) : tree := match f with L x k v p r => T t x k v p r | R l x k v p => T l x k v p t end.
Definition frame_loc (f : frame) : nat := match f with L x _ _ _ _ | R _ x _ _ _ => x end.
Definition sibling (f : frame) : tree := match f with L _ _ _ _ r => r | R l _ _ _ _ => l end.
Definition frame_cell (f : frame) (hole : pointer) : treapNode :=
  match f with L _ k v p r => cell k v p hole (ptr r) | R l _ k v p => cell k v p (ptr l) hole end.
Definition strip_frame (f : frame) : frame :=
  match f with L _ k v p r => L 0 k v p (strip r) | R l _ k v p => R (strip l) 0 k v p end.
Definition frame_priority (f : frame) : Z := match f with L _ _ _ p _ | R _ _ _ _ p => p end.

Fixpoint plug (c : list frame) (t : tree) : tree := match c with [] => t | f :: c => plug c (fill f t) end.

Fixpoint rep_ctx (h : gmap nat treapNode) (c : list frame) (hole : pointer) : Prop :=
  match c with
  | [] => True
  | f :: c => h !! frame_loc f = Some (frame_cell f hole) /\ rep h (sibling f) /\ rep_ctx h c (Some (frame_loc f))
  end.

Fixpoint ctx_locs (c : list frame) : list nat :=
  match c with [] => [] | f :: c => frame_loc f :: locs (sibling f) ++ ctx_locs c end.

(** What comes before and after the hole. *)
Fixpoint lefts (c : list frame) : list (bytes * bytes) :=
  match c with [] => [] | L _ _ _ _ _ :: c => lefts c | R l _ k v _ :: c => lefts c ++ inorder l ++ [(k, v)] end.
Fixpoint rights (c : list frame) : list (bytes * bytes) :=
  match c with [] => [] | L _ k v _ r :: c => (k, v) :: inorder r ++ rights c | R _ _ _ _ _ :: c => rights c end.

Lemma ptr_fill f t : ptr (fill f t) = Some (frame_loc f).
Proof. by destruct f. Qed.

Lemma rep_fill h f t : rep h (fill f t) <-> h !! frame_loc f = Some (frame_cell f (ptr t)) /\ rep h (sibling f) /\ rep h t.
Proof. destruct f; cbn; tauto. Qed.

Lemma rep_plug h c t : rep h (plug c t) <-> rep_ctx h c (ptr t) /\ rep h t.
Proof.
  revert t. induction c as [|f c IH]; intros t; cbn [plug rep_ctx]; [tauto|]. rewrite IH, rep_fill, ptr_fill. tauto.
Qed.

Lemma locs_fill f t : locs (fill f t) ≡ₚ frame_loc f :: locs (sibling f) ++ locs t.
Proof. destruct f; cbn; [|done]. by rewrite (Permutation_app_comm (locs t)). Qed.

Lemma locs_plug c t : locs (plug c t) ≡ₚ ctx_locs c ++ locs t.
Proof.
  revert t. induction c as [|f c IH]; intros t; cbn [plug ctx_locs]; [done|]. rewrite IH, locs_fill. cbn. rewrite <-Permutation_middle.
  apply Permutation_skip. rewrite app_assoc, (Permutation_app_comm (ctx_locs c)), <-!app_assoc. done.
Qed.

Lemma inorder_plug c t : inorder (plug c t) = lefts c ++ inorder t ++ rights c.
Proof.
  revert t. induction c as [|[x k v p r|l x k v p] c IH]; intros t; cbn [plug lefts rights fill]; [by rewrite app_nil_r| |];
    rewrite IH; cbn [inorder]; rewrite <-!app_assoc; done.
Qed.

Lemma strip_fill f t : strip (fill f t) = fill (strip_frame f) (strip t).
Proof. by destruct f. Qed.

Lemma strip_plug c t : strip (plug c t) = plug (map strip_frame c) (strip t).
Proof. revert t. induction c as [|f c IH]; intros t; cbn [plug map]; [done|]. by rewrite IH, strip_fill. Qed.

Lemma plug_app c c' t : plug (c ++ c') t = plug c' (plug c t).
Proof. revert t. induction c as [|f c IH]; intros t; cbn [app plug]; [done|]. apply IH. Qed.

Lemma ptr_plug_nonempty c t : c <> [] -> ptr (plug c t) = last (map frame_loc c).
Proof.
  revert t. induction c as [|f c IH]; intros t Hc; [done|]. cbn [plug map]. destruct c as [|g c]; [apply ptr_fill|].
  rewrite IH by done. done.
Qed.

(** ** Frame rules *)

Lemma rep_agree h h' t : rep h t -> (forall x, x ∈ locs t -> h' !! x = h !! x) -> rep h' t.
Proof.
  induction t as [|l IHl x k v p r IHr]; cbn; [done|]. intros (H0 & H1 & H2) Ha. split_and!.
  - rewrite Ha by set_solver. done.
  - apply IHl; [done|]. intros; apply Ha; set_solver.
  - apply IHr; [done|]. intros; apply Ha; set_solver.
Qed.

Lemma rep_ctx_agree h h' c hole : rep_ctx h c hole -> (forall x, x ∈ ctx_locs c -> h' !! x = h !! x) -> rep_ctx h' c hole.
Proof.
  revert hole. induction c as [|f c IH]; cbn [rep_ctx ctx_locs]; intros hole; [done|]. intros (H0 & H1 & H2) Ha. split_and!.
  - rewrite Ha by set_solver. done.
  - eapply rep_agree; [done|]. intros; apply Ha; set_solver.
  - eapply IH; [done|]. intros; apply Ha; set_solver.
Qed.

Lemma rep_insert h t x n : x ∉ locs t -> rep h t -> rep (<[x := n]> h) t.
Proof. intros Hx Ht. eapply rep_agree; [done|]. intros y Hy. rewrite lookup_insert_ne; [done|]. by intros ->. Qed.

Lemma rep_ctx_insert h c hole x n : x ∉ ctx_locs c -> rep_ctx h c hole -> rep_ctx (<[x := n]> h) c hole.
Proof. intros Hx Ht. eapply rep_ctx_agree; [done|]. intros y Hy. rewrite lookup_insert_ne; [done|]. by intros ->. Qed.

(** ** Stores *)

Definition store_ok (s : store) : Prop := forall x n, cells s !! x = Some n -> (x < allocated s)%nat.

Lemma rep_locs_dom h t x : rep h t -> x ∈ locs t -> is_Some (h !! x).
Proof.
  induction t as [|l IHl y k v p r IHr]; cbn; [by rewrite elem_of_nil|]. intros (H0 & H1 & H2).
  rewrite elem_of_cons, elem_of_app. intros [->|[Hx|Hx]]; [by eexists|by apply IHl|by apply IHr].
Qed.

Lemma rep_locs_lt s t x : store_ok s -> rep (cells s) t -> x ∈ locs t -> (x < allocated s)%nat.
Proof. intros Hs Ht Hx. destruct (rep_locs_dom _ _ _ Ht Hx) as [n Hn]. by eapply Hs. Qed.

Lemma bounded_NoDup_length (l : list nat) n : NoDup l -> (forall x, x ∈ l -> (x < n)%nat) -> (length l <= n)%nat.
Proof.
  intros Hl Hb. rewrite <-(length_seq n 0). apply submseteq_length, NoDup_submseteq; [done|].
  intros x Hx. apply elem_of_seq. specialize (Hb x Hx). lia.
Qed.

(** A treap in a store: its cells are its own. *)
Definition holds (s : store) (t : tree) : Prop := store_ok s /\ rep (cells s) t /\ NoDup (locs t).

Lemma holds_size s t : holds s t -> (length (locs t) <= allocated s)%nat.
Proof. intros (Hs & Ht & Hn). apply bounded_NoDup_length; [done|]. intros x. by eapply rep_locs_lt. Qed.

Fixpoint depth (t : tree) : nat := match t with E => 0 | T l _ _ _ _ r => S (Nat.max (depth l) (depth r)) end.

Lemma depth_locs t : (depth t <= length (locs t))%nat.
Proof. induction t as [|l IHl x k v p r IHr]; cbn; [done|]. rewrite length_app. lia. Qed.

Lemma holds_depth s t : holds s t -> (depth t <= allocated s)%nat.
Proof. intros H. pose proof (holds_size _ _ H). pose proof (depth_locs t). lia. Qed.

(** ** Steps of the monad *)

Lemma bind_Ok {A B} (m : M A) (k : A -> M B) s a s' : m s = Ok (a, s') -> (m ≫= k) s = k a s'.
Proof. intros H. unfold mbind, M_bind. by rewrite H. Qed.

Lemma load_Ok s x n : cells s !! x = Some n -> load x s = Ok (n, s).
Proof. intros H. unfold load. by rewrite H. Qed.

Definition upd (x : nat) (n : treapNode) (s : store) : store := {| cells := <[x := n]> (cells s); allocated := allocated s |}.

Lemma set_left_Ok s x n p : cells s !! x = Some n -> set_left x p s = Ok (tt, upd x (with_left p n) s).
Proof. intros H. unfold set_left. by rewrite (bind_Ok _ _ _ _ _ (load_Ok _ _ _ H)). Qed.
Lemma set_right_Ok s x n p : cells s !! x = Some n -> set_right x p s = Ok (tt, upd x (with_right p n) s).
Proof. intros H. unfold set_right. by rewrite (bind_Ok _ _ _ _ _ (load_Ok _ _ _ H)). Qed.

Lemma upd_ok s x n : store_ok s -> (x < allocated s)%nat -> store_ok (upd x n s).
Proof. intros Hs Hx y m. cbn. intros [[<- _]|[_ H]]%lookup_insert_Some; [done|by eapply Hs]. Qed.

Lemma alloc_ok s n : store_ok s -> store_ok {| cells := <[allocated s := n]> (cells s); allocated := S (allocated s) |}.
Proof. intros Hs y m. cbn. intros [[<- _]|[_ H]]%lookup_insert_Some; [lia|]. apply Hs in H. lia. Qed.
