(* ===== verification/TreapPut.v ===== *)
(** Lookups and insertions: every operation succeeds on a store that holds a treap, and does
    to the list of its entries, in the order of their keys, what it does to a sorted list; the
    immutable treap writes to new cells only. *)

From stdpp Require Import gmap sorting.
From S2P Require Import Prelude Treap TreapStore.

#[local] Arguments stack_At : simpl never.
#[local] Arguments stack_Push : simpl never.
#[local] Arguments stack_Pop : simpl never.

(** Takes a list without duplicates apart. *)
Ltac nodup_split H := repeat first [rewrite NoDup_cons in H | rewrite NoDup_app in H].

(** * The walk to a key *)

Fixpoint zip (key : bytes) (t : tree) (c : list frame) : list frame * tree :=
  match t with
  | E => (c, E)
  | T l x k v p r =>
      match Compare key k with
      | Lt => zip key l (L x k v p r :: c)
      | Gt => zip key r (R l x k v p :: c)
      | Eq => (c, t)
      end
  end.

Definition dir (f : frame) : comparison := match f with L _ _ _ _ _ => Lt | R _ _ _ _ _ => Gt end.
Definition dir_ok (cr : comparison) (c : list frame) : Prop := match c with [] => True | f :: _ => cr = dir f end.

Lemma zip_plug key t c : plug (fst (zip key t c)) (snd (zip key t c)) = plug c t.
Proof.
  revert c. induction t as [|l IHl x k v p r IHr]; intros c; cbn [zip]; [done|].
  destruct (Compare key k); [done|by rewrite IHl|by rewrite IHr].
Qed.

Lemma zip_found key t c l x k v p r : snd (zip key t c) = T l x k v p r -> k = key.
Proof.
  revert c. induction t as [|l' IHl x' k' v' p' r' IHr]; intros c; cbn [zip]; [done|].
  destruct (Compare key k') eqn:Ek; [|apply IHl|apply IHr]. cbn. intros [= -> -> -> -> -> ->]. symmetry. by apply Compare_Eq.
Qed.

Lemma zip_nonempty key t c : snd (zip key t c) = E -> t <> E \/ c <> [] -> fst (zip key t c) <> [].
Proof.
  revert c. induction t as [|l IHl x k v p r IHr]; intros c; cbn [zip]; [by intros _ [?|?]|].
  destruct (Compare key k); [done|intros H _; apply IHl; [done|by right]|intros H _; apply IHr; [done|by right]].
Qed.

(** What the walk with pointers returns. *)
Definition walked (key : bytes) (t : tree) (c : list frame) (ps : parentStack) (cr : comparison) : Prop :=
  match snd (zip key t c) with
  | E => stack_is ps (map frame_loc (fst (zip key t c))) /\ dir_ok cr (fst (zip key t c))
  | T _ x _ _ _ _ => stack_is ps (x :: map frame_loc (fst (zip key t c)))
  end.

Lemma descend_zip s key t c ps cr f : rep (cells s) t -> stack_is ps (map frame_loc c) -> dir_ok cr c -> (depth t <= f)%nat ->
  exists ps' cr', descend f key (ptr t) ps cr s = Ok (ps', cr', ptr (snd (zip key t c)), s) /\ walked key t c ps' cr'.
Proof.
  revert c ps cr f. induction t as [|l IHl x k v p r IHr]; intros c ps cr f Ht Hps Hcr Hf; cbn [ptr descend zip depth] in *.
  { exists ps, cr. by destruct f. }
  destruct f as [|f]; [lia|]. destruct Ht as (H0 & H1 & H2). cbn [descend].
  rewrite (bind_Ok _ _ _ _ _ (load_Ok _ _ _ H0)). cbn [tn_key cell].
  unfold walked. cbn [zip]. destruct (Compare key k) eqn:Ek.
  - exists (stack_Push x ps), Eq. split; [done|]. cbn. by apply stack_is_Push.
  - apply (IHl (L x k v p r :: c)); [done|by apply stack_is_Push|done|lia].
  - apply (IHr (R l x k v p :: c)); [done|by apply stack_is_Push|done|lia].
Qed.

Lemma get_loop_zip s key t f c : rep (cells s) t -> (depth t <= f)%nat ->
  get_loop f key (ptr t) (head (map frame_loc c)) s =
    Ok (match snd (zip key t c) with E => (None, None) | t' => (ptr t', head (map frame_loc (fst (zip key t c)))) end, s).
Proof.
  revert f c. induction t as [|l IHl x k v p r IHr]; intros f c Ht Hf; cbn [ptr zip depth] in *; [by destruct f|].
  destruct f as [|f]; [lia|]. destruct Ht as (H0 & H1 & H2). cbn [get_loop].
  rewrite (bind_Ok _ _ _ _ _ (load_Ok _ _ _ H0)). cbn [tn_key cell].
  destruct (Compare key k) eqn:Ek; [done| |].
  - apply (IHl f (L x k v p r :: c)); [done|lia].
  - apply (IHr f (R l x k v p :: c)); [done|lia].
Qed.

(** ** Sorted entries *)

Definition sorted (l : list (bytes * bytes)) : Prop := StronglySorted key_lt (map fst l).
Definition below (key : bytes) (l : list (bytes * bytes)) : Prop := Forall (fun e => key_lt (fst e) key) l.
Definition above (key : bytes) (l : list (bytes * bytes)) : Prop := Forall (fun e => key_lt key (fst e)) l.

Lemma sorted_nil : sorted [].
Proof. constructor. Qed.

Lemma sorted_app l l' : sorted (l ++ l') <-> sorted l /\ sorted l' /\ Forall (fun e => above (fst e) l') l.
Proof.
  unfold sorted, above. induction l as [|e l IH]; cbn [map app]; [split; [intros H; split; [constructor|split; [exact H|constructor]]|tauto]|].
  split.
  - intros [Hs Hf]%StronglySorted_inv. rewrite map_app, Forall_app, !Forall_map in Hf. apply IH in Hs as (? & ? & ?).
    destruct Hf as [Hf Hf']. split_and!; [constructor; [done|by rewrite Forall_map]|done|by constructor].
  - intros ([Hs Hf]%StronglySorted_inv & Hs' & Ha). apply Forall_cons in Ha as [Ha Ha']. constructor; [by apply IH|].
    rewrite Forall_map in Hf. rewrite map_app, Forall_app, !Forall_map. done.
Qed.

Lemma sorted_cons e l : sorted (e :: l) <-> above (fst e) l /\ sorted l.
Proof.
  change (e :: l) with ([e] ++ l). rewrite sorted_app. unfold above. rewrite Forall_singleton.
  split; [tauto|]. intros [? ?]. split_and!; first [done|repeat constructor].
Qed.

Lemma sorted_middle l e l' : sorted (l ++ e :: l') <-> below (fst e) l /\ above (fst e) l' /\ sorted (l ++ l').
Proof.
  rewrite !sorted_app, sorted_cons. unfold above, below.
  assert (Hc : Forall (fun x => Forall (fun e' => key_lt (fst x) (fst e')) (e :: l')) l <->
    Forall (fun x => key_lt (fst x) (fst e)) l /\ Forall (fun x => Forall (fun e' => key_lt (fst x) (fst e')) l') l).
  { rewrite <-Forall_and. apply Forall_iff. intros x. by rewrite Forall_cons. }
  rewrite Hc. tauto.
Qed.

Lemma above_trans a b l : key_lt a b -> above b l -> above a l.
Proof. intros Hab Hl. eapply Forall_impl; [exact Hl|]. intros e He. by transitivity b. Qed.
Lemma below_trans a b l : key_lt a b -> below a l -> below b l.
Proof. intros Hab Hl. eapply Forall_impl; [exact Hl|]. intros e He. by transitivity a. Qed.

Lemma zip_sorted key t c : sorted (inorder (plug c t)) -> below key (lefts c) -> above key (rights c) ->
  let '(c', t') := zip key t c in
  below key (lefts c' ++ match t' with E => [] | T l _ _ _ _ r => inorder l end) /\
  above key (match t' with E => [] | T l _ _ _ _ r => inorder r end ++ rights c').
Proof.
  revert c. induction t as [|l IHl x k v p r IHr]; intros c Hs Hl Hr; cbn [zip]; [by rewrite app_nil_r|].
  pose proof Hs as Hs0. rewrite inorder_plug in Hs. cbn [inorder] in Hs. rewrite <-!app_assoc in Hs. cbn [app] in Hs.
  rewrite app_assoc in Hs. apply sorted_middle in Hs as (Hb & Ha & _). cbn [fst] in *.
  destruct (Compare key k) eqn:Ek.
  - apply Compare_Eq in Ek as <-. done.
  - apply IHl; [done|done|]. cbn [rights]. constructor; [done|]. by eapply above_trans.
  - apply Compare_Gt in Ek. apply IHr; [done| |done]. cbn [lefts]. unfold below in *. rewrite app_assoc, Forall_app, Forall_singleton.
    split; [by eapply below_trans|done].
Qed.

(** * Rotations *)

Definition rotate (f : frame) (t : tree) : tree :=
  match f, t with
  | _, E => fill f E
  | L y k v p s, T l x kx vx px r => T l x kx vx px (T r y k v p s)
  | R s y k v p, T l x kx vx px r => T (T s y k v p l) x kx vx px r
  end.

Definition root_priority (t : tree) : Z := match t with E => 0 | T _ _ _ _ p _ => p end.

Fixpoint bubble (c : list frame) (t : tree) : tree :=
  match c with
  | [] => t
  | f :: c' => if frame_priority f <=? root_priority t then plug c t else bubble c' (rotate f t)
  end.

Lemma inorder_rotate f t : inorder (rotate f t) = inorder (fill f t).
Proof. destruct f, t; cbn; rewrite <-?app_assoc; done. Qed.
Lemma locs_rotate f t : locs (rotate f t) ≡ₚ locs (fill f t).
Proof.
  destruct f, t; cbn; try done.
  - rewrite Permutation_swap, <-app_assoc. apply Permutation_skip. by rewrite <-Permutation_middle.
  - rewrite Permutation_swap, <-Permutation_middle. apply Permutation_skip, Permutation_skip. by rewrite app_assoc.
Qed.
Lemma strip_rotate f t : strip (rotate f t) = rotate (strip_frame f) (strip t).
Proof. by destruct f, t. Qed.
Lemma ptr_rotate f t : t <> E -> ptr (rotate f t) = ptr t.
Proof. by destruct f, t. Qed.

Lemma inorder_bubble c t : inorder (bubble c t) = inorder (plug c t).
Proof.
  revert t. induction c as [|f c IH]; intros t; cbn [bubble]; [done|]. destruct (_ <=? _); [done|].
  cbn [plug]. by rewrite IH, !inorder_plug, inorder_rotate.
Qed.
Lemma locs_bubble c t : locs (bubble c t) ≡ₚ locs (plug c t).
Proof.
  revert t. induction c as [|f c IH]; intros t; cbn [bubble]; [done|]. destruct (_ <=? _); [done|].
  cbn [plug]. by rewrite IH, !locs_plug, locs_rotate.
Qed.
Lemma strip_bubble c t : strip (bubble c t) = bubble (map strip_frame c) (strip t).
Proof.
  revert t. induction c as [|f c IH]; intros t; cbn [bubble map]; [done|].
  replace (frame_priority (strip_frame f)) with (frame_priority f) by by destruct f.
  replace (root_priority (strip t)) with (root_priority t) by by destruct t.
  destruct (_ <=? _); [by rewrite strip_plug|]. by rewrite IH, strip_rotate.
Qed.

(** What an operation that writes to some cells and allocates none leaves. *)
Definition only_changes (ws : list nat) (s s' : store) : Prop :=
  allocated s' = allocated s /\ forall y, y ∉ ws -> cells s' !! y = cells s !! y.

Lemma only_changes_refl ws s : only_changes ws s s.
Proof. done. Qed.
Lemma only_changes_trans ws ws' s s' s'' : only_changes ws s s' -> only_changes ws' s' s'' -> only_changes (ws ++ ws') s s''.
Proof.
  intros [A1 H1] [A2 H2]. split; [congruence|]. intros y Hy. rewrite H2, H1; [done|set_solver|set_solver].
Qed.
Lemma only_changes_weaken ws ws' s s' : only_changes ws s s' -> ws ⊆ ws' -> only_changes ws' s s'.
Proof. intros [A H] Hs. split; [done|]. intros y Hy. apply H. set_solver. Qed.
Lemma only_changes_upd x n s : only_changes [x] s (upd x n s).
Proof. split; [done|]. intros y Hy. cbn. rewrite lookup_insert_ne; [done|set_solver]. Qed.
Lemma only_changes_ok ws s s' : store_ok s -> only_changes ws s s' -> (forall y, y ∈ ws -> (y < allocated s)%nat) -> store_ok s'.
Proof.
  intros Hs [A H] Hw y n Hy. rewrite A. destruct (decide (y ∈ ws)) as [Hin|Hout]; [by apply Hw|].
  rewrite H in Hy by done. by eapply Hs.
Qed.

Lemma rep_only_changes ws s s' t : only_changes ws s s' -> rep (cells s) t -> (forall x, x ∈ locs t -> x ∉ ws) -> rep (cells s') t.
Proof. intros [_ H] Ht Hd. eapply rep_agree; [done|]. intros x Hx. apply H. by apply Hd. Qed.
Lemma rep_ctx_only_changes ws s s' c hole : only_changes ws s s' -> rep_ctx (cells s) c hole -> (forall x, x ∈ ctx_locs c -> x ∉ ws) -> rep_ctx (cells s') c hole.
Proof. intros [_ H] Ht Hd. eapply rep_ctx_agree; [done|]. intros x Hx. apply H. by apply Hd. Qed.

(** Relinking makes the new node the hole of the context. *)
Lemma relink_ok s c node parent root :
  rep_ctx (cells s) c (Some parent) -> NoDup (ctx_locs c) -> parent ∉ ctx_locs c ->
  exists s', relinkGrandparent node parent (head (map frame_loc c)) root s =
      Ok (match c with [] => Some node | _ => root end, s') /\
    rep_ctx (cells s') c (Some node) /\ only_changes (option_list (head (map frame_loc c))) s s'.
Proof.
  intros Hc Hn Hp. destruct c as [|f c]; cbn [map head relinkGrandparent option_list].
  { exists s. done. }
  cbn [rep_ctx ctx_locs] in *. destruct Hc as (H0 & H1 & H2). apply NoDup_cons in Hn as [Hf Hn].
  rewrite (bind_Ok _ _ _ _ _ (load_Ok _ _ _ H0)).
  assert (Hw : (if decide (tn_left (frame_cell f (Some parent)) = Some parent)
     then set_left (frame_loc f) (Some node) else set_right (frame_loc f) (Some node)) s = Ok (tt, upd (frame_loc f) (frame_cell f (Some node)) s)).
  { destruct f as [x k v p r|l x k v p]; cbn [frame_cell cell tn_left frame_loc] in *.
    - rewrite decide_True by done. by rewrite (set_left_Ok _ _ _ _ H0).
    - rewrite decide_False; [by rewrite (set_right_Ok _ _ _ _ H0)|]. intros Hl. apply Hp.
      destruct l as [|? y ? ? ? ?]; [done|]. cbn in Hl. injection Hl as ->. cbn. set_solver. }
  rewrite (bind_Ok _ _ _ _ _ Hw). eexists. split; [done|]. split; [|apply only_changes_upd].
  cbn [rep_ctx cells upd]. split_and!; [by rewrite lookup_insert_eq|by apply rep_insert; [set_solver|]|].
  apply rep_ctx_insert; [set_solver|done].
Qed.

(** A rotation in the store, whatever the child the parent points to before. *)
Definition rotation (f : frame) (x : nat) (l r : tree) : M unit :=
  match f with
  | L _ _ _ _ _ => set_right x (Some (frame_loc f)) ≫= fun _ => set_left (frame_loc f) (ptr r)
  | R _ _ _ _ _ => set_left x (Some (frame_loc f)) ≫= fun _ => set_right (frame_loc f) (ptr l)
  end.

Lemma rotation_ok s f q l x k v p r : cells s !! frame_loc f = Some (frame_cell f q) -> rep (cells s) (sibling f) ->
  rep (cells s) (T l x k v p r) -> NoDup (locs (fill f (T l x k v p r))) ->
  exists s', rotation f x l r s = Ok (tt, s') /\ rep (cells s') (rotate f (T l x k v p r)) /\ only_changes [x; frame_loc f] s s'.
Proof.
  intros Hf Hsib (Hx & Hl & Hr) Hn. rewrite locs_fill in Hn.
  assert (Hne : x <> frame_loc f) by (intros ->; apply NoDup_cons in Hn as [Hn _]; apply Hn; cbn; set_solver).
  destruct f as [y ky vy py s1|s1 y ky vy py]; cbn [frame_cell frame_loc sibling cell tn_left rotate rotation] in *.
  - rewrite (bind_Ok _ _ _ _ _ (set_right_Ok _ _ _ _ Hx)). erewrite set_left_Ok by (cbn; by rewrite lookup_insert_ne).
    eexists. split; [done|]. cbn [locs] in Hn. split.
    + cbn [rep cells upd ptr]. rewrite lookup_insert_ne, lookup_insert_eq, lookup_insert_eq by done.
      split_and!; try done; (apply rep_insert; [|apply rep_insert; [|done]]); intros Hin; nodup_split Hn; set_solver.
    + eapply only_changes_weaken; [eapply only_changes_trans; apply only_changes_upd|]. done.
  - rewrite (bind_Ok _ _ _ _ _ (set_left_Ok _ _ _ _ Hx)). erewrite set_right_Ok by (cbn; by rewrite lookup_insert_ne).
    eexists. split; [done|]. cbn [locs] in Hn. split.
    + cbn [rep cells upd ptr]. rewrite lookup_insert_ne, lookup_insert_eq, lookup_insert_eq by done.
      split_and!; try done; (apply rep_insert; [|apply rep_insert; [|done]]); intros Hin; nodup_split Hn; set_solver.
    + eapply only_changes_weaken; [eapply only_changes_trans; apply only_changes_upd|]. done.
Qed.

(** A rotation after the side of the child is found by its address. *)
Lemma rotate_ok s f l x k v p r : rep_ctx (cells s) [f] (Some x) -> rep (cells s) (T l x k v p r) -> NoDup (locs (fill f (T l x k v p r))) ->
  exists s', (if decide (tn_left (frame_cell f (Some x)) = Some x) then
      set_right x (Some (frame_loc f)) ≫= fun _ => set_left (frame_loc f) (ptr r)
    else set_left x (Some (frame_loc f)) ≫= fun _ => set_right (frame_loc f) (ptr l)) s = Ok (tt, s') /\
    rep (cells s') (rotate f (T l x k v p r)) /\ only_changes [x; frame_loc f] s s'.
Proof.
  intros (Hf & Hsib & _) Ht Hn. destruct (rotation_ok s f (Some x) l x k v p r Hf Hsib Ht Hn) as (s' & E1 & H).
  exists s'. split; [|done]. rewrite <-E1. destruct f as [y ky vy py s1|s1 y ky vy py]; cbn [frame_cell frame_loc cell tn_left rotation].
  - by rewrite decide_True.
  - rewrite decide_False; [done|]. intros Hl. rewrite locs_fill in Hn. cbn [sibling frame_loc locs] in Hn. nodup_split Hn.
    destruct s1; [done|]. cbn in Hl, Hn. injection Hl as ->. set_solver.
Qed.

Lemma NoDup_fill_plug c f t : NoDup (ctx_locs (f :: c) ++ locs t) -> NoDup (locs (fill f t)) /\ NoDup (ctx_locs c) /\ NoDup (ctx_locs c ++ locs (rotate f t)).
Proof.
  intros Hn. assert (Hp : ctx_locs (f :: c) ++ locs t ≡ₚ ctx_locs c ++ locs (fill f t)).
  { rewrite <-locs_plug. change (plug (f :: c) t) with (plug c (fill f t)). by rewrite locs_plug. }
  rewrite Hp in Hn. rewrite locs_rotate. split_and!; [|nodup_split Hn; tauto|done]. nodup_split Hn; tauto.
Qed.

Lemma stack_At_head s l : stack_is s l -> stack_At 0 s = head l.
Proof. intros H. pose proof (stack_is_At s l 0 H) as E. change (Z.of_nat 0) with 0 in E. rewrite E. by destruct l. Qed.

Lemma rotate_up_ok c s t ps root f : t <> E ->
  rep_ctx (cells s) c (ptr t) -> rep (cells s) t -> NoDup (ctx_locs c ++ locs t) ->
  stack_is ps (map frame_loc c) -> (length c <= f)%nat -> root = ptr (plug c t) -> forall x, ptr t = Some x ->
  exists s', rotate_up f x ps root s = Ok (ptr (bubble c t), s') /\ rep (cells s') (bubble c t) /\ only_changes (x :: map frame_loc c) s s'.
Proof.
  revert s t ps root f. induction c as [|g c IH]; intros s t ps root f Ht0 Hc Ht Hn Hps Hf -> x Hx.
  { exists s. pose proof (stack_is_Len _ _ Hps) as E. cbn in *. destruct f; cbn [rotate_up]; rewrite decide_True by done; by cbn. }
  destruct f as [|f]; [cbn in Hf; lia|]. cbn [rotate_up]. pose proof (stack_is_Len _ _ Hps) as El. rewrite decide_False by (rewrite El; done).
  destruct (stack_is_Pop _ _ Hps) as (ps' & Epop & Hps'). rewrite Epop. cbn [map head tail deref] in *.
  unfold mret at 1, M_ret at 1. rewrite (bind_Ok _ _ s (frame_loc g) s) by done.
  destruct t as [|l x' k v p r]; [done|]. cbn [ptr] in Hx. injection Hx as ->.
  pose proof Ht as (Hcx & _). destruct Hc as (Hg & Hsib & Hc). cbn [ptr] in *.
  rewrite (bind_Ok _ _ _ _ _ (load_Ok _ _ _ Hcx)), (bind_Ok _ _ _ _ _ (load_Ok _ _ _ Hg)). cbn [bubble root_priority].
  replace (tn_priority (frame_cell g (Some x))) with (frame_priority g) by by destruct g. cbn [tn_priority cell tn_right tn_left].
  destruct (frame_priority g <=? p).
  { exists s. split_and!; [done|apply rep_plug; by split_and!|apply only_changes_refl]. }
  destruct (NoDup_fill_plug _ _ _ Hn) as (Hnf & Hnc & Hnr).
  destruct (rotate_ok s g l x k v p r) as (s1 & E1 & Hr1 & Ch1); [by split_and!|done|done|]. rewrite (bind_Ok _ _ _ _ _ E1).
  rewrite (stack_At_head _ _ Hps'). cbn [ctx_locs] in Hn.
  destruct (relink_ok s1 c x (frame_loc g) (ptr (plug (g :: c) (T l x k v p r)))) as (s2 & E2 & Hc2 & Ch2).
  { eapply rep_ctx_only_changes; [done|done|]. nodup_split Hn. set_solver. }
  { done. }
  { nodup_split Hn. set_solver. }
  rewrite (bind_Ok _ _ _ _ _ E2). assert (Hptr : Some x = ptr (rotate g (T l x k v p r))) by by rewrite ptr_rotate.
  rewrite Hptr in Hc2.
  destruct (IH s2 (rotate g (T l x k v p r)) ps' (match c with [] => Some x | _ => ptr (plug (g :: c) (T l x k v p r)) end) f) with (x := x) as (s3 & E3 & Hr3 & Ch3); [by destruct g|exact Hc2| |exact Hnr|exact Hps'|cbn in Hf; lia| | |].
  { eapply rep_only_changes; [done|done|]. intros y Hy Hin. destruct c as [|g' c]; cbn [map head option_list] in Hin; [set_solver|].
    cbn [ctx_locs] in Hnr. nodup_split Hnr. apply list_elem_of_singleton in Hin as ->. set_solver. }
  { destruct c as [|g' c]; [by cbn [plug]; rewrite ptr_rotate|]. by rewrite !ptr_plug_nonempty. }
  { by rewrite ptr_rotate. }
  exists s3. split; [exact E3|]. split; [done|].
  eapply only_changes_weaken; [eapply only_changes_trans; [exact Ch1|eapply only_changes_trans; [exact Ch2|exact Ch3]]|].
  destruct c; cbn; set_solver.
Qed.

(** * Sorted lists as maps *)

Fixpoint put_entry (key v : bytes) (l : list (bytes * bytes)) : list (bytes * bytes) :=
  match l with
  | [] => [(key, v)]
  | (k, w) :: l' => match Compare key k with Lt => (key, v) :: l | Eq => (key, v) :: l' | Gt => (k, w) :: put_entry key v l' end
  end.

Fixpoint delete_entry (key : bytes) (l : list (bytes * bytes)) : list (bytes * bytes) :=
  match l with
  | [] => []
  | (k, w) :: l' => match Compare key k with Lt => l | Eq => l' | Gt => (k, w) :: delete_entry key l' end
  end.

Fixpoint get_entry (key : bytes) (l : list (bytes * bytes)) : option bytes :=
  match l with
  | [] => None
  | (k, w) :: l' => match Compare key k with Lt => None | Eq => Some w | Gt => get_entry key l' end
  end.

(** At the place of a key. *)
Lemma entry_at_app {X} (f : list (bytes * bytes) -> X) (cons : bytes * bytes -> X -> X) key l1 l2 :
  (forall k w l, Compare key k = Gt -> f ((k, w) :: l) = cons (k, w) (f l)) -> below key l1 -> f (l1 ++ l2) = foldr cons (f l2) l1.
Proof.
  intros Hf Hb. induction Hb as [|[k w] l1 Hk Hb IH]; cbn [app foldr]; [done|]. rewrite Hf by by apply Compare_Gt. by rewrite IH.
Qed.

Lemma foldr_cons {A} (l1 l2 : list A) : foldr cons l2 l1 = l1 ++ l2.
Proof. induction l1; cbn; congruence. Qed.

Lemma put_entry_app key v l1 l2 : below key l1 -> put_entry key v (l1 ++ l2) = l1 ++ put_entry key v l2.
Proof. intros Hb. rewrite (entry_at_app (put_entry key v) cons key) by (done || intros k w l E; cbn; by rewrite E). apply foldr_cons. Qed.
Lemma delete_entry_app key l1 l2 : below key l1 -> delete_entry key (l1 ++ l2) = l1 ++ delete_entry key l2.
Proof. intros Hb. rewrite (entry_at_app (delete_entry key) cons key) by (done || intros k w l E; cbn; by rewrite E). apply foldr_cons. Qed.
Lemma get_entry_app key l1 l2 : below key l1 -> get_entry key (l1 ++ l2) = get_entry key l2.
Proof.
  intros Hb. rewrite (entry_at_app (get_entry key) (fun _ x => x) key) by (done || intros k w l E; cbn; by rewrite E).
  clear Hb. induction l1; cbn; done.
Qed.

Lemma put_entry_above key v l : above key l -> put_entry key v l = (key, v) :: l.
Proof. intros Ha. destruct l as [|[k w] l]; [done|]. apply Forall_cons in Ha as [Hk _]. cbn. unfold key_lt in Hk. cbn in Hk. by rewrite Hk. Qed.
Lemma delete_entry_above key l : above key l -> delete_entry key l = l.
Proof. intros Ha. destruct l as [|[k w] l]; [done|]. apply Forall_cons in Ha as [Hk _]. cbn. unfold key_lt in Hk. cbn in Hk. by rewrite Hk. Qed.
Lemma get_entry_above key l : above key l -> get_entry key l = None.
Proof. intros Ha. destruct l as [|[k w] l]; [done|]. apply Forall_cons in Ha as [Hk _]. cbn. unfold key_lt in Hk. cbn in Hk. by rewrite Hk. Qed.

(** A tree cut at a key. *)
Lemma zip_cut key t : sorted (inorder t) -> let '(c, t') := zip key t [] in
  exists l1 l2, below key l1 /\ above key l2 /\ sorted (l1 ++ l2) /\
  match t' with
  | E => lefts c = l1 /\ rights c = l2 /\ inorder t = l1 ++ l2
  | T l x k v p r => k = key /\ lefts c ++ inorder l = l1 /\ inorder r ++ rights c = l2 /\ inorder t = l1 ++ (key, v) :: l2
  end.
Proof.
  intros Hs. pose proof (zip_sorted key t [] Hs ltac:(constructor) ltac:(constructor)) as Hb.
  pose proof (zip_plug key t []) as Hp. destruct (zip key t []) as [c t'] eqn:Ez. cbn [fst snd plug] in Hp. destruct Hb as [Hb Ha].
  exists (lefts c ++ match t' with E => [] | T l _ _ _ _ _ => inorder l end), (match t' with E => [] | T _ _ _ _ _ r => inorder r end ++ rights c).
  rewrite <-Hp, inorder_plug in Hs. rewrite <-Hp, inorder_plug. destruct t' as [|l x k v p r].
  - rewrite app_nil_r in *. by split_and!.
  - assert (k = key) as -> by (eapply (zip_found key t []); by rewrite Ez). cbn [inorder] in *. rewrite <-!app_assoc in *. cbn [app] in *.
    rewrite app_assoc in Hs. apply sorted_middle in Hs as (_ & _ & Hs). rewrite <-app_assoc in Hs. rewrite app_assoc, <-app_assoc. split_and!; try done.
Qed.

Lemma sorted_put key v l1 l2 : below key l1 -> above key l2 -> sorted (l1 ++ l2) -> sorted (l1 ++ (key, v) :: l2).
Proof. intros. by apply sorted_middle. Qed.

(** ** Counts and sizes *)

Definition entry_size (e : bytes * bytes) : Z := nodeFieldsSize + len (fst e) + len (snd e).
Definition entries_size (l : list (bytes * bytes)) : Z := foldr (fun e z => entry_size e + z) 0 l.

Lemma entries_size_app l1 l2 : entries_size (l1 ++ l2) = entries_size l1 + entries_size l2.
Proof. unfold entries_size. induction l1 as [|e l1 IH]; cbn; lia. Qed.

Lemma nodeSize_cell k v p l r : nodeSize (cell k v p l r) = uwrap 64 (entry_size (k, v)).
Proof. unfold nodeSize, entry_size, uwrap. cbn [tn_key tn_value cell fst snd]. rewrite Zplus_mod_idemp_r. f_equal. lia. Qed.

Lemma uwrap_sum a b w : uwrap w (uwrap w a + uwrap w b) = uwrap w (a + b).
Proof. unfold uwrap. by rewrite <-Zplus_mod. Qed.
Lemma uwrap_sub a b w : uwrap w (uwrap w a - b) = uwrap w (a - b).
Proof. unfold uwrap. by rewrite Zminus_mod_idemp_l. Qed.
Lemma uwrap_add a b w : uwrap w (uwrap w a + b) = uwrap w (a + b).
Proof. unfold uwrap. by rewrite Zplus_mod_idemp_l. Qed.
Lemma swrap_add a b w : swrap w (swrap w a + b) = swrap w (a + b).
Proof.
  unfold swrap. f_equal. replace ((a + 2 ^ (w - 1)) mod 2 ^ w - 2 ^ (w - 1) + b + 2 ^ (w - 1)) with ((a + 2 ^ (w - 1)) mod 2 ^ w + b) by lia.
  rewrite Zplus_mod_idemp_l. f_equal. lia.
Qed.

(** * Insertion *)

(** A step of the store that writes to the cells [ws] and to new cells only. *)
Definition grows (ws : list nat) (s s' : store) : Prop :=
  (allocated s <= allocated s')%nat /\ forall y, (y < allocated s)%nat -> y ∉ ws -> cells s' !! y = cells s !! y.

(** The cells of a tree are those of another or new. *)
Definition within (s : store) (t t' : tree) : Prop := forall y, y ∈ locs t' -> y ∈ locs t \/ (allocated s <= y)%nat.

Lemma grows_refl ws s : grows ws s s.
Proof. done. Qed.
Lemma grows_trans ws s s' s'' : grows ws s s' -> grows ws s' s'' -> grows ws s s''.
Proof. intros [A1 H1] [A2 H2]. split; [lia|]. intros y Hy Hw. rewrite H2, H1; (done || lia). Qed.
Lemma grows_weaken ws ws' s s' : grows ws s s' -> ws ⊆ ws' -> grows ws' s s'.
Proof. intros [A H] Hs. split; [done|]. intros y Hy Hw. apply H; [done|set_solver]. Qed.
Lemma only_changes_grows ws ws' s s' : only_changes ws s s' -> (forall y, y ∈ ws -> y ∈ ws' \/ (allocated s <= y)%nat) -> grows ws' s s'.
Proof.
  intros [A H] Hw. split; [lia|]. intros y Hy Hn. apply H. intros Hin. destruct (Hw y Hin); [done|lia].
Qed.

Lemma grows_only ws w s0 s s' : grows ws s0 s -> only_changes w s s' -> (forall y, y ∈ w -> y ∈ ws \/ (allocated s0 <= y)%nat) -> grows ws s0 s'.
Proof.
  intros [A H] [A' H'] Hw. split; [lia|]. intros y Hy Hn. rewrite H', H; [done|done|done|]. intros Hin. destruct (Hw y Hin); [done|lia].
Qed.

Lemma holds_grows ws s s' t : grows ws s s' -> store_ok s' -> (forall y, y ∈ ws -> y ∉ locs t) -> holds s t -> holds s' t.
Proof.
  intros [A H] Hs' Hw (Hs & Ht & Hn). split_and!; [done| |done]. eapply rep_agree; [done|]. intros x Hx. apply H; [by eapply rep_locs_lt|].
  intros Hin. by eapply Hw.
Qed.

Lemma attach_ok s f c x : rep_ctx (cells s) (f :: c) None ->
  attach (dir f) (frame_loc f) x s = Ok (tt, upd (frame_loc f) (frame_cell f (Some x)) s).
Proof. intros (H0 & _). destruct f; cbn [dir attach frame_loc frame_cell] in *; [by rewrite (set_left_Ok _ _ _ _ H0)|by rewrite (set_right_Ok _ _ _ _ H0)]. Qed.

(** Attaching a new leaf at the hole of a context and rotating it up. *)
Lemma insert_leaf_ok s f c ps key v priority x n cr root :
  store_ok s -> rep_ctx (cells s) (f :: c) None -> NoDup (ctx_locs (f :: c)) -> x ∉ ctx_locs (f :: c) -> n = cell key v priority None None ->
  cells s !! x = Some n -> stack_is ps (map frame_loc (f :: c)) -> cr = dir f -> root = last (map frame_loc (f :: c)) ->
  exists s', (parent ← deref (stack_At 0 ps); _ ← attach cr parent x; rotate_up (stack_Len ps) x ps root) s =
      Ok (ptr (bubble (f :: c) (T E x key v priority E)), s') /\
    rep (cells s') (bubble (f :: c) (T E x key v priority E)) /\ only_changes (x :: map frame_loc (f :: c)) s s'.
Proof.
  intros Hs Hc Hn Hx -> Hcx Hps -> ->. rewrite (stack_At_head _ _ Hps). cbn [map head deref].
  rewrite (bind_Ok _ _ s (frame_loc f) s) by done. rewrite (bind_Ok _ _ _ _ _ (attach_ok _ _ _ x Hc)).
  rewrite (stack_is_Len _ _ Hps), length_map.
  pose proof Hc as (Hf & Hsib & Hc'). pose proof Hn as Hn0. cbn [ctx_locs] in Hx, Hn. apply NoDup_cons in Hn as [Hfn Hn].
  destruct (rotate_up_ok (f :: c) (upd (frame_loc f) (frame_cell f (Some x)) s) (T E x key v priority E) ps (last (map frame_loc (f :: c))) (length (f :: c))) with (x := x) as (s' & E1 & Hr & Ch); try done.
  - cbn [rep_ctx cells upd ptr]. split_and!; [by rewrite lookup_insert_eq|by apply rep_insert; [set_solver|]|].
    apply rep_ctx_insert; [set_solver|done].
  - cbn [rep cells upd ptr]. split_and!; [|done|done]. rewrite lookup_insert_ne; [done|]. intros <-. set_solver.
  - rewrite NoDup_app. split_and!; [done| |cbn; apply NoDup_singleton]. intros y Hy. cbn. intros ->%list_elem_of_singleton. done.
  - by rewrite ptr_plug_nonempty.
  - exists s'. split; [exact E1|]. split; [done|]. eapply only_changes_weaken; [eapply only_changes_trans; [apply only_changes_upd|exact Ch]|].
    cbn [map]. set_solver.
Qed.

Definition put_tree (priority : Z) (key v : bytes) (t : tree) : tree :=
  let '(c, t') := zip key t [] in
  match t' with E => bubble c (T E 0 key v priority E) | T l x k _ p r => plug c (T l x k v p r) end.

Lemma zip_strip key t c : zip key (strip t) (map strip_frame c) = (map strip_frame (fst (zip key t c)), strip (snd (zip key t c))).
Proof.
  revert c. induction t as [|l IHl x k v p r IHr]; intros c; cbn [strip zip]; [done|].
  destruct (Compare key k); [done|apply (IHl (L x k v p r :: c))|apply (IHr (R l x k v p :: c))].
Qed.

Lemma strip_put priority key v t : strip (put_tree priority key v t) = put_tree priority key v (strip t).
Proof.
  unfold put_tree. change (zip key (strip t) []) with (zip key (strip t) (map strip_frame [])). rewrite zip_strip.
  destruct (zip key t []) as [c [|l x k w p r]]; cbn [fst snd strip]; [by rewrite strip_bubble|by rewrite strip_plug].
Qed.

Lemma inorder_put priority key v t : sorted (inorder t) -> inorder (put_tree priority key v t) = put_entry key v (inorder t) /\ sorted (put_entry key v (inorder t)).
Proof.
  intros Hs. pose proof (zip_cut key t Hs) as Hc. unfold put_tree. destruct (zip key t []) as [c t'].
  destruct Hc as (l1 & l2 & Hb & Ha & Hs' & Hc). destruct t' as [|l x k w p r].
  - destruct Hc as (<- & <- & E1). rewrite E1, put_entry_app, put_entry_above by done. split; [|by apply sorted_put].
    by rewrite inorder_bubble, inorder_plug.
  - destruct Hc as (-> & E1 & E2 & E0). rewrite E0, put_entry_app by done. cbn [put_entry]. rewrite Compare_refl. split; [|by apply sorted_put].
    rewrite inorder_plug. cbn [inorder]. rewrite <-E1, <-E2, <-!app_assoc. done.
Qed.

(** What a treap in a store stands for. *)
Definition counts (count size : Z) (t : tree) : Prop :=
  count = swrap 64 (len (inorder t)) /\ size = uwrap 64 (entries_size (inorder t)).

Definition mutable_holds (s : store) (mt : Mutable) (t : tree) : Prop :=
  holds s t /\ sorted (inorder t) /\ mt_root mt = ptr t /\ counts (mt_count mt) (mt_totalSize mt) t.
Definition immutable_holds (s : store) (im : Immutable) (t : tree) : Prop :=
  holds s t /\ sorted (inorder t) /\ im_root im = ptr t /\ counts (im_count im) (im_totalSize im) t.

Lemma counts_app_new count size k v p l r t t' l1 l2 : counts count size t -> inorder t = l1 ++ l2 -> inorder t' = l1 ++ (k, v) :: l2 ->
  counts (swrap 64 (count + 1)) (uwrap 64 (size + nodeSize (cell k v p l r))) t'.
Proof.
  intros [-> ->] E1 E2. rewrite nodeSize_cell. unfold counts. rewrite E1, E2, swrap_add, uwrap_sum, !entries_size_app. unfold len. rewrite !length_app.
  cbn [length entries_size foldr]. split; f_equal; unfold entries_size in *; lia.
Qed.

Lemma counts_app_value count size k v v' t t' l1 l2 : counts count size t -> inorder t = l1 ++ (k, v) :: l2 -> inorder t' = l1 ++ (k, v') :: l2 ->
  counts count (uwrap 64 (uwrap 64 (size - len v) + len v')) t'.
Proof.
  intros [-> ->] E1 E2. unfold counts. rewrite E1, E2, uwrap_sub, uwrap_add, !entries_size_app. unfold len at 1 2. rewrite !length_app.
  cbn [length entries_size foldr]. split; f_equal; unfold entry_size; cbn [fst snd]; lia.
Qed.

Lemma counts_app_delete count size k v p l r t t' l1 l2 : counts count size t -> inorder t = l1 ++ (k, v) :: l2 -> inorder t' = l1 ++ l2 ->
  counts (swrap 64 (count - 1)) (uwrap 64 (size - nodeSize (cell k v p l r))) t'.
Proof.
  intros [-> ->] E1 E2. rewrite nodeSize_cell. unfold counts. rewrite E1, E2.
  replace (swrap 64 (len (l1 ++ (k, v) :: l2)) - 1) with (swrap 64 (len (l1 ++ (k, v) :: l2)) + -1) by lia. rewrite swrap_add, uwrap_sub.
  split; [f_equal; unfold len; rewrite !length_app; cbn; lia|].
  unfold uwrap. rewrite Zminus_mod_idemp_r. f_equal. rewrite !entries_size_app. cbn [entries_size foldr]. unfold entries_size. lia.
Qed.

(** ** Lookups *)

Lemma get_node_ok s key t : holds s t ->
  get_node key (ptr t) s = Ok (match snd (zip key t []) with E => (None, None) | t' => (ptr t', head (map frame_loc (fst (zip key t [])))) end, s).
Proof.
  intros H. unfold get_node, fuel. unfold mbind, M_bind. pose proof (holds_depth _ _ H).
  pose proof (get_loop_zip s key t (S (allocated s)) []) as Hg. cbn [map head] in Hg. rewrite Hg; [done|apply H|lia].
Qed.

Lemma zip_get key t : sorted (inorder t) ->
  get_entry key (inorder t) = match snd (zip key t []) with E => None | T _ _ _ v _ _ => Some v end.
Proof.
  intros Hs. pose proof (zip_cut key t Hs) as Hc. destruct (zip key t []) as [c t']. cbn [snd].
  destruct Hc as (l1 & l2 & Hb & Ha & Hs' & Hc). destruct t' as [|l x k v p r].
  - destruct Hc as (_ & _ & ->). by rewrite get_entry_app, get_entry_above.
  - destruct Hc as (-> & _ & _ & ->). rewrite get_entry_app by done. cbn. by rewrite Compare_refl.
Qed.

Lemma rep_zip s key t c : rep (cells s) (plug c t) -> rep_ctx (cells s) (fst (zip key t c)) (ptr (snd (zip key t c))) /\ rep (cells s) (snd (zip key t c)).
Proof. rewrite <-(zip_plug key t c), rep_plug. done. Qed.

Lemma treap_Get_ok s key t : holds s t -> sorted (inorder t) -> treap_Get key (ptr t) s = Ok (get_entry key (inorder t), s).
Proof.
  intros H Hs. unfold treap_Get. rewrite (bind_Ok _ _ _ _ _ (get_node_ok _ _ _ H)), (zip_get key t Hs).
  destruct (rep_zip s key t []) as [_ Hr]; [apply H|]. destruct (snd (zip key t [])) as [|l x k v p r]; [done|]. cbn [ptr].
  destruct Hr as (H0 & _). by rewrite (bind_Ok _ _ _ _ _ (load_Ok _ _ _ H0)).
Qed.

Lemma treap_Has_ok s key t : holds s t -> sorted (inorder t) -> treap_Has key (ptr t) s = Ok (bool_decide (is_Some (get_entry key (inorder t))), s).
Proof.
  intros H Hs. unfold treap_Has. rewrite (bind_Ok _ _ _ _ _ (get_node_ok _ _ _ H)), (zip_get key t Hs).
  destruct (snd (zip key t [])) as [|l x k v p r]; [done|]. cbn. unfold mret, M_ret. by repeat f_equal.
Qed.

(** ** [Put] *)

Lemma put_tree_root priority key v t : put_tree priority key v t <> E.
Proof.
  assert (Hplug : forall c t', t' <> E -> plug c t' <> E).
  { intros c. induction c as [|f c IH]; intros t' Ht'; cbn [plug]; [done|]. apply IH. by destruct f. }
  assert (Hb : forall c t', t' <> E -> bubble c t' <> E).
  { intros c. induction c as [|f c IH]; intros t' Ht'; cbn [bubble]; [done|]. destruct (_ <=? _); [by apply Hplug|]. apply IH. by destruct f, t'. }
  unfold put_tree. destruct (zip key t []) as [c [|l x k w p r]]; [by apply Hb|by apply Hplug].
Qed.

Definition same_shape (t t' : tree) : Prop := strip t = strip t'.

Lemma new_node_ok s key v priority : store_ok s -> exists s1, newTreapNode key v priority s = Ok (allocated s, s1) /\ store_ok s1 /\
  cells s1 !! allocated s = Some (cell key v priority None None) /\ grows [] s s1 /\ allocated s1 = S (allocated s) /\
  forall y, y <> allocated s -> cells s1 !! y = cells s !! y.
Proof.
  intros Hs. eexists. split; [done|]. split_and!; [by apply alloc_ok|by cbn; rewrite lookup_insert_eq| |done|].
  - split; [cbn; lia|]. intros y Hy _. cbn. rewrite lookup_insert_ne; [done|lia].
  - intros y Hy. cbn. by rewrite lookup_insert_ne.
Qed.

Lemma locs_zip key t : ctx_locs (fst (zip key t [])) ++ locs (snd (zip key t [])) ≡ₚ locs t.
Proof. by rewrite <-locs_plug, zip_plug. Qed.

Lemma frame_locs_ctx c y : y ∈ map frame_loc c -> y ∈ ctx_locs c.
Proof. induction c as [|f c IH]; cbn [map ctx_locs]; [done|]. set_solver. Qed.

Lemma last_frame_plug c t : c <> [] -> last (map frame_loc c) = ptr (plug c t).
Proof. intros. by rewrite ptr_plug_nonempty. Qed.

(** Changing the value of a node. *)
Lemma write_value_ok s c l x k w p r v n : store_ok s -> rep (cells s) (plug c (T l x k w p r)) -> NoDup (locs (plug c (T l x k w p r))) ->
  n = with_value v (cell k w p (ptr l) (ptr r)) ->
  exists s', write_node x n s = Ok (tt, s') /\ holds s' (plug c (T l x k v p r)) /\ only_changes [x] s s'.
Proof.
  intros Hs Hr Hn ->. exists (upd x (cell k v p (ptr l) (ptr r)) s). split; [done|]. split; [|apply only_changes_upd].
  apply rep_plug in Hr as (Hc & H0 & Hl & Hr). rewrite locs_plug in Hn. cbn [locs] in Hn. split_and!.
  - apply upd_ok; [done|]. by eapply Hs.
  - apply rep_plug. cbn [ptr rep cells upd]. nodup_split Hn.
    split; [apply rep_ctx_insert; [set_solver|done]|]. split; [by rewrite lookup_insert_eq|].
    split; (apply rep_insert; [set_solver|done]).
  - by rewrite locs_plug.
Qed.

Lemma bind2_Ok {A B C} (a : M A) (b : A -> M B) (k : B -> M C) s r s' :
  (x ← a; b x) s = Ok (r, s') -> (x ← a; y ← b x; k y) s = k r s'.
Proof. unfold mbind, M_bind. destruct (a s) as [[x s1]| |]; [|done|done]. by intros ->. Qed.

Lemma bind3_Ok {A B C D} (a : M A) (b : A -> M B) (c : A -> B -> M C) (k : C -> M D) s r s' :
  (x ← a; y ← b x; c x y) s = Ok (r, s') -> (x ← a; y ← b x; z ← c x y; k z) s = k r s'.
Proof.
  unfold mbind, M_bind. destruct (a s) as [[x s1]| |]; [|done|done]. destruct (b x s1) as [[y s2]| |]; [|done|done]. by intros ->.
Qed.

(** [Put] in place. *)
Lemma mutable_Put_ok s priority key value mt t : mutable_holds s mt t ->
  exists s' mt' t', mutable_Put priority key value mt s = Ok (mt', s') /\ mutable_holds s' mt' t' /\
    inorder t' = put_entry key (value_of value) (inorder t) /\ same_shape t' (put_tree priority key (value_of value) t) /\
    grows (locs t) s s' /\ within s t t'.
Proof.
  intros (Hh & Hso & Hroot & Hcount). pose proof Hh as (Hs & Hr & Hn). unfold mutable_Put. set (v := value_of value). rewrite Hroot.
  destruct (inorder_put priority key v t Hso) as [Hin Hso']. pose proof (zip_cut key t Hso) as Hcut.
  destruct (ptr t) as [root|] eqn:Et.
  2:{ destruct t; [|done]. destruct (new_node_ok s key v priority Hs) as (s1 & E1 & Hs1 & Hx & Hg & _ & _).
    rewrite (bind_Ok _ _ _ _ _ E1), (bind_Ok _ _ _ _ _ (load_Ok _ _ _ Hx)).
    exists s1, {| mt_root := Some (allocated s); mt_count := 1; mt_totalSize := nodeSize (cell key v priority None None) |}, (T E (allocated s) key v priority E).
    split; [done|]. split_and!; [|done|done|done| ].
    - split_and!; [split_and!; [done|by cbn|cbn; apply NoDup_singleton]|repeat constructor|done|].
      rewrite nodeSize_cell. cbn. split; [done|]. cbn. unfold entries_size. cbn. by rewrite Z.add_0_r.
    - intros y. cbn. intros ->%list_elem_of_singleton. by right. }
  unfold fuel. unfold mbind at 1, M_bind at 1.
  destruct (descend_zip s key t [] empty_stack Eq (S (allocated s))) as (ps & cr & Ed & Hw);
    [done|apply stack_is_empty|done|pose proof (holds_depth _ _ Hh); lia|]. rewrite Et in Ed. rewrite (bind_Ok _ _ _ _ _ Ed).
  destruct (rep_zip s key t []) as [Hc Hr']; [done|]. pose proof (locs_zip key t) as Hl. unfold walked in Hw. pose proof (zip_nonempty key t []) as Hne.
  pose proof (zip_plug key t []) as Hp. unfold put_tree in *. destruct (zip key t []) as [c [|l x k w p r]]; cbn [fst snd ptr plug] in *;
    destruct Hcut as (l1 & l2 & Hb & Ha & Hs12 & Hcut).
  - destruct Hcut as (E1' & E2' & Ein). destruct Hw as [Hps Hcr]. destruct c as [|f c]; [exfalso; apply Hne; [done| |done]; left; by intros ->|].
    cbn [dir_ok] in Hcr. destruct (new_node_ok s key v priority Hs) as (s1 & E1 & Hs1 & Hx & Hg & Hal & Hother).
    rewrite (bind_Ok _ _ _ _ _ E1), (bind_Ok _ _ _ _ _ (load_Ok _ _ _ Hx)).
    rewrite app_nil_r in Hl.
    assert (Hfresh : allocated s ∉ ctx_locs (f :: c)).
    { intros Hin'. rewrite Hl in Hin'. pose proof (rep_locs_lt s t (allocated s) Hs Hr Hin'). lia. }
    assert (Hn' : NoDup (ctx_locs (f :: c))) by by rewrite Hl.
    destruct (insert_leaf_ok s1 f c ps key v priority (allocated s) (cell key v priority None None) cr (Some root)) as (s2 & E2 & Hr2 & Ch2);
      [done| |done|done|done|done|done|done| |].
    { eapply rep_ctx_agree; [exact Hc|]. intros y Hy. apply Hother. by intros ->. }
    { rewrite <-Et, <-Hp. by apply ptr_plug_nonempty. }
    rewrite (bind3_Ok _ _ _ _ _ _ _ E2).
    assert (Hlocs : locs (bubble (f :: c) (T E (allocated s) key v priority E)) ≡ₚ allocated s :: locs t).
    { rewrite locs_bubble, locs_plug, Hl. cbn. by rewrite Permutation_app_comm. }
    eexists s2, _, _. split; [done|]. unfold mutable_holds. cbn [mt_root mt_count mt_totalSize].
    assert (Hino : inorder (bubble (f :: c) (T E (allocated s) key v priority E)) = put_entry key v (inorder t)).
    { rewrite <-Hin, !inorder_bubble, !inorder_plug. done. }
    split_and!.
    + split_and!; [|done|].
      * eapply only_changes_ok; [done|done|]. intros y Hy. rewrite Hal. apply elem_of_cons in Hy as [->|Hy]; [lia|].
        apply frame_locs_ctx in Hy. rewrite Hl in Hy. pose proof (rep_locs_lt s t y Hs Hr Hy). lia.
      * rewrite Hlocs. apply NoDup_cons. split; [|done]. by rewrite <-Hl.
    + by rewrite Hino.
    + done.
    + eapply counts_app_new; [exact Hcount|exact Ein|]. rewrite Hino, Ein, put_entry_app, put_entry_above by done. done.
    + done.
    + unfold same_shape. rewrite !strip_bubble. done.
    + destruct Ch2 as [A2 H2]. split; [lia|]. intros y Hy Hny. rewrite H2, Hother; [done|lia|].
      rewrite elem_of_cons. intros [->|Hin']; [lia|]. apply frame_locs_ctx in Hin'. by rewrite Hl in Hin'.
    + intros y Hy. rewrite Hlocs in Hy. apply elem_of_cons in Hy as [->|Hy]; [by right|by left].
  - destruct Hcut as (-> & E1' & E2' & Ein). destruct Hr' as (H0 & Hrl & Hrr). rewrite (bind_Ok _ _ _ _ _ (load_Ok _ _ _ H0)).
    destruct (write_value_ok s c l x key w p r v (with_value v (cell key w p (ptr l) (ptr r)))) as (s2 & E2 & Hh2 & Ch2);
      [done|by rewrite Hp|by rewrite Hp|done|]. rewrite (bind_Ok _ _ _ _ _ E2).
    assert (Hlocs : locs (plug c (T l x key v p r)) ≡ₚ locs t) by (rewrite locs_plug, <-Hl; done).
    assert (Hx : x ∈ locs t) by (rewrite <-Hlocs, locs_plug; cbn; set_solver).
    eexists s2, _, _. split; [done|]. unfold mutable_holds. cbn [mt_root mt_count mt_totalSize tn_value cell]. split_and!.
    + done.
    + by rewrite Hin.
    + rewrite <-Et, <-Hp. destruct c; [done|]. by rewrite !ptr_plug_nonempty.
    + eapply counts_app_value; [exact Hcount|exact Ein|]. rewrite Hin, Ein, put_entry_app by done. cbn. by rewrite Compare_refl.
    + done.
    + done.
    + eapply only_changes_grows; [exact Ch2|]. intros y ->%list_elem_of_singleton. by left.
    + intros y Hy. rewrite Hlocs in Hy. by left.
Qed.

(** ** Copies of the way down *)

Lemma link_copy_ok s c x y :
  rep_ctx (cells s) c (Some x) -> NoDup (ctx_locs c) -> x ∉ ctx_locs c ->
  exists s', link_copy (head (map frame_loc c)) x y s = Ok (tt, s') /\ rep_ctx (cells s') c (Some y) /\ only_changes (map frame_loc c) s s'.
Proof.
  intros Hc Hn Hx. destruct (relink_ok s c y x None Hc Hn Hx) as (s' & E1 & Hc' & Ch). exists s'. split; [|split; [done|]].
  - revert E1. unfold relinkGrandparent, link_copy. destruct (head (map frame_loc c)) as [g|]; [|by destruct c; intros [= <-]].
    unfold mbind, M_bind. destruct (load g s) as [[n s1]| |]; [|done|done]. destruct (decide _); [destruct (set_left _ _ _) as [[[] s2]| |]|destruct (set_right _ _ _) as [[[] s2]| |]]; try done;
    cbn; unfold mret, M_ret; destruct c; by intros [= ->].
  - eapply only_changes_weaken; [exact Ch|]. destruct c; cbn; set_solver.
Qed.

Lemma clone_ok s x n : store_ok s -> cells s !! x = Some n -> exists s1, cloneTreapNode x s = Ok (allocated s, s1) /\ store_ok s1 /\
  cells s1 !! allocated s = Some n /\ allocated s1 = S (allocated s) /\ forall y, y <> allocated s -> cells s1 !! y = cells s !! y.
Proof.
  intros Hs Hx. unfold cloneTreapNode. rewrite (bind_Ok _ _ _ _ _ (load_Ok _ _ _ Hx)). eexists. split; [done|].
  split_and!; [by apply alloc_ok|by cbn; rewrite lookup_insert_eq|done|]. intros y Hy. cbn. by rewrite lookup_insert_ne.
Qed.

(** A copied context [c] and the subtree [t] it leads to, in a store that grew from [s0], where
    the tree [t0] was. *)
Definition copying (s0 : store) (t0 : tree) (s : store) (c : list frame) (t : tree) : Prop :=
  store_ok s /\ rep_ctx (cells s) c (ptr t) /\ rep (cells s) t /\ NoDup (ctx_locs c ++ locs t) /\ grows [] s0 s /\
  (forall y, y ∈ map frame_loc c -> (allocated s0 <= y)%nat) /\ (forall y, y ∈ ctx_locs c ++ locs t -> y ∈ locs t0 \/ (allocated s0 <= y)%nat).

Lemma copying_refl s t : holds s t -> copying s t s [] t.
Proof. intros (Hs & Ht & Hn). split_and!; try done; intros y Hy; [by apply elem_of_nil in Hy|by left]. Qed.

(** One more copy. *)
Lemma copy_step s0 t0 s c l x k v p r : copying s0 t0 s c (T l x k v p r) ->
  exists s1 s', cloneTreapNode x s = Ok (allocated s, s1) /\ link_copy (head (map frame_loc c)) x (allocated s) s1 = Ok (tt, s') /\
    copying s0 t0 s' c (T l (allocated s) k v p r) /\ cells s' !! x = Some (cell k v p (ptr l) (ptr r)).
Proof.
  intros (Hs & Hc & (H0 & Hl & Hr) & Hn & Hg & Hf & Hw). cbn [ptr] in Hc.
  destruct (clone_ok s x _ Hs H0) as (s1 & E1 & Hs1 & Hy & Hal & Hother).
  assert (Hold : forall y, y ∈ ctx_locs c ++ locs (T l x k v p r) -> (y < allocated s)%nat).
  { intros y Hin. rewrite <-locs_plug in Hin. eapply rep_locs_lt; [done| |exact Hin]. apply rep_plug. by split_and!. }
  assert (Hfr : allocated s ∉ ctx_locs c ++ locs (T l x k v p r)) by (intros Hin; specialize (Hold _ Hin); lia).
  cbn [locs] in Hn, Hfr, Hold, Hw. pose proof Hn as Hn0. nodup_split Hn.
  destruct (link_copy_ok s1 c x (allocated s)) as (s2 & E2 & Hc2 & Ch2); [|by apply Hn|set_solver|].
  { eapply rep_ctx_agree; [exact Hc|]. intros z Hz. apply Hother. intros ->. set_solver. }
  exists s1, s2. split; [done|]. split; [done|].
  assert (Hch : forall z, z ∉ ctx_locs c -> cells s2 !! z = cells s1 !! z).
  { intros z Hz. apply Ch2. intros Hin. by apply Hz, frame_locs_ctx. }
  split; [|rewrite Hch, Hother; [done| |]; [intros ->; set_solver|set_solver]].
  unfold copying. cbn [ptr rep locs]. split_and!.
  - eapply only_changes_ok; [exact Hs1|exact Ch2|]. intros z Hz%frame_locs_ctx. rewrite Hal. specialize (Hold z ltac:(set_solver)). lia.
  - done.
  - rewrite Hch by set_solver. done.
  - eapply rep_agree; [exact Hl|]. intros z Hz. rewrite Hch, Hother; [done| |]; [intros ->; set_solver|set_solver].
  - eapply rep_agree; [exact Hr|]. intros z Hz. rewrite Hch, Hother; [done| |]; [intros ->; set_solver|set_solver].
  - rewrite !NoDup_app, NoDup_cons, NoDup_app. split_and!; try tauto; set_solver.
  - destruct Hg as [A G], Ch2 as [A2 G2]. split; [lia|]. intros z Hz Hnz. rewrite G2, Hother, G; [done|done|done|lia|].
    intros Hin. specialize (Hf z Hin). lia.
  - done.
  - intros z. rewrite elem_of_app, elem_of_cons. intros [Hz|[->|Hz]]; [apply Hw; set_solver|right|apply Hw; set_solver].
    destruct Hg as [A _]. lia.
Qed.

Lemma descend_copy_ok s0 t0 key t : forall s c c0 ps cr f, copying s0 t0 s c t -> stack_is ps (map frame_loc c) -> dir_ok cr c ->
  map strip_frame c = map strip_frame c0 -> (depth t <= f)%nat ->
  exists s' ps' cr' c' t', descend_copy f key (ptr t) ps cr s = Ok (ps', cr', ptr t', s') /\ copying s0 t0 s' c' t' /\
    map strip_frame c' = map strip_frame (fst (zip key t c0)) /\
    match snd (zip key t c0) with
    | E => t' = E /\ stack_is ps' (map frame_loc c') /\ dir_ok cr' c'
    | T l _ k v p r => exists y, t' = T l y k v p r /\ stack_is ps' (y :: map frame_loc c') /\ (allocated s0 <= y)%nat
    end.
Proof.
  induction t as [|l IHl x k v p r IHr]; intros s c c0 ps cr f Hcp Hps Hcr Hst Hf; cbn [ptr zip depth descend_copy] in *.
  { exists s, ps, cr, c, E. by destruct f. }
  destruct f as [|f]; [lia|]. destruct (copy_step _ _ _ _ _ _ _ _ _ _ Hcp) as (sc & s1 & Ec & El & Hcp1 & Hx). cbn [descend_copy].
  rewrite <-(stack_At_head _ _ Hps) in El.
  rewrite (bind_Ok _ _ _ _ _ Ec), (bind_Ok _ _ _ _ _ El), (bind_Ok _ _ _ _ _ (load_Ok _ _ _ Hx)). cbn [tn_key cell tn_left tn_right].
  pose proof Hcp1 as (Hs1 & Hc1 & (H0 & Hl & Hr) & Hn1 & Hg1 & Hf1 & Hw1). cbn [ptr locs] in *.
  assert (Hfr : (allocated s0 <= allocated s)%nat) by by destruct Hcp as (_ & _ & _ & _ & [? _] & _).
  destruct (Compare key k) eqn:Ek.
  - exists s1, (stack_Push (allocated s) ps), Eq, c, (T l (allocated s) k v p r). cbn [fst snd]. split_and!; [done|done|done|].
    exists (allocated s). split_and!; [done|by apply stack_is_Push|done].
  - apply (IHl s1 (L (allocated s) k v p r :: c) (L x k v p r :: c0)); [|by apply stack_is_Push|done|cbn; by rewrite Hst|lia].
    unfold copying. cbn [rep_ctx ctx_locs frame_loc sibling frame_cell map]. split_and!; try done.
    + revert Hn1. apply NoDup_Permutation_proper. cbn [app]. rewrite <-Permutation_middle. apply Permutation_skip.
      by rewrite (Permutation_app_comm (locs r)), <-app_assoc, (Permutation_app_comm (locs r)).
    + intros z. rewrite elem_of_cons. intros [->|?]; [done|by apply Hf1].
    + intros z Hz. apply Hw1. set_solver.
  - apply (IHr s1 (R l (allocated s) k v p :: c) (R l x k v p :: c0)); [|by apply stack_is_Push|done|cbn; by rewrite Hst|lia].
    unfold copying. cbn [rep_ctx ctx_locs frame_loc sibling frame_cell map]. split_and!; try done.
    + revert Hn1. apply NoDup_Permutation_proper. cbn [app]. rewrite <-Permutation_middle. apply Permutation_skip. by rewrite (Permutation_app_comm (locs l)), <-app_assoc.
    + intros z. rewrite elem_of_cons. intros [->|?]; [done|by apply Hf1].
    + intros z Hz. apply Hw1. set_solver.
Qed.

Lemma map_strip_nil c c' : map strip_frame c = map strip_frame c' -> c = [] -> c' = [].
Proof. by destruct c, c'. Qed.

Lemma counts_shape count size t t' : strip t = strip t' -> counts count size t -> counts count size t'.
Proof. intros E. unfold counts. by rewrite (strip_inorder t t' E). Qed.

(** [Put] on copies: nothing that was there is written to. *)
Lemma immutable_Put_ok s priority key value im t : immutable_holds s im t ->
  exists s' im' t', immutable_Put priority key value im s = Ok (im', s') /\ immutable_holds s' im' t' /\
    inorder t' = put_entry key (value_of value) (inorder t) /\ same_shape t' (put_tree priority key (value_of value) t) /\
    grows [] s s' /\ within s t t'.
Proof.
  intros (Hh & Hso & Hroot & Hcount). pose proof Hh as (Hs & Hr & Hn). unfold immutable_Put. set (v := value_of value). rewrite Hroot.
  destruct (inorder_put priority key v t Hso) as [Hin Hso']. pose proof (zip_cut key t Hso) as Hcut.
  destruct (ptr t) as [root|] eqn:Et.
  2:{ destruct t; [|done]. destruct (new_node_ok s key v priority Hs) as (s1 & E1 & Hs1 & Hx & Hg & _ & _).
    rewrite (bind_Ok _ _ _ _ _ E1), (bind_Ok _ _ _ _ _ (load_Ok _ _ _ Hx)).
    exists s1, {| im_root := Some (allocated s); im_count := 1; im_totalSize := nodeSize (cell key v priority None None) |}, (T E (allocated s) key v priority E).
    split; [done|]. split_and!; [|done|done|done| ].
    - split_and!; [split_and!; [done|by cbn|cbn; apply NoDup_singleton]|repeat constructor|done|].
      rewrite nodeSize_cell. cbn. split; [done|]. cbn. unfold entries_size. cbn. by rewrite Z.add_0_r.
    - intros y. cbn. intros ->%list_elem_of_singleton. by right. }
  unfold fuel. unfold mbind at 1, M_bind at 1.
  destruct (descend_copy_ok s t key t s [] [] empty_stack Eq (S (allocated s))) as (s1 & ps & cr & c & t1 & Ed & Hcp & Hst & Hw);
    [by apply copying_refl|apply stack_is_empty|done|done|pose proof (holds_depth _ _ Hh); lia|]. rewrite Et in Ed. rewrite (bind_Ok _ _ _ _ _ Ed).
  pose proof (zip_nonempty key t []) as Hne. pose proof Hcp as (Hs1 & Hc & Hr1 & Hn1 & [Ha1 Hg1] & Hf1 & Hw1).
  unfold put_tree in *. destruct (zip key t []) as [c0 [|l x k w p r]]; cbn [fst snd] in *; destruct Hcut as (l1 & l2 & Hb & Ha & Hs12 & Hcut).
  - destruct Hcut as (_ & _ & Ein). destruct Hw as (-> & Hps & Hcr). cbn [ptr locs] in *.
    destruct c as [|f c]; [exfalso; apply Hne; [done| |symmetry in Hst; by apply map_eq_nil in Hst]; left; by intros ->|].
    cbn [dir_ok] in Hcr. destruct (new_node_ok s1 key v priority Hs1) as (s2 & E1 & Hs2 & Hx & Hg & Hal & Hother).
    rewrite (bind_Ok _ _ _ _ _ E1), (bind_Ok _ _ _ _ _ (load_Ok _ _ _ Hx)). rewrite app_nil_r in *.
    assert (Hold : forall y, y ∈ ctx_locs (f :: c) -> (y < allocated s1)%nat).
    { intros y Hy. apply (rep_locs_lt s1 (plug (f :: c) E)); [done|by apply rep_plug|]. rewrite locs_plug. set_solver. }
    destruct (insert_leaf_ok s2 f c ps key v priority (allocated s1) (cell key v priority None None) cr (stack_Bottom ps)) as (s3 & E2 & Hr2 & Ch2);
      [done| |done|intros Hy; specialize (Hold _ Hy); lia|done|done|done|done|by apply stack_is_Bottom|].
    { eapply rep_ctx_agree; [exact Hc|]. intros y Hy. apply Hother. specialize (Hold _ Hy). lia. }
    rewrite (bind3_Ok _ _ _ _ _ _ _ E2). set (t' := bubble (f :: c) (T E (allocated s1) key v priority E)) in *.
    assert (Hshape : same_shape t' (bubble c0 (T E 0 key v priority E))).
    { unfold same_shape, t'. by rewrite !strip_bubble, Hst. }
    assert (Hino : inorder t' = put_entry key v (inorder t)) by (rewrite <-Hin; by apply strip_inorder).
    assert (Hlocs : locs t' ≡ₚ allocated s1 :: ctx_locs (f :: c)).
    { unfold t'. rewrite locs_bubble, locs_plug. cbn [locs]. by rewrite Permutation_app_comm. }
    assert (Hold' : forall y, y ∈ allocated s1 :: map frame_loc (f :: c) -> (allocated s <= y < allocated s2)%nat).
    { intros y [->|Hy]%elem_of_cons; [lia|]. specialize (Hf1 _ Hy). apply frame_locs_ctx in Hy. specialize (Hold _ Hy). lia. }
    eexists s3, _, t'. split; [done|]. unfold immutable_holds. cbn [im_root im_count im_totalSize]. split_and!.
    + split_and!; [eapply only_changes_ok; [done|exact Ch2|]; intros y Hy; by apply Hold'|done|]. rewrite Hlocs. apply NoDup_cons. split; [|done].
      intros Hy. specialize (Hold _ Hy). lia.
    + by rewrite Hino.
    + done.
    + eapply counts_app_new; [exact Hcount|exact Ein|]. rewrite Hino, Ein, put_entry_app, put_entry_above by done. done.
    + done.
    + done.
    + destruct Ch2 as [A2 H2]. split; [lia|]. intros y Hy _. rewrite H2, Hother, Hg1; [done|done|set_solver|lia|].
      intros Hy'. specialize (Hold' _ Hy'). lia.
    + intros y Hy. rewrite Hlocs in Hy. apply elem_of_cons in Hy as [->|Hy]; [by right|by apply Hw1].
  - destruct Hcut as (-> & _ & _ & Ein). destruct Hw as (y & -> & Hps & Hy). cbn [ptr] in *. pose proof Hr1 as (H0 & Hrl & Hrr).
    rewrite (bind_Ok _ _ _ _ _ (load_Ok _ _ _ H0)).
    destruct (write_value_ok s1 c l y key w p r v (with_value v (cell key w p (ptr l) (ptr r)))) as (s2 & E2 & Hh2 & Ch2);
      [done|by apply rep_plug|by rewrite locs_plug|done|]. rewrite (bind_Ok _ _ _ _ _ E2).
    assert (Hshape : same_shape (plug c (T l y key v p r)) (plug c0 (T l x key v p r))).
    { unfold same_shape. by rewrite !strip_plug, Hst. }
    assert (Hino : inorder (plug c (T l y key v p r)) = put_entry key v (inorder t)) by (rewrite <-Hin; by apply strip_inorder).
    eexists s2, _, _. split; [done|]. unfold immutable_holds. cbn [im_root im_count im_totalSize tn_value cell]. split_and!.
    + done.
    + by rewrite Hino.
    + rewrite (stack_is_Bottom _ _ Hps). destruct c as [|f c]; [done|]. by rewrite ptr_plug_nonempty.
    + eapply counts_app_value; [exact Hcount|exact Ein|]. rewrite Hino, Ein, put_entry_app by done. cbn. by rewrite Compare_refl.
    + done.
    + done.
    + destruct Ch2 as [A2 H2]. split; [lia|]. intros z Hz _. rewrite H2, Hg1; [done|done|set_solver|]. intros ->%list_elem_of_singleton. lia.
    + intros z Hz. apply Hw1. rewrite <-locs_plug. rewrite locs_plug in *. done.
Qed.
