(* ===== verification/TreapFacts.v ===== *)
(** Removals from a treap, and the theorems about the treaps: they implement finite maps, the
    immutable one without writing to a cell that was there, and a removal may break the order of
    the priorities. *)

From stdpp Require Import gmap sorting.
From S2P Require Import Prelude Treap TreapStore TreapPut.

#[local] Arguments stack_At : simpl never.
#[local] Arguments stack_Push : simpl never.
#[local] Arguments stack_Pop : simpl never.

(** * Removal from trees *)

(** What is left of a node with two subtrees after it has been rotated down and removed. *)
Fixpoint join (t1 : tree) : tree -> tree :=
  fix join_r (t2 : tree) : tree :=
    match t1, t2 with
    | E, _ => t2
    | _, E => t1
    | T l1 x1 k1 v1 p1 r1, T l2 x2 k2 v2 p2 r2 =>
        if p2 <=? p1 then T l1 x1 k1 v1 p1 (join r1 t2) else T (join_r l2) x2 k2 v2 p2 r2
    end.

Lemma join_E_l t : join E t = t.
Proof. by destruct t. Qed.
Lemma join_E_r t : join t E = t.
Proof. by destruct t. Qed.
Lemma join_T l1 x1 k1 v1 p1 r1 l2 x2 k2 v2 p2 r2 :
  join (T l1 x1 k1 v1 p1 r1) (T l2 x2 k2 v2 p2 r2) =
    if p2 <=? p1 then T l1 x1 k1 v1 p1 (join r1 (T l2 x2 k2 v2 p2 r2)) else T (join (T l1 x1 k1 v1 p1 r1) l2) x2 k2 v2 p2 r2.
Proof. done. Qed.
#[local] Opaque join.

(** * Rotating a node down *)

(** The state of a removal: the node [x] to remove, its two subtrees and its context, in a store
    that grew from [s0], where the treap was [t0], by writing to [ws] and to new cells. *)
Definition sinking (s0 : store) (t0 : tree) (ws : list nat) (copies : bool) (s : store) (c : list frame) (t : tree) : Prop :=
  store_ok s /\ rep_ctx (cells s) c (ptr t) /\ rep (cells s) t /\ NoDup (ctx_locs c ++ locs t) /\ grows ws s0 s /\
  (forall y, y ∈ option_list (ptr t) ++ map frame_loc c -> y ∈ ws \/ (allocated s0 <= y)%nat) /\
  (copies = false -> forall y, y ∈ locs t -> y ∈ ws) /\
  (forall y, y ∈ ctx_locs c ++ locs t -> y ∈ locs t0 \/ (allocated s0 <= y)%nat).

(** A child moves up: on the left, the node goes down its right side, and the other way round. *)
Definition up_frame (isLeft : bool) (z : nat) (kz vz : bytes) (pz : Z) (cl cr : tree) : frame :=
  if isLeft then R cl z kz vz pz else L z kz vz pz cr.
Definition down_node (isLeft : bool) (l : tree) (x : nat) (k v : bytes) (p : Z) (r cl cr : tree) : tree :=
  if isLeft then T cr x k v p r else T l x k v p cl.
Definition node_frame (isLeft : bool) (l : tree) (x : nat) (k v : bytes) (p : Z) (r : tree) : frame :=
  if isLeft then L x k v p r else R l x k v p.

Lemma rotate_node_frame isLeft l x k v p r cl z kz vz pz cr :
  rotate (node_frame isLeft l x k v p r) (T cl z kz vz pz cr) = fill (up_frame isLeft z kz vz pz cl cr) (down_node isLeft l x k v p r cl cr).
Proof. by destruct isLeft. Qed.

Lemma locs_node_frame (isLeft : bool) l x k v p r child : child = (if isLeft then l else r) ->
  locs (fill (node_frame isLeft l x k v p r) child) = locs (T l x k v p r).
Proof. by destruct isLeft; intros ->. Qed.

Lemma in_child (isLeft : bool) l x k v p r child y : (if isLeft then l else r) = child -> y ∈ locs child -> y ∈ locs (T l x k v p r).
Proof. cbn. rewrite elem_of_cons, elem_of_app. destruct isLeft; intros ->; tauto. Qed.

Lemma in_root l x k v p r : x ∈ locs (T l x k v p r).
Proof. cbn. rewrite elem_of_cons. by left. Qed.

(** The rotation and the relinking, the child being a copy or not. *)
Lemma sink_rotate s0 t0 ws copies s c l x k v p r (isLeft : bool) cl z0 z kz vz pz cr root :
  sinking s0 t0 ws copies s c (T l x k v p r) -> (if isLeft then l else r) = T cl z0 kz vz pz cr ->
  cells s !! z = Some (cell kz vz pz (ptr cl) (ptr cr)) -> (z = z0 \/ z ∉ ctx_locs c ++ locs (T l x k v p r)) -> (z ∈ ws \/ (allocated s0 <= z)%nat) ->
  (z ∈ locs t0 \/ (allocated s0 <= z)%nat) ->
  exists s', (_ ← (if isLeft then _ ← set_right z (Some x); set_left x (ptr cr) else _ ← set_left z (Some x); set_right x (ptr cl));
      relinkGrandparent z x (head (map frame_loc c)) root) s = Ok (match c with [] => Some z | _ => root end, s') /\
    sinking s0 t0 ws copies s' (up_frame isLeft z kz vz pz cl cr :: c) (down_node isLeft l x k v p r cl cr).
Proof.
  intros (Hs & Hc & Ht & Hn & Hg & Hw & Hcp & Hin) Hch Hz Hz0 Hzw Hzt. cbn [ptr] in Hc, Hw. pose proof Ht as (Hx & Hl & Hr).
  set (f := node_frame isLeft l x k v p r).
  assert (Hnz : NoDup (locs (fill f (T cl z kz vz pz cr))) /\ z ∉ ctx_locs c /\ forall y, y ∈ ctx_locs c -> y ∉ locs (fill f (T cl z kz vz pz cr))).
  { nodup_split Hn. destruct Hn as (Hn1 & Hn2 & Hn3). assert (Hfill : locs (fill f (T cl z0 kz vz pz cr)) = locs (T l x k v p r)) by by apply locs_node_frame.
    destruct Hz0 as [->|Hz0]; [rewrite Hfill|].
    - split_and!; [done| |done]. intros Hzc. apply (Hn2 z0 Hzc). eapply in_child; [exact Hch|apply in_root].
    - rewrite <-Hfill in Hz0, Hn2, Hn3. rewrite elem_of_app in Hz0. clear -Hz0 Hn2 Hn3. unfold f in *.
      assert (Hfl : forall w, locs (fill (node_frame isLeft l x k v p r) (T cl w kz vz pz cr)) ≡ₚ w :: (x :: locs (sibling (node_frame isLeft l x k v p r)) ++ locs cl ++ locs cr)).
      { intros w. rewrite locs_fill. cbn [locs]. rewrite <-Permutation_middle, Permutation_swap. by destruct isLeft. }
      revert Hfl. generalize (x :: locs (sibling (node_frame isLeft l x k v p r)) ++ locs cl ++ locs cr). intros rest Hfl.
      rewrite Hfl, NoDup_cons in Hn3. rewrite Hfl, elem_of_cons in Hz0. split_and!; [rewrite Hfl; apply NoDup_cons; tauto|tauto|].
      intros y Hy. specialize (Hn2 y Hy). rewrite Hfl, elem_of_cons in Hn2 |- *. intros [->|Hy']; tauto. }
  destruct Hnz as (Hnz & Hzc & Hdis).
  destruct (rotation_ok s f (ptr (T cl z0 kz vz pz cr)) cl z kz vz pz cr) as (s1 & E1 & Hr1 & Ch1).
  { unfold f. destruct isLeft; cbn [node_frame frame_loc frame_cell]; by rewrite <-Hch. }
  { by unfold f; destruct isLeft. }
  { cbn. assert (Hchild : rep (cells s) (T cl z0 kz vz pz cr)) by (rewrite <-Hch; by destruct isLeft). by split; [|apply Hchild]. }
  { done. }
  assert (Hfl : frame_loc f = x) by by unfold f; destruct isLeft.
  assert (Hprog : (if isLeft then _ ← set_right z (Some x); set_left x (ptr cr) else _ ← set_left z (Some x); set_right x (ptr cl)) s = Ok (tt, s1)).
  { rewrite <-E1. unfold f. by destruct isLeft. }
  rewrite (bind_Ok _ _ _ _ _ Hprog). rewrite Hfl in Ch1. nodup_split Hn. destruct Hn as (Hn1 & Hn2 & Hn3).
  assert (Hxc : x ∉ ctx_locs c) by (intros Hxc; apply (Hn2 x Hxc); cbn; set_solver).
  destruct (relink_ok s1 c z x root) as (s2 & E2 & Hc2 & Ch2); [|done|done|].
  { eapply rep_ctx_only_changes; [exact Ch1|exact Hc|]. intros y Hy [->|[->|[]%elem_of_nil]%elem_of_cons]%elem_of_cons; done. }
  exists s2. split; [exact E2|]. unfold f in Hr1, Hnz, Hdis. rewrite rotate_node_frame in Hr1.
  assert (Hlocs : locs (fill (node_frame isLeft l x k v p r) (T cl z kz vz pz cr)) ≡ₚ locs (fill (up_frame isLeft z kz vz pz cl cr) (down_node isLeft l x k v p r cl cr)))
    by by rewrite <-rotate_node_frame, locs_rotate.
  assert (Hwc : forall y, y ∈ option_list (head (map frame_loc c)) -> y ∈ ctx_locs c).
  { intros y Hy. apply frame_locs_ctx. destruct c; [done|]. cbn in Hy. apply list_elem_of_singleton in Hy as ->. cbn. set_solver. }
  assert (Hr2 : rep (cells s2) (fill (up_frame isLeft z kz vz pz cl cr) (down_node isLeft l x k v p r cl cr))).
  { eapply rep_only_changes; [exact Ch2|exact Hr1|]. intros y Hy Hyc. rewrite <-Hlocs in Hy. by apply (Hdis y); [apply Hwc|]. }
  assert (Hall : allocated s1 = allocated s /\ allocated s2 = allocated s) by (destruct Ch1, Ch2; split; congruence).
  assert (Hzlt : (z < allocated s)%nat) by by eapply Hs.
  assert (Hxlt : (x < allocated s)%nat) by by eapply Hs.
  apply rep_fill in Hr2 as (Hup & Hsib & Hdown).
  assert (Hnew : forall y, y ∈ locs (fill (node_frame isLeft l x k v p r) (T cl z kz vz pz cr)) -> y = z \/ y ∈ locs (T l x k v p r)).
  { intros y. rewrite <-(locs_node_frame isLeft l x k v p r (T cl z0 kz vz pz cr)) by done. rewrite !locs_fill. cbn [locs]. set_solver. }
  unfold sinking. cbn [rep_ctx ctx_locs map]. assert (Hzu : frame_loc (up_frame isLeft z kz vz pz cl cr) = z) by by destruct isLeft.
  split_and!.
  - assert (Hs1 : store_ok s1). { eapply only_changes_ok; [exact Hs|exact Ch1|]. intros y [->|[->|[]%elem_of_nil]%elem_of_cons]%elem_of_cons; done. }
    eapply only_changes_ok; [exact Hs1|exact Ch2|]. intros y Hy%Hwc. destruct Hall as [-> _]. eapply rep_locs_lt; [done| |].
    + apply (rep_plug (cells s) c (T l x k v p r)). by split_and!.
    + rewrite locs_plug. set_solver.
  - done.
  - done.
  - by rewrite Hzu.
  - done.
  - rewrite locs_fill in Hlocs. assert (Hp : (frame_loc (up_frame isLeft z kz vz pz cl cr) :: locs (sibling (up_frame isLeft z kz vz pz cl cr)) ++ ctx_locs c) ++ locs (down_node isLeft l x k v p r cl cr)
      ≡ₚ ctx_locs c ++ locs (fill (node_frame isLeft l x k v p r) (T cl z kz vz pz cr))).
    { rewrite locs_fill, Hlocs, locs_fill. cbn [app]. rewrite <-Permutation_middle. apply Permutation_skip.
      rewrite (Permutation_app_comm (locs (sibling _))), <-!app_assoc. done. }
    rewrite Hp. rewrite NoDup_app. split_and!; [done|done|done].
  - eapply grows_only; [eapply grows_only; [exact Hg|exact Ch1|]|exact Ch2|].
    + intros y [->|[->|[]%elem_of_nil]%elem_of_cons]%elem_of_cons; [done|]. apply Hw. cbn. set_solver.
    + intros y Hy. apply Hw. destruct c; [by apply elem_of_nil in Hy|]. cbn in Hy |- *. set_solver.
  - intros y. rewrite Hzu. assert (Hd : option_list (ptr (down_node isLeft l x k v p r cl cr)) = [x]) by by destruct isLeft.
    rewrite Hd. cbn [app]. rewrite !elem_of_cons. intros [->|[->|Hy]]; [apply Hw; cbn; set_solver|done|apply Hw; set_solver].
  - intros Hf y Hy. apply (Hcp Hf). rewrite locs_fill in Hlocs.
    destruct isLeft; cbn [down_node locs node_frame] in *; rewrite Hch; cbn [locs]; set_solver.
  - intros y Hy. destruct (decide (y ∈ ctx_locs c)) as [Hyc|Hyc]; [apply Hin; set_solver|].
    assert (Hy' : y ∈ locs (fill (node_frame isLeft l x k v p r) (T cl z kz vz pz cr))).
    { rewrite Hlocs, locs_fill. set_solver. }
    apply Hnew in Hy' as [->|Hy']; [done|apply Hin; set_solver].
Qed.

Lemma sinking_clone s0 t0 ws s c t z n : sinking s0 t0 ws true s c t -> z ∈ locs t -> cells s !! z = Some n ->
  exists s1, cloneTreapNode z s = Ok (allocated s, s1) /\ sinking s0 t0 ws true s1 c t /\ cells s1 !! allocated s = Some n /\
    allocated s ∉ ctx_locs c ++ locs t /\ (allocated s0 <= allocated s)%nat.
Proof.
  intros (Hs & Hc & Ht & Hn & [Ha Hg] & Hw & Hcp & Hin) Hz Hn0. destruct (clone_ok s z n Hs Hn0) as (s1 & E1 & Hs1 & Hx & Hal & Hother).
  assert (Hold : forall y, y ∈ ctx_locs c ++ locs t -> (y < allocated s)%nat).
  { intros y Hy. eapply (rep_locs_lt s (plug c t)); [done|by apply rep_plug|by rewrite locs_plug]. }
  exists s1. split; [done|]. split; [|split_and!; [done|intros Hy; specialize (Hold _ Hy); lia|done]].
  split_and!; try done.
  - eapply rep_ctx_agree; [exact Hc|]. intros y Hy. apply Hother. specialize (Hold y ltac:(set_solver)). lia.
  - eapply rep_agree; [exact Ht|]. intros y Hy. apply Hother. specialize (Hold y ltac:(set_solver)). lia.
  - split; [lia|]. intros y Hy Hny. rewrite Hother by lia. by apply Hg.
Qed.

(** The child that moves up when there are two. *)
Lemma join_step l r : (l <> E \/ r <> E) -> exists (isLeft : bool) cl z kz vz pz cr,
  (if isLeft then l else r) = T cl z kz vz pz cr /\
  (forall x k v p, join l r = match down_node isLeft l x k v p r cl cr with
     | T l' _ _ _ _ r' => fill (up_frame isLeft z kz vz pz cl cr) (join l' r') | E => E end) /\
  (l = E -> isLeft = false) /\ (r = E -> isLeft = true) /\
  (forall l1 x1 k1 v1 p1 r1 l2 x2 k2 v2 p2 r2, l = T l1 x1 k1 v1 p1 r1 -> r = T l2 x2 k2 v2 p2 r2 -> isLeft = (p2 <=? p1)).
Proof.
  intros Hne. destruct l as [|l1 x1 k1 v1 p1 r1], r as [|l2 x2 k2 v2 p2 r2]; [by destruct Hne| | |].
  - exists false. eexists _, _, _, _, _, _. split; [done|]. split_and!; try done. intros. cbn. by rewrite !join_E_l.
  - exists true. eexists _, _, _, _, _, _. split; [done|]. split_and!; try done. intros. cbn. by rewrite !join_E_r.
  - exists (p2 <=? p1). destruct (p2 <=? p1) eqn:Ep; eexists _, _, _, _, _, _; (split; [done|]); (split; [intros; rewrite join_T, Ep; done|]);
      (split_and!; [done|done|]); intros ???????????? [= <- <- <- <- <- <-] [= <- <- <- <- <- <-]; by rewrite Ep.
Qed.

(** Rotating down to a leaf. *)
Lemma sink_ok s0 t0 ws copies : forall n s c l x k v p r root f,
  sinking s0 t0 ws copies s c (T l x k v p r) -> (length (locs l ++ locs r) <= n)%nat -> (n <= f)%nat -> (c <> [] -> root = last (map frame_loc c)) ->
  exists s' c' root', sink f copies x (head (map frame_loc c)) root s = Ok ((head (map frame_loc c'), root'), s') /\
    sinking s0 t0 ws copies s' c' (T E x k v p E) /\ strip (plug c' E) = strip (plug c (join l r)) /\
    (c' <> [] -> root' = last (map frame_loc c')) /\ (c' = [] -> c = [] /\ l = E /\ r = E).
Proof.
  induction n as [|n IH]; intros s c l x k v p r root f Hk Hn Hf Hroot;
    pose proof Hk as (Hs & Hc & Ht & Hnd & Hg & Hw & Hcp & Hin); pose proof Ht as (Hx & Hl & Hr).
  { rewrite length_app in Hn. assert (l = E /\ r = E) as [-> ->] by (destruct l, r; cbn in Hn; (done || lia)).
    exists s, c, root. split; [|split_and!; try done]. destruct f; cbn [sink]; by rewrite (bind_Ok _ _ _ _ _ (load_Ok _ _ _ Hx)). }
  assert (Hd : (l = E /\ r = E) \/ (l <> E \/ r <> E)) by (destruct l, r; [by left|right; by right|right; by left|right; by left]).
  destruct Hd as [[-> ->]|Hne].
  { exists s, c, root. split; [|split_and!; try done]. destruct f; cbn [sink]; by rewrite (bind_Ok _ _ _ _ _ (load_Ok _ _ _ Hx)). }
  destruct f as [|f]; [lia|]. destruct (join_step l r) as (isLeft & cl & z0 & kz & vz & pz & cr & Hch & Hjoin & HlE & HrE & Hcmp).
  { done. }
  assert (Hchild : rep (cells s) (T cl z0 kz vz pz cr)) by (rewrite <-Hch; by destruct isLeft).
  assert (Hz0 : z0 ∈ locs (T l x k v p r)) by (eapply in_child; [exact Hch|apply in_root]).
  (* the child chosen *)
  assert (Hsel : (match ptr l, ptr r with
      | None, None => panic
      | None, Some r' => mret (r', false)
      | Some l', None => mret (l', true)
      | Some l', Some r' => nl ← load l'; nr ← load r'; mret (if tn_priority nr <=? tn_priority nl then (l', true) else (r', false))
      end) s = Ok ((z0, isLeft), s)).
  { destruct l as [|l1 x1 k1 v1 p1 r1], r as [|l2 x2 k2 v2 p2 r2]; cbn [ptr].
    - by destruct Hne.
    - rewrite HlE in * by done. by injection Hch as -> -> -> -> -> ->.
    - rewrite HrE in * by done. by injection Hch as -> -> -> -> -> ->.
    - destruct Hl as (Hl0 & _), Hr as (Hr0 & _). rewrite (bind_Ok _ _ _ _ _ (load_Ok _ _ _ Hl0)), (bind_Ok _ _ _ _ _ (load_Ok _ _ _ Hr0)).
      cbn [tn_priority cell]. specialize (Hcmp _ _ _ _ _ _ _ _ _ _ _ _ eq_refl eq_refl). rewrite <-Hcmp. destruct isLeft; by injection Hch as -> -> -> -> -> ->. }
  (* its copy *)
  assert (Hcl : exists z s1, (if copies then cloneTreapNode z0 else mret z0) s = Ok (z, s1) /\ sinking s0 t0 ws copies s1 c (T l x k v p r) /\
    cells s1 !! z = Some (cell kz vz pz (ptr cl) (ptr cr)) /\ (z = z0 \/ z ∉ ctx_locs c ++ locs (T l x k v p r)) /\ (z ∈ ws \/ (allocated s0 <= z)%nat) /\
    (z ∈ locs t0 \/ (allocated s0 <= z)%nat)).
  { destruct Hchild as (Hz & _). destruct copies.
    - destruct (sinking_clone _ _ _ _ _ _ _ _ Hk Hz0 Hz) as (s1 & E1 & Hk1 & Hz1 & Hfr & Hle). exists (allocated s), s1. split_and!; (done || by right).
    - exists z0, s. split_and!; try done; [by left|left; by apply Hcp|apply Hin; set_solver]. }
  destruct Hcl as (z & s1 & Ecl & Hk1 & Hz & Hzz & Hzw & Hzt).
  destruct (sink_rotate s0 t0 ws copies s1 c l x k v p r isLeft cl z0 z kz vz pz cr root Hk1 Hch Hz Hzz Hzw Hzt) as (s2 & E2 & Hk2).
  pose proof (Hjoin x k v p) as Hj.
  assert (Hsize : forall l' x' k' v' p' r', down_node isLeft l x k v p r cl cr = T l' x' k' v' p' r' -> (length (locs l' ++ locs r') <= n)%nat).
  { clear -Hch Hn. rewrite length_app in Hn. destruct isLeft; cbn [down_node]; intros ?????? [= <- <- <- <- <- <-]; rewrite Hch in Hn; rewrite length_app; cbn in Hn; rewrite length_app in Hn; lia. }
  destruct (down_node isLeft l x k v p r cl cr) as [|l' x' k' v' p' r'] eqn:Ed; [by destruct isLeft|].
  assert (x' = x /\ k' = k /\ v' = v /\ p' = p) as (-> & -> & -> & ->) by (destruct isLeft; by injection Ed).
  assert (Hzu : frame_loc (up_frame isLeft z kz vz pz cl cr) = z) by by destruct isLeft.
  destruct (IH s2 (up_frame isLeft z kz vz pz cl cr :: c) l' x k v p r' (match c with [] => Some z | _ => root end) f) as (s' & c' & root' & E3 & Hk3 & Hst3 & Hr3 & Hne3);
    [exact Hk2|by eapply Hsize|lia| |].
  { intros _. destruct c as [|g c]; [cbn [map last]; by rewrite Hzu|]. rewrite Hroot by done. done. }
  exists s', c', root'. split_and!; [|done| |done|intros ->; by destruct Hne3].
  - cbn [sink]. rewrite (bind_Ok _ _ _ _ _ (load_Ok _ _ _ Hx)). cbn [tn_left tn_right cell].
    cbn [map head] in E3. rewrite Hzu in E3. rewrite <-E3. pose proof Hz as Hload.
    assert (Hcont : forall K : nat * bool -> M (pointer * pointer), (match ptr l, ptr r with None, None => mret (head (map frame_loc c), root) | _, _ =>
        (match ptr l, ptr r with
      | None, None => panic
      | None, Some r' => mret (r', false)
      | Some l', None => mret (l', true)
      | Some l', Some r' => nl ← load l'; nr ← load r'; mret (if tn_priority nr <=? tn_priority nl then (l', true) else (r', false))
      end) ≫= K end) s = K (z0, isLeft) s).
    { intros K. rewrite <-(bind_Ok _ K _ _ _ Hsel). destruct l, r; [by destruct Hne| | |]; done. }
    rewrite Hcont. rewrite (bind_Ok _ _ _ _ _ Ecl), (bind_Ok _ _ _ _ _ (load_Ok _ _ _ Hload)). cbn [tn_left tn_right cell].
    by rewrite (bind2_Ok _ _ _ _ _ _ E2).
  - rewrite Hst3, Hj. cbn [plug]. rewrite !strip_plug, !strip_fill. by destruct isLeft.
Qed.

(** * [Delete] *)

Definition delete_tree (key : bytes) (t : tree) : tree :=
  let '(c, t') := zip key t [] in match t' with E => t | T l _ _ _ _ r => plug c (join l r) end.

Lemma strip_join l r : strip (join l r) = join (strip l) (strip r).
Proof.
  revert r. induction l as [|l1 IHl1 x1 k1 v1 p1 r1 IHr1]; intros r; [by rewrite !join_E_l|].
  induction r as [|l2 IHl2 x2 k2 v2 p2 r2 IHr2]; [by rewrite !join_E_r|]. cbn [strip] in *. rewrite !join_T.
  destruct (p2 <=? p1); cbn [strip]; [by rewrite IHr1|by rewrite IHl2].
Qed.

Lemma strip_delete key t : strip (delete_tree key t) = delete_tree key (strip t).
Proof.
  unfold delete_tree. change (zip key (strip t) []) with (zip key (strip t) (map strip_frame [])). rewrite zip_strip.
  destruct (zip key t []) as [c [|l x k w p r]]; cbn [fst snd strip]; [done|]. by rewrite strip_plug, strip_join.
Qed.

Lemma inorder_join l r : inorder (join l r) = inorder l ++ inorder r.
Proof.
  revert r. induction l as [|l1 IHl1 x1 k1 v1 p1 r1 IHr1]; intros r; [by rewrite join_E_l|].
  induction r as [|l2 IHl2 x2 k2 v2 p2 r2 IHr2]; [by rewrite join_E_r, app_nil_r|]. rewrite join_T.
  destruct (p2 <=? p1); cbn [inorder] in *; [rewrite IHr1|rewrite IHl2]; cbn [inorder]; by rewrite <-!app_assoc.
Qed.

Lemma inorder_delete key t : sorted (inorder t) -> inorder (delete_tree key t) = delete_entry key (inorder t) /\ sorted (delete_entry key (inorder t)).
Proof.
  intros Hs. pose proof (zip_cut key t Hs) as Hc. unfold delete_tree. destruct (zip key t []) as [c t'].
  destruct Hc as (l1 & l2 & Hb & Ha & Hs' & Hc). destruct t' as [|l x k w p r].
  - destruct Hc as (_ & _ & E1). by rewrite E1, delete_entry_app, delete_entry_above.
  - destruct Hc as (-> & E1 & E2 & E0). rewrite E0, delete_entry_app by done. cbn [delete_entry]. rewrite Compare_refl. split; [|done].
    rewrite inorder_plug, inorder_join, <-E1, <-E2, <-!app_assoc. done.
Qed.

(** The removal of the leaf. *)
Lemma unlink_ok s0 t0 ws copies s f c x k v p : sinking s0 t0 ws copies s (f :: c) (T E x k v p E) ->
  exists s', unlink (frame_loc f) x s = Ok (tt, s') /\ holds s' (plug (f :: c) E) /\ grows ws s0 s' /\
    (forall y, y ∈ locs (plug (f :: c) E) -> y ∈ locs t0 \/ (allocated s0 <= y)%nat).
Proof.
  intros (Hs & (Hf & Hsib & Hc) & (Hx & _ & _) & Hn & Hg & Hw & Hcp & Hin). cbn [ptr] in *. unfold unlink.
  rewrite (bind_Ok _ _ _ _ _ (load_Ok _ _ _ Hf)).
  assert (Hu : (if decide (tn_right (frame_cell f (Some x)) = Some x) then set_right (frame_loc f) None else set_left (frame_loc f) None) s =
    Ok (tt, upd (frame_loc f) (frame_cell f None) s)).
  { destruct f as [y ky vy py s1|s1 y ky vy py]; cbn [frame_cell frame_loc cell tn_right sibling ctx_locs] in *.
    - rewrite decide_False; [by rewrite (set_left_Ok _ _ _ _ Hf)|]. intros Hp. nodup_split Hn. destruct s1; [done|]. cbn in Hp, Hn. injection Hp as ->. set_solver.
    - rewrite decide_True by done. by rewrite (set_right_Ok _ _ _ _ Hf). }
  rewrite Hu. eexists. split; [done|]. cbn [ctx_locs] in Hn, Hin. split_and!.
  - split_and!.
    + apply upd_ok; [done|]. by eapply Hs.
    + apply rep_plug. split; [|done]. cbn [rep_ctx cells upd ptr]. nodup_split Hn.
      split_and!; [by rewrite lookup_insert_eq|apply rep_insert; [set_solver|done]|apply rep_ctx_insert; [set_solver|done]].
    + rewrite locs_plug, app_nil_r. nodup_split Hn. cbn [ctx_locs]. rewrite NoDup_cons, NoDup_app. set_solver.
  - eapply grows_only; [exact Hg|apply only_changes_upd|]. intros y ->%list_elem_of_singleton. apply Hw. cbn. set_solver.
  - intros y Hy. rewrite locs_plug, app_nil_r in Hy. apply Hin. cbn [ctx_locs] in Hy. set_solver.
Qed.

Lemma copying_down s0 t0 s c f t : copying s0 t0 s c (fill f t) -> (allocated s0 <= frame_loc f)%nat -> copying s0 t0 s (f :: c) t.
Proof.
  intros (Hs & Hc & Ht & Hn & Hg & Hf & Hw) Hfr. apply rep_fill in Ht as (H0 & H1 & H2). rewrite ptr_fill in Hc.
  assert (Hp : ctx_locs (f :: c) ++ locs t ≡ₚ ctx_locs c ++ locs (fill f t)) by by rewrite <-!locs_plug.
  split_and!; try done.
  - by rewrite Hp.
  - intros y. cbn [map]. rewrite elem_of_cons. intros [->|Hy]; [done|by apply Hf].
  - intros y. rewrite Hp. apply Hw.
Qed.

Lemma copy_parents_ok s0 t0 l x k v p r inner : forall s cc outer parents newParents,
  copying s0 t0 s cc (plug inner (T l x k v p r)) -> stack_is parents ((x :: map frame_loc inner) ++ outer) -> stack_is newParents (map frame_loc cc) ->
  exists s' c' y ps', copy_parents (S (length inner)) parents newParents s = Ok (ps', s') /\ copying s0 t0 s' c' (T l y k v p r) /\
    map strip_frame c' = map strip_frame (inner ++ cc) /\ stack_is ps' (y :: map frame_loc c') /\ (allocated s0 <= y)%nat.
Proof.
  induction inner as [|f inner IH] using rev_ind; intros s cc outer parents newParents Hcp Hps Hnp.
  - cbn [length copy_parents plug] in *. rewrite (stack_is_At _ _ 0 Hps). cbn [app map lookup list_lookup deref].
    rewrite (bind_Ok _ _ s x s) by done. destruct (copy_step _ _ _ _ _ _ _ _ _ _ Hcp) as (s1 & s2 & E1 & E2 & Hcp2 & _).
    rewrite <-(stack_At_head _ _ Hnp) in E2. rewrite (bind_Ok _ _ _ _ _ E1), (bind_Ok _ _ _ _ _ E2).
    exists s2, cc, (allocated s), (stack_Push (allocated s) newParents). split_and!; try done; [by apply stack_is_Push|]. by destruct Hcp as (_ & _ & _ & _ & [? _] & _).
  - rewrite length_app. cbn [length]. rewrite Nat.add_1_r. cbn [copy_parents].
    assert (Hat : stack_At (Z.of_nat (S (length inner))) parents = Some (frame_loc f)).
    { rewrite (stack_is_At _ _ _ Hps), map_app. cbn [map].
      replace ((x :: map frame_loc inner ++ [frame_loc f]) ++ outer) with ((x :: map frame_loc inner) ++ frame_loc f :: outer) by (cbn; by rewrite <-app_assoc).
      apply list_lookup_middle. cbn. by rewrite length_map. }
    rewrite Hat. cbn [deref]. rewrite (bind_Ok _ _ s (frame_loc f) s) by done. rewrite plug_app in Hcp. cbn [plug] in Hcp.
    set (t := plug inner (T l x k v p r)) in *.
    assert (Hstep : exists s1 s2 f', cloneTreapNode (frame_loc f) s = Ok (allocated s, s1) /\ link_copy (head (map frame_loc cc)) (frame_loc f) (allocated s) s1 = Ok (tt, s2) /\
      copying s0 t0 s2 (f' :: cc) t /\ frame_loc f' = allocated s /\ strip_frame f' = strip_frame f).
    { assert (Hle : (allocated s0 <= allocated s)%nat) by by destruct Hcp as (_ & _ & _ & _ & [? _] & _).
      destruct f as [z kz vz pz sz|sz z kz vz pz]; cbn [fill frame_loc] in *;
        destruct (copy_step _ _ _ _ _ _ _ _ _ _ Hcp) as (s1 & s2 & E1 & E2 & Hcp2 & _); exists s1, s2;
        [exists (L (allocated s) kz vz pz sz)|exists (R sz (allocated s) kz vz pz)]; split_and!; try done; by apply copying_down. }
    destruct Hstep as (s1 & s2 & f' & E1 & E2 & Hcp2 & Hloc & Hst). rewrite <-(stack_At_head _ _ Hnp) in E2.
    rewrite (bind_Ok _ _ _ _ _ E1), (bind_Ok _ _ _ _ _ E2).
    destruct (IH s2 (f' :: cc) (frame_loc f :: outer) parents (stack_Push (allocated s) newParents)) as (s' & c' & y & ps' & E3 & Hcp3 & Hst3 & Hps3 & Hy).
    { done. }
    { rewrite map_app in Hps. cbn [map app] in *. by rewrite <-app_assoc in Hps. }
    { cbn [map]. rewrite Hloc. by apply stack_is_Push. }
    exists s', c', y, ps'. split_and!; try done. rewrite Hst3, !map_app. cbn [map]. rewrite Hst, <-app_assoc. done.
Qed.

Lemma counts_deleted count size key k v p l r t t' l1 l2 : counts count size t -> inorder t = l1 ++ (key, v) :: l2 -> below key l1 -> above key l2 ->
  inorder t' = delete_entry key (inorder t) -> k = key ->
  counts (swrap 64 (count - 1)) (uwrap 64 (size - nodeSize (cell k v p l r))) t'.
Proof.
  intros Hcount E1 Hb Ha E2 ->. eapply counts_app_delete; [exact Hcount|exact E1|]. rewrite E2, E1, delete_entry_app by done. cbn. by rewrite Compare_refl.
Qed.

(** [Delete] in place. *)
Lemma mutable_Delete_ok s key mt t : mutable_holds s mt t ->
  exists s' mt' t', mutable_Delete key mt s = Ok (mt', s') /\ mutable_holds s' mt' t' /\
    inorder t' = delete_entry key (inorder t) /\ same_shape t' (delete_tree key t) /\ grows (locs t) s s' /\ within s t t'.
Proof.
  intros (Hh & Hso & Hroot & Hcount). pose proof Hh as (Hs & Hr & Hn). unfold mutable_Delete. rewrite Hroot, (bind_Ok _ _ _ _ _ (get_node_ok _ _ _ Hh)).
  destruct (inorder_delete key t Hso) as [Hin Hso']. pose proof (zip_cut key t Hso) as Hcut.
  destruct (rep_zip s key t []) as [Hc Hr']; [done|]. pose proof (locs_zip key t) as Hl. pose proof (zip_plug key t []) as Hp.
  unfold delete_tree in *. destruct (zip key t []) as [c [|l x k w p r]]; cbn [fst snd ptr plug] in *; destruct Hcut as (l1 & l2 & Hb & Ha & _ & Hcut).
  { exists s, mt, t. split_and!; try done. intros y Hy. by left. }
  destruct Hcut as (-> & _ & _ & Ein). pose proof Hr' as (H0 & Hrl & Hrr). rewrite (bind_Ok _ _ _ _ _ (load_Ok _ _ _ H0)). cbn [tn_left tn_right cell].
  assert (Hlast : (c = [] /\ l = E /\ r = E) \/ (c <> [] \/ l <> E \/ r <> E)).
  { destruct c, l, r; try (left; done); right; first [by left|by right; left|by right; right]. }
  destruct Hlast as [(-> & -> & ->)|Hlast].
  { cbn. cbn [plug] in *. exists s, NewMutable, E. split; [done|]. subst t. split_and!; try done.
    - split_and!; [split_and!; [done|done|constructor]|constructor|done|done].
    - intros y Hy. by apply elem_of_nil in Hy. }
  assert (Hsk : sinking s t (locs t) false s c (T l x key w p r)).
  { split_and!; try done.
    - by rewrite Hl.
    - intros y Hy. left. rewrite <-Hl. cbn [ptr option_list] in Hy. apply elem_of_app in Hy as [->%list_elem_of_singleton|Hy%frame_locs_ctx]; [cbn; set_solver|set_solver].
    - intros _ y Hy. rewrite <-Hl. set_solver.
    - intros y Hy. left. by rewrite <-Hl. }
  destruct (sink_ok s t (locs t) false (length (locs l ++ locs r)) s c l x key w p r (ptr t) (S (allocated s)) Hsk) as (s1 & c' & root' & E1 & Hsk1 & Hst & Hroot' & Hne); [done| | |].
  { pose proof (holds_size _ _ Hh). rewrite <-Hl in H. rewrite !length_app in *. cbn [locs length] in H. rewrite length_app in H. lia. }
  { intros Hcn. rewrite <-Hp. by apply ptr_plug_nonempty. }
  destruct c' as [|f' c']; [destruct (Hne eq_refl) as (-> & -> & ->); by destruct Hlast as [?|[?|?]]|].
  destruct (unlink_ok _ _ _ _ _ _ _ _ _ _ _ Hsk1) as (s2 & E2 & Hh2 & Hg2 & Hw2).
  assert (Hshape : same_shape (plug (f' :: c') E) (plug c (join l r))) by done.
  assert (Hino : inorder (plug (f' :: c') E) = delete_entry key (inorder t)) by (rewrite <-Hin; by apply strip_inorder).
  eexists s2, _, (plug (f' :: c') E). split.
  { transitivity ((f ← fuel; '(parent, root) ← sink f false x (head (map frame_loc c)) (ptr t); parent ← deref parent; _ ← unlink parent x;
      mret {| mt_root := root; mt_count := swrap 64 (mt_count mt - 1); mt_totalSize := uwrap 64 (mt_totalSize mt - nodeSize (cell key w p (ptr l) (ptr r))) |}) s).
    - destruct c as [|? ?], l, r; try done. by destruct Hlast as [?|[?|?]].
    - unfold fuel. unfold mbind at 1, M_bind at 1. rewrite (bind_Ok _ _ _ _ _ E1). cbn [map head deref]. rewrite (bind_Ok _ _ s1 (frame_loc f') s1) by done.
      rewrite (bind_Ok _ _ _ _ _ E2). done. }
  unfold mutable_holds. cbn [mt_root mt_count mt_totalSize]. split_and!; try done.
  - by rewrite Hino.
  - rewrite Hroot' by done. symmetry. by apply ptr_plug_nonempty.
  - eapply counts_deleted; done.
Qed.

(** [Delete] on copies. *)
Lemma immutable_Delete_ok s key im t : immutable_holds s im t ->
  exists s' im' t', immutable_Delete key im s = Ok (im', s') /\ immutable_holds s' im' t' /\
    inorder t' = delete_entry key (inorder t) /\ same_shape t' (delete_tree key t) /\ grows [] s s' /\ within s t t'.
Proof.
  intros (Hh & Hso & Hroot & Hcount). pose proof Hh as (Hs & Hr & Hn). unfold immutable_Delete. rewrite Hroot. unfold fuel. unfold mbind at 1, M_bind at 1.
  destruct (descend_zip s key t [] empty_stack Eq (S (allocated s))) as (ps & cr & Ed & Hwk);
    [done|apply stack_is_empty|done|pose proof (holds_depth _ _ Hh); lia|]. rewrite (bind_Ok _ _ _ _ _ Ed). unfold walked in Hwk.
  destruct (inorder_delete key t Hso) as [Hin Hso']. pose proof (zip_cut key t Hso) as Hcut.
  destruct (rep_zip s key t []) as [Hc Hr']; [done|]. pose proof (locs_zip key t) as Hl. pose proof (zip_plug key t []) as Hp.
  unfold delete_tree in *. destruct (zip key t []) as [c [|l x k w p r]]; cbn [fst snd ptr plug] in *; destruct Hcut as (l1 & l2 & Hb & Ha & _ & Hcut).
  { exists s, im, t. split_and!; try done. intros y Hy. by left. }
  destruct Hcut as (-> & _ & _ & Ein). pose proof Hr' as (H0 & Hrl & Hrr). rewrite (bind_Ok _ _ _ _ _ (load_Ok _ _ _ H0)). cbn [tn_left tn_right cell].
  pose proof (stack_is_At _ _ 1 Hwk) as Hat. change (Z.of_nat 1) with 1 in Hat. rewrite Hat. cbn [lookup list_lookup].
  assert (Hlast : (c = [] /\ l = E /\ r = E) \/ (c <> [] \/ l <> E \/ r <> E)).
  { destruct c, l, r; try (left; done); right; first [by left|by right; left|by right; right]. }
  destruct Hlast as [(-> & -> & ->)|Hlast].
  { cbn. cbn [plug] in *. exists s, NewImmutable, E. split; [done|]. subst t. split_and!; try done.
    - split_and!; [split_and!; [done|done|constructor]|constructor|done|done].
    - intros y Hy. by apply elem_of_nil in Hy. }
  destruct (copy_parents_ok s t l x key w p r c s [] [] ps empty_stack) as (s1 & c1 & y & np & E1 & Hcp1 & Hst1 & Hnp & Hy);
    [rewrite Hp; by apply copying_refl|by rewrite app_nil_r|apply stack_is_empty|]. rewrite app_nil_r in Hst1.
  destruct (stack_is_Pop _ _ Hnp) as (np' & Epop & Hnp'). cbn [head tail] in Epop, Hnp'.
  pose proof Hcp1 as (Hs1 & Hc1 & Hr1 & Hn1 & Hg1 & Hf1 & Hw1).
  assert (Hsk : sinking s t [] true s1 c1 (T l y key w p r)).
  { split_and!; try done. intros z Hz. right. cbn [ptr option_list] in Hz. apply elem_of_app in Hz as [->%list_elem_of_singleton|Hz]; [done|by apply Hf1]. }
  destruct (sink_ok s t [] true (length (locs l ++ locs r)) s1 c1 l y key w p r (stack_Bottom np') (S (allocated s)) Hsk) as (s2 & c' & root' & E2 & Hsk2 & Hst & Hroot' & Hne); [done| | |].
  { pose proof (holds_size _ _ Hh). rewrite <-Hl in H. rewrite !length_app in *. cbn [locs length] in H. rewrite length_app in H. lia. }
  { intros _. by apply stack_is_Bottom. }
  destruct c' as [|f' c'].
  { destruct (Hne eq_refl) as (-> & -> & ->). symmetry in Hst1. apply map_eq_nil in Hst1 as ->. by destruct Hlast as [?|[?|?]]. }
  destruct (unlink_ok _ _ _ _ _ _ _ _ _ _ _ Hsk2) as (s3 & E3 & Hh3 & Hg3 & Hw3).
  assert (Hshape : same_shape (plug (f' :: c') E) (plug c (join l r))).
  { unfold same_shape. rewrite Hst, !strip_plug. by rewrite Hst1. }
  assert (Hino : inorder (plug (f' :: c') E) = delete_entry key (inorder t)) by (rewrite <-Hin; by apply strip_inorder).
  eexists s3, _, (plug (f' :: c') E). split.
  { transitivity ((newParents ← copy_parents (stack_Len ps) ps empty_stack; let '(delNode, newParents) := stack_Pop newParents in delNode ← deref delNode;
      '(parent, root) ← sink (S (allocated s)) true delNode (stack_At 0 newParents) (stack_Bottom newParents); parent ← deref parent; _ ← unlink parent delNode;
      mret {| im_root := root; im_count := swrap 64 (im_count im - 1); im_totalSize := uwrap 64 (im_totalSize im - nodeSize (cell key w p (ptr l) (ptr r))) |}) s).
    - destruct c as [|? ?], l, r; try done. by destruct Hlast as [?|[?|?]].
    - rewrite (stack_is_Len _ _ Hwk). cbn [length]. rewrite length_map, (bind_Ok _ _ _ _ _ E1), Epop. cbn [deref].
      rewrite (bind_Ok _ _ s1 y s1) by done. rewrite (stack_At_head _ _ Hnp'), (bind_Ok _ _ _ _ _ E2). cbn [map head deref].
      rewrite (bind_Ok _ _ s2 (frame_loc f') s2) by done. rewrite (bind_Ok _ _ _ _ _ E3). done. }
  unfold immutable_holds. cbn [im_root im_count im_totalSize]. split_and!; try done.
  - by rewrite Hino.
  - rewrite Hroot' by done. symmetry. by apply ptr_plug_nonempty.
  - eapply counts_deleted; done.
Qed.
