(* ===== verification/TreapMap.v ===== *)
(** The treaps as finite maps: runs of operations on the mutable treap, all the versions of the
    immutable one, and the order of the priorities. *)

From stdpp Require Import gmap sorting.
From S2P Require Import Prelude Treap TreapStore TreapPut TreapFacts.

(** * Sorted lists and maps *)

Definition to_map (l : list (bytes * bytes)) : gmap bytes bytes := list_to_map l.

Lemma to_map_cons k w l : to_map ((k, w) :: l) = <[k := w]> (to_map l).
Proof. done. Qed.
Lemma to_map_nil : to_map [] = ∅.
Proof. done. Qed.
Lemma to_map_elem l e : sorted l -> e ∈ l <-> to_map l !! fst e = Some (snd e).
Proof.
  destruct e as [x w]. intros Hk. cbn [fst snd]. unfold to_map. rewrite elem_of_list_to_map; [done|]. unfold sorted in Hk.
  change (l.*1) with (map fst l). induction Hk as [|y k Hk IH Hf]; constructor; [|done]. intros Hx. rewrite Forall_forall in Hf. by apply Hf, key_lt_irrefl in Hx.
Qed.
#[local] Opaque to_map.

Lemma get_entry_map key l : sorted l -> get_entry key l = to_map l !! key.
Proof.
  intros Hs. induction l as [|[k w] l IH]; cbn [get_entry]; [by rewrite to_map_nil|]. apply sorted_cons in Hs as [Ha Hs]. rewrite to_map_cons.
  cbn [fst] in Ha. destruct (Compare key k) eqn:Ek.
  - apply Compare_Eq in Ek as ->. by rewrite lookup_insert_eq.
  - rewrite lookup_insert_ne by (intros ->; by rewrite Compare_refl in Ek). rewrite <-IH by done. rewrite get_entry_above; [done|]. by eapply above_trans.
  - rewrite lookup_insert_ne by (intros ->; by rewrite Compare_refl in Ek). by apply IH.
Qed.

Lemma put_entry_sorted key v l : sorted l -> sorted (put_entry key v l).
Proof.
  induction l as [|[k w] l IH]; intros Hs; cbn [put_entry]; [repeat constructor|]. pose proof Hs as Hs0. apply sorted_cons in Hs as [Ha Hs]. cbn [fst] in Ha.
  destruct (Compare key k) eqn:Ek.
  - apply Compare_Eq in Ek as ->. by apply sorted_cons.
  - apply sorted_cons. split; [|done]. cbn [fst]. constructor; [done|by eapply above_trans].
  - apply Compare_Gt in Ek. apply sorted_cons. split; [|by apply IH]. cbn [fst]. clear IH Hs Hs0. induction Ha as [|[k' w'] l Hk Ha IH]; cbn [put_entry]; [by constructor|].
    destruct (Compare key k'); repeat first [done|constructor].
Qed.

Lemma delete_entry_above_all key k l : above k l -> above k (delete_entry key l).
Proof. induction 1 as [|[k' w'] l Hk Ha IH]; cbn [delete_entry]; [constructor|]. destruct (Compare key k'); [done|by constructor|by constructor]. Qed.

Lemma delete_entry_sorted key l : sorted l -> sorted (delete_entry key l).
Proof.
  induction l as [|[k w] l IH]; intros Hs; cbn [delete_entry]; [done|]. pose proof Hs as Hs0. apply sorted_cons in Hs as [Ha Hs].
  destruct (Compare key k); [done|done|]. apply sorted_cons. split; [by apply delete_entry_above_all|by apply IH].
Qed.

Lemma to_map_put key v l : sorted l -> to_map (put_entry key v l) = <[key := v]> (to_map l).
Proof.
  intros Hs. induction l as [|[k w] l IH]; cbn [put_entry]; [done|]. apply sorted_cons in Hs as [Ha Hs]. destruct (Compare key k) eqn:Ek; [|done|].
  - apply Compare_Eq in Ek as ->. by rewrite !to_map_cons, insert_insert_eq.
  - rewrite !to_map_cons, IH by done. apply insert_insert_ne. intros ->. by rewrite Compare_refl in Ek.
Qed.

Lemma to_map_above key l : above key l -> to_map l !! key = None.
Proof.
  induction 1 as [|[k w] l Hk Ha IH]; [by rewrite to_map_nil|]. rewrite to_map_cons, lookup_insert_ne; [done|]. intros ->. by apply key_lt_irrefl in Hk.
Qed.

Lemma to_map_delete key l : sorted l -> to_map (delete_entry key l) = base.delete key (to_map l).
Proof.
  intros Hs. induction l as [|[k w] l IH]; cbn [delete_entry]; [by rewrite to_map_nil, delete_empty|]. apply sorted_cons in Hs as [Ha Hs]. cbn [fst] in Ha.
  destruct (Compare key k) eqn:Ek.
  - apply Compare_Eq in Ek as ->. rewrite to_map_cons, delete_insert_eq. symmetry. apply delete_id. by apply to_map_above.
  - symmetry. apply delete_id. apply to_map_above. constructor; [done|by eapply above_trans].
  - rewrite !to_map_cons, IH by done. rewrite delete_insert_ne; [done|]. intros ->. by rewrite Compare_refl in Ek.
Qed.

Lemma to_map_size l : sorted l -> size (to_map l) = length l.
Proof.
  intros Hs. induction l as [|[k w] l IH]; [by rewrite to_map_nil, map_size_empty|]. apply sorted_cons in Hs as [Ha Hs]. rewrite to_map_cons.
  rewrite map_size_insert_None, IH by (done || by apply to_map_above). done.
Qed.

(** A sorted list is its map. *)
Lemma to_map_inj l l' : sorted l -> sorted l' -> to_map l = to_map l' -> l = l'.
Proof.
  intros Hs Hs' E. assert (Hp : forall e, e ∈ l <-> e ∈ l') by (intros e; by rewrite !to_map_elem, E). clear E.
  revert l' Hs' Hp. induction l as [|[k w] l IH]; intros [|[k' w'] l'] Hs' Hp; [done|specialize (Hp (k', w')); set_solver|specialize (Hp (k, w)); set_solver|].
  apply sorted_cons in Hs as [Ha Hs], Hs' as [Ha' Hs']. cbn [fst] in *. unfold above in *. rewrite Forall_forall in Ha, Ha'.
  assert (Heq : (k, w) = (k', w')).
  { pose proof (proj1 (Hp (k, w)) ltac:(set_solver)) as H1. pose proof (proj2 (Hp (k', w')) ltac:(set_solver)) as H2.
    apply elem_of_cons in H1 as [H1|H1]; [done|]. apply elem_of_cons in H2 as [H2|H2]; [done|].
    apply Ha' in H1. apply Ha in H2. cbn in *. exfalso. eapply key_lt_irrefl. by etrans. }
  injection Heq as <- <-. f_equal. apply IH; [done|done|]. intros e. specialize (Hp e). rewrite !elem_of_cons in Hp.
  split; intros He; [destruct (proj1 Hp) as [->|?]|destruct (proj2 Hp) as [->|?]]; try done; try (by right).
  - by apply Ha, key_lt_irrefl in He.
  - by apply Ha', key_lt_irrefl in He.
Qed.

(** * [ForEach] *)

Section ForEach.
Context {S : Type} (fn : bytes -> bytes -> S -> M (S * bool)) (t : tree) (Inv : list (bytes * bytes) -> S -> store -> Prop).

(** The function goes on and keeps the invariant and the treap. *)
Hypothesis fn_step : forall visited k v rest st s, inorder t = visited ++ (k, v) :: rest -> holds s t -> Inv visited st s ->
  exists st' s', fn k v st s = Ok ((st', true), s') /\ Inv (visited ++ [(k, v)]) st' s' /\ holds s' t.

(** The left spine of a tree, the smallest node first, and what is left to visit after it. *)
Fixpoint spine (u : tree) (acc : list tree) : list tree := match u with E => acc | T l _ _ _ _ _ => spine l (u :: acc) end.
Fixpoint remaining (stk : list tree) : list (bytes * bytes) :=
  match stk with [] => [] | E :: stk => remaining stk | T _ _ k v _ r :: stk => (k, v) :: inorder r ++ remaining stk end.

Definition node_locs (stk : list tree) : list nat := concat (map (fun u => option_list (ptr u)) stk).

Lemma spine_remaining u acc : remaining (spine u acc) = inorder u ++ remaining acc.
Proof. revert acc. induction u as [|l IHl x k v p r IHr]; intros acc; cbn [spine inorder]; [done|]. rewrite IHl. cbn. by rewrite <-app_assoc. Qed.

Lemma spine_Forall (P : tree -> Prop) u acc : (forall l x k v p r, P (T l x k v p r) -> l <> E -> P l) -> (u <> E -> P u) -> Forall P acc -> Forall P (spine u acc).
Proof.
  intros Hl. revert acc. induction u as [|l IHl x k v p r IHr]; intros acc Hu Hacc; cbn [spine]; [done|]. apply IHl; [|constructor; [by apply Hu|done]].
  intros Hne. eapply Hl; [by apply Hu|done].
Qed.

Lemma push_left_ok s u acc ps f : rep (cells s) u -> (depth u <= f)%nat -> stack_is ps (node_locs acc) ->
  exists ps', push_left f (ptr u) ps s = Ok (ps', s) /\ stack_is ps' (node_locs (spine u acc)).
Proof.
  revert acc ps f. induction u as [|l IHl x k v p r IHr]; intros acc ps f Hr Hf Hps; cbn [ptr spine depth] in *; [exists ps; by destruct f|].
  destruct f as [|f]; [lia|]. destruct Hr as (H0 & Hl & Hr). cbn [push_left]. rewrite (bind_Ok _ _ _ _ _ (load_Ok _ _ _ H0)). cbn [tn_left cell].
  apply IHl; [done|lia|]. by apply (stack_is_Push ps (node_locs acc)).
Qed.

(** A node on the stack: not nil, and a part of the treap in any store that holds it. *)
Definition part (u : tree) : Prop := u <> E /\ (depth u <= depth t)%nat /\ forall s, rep (cells s) t -> rep (cells s) u.

Lemma part_left l x k v p r : part (T l x k v p r) -> l <> E -> part l.
Proof. intros (_ & Hd & Hr) Hne. split_and!; [done|cbn in Hd; lia|]. intros s Hs. by destruct (Hr s Hs) as (_ & ? & _). Qed.

Lemma for_each_ok n : forall stk visited st s ps f, Forall part stk -> inorder t = visited ++ remaining stk -> (length (remaining stk) <= n)%nat -> (n <= f)%nat ->
  stack_is ps (node_locs stk) -> holds s t -> Inv visited st s ->
  exists st' s', for_each f fn ps st s = Ok (st', s') /\ Inv (inorder t) st' s' /\ holds s' t.
Proof.
  induction n as [|n IH]; intros stk visited st s ps f Hp Hin Hn Hf Hps Hh Hi; pose proof (stack_is_Len _ _ Hps) as El.
  - assert (stk = []) as -> by (destruct stk as [|[|? ? ? ? ? ?] stk]; [done|by apply Forall_cons in Hp as [[? _] _]|cbn in Hn; lia]).
    cbn [node_locs map concat length remaining] in *. exists st, s. rewrite app_nil_r in Hin. rewrite Hin. split; [|done]. destruct f; cbn [for_each]; by rewrite decide_True.
  - destruct stk as [|u stk].
    { exists st, s. cbn [remaining] in Hin. rewrite app_nil_r in Hin. rewrite Hin. split; [|done]. destruct f; cbn [for_each]; by rewrite decide_True. }
    apply Forall_cons in Hp as [Hu Hp]. destruct u as [|l x k v p r]; [by destruct Hu|]. cbn [remaining length] in *.
    destruct f as [|f]; [lia|]. cbn [for_each]. rewrite decide_False by (rewrite El; done).
    destruct (stack_is_Pop _ _ Hps) as (ps' & Epop & Hps'). rewrite Epop. cbn [node_locs map concat ptr option_list app head tail deref] in *.
    rewrite (bind_Ok _ _ s x s) by done. destruct Hu as (_ & Hd & Hu). destruct (Hu s) as (H0 & _ & _); [apply Hh|].
    rewrite (bind_Ok _ _ _ _ _ (load_Ok _ _ _ H0)). cbn [tn_key tn_value tn_right cell].
    destruct (fn_step visited k v (inorder r ++ remaining stk) st s Hin Hh Hi) as (st' & s' & E1 & Hi' & Hh'). rewrite (bind_Ok _ _ _ _ _ E1).
    cbn [negb]. unfold Treap.fuel. unfold mbind at 1, M_bind at 1. destruct (Hu s') as (_ & _ & Hr'); [apply Hh'|].
    destruct (push_left_ok s' r stk ps' (Datatypes.S (allocated s')) Hr') as (ps2 & E2 & Hps2); [pose proof (holds_depth _ _ Hh'); cbn in Hd; lia|done|].
    rewrite (bind_Ok _ _ _ _ _ E2). apply (IH (spine r stk) (visited ++ [(k, v)])); [| | |lia|done|done|done].
    + apply spine_Forall; [intros; by eapply part_left|intros Hne|done]. split_and!; [done|cbn in Hd; lia|]. intros s2 Hs2. by destruct (Hu s2 Hs2) as (_ & _ & ?).
    + rewrite spine_remaining, <-app_assoc. done.
    + rewrite spine_remaining. cbn in Hn. lia.
Qed.

(** The rule of the loop. *)
Lemma treap_ForEach_ok st s : holds s t -> Inv [] st s ->
  exists st' s', treap_ForEach fn (ptr t) st s = Ok (st', s') /\ Inv (inorder t) st' s' /\ holds s' t.
Proof.
  intros Hh Hi. unfold treap_ForEach, Treap.fuel. unfold mbind at 1, M_bind at 1.
  destruct (push_left_ok s t [] empty_stack (Datatypes.S (allocated s))) as (ps & E1 & Hps); [apply Hh|pose proof (holds_depth _ _ Hh); lia|apply stack_is_empty|].
  rewrite (bind_Ok _ _ _ _ _ E1). apply (for_each_ok (length (inorder t)) (spine t []) []); try done.
  - apply spine_Forall; [intros; by eapply part_left| |constructor]. intros Hne. by split_and!.
  - rewrite spine_remaining. cbn. by rewrite app_nil_r.
  - rewrite spine_remaining. cbn. by rewrite app_nil_r.
  - rewrite <-length_locs. pose proof (holds_size _ _ Hh). lia.
Qed.
End ForEach.

(** * Runs *)

Inductive treap_op := op_Put (priority : Z) (key : bytes) (value : option bytes) | op_Delete (key : bytes).

Definition apply_map (m : gmap bytes bytes) (op : treap_op) : gmap bytes bytes :=
  match op with op_Put _ key value => <[key := value_of value]> m | op_Delete key => base.delete key m end.

Definition apply_entries (l : list (bytes * bytes)) (op : treap_op) : list (bytes * bytes) :=
  match op with op_Put _ key value => put_entry key (value_of value) l | op_Delete key => delete_entry key l end.

Definition apply_tree (t : tree) (op : treap_op) : tree :=
  match op with op_Put priority key value => put_tree priority key (value_of value) t | op_Delete key => delete_tree key t end.

Definition mutable_apply (mt : Mutable) (op : treap_op) : M Mutable :=
  match op with op_Put priority key value => mutable_Put priority key value mt | op_Delete key => mutable_Delete key mt end.
Definition immutable_apply (im : Immutable) (op : treap_op) : M Immutable :=
  match op with op_Put priority key value => immutable_Put priority key value im | op_Delete key => immutable_Delete key im end.

Fixpoint mutable_run (ops : list treap_op) (mt : Mutable) : M Mutable :=
  match ops with [] => mret mt | op :: ops => mt ← mutable_apply mt op; mutable_run ops mt end.

(** Every version of an immutable treap, the first one included. *)
Fixpoint immutable_versions (ops : list treap_op) (im : Immutable) : M (list Immutable) :=
  match ops with [] => mret [im] | op :: ops => im' ← immutable_apply im op; ims ← immutable_versions ops im'; mret (im :: ims) end.

Lemma apply_entries_ok op l : sorted l -> sorted (apply_entries l op) /\ to_map (apply_entries l op) = apply_map (to_map l) op.
Proof.
  intros Hs. destruct op; cbn [apply_entries apply_map]; [split; [by apply put_entry_sorted|by apply to_map_put]|split; [by apply delete_entry_sorted|by apply to_map_delete]].
Qed.

Lemma strip_apply t op : strip (apply_tree t op) = apply_tree (strip t) op.
Proof. destruct op; [apply strip_put|apply strip_delete]. Qed.

Lemma strip_strip t : strip (strip t) = strip t.
Proof. induction t as [|l IHl x k v p r IHr]; cbn; [done|]. by rewrite IHl, IHr. Qed.

Lemma mutable_apply_ok s op mt t : mutable_holds s mt t ->
  exists s' mt' t', mutable_apply mt op s = Ok (mt', s') /\ mutable_holds s' mt' t' /\ inorder t' = apply_entries (inorder t) op /\
    strip t' = apply_tree (strip t) op /\ grows (locs t) s s' /\ within s t t'.
Proof.
  intros H. destruct op as [priority key value|key]; cbn [mutable_apply apply_entries apply_tree].
  - destruct (mutable_Put_ok s priority key value mt t H) as (s' & mt' & t' & E1 & H1 & H2 & H3 & H4 & H5). exists s', mt', t'.
    split_and!; try done. unfold same_shape in H3. by rewrite H3, strip_put.
  - destruct (mutable_Delete_ok s key mt t H) as (s' & mt' & t' & E1 & H1 & H2 & H3 & H4 & H5). exists s', mt', t'.
    split_and!; try done. unfold same_shape in H3. by rewrite H3, strip_delete.
Qed.

Lemma immutable_apply_ok s op im t : immutable_holds s im t ->
  exists s' im' t', immutable_apply im op s = Ok (im', s') /\ immutable_holds s' im' t' /\ inorder t' = apply_entries (inorder t) op /\
    strip t' = apply_tree (strip t) op /\ grows [] s s' /\ within s t t'.
Proof.
  intros H. destruct op as [priority key value|key]; cbn [immutable_apply apply_entries apply_tree].
  - destruct (immutable_Put_ok s priority key value im t H) as (s' & im' & t' & E1 & H1 & H2 & H3 & H4 & H5). exists s', im', t'.
    split_and!; try done. unfold same_shape in H3. by rewrite H3, strip_put.
  - destruct (immutable_Delete_ok s key im t H) as (s' & im' & t' & E1 & H1 & H2 & H3 & H4 & H5). exists s', im', t'.
    split_and!; try done. unfold same_shape in H3. by rewrite H3, strip_delete.
Qed.

Lemma immutable_holds_grows s s' im t : grows [] s s' -> store_ok s' -> immutable_holds s im t -> immutable_holds s' im t.
Proof. intros Hg Hs' (Hh & H). split; [|done]. eapply holds_grows; [exact Hg|done| |done]. intros y Hy. by apply elem_of_nil in Hy. Qed.

Lemma mutable_run_ok ops : forall s mt t, mutable_holds s mt t ->
  exists s' mt' t', mutable_run ops mt s = Ok (mt', s') /\ mutable_holds s' mt' t' /\ inorder t' = foldl apply_entries (inorder t) ops.
Proof.
  induction ops as [|op ops IH]; intros s mt t H; cbn [mutable_run foldl]; [by exists s, mt, t|].
  destruct (mutable_apply_ok s op mt t H) as (s1 & mt1 & t1 & E1 & H1 & Hin & _). rewrite (bind_Ok _ _ _ _ _ E1).
  destruct (IH s1 mt1 t1 H1) as (s2 & mt2 & t2 & E2 & H2 & Hin2). exists s2, mt2, t2. by rewrite <-Hin.
Qed.

Lemma entries_run ops : forall l, sorted l -> sorted (foldl apply_entries l ops) /\ to_map (foldl apply_entries l ops) = foldl apply_map (to_map l) ops.
Proof.
  induction ops as [|op ops IH]; intros l Hs; cbn [foldl]; [done|]. destruct (apply_entries_ok op l Hs) as [Hs' E1]. rewrite <-E1. by apply IH.
Qed.

(** C11: The mutable treap implements a finite map: whatever is put and deleted, with whatever
    priorities, no operation panics, lookups give what a map would, [Len] and [Size] are the
    number and the size of the entries, and [ForEach] visits them once each in the order of
    their keys. *)
Theorem mutable_refines_map ops s : store_ok s -> exists s' mt, mutable_run ops NewMutable s = Ok (mt, s') /\
  let m := foldl apply_map ∅ ops in
  (forall key, mutable_Get key mt s' = Ok (m !! key, s') /\ mutable_Has key mt s' = Ok (bool_decide (is_Some (m !! key)), s')) /\
  mutable_Len mt = swrap 64 (Z.of_nat (size m)) /\ mutable_Size mt = uwrap 64 (map_fold (fun k v z => entry_size (k, v) + z) 0 m) /\
  exists l, sorted l /\ to_map l = m /\ mutable_ForEach (fun k v st => mret (st ++ [(k, v)], true)) mt [] s' = Ok (l, s').
Proof.
  intros Hs. assert (H0 : mutable_holds s NewMutable E) by (split_and!; try done; [split_and!; try done; constructor|constructor]).
  destruct (mutable_run_ok ops s NewMutable E H0) as (s' & mt & t & E1 & (Hh & Hso & Hroot & Hcount) & Hin). exists s', mt. split; [done|]. cbv zeta.
  destruct (entries_run ops [] sorted_nil) as [Hl Em]. cbn [inorder] in Hin. rewrite <-Hin in Em, Hl. rewrite to_map_nil in Em. rewrite <-Em.
  destruct Hcount as [Hc1 Hc2]. split_and!.
  - intros key. unfold mutable_Get, mutable_Has. rewrite Hroot, treap_Get_ok, treap_Has_ok, get_entry_map by done. done.
  - unfold mutable_Len. rewrite Hc1, to_map_size by done. done.
  - unfold mutable_Size. rewrite Hc2. f_equal. clear -Hl. induction (inorder t) as [|[k v] l IH]; [by rewrite to_map_nil, map_fold_empty|].
    apply sorted_cons in Hl as [Ha Hl]. rewrite to_map_cons, map_fold_insert_L; [|intros; lia|by apply to_map_above]. cbn [entries_size foldr]. unfold entries_size in IH. by rewrite IH.
  - exists (inorder t). split_and!; [done|done|]. unfold mutable_ForEach. rewrite Hroot.
    destruct (treap_ForEach_ok (fun k v st => mret (st ++ [(k, v)], true)) t (fun visited st s2 => st = visited /\ s2 = s')) with (st := @nil (bytes * bytes)) (s := s') as (st & s2 & E2 & [-> ->] & _); [|done|done|done].
    intros visited k v rest st s2 _ Hh2 [-> ->]. by eexists _, _.
Qed.

(** ** Versions *)

Lemma versions_ok ops : forall s im t, immutable_holds s im t ->
  exists s' ims, immutable_versions ops im s = Ok (ims, s') /\ store_ok s' /\ grows [] s s' /\ length ims = S (length ops) /\
  forall i im', ims !! i = Some im' -> exists t', immutable_holds s' im' t' /\ inorder t' = foldl apply_entries (inorder t) (take i ops) /\
    strip t' = foldl apply_tree (strip t) (take i ops).
Proof.
  induction ops as [|op ops IH]; intros s im t H; cbn [immutable_versions].
  - exists s, [im]. split_and!; [done|apply H|done|done|]. intros [|i] im'; [|done]. intros [= <-]. by exists t.
  - destruct (immutable_apply_ok s op im t H) as (s1 & im1 & t1 & E1 & H1 & Hin & Hst & Hg & _). rewrite (bind_Ok _ _ _ _ _ E1).
    destruct (IH s1 im1 t1 H1) as (s2 & ims & E2 & Hs2 & Hg2 & Hlen & Hv). rewrite (bind_Ok _ _ _ _ _ E2).
    exists s2, (im :: ims). split_and!; [done|done|by eapply grows_trans|cbn; by rewrite Hlen|]. intros [|i] im'; cbn [lookup list_lookup take foldl].
    + intros [= <-]. exists t. split_and!; [|done|done]. apply (immutable_holds_grows s s2); [by eapply grows_trans|done|done].
    + intros Hi. rewrite <-Hin, <-Hst. by apply Hv.
Qed.

(** C12: The immutable treap is persistent: after any run of operations every version, the old ones
    included, still is the finite map it was, and the nodes that were there before the run are
    unchanged; each version has the shape the operations on trees give. *)
Theorem immutable_versions_persist ops s : store_ok s -> exists s' ims, immutable_versions ops NewImmutable s = Ok (ims, s') /\
  length ims = S (length ops) /\ (forall x n, cells s !! x = Some n -> cells s' !! x = Some n) /\
  forall i im, ims !! i = Some im -> let m := foldl apply_map ∅ (take i ops) in
    (forall key, immutable_Get key im s' = Ok (m !! key, s')) /\ immutable_Len im = swrap 64 (Z.of_nat (size m)) /\
    exists t, rep (cells s') t /\ im_root im = ptr t /\ strip t = foldl apply_tree E (take i ops).
Proof.
  intros Hs. assert (H0 : immutable_holds s NewImmutable E) by (split_and!; try done; [split_and!; try done; constructor|constructor]).
  destruct (versions_ok ops s NewImmutable E H0) as (s' & ims & E1 & Hs' & [_ Hg] & Hlen & Hv). exists s', ims. split_and!; [done|done| |].
  - intros x n Hx. rewrite Hg; [done|by eapply Hs|apply not_elem_of_nil].
  - intros i im Hi. destruct (Hv i im Hi) as (t & (Hh & Hso & Hroot & Hcount & _) & Hin & Hst).
    destruct (entries_run (take i ops) [] sorted_nil) as [Hl Em]. cbn [inorder] in Hin. rewrite <-Hin in Em. rewrite to_map_nil in Em. cbv zeta. rewrite <-Em. split_and!.
    + intros key. unfold immutable_Get. by rewrite Hroot, treap_Get_ok, get_entry_map.
    + unfold immutable_Len. by rewrite Hcount, to_map_size.
    + exists t. split_and!; [apply Hh|done|done].
Qed.

(** * Priorities *)

Fixpoint priorities (t : tree) : list Z := match t with E => [] | T l _ _ _ p r => p :: priorities l ++ priorities r end.

(** The order of a heap: no node has a smaller priority than its parent. *)
Fixpoint heap (t : tree) : Prop :=
  match t with E => True | T l _ _ _ p r => Forall (Z.le p) (priorities l) /\ Forall (Z.le p) (priorities r) /\ heap l /\ heap r end.

(** A context in the order of a heap over priorities [qs] that are in its hole. *)
Fixpoint heap_ctx (c : list frame) (qs : list Z) : Prop :=
  match c with
  | [] => True
  | f :: c => Forall (Z.le (frame_priority f)) qs /\ Forall (Z.le (frame_priority f)) (priorities (sibling f)) /\ heap (sibling f) /\
      heap_ctx c (frame_priority f :: priorities (sibling f) ++ qs)
  end.

Lemma priorities_fill f t : priorities (fill f t) ≡ₚ frame_priority f :: priorities (sibling f) ++ priorities t.
Proof. destruct f; cbn; [|done]. by rewrite (Permutation_app_comm (priorities t)). Qed.

Lemma heap_fill f t : heap (fill f t) <-> Forall (Z.le (frame_priority f)) (priorities (sibling f)) /\ Forall (Z.le (frame_priority f)) (priorities t) /\ heap (sibling f) /\ heap t.
Proof. destruct f; cbn; tauto. Qed.

Lemma heap_ctx_perm c qs qs' : qs ≡ₚ qs' -> heap_ctx c qs -> heap_ctx c qs'.
Proof.
  revert qs qs'. induction c as [|f c IH]; intros qs qs' Hq; cbn [heap_ctx]; [done|]. intros (H1 & H2 & H3 & H4).
  split_and!; [by rewrite <-Hq|done|done|]. eapply IH; [|exact H4]. by rewrite Hq.
Qed.

Lemma heap_plug c t : heap (plug c t) <-> heap_ctx c (priorities t) /\ heap t.
Proof.
  revert t. induction c as [|f c IH]; intros t; cbn [plug heap_ctx]; [tauto|]. rewrite IH, heap_fill.
  split; [intros (H1 & H2)|intros (H1 & H2)]; split_and!; try tauto; (eapply heap_ctx_perm; [|apply H1]); by rewrite priorities_fill.
Qed.

(** Every ancestor is above [q], so also above [p]. *)
Lemma heap_ctx_above c qs q p : q ∈ qs -> q <= p -> heap_ctx c qs -> heap_ctx c (p :: qs).
Proof.
  intros Hq Hle. revert qs Hq. induction c as [|f c IH]; intros qs Hq; cbn [heap_ctx]; [done|]. intros (H1 & H2 & H3 & H4).
  split_and!; [|done|done|].
  - constructor; [|done]. rewrite Forall_forall in H1. specialize (H1 q Hq). lia.
  - eapply heap_ctx_perm; [|apply (IH (frame_priority f :: priorities (sibling f) ++ qs)); [|exact H4]].
    + rewrite <-Permutation_middle. apply Permutation_swap.
    + rewrite elem_of_cons, elem_of_app. tauto.
Qed.

Lemma Forall_above p q l : p <= q -> Forall (Z.le q) l -> Forall (Z.le p) l.
Proof. intros Hle H. eapply Forall_impl; [exact H|]. cbn. lia. Qed.

(** A rotation moves a node above its parent of larger priority. *)
Lemma heap_rotate f l x k v p r : p <= frame_priority f -> heap (T l x k v p r) -> Forall (Z.le (frame_priority f)) (priorities l ++ priorities r) ->
  Forall (Z.le (frame_priority f)) (priorities (sibling f)) -> heap (sibling f) -> heap (rotate f (T l x k v p r)).
Proof.
  intros Hle (H1 & H2 & H3 & H4) [Hl Hr]%Forall_app Hs Hh. pose proof (Forall_above _ _ _ Hle Hs).
  destruct f; cbn in *; rewrite ?Forall_cons, ?Forall_app; tauto.
Qed.

(** A node that is out of order only with its ancestors. *)
Lemma heap_bubble c l x k v p r : heap (T l x k v p r) -> heap_ctx c (priorities l ++ priorities r) -> heap (bubble c (T l x k v p r)).
Proof.
  revert l r. induction c as [|f c IH]; intros l r Ht Hc; cbn [bubble]; [done|]. cbn [heap_ctx root_priority] in *. destruct Hc as (H1 & H2 & H3 & H4).
  destruct (Z.leb_spec (frame_priority f) p) as [Hle|Hgt].
  - apply (heap_plug (f :: c)). split; [|done]. cbn [heap_ctx priorities]. split_and!; [by constructor|done|done|].
    apply (heap_ctx_perm _ (p :: frame_priority f :: priorities (sibling f) ++ priorities l ++ priorities r)).
    + rewrite <-Permutation_middle. apply Permutation_swap.
    + apply (heap_ctx_above _ _ (frame_priority f)); [|done|done]. apply elem_of_cons. by left.
  - pose proof (heap_rotate f l x k v p r ltac:(lia) Ht H1 H2 H3) as Hrot. destruct f as [y ky vy py s|s y ky vy py]; cbn [rotate frame_priority sibling] in *.
    + apply IH; [done|]. eapply heap_ctx_perm; [|exact H4]. cbn [priorities]. rewrite <-Permutation_middle. apply Permutation_skip.
      rewrite (Permutation_app_comm (priorities s)), app_assoc. done.
    + apply IH; [done|]. eapply heap_ctx_perm; [|exact H4]. cbn [priorities app]. rewrite <-app_assoc. done.
Qed.

Lemma heap_zip key t : forall c, heap t -> heap_ctx c (priorities t) ->
  heap_ctx (fst (zip key t c)) (priorities (snd (zip key t c))) /\ heap (snd (zip key t c)).
Proof.
  induction t as [|l IHl x k v p r IHr]; intros c Ht Hc; cbn [zip]; [done|]. pose proof Ht as (H1 & H2 & H3 & H4). cbn [priorities] in Hc.
  destruct (Compare key k); [done|apply IHl|apply IHr]; try done; cbn [heap_ctx frame_priority sibling]; (split_and!; [done|done|done|]).
  eapply heap_ctx_perm; [|exact Hc]. by rewrite (Permutation_app_comm (priorities l)).
Qed.

Lemma heap_put priority key v t : heap t -> heap (put_tree priority key v t).
Proof.
  intros Ht. unfold put_tree. destruct (heap_zip key t [] Ht I) as [Hc Hs]. destruct (zip key t []) as [c t']. cbn [fst snd] in *.
  destruct t' as [|l x k v' p r]; [by apply heap_bubble|by apply (heap_plug c)].
Qed.

Lemma priorities_strip t : priorities (strip t) = priorities t.
Proof. induction t as [|l IHl x k v p r IHr]; cbn; [done|]. by rewrite IHl, IHr. Qed.

Lemma heap_strip t : heap (strip t) <-> heap t.
Proof. induction t as [|l IHl x k v p r IHr]; cbn; [done|]. by rewrite !priorities_strip, IHl, IHr. Qed.

Lemma puts_heap ops : forall t, Forall (fun op => exists priority key value, op = op_Put priority key value) ops -> heap t -> heap (foldl apply_tree t ops).
Proof.
  induction ops as [|op ops IH]; intros t Hops Ht; cbn [foldl]; [done|]. apply Forall_cons in Hops as [(priority & key & value & ->) Hops].
  apply IH; [done|]. by apply heap_put.
Qed.

(** Insertions keep the order of the priorities: every version of a treap that nothing was
    deleted from is a heap. *)
Theorem puts_keep_heap ops s : store_ok s -> Forall (fun op => exists priority key value, op = op_Put priority key value) ops ->
  exists s' ims, immutable_versions ops NewImmutable s = Ok (ims, s') /\ length ims = S (length ops) /\
  forall i im, ims !! i = Some im -> exists t, rep (cells s') t /\ im_root im = ptr t /\ heap t.
Proof.
  intros Hs Hops. destruct (versions_ok ops s NewImmutable E) as (s' & ims & E1 & _ & _ & Hlen & Hv).
  { split_and!; try done; [split_and!; try done; constructor|constructor]. }
  exists s', ims. split_and!; [done|done|]. intros i im Hi. destruct (Hv i im Hi) as (t & (Hh & _ & Hroot & _) & _ & Hst).
  exists t. split_and!; [apply Hh|done|]. apply heap_strip. rewrite Hst. apply puts_heap; [by apply Forall_take|done].
Qed.

Definition empty_store : store := {| cells := ∅; allocated := 0 |}.
Lemma empty_store_ok : store_ok empty_store.
Proof. intros x n. cbn. by rewrite lookup_empty. Qed.

(** Three insertions and a removal of the root. *)
Definition broken_run : list treap_op :=
  [op_Put 0 [Byte.x6d] (Some [Byte.x01]); op_Put 1 [Byte.x61] (Some [Byte.x02]); op_Put 2 [Byte.x7a] (Some [Byte.x03]); op_Delete [Byte.x6d]].

(** ** What a removal does to them *)

Lemma priorities_join l r : priorities (join l r) ≡ₚ priorities l ++ priorities r.
Proof.
  revert r. induction l as [|l1 IHl1 x1 k1 v1 p1 r1 IHr1]; intros r; [by rewrite join_E_l|].
  induction r as [|l2 IHl2 x2 k2 v2 p2 r2 IHr2]; [by rewrite join_E_r, app_nil_r|]. rewrite join_T.
  destruct (p2 <=? p1); cbn [priorities] in *; [rewrite IHr1; cbn [priorities app]; by rewrite <-app_assoc|].
  rewrite IHl2. cbn [app]. rewrite <-app_assoc, <-!Permutation_middle. by rewrite Permutation_swap.
Qed.

(** The walk to a key that is in the tree in the hole goes through the context. *)
Lemma zip_in_context key c : forall t acc, sorted (inorder (plug c t)) -> key ∈ map fst (inorder t) ->
  zip key (plug c t) acc = zip key t (c ++ acc).
Proof.
  induction c as [|f c IH]; intros t acc Hs Hk; cbn [plug app]; [done|]. cbn [plug] in Hs.
  assert (Hk' : key ∈ map fst (inorder (fill f t))) by (destruct f; cbn; rewrite map_app, elem_of_app; set_solver).
  rewrite (IH _ acc Hs Hk'). rewrite inorder_plug, !sorted_app in Hs. destruct Hs as (_ & (Hs & _) & _).
  apply list_elem_of_fmap in Hk as (e & -> & He).
  destruct f; cbn [fill inorder zip] in *; apply sorted_middle in Hs as (Hb & Ha & _); unfold below, above in *; rewrite Forall_forall in Hb, Ha.
  - specialize (Hb e He). unfold key_lt in Hb. cbn [fst] in Hb. by rewrite Hb.
  - specialize (Ha e He). apply Compare_Gt in Ha. cbn [fst] in Ha. by rewrite Ha.
Qed.

Lemma zip_at key c l x w p r : sorted (inorder (plug c (T l x key w p r))) -> zip key (plug c (T l x key w p r)) [] = (c, T l x key w p r).
Proof.
  intros Hs. rewrite zip_in_context; [|done|cbn [inorder]; rewrite map_app, elem_of_app; right; by left].
  cbn [zip]. by rewrite Compare_refl, app_nil_r.
Qed.

Lemma heap_same_shape t t' : same_shape t t' -> heap t <-> heap t'.
Proof. intros H. by rewrite <-(heap_strip t), <-(heap_strip t'), H. Qed.

(** The shape a removal of a node with two subtrees leaves. *)
Lemma delete_tree_raises c l1 x1 k1 v1 p1 r1 x key w p l2 x2 k2 v2 p2 r2 :
  let l := T l1 x1 k1 v1 p1 r1 in let r := T l2 x2 k2 v2 p2 r2 in
  sorted (inorder (plug c (T l x key w p r))) ->
  exists sub, delete_tree key (plug c (T l x key w p r)) = plug c (if p2 <=? p1 then T l1 x1 k1 v1 p1 sub else T sub x2 k2 v2 p2 r2) /\
    inorder sub = (if p2 <=? p1 then inorder r1 ++ inorder r else inorder l ++ inorder l2) /\ Z.min p1 p2 ∈ priorities sub.
Proof.
  intros l r Hs. unfold delete_tree. rewrite zip_at by done. subst l r. rewrite join_T. destruct (Z.leb_spec p2 p1).
  - eexists. split; [done|]. rewrite inorder_join, priorities_join. split; [done|]. cbn [priorities]. rewrite elem_of_app, elem_of_cons. right. left. lia.
  - eexists. split; [done|]. rewrite inorder_join, priorities_join. split; [done|]. cbn [priorities]. rewrite elem_of_app, elem_of_cons. left. left. lia.
Qed.

Lemma raised_not_heap c l1 x1 k1 v1 p1 x2 k2 v2 p2 r2 sub t' :
  same_shape t' (plug c (if p2 <=? p1 then T l1 x1 k1 v1 p1 sub else T sub x2 k2 v2 p2 r2)) -> Z.min p1 p2 ∈ priorities sub -> p1 <> p2 -> ~ heap t'.
Proof.
  intros Hst Hp Hne Hh. apply (heap_same_shape _ _ Hst), heap_plug in Hh as [_ Hh]. clear Hst.
  destruct (Z.leb_spec p2 p1); cbn [heap] in Hh; destruct Hh as (Hl & Hr & _); rewrite Forall_forall in Hl, Hr.
  - specialize (Hr _ Hp). lia.
  - specialize (Hl _ Hp). lia.
Qed.

(** C34: [Delete] does not keep it. Of the two children of the node it removes, wherever that node
    is, the one with the larger priority (the left one if they are equal) takes its place, with the
    subtree on its outer side as it was; all that is left of the other child ends up below it, the
    child itself included. So when the two priorities differ the treap that is left, of the
    mutable kind and of the immutable one, is never a heap. *)
Theorem delete_breaks_heap s c l1 x1 k1 v1 p1 r1 x key w p l2 x2 k2 v2 p2 r2 :
  let l := T l1 x1 k1 v1 p1 r1 in let r := T l2 x2 k2 v2 p2 r2 in
  let raised t' := exists sub, same_shape t' (plug c (if p2 <=? p1 then T l1 x1 k1 v1 p1 sub else T sub x2 k2 v2 p2 r2)) /\
    inorder sub = (if p2 <=? p1 then inorder r1 ++ inorder r else inorder l ++ inorder l2) /\ Z.min p1 p2 ∈ priorities sub /\
    (p1 <> p2 -> ~ heap t') in
  (forall mt, mutable_holds s mt (plug c (T l x key w p r)) ->
     exists s' mt' t', mutable_Delete key mt s = Ok (mt', s') /\ mutable_holds s' mt' t' /\ raised t') /\
  (forall im, immutable_holds s im (plug c (T l x key w p r)) ->
     exists s' im' t', immutable_Delete key im s = Ok (im', s') /\ immutable_holds s' im' t' /\ raised t').
Proof.
  intros l r raised.
  assert (Hraised : sorted (inorder (plug c (T l x key w p r))) -> forall t', same_shape t' (delete_tree key (plug c (T l x key w p r))) -> raised t').
  { intros Hs t' Ht'. destruct (delete_tree_raises c l1 x1 k1 v1 p1 r1 x key w p l2 x2 k2 v2 p2 r2 Hs) as (sub & Hd & Hin & Hp). fold l r in Hd.
    rewrite Hd in Ht'. exists sub. split_and!; [done|done|done|]. by eapply raised_not_heap. }
  split.
  - intros mt H. destruct (mutable_Delete_ok s key mt _ H) as (s' & mt' & t' & E1 & H' & _ & Hshape & _). exists s', mt', t'.
    split_and!; [done|done|]. apply Hraised; [apply H|done].
  - intros im H. destruct (immutable_Delete_ok s key im _ H) as (s' & im' & t' & E1 & H' & _ & Hshape & _). exists s', im', t'.
    split_and!; [done|done|]. apply Hraised; [apply H|done].
Qed.

(** ** The theorems at concrete runs *)

Lemma mutable_refines_map_witness : exists s' mt, mutable_run broken_run NewMutable empty_store = Ok (mt, s') /\ mutable_Len mt = 2.
Proof.
  destruct (mutable_refines_map broken_run empty_store empty_store_ok) as (s' & mt & E1 & _ & H & _). exists s', mt. split; [exact E1|].
  rewrite H. vm_compute. reflexivity.
Defined.

Lemma immutable_versions_persist_witness : exists s' ims, immutable_versions broken_run NewImmutable empty_store = Ok (ims, s') /\ length ims = 5%nat.
Proof.
  destruct (immutable_versions_persist broken_run empty_store empty_store_ok) as (s' & ims & E1 & H & _). exists s', ims. split; [exact E1|exact H].
Defined.

Lemma puts_keep_heap_witness : exists s' ims, immutable_versions (take 3 broken_run) NewImmutable empty_store = Ok (ims, s') /\ length ims = 4%nat.
Proof.
  destruct (puts_keep_heap (take 3 broken_run) empty_store empty_store_ok) as (s' & ims & E1 & H & _).
  - repeat constructor; by eexists _, _, _.
  - exists s', ims. split; [exact E1|exact H].
Defined.

(** The root of three nodes, in a treap put together by hand; its right child goes up. *)
Lemma delete_breaks_heap_witness :
  let s := {| cells := <[0%nat := cell [Byte.x6d] [Byte.x01] 0 (Some 1%nat) (Some 2%nat)]> (<[1%nat := cell [Byte.x61] [Byte.x02] 1 None None]>
                (<[2%nat := cell [Byte.x7a] [Byte.x03] 2 None None]> ∅)); allocated := 3 |} in
  (exists s' mt' t', mutable_Delete [Byte.x6d] {| mt_root := Some 0%nat; mt_count := 3; mt_totalSize := 222 |} s = Ok (mt', s') /\ mt_root mt' = ptr t' /\ ~ heap t') /\
  (exists s' im' t', immutable_Delete [Byte.x6d] {| im_root := Some 0%nat; im_count := 3; im_totalSize := 222 |} s = Ok (im', s') /\ im_root im' = ptr t' /\ ~ heap t').
Proof.
  intros s.
  assert (Hh : holds s (plug [] (T (T E 1 [Byte.x61] [Byte.x02] 1 E) 0 [Byte.x6d] [Byte.x01] 0 (T E 2 [Byte.x7a] [Byte.x03] 2 E)))).
  { split_and!; [|by vm_compute|apply (bool_decide_unpack _); vm_compute; exact I]. intros [|[|[|y]]] n Hn; cbn in *; try lia. exfalso.
    rewrite !lookup_insert_ne, lookup_empty in Hn by lia. done. }
  assert (Hso : sorted (inorder (plug [] (T (T E 1 [Byte.x61] [Byte.x02] 1 E) 0 [Byte.x6d] [Byte.x01] 0 (T E 2 [Byte.x7a] [Byte.x03] 2 E)))))
    by (repeat constructor; vm_compute; done).
  destruct (delete_breaks_heap s [] E 1 [Byte.x61] [Byte.x02] 1 E 0 [Byte.x6d] [Byte.x01] 0 E 2 [Byte.x7a] [Byte.x03] 2 E) as [Hm Hi]. split.
  - destruct (Hm {| mt_root := Some 0%nat; mt_count := 3; mt_totalSize := 222 |}) as (s' & mt' & t' & E1 & (_ & _ & Hr & _) & sub & _ & _ & _ & Hheap).
    + split_and!; [exact Hh|exact Hso|done|split; vm_compute; reflexivity].
    + exists s', mt', t'. split_and!; [exact E1|exact Hr|]. apply Hheap. done.
  - destruct (Hi {| im_root := Some 0%nat; im_count := 3; im_totalSize := 222 |}) as (s' & im' & t' & E1 & (_ & _ & Hr & _) & sub & _ & _ & _ & Hheap).
    + split_and!; [exact Hh|exact Hso|done|split; vm_compute; reflexivity].
    + exists s', im', t'. split_and!; [exact E1|exact Hr|]. apply Hheap. done.
Defined.
