(* ===== verification/TreapWalk.v ===== *)
(** The iterators of the treaps: where an iterator points and where it moves, the entries a
    walk visits in both directions, and moves after changes to a mutable treap. *)

From stdpp Require Import gmap sorting.
From S2P Require Import Prelude Treap TreapIter TreapStore TreapPut TreapFacts TreapMap.

#[local] Arguments stack_At : simpl never.
#[local] Arguments stack_Push : simpl never.
#[local] Arguments stack_Pop : simpl never.

(** * Directions

    The near side of a node is the one an iterator comes from. *)

Definition directed {A} (fw : bool) (l : list A) : list A := if fw then l else reverse l.
Definition near {A} (fw : bool) (l r : A) : A := if fw then l else r.
Definition far {A} (fw : bool) (l r : A) : A := if fw then r else l.

Definition is_near (fw : bool) (f : frame) : bool := match f with L _ _ _ _ _ => fw | R _ _ _ _ _ => negb fw end.
Definition frame_entry (f : frame) : bytes * bytes := match f with L _ k v _ _ => (k, v) | R _ _ k v _ => (k, v) end.

(** The entries after the hole of a context. *)
Definition ahead (fw : bool) (c : list frame) : list (bytes * bytes) := if fw then rights c else reverse (lefts c).
Definition behind (fw : bool) (c : list frame) : list (bytes * bytes) := if fw then lefts c else reverse (rights c).

Lemma directed_app {A} fw (l l' : list A) : directed fw (l ++ l') = near fw (directed fw l) (directed fw l') ++ far fw (directed fw l) (directed fw l').
Proof. destruct fw; [done|]. apply reverse_app. Qed.

Lemma directed_node fw l x k v p r :
  directed fw (inorder (T l x k v p r)) = directed fw (inorder (near fw l r)) ++ (k, v) :: directed fw (inorder (far fw l r)).
Proof. destruct fw; cbn [directed near far inorder]; [done|]. rewrite reverse_app, reverse_cons, <-app_assoc. done. Qed.

Lemma ahead_cons fw f c : ahead fw (f :: c) = if is_near fw f then frame_entry f :: directed fw (inorder (sibling f)) ++ ahead fw c else ahead fw c.
Proof.
  destruct fw, f; cbn [ahead is_near negb rights lefts frame_entry sibling directed]; try done. by rewrite !reverse_app, <-app_assoc.
Qed.

Lemma behind_cons fw f c : behind fw (f :: c) = if is_near fw f then behind fw c else behind fw c ++ directed fw (inorder (sibling f)) ++ [frame_entry f].
Proof.
  destruct fw, f; cbn [behind is_near negb rights lefts frame_entry sibling directed]; try done. by rewrite !reverse_cons, reverse_app, <-!app_assoc.
Qed.

Lemma directed_plug fw c t : directed fw (inorder (plug c t)) = behind fw c ++ directed fw (inorder t) ++ ahead fw c.
Proof. rewrite inorder_plug. destruct fw; cbn [behind directed ahead]; [done|]. by rewrite !reverse_app, app_assoc. Qed.

(** The nearest ancestor a context is on the near side of. *)
Fixpoint first_near (fw : bool) (c : list frame) : option (frame * list frame) :=
  match c with [] => None | f :: c => if is_near fw f then Some (f, c) else first_near fw c end.

Lemma first_near_ahead fw c :
  ahead fw c = match first_near fw c with None => [] | Some (f, c') => frame_entry f :: directed fw (inorder (sibling f)) ++ ahead fw c' end.
Proof. induction c as [|f c IH]; [by destruct fw|]. rewrite ahead_cons. cbn [first_near]. by destruct (is_near fw f). Qed.

Lemma first_near_split fw c f c' : first_near fw c = Some (f, c') -> exists c0, c = c0 ++ f :: c'.
Proof.
  induction c as [|g c IH]; cbn [first_near]; [done|]. destruct (is_near fw g); [intros [= -> ->]; by exists []|].
  intros [c0 ->]%IH. by exists (g :: c0).
Qed.

(** * Positions *)

(** An iterator points to an entry of a tree, or to none. *)
Definition points (t : tree) (it : Iterator) (cur : option (bytes * bytes)) : Prop :=
  match cur with
  | None => it_node it = None
  | Some e => exists c l x k v p r, plug c (T l x k v p r) = t /\ e = (k, v) /\ it_node it = Some x /\ stack_is (it_parents it) (map frame_loc c)
  end.

Definition in_range (it : Iterator) (e : bytes * bytes) : bool := negb (out_of_range it (fst e)).
Definition ranged (it : Iterator) (cur : option (bytes * bytes)) : option (bytes * bytes) := cur ≫= fun e => if in_range it e then Some e else None.

Lemma rep_at h c l x k v p r t : plug c (T l x k v p r) = t -> rep h t -> h !! x = Some (cell k v p (ptr l) (ptr r)) /\ rep_ctx h c (Some x).
Proof. intros <- [H1 H2]%rep_plug. split; [apply H2|done]. Qed.

(** The range, the root and the flags are the same. *)
Definition same_iter (it it' : Iterator) : Prop := position None empty_stack it = position None empty_stack it'.

Lemma same_iter_fields it it' : same_iter it it' -> it_mutable it' = it_mutable it /\ it_root it' = it_root it /\ it_isNew it' = it_isNew it /\
  it_seekKey it' = it_seekKey it /\ it_startKey it' = it_startKey it /\ it_limitKey it' = it_limitKey it.
Proof. intros H. by injection H. Qed.

Lemma ranged_same it it' cur : same_iter it it' -> ranged it' cur = ranged it cur.
Proof.
  intros (_ & _ & _ & _ & E1 & E2)%same_iter_fields. destruct cur as [e|]; [|done]. cbn. unfold in_range, out_of_range. by rewrite E1, E2.
Qed.

(** Moving to a position and checking the range. *)
Lemma limit_ok s t it c l x k v p r ps : rep (cells s) t -> plug c (T l x k v p r) = t -> stack_is ps (map frame_loc c) ->
  exists it', limitIterator (position (Some x) ps it) s = Ok (it', bool_decide (is_Some (ranged it (Some (k, v)))), s) /\
    points t it' (ranged it (Some (k, v))) /\ same_iter it it'.
Proof.
  intros Hr Hp Hps. destruct (rep_at _ _ _ _ _ _ _ _ _ Hp Hr) as [H0 _]. unfold limitIterator. cbn [it_node position].
  rewrite (bind_Ok _ _ _ _ _ (load_Ok _ _ _ H0)). cbn [tn_key cell].
  change (out_of_range (position (Some x) ps it) k) with (out_of_range it k). cbn. unfold in_range. cbn [fst].
  destruct (out_of_range it k); cbn; (eexists; split; [reflexivity|]); split; try done. by exists c, l, x, k, v, p, r.
Qed.

Lemma limit_none s t it ps : exists it', limitIterator (position None ps it) s = Ok (it', false, s) /\ points t it' None /\ same_iter it it'.
Proof. by eexists. Qed.

(** ** The walk to an edge *)

Definition edge_spec (s : store) (fw : bool) (t : tree) : Prop := forall x c ps f,
  ptr t = Some x -> rep (cells s) t -> stack_is ps (map frame_loc c) -> (depth t <= f)%nat ->
  exists c' l' x' k' v' p' r' ps', edge_loop f fw x ps s = Ok (x', ps', s) /\ stack_is ps' (map frame_loc c') /\
    plug c' (T l' x' k' v' p' r') = plug c t /\
    directed fw (inorder t) ++ ahead fw c = (k', v') :: directed fw (inorder (far fw l' r')) ++ ahead fw c'.

Lemma edge_loop_ok s fw t : edge_spec s fw t.
Proof.
  induction t as [|l IHl x k v p r IHr]; [done|]. intros y c ps f [= <-] Hr Hps Hf.
  assert (IH : edge_spec s fw (near fw l r)) by by destruct fw. clear IHl IHr.
  destruct f as [|f]; [cbn in Hf; lia|]. cbn [edge_loop]. pose proof Hr as (H0 & Hl & Hr').
  rewrite (bind_Ok _ _ _ _ _ (load_Ok _ _ _ H0)), directed_node, <-app_assoc. cbn [app].
  assert (Echild : child_of fw (cell k v p (ptr l) (ptr r)) = ptr (near fw l r)) by by destruct fw. rewrite Echild.
  destruct (ptr (near fw l r)) as [y|] eqn:En.
  - set (fr := if fw then L x k v p r else R l x k v p).
    assert (Hfr : is_near fw fr = true /\ frame_entry fr = (k, v) /\ sibling fr = far fw l r /\ frame_loc fr = x /\ fill fr (near fw l r) = T l x k v p r) by by destruct fw.
    destruct Hfr as (Hn & He & Hs & Hlc & Hfill).
    destruct (IH y (fr :: c) (stack_Push x ps) f En) as (c2 & l2 & x2 & k2 & v2 & p2 & r2 & ps2 & E2 & Hps2 & Hpl & Hd).
    + by destruct fw.
    + cbn [map]. rewrite Hlc. by apply stack_is_Push.
    + destruct fw; cbn in Hf |- *; lia.
    + exists c2, l2, x2, k2, v2, p2, r2, ps2. rewrite ahead_cons, Hn, He, Hs in Hd. cbn [plug] in Hpl. rewrite Hfill in Hpl. by split_and!.
  - assert (E0 : near fw l r = E) by (by destruct (near fw l r)). exists c, l, x, k, v, p, r, ps. rewrite E0. split_and!; try done. by destruct fw.
Qed.

(** ** The walk up *)

Lemma climb_ok s fw c : forall x ps f, rep_ctx (cells s) c (Some x) -> x ∉ ctx_locs c -> NoDup (ctx_locs c) -> stack_is ps (tail (map frame_loc c)) -> (length c <= f)%nat ->
  exists ps', climb f fw x (head (map frame_loc c)) ps s = Ok (option_map (fun fc => frame_loc (fst fc)) (first_near fw c), ps', s) /\
    match first_near fw c with None => True | Some (_, c') => stack_is ps' (map frame_loc c') end.
Proof.
  induction c as [|f c IH]; intros x ps n Hc Hx Hn Hps Hf; cbn [map head tail first_near] in *.
  { exists ps. by destruct n. }
  destruct n as [|n]; [cbn in Hf; lia|]. destruct Hc as (H0 & Hs & Hc). cbn [climb]. rewrite (bind_Ok _ _ _ _ _ (load_Ok _ _ _ H0)).
  cbn [ctx_locs] in Hx, Hn.
  assert (Edec : child_of (negb fw) (frame_cell f (Some x)) = Some x <-> is_near fw f = false).
  { assert (Hsx : ptr (sibling f) <> Some x) by (destruct f as [? ? ? ? [|]|[|]]; cbn in Hx |- *; try done; intros [= ->]; set_solver).
    destruct f, fw; cbn in Hsx |- *; split; done. }
  destruct (decide _) as [Hd|Hd].
  - rewrite (proj1 Edec Hd). destruct (stack_is_Pop _ _ Hps) as (ps' & Epop & Hps'). rewrite Epop. apply NoDup_cons in Hn as [Hfn Hn].
    apply IH; [done|set_solver|by apply NoDup_app in Hn as (_ & _ & ?)|done|cbn in Hf; lia].
  - destruct (is_near fw f); [|by destruct Hd; apply Edec]. by exists ps.
Qed.

(** * [seek] *)

(** An entry is at or after a key in a direction. *)
Definition passes (fw exact : bool) (key : bytes) (e : bytes * bytes) : bool :=
  match Compare key (fst e) with Lt => fw | Gt => negb fw | Eq => exact end.

(** The first such entry. *)
Definition first_passing (fw exact : bool) (key : bytes) (l : list (bytes * bytes)) : option (bytes * bytes) :=
  head (filter (passes fw exact key) (directed fw l)).

Lemma filter_all_true {A} (P : A -> bool) l : Forall (fun x => P x = true) l -> filter P l = l.
Proof. induction 1 as [|x l Hx _ IH]; [done|]. rewrite filter_cons_True by (by rewrite Hx). by rewrite IH. Qed.
Lemma filter_all_false {A} (P : A -> bool) l : Forall (fun x => P x = false) l -> filter P l = [].
Proof. induction 1 as [|x l Hx _ IH]; [done|]. rewrite filter_cons_False by (rewrite Hx; exact id). done. Qed.

(** What comes before a position fails and what comes after it passes. *)
Definition cut (fw : bool) (exact : bool) (key : bytes) (before after : list (bytes * bytes)) : Prop :=
  Forall (fun e => passes fw exact key e = false) before /\ Forall (fun e => passes fw exact key e = true) after.

Lemma cut_first fw exact key before after l : cut fw exact key before after -> directed fw l = before ++ after -> first_passing fw exact key l = head after.
Proof. intros [Hb Ha] E1. unfold first_passing. rewrite E1, filter_app, filter_all_false, filter_all_true by done. done. Qed.

(** The selection of [seek] is the nearest ancestor on the near side. *)
Definition selection (fw : bool) (c : list frame) (selected : pointer) (depth : nat) : Prop :=
  match first_near fw c with
  | None => selected = None /\ depth = 0%nat
  | Some (f, c') => selected = Some (frame_loc f) /\ depth = length c'
  end.

(** The outcome of the walk down of [seek]. *)
Definition sought (t : tree) (fw exact : bool) (key : bytes) (res : parentStack * pointer * nat * bool) : Prop :=
  let '(ps, selected, depth, found) := res in
  if (found : bool) then exists c l x k v p r, plug c (T l x k v p r) = t /\ selected = Some x /\ stack_is ps (map frame_loc c) /\
    cut fw exact key (behind fw c ++ directed fw (inorder (near fw l r))) ((k, v) :: directed fw (inorder (far fw l r)) ++ ahead fw c)
  else exists c, plug c E = t /\ stack_is ps (map frame_loc c) /\ selection fw c selected depth /\ cut fw exact key (behind fw c) (ahead fw c).

Lemma stack_Len_Push s l x : stack_is s l -> (stack_Len (stack_Push x s) - 1)%nat = length l.
Proof. intros H. rewrite (stack_is_Len _ _ (stack_is_Push _ _ x H)). cbn. lia. Qed.

Lemma directed_Forall {A} fw (P : A -> Prop) l : Forall P (directed fw l) <-> Forall P l.
Proof. destruct fw; cbn [directed]; [done|]. by rewrite Forall_reverse. Qed.

(** The keys below pass backwards, those above pass forwards. *)
Definition low (fw exact : bool) (key : bytes) (l : list (bytes * bytes)) : Prop := Forall (fun e => passes fw exact key e = negb fw) l.
Definition high (fw exact : bool) (key : bytes) (l : list (bytes * bytes)) : Prop := Forall (fun e => passes fw exact key e = fw) l.

Lemma above_high fw exact key l : above key l -> high fw exact key l.
Proof. intros H. eapply Forall_impl; [exact H|]. intros e He. unfold passes, key_lt in *. by rewrite He. Qed.
Lemma below_low fw exact key l : below key l -> low fw exact key l.
Proof. intros H. eapply Forall_impl; [exact H|]. intros e He. unfold passes. apply Compare_Gt in He. by rewrite He. Qed.

Lemma low_high_cut fw exact key l1 l2 : low fw exact key l1 -> high fw exact key l2 ->
  cut fw exact key (if fw then l1 else reverse l2) (if fw then l2 else reverse l1).
Proof. intros H1 H2. destruct fw; split; by rewrite ?Forall_reverse. Qed.

Lemma high_cons fw exact key e l : high fw exact key (e :: l) <-> passes fw exact key e = fw /\ high fw exact key l.
Proof. unfold high. by rewrite Forall_cons. Qed.
Lemma low_app fw exact key l l' : low fw exact key (l ++ l') <-> low fw exact key l /\ low fw exact key l'.
Proof. unfold low, high. by rewrite Forall_app. Qed.
Lemma high_app fw exact key l l' : high fw exact key (l ++ l') <-> high fw exact key l /\ high fw exact key l'.
Proof. unfold low, high. by rewrite Forall_app. Qed.
Lemma low_one fw exact key e : low fw exact key [e] <-> passes fw exact key e = negb fw.
Proof. unfold low. by rewrite Forall_singleton. Qed.

(** The entry the walk finds. *)
Lemma sought_found t fw key ps c l x k v p r : plug c (T l x k v p r) = t -> stack_is ps (map frame_loc c) -> forall n, key = k ->
  low fw true key (lefts c ++ inorder l) -> high fw true key (inorder r ++ rights c) -> sought t fw true key (ps, Some x, n, true).
Proof.
  intros Hp Hps n -> Hl Hh. exists c, l, x, k, v, p, r. split_and!; [done|done|done|]. destruct (low_high_cut _ _ _ _ _ Hl Hh) as [Hb Ha].
  assert (Ek : passes fw true k (k, v) = true) by (unfold passes; cbn [fst]; by rewrite Compare_refl).
  destruct fw; cbn [behind ahead near far directed] in *; (split; [|constructor; [exact Ek|]]); by rewrite <-?reverse_app.
Qed.

Lemma seek_loop_ok s key fw exact t0 t : forall c ps selected depth f, rep (cells s) t -> stack_is ps (map frame_loc c) -> selection fw c selected depth ->
  (TreapStore.depth t <= f)%nat -> plug c t = t0 -> sorted (inorder t0) -> low fw exact key (lefts c) -> high fw exact key (rights c) ->
  exists res, seek_loop f key exact fw (ptr t) ps selected depth s = Ok (res, s) /\ sought t0 fw exact key res.
Proof.
  induction t as [|l IHl x k v p r IHr]; intros c ps selected depth f Hr Hps Hsel Hf Hp Hs Hlow Hhigh; cbn [ptr].
  { exists (ps, selected, depth, false). destruct f; (split; [done|]); exists c; split_and!; try done; by apply low_high_cut. }
  destruct f as [|f]; [cbn in Hf; lia|]. cbn [seek_loop TreapStore.depth] in *. destruct Hr as (H0 & Hl & Hr). rewrite (bind_Ok _ _ _ _ _ (load_Ok _ _ _ H0)). cbn [tn_key tn_left tn_right cell].
  rewrite (stack_Len_Push _ _ _ Hps), length_map. pose proof (stack_is_Push _ _ x Hps) as Hps'.
  pose proof Hs as Hs0. rewrite <-Hp, inorder_plug in Hs0. cbn [inorder] in Hs0. rewrite <-!app_assoc in Hs0. cbn [app] in Hs0. rewrite app_assoc in Hs0.
  apply sorted_middle in Hs0 as (Hb & Ha & _). cbn [fst] in Hb, Ha. apply Forall_app in Ha as [Ha _]. apply Forall_app in Hb as [_ Hb].
  pose proof (stack_is_Pop _ _ Hps') as (ps' & Epop & Hpop).
  assert (HL : passes fw exact key (k, v) = fw -> above key (inorder r) -> high fw exact key (rights (L x k v p r :: c))).
  { intros H1 H2. cbn [rights]. rewrite high_cons, high_app. split_and!; [done|by apply above_high|done]. }
  assert (HR : passes fw exact key (k, v) = negb fw -> below key (inorder l) -> low fw exact key (lefts (R l x k v p :: c))).
  { intros H1 H2. cbn [lefts]. rewrite !low_app, low_one. split_and!; [done|by apply below_low|done]. }
  assert (Ep : passes fw exact key (k, v) = match Compare key k with Lt => fw | Gt => negb fw | Eq => exact end) by done.
  destruct (Compare key k) eqn:Ek.
  - apply Compare_Eq in Ek as ->. destruct exact.
    + rewrite Epop. eexists. split; [done|]. cbn [snd]. apply (sought_found t0 fw k ps' c l x k v p r); [done|done|done| |].
      * apply low_app. split; [done|]. by apply below_low.
      * apply high_app. split; [|done]. by apply above_high.
    + destruct fw; [apply (IHr (R l x k v p :: c))|apply (IHl (L x k v p r :: c))]; try done; try lia; first [by apply HR|by apply HL].
  - assert (Hkr : above key (inorder r)) by (eapply above_trans; [exact Ek|exact Ha]).
    destruct fw; (apply (IHl (L x k v p r :: c)); [done|done| |lia|done|done|done|by apply HL]); [|done]. by split.
  - apply Compare_Gt in Ek. assert (Hkl : below key (inorder l)) by (eapply below_trans; [exact Ek|exact Hb]).
    destruct fw; (apply (IHr (R l x k v p :: c)); [done|done| |lia|done|done|by apply HR|done]); [done|]. by split.
Qed.

Lemma pop_parents_ok n : forall ps l, stack_is ps l -> stack_is (pop_parents n ps) (drop n l).
Proof.
  induction n as [|n IH]; intros ps l Hps; cbn [pop_parents]; [done|]. destruct (stack_is_Pop _ _ Hps) as (ps' & Epop & Hps'). rewrite Epop. cbn [snd].
  destruct l as [|x l]; [specialize (IH _ _ Hps'); cbn [tail] in IH; by rewrite drop_nil in IH |- *|by apply IH].
Qed.

Lemma fill_node f u : exists l k v p r, fill f u = T l (frame_loc f) k v p r /\ frame_entry f = (k, v).
Proof. destruct f as [x k v p r|l x k v p]; by eexists _, _, _, _, _. Qed.

(** The position of the nearest ancestor. *)
Lemma near_node fw c u f c' : first_near fw c = Some (f, c') ->
  exists l k v p r, plug c' (T l (frame_loc f) k v p r) = plug c u /\ frame_entry f = (k, v) /\ head (ahead fw c) = Some (k, v) /\
    forall ps, stack_is ps (map frame_loc c) -> stack_is (pop_parents (length c - length c') ps) (map frame_loc c').
Proof.
  intros H. pose proof (first_near_ahead fw c) as Ha. rewrite H in Ha. destruct (first_near_split _ _ _ _ H) as [c0 ->].
  destruct (fill_node f (plug c0 u)) as (l & k & v & p & r & Ef & Ee). exists l, k, v, p, r. split_and!; [by rewrite plug_app; cbn [plug]; rewrite Ef|done|by rewrite Ha, Ee|].
  intros ps Hps. pose proof (pop_parents_ok (length (c0 ++ f :: c') - length c') ps _ Hps) as Hpop.
  rewrite map_app in Hpop. cbn [map] in Hpop. rewrite length_app in Hpop |- *. cbn [length] in Hpop |- *.
  replace (length c0 + S (length c') - length c')%nat with (S (length c0)) in Hpop |- * by lia.
  rewrite (cons_middle _ (map frame_loc c0)), app_assoc in Hpop.
  rewrite drop_app_length' in Hpop; [done|]. rewrite length_app, length_map. cbn [length]. lia.
Qed.

Lemma depth_plug c u : (depth u <= depth (plug c u))%nat.
Proof. revert u. induction c as [|f c IH]; intros u; cbn [plug]; [done|]. specialize (IH (fill f u)). destruct f; cbn [fill depth] in IH |- *; lia. Qed.

(** What a move of an iterator over [t] leads to: the entry [cur], if it is in the range. *)
Definition moves_to (t : tree) (it : Iterator) (s : store) (m : M (Iterator * bool)) (cur : option (bytes * bytes)) : Prop :=
  exists it', m s = Ok (it', bool_decide (is_Some (ranged it cur)), s) /\ points t it' (ranged it cur) /\ same_iter it it'.

Lemma moves_to_limit t it s cur node ps c l x k v p r : rep (cells s) t -> node = Some x -> cur = Some (k, v) -> plug c (T l x k v p r) = t ->
  stack_is ps (map frame_loc c) -> moves_to t it s (limitIterator (position node ps it)) cur.
Proof. intros Hr -> -> Hp Hps. by eapply limit_ok. Qed.

Lemma seek_ok s t it key exact fw : holds s t -> sorted (inorder t) -> it_root it = ptr t ->
  moves_to t it s (seek key exact fw it) (first_passing fw exact key (inorder t)).
Proof.
  intros Hh Hs Hroot. unfold seek, fuel, moves_to. unfold mbind at 1, M_bind at 1. rewrite Hroot.
  destruct (seek_loop_ok s key fw exact t t [] empty_stack None 0%nat (S (allocated s))) as ([[[ps sel] d] found] & E1 & H1);
    [apply Hh|apply stack_is_empty|done|pose proof (holds_depth _ _ Hh); lia|done|done|constructor|constructor|]. rewrite (bind_Ok _ _ _ _ _ E1). clear E1.
  destruct found; cbn [sought] in H1.
  - destruct H1 as (c & l & x & k & v & p & r & Hp & -> & Hps & Hcut).
    rewrite (cut_first _ _ _ _ _ _ Hcut); [by eapply limit_ok; [apply Hh|..]|].
    rewrite <-Hp, directed_plug, directed_node, <-!app_assoc. done.
  - destruct H1 as (c & Hp & Hps & Hsel & Hcut).
    rewrite (cut_first _ _ _ _ _ _ Hcut) by (rewrite <-Hp, directed_plug; by destruct fw).
    unfold selection in Hsel. destruct (first_near fw c) as [[f c']|] eqn:En; destruct Hsel as [-> ->].
    + destruct (near_node fw c E f c' En) as (l & k & v & p & r & Hpl & _ & -> & Hpop). rewrite (stack_is_Len _ _ Hps), length_map.
      eapply limit_ok; [apply Hh|by rewrite Hpl|by apply Hpop].
    + rewrite (first_near_ahead fw c), En. apply limit_none.
Qed.

(** ** Moves from an entry *)

Lemma first_after fw l1 k v l2 l : sorted l -> l = l1 ++ (k, v) :: l2 -> first_passing fw false k l = head (if fw then l2 else reverse l1).
Proof.
  intros Hs ->. apply sorted_middle in Hs as (Hb & Ha & _). cbn [fst] in *.
  assert (Ek : passes fw false k (k, v) = false) by (unfold passes; cbn [fst]; by rewrite Compare_refl).
  pose proof (below_low fw false k l1 Hb) as Hl. pose proof (above_high fw false k l2 Ha) as Hh.
  apply cut_first with (before := (if fw then l1 else reverse l2) ++ [(k, v)]).
  - destruct (low_high_cut _ _ _ _ _ Hl Hh) as [H1 H2]. split; [|done]. apply Forall_app. split; [done|by apply Forall_singleton].
  - destruct fw; cbn [directed]; [by rewrite <-app_assoc|]. rewrite reverse_app, reverse_cons. done.
Qed.

Lemma move_ok s t it fw k v : holds s t -> sorted (inorder t) -> it_isNew it = false -> it_seekKey it = None -> points t it (Some (k, v)) ->
  moves_to t it s (move fw it) (first_passing fw false k (inorder t)).
Proof.
  intros Hh Hs Hnew Hseek (c & l & x & k' & v' & p & r & Hp & [= <- <-] & Hnode & Hps). unfold move. rewrite Hnew, Hnode, Hseek. pose proof Hh as (_ & Hr & Hn).
  destruct (rep_at _ _ _ _ _ _ _ _ _ Hp Hr) as [H0 Hc]. unfold moves_to. rewrite (bind_Ok _ _ _ _ _ (load_Ok _ _ _ H0)).
  assert (Eafter : first_passing fw false k (inorder t) = head (directed fw (inorder (far fw l r)) ++ ahead fw c)).
  { rewrite (first_after fw (lefts c ++ inorder l) k v (inorder r ++ rights c)); [|done|rewrite <-Hp, inorder_plug; cbn; by rewrite <-!app_assoc].
    destruct fw; cbn [directed far ahead]; [done|]. by rewrite reverse_app. }
  rewrite Eafter. clear Eafter.
  assert (Echild : child_of (negb fw) (cell k v p (ptr l) (ptr r)) = ptr (far fw l r)) by by destruct fw. rewrite Echild.
  rewrite <-Hp, locs_plug in Hn. cbn [locs] in Hn. nodup_split Hn. destruct Hn as (Hn1 & Hn2 & Hn3).
  destruct (ptr (far fw l r)) as [y|] eqn:Ef.
  - unfold fuel. unfold mbind at 1, M_bind at 1. set (fr := if fw then R l x k v p else L x k v p r).
    assert (Hfr : is_near fw fr = false /\ frame_loc fr = x /\ fill fr (far fw l r) = T l x k v p r) by by destruct fw. destruct Hfr as (Hfn & Hfl & Hff).
    destruct (edge_loop_ok s fw (far fw l r) y (fr :: c) (stack_Push x (it_parents it)) (S (allocated s)) Ef) as (c2 & l2 & x2 & k2 & v2 & p2 & r2 & ps2 & E2 & Hps2 & Hpl & Hd).
    + rewrite <-Hp in Hr. apply rep_plug in Hr as (_ & _ & ? & ?). by destruct fw.
    + cbn [map]. rewrite Hfl. by apply stack_is_Push.
    + pose proof (holds_depth _ _ Hh) as Hd0. assert (Hle : (depth (T l x k v p r) <= depth t)%nat) by (rewrite <-Hp; apply depth_plug).
      destruct fw; cbn in Hle |- *; lia.
    + rewrite (bind_Ok _ _ _ _ _ E2). rewrite ahead_cons, Hfn in Hd. rewrite Hd. cbn [head]. cbn [plug] in Hpl. rewrite Hff in Hpl.
      eapply limit_ok; [exact Hr|by rewrite Hpl|exact Hps2].
  - assert (E0 : far fw l r = E) by (by destruct (far fw l r)). rewrite E0. replace (directed fw (inorder E)) with (@nil (bytes * bytes)) by (by destruct fw). cbn [app].
    destruct (stack_is_Pop _ _ Hps) as (ps' & Epop & Hps'). rewrite Epop.
    destruct (climb_ok s fw c x ps' (stack_Len (it_parents it)) Hc) as (ps2 & E2 & Hps2); [set_solver|done|done|rewrite (stack_is_Len _ _ Hps), length_map; lia|].
    rewrite (bind_Ok _ _ _ _ _ E2). destruct (first_near fw c) as [[f c']|] eqn:En; cbn [option_map fst].
    + destruct (near_node fw c (T l x k v p r) f c' En) as (l' & k' & v' & p' & r' & Hpl & _ & -> & _).
      eapply limit_ok; [exact Hr|by rewrite Hpl|exact Hps2].
    + rewrite (first_near_ahead fw c), En. apply limit_none.
Qed.

(** ** First moves *)

(** The first move of a new iterator: the range is checked on the side it starts from only when
    the iterator has a key there. *)
Definition first_move (fw : bool) (it : Iterator) (l : list (bytes * bytes)) : option (bytes * bytes) :=
  match (if fw then it_startKey it else it_limitKey it) with
  | Some key => ranged it (first_passing fw fw key l)
  | None => head (directed fw l)
  end.

Lemma points_not_new t it cur : points t it cur -> points t (not_new it) cur.
Proof. by destruct cur. Qed.

Lemma edge_ok s t it fw : holds s t -> it_root it = ptr t -> it_node it = None ->
  exists it', edge fw it s = Ok (it', bool_decide (is_Some (head (directed fw (inorder t)))), s) /\ points t it' (head (directed fw (inorder t))) /\ same_iter it it'.
Proof.
  intros Hh Hroot Hnode. unfold edge. rewrite Hroot. destruct (ptr t) as [x|] eqn:Ep.
  - unfold fuel. unfold mbind at 1, M_bind at 1.
    destruct (edge_loop_ok s fw t x [] empty_stack (S (allocated s)) Ep) as (c & l & y & k & v & p & r & ps & E1 & Hps & Hpl & Hd);
      [apply Hh|apply stack_is_empty|pose proof (holds_depth _ _ Hh); lia|]. rewrite (bind_Ok _ _ _ _ _ E1).
    replace (ahead fw []) with (@nil (bytes * bytes)) in Hd by (by destruct fw). rewrite app_nil_r in Hd. rewrite Hd. cbn [head].
    eexists. split; [reflexivity|]. split; [|done]. by exists c, l, y, k, v, p, r.
  - destruct t; [|done]. replace (directed fw (inorder E)) with (@nil (bytes * bytes)) by (by destruct fw). eexists. by split_and!.
Qed.

Lemma first_move_ok s t it fw : holds s t -> sorted (inorder t) -> it_root it = ptr t -> it_isNew it = true -> it_node it = None ->
  exists it', move fw it s = Ok (it', bool_decide (is_Some (first_move fw it (inorder t))), s) /\ points t it' (first_move fw it (inorder t)) /\ same_iter (not_new it) it'.
Proof.
  intros Hh Hs Hroot Hnew Hnode. unfold move. rewrite Hnew. unfold first_move.
  pose proof (seek_ok s t (not_new it)) as Hseek. destruct fw; unfold First, Last; cbn [it_startKey it_limitKey not_new].
  - destruct (it_startKey it) as [key|]; [by apply Hseek|by apply edge_ok].
  - destruct (it_limitKey it) as [key|]; [by apply Hseek|by apply edge_ok].
Qed.

Lemma points_Key s t it cur : rep (cells s) t -> points t it cur -> iter_Key it s = Ok (fst <$> cur, s) /\ iter_Value it s = Ok (snd <$> cur, s).
Proof.
  intros Hr H. unfold iter_Key, iter_Value. destruct cur as [e|]; cbn in H; [|by rewrite H].
  destruct H as (c & l & x & k & v & p & r & Hp & -> & -> & _). destruct (rep_at _ _ _ _ _ _ _ _ _ Hp Hr) as [H0 _].
  by rewrite !(bind_Ok _ _ _ _ _ (load_Ok _ _ _ H0)).
Qed.

(** * Walks *)

(** The entries an iterator visits until it says it is done. *)
Fixpoint walk (fuel : nat) (fw : bool) (it : Iterator) : M (list (bytes * bytes)) :=
  match fuel with
  | O => panic
  | S fuel =>
      '(it, ok) ← move fw it;
      if (ok : bool) then
        key ← iter_Key it;
        value ← iter_Value it;
        rest ← walk fuel fw it;
        mret ((default [] key, default [] value) :: rest)
      else mret []
  end.

(** The order of a direction. *)
Definition beyond (fw : bool) (a b : bytes * bytes) : Prop := if fw then key_lt (fst a) (fst b) else key_lt (fst b) (fst a).

Lemma beyond_trans fw a b c : beyond fw a b -> beyond fw b c -> beyond fw a c.
Proof. destruct fw; cbn; intros H1 H2; [by transitivity (fst b)|by transitivity (fst b)]. Qed.

Lemma directed_sorted fw l1 e l2 l : sorted l -> directed fw l = l1 ++ e :: l2 -> Forall (beyond fw e) l2.
Proof.
  intros Hs E1. destruct fw; cbn [directed] in E1.
  - rewrite E1 in Hs. by apply sorted_middle in Hs as (_ & Ha & _).
  - apply (f_equal reverse) in E1. rewrite reverse_involutive, reverse_app, reverse_cons, <-app_assoc in E1. cbn [app] in E1.
    rewrite E1 in Hs. apply sorted_middle in Hs as (Hb & _ & _). unfold below in Hb. by rewrite Forall_reverse in Hb.
Qed.

Lemma first_beyond fw l1 k v l2 l : sorted l -> directed fw l = l1 ++ (k, v) :: l2 -> first_passing fw false k l = head l2.
Proof.
  intros Hs E1. destruct fw; cbn [directed] in E1.
  - by rewrite (first_after true l1 k v l2 l).
  - apply (f_equal reverse) in E1. rewrite reverse_involutive, reverse_app, reverse_cons, <-app_assoc in E1. cbn [app] in E1.
    rewrite (first_after false _ k v _ l Hs E1). by rewrite reverse_involutive.
Qed.

(** The end of the range on the side a walk starts from is behind. *)
Definition entered (fw : bool) (it : Iterator) (e : bytes * bytes) : Prop :=
  if fw then forall key, it_startKey it = Some key -> ~ key_lt (fst e) key
  else forall key, it_limitKey it = Some key -> key_lt (fst e) key.

Lemma entered_beyond fw it e e' : entered fw it e -> beyond fw e e' -> entered fw it e'.
Proof.
  destruct fw; cbn; intros He Hb key Hk.
  - intros Hlt. apply (He key Hk). by transitivity (fst e').
  - transitivity (fst e); [done|by apply He].
Qed.

(** A walk does not come back into the range. *)
Lemma out_stays fw it e l : entered fw it e -> in_range it e = false -> Forall (beyond fw e) l -> filter (in_range it) l = [].
Proof.
  intros He Ho Hl. apply filter_all_false. eapply Forall_impl; [exact Hl|]. intros e' Hb. unfold in_range, out_of_range in *.
  rewrite negb_false_iff, orb_true_iff in *. destruct fw; cbn in He, Hb.
  - right. destruct Ho as [Ho|Ho].
    + destruct (it_startKey it) as [key|]; [|done]. apply bool_decide_eq_true in Ho. by destruct (He key eq_refl).
    + destruct (it_limitKey it) as [key|]; [|done]. rewrite negb_true_iff, bool_decide_eq_false in *. intros Hlt. apply Ho.
      change (key_lt (fst e) key). by transitivity (fst e').
  - left. destruct Ho as [Ho|Ho].
    + destruct (it_startKey it) as [key|]; [|done]. rewrite bool_decide_eq_true in *. change (key_lt (fst e') key). transitivity (fst e); done.
    + destruct (it_limitKey it) as [key|]; [|done]. rewrite negb_true_iff, bool_decide_eq_false in Ho. by destruct (Ho (He key eq_refl)).
Qed.

(** What is left of a walk. *)
Definition remaining_in (it : Iterator) (l : list (bytes * bytes)) : list (bytes * bytes) := filter (in_range it) l.

Lemma remaining_in_true it e l : in_range it e = true -> remaining_in it (e :: l) = e :: remaining_in it l.
Proof. intros H. unfold remaining_in. by rewrite filter_cons_True by (by rewrite H). Qed.
Lemma remaining_in_false it e l : in_range it e = false -> remaining_in it (e :: l) = remaining_in it l.
Proof. intros H. unfold remaining_in. by rewrite filter_cons_False by (rewrite H; exact id). Qed.
Lemma remaining_in_same it it' l : same_iter it it' -> remaining_in it' l = remaining_in it l.
Proof. intros (_ & _ & _ & _ & F3 & F4)%same_iter_fields. unfold remaining_in, in_range, out_of_range. by rewrite F3, F4. Qed.

Lemma walk_ok s t fw n : holds s t -> sorted (inorder t) -> forall it e before after, it_isNew it = false -> it_seekKey it = None -> points t it (Some e) ->
  directed fw (inorder t) = before ++ e :: after -> entered fw it e -> (length after < n)%nat -> walk n fw it s = Ok (remaining_in it after, s).
Proof.
  intros Hh Hs. induction n as [|n IH]; intros it e before after Hnew Hseek Hp Hd He Hn; [lia|]. cbn [walk]. destruct e as [k v].
  destruct (move_ok s t it fw k v Hh Hs Hnew Hseek Hp) as (it' & E1 & Hp' & Hsame). rewrite (first_beyond fw before k v after _ Hs Hd) in E1, Hp'.
  rewrite (bind_Ok _ _ _ _ _ E1). destruct after as [|e' after]; cbn [head ranged mbind option_bind] in *; [done|].
  pose proof (directed_sorted fw before (k, v) (e' :: after) _ Hs Hd) as Hb. apply Forall_cons in Hb as [Hb _].
  pose proof (entered_beyond fw it _ _ He Hb) as He'. destruct (in_range it e') eqn:Er.
  - destruct (points_Key s t it' _ (proj1 (proj2 Hh)) Hp') as [Ek Ev]. cbn [is_Some_dec bool_decide]. cbn [fmap option_fmap option_map] in Ek, Ev.
    rewrite (bind_Ok _ _ _ _ _ Ek), (bind_Ok _ _ _ _ _ Ev). destruct (same_iter_fields _ _ Hsame) as (_ & _ & F1 & F2 & F3 & F4).
    rewrite (bind_Ok _ _ s (remaining_in it' after) s).
    + rewrite remaining_in_true, (remaining_in_same it it') by done. by destruct e'.
    + apply (IH it' e' (before ++ [(k, v)])); [by rewrite F1|by rewrite F2|done|by rewrite Hd, <-app_assoc| |cbn in Hn; lia].
      destruct fw; cbn in He' |- *; by rewrite ?F3, ?F4.
  - rewrite remaining_in_false by done. unfold remaining_in. rewrite (out_stays fw it e'); [done|done|done|]. eapply directed_sorted; [exact Hs|]. rewrite Hd. exact (app_assoc before [(k, v)] (e' :: after)).
Qed.

(** The entries a walk visits, from the entries of the treap. *)
Definition visited (fw : bool) (it : Iterator) (l : list (bytes * bytes)) : list (bytes * bytes) :=
  match (if fw then it_startKey it else it_limitKey it), directed fw l with
  | None, e :: l => e :: remaining_in it l
  | _, l => remaining_in it l
  end.

Lemma passes_beyond fw key e e' : passes fw fw key e = true -> beyond fw e e' -> passes fw fw key e' = true.
Proof.
  unfold passes. intros He Hb. destruct fw; cbn in Hb.
  - assert (key_lt key (fst e')) as H; [|by unfold key_lt in H; rewrite H]. destruct (Compare key (fst e)) eqn:Ek; [apply Compare_Eq in Ek as ->; done|by transitivity (fst e)|done].
  - assert (key_lt (fst e') key) as H; [|apply Compare_Gt in H; by rewrite H]. destruct (Compare key (fst e)) eqn:Ek; [done|done|].
    apply Compare_Gt in Ek. by transitivity (fst e).
Qed.

Lemma passing_split fw key l : sorted l -> forall after pre, directed fw l = pre ++ after ->
  exists a b, after = a ++ b /\ Forall (fun e => passes fw fw key e = false) a /\ Forall (fun e => passes fw fw key e = true) b.
Proof.
  intros Hs. induction after as [|e after IH]; intros pre Hd; [by exists [], []|]. destruct (passes fw fw key e) eqn:Ep.
  - exists [], (e :: after). split_and!; [done|done|]. constructor; [done|]. pose proof (directed_sorted _ _ _ _ _ Hs Hd) as Hb.
    eapply Forall_impl; [exact Hb|]. intros e' Hb'. by eapply passes_beyond.
  - destruct (IH (pre ++ [e])) as (a & b & -> & Ha & Hb); [by rewrite Hd, <-app_assoc|]. exists (e :: a), b. split_and!; [done|by constructor|done].
Qed.

Lemma passes_range (fw : bool) (it : Iterator) (key : bytes) : (if fw then it_startKey it else it_limitKey it) = Some key ->
  forall e, (passes fw fw key e = false -> in_range it e = false) /\ (passes fw fw key e = true -> entered fw it e).
Proof.
  intros Hk e. unfold passes, in_range, out_of_range, entered. destruct fw; rewrite Hk.
  - split.
    + intros Hp. destruct (Compare key (fst e)) eqn:Ek; try done. apply Compare_Gt in Ek. unfold key_lt in Ek. rewrite Ek. done.
    + intros Hp k [= <-] Hlt. apply Compare_Gt in Hlt. by rewrite Hlt in Hp.
  - split.
    + intros Hp. rewrite negb_false_iff, orb_true_iff. right. rewrite negb_true_iff, bool_decide_eq_false. rewrite (Compare_sym key (fst e)). by destruct (Compare key (fst e)).
    + intros Hp k [= <-]. apply Compare_Gt. by destruct (Compare key (fst e)).
Qed.

Lemma remaining_in_app it l l' : remaining_in it (l ++ l') = remaining_in it l ++ remaining_in it l'.
Proof. apply filter_app. Qed.

(** A walk from the first move on. *)
Lemma walk_first s t it it' fw n first before after : holds s t -> sorted (inorder t) -> same_iter (not_new it) it' -> it_seekKey it = None ->
  move fw it s = Ok (it', bool_decide (is_Some first), s) -> points t it' first -> (length (inorder t) < n)%nat ->
  match first with None => walk n fw it s = Ok ([], s) | Some e => directed fw (inorder t) = before ++ e :: after -> entered fw it e ->
    walk n fw it s = Ok (e :: remaining_in it after, s) end.
Proof.
  intros Hh Hs Hsame Hseek E1 Hp Hn. destruct n as [|n]; [lia|]. cbn [walk]. rewrite (bind_Ok _ _ _ _ _ E1).
  destruct first as [e|]; [|done]. intros Hd He. cbn [bool_decide is_Some_dec].
  destruct (points_Key s t it' _ (proj1 (proj2 Hh)) Hp) as [Ek Ev]. cbn [fmap option_fmap option_map] in Ek, Ev.
  rewrite (bind_Ok _ _ _ _ _ Ek), (bind_Ok _ _ _ _ _ Ev). destruct (same_iter_fields _ _ Hsame) as (_ & _ & F1 & F2 & F3 & F4).
  rewrite (bind_Ok _ _ s (remaining_in it' after) s).
  - rewrite (remaining_in_same (not_new it) it') by done. by destruct e.
  - assert (Hlen : length (directed fw (inorder t)) = length (inorder t)) by (destruct fw; [done|apply length_reverse]).
    rewrite Hd, length_app in Hlen. cbn in Hlen. apply (walk_ok s t fw n Hh Hs it' e before after); [by rewrite F1|by rewrite F2|done|done| |lia].
    destruct fw; cbn in He |- *; [rewrite F3|rewrite F4]; exact He.
Qed.

Lemma walk_visits s t it fw n : holds s t -> sorted (inorder t) -> it_root it = ptr t -> it_isNew it = true -> it_node it = None -> it_seekKey it = None ->
  (length (inorder t) < n)%nat -> walk n fw it s = Ok (visited fw it (inorder t), s).
Proof.
  intros Hh Hs Hroot Hnew Hnode Hseek Hn. destruct (first_move_ok s t it fw Hh Hs Hroot Hnew Hnode) as (it' & E1 & Hp & Hsame).
  unfold visited. unfold first_move in *. destruct (if fw then it_startKey it else it_limitKey it) as [key|] eqn:Ek.
  - destruct (passing_split fw key (inorder t) Hs (directed fw (inorder t)) []) as (a & b & Hd & Ha & Hb); [done|].
    rewrite (cut_first fw fw key a b) in E1, Hp by done. rewrite Hd, remaining_in_app. unfold remaining_in at 1.
    rewrite (filter_all_false (in_range it) a); [cbn [app]|eapply Forall_impl; [exact Ha|intros e He; by apply (passes_range fw it key Ek)]].
    destruct b as [|e b]; cbn [head ranged mbind option_bind] in E1, Hp.
    + by apply (walk_first s t it it' fw n None [] []).
    + apply Forall_cons in Hb as [He Hb]. apply (passes_range fw it key Ek) in He. destruct (in_range it e) eqn:Er.
      * rewrite remaining_in_true by done. by apply (walk_first s t it it' fw n (Some e) a b).
      * rewrite remaining_in_false by done. unfold remaining_in. rewrite (out_stays fw it e b); [|done|done|by eapply directed_sorted].
        by apply (walk_first s t it it' fw n None [] []).
  - destruct (directed fw (inorder t)) as [|e l] eqn:Hd; cbn [head] in E1, Hp.
    + by apply (walk_first s t it it' fw n None [] []).
    + apply (walk_first s t it it' fw n (Some e) [] l); try done. destruct fw; cbn in Ek |- *; intros key; by rewrite Ek.
Qed.

(** * Iterators over treaps *)

(** C13: A walk over any version of an immutable treap, in either direction and any range, visits the
    entries of the range once each, in the order of their keys or the reverse of it; but without
    a key on the side it starts from, it always visits the first entry, in the range or not. *)
Theorem iterator_walks ops s fw startKey limitKey : store_ok s -> exists s' ims, immutable_versions ops NewImmutable s = Ok (ims, s') /\ length ims = S (length ops) /\
  forall i im, ims !! i = Some im -> exists l, sorted l /\ to_map l = foldl apply_map ∅ (take i ops) /\
    let it := immutable_Iterator startKey limitKey im in walk (S (length l)) fw it s' = Ok (visited fw it l, s').
Proof.
  intros Hs. destruct (versions_ok ops s NewImmutable E) as (s' & ims & E1 & _ & _ & Hlen & Hv).
  { split_and!; try done; [split_and!; try done; constructor|constructor]. }
  exists s', ims. split_and!; [done|done|]. intros i im Hi. destruct (Hv i im Hi) as (t & (Hh & Hso & Hroot & _) & Hin & _).
  exists (inorder t). split_and!; [done| |apply walk_visits; try done; lia]. rewrite Hin. cbn [inorder]. by destruct (entries_run (take i ops) [] sorted_nil) as [_ ->].
Qed.

(** So an iterator without a start key may return an entry at or past its limit. *)
Theorem first_ignores_limit : exists ims s it, immutable_versions [op_Put 0 [Byte.x62] (Some [Byte.x01])] NewImmutable empty_store = Ok (ims, s) /\
  match last ims with Some im => First (immutable_Iterator None (Some [Byte.x61]) im) s = Ok (it, true, s) /\ iter_Key it s = Ok (Some [Byte.x62], s) | None => False end /\
  Compare [Byte.x62] [Byte.x61] = Gt.
Proof. eexists _, _, _. split; [vm_compute; reflexivity|]. split; [|done]. cbn [last]. split; vm_compute; reflexivity. Qed.

(** * Moves after changes *)

(** An operation never changes the key of a node that is there, in the treap or not. *)
Definition keeps {A} (m : M A) : Prop := forall s a s', store_ok s -> m s = Ok (a, s') ->
  store_ok s' /\ forall x n, cells s !! x = Some n -> exists n', cells s' !! x = Some n' /\ tn_key n' = tn_key n.

Create HintDb keeps.

Lemma keeps_ret {A} (a : A) : keeps (mret a).
Proof. intros s b s' Hs [= <- <-]. split; [done|]. by eauto. Qed.
Lemma keeps_panic {A} : keeps (@panic A).
Proof. done. Qed.
Lemma keeps_bind {A B} (m : M A) (f : A -> M B) : keeps m -> (forall a, keeps (f a)) -> keeps (m ≫= f).
Proof.
  intros Hm Hf s b s' Hs. unfold mbind, M_bind. destruct (m s) as [[a s1]|e|] eqn:Em; [|done|done]. intros Ef.
  destruct (Hm s a s1 Hs Em) as [Hs1 H1], (Hf a s1 b s' Hs1 Ef) as [Hs' H2]. split; [done|]. intros x n Hx.
  destruct (H1 x n Hx) as (n1 & Hx1 & <-), (H2 x n1 Hx1) as (n2 & Hx2 & <-). by eauto.
Qed.
Lemma keeps_load x : keeps (load x).
Proof. intros s a s' Hs. unfold load. destruct (cells s !! x); [|done]. intros [= <- <-]. split; [done|]. by eauto. Qed.
Lemma keeps_fuel : keeps fuel.
Proof. intros s a s' Hs [= <- <-]. split; [done|]. by eauto. Qed.
Lemma keeps_deref p : keeps (deref p).
Proof. destruct p; [apply keeps_ret|apply keeps_panic]. Qed.
Lemma keeps_alloc n : keeps (alloc n).
Proof.
  intros s a s' Hs [= <- <-]. split; [by apply alloc_ok|]. intros x m Hx. exists m. cbn. rewrite lookup_insert_ne; [done|].
  intros <-. apply Hs in Hx. lia.
Qed.
(** A node is loaded before it is written. *)
Lemma keeps_update {A} x (f : treapNode -> treapNode) (k : treapNode -> M A) :
  (forall n, tn_key (f n) = tn_key n) -> (forall n, keeps (k n)) -> keeps (n ← load x; _ ← write_node x (f n); k n).
Proof.
  intros Hf Hk s a s' Hs. unfold load. unfold mbind at 1, M_bind at 1. destruct (cells s !! x) as [n|] eqn:Ex; [|done].
  unfold write_node. unfold mbind, M_bind. intros Ek.
  destruct (Hk n _ a s' (upd_ok s x (f n) Hs (Hs _ _ Ex)) Ek) as [Hs' H]. split; [done|]. intros y m Hy. cbn [cells upd] in H.
  destruct (decide (x = y)) as [<-|Hne].
  - destruct (H x (f n)) as (n' & Hx' & E1); [by rewrite lookup_insert_eq|]. rewrite Ex in Hy. injection Hy as <-. exists n'. by rewrite E1.
  - apply H. by rewrite lookup_insert_ne.
Qed.
Lemma keeps_set_left x p : keeps (set_left x p).
Proof.
  intros s a s' Hs E1. apply (keeps_update x (with_left p) (fun _ => mret tt)) with (a := a); [done|intros; apply keeps_ret|done|].
  rewrite <-E1. unfold set_left, load, mbind, M_bind. by destruct (cells s !! x).
Qed.
Lemma keeps_set_right x p : keeps (set_right x p).
Proof.
  intros s a s' Hs E1. apply (keeps_update x (with_right p) (fun _ => mret tt)) with (a := a); [done|intros; apply keeps_ret|done|].
  rewrite <-E1. unfold set_right, load, mbind, M_bind. by destruct (cells s !! x).
Qed.
#[local] Hint Resolve keeps_ret keeps_panic keeps_load keeps_fuel keeps_deref keeps_alloc keeps_set_left keeps_set_right : keeps.

(** Follows the structure of an operation. *)
Ltac keeps := repeat first
  [ progress auto with keeps
  | apply keeps_bind; [|intros]
  | match goal with |- keeps (match ?x with _ => _ end) => destruct x end ].

Lemma keeps_relink node parent g root : keeps (relinkGrandparent node parent g root).
Proof. unfold relinkGrandparent. keeps. Qed.
Lemma keeps_descend f key : forall node ps cr, keeps (descend f key node ps cr).
Proof. induction f as [|f IH]; intros [x|] ps cr; cbn [descend]; keeps. Qed.
Lemma keeps_get_loop f key : forall node parent, keeps (get_loop f key node parent).
Proof. induction f as [|f IH]; intros [x|] parent; cbn [get_loop]; keeps. Qed.
#[local] Hint Resolve keeps_relink keeps_descend keeps_get_loop : keeps.
Lemma keeps_rotate_up f : forall node ps root, keeps (rotate_up f node ps root).
Proof. induction f as [|f IH]; intros node ps root; cbn [rotate_up]; keeps. Qed.
Lemma keeps_sink f : forall node parent root, keeps (sink f false node parent root).
Proof. induction f as [|f IH]; intros node parent root; cbn [sink]; keeps. Qed.
Lemma keeps_get_node key root : keeps (get_node key root).
Proof. unfold get_node. keeps. Qed.
#[local] Hint Resolve keeps_rotate_up keeps_sink keeps_get_node : keeps.

Lemma keeps_mutable_Put priority key value mt : keeps (mutable_Put priority key value mt).
Proof.
  unfold mutable_Put, newTreapNode, attach. destruct (mt_root mt) as [root|]; [|keeps].
  apply keeps_bind; [keeps|intros f]. apply keeps_bind; [keeps|]. intros [[ps cr] [x|]]; [|keeps].
  apply (keeps_update x (with_value (value_of value))); [done|]. keeps.
Qed.
Lemma keeps_mutable_Delete key mt : keeps (mutable_Delete key mt).
Proof. unfold mutable_Delete, unlink. keeps. Qed.
Lemma keeps_mutable_run ops : forall mt, keeps (mutable_run ops mt).
Proof.
  induction ops as [|op ops IH]; intros mt; cbn [mutable_run]; [apply keeps_ret|]. apply keeps_bind; [|done].
  destruct op; [apply keeps_mutable_Put|apply keeps_mutable_Delete].
Qed.

Fixpoint moves (fws : list bool) (it : Iterator) : M Iterator :=
  match fws with [] => mret it | fw :: fws => '(it, _) ← move fw it; moves fws it end.

(** Where an iterator over an unchanged treap is after some moves. *)
Lemma moves_ok s t : holds s t -> sorted (inorder t) -> forall fws it, it_root it = ptr t -> it_seekKey it = None ->
  (if it_isNew it then it_node it = None else exists cur, points t it cur) ->
  exists it', moves fws it s = Ok (it', s) /\ same_iter (not_new it) (not_new it') /\
    if it_isNew it' then it_node it' = None else exists cur, points t it' cur.
Proof.
  intros Hh Hs. induction fws as [|fw fws IH]; intros it Hroot Hseek Hit; cbn [moves]; [by exists it|].
  assert (Hm : exists it' ok, move fw it s = Ok (it', ok, s) /\ (exists cur, points t it' cur) /\ same_iter (not_new it) (not_new it') /\ it_isNew it' = false).
  { destruct (it_isNew it) eqn:Hnew.
    - destruct (first_move_ok s t it fw Hh Hs Hroot Hnew Hit) as (it' & E1 & Hp & Hsame). exists it'. eexists. split; [exact E1|]. split; [by eexists|].
      by injection Hsame as ? ? <- ? ? ?; split; [unfold same_iter, position, not_new; cbn; congruence|].
    - destruct Hit as [[[k v]|] Hp].
      + destruct (move_ok s t it fw k v Hh Hs Hnew Hseek Hp) as (it' & E1 & Hp' & Hsame). exists it'. eexists. split; [exact E1|]. split; [by eexists|].
        injection Hsame as ? ? ? ? ? ?. split; [unfold same_iter, position, not_new; cbn; congruence|congruence].
      + exists it, false. unfold move. rewrite Hnew. cbn in Hp. rewrite Hp. split; [done|]. split; [by exists None|done]. }
  destruct Hm as (it1 & ok & E1 & Hp1 & Hsame1 & Hnew1). rewrite (bind_Ok _ _ _ _ _ E1). pose proof (same_iter_fields _ _ Hsame1) as (_ & F1 & _ & F2 & _). cbn in F1, F2.
  destruct (IH it1) as (it2 & E2 & Hsame2 & Hp2); [by rewrite F1|by rewrite F2|by rewrite Hnew1|]. exists it2. split; [done|]. split; [|done]. unfold same_iter in *. congruence.
Qed.

(** C14: After changes to a mutable treap an iterator over it that is told about them while it is at an
    entry goes on from the key of that entry, in the treap as it is now: the next move leads to the first entry past
    that key, whatever was put and deleted, the key itself included. *)
Theorem reseek_follows ops fws ops' fw startKey limitKey s : store_ok s ->
  exists s1 mt it s2 mt' it', mutable_run ops NewMutable s = Ok (mt, s1) /\ moves fws (mutable_Iterator startKey limitKey mt) s1 = Ok (it, s1) /\
    mutable_run ops' mt s1 = Ok (mt', s2) /\ ForceReseek mt' it s2 = Ok (it', s2) /\
    forall key, iter_Key it s1 = Ok (Some key, s1) -> exists l it'', sorted l /\ to_map l = foldl apply_map ∅ (ops ++ ops') /\
      let next := ranged it (first_passing fw false key l) in
      move fw it' s2 = Ok (it'', bool_decide (is_Some next), s2) /\ iter_Key it'' s2 = Ok (fst <$> next, s2) /\ iter_Value it'' s2 = Ok (snd <$> next, s2).
Proof.
  intros Hs. assert (H0 : mutable_holds s NewMutable E) by (split_and!; try done; [split_and!; try done; constructor|constructor]).
  destruct (mutable_run_ok ops s NewMutable E H0) as (s1 & mt & t & E1 & H1 & Hin). pose proof H1 as (Hh & Hso & Hroot & _).
  destruct (moves_ok s1 t Hh Hso fws (mutable_Iterator startKey limitKey mt) Hroot eq_refl eq_refl) as (it & E2 & Hsame & Hit).
  destruct (mutable_run_ok ops' s1 mt t H1) as (s2 & mt' & t' & E3 & H2 & Hin'). pose proof H2 as (Hh' & Hso' & Hroot' & _).
  destruct (keeps_mutable_run ops' mt s1 mt' s2 (proj1 Hh) E3) as [_ Hk]. pose proof (same_iter_fields _ _ Hsame) as (F1 & F2 & F3 & F4 & F5 & F6). cbn in F1, F2, F3, F4, F5, F6.
  assert (Hre : exists it', ForceReseek mt' it s2 = Ok (it', s2) /\ forall key, iter_Key it s1 = Ok (Some key, s1) -> it' = reseek (mt_root mt') (Some key) it).
  { unfold ForceReseek. rewrite F1. cbn [negb]. unfold iter_Key. destruct (it_node it) as [x|] eqn:Ex; [|by eexists].
    assert (exists n, cells s1 !! x = Some n) as [n Hn].
    { destruct (it_isNew it); [done|]. destruct Hit as [[e|] Hp]; cbn in Hp; [|congruence]. destruct Hp as (c & l & y & k & v & p & r & Hp & _ & Ey & _).
      assert (x = y) as -> by congruence. eexists. by apply (rep_at _ _ _ _ _ _ _ _ _ Hp (proj1 (proj2 Hh))). }
    destruct (Hk x n Hn) as (n' & Hn' & Ekey). unfold mbind. unfold M_bind at 1 2. rewrite (load_Ok _ _ _ Hn'). cbn. eexists. split; [reflexivity|].
    intros key. unfold M_bind. rewrite (load_Ok _ _ _ Hn). cbn. intros [= <-]. by rewrite Ekey. }
  destruct Hre as (it' & E4 & Hre). exists s1, mt, it, s2, mt', it'. split_and!; [done..|]. intros key Hkey. rewrite (Hre key Hkey).
  assert (Hnew : it_isNew it = false).
  { destruct (it_isNew it); [|done]. unfold iter_Key in Hkey. by rewrite Hit in Hkey. }
  set (it2 := reseek (mt_root mt') None it).
  destruct (seek_ok s2 t' it2 key false fw Hh' Hso' Hroot') as (it'' & E5 & Hp'' & _). exists (inorder t'), it''. split_and!; [done| |].
  - rewrite Hin', Hin, foldl_app. cbn [inorder]. destruct (entries_run ops [] sorted_nil) as [Hl Em]. destruct (entries_run ops' _ Hl) as [_ ->]. by rewrite Em.
  - cbv zeta. change (ranged it) with (ranged it2). split; [|by eapply points_Key; [apply Hh'|]].
    rewrite <-E5. unfold move. cbn [it_isNew it_node it_seekKey reseek]. rewrite Hnew. destruct (it_node it) as [x|] eqn:Ex; [done|].
    unfold iter_Key in Hkey. by rewrite Ex in Hkey.
Qed.

Lemma run_ext {A B} (m : M A) (k : A -> M B) s a s' r : m s = Ok (a, s') -> (m ≫= k) s = r -> k a s' = r.
Proof. intros E1 <-. by rewrite (bind_Ok _ _ _ _ _ E1). Qed.

Lemma iter_Key_state it s key s' : iter_Key it s = Ok (key, s') -> s' = s.
Proof. unfold iter_Key. destruct (it_node it) as [x|]; [|by intros [= _ ->]]. unfold mbind, M_bind, load. destruct (cells s !! x); [|done]. by intros [= _ ->]. Qed.

(** The iterator is at the second of three entries when that entry is deleted; it goes on to the third. *)
Lemma reseek_follows_witness : exists s1 mt it s2 mt' it' it'', mutable_run (take 3 broken_run) NewMutable empty_store = Ok (mt, s1) /\
  moves [true; true] (mutable_Iterator None None mt) s1 = Ok (it, s1) /\ mutable_run [op_Delete [Byte.x6d]] mt s1 = Ok (mt', s2) /\
  ForceReseek mt' it s2 = Ok (it', s2) /\ iter_Key it s1 = Ok (Some [Byte.x6d], s1) /\
  move true it' s2 = Ok (it'', true, s2) /\ iter_Key it'' s2 = Ok (Some [Byte.x7a], s2).
Proof.
  destruct (reseek_follows (take 3 broken_run) [true; true] [op_Delete [Byte.x6d]] true None None empty_store empty_store_ok) as (s1 & mt & it & s2 & mt' & it' & E1 & E2 & E3 & E4 & Hgo).
  assert (Ekey : iter_Key it s1 = Ok (Some [Byte.x6d], s1)).
  { assert (Hrun : exists s, (mt ← mutable_run (take 3 broken_run) NewMutable; it ← moves [true; true] (mutable_Iterator None None mt); iter_Key it) empty_store = Ok (Some [Byte.x6d], s))
      by (eexists; vm_compute; reflexivity).
    destruct Hrun as [s Hrun]. pose proof (run_ext _ _ _ _ _ _ E2 (run_ext _ _ _ _ _ _ E1 Hrun)) as Hk. by rewrite <-(iter_Key_state _ _ _ _ Hk) at 2. }
  assert (Hlim : it_startKey it = None /\ it_limitKey it = None).
  { assert (Hrun : exists s, (mt ← mutable_run (take 3 broken_run) NewMutable; it ← moves [true; true] (mutable_Iterator None None mt); mret (it_startKey it, it_limitKey it)) empty_store = Ok (None, None, s))
      by (eexists; vm_compute; reflexivity).
    destruct Hrun as [s Hrun]. pose proof (run_ext _ _ _ _ _ _ E2 (run_ext _ _ _ _ _ _ E1 Hrun)) as Hk. by injection Hk. }
  destruct (Hgo _ Ekey) as (l & it'' & Hs & Hm & Emove & Ekey' & _).
  assert (l = [([Byte.x61], [Byte.x02]); ([Byte.x7a], [Byte.x03])]) as ->.
  { apply to_map_inj; [done|repeat constructor; vm_compute; done|]. rewrite Hm. vm_compute. reflexivity. }
  assert (Hn : ranged it (first_passing true false [Byte.x6d] [([Byte.x61], [Byte.x02]); ([Byte.x7a], [Byte.x03])]) = Some ([Byte.x7a], [Byte.x03])).
  { unfold ranged, in_range, out_of_range. destruct Hlim as [-> ->]. reflexivity. }
  rewrite Hn in Emove, Ekey'. exists s1, mt, it, s2, mt', it', it''.
  split; [exact E1|]. split; [exact E2|]. split; [exact E3|]. split; [exact E4|]. split; [exact Ekey|]. split; [exact Emove|exact Ekey'].
Defined.

Lemma iterator_walks_witness : exists s ims, immutable_versions broken_run NewImmutable empty_store = Ok (ims, s) /\ length ims = 5%nat.
Proof.
  destruct (iterator_walks broken_run empty_store true None (Some [Byte.x6e]) empty_store_ok) as (s & ims & E1 & Hlen & _). exists s, ims. split; [exact E1|exact Hlen].
Defined.

(** A reseek that is pending is not dropped by a move to the first entry: after [ForceReseek] at
    the second of three entries, [First] and then [Next] lead to the third. *)
Theorem first_after_reseek_skips : exists s mt it it', mutable_run (take 3 broken_run) NewMutable empty_store = Ok (mt, s) /\
  moves [true; true] (mutable_Iterator None None mt) s = Ok (it, s) /\
  (it ← ForceReseek mt it; '(it, _) ← First it; key ← iter_Key it; '(it, _) ← Next it; mret (it, key)) s = Ok (it', Some [Byte.x61], s) /\
  iter_Key it' s = Ok (Some [Byte.x7a], s) /\
  walk 4 true (mutable_Iterator None None mt) s = Ok ([([Byte.x61], [Byte.x02]); ([Byte.x6d], [Byte.x01]); ([Byte.x7a], [Byte.x03])], s).
Proof. eexists _, _, _, _. split_and!; [vm_compute; reflexivity..]. Qed.
