(* ===== verification/UtxoFlow.v ===== *)
(** A view that is carried from block to block: committing it, and loading the inputs of a block
    into it.  [FetchInputUtxos] puts the outputs of earlier transactions of the block into the
    view before the block is connected, so that the view is ahead of the set it stands for;
    connecting and disconnecting come to the right set all the same. *)

From stdpp Require Import gmap fin_maps.
From S2P Require Import Prelude Big WireEncoding WireTx Chainhash WireHeader WireMsg Script Standard Compress Utxo UtxoSet ChainStore StoreFacts StoreUtxo StoreReorg.

(** * Committing a view *)

Lemma flag_bit e k : 0 <= k -> (Z.land e (2 ^ k) =? 2 ^ k) = Z.testbit e k.
Proof.
  intros Hk. destruct (Z.testbit e k) eqn:Eb.
  - apply Z.eqb_eq, Z.bits_inj'. intros n Hn. rewrite Z.land_spec, Z.pow2_bits_eqb by lia. destruct (Z.eqb_spec k n) as [->|]; [by rewrite Eb|apply andb_false_r].
  - apply Z.eqb_neq. intros E. apply (f_equal (fun z => Z.testbit z k)) in E. rewrite Z.land_spec, Z.pow2_bits_true, Eb in E by lia. done.
Qed.

Lemma commit_flags e : let e' := with_flags e (Z.lxor (packedFlags e) tfModified) in
  IsSpent e' = IsSpent e /\ Entry_IsCoinBase e' = Entry_IsCoinBase e.
Proof.
  intros e'. unfold IsSpent, Entry_IsCoinBase, e', with_flags. cbn [packedFlags].
  rewrite (flag_bit _ 1), (flag_bit _ 0), (flag_bit _ 1), (flag_bit _ 0), !Z.lxor_spec by lia. cbn. by rewrite !xorb_false_r.
Qed.

(** A view that was written is committed: it is coherent with what the database stores now, and
    adds nothing to it. *)
Lemma commit_coherent U view : coherent U view -> coherent (utxos U view) (Commit view) /\ utxos (utxos U view) (Commit view) = utxos U view.
Proof.
  intros Hc.
  assert (Hl : forall o e, entries (Commit view) !! o = Some e -> exists e0, entries view !! o = Some (Some e0) /\
    e = Some (with_flags e0 (Z.lxor (packedFlags e0) tfModified))).
  { intros o e. unfold Commit, set_entries. cbn [entries]. rewrite lookup_omap. destruct (entries view !! o) as [[e0|]|]; cbn; [|done..].
    unfold commit_entry. destruct (isModified e0 && IsSpent e0); [done|]. intros [= <-]. by exists e0. }
  assert (Hcoin : forall e0, coin_of (Some (with_flags e0 (Z.lxor (packedFlags e0) tfModified))) = coin_of (Some e0)).
  { intros e0. destruct (commit_flags e0) as [E1 E2]. unfold coin_of. rewrite E1. destruct (IsSpent e0); [done|]. f_equal. unfold stxo_of. by rewrite E2. }
  split.
  - intros o e He. destruct (Hl o e He) as (e0 & H0 & ->). pose proof (Hc o _ H0) as (Ho & Hs & _). split; [done|]. destruct (commit_flags e0) as [E1 E2]. split.
    + rewrite E1. intros Hsp. specialize (Hs Hsp). unfold stxo_of in *. by rewrite E2.
    + intros _. by rewrite Hcoin, utxos_lookup, H0.
  - apply map_eq. intros o. rewrite (utxos_lookup _ (Commit view)). destruct (entries (Commit view) !! o) as [e|] eqn:He; [|done].
    destruct (Hl o e He) as (e0 & H0 & ->). by rewrite Hcoin, utxos_lookup, H0.
Qed.

Section flow.
Context `{HashFunction} `{NetText} `{RandomId}.
Context (height : Z).

(** * Outputs that are there too early *)

(** The coins of a transaction. *)
Definition created (tx : MsgTx) : utxo_set := add_coins (TxHash tx) (IsCoinBase tx) height 0 (Tx_TxOut tx) ∅.

Lemma add_coins_union (hash : bytes) (cb : bool) outs : forall i (U : utxo_set), add_coins hash cb height i outs U = add_coins hash cb height i outs ∅ ∪ U.
Proof.
  induction outs as [|out outs IH]; intros i U; cbn [add_coins]; [by rewrite (left_id_L ∅ (∪))|].
  destruct (IsUnspendable (PkScript out)); [apply IH|].
  rewrite IH, (IH _ (<[_ := _]> ∅)), <-(assoc_L (∪)). f_equal. by rewrite <-insert_union_l, (left_id_L ∅ (∪)).
Qed.

Lemma add_coins_key (hash : bytes) (cb : bool) outs (o : OutPoint) : forall i, is_Some (add_coins hash cb height i outs ∅ !! o) <-> o ∈ out_points hash i outs.
Proof.
  induction outs as [|out outs IH]; intros i; cbn [add_coins out_points]; [rewrite lookup_empty, elem_of_nil; split; [by intros [? ?]|done]|].
  rewrite add_coins_union, elem_of_app, <-IH. destruct (IsUnspendable (PkScript out)).
  - rewrite (right_id_L ∅ (∪)), elem_of_nil. tauto.
  - rewrite insert_empty, list_elem_of_singleton. rewrite lookup_union_is_Some, lookup_singleton_is_Some. split; [intros [?|<-]; tauto|intros [->|?]; tauto].
Qed.

Lemma out_points_hash (hash : bytes) outs (o : OutPoint) : forall i, o ∈ out_points hash i outs -> Op_Hash o = hash /\ exists j, o = outpoint hash j.
Proof.
  induction outs as [|out outs IH]; intros i; cbn [out_points]; [by rewrite elem_of_nil|]. rewrite elem_of_app. intros [Ho|Ho]; [|by eapply IH].
  destruct (IsUnspendable _); [by apply elem_of_nil in Ho|]. apply list_elem_of_singleton in Ho as ->. split; [done|by exists i].
Qed.

Definition outs_of (tx : MsgTx) : list OutPoint := out_points (TxHash tx) 0 (Tx_TxOut tx).

Lemma created_key tx o : is_Some (created tx !! o) <-> o ∈ outs_of tx.
Proof. apply add_coins_key. Qed.

Lemma apply_tx_lookup tx U o : apply_tx height tx U !! o =
  match created tx !! o with
  | Some c => Some c
  | None => if negb (IsCoinBase tx) && bool_decide (o ∈ map PreviousOutPoint (Tx_TxIn tx)) then None else U !! o
  end.
Proof.
  unfold apply_tx. rewrite add_coins_union. fold (created tx). rewrite lookup_union. destruct (created tx !! o) as [c|]; [by rewrite union_Some_l|].
  rewrite (left_id_L None (∪)). destruct (IsCoinBase tx); [done|]. rewrite remove_ins_lookup. cbn [negb andb].
  destruct (decide _) as [Hi|Hi]; [by rewrite bool_decide_eq_true_2|by rewrite bool_decide_eq_false_2].
Qed.

(** [V] has the coins of [S], but those of the transactions [txs] may be there already. *)
Definition ahead (txs : list MsgTx) (V S : utxo_set) : Prop :=
  forall o, V !! o = S !! o \/ exists tx, tx ∈ txs /\ o ∈ outs_of tx /\ V !! o = created tx !! o.

(** No coin of [S] comes from a transaction with one of their hashes. *)
Definition unused (txs : list MsgTx) (S : utxo_set) : Prop := forall tx o, tx ∈ txs -> Op_Hash o = TxHash tx -> S !! o = None.

Lemma ahead_refl txs S : ahead txs S S.
Proof. intros o. by left. Qed.

Lemma ahead_nil V S : ahead [] V S -> V = S.
Proof. intros Ha. apply map_eq. intros o. destruct (Ha o) as [E|(tx & Hi & _)]; [done|by apply elem_of_nil in Hi]. Qed.

(** On coins of [S] both agree. *)
Lemma ahead_coin txs V S o c : ahead txs V S -> unused txs S -> S !! o = Some c -> V !! o = Some c.
Proof.
  intros Ha Hu Hc. destruct (Ha o) as [->|(tx & Hi & Ho & _)]; [done|]. apply out_points_hash in Ho as [Ho _].
  by rewrite (Hu tx o Hi Ho) in Hc.
Qed.

Lemma ahead_inputs tx txs V S : ahead txs V S -> unused txs S -> inputs_unspent tx S ->
  inputs_unspent tx V /\ spent_coins tx V = spent_coins tx S.
Proof.
  intros Ha Hu Hi. unfold spent_coins. destruct (IsCoinBase tx) eqn:Ec; [split; [|done]; unfold inputs_unspent; by rewrite Ec|].
  destruct (Hi Ec) as [Hn Hs]. split; [intros _; split; [done|]; eapply Forall_impl; [exact Hs|]; intros ti [c Hc]; exists c; by eapply ahead_coin|].
  clear Hi Hn. induction Hs as [|ti ins [c Hc] Hs IH]; [done|]. cbn. rewrite Hc, (ahead_coin txs V S _ c) by done. cbn. by rewrite IH.
Qed.

Lemma ahead_step tx txs V S : ahead (tx :: txs) V S -> ahead txs (apply_tx height tx V) (apply_tx height tx S).
Proof.
  intros Ha o. rewrite !apply_tx_lookup. destruct (created tx !! o) as [c|] eqn:Ec; [by left|].
  destruct (negb _ && _); [by left|]. destruct (Ha o) as [E|(tx' & [->|Hi]%elem_of_cons & Ho & E)]; [by left| |right; by exists tx'].
  apply created_key in Ho as [c Hc]. by rewrite Ec in Hc.
Qed.

Lemma unused_step tx txs S : unused (tx :: txs) S -> TxHash tx ∉ map TxHash txs -> unused txs (apply_tx height tx S).
Proof.
  intros Hu Hn tx' o Hi Ho. rewrite apply_tx_lookup. destruct (created tx !! o) as [c|] eqn:Ec.
  - assert (Hk : o ∈ outs_of tx) by (apply created_key; by exists c). apply out_points_hash in Hk as [Hk _]. destruct Hn.
    rewrite <-Hk, Ho. apply list_elem_of_In, in_map, list_elem_of_In. done.
  - destruct (negb _ && _); [done|]. apply (Hu tx' o); [by right|done].
Qed.

(** ** Connecting *)

Lemma connect_ahead U txs : forall view l view' st S, NoDup (map TxHash txs) -> unused txs S -> valid_txs height txs S ->
  ahead txs (utxos U view) S -> connect_txs height txs view (Some l) = Ok (view', st) ->
  utxos U view' = apply_txs height txs S /\ st = Some (l ++ all_spent height txs S).
Proof.
  induction txs as [|tx txs IH]; intros view l view' st S Hn Hu Hv Ha; cbn [connect_txs].
  - intros [= <- <-]. rewrite app_nil_r. split; [by apply ahead_nil|done].
  - cbn [map] in Hn. apply NoDup_cons in Hn as [Hn1 Hn]. destruct Hv as (Hs & [Hi _] & _ & Hv).
    destruct (ahead_inputs tx (tx :: txs) (utxos U view) S Ha Hu Hi) as [Hi' Esp].
    destruct (ConnectTransaction _ _ _ _) as [[v st1]| |] eqn:Ec; cbn; [|done..].
    apply (connect_coins U) in Ec as [Ev ->]; [|done..]. intros E. rewrite Esp in E.
    apply (IH _ _ _ _ (apply_tx height tx S)) in E as [-> ->]; [|done|by apply unused_step|done|rewrite Ev; by apply ahead_step].
    split; [done|]. by rewrite app_assoc.
Qed.

(** ** Disconnecting *)

(** [V] has the coins of [S] except at some outputs. *)
Definition agree_off (X : list OutPoint) (V S : utxo_set) : Prop := forall o, o ∉ X -> V !! o = S !! o.

Definition outs_of_all (txs : list MsgTx) : list OutPoint := concat (map outs_of txs).

Lemma outs_of_all_in txs o : o ∈ outs_of_all txs <-> exists tx, tx ∈ txs /\ o ∈ outs_of tx.
Proof.
  unfold outs_of_all. rewrite list_elem_of_In, in_concat. split.
  - intros (x & Hx & Ho). apply in_map_iff in Hx as (tx & <- & Hi). exists tx. by rewrite !list_elem_of_In.
  - intros (tx & Hi & Ho). exists (outs_of tx). rewrite !list_elem_of_In in *. split; [by apply in_map|done].
Qed.

Lemma ahead_agree txs V S : ahead txs V S -> agree_off (outs_of_all txs) V S.
Proof. intros Ha o Ho. destruct (Ha o) as [E|(tx & Hi & Hj & _)]; [done|]. destruct Ho. apply outs_of_all_in. by exists tx. Qed.

Lemma fresh_none tx (S : utxo_set) o : outputs_fresh tx S -> o ∈ outs_of tx -> S !! o = None.
Proof. intros Hf Ho. apply out_points_hash in Ho as (_ & j & ->). apply Hf. Qed.

Lemma undo_outs_off U flags tx S view X : outputs_fresh tx S ->
  agree_off (X ++ outs_of tx) (utxos U view) (apply_tx height tx S) ->
  forall o, o ∉ X -> utxos U (spend_outs (TxHash tx) flags height 0 (Tx_TxOut tx) view) !! o =
    if negb (IsCoinBase tx) && bool_decide (o ∈ map PreviousOutPoint (Tx_TxIn tx)) then None else S !! o.
Proof.
  intros Hf Ha o Ho. rewrite spend_outs_lookup. fold (outs_of tx). destruct (decide (o ∈ outs_of tx)) as [Hi|Hi].
  - rewrite (fresh_none tx S o) by done. by destruct (_ && _).
  - rewrite Ha by (rewrite elem_of_app; tauto). rewrite apply_tx_lookup. destruct (created tx !! o) as [c|] eqn:Ec; [|done].
    destruct Hi. apply created_key. by exists c.
Qed.

Lemma undo_tx_off U fetch tx S view X pre post : IsCoinBase tx = false -> inputs_unspent tx S -> heights_known tx S -> outputs_fresh tx S ->
  agree_off (X ++ outs_of tx) (utxos U view) (apply_tx height tx S) ->
  let coins := spent_coins tx S in
  exists view', restore_ins fetch (TxHash tx) (rev (Tx_TxIn tx)) (pre ++ coins ++ post) (len pre + len coins - 1)
      (spend_outs (TxHash tx) 0 height 0 (Tx_TxOut tx) view) = Ok (view', len pre - 1, pre ++ coins ++ post) /\ agree_off X (utxos U view') S.
Proof.
  intros Hc Hi F Hf Ha coins. destruct (spent_coins_each tx S Hc Hi) as [L P]. unfold heights_known in F. fold coins in L, F, P.
  destruct (restore_ins_coins U fetch (TxHash tx) (rev (Tx_TxIn tx)) pre coins post
    (spend_outs (TxHash tx) 0 height 0 (Tx_TxOut tx) view) ltac:(by rewrite length_rev) F) as (v & E1 & E2).
  exists v. split; [done|]. intros o Ho. rewrite E2, combine_rev by done. rewrite (restore_lookup S) by (by apply Forall_rev).
  rewrite map_rev, map_rev, fst_combine by done. rewrite (undo_outs_off U 0 tx S view X) by done. rewrite Hc. cbn [negb andb].
  assert (Hr : o ∈ rev (map PreviousOutPoint (Tx_TxIn tx)) <-> o ∈ map PreviousOutPoint (Tx_TxIn tx)) by (rewrite rev_alt; apply elem_of_reverse).
  destruct (decide _) as [Hj|Hj]; [done|]. rewrite bool_decide_eq_false_2 by tauto. done.
Qed.

Lemma outs_of_all_snoc txs tx : outs_of_all (txs ++ [tx]) = outs_of_all txs ++ outs_of tx.
Proof. unfold outs_of_all. rewrite map_app, concat_app. cbn. by rewrite app_nil_r. Qed.

Lemma disconnect_off U fetch cb txs S : forall post view,
  IsCoinBase cb = true -> Forall (fun tx => IsCoinBase tx = false) txs -> valid_txs height (cb :: txs) S ->
  agree_off (outs_of_all (cb :: txs)) (utxos U view) (apply_txs height (cb :: txs) S) ->
  let coins := all_spent height (cb :: txs) S in
  exists view', disconnect_txs fetch height (rev (cb :: txs)) (coins ++ post) (len coins - 1) view = Ok (view', coins ++ post) /\ utxos U view' = S.
Proof.
  induction txs as [|tx txs IH] using rev_ind; intros post view Hc Hn Hv E coins.
  - destruct Hv as (_ & _ & Hf & _). eexists. split; [reflexivity|]. apply map_eq. intros o.
    rewrite (undo_outs_off U _ cb S view []); [by rewrite Hc|done| |by apply not_elem_of_nil].
    intros o' Ho'. apply E. unfold outs_of_all. cbn. rewrite app_nil_r. exact Ho'.
  - apply Forall_app in Hn as [Hn Ht]. apply Forall_cons in Ht as [Ht _].
    rewrite app_comm_cons in *. apply valid_txs_snoc in Hv as (Hv & [Hi Hh] & Hf).
    unfold apply_txs in E. rewrite foldl_app in E. fold (apply_txs height (cb :: txs) S) in E. cbn [foldl] in E. rewrite outs_of_all_snoc in E.
    unfold coins. rewrite !app_comm_cons, all_spent_snoc. set (done_coins := all_spent height (cb :: txs) S). rewrite rev_unit.
    destruct (undo_tx_off U fetch tx (apply_txs height (cb :: txs) S) view _ done_coins post Ht Hi Hh Hf E) as (v & E1 & E2).
    cbv zeta in E1. set (sc := spent_coins tx _) in *. destruct (IH (sc ++ post) v Hc Hn Hv E2) as (v' & E3 & E4). fold done_coins in E3.
    exists v'. split; [|done]. rewrite <-app_assoc, len_app.
    cbn [disconnect_txs]. destruct (rev (cb :: txs)) as [|r rs] eqn:Er; [by apply (f_equal length) in Er; rewrite length_rev in Er|].
    rewrite E1. exact E3.
Qed.

(** Records with their heights are not completed. *)
Lemma restore_ins_slice fetch hash rins : forall l i view v j l', Forall (fun c => st_Height c <> 0) l ->
  restore_ins fetch hash rins l i view = Ok (v, j, l') -> l' = l.
Proof.
  induction rins as [|ti rins IH]; intros l i view v j l' Hl; cbn [restore_ins]; [by intros [= _ _ <-]|]. unfold restore_in.
  destruct (index_stxo l i) as [c| |] eqn:Ei; cbn [mbind outcome_bind]; [|done..]. apply index_stxo_in in Ei. pose proof Hl as Hf. rewrite Forall_forall in Hf.
  rewrite (proj2 (Z.eqb_neq _ 0)) by (by apply Hf). cbn [mbind outcome_bind]. by apply IH.
Qed.

Lemma disconnect_txs_slice fetch rtxs : forall l i view v l', Forall (fun c => st_Height c <> 0) l ->
  disconnect_txs fetch height rtxs l i view = Ok (v, l') -> l' = l.
Proof.
  induction rtxs as [|tx rtxs IH]; intros l i view v l' Hl; cbn [disconnect_txs]; [by intros [= _ <-]|].
  destruct rtxs as [|tx' rtxs]; [by apply IH|].
  destruct (restore_ins _ _ _ _ _ _) as [[[v1 j] l2]| |] eqn:E; cbn [mbind outcome_bind]; [|done..]. apply restore_ins_slice in E as ->; [|done]. by apply IH.
Qed.

Lemma DisconnectTransactions_slice fetch txs prevHash l view v l' : Forall (fun c => st_Height c <> 0) l ->
  DisconnectTransactions fetch height txs prevHash l view = Ok (v, l') -> l' = l.
Proof.
  intros Hl. unfold DisconnectTransactions. destruct (CountSpentOutputs txs) as [n| |]; cbn [mbind outcome_bind]; [|done..]. destruct (negb _); [done|].
  destruct (disconnect_txs _ _ _ _ _ _) as [[v1 l1]| |] eqn:E; cbn [mbind outcome_bind]; [|done..]. apply disconnect_txs_slice in E as ->; [|done]. by intros [= _ <-].
Qed.

(** A block disconnected from a view that is right except for the outputs of the block. *)
Lemma disconnect_block_off U fetch prevHash txs S view : valid_block height txs S ->
  agree_off (outs_of_all txs) (utxos U view) (apply_txs height txs S) ->
  exists view', DisconnectTransactions fetch height txs prevHash (all_spent height txs S) view = Ok (view', all_spent height txs S) /\ utxos U view' = S.
Proof.
  intros Hv Ha. destruct txs as [|cb txs]; [done|]. destruct Hv as (Hc & Hn & Hv).
  destruct (disconnect_off U fetch cb txs S [] view Hc Hn Hv Ha) as (v & E & Ev). rewrite app_nil_r in E.
  exists (SetBestHash prevHash v). unfold DisconnectTransactions. rewrite (count_spent_coins height cb txs S) by done. cbn [mbind outcome_bind].
  rewrite Z.eqb_refl. cbn [negb]. rewrite E. done.
Qed.

(** ** Loading the inputs of a block *)

Lemma add_outs_keeps hash cb outs o : forall i view, entries (add_outs hash cb height i outs view) !! o = None -> entries view !! o = None.
Proof.
  induction outs as [|out outs IH]; intros i view; cbn [add_outs]; [done|]. intros E%IH. revert E. unfold addTxOut.
  destruct (IsUnspendable _); [done|]. cbn. by intros [? _]%lookup_insert_None.
Qed.

Lemma add_ahead U tx txs view S : tx ∈ txs -> ahead txs (utxos U view) S -> ahead txs (utxos U (AddTxOuts tx height view)) S.
Proof.
  intros Hi Ha o. unfold AddTxOuts. rewrite add_outs_coins, add_coins_union. fold (created tx). rewrite lookup_union.
  destruct (created tx !! o) as [c|] eqn:Ec; [|rewrite (left_id_L None (∪)); apply Ha]. right. exists tx.
  rewrite union_Some_l. split_and!; [done| |done]. apply created_key. by exists c.
Qed.

(** What the scan of the inputs leaves: a view ahead of the one it started with, and the outputs
    to load, which that one has no entries for. *)
Definition scanned (U : utxo_set) (txs : list MsgTx) (view0 view : UtxoViewpoint) (X : gset OutPoint) : Prop :=
  coherent U view /\ ahead txs (utxos U view) (utxos U view0) /\ (forall o, entries view !! o = None -> entries view0 !! o = None) /\
  set_Forall (fun o => op_ok o /\ entries view0 !! o = None) X.

Lemma needed_ins_scanned U txs m view0 i ins : is_int 32 height -> Forall tx_ok txs -> Forall (fun ti => op_ok (PreviousOutPoint ti)) ins ->
  forall view X, scanned U txs view0 view X ->
  let r := needed_ins height m txs i ins view X in scanned U txs view0 r.1 r.2.
Proof.
  intros Hh Hok. induction ins as [|ti ins IH]; intros Hi view X Hs; [done|]. apply Forall_cons in Hi as [Ho Hi]. specialize (IH Hi).
  assert (Hn : forall view X, scanned U txs view0 view X ->
    let r := match entries view !! PreviousOutPoint ti with
      | Some _ => needed_ins height m txs i ins view X
      | None => needed_ins height m txs i ins view ({[PreviousOutPoint ti]} ∪ X) end in scanned U txs view0 r.1 r.2).
  { clear view X Hs. intros view X Hs. destruct (entries view !! _) eqn:E; [by apply IH|]. apply IH. destruct Hs as (Hc & Ha & He & HX).
    split_and!; [done..|]. apply set_Forall_union; [|done]. apply set_Forall_singleton. auto. }
  cbn [needed_ins]. destruct (m !! _) as [j|]; [|by apply Hn]. destruct (j <=? i); [|by apply Hn].
  destruct (txs !! Z.to_nat j) as [tx|] eqn:Et; [|done]. apply IH. apply list_elem_of_lookup_2 in Et. destruct Hs as (Hc & Ha & He & HX).
  rewrite Forall_forall in Hok. split_and!; [|by apply add_ahead| |done].
  { unfold AddTxOuts. apply add_outs_coherent; [done..|]. by apply Hok in Et as [? _]. }
  intros o E. apply He. by eapply add_outs_keeps.
Qed.

Lemma needed_txs_scanned U all m view0 txs : is_int 32 height -> Forall tx_ok all -> Forall tx_ok txs ->
  forall i view X, scanned U all view0 view X ->
  let r := needed_txs height m all i txs view X in scanned U all view0 r.1 r.2.
Proof.
  intros Hh Hok. induction txs as [|tx txs IH]; intros Ht i view X Hs; [done|]. apply Forall_cons in Ht as [[_ Hi] Ht]. cbn [needed_txs].
  pose proof (needed_ins_scanned U all m view0 i (Tx_TxIn tx) Hh Hok Hi view X Hs) as Hr. destruct (needed_ins _ _ _ _ _ _ _) as [v Y]. by apply IH.
Qed.

Lemma load_inputs db U fetch_ead txs view view' : stores db U -> coins_ok U -> coherent U view -> is_int 32 height -> Forall tx_ok txs ->
  FetchInputUtxos (fun o => FetchUtxoEntry o db) fetch_ead height txs view = Ok view' ->
  coherent U view' /\ ahead txs (utxos U view') (utxos U view).
Proof.
  intros Hst HU Hc Hh Hok. unfold FetchInputUtxos. destruct txs as [|cb txs]; [done|]. apply Forall_cons in Hok as [Hcb Hok].
  pose proof (needed_txs_scanned U (cb :: txs) (in_flight 0 (cb :: txs) ∅) view txs Hh ltac:(by constructor) Hok 0 view ∅) as Hs.
  cbv zeta in Hs. destruct (needed_txs _ _ _ _ _ _ _) as [v X]. destruct Hs as (Hv & Ha & _ & HX).
  { split_and!; [done|apply ahead_refl|done|apply set_Forall_empty]. }
  cbn [fst snd] in *. unfold FetchUtxosMain. destruct (bool_decide _); [by intros [= <-]|].
  destruct (fetch_all_spec db U Hst HU (elements X) v) as (w & E & Hw & _ & _ & Hl); [|done|].
  { apply Forall_forall. intros o Ho%elem_of_elements. by apply (HX o Ho). }
  rewrite E. cbn [mbind outcome_bind]. intros Er.
  assert (coherent U view' /\ utxos U view' = utxos U w) as [Hv' ->].
  { destruct (negb _); [by injection Er as <-|]. destruct fetch_ead; [|done..]. cbn in Er. by injection Er as <-. }
  split; [done|]. intros o. rewrite utxos_lookup, Hl. destruct (decide _) as [Hi%elem_of_elements|_]; [|rewrite <-utxos_lookup; apply Ha].
  left. rewrite utxos_lookup. destruct (HX o Hi) as [_ ->]. destruct (U !! o); [apply coin_of_entry|done].
Qed.
End flow.
