(* ===== verification/ChainState.v ===== *)
(** Model of the state of a chain in node/blockchain (chain.go) and of what its operations share:
    the database, the index of blocks and the views of unspent outputs.

    The state is a record; an operation that fails returns an error and the state it leaves
    behind, since the code changes some of it before it finds the error.  An update of the
    database is atomic. *)

From stdpp Require Import gmap.
From S2P Require Import Prelude Big WireEncoding WireTx Chainhash WireHeader WireMsg WireBlock Standard Utxo Validate ChainStore Compress Pow Mmr MmrStore MmrTree BlockNodes ChainView ChainIndex Threshold Difficulty.

(** * Configuration *)

(** types/chaincfg/params.go *)
Record Checkpoint := { Cp_Height : Z; Cp_Hash : bytes }.

(** types/wire/protocol.go: the networks. *)
Inductive JaxNet := MainNet | TestNet | FastTestNet | SimNet.
#[export] Instance JaxNet_eq_dec : EqDecision JaxNet.
Proof. solve_decision. Defined.

(** The parameters of the chain, and what [New] computes from them. *)
Class ChainConfig := {
  isBeacon : bool; Net : JaxNet; chain_Params : Params; pow_Params : PowParams; retarget_Opts : retargetOpts;
  RuleThreshold : Z; ConfirmationWindow : Z; Deployments : list ConsensusDeployment; checkpoints : list Checkpoint;
  AutoExpand : bool; InitialExpansionRule : Z; InitialExpansionLimit : Z
}.

(** * State *)

Abbreviation Block := (MsgBlock BlockHeader).

(** The weight of the chain in a snapshot is a pointer to the one that a mountain range keeps and
    changes in place: that of the view or, in the snapshot of a new chain, that of the index. *)
Inductive weight_ref := weight_of_view | weight_of_index.

Record BestState := {
  bs_Hash : bytes; bs_CurrentMMRRoot : bytes; bs_Height : Z; bs_Bits : Z; bs_K : Z; bs_Shards : Z;
  bs_BlockSize : Z; bs_BlockWeight : Z; bs_ChainWeight : weight_ref; bs_NumTxns : Z; bs_TotalTxns : Z; bs_MedianTime : Z; bs_LastSerialID : Z
}.

(** The buckets and the raw blocks by their hashes. *)
Record Store := { meta : dbTx; block_data : gmap bytes bytes }.

(** The caches of the states of rule changes, the warnings given and the checkpoints found. *)
Record RuleState := {
  warningCaches : list thresholdStateCache; deploymentCaches : list thresholdStateCache;
  unknownRulesWarned : bool; unknownVersionsWarned : bool;
  checkpointNode : option IBlockNode; nextCheckpoint : option Checkpoint
}.

(** Nodes point to their headers, [headers], and orphans to their blocks, [orphan_data] by hash;
    [next_node] is the next pointer. *)
Record BlockChain := {
  blocksDB : rBlockStorage; roots : node_roots; db : Store; stateSnapshot : BestState; rule_state : RuleState;
  headers : gmap Z BlockHeader; next_node : Z; orphan_data : gmap bytes Block
}.

(** What is read through the pointer of the snapshot. *)
Definition snapshot_ChainWeight (b : BlockChain) : Z :=
  CurrenWeight (tc_tree match bs_ChainWeight (stateSnapshot b) with weight_of_view => view_mmr (bestChain (blocksDB b)) | weight_of_index => bi_mmrTree (index (blocksDB b)) end).

Definition set_blocksDB (s : rBlockStorage) (b : BlockChain) : BlockChain :=
  {| blocksDB := s; roots := roots b; db := db b; stateSnapshot := stateSnapshot b; rule_state := rule_state b; headers := headers b; next_node := next_node b; orphan_data := orphan_data b |}.
Definition set_roots (r : node_roots) (b : BlockChain) : BlockChain :=
  {| blocksDB := blocksDB b; roots := r; db := db b; stateSnapshot := stateSnapshot b; rule_state := rule_state b; headers := headers b; next_node := next_node b; orphan_data := orphan_data b |}.
Definition set_db (d : Store) (b : BlockChain) : BlockChain :=
  {| blocksDB := blocksDB b; roots := roots b; db := d; stateSnapshot := stateSnapshot b; rule_state := rule_state b; headers := headers b; next_node := next_node b; orphan_data := orphan_data b |}.
Definition set_snapshot (s : BestState) (b : BlockChain) : BlockChain :=
  {| blocksDB := blocksDB b; roots := roots b; db := db b; stateSnapshot := s; rule_state := rule_state b; headers := headers b; next_node := next_node b; orphan_data := orphan_data b |}.
Definition set_rule_state (r : RuleState) (b : BlockChain) : BlockChain :=
  {| blocksDB := blocksDB b; roots := roots b; db := db b; stateSnapshot := stateSnapshot b; rule_state := r; headers := headers b; next_node := next_node b; orphan_data := orphan_data b |}.
Definition add_header (h : BlockHeader) (b : BlockChain) : BlockChain :=
  {| blocksDB := blocksDB b; roots := roots b; db := db b; stateSnapshot := stateSnapshot b; rule_state := rule_state b;
     headers := <[next_node b := h]> (headers b); next_node := next_node b + 1; orphan_data := orphan_data b |}.
Definition add_orphan_data (hash : bytes) (block : Block) (b : BlockChain) : BlockChain :=
  {| blocksDB := blocksDB b; roots := roots b; db := db b; stateSnapshot := stateSnapshot b; rule_state := rule_state b; headers := headers b; next_node := next_node b;
     orphan_data := <[hash := block]> (orphan_data b) |}.
Definition set_meta_tx (tx : dbTx) (d : Store) : Store := {| meta := tx; block_data := block_data d |}.

Definition with_index (bi : blockIndex) (s : rBlockStorage) : rBlockStorage := set_index bi s.
Definition with_view (c : chainView) (s : rBlockStorage) : rBlockStorage :=
  {| index := index s; bestChain := c; orphan_index := orphan_index s; lastSerialID := lastSerialID s |}.
Definition with_orphans (oi : orphanIndex) (s : rBlockStorage) : rBlockStorage :=
  {| index := index s; bestChain := bestChain s; orphan_index := oi; lastSerialID := lastSerialID s |}.
Definition with_serial (id : Z) (s : rBlockStorage) : rBlockStorage :=
  {| index := index s; bestChain := bestChain s; orphan_index := orphan_index s; lastSerialID := id |}.

(** ** The monad *)

Definition chainM (A : Type) : Type := BlockChain -> outcome A * BlockChain.

#[export] Instance chainM_ret : MRet chainM := fun A a b => (Ok a, b).
#[export] Instance chainM_bind : MBind chainM := fun A B f m b =>
  match m b with (Ok a, b) => f a b | (Err e, b) => (Err e, b) | (Panic, b) => (Panic, b) end.

Definition lift {A} (o : outcome A) : chainM A := fun b => (o, b).
Definition get : chainM BlockChain := fun b => (Ok b, b).
Definition modify (f : BlockChain -> BlockChain) : chainM unit := fun b => (Ok tt, f b).
Definition fail {A} (e : go_error) : chainM A := lift (Err e).
Definition crash {A} : chainM A := lift Panic.

(** The error is handled and returned. *)
Definition on_error {A} (m : chainM A) (h : go_error -> chainM unit) : chainM A := fun b =>
  match m b with (Err e, b) => (_ ← h e; fail e) b | r => r end.
(** [k] runs after [m], whether it fails or not. *)
Definition finally {A} (m : chainM A) (k : chainM unit) : chainM A := fun b =>
  match m b with (Err e, b) => (_ ← k; fail e) b | (Ok a, b) => (_ ← k; mret a) b | (Panic, b) => (Panic, b) end.

(** [b.db.Update] and [b.db.View] *)
Definition db_Update (f : dbTx -> outcome dbTx) : chainM unit := fun b =>
  match f (meta (db b)) with Ok tx => (Ok tt, set_db (set_meta_tx tx (db b)) b) | Err e => (Err e, b) | Panic => (Panic, b) end.
Definition db_View {A} (f : Store -> outcome A) : chainM A := fun b => (f (db b), b).

Definition modify_index (f : blockIndex -> blockIndex) : chainM unit :=
  modify (fun b => set_blocksDB (with_index (f (index (blocksDB b))) (blocksDB b)) b).

(** * Serial numbers (chaindb_block_serial_id.go) *)

Definition BlockHashToSerialID : bytes := String.list_byte_of_string "hash_to_serialid".
Definition SerialIDToPrevBlock : bytes := String.list_byte_of_string "serialid_to_prev_block".

Definition i64ToBytes (val : Z) : bytes := bo_put littleEndian 8 (uwrap 64 val).
(** [binary.LittleEndian.Uint64] panics on less than eight bytes. *)
Definition bytesToI64 (val : bytes) : outcome Z := b ← slice val 0 8; Ok (swrap 64 (bo_get littleEndian b)).

Definition PutBlockHashToSerialID (hash : bytes) (serialID : Z) : dbTx -> outcome dbTx := put_in BlockHashToSerialID hash (i64ToBytes serialID).

Definition PutHashToSerialIDWithPrev (hash : bytes) (serialID prevSerialID : Z) (tx : dbTx) : outcome dbTx :=
  tx ← PutBlockHashToSerialID hash serialID tx;
  put_in SerialIDToPrevBlock (i64ToBytes serialID) (hash ++ i64ToBytes prevSerialID) tx.

Definition FetchBlockHashBySerialID (serialID : Z) (tx : dbTx) : outcome (bytes * Z) :=
  res ← get_in SerialIDToPrevBlock (i64ToBytes serialID) tx;
  let res := default [] res in
  if len res <? HashSize + 8 then Err (errorString "chain serial id is empty or invalid")
  else
  hash ← slice res 0 HashSize;
  sid ← slice res HashSize (HashSize + 8);
  prev ← bytesToI64 sid;
  Ok (hash, prev).

Definition FetchBlockSerialID (hash : bytes) (tx : dbTx) : outcome (Z * Z) :=
  res ← get_in BlockHashToSerialID hash tx;
  let res := default [] res in
  if len res <? 8 then Err (errorString "chain last serial id is empty or invalid")
  else
  id ← bytesToI64 res;
  '(_, prevID) ← FetchBlockHashBySerialID id tx;
  Ok (id, prevID).

(** * Blocks and nodes *)

Definition Header_Height (h : BlockHeader) : Z := match h with HBeacon h => bh_height h | HShard h => sh_height h end.
Definition Header_PrevBlockHash (h : BlockHeader) : bytes := match h with HBeacon h => bh_prevBlock h | HShard h => sh_prevBlock h end.
Definition Header_PrevBlocksMMRRoot (h : BlockHeader) : bytes := match h with HBeacon h => bh_prevMMRRoot h | HShard h => sh_prevMMRRoot h end.
Definition Header_BeaconHeader (h : BlockHeader) : BeaconHeader := match h with HBeacon h => h | HShard h => sh_beaconHeader h end.

Definition Header_ChainWeight (h : BlockHeader) : Z := match h with HBeacon h => bh_chainWeight h | HShard h => sh_chainWeight h end.
(** The versions of both headers are those of the beacon header, with the flag bits. *)
Definition Header_Version (h : BlockHeader) : Z := bh_version (Header_BeaconHeader h).

(** [FetchAllEADAddresses] (chaindb_io.go) *)
Definition FetchAllEADAddresses (tx : dbTx) : outcome (gmap bytes (option EADAddresses)) :=
  match meta_buckets tx !! EADAddressesBucketNameV2 with
  | None => Ok ∅
  | Some b =>
      foldl (fun view '(rawKey, serializedData) => view ← view; ead ← decode_ead serializedData; Ok (<[rawKey := Some ead]> view)) (Ok ∅) (map_to_list b)
  end.

Section chain.
Context `{HashFunction} `{NetText} `{RandomId}.

Definition block_Hash (block : Block) : bytes := Header_BlockHash (Header block).
Definition block_Height (block : Block) : Z := Header_Height (Header block).

(** A header as a node keeps it. *)
Definition info_of (h : BlockHeader) : header_info :=
  let bh := Header_BeaconHeader h in
  {| hi_BlockHash := Header_BlockHash h; hi_PrevBlockHash := Header_PrevBlockHash h; hi_PrevBlocksMMRRoot := Header_PrevBlocksMMRRoot h;
     hi_Version := bh_version bh; hi_Height := Header_Height h; hi_Bits := Header_Bits h; hi_K := bh_k bh; hi_VoteK := bh_voteK bh;
     hi_Timestamp := Header_Timestamp h; hi_Shards := bh_shards bh |}.

(** * The database *)

(** [FetchBlock] of the database, and the error it gives for a block that is not there. *)
Definition FetchBlockByNode (node : IBlockNode) (d : Store) : outcome Block :=
  match block_data d !! GetHash node with
  | None => Err (errorString "block does not exist")
  | Some blockBytes => '(block, _) ← DecodeBlock blockBytes; Ok block
  end.

Definition DBStoreBlock (block : Block) (d : Store) : outcome Store :=
  match block_data d !! block_Hash block with
  | Some _ => Ok d
  | None =>
      match MsgBlock_Serialize block with
      | (_, Some e) => Err e
      | w => Ok {| meta := meta d; block_data := <[block_Hash block := wbytes w]> (block_data d) |}
      end
  end.

Definition StoreNode (hs : gmap Z BlockHeader) (node : IBlockNode) (status : Z) (tx : dbTx) : outcome dbTx :=
  match hs !! node_ptr (info node) with
  | None => Panic
  | Some header => StoreBlockNode header status (SerialID node) (GetHash node) (Height node) tx
  end.

(** [index.flushToDB] *)
Definition flush_index : chainM unit := fun b =>
  let bi := index (blocksDB b) in
  match flushToDB (StoreNode (headers b)) (map snd (map_to_list (bi_dirty bi))) bi (meta (db b)) with
  | Ok (bi, tx) => (Ok tt, set_db (set_meta_tx tx (db b)) (set_blocksDB (with_index bi (blocksDB b)) b))
  | Err e => (Err e, b)
  | Panic => (Panic, b)
  end.

(** [flushIndexState]: an error is logged only. *)
Definition flushIndexState : chainM unit := fun b =>
  match flush_index b with (Err _, b) => (Ok tt, b) | r => r end.

Definition SetTip_chain (node : option IBlockNode) : chainM unit := fun b =>
  match SetTip node (bestChain (blocksDB b)) (roots b) with
  | Ok (c, r) => (Ok tt, set_roots r (set_blocksDB (with_view c (blocksDB b)) b))
  | Err e => (Err e, b)
  | Panic => (Panic, b)
  end.

Definition SetStatus_chain (node : IBlockNode) (flags : Z) : chainM unit := modify_index (SetStatusFlags node flags).

(** ** Views over the database *)

Definition FetchInputUtxos_chain (block : Block) (view : UtxoViewpoint) : chainM UtxoViewpoint := fun b =>
  (FetchInputUtxos (fun o => FetchUtxoEntry o (meta (db b))) (FetchAllEADAddresses (meta (db b))) (block_Height block) (Transactions block) view, b).

Definition ConnectTransactions_block (block : Block) (view : UtxoViewpoint) (stxos : option (list SpentTxOut))
    : outcome (UtxoViewpoint * option (list SpentTxOut)) :=
  ConnectTransactions (block_Hash block) (block_Height block) (Transactions block) view stxos.

Definition DisconnectTransactions_chain (block : Block) (prevHash : bytes) (stxos : list SpentTxOut) (view : UtxoViewpoint) : chainM (UtxoViewpoint * list SpentTxOut) := fun b =>
  (DisconnectTransactions (fun h => FetchUtxoEntryByHash h (meta (db b))) (block_Height block) (Transactions block) prevHash stxos view, b).

End chain.
