(* ===== verification/ChainRules.v ===== *)
(** Model of the checks of a block in its context: the versions and the warnings of
    versionbits.go, the checkpoints of checkpoints.go, the relative locks of chain.go and the
    checks of validate.go in node/blockchain.

    What they call in other components is a class: the block generator of the kind of chain, the
    votes on the coefficient K and on expansions, which compute with floats and with the orange
    trees, and the scripts, which are run concurrently. *)

From stdpp Require Import gmap.
From S2P Require Import Prelude Big WireEncoding WireTx Chainhash WireHeader WireMsg WireBlock Standard Engine Utxo Validate ChainStore Compress Pow Mmr MmrStore MmrTree BlockNodes ChainView ChainIndex Threshold Difficulty ChainState.

(** * Interfaces *)

(** [chaindata.ChainBlockGenerator] *)
Class BlockGenerator := {
  ValidateJaxAuxRules : Block -> Z -> outcome unit;
  CalcBlockSubsidy : Z -> Z -> BlockHeader -> Z
}.

(** [CalcMedianVoteK] and [ExpansionApproved] of a node, [ValidateVoteK] of a header and
    [pow.PackK(pow.K1)]. *)
Class VoteRules := {
  CalcMedianVoteK : IBlockNode -> outcome Z;
  node_ExpansionApproved : IBlockNode -> outcome bool;
  ValidateVoteK : BlockHeader -> outcome unit;
  PackK_K1 : Z
}.

(** [chaindata.CheckBlockScripts]: the transactions with the ages of their inputs. *)
Class ScriptRules := CheckBlockScripts : list MsgTx -> UtxoViewpoint -> Z -> outcome unit.

(** [b.TimeSource.AdjustedTime().Unix()] *)
Class TimeSource := AdjustedTime : Z.

Section rules.
Context `{HashFunction} `{NetText} `{RandomId} `{ChainConfig} `{BlockGenerator} `{VoteRules} `{ScriptRules} `{TimeSource}.

Definition modify_rules (f : RuleState -> RuleState) : chainM unit := modify (fun b => set_rule_state (f (rule_state b)) b).

Definition with_warnings (c : list thresholdStateCache) (r : RuleState) : RuleState :=
  {| warningCaches := c; deploymentCaches := deploymentCaches r; unknownRulesWarned := unknownRulesWarned r;
     unknownVersionsWarned := unknownVersionsWarned r; checkpointNode := checkpointNode r; nextCheckpoint := nextCheckpoint r |}.
Definition with_deployments (c : list thresholdStateCache) (r : RuleState) : RuleState :=
  {| warningCaches := warningCaches r; deploymentCaches := c; unknownRulesWarned := unknownRulesWarned r;
     unknownVersionsWarned := unknownVersionsWarned r; checkpointNode := checkpointNode r; nextCheckpoint := nextCheckpoint r |}.
Definition with_warned (rules versions : bool) (r : RuleState) : RuleState :=
  {| warningCaches := warningCaches r; deploymentCaches := deploymentCaches r; unknownRulesWarned := rules;
     unknownVersionsWarned := versions; checkpointNode := checkpointNode r; nextCheckpoint := nextCheckpoint r |}.
Definition with_checkpoint (node : option IBlockNode) (next : option Checkpoint) (r : RuleState) : RuleState :=
  {| warningCaches := warningCaches r; deploymentCaches := deploymentCaches r; unknownRulesWarned := unknownRulesWarned r;
     unknownVersionsWarned := unknownVersionsWarned r; checkpointNode := node; nextCheckpoint := next |}.

(** * Versions (versionbits.go) *)

Definition vbLegacyBlockVersion : Z := 1.
Definition unknownVerNumToCheck : Z := 100.
Definition unknownVerWarnNum : Z := unknownVerNumToCheck / 2.
Definition ExpansionEpochLength : Z := 1024.

Definition node_shards (node : IBlockNode) : Z := hi_Shards (node_header (info node)).

(** The first expansions happen every so many blocks, up to a limit. *)
Definition initial_expansion (limitExceeded : bool) (prevHeight : Z) : outcome bool :=
  if limitExceeded then Ok false
  else if InitialExpansionRule =? 0 then Panic
  else Ok ((Z.rem prevHeight InitialExpansionRule =? 0) && negb (prevHeight =? 0)).

Definition calcNextBlockVersion (prevNode : option IBlockNode) : outcome Z :=
  let expectedVersion := vbLegacyBlockVersion in
  if negb isBeacon then Ok match prevNode with Some n => hi_Version (node_header (info n)) | None => expectedVersion end
  else
  let version := UnsetExpansionMade (UnsetExpansionApproved expectedVersion) in
  match prevNode with
  | None => Ok version
  | Some prevNode =>
      let limitExceeded := (0 <? InitialExpansionLimit) && (uwrap 32 InitialExpansionLimit <? node_shards prevNode) in
      allowed ← initial_expansion limitExceeded (Height prevNode);
      if AutoExpand && allowed then Ok (SetExpansionMade expectedVersion)
      else if negb (bool_decide (Net = MainNet)) then Ok version
      else if negb (Z.rem (swrap 32 (Height prevNode + 1)) ExpansionEpochLength =? 0) then Ok version
      else
      approved ← node_ExpansionApproved prevNode;
      Ok (if (approved : bool) then SetExpansionMade expectedVersion else version)
  end.

Definition CalcNextBlockVersion : chainM Z := b ← get; lift (calcNextBlockVersion (view_tip (bestChain (blocksDB b)))).

(** [bitConditionChecker] *)
Definition bit_condition (bit : Z) (node : IBlockNode) : outcome bool :=
  let conditionMask := uwrap 32 (Z.shiftl 1 bit) in
  let version := uwrap 32 (node_Version node) in
  if negb (Z.land version vbTopMask =? vbTopBits) then Ok false
  else if Z.land version conditionMask =? 0 then Ok false
  else
  blockVersion ← calcNextBlockVersion (Parent node);
  Ok (Z.land (uwrap 32 (BVersion_Version blockVersion)) conditionMask =? 0).

Definition bitConditionChecker (bit : Z) : thresholdConditionChecker :=
  {| BeginTime := 0; EndTime := 2 ^ 64 - 1; RuleChangeActivationThreshold := RuleThreshold; MinerConfirmationWindow := ConfirmationWindow;
     Condition := bit_condition bit |}.

(** [warnUnknownRuleActivations], from a bit. *)
Fixpoint warn_bits (n : nat) (bit : Z) (node : IBlockNode) : chainM unit :=
  match n with
  | O => mret tt
  | S n =>
      b ← get;
      match warningCaches (rule_state b) !! Z.to_nat bit with
      | None => crash
      | Some cache =>
          let '(cache, r) := thresholdState isBeacon (bitConditionChecker bit) (Parent node) cache in
          _ ← modify_rules (fun rs => with_warnings (<[Z.to_nat bit := cache]> (warningCaches rs)) rs);
          state ← lift r;
          _ ← match state with
              | ThresholdActive => modify_rules (fun rs => with_warned true (unknownVersionsWarned rs) rs)
              | ThresholdLockedIn => if swrap 32 ConfirmationWindow =? 0 then crash else mret tt
              | _ => mret tt
              end;
          warn_bits n (bit + 1) node
      end
  end.

Definition warnUnknownRuleActivations (node : IBlockNode) : chainM unit := warn_bits (Z.to_nat vbNumBits) 0 node.

(** The blocks with unexpected versions among [n]. *)
Fixpoint count_upgraded (n : nat) (node : IBlockNode) (numUpgraded : Z) : outcome Z :=
  match n with
  | O => Ok numUpgraded
  | S n =>
      blockVersion ← calcNextBlockVersion (Parent node);
      let expectedVersion := BVersion_Version blockVersion in
      let numUpgraded := if (vbLegacyBlockVersion <? expectedVersion) && negb (Z.land (node_Version node) (Z.lnot expectedVersion) =? 0)
                         then numUpgraded + 1 else numUpgraded in
      match node with first_node _ => Ok numUpgraded | child_node _ parent => count_upgraded n parent numUpgraded end
  end.

Definition warnUnknownVersions (node : IBlockNode) : chainM unit :=
  b ← get;
  if unknownVersionsWarned (rule_state b) then mret tt
  else
  numUpgraded ← lift (count_upgraded (Z.to_nat unknownVerNumToCheck) node 0);
  if unknownVerWarnNum <? numUpgraded then modify_rules (fun rs => with_warned (unknownRulesWarned rs) true rs) else mret tt.

(** [deploymentState] with the caches of the chain. *)
Definition deploymentState_chain (prevNode : option IBlockNode) (deploymentID : Z) : chainM ThresholdState := fun b =>
  let '(caches, r) := deploymentState isBeacon Deployments RuleThreshold ConfirmationWindow prevNode deploymentID (deploymentCaches (rule_state b)) in
  (r, set_rule_state (with_deployments caches (rule_state b)) b).

(** * Checkpoints (checkpoints.go) *)

Definition LatestCheckpoint : option Checkpoint := last checkpoints.

(** [checkpointsByHeight] *)
Definition checkpoint_at (height : Z) : option Checkpoint := List.find (fun c => Cp_Height c =? height) checkpoints.

Definition verifyCheckpoint (height : Z) (hash : bytes) : bool :=
  match checkpoint_at height with None => true | Some c => Hash_IsEqual (Cp_Hash c) hash end.

(** The last of the first [i] checkpoints that is on the main chain, and the checkpoint after it. *)
Fixpoint known_checkpoint (i : nat) (s : rBlockStorage) : option (IBlockNode * option Checkpoint) :=
  match i with
  | O => None
  | S i =>
      match checkpoints !! i ≫= (fun c => LookupNode (Cp_Hash c) (index s)) with
      | Some node => if contains node (bestChain s) then Some (node, checkpoints !! S i) else known_checkpoint i s
      | None => known_checkpoint i s
      end
  end.

(** The checkpoint after the last one with a hash. *)
Fixpoint checkpoint_after (i : nat) (hash : bytes) : option Checkpoint :=
  match i with
  | O => None
  | S i =>
      match checkpoints !! i with
      | Some c => if Hash_IsEqual (Cp_Hash c) hash then checkpoints !! S i else checkpoint_after i hash
      | None => checkpoint_after i hash
      end
  end.

Definition findPreviousCheckpoint : chainM (option IBlockNode) :=
  match checkpoints with
  | [] => mret None
  | first :: _ =>
      b ← get;
      match checkpointNode (rule_state b), nextCheckpoint (rule_state b) with
      | None, None =>
          match known_checkpoint (length checkpoints) (blocksDB b) with
          | Some (node, next) => _ ← modify_rules (with_checkpoint (Some node) next); mret (Some node)
          | None => _ ← modify_rules (with_checkpoint None (Some first)); mret None
          end
      | node, None => mret node
      | node, Some next =>
          match view_tip (bestChain (blocksDB b)) with
          | None => crash
          | Some tip =>
              if Height tip <? Cp_Height next then mret node
              else
              match LookupNode (Cp_Hash next) (index (blocksDB b)) with
              | None => fail AssertError
              | Some node =>
                  _ ← modify_rules (with_checkpoint (Some node) (checkpoint_after (length checkpoints) (Cp_Hash next)));
                  mret (Some node)
              end
          end
      end
  end.

(** [isCurrent] (chain.go) *)
Definition isCurrent (tip : IBlockNode) : bool :=
  if match LatestCheckpoint with Some c => Height tip <? Cp_Height c | None => false end then false
  else if bool_decide (Net = FastTestNet \/ Net = SimNet \/ Net = TestNet) then true
  else AdjustedTime - 7 * 24 * 60 * 60 <=? Timestamp tip.

(** The warnings of [connectBlock]. *)
Definition warnUnknown (node : IBlockNode) : chainM unit :=
  b ← get;
  match view_tip (bestChain (blocksDB b)) with
  | None => crash
  | Some tip => if isCurrent tip then _ ← warnUnknownRuleActivations node; warnUnknownVersions node else mret tt
  end.

(** * Relative locks (chain.go) *)

Definition SequenceLockTimeGranularity : Z := 9.

Definition set_ins (ins : list TxIn) (tx : MsgTx) : MsgTx := {| Version := Version tx; Tx_TxIn := ins; Tx_TxOut := Tx_TxOut tx; LockTime := LockTime tx |}.

(** The inputs of [calcSequenceLock]: the lock and the inputs with their ages set. *)
Fixpoint lock_ins (node : IBlockNode) (mTx : MsgTx) (utxoView : UtxoViewpoint) (nextHeight : Z) (ins : list TxIn) (lock : SequenceLock)
    : outcome (SequenceLock * list TxIn) :=
  match ins with
  | [] => Ok (lock, [])
  | txIn :: ins =>
      match LookupEntry utxoView (PreviousOutPoint txIn) with
      | None =>
          if SwapTx mTx then '(lock, ins) ← lock_ins node mTx utxoView nextHeight ins lock; Ok (lock, txIn :: ins)
          else rule "ErrMissingTxOut"
      | Some utxo =>
          let inputHeight := if entry_blockHeight utxo =? 0x7fffffff then nextHeight else entry_blockHeight utxo in
          let sequenceNum := Sequence txIn in
          let relativeLock := Z.land sequenceNum SequenceLockTimeMask in
          if Z.land sequenceNum SequenceLockTimeDisabled =? SequenceLockTimeDisabled then
            '(lock, ins) ← lock_ins node mTx utxoView nextHeight ins lock; Ok (lock, txIn :: ins)
          else
          lock ←
            (if Z.land sequenceNum SequenceLockTimeIsSeconds =? SequenceLockTimeIsSeconds then
               let prevInputHeight := Z.max 0 (swrap 32 (inputHeight - 1)) in
               match Ancestor prevInputHeight node with
               | None => Panic
               | Some blockNode =>
                   medianTime ← CalcPastMedianTime isBeacon blockNode;
                   let timeLockSeconds := Z.shiftl relativeLock SequenceLockTimeGranularity - 1 in
                   let timeLock := swrap 64 (medianTime + timeLockSeconds) in
                   Ok (if Seconds lock <? timeLock then {| Seconds := timeLock; Sl_BlockHeight := Sl_BlockHeight lock |} else lock)
               end
             else
               let blockHeight := swrap 32 (inputHeight + swrap 32 (relativeLock - 1)) in
               Ok (if Sl_BlockHeight lock <? blockHeight then {| Seconds := Seconds lock; Sl_BlockHeight := blockHeight |} else lock));
          '(lock, ins) ← lock_ins node mTx utxoView nextHeight ins lock;
          Ok (lock, set_age txIn (swrap 32 (nextHeight - inputHeight)) :: ins)
      end
  end.

Definition calcSequenceLock (node : IBlockNode) (tx : MsgTx) (utxoView : UtxoViewpoint) (mempool : bool) : outcome (SequenceLock * MsgTx) :=
  let sequenceLock := {| Seconds := -1; Sl_BlockHeight := -1 |} in
  let csvSoftforkActive := mempool in
  let sequenceLockActive := (Version tx =? TxVerTimeLock) && csvSoftforkActive in
  if negb sequenceLockActive || IsCoinBase tx then Ok (sequenceLock, tx)
  else
  let nextHeight := swrap 32 (Height node + 1) in
  '(lock, ins) ← lock_ins node tx utxoView nextHeight (Tx_TxIn tx) sequenceLock;
  Ok (lock, set_ins ins tx).

Definition CalcSequenceLock (tx : MsgTx) (utxoView : UtxoViewpoint) (mempool : bool) : chainM (SequenceLock * MsgTx) :=
  b ← get;
  match view_tip (bestChain (blocksDB b)) with None => crash | Some tip => lift (calcSequenceLock tip tx utxoView mempool) end.

Definition LockTimeToSequence (isSeconds : bool) (locktime : Z) : Z :=
  if negb isSeconds then locktime else Z.lor SequenceLockTimeIsSeconds (Z.shiftr locktime SequenceLockTimeGranularity).

(** * A block in its context (validate.go, difficulty.go) *)

Definition BFFastAdd : Z := 1.
Definition has_flag (flags flag : Z) : bool := Z.land flags flag =? flag.

Definition calcNextK (lastNode : option IBlockNode) : outcome Z :=
  match lastNode with
  | None => Ok PackK_K1
  | Some lastNode =>
      let next := swrap 32 (Height lastNode + 1) in
      if BeaconEpoch next <=? 2 then Ok PackK_K1
      else if negb (Z.rem next KBeaconEpochLen =? 0) then Ok (node_K lastNode)
      else match RelativeAncestor KBeaconEpochLen lastNode with None => Panic | Some ancestor => CalcMedianVoteK ancestor end
  end.

(** An error of a check as a broken rule. *)
Definition as_rule {A} (code : string) (o : outcome A) : outcome A := match o with Err _ => rule code | r => r end.

Definition check_expansion (header : BlockHeader) (prevNode : IBlockNode) : outcome unit :=
  let shardsDelta := bh_shards (Header_BeaconHeader header) - node_shards prevNode in
  if shardsDelta =? 0 then Ok ()
  else if shardsDelta =? 1 then (if BVersion_ExpansionMade (Header_Version header) then Ok () else rule "ErrUnexpectedShardsValue")
  else rule "ErrUnexpectedShardsValue".

(** The checks of a header that a fast addition skips. *)
Definition check_header_rules (header : BlockHeader) (prevNode : IBlockNode) : outcome unit :=
  expectedDifficulty ← calcNextRequiredDifficulty pow_Params retarget_Opts (Some prevNode) (Header_Timestamp header);
  let blockDifficulty := Header_Bits header in
  let blockDifficultyLess := CompactToBig expectedDifficulty <? CompactToBig blockDifficulty in
  if (isBeacon && negb (blockDifficulty =? expectedDifficulty)) || (negb isBeacon && blockDifficultyLess) then rule "ErrUnexpectedDifficulty"
  else
  medianTime ← CalcPastMedianTime isBeacon prevNode;
  if negb (medianTime <? Header_Timestamp header) && negb (bool_decide (Net = FastTestNet)) then rule "ErrTimeTooOld"
  else if negb isBeacon then Ok ()
  else
  _ ← check_expansion header prevNode;
  expectedK ← calcNextK (Some prevNode);
  if negb (expectedK =? bh_k (Header_BeaconHeader header)) then rule "ErrUnexpectedKValue"
  else if 3 <? Height prevNode then as_rule "ErrUnexpectedKValue" (ValidateVoteK header)
  else Ok ().

Definition checkBlockHeaderContext (header : BlockHeader) (prevNode : IBlockNode) (flags : Z) : chainM unit :=
  b ← get;
  if negb (Header_Height header =? swrap 32 (Height prevNode + 1)) then lift (rule "ErrInvalidBlockHeightValue")
  else if negb (Header_ChainWeight header =? WorkSum prevNode) then lift (rule "ErrInvalidChainWeightValue")
  else
  prevHeader ← lift (from_option Ok Panic (headers b !! node_ptr (info prevNode)));
  if negb (Header_ChainWeight header =? PowWeight prevNode + Header_ChainWeight prevHeader) then lift (rule "ErrInvalidChainWeightValue")
  else
  _ ← (if has_flag flags BFFastAdd then mret tt else lift (check_header_rules header prevNode));
  let blockHeight := swrap 32 (Height prevNode + 1) in
  if negb (verifyCheckpoint blockHeight (Header_BlockHash header)) then lift (rule "ErrBadCheckpoint")
  else
  checkpoint ← findPreviousCheckpoint;
  match checkpoint with
  | Some node => if blockHeight <? Height node then lift (rule "ErrForkTooOld") else mret tt
  | None => mret tt
  end.

Definition ShouldHaveSerializedBlockHeight (header : BlockHeader) : bool := serializedHeightVersion <=? Header_Version header.

Definition checkBlockContext (block : Block) (prevNode : IBlockNode) (flags : Z) : chainM unit :=
  let header := Header block in
  _ ← checkBlockHeaderContext header prevNode flags;
  if has_flag flags BFFastAdd then mret tt
  else
  csvState ← deploymentState_chain (Some prevNode) DeploymentCSV;
  blockTime ← lift (if bool_decide (csvState = ThresholdActive) then CalcPastMedianTime isBeacon prevNode else Ok (Header_Timestamp header));
  let blockHeight := swrap 32 (Height prevNode + 1) in
  if negb (forallb (fun tx => IsFinalizedTransaction tx blockHeight blockTime) (Transactions block)) then lift (rule "ErrUnfinalizedTx")
  else
  _ ← (if ShouldHaveSerializedBlockHeight header then
         match Transactions block with [] => crash | coinbaseTx :: _ => lift (CheckSerializedHeight coinbaseTx blockHeight) end
       else mret tt);
  segwitState ← deploymentState_chain (Some prevNode) DeploymentSegwit;
  if bool_decide (segwitState = ThresholdActive) then
    _ ← lift (ValidateWitnessCommitment (Transactions block));
    if MaxBlockWeight <? GetBlockWeight block then lift (rule "ErrBlockWeightTooHigh") else mret tt
  else mret tt.

(** * Connecting a block to a view (validate.go) *)

Definition Bip16Activation : Z := 1333238400.

Fixpoint check_sigop_cost (isCoinBaseTx : bool) (txs : list MsgTx) (view : UtxoViewpoint) (enforceBIP0016 enforceSegWit : bool) (totalSigOpCost : Z) : outcome unit :=
  match txs with
  | [] => Ok ()
  | tx :: txs =>
      sigOpCost ← GetSigOpCost tx isCoinBaseTx view enforceBIP0016 enforceSegWit;
      let lastSigOpCost := totalSigOpCost in
      let totalSigOpCost := swrap 64 (totalSigOpCost + sigOpCost) in
      if (totalSigOpCost <? lastSigOpCost) || (MaxBlockSigOpsCost <? totalSigOpCost) then rule "ErrTooManySigOps"
      else check_sigop_cost false txs view enforceBIP0016 enforceSegWit totalSigOpCost
  end.

(** The transactions with the ages of their inputs set, the view, the spent outputs and the fees. *)
Fixpoint connect_checked (height : Z) (txs : list MsgTx) (view : UtxoViewpoint) (stxos : option (list SpentTxOut)) (totalFees : Z)
    : outcome (list MsgTx * UtxoViewpoint * option (list SpentTxOut) * Z) :=
  match txs with
  | [] => Ok ([], view, stxos, totalFees)
  | tx :: txs =>
      '(txFee, tx) ← CheckTransactionInputs tx height view chain_Params;
      let lastTotalFees := totalFees in
      let totalFees := swrap 64 (totalFees + txFee) in
      if totalFees <? lastTotalFees then rule "ErrBadFees"
      else
      '(view, stxos) ← ConnectTransaction tx height view stxos;
      '(txs, view, stxos, totalFees) ← connect_checked height txs view stxos totalFees;
      Ok (tx :: txs, view, stxos, totalFees)
  end.

Fixpoint check_sequence_locks (node : IBlockNode) (txs : list MsgTx) (view : UtxoViewpoint) (medianTime : Z) : outcome (list MsgTx) :=
  match txs with
  | [] => Ok []
  | tx :: txs =>
      '(sequenceLock, tx) ← calcSequenceLock node tx view false;
      if (Version tx =? TxVerTimeLock) && negb (SequenceLockActive sequenceLock (Height node) medianTime) then rule "ErrUnfinalizedTx"
      else
      txs ← check_sequence_locks node txs view medianTime;
      Ok (tx :: txs)
  end.

Definition sum_amounts (outs : list TxOut) : Z := foldl (fun total out => swrap 64 (total + Value out)) 0 outs.

(** The flags of the scripts; the version is compared with its flag bits. *)
Definition script_flags (enforceBIP0016 enforceSegWit csvActive : bool) (version : Z) : Z :=
  let flags := if enforceBIP0016 then ScriptBip16 else 0 in
  let flags := if 3 <=? version then Z.lor flags ScriptVerifyDERSignatures else flags in
  let flags := if 4 <=? version then Z.lor flags ScriptVerifyCheckLockTimeVerify else flags in
  let flags := if csvActive then Z.lor flags ScriptVerifyCheckSequenceVerify else flags in
  if enforceSegWit then Z.lor (Z.lor flags ScriptVerifyWitness) ScriptStrictMultiSig else flags.

(** The view and the spent outputs afterwards. *)
Definition checkConnectBlock (node : IBlockNode) (block : Block) (view : UtxoViewpoint) (stxos : option (list SpentTxOut))
    : chainM (UtxoViewpoint * option (list SpentTxOut)) :=
  if negb (Hash_IsEqual (bestHash view) (PrevHash node)) then fail AssertError
  else
  view ← FetchInputUtxos_chain block view;
  let enforceBIP0016 := Bip16Activation <=? Timestamp node in
  segwitState ← deploymentState_chain (Parent node) DeploymentSegwit;
  let enforceSegWit := bool_decide (segwitState = ThresholdActive) in
  _ ← lift (check_sigop_cost true (Transactions block) view enforceBIP0016 enforceSegWit 0);
  '(transactions, view, stxos, totalFees) ← lift (connect_checked (Height node) (Transactions block) view stxos 0);
  totalSatoshiOut ← lift match transactions with [] => Panic | coinbase :: _ => Ok (sum_amounts (Tx_TxOut coinbase)) end;
  let reward := CalcBlockSubsidy (Height node) (node_Bits node) (Header block) in
  let expectedSatoshiOut := swrap 64 (reward + totalFees) in
  if expectedSatoshiOut <? totalSatoshiOut then lift (rule "ErrBadCoinbaseValue")
  else
  let runScripts := match LatestCheckpoint with Some c => negb (Height node <=? Cp_Height c) | None => true end in
  csvState ← deploymentState_chain (Parent node) DeploymentCSV;
  let csvActive := bool_decide (csvState = ThresholdActive) in
  transactions ← (if csvActive then
     match Parent node with
     | None => crash
     | Some parent =>
         medianTime ← lift (CalcPastMedianTime isBeacon parent);
         lift (check_sequence_locks node transactions view medianTime)
     end
   else mret transactions);
  _ ← (if runScripts then
         lift (CheckBlockScripts transactions view (script_flags enforceBIP0016 enforceSegWit csvActive (Header_Version (Header block))))
       else mret tt);
  mret (SetBestHash (GetHash node) view, stxos).

(** [CheckConnectBlockTemplate]: the chain is left as it was, the caches of the rules apart. *)
Definition CheckConnectBlockTemplate (block : Block) (skipAuxValidation : bool) : chainM unit :=
  b ← get;
  match view_tip (bestChain (blocksDB b)) with
  | None => crash
  | Some tip =>
      let header := Header block in
      let '(prevHash, _, inMainChain) := getBlockParentHash (Header_PrevBlocksMMRRoot header) (blocksDB b) in
      if negb inMainChain || negb (Hash_IsEqual (GetHash tip) prevHash) then lift (rule "ErrPrevBlockNotBest")
      else
      _ ← lift (CheckBlockSanityWF block chain_Params AdjustedTime BFNoPoWCheck);
      _ ← (if skipAuxValidation then mret tt else lift (ValidateJaxAuxRules block (block_Height block)));
      _ ← checkBlockContext block tip BFNoPoWCheck;
      let view := SetBestHash (GetHash tip) (NewUtxoViewpoint isBeacon) in
      let newNode := NewBlockNode (next_node b) (info_of header) (Some tip) (swrap 64 (lastSerialID (blocksDB b) + 1)) in
      _ ← checkConnectBlock newNode block view None;
      mret tt
  end.
End rules.

(** The optional indexes, [IndexManager]. *)
Class IndexManager := {
  index_ConnectBlock : Block -> bytes -> list SpentTxOut -> dbTx -> outcome dbTx;
  index_DisconnectBlock : Block -> bytes -> list SpentTxOut -> dbTx -> outcome dbTx
}.
