(* ===== verification/Chain.v ===== *)
(** Model of the selection of the best chain in node/blockchain: connecting and disconnecting
    blocks, reorganizations, the choice of the branch with the most work (chain.go), and how a
    block gets into the chain (accept.go, process.go). *)

From stdpp Require Import gmap.
From S2P Require Import Prelude Big WireEncoding WireTx Chainhash WireHeader WireMsg WireBlock Standard Utxo Validate ChainStore Compress Pow Mmr MmrStore MmrTree BlockNodes ChainView ChainIndex Threshold Difficulty ChainState ChainRules.

Section chain.
Context `{HashFunction} `{NetText} `{RandomId} `{ChainConfig} `{BlockGenerator} `{VoteRules} `{ScriptRules} `{TimeSource} `{IndexManager}.

(** ** The best state *)

(** [NewBestState] *)
Definition NewBestState (node : IBlockNode) (actualMMRRoot : bytes) (blockSize blockWeight : Z) (chainWeight : weight_ref) (numTxns totalTxns medianTime lastSerialID : Z) : BestState :=
  let h := node_header (info node) in
  {| bs_Hash := GetHash node; bs_CurrentMMRRoot := actualMMRRoot; bs_Height := Height node; bs_Bits := node_Bits node; bs_K := hi_K h; bs_Shards := hi_Shards h;
     bs_BlockSize := blockSize; bs_BlockWeight := blockWeight; bs_ChainWeight := chainWeight; bs_NumTxns := numTxns; bs_TotalTxns := totalTxns;
     bs_MedianTime := medianTime; bs_LastSerialID := lastSerialID |}.

Definition PutBestState_chain (snapshot : BestState) (work : Z) : dbTx -> outcome dbTx :=
  PutBestState {| Best_Hash := bs_Hash snapshot; Best_MMRRoot := bs_CurrentMMRRoot snapshot; Best_Height := uwrap 32 (bs_Height snapshot);
                  LastSerialID := bs_LastSerialID snapshot; TotalTxns := bs_TotalTxns snapshot; workSum := work |}.

(** The sizes of a block, and the state of the chain with it at the end. *)
Definition best_state (node : IBlockNode) (block : Block) (actualMMRRoot : bytes) (totalTxns : Z) (b : BlockChain) : outcome BestState :=
  medianTime ← CalcPastMedianTime isBeacon node;
  Ok (NewBestState node actualMMRRoot (uwrap 64 (MsgBlock_SerializeSize block)) (uwrap 64 (GetBlockWeight block))
        weight_of_view (len (Transactions block)) (uwrap 64 totalTxns) medianTime (lastSerialID (blocksDB b))).

(** * Connecting a block *)

(** What is written for a block.  The error of the first write is overwritten by the result of
    the second one. *)
Definition connect_update (node : IBlockNode) (block : Block) (view : UtxoViewpoint) (stxos : list SpentTxOut) (state : BestState) (tx : dbTx) : outcome dbTx :=
  tx ← match PutBestState_chain state (WorkSum node) tx with Err _ => Ok tx | r => r end;
  tx ← PutBlockIndex (block_Hash block) (Height node) tx;
  tx ← PutUtxoView (map_to_list (entries view)) tx;
  tx ← PutEADAddresses (map_to_list (eadAddresses view)) tx;
  tx ← PutSpendJournalEntry (block_Hash block) stxos tx;
  index_ConnectBlock block (PrevHash node) stxos tx.

(** [connectBlock]: the view is committed. *)
Definition connectBlock (node : IBlockNode) (block : Block) (view : UtxoViewpoint) (stxos : list SpentTxOut) : chainM UtxoViewpoint :=
  b ← get;
  match view_tip (bestChain (blocksDB b)) with
  | None => crash
  | Some tip =>
      if negb (Hash_IsEqual (PrevHash node) (GetHash tip)) then fail AssertError
      else
      n ← lift (CountSpentOutputs (Transactions block));
      if negb (len stxos =? n) then fail AssertError
      else
      _ ← warnUnknown node;
      _ ← flush_index;
      _ ← SetTip_chain (Some node);
      b ← get;
      state ← lift (best_state node block (CurrentRoot (tc_tree (view_mmr (bestChain (blocksDB b)))))
                      (bs_TotalTxns (stateSnapshot b) + len (Transactions block)) b);
      _ ← db_Update (connect_update node block view stxos state);
      _ ← modify (set_snapshot state);
      mret (Commit view)
  end.

(** * Disconnecting a block *)

Definition disconnect_update (node : IBlockNode) (block : Block) (view : UtxoViewpoint) (forkRoot : option IBlockNode) (state : BestState) (tx : dbTx) : outcome dbTx :=
  tx ← PutBestState_chain state (WorkSum node) tx;
  tx ← RemoveBlockIndex (block_Hash block) (Height node) tx;
  tx ← PutUtxoView (map_to_list (entries view)) tx;
  tx ← PutEADAddresses (map_to_list (eadAddresses view)) tx;
  stxos ← FetchSpendJournalEntry (block_Hash block) (Transactions block) tx;
  tx ← RemoveSpendJournalEntry (block_Hash block) tx;
  tx ← index_DisconnectBlock block (PrevHash node) stxos tx;
  match forkRoot with
  | None => Ok tx
  | Some forkRoot => PutHashToSerialIDWithPrev (GetHash node) (SerialID node) (SerialID forkRoot) tx
  end.

Definition RmBlock_index (node : IBlockNode) : chainM unit := fun b =>
  let bi := index (blocksDB b) in
  match RmBlock (GetHash node) (Height node) (tc_tree (bi_mmrTree bi)) with
  | Ok t => (Ok tt, set_blocksDB (with_index
      {| bi_index := bi_index bi; bi_dirty := bi_dirty bi; bi_mmrTree := {| tc_tree := t; RootToBlock := RootToBlock (bi_mmrTree bi) |};
         bi_status := bi_status bi |} (blocksDB b)) b)
  | Err e => (Err e, b)
  | Panic => (Panic, b)
  end.

Definition disconnectBlock (node : IBlockNode) (block : Block) (view : UtxoViewpoint) (forkRoot : option IBlockNode) : chainM UtxoViewpoint :=
  b ← get;
  match view_tip (bestChain (blocksDB b)) with
  | None => crash
  | Some tip =>
      if negb (Hash_IsEqual (GetHash node) (GetHash tip)) then fail AssertError
      else
      match Parent node with
      | None => crash
      | Some prevNode =>
          prevBlock ← db_View (FetchBlockByNode prevNode);
          _ ← flush_index;
          _ ← RmBlock_index node;
          _ ← SetTip_chain (Some prevNode);
          b ← get;
          state ← lift (best_state prevNode prevBlock (PrevMMRRoot node) (bs_TotalTxns (stateSnapshot b) - len (Transactions block)) b);
          _ ← db_Update (disconnect_update node block view forkRoot state);
          _ ← modify (set_snapshot state);
          mret (Commit view)
      end
  end.

(** * Reorganizations *)

(** The blocks to detach with what they spent, as [DisconnectTransactions] leaves it, and the view after them.  The best node is
    followed for the log only. *)
Fixpoint check_detach (nodes : list IBlockNode) (view : UtxoViewpoint) : chainM (list (IBlockNode * Block * list SpentTxOut) * UtxoViewpoint) :=
  match nodes with
  | [] => mret ([], view)
  | blockNode :: nodes =>
      block ← db_View (FetchBlockByNode blockNode);
      if negb (bool_decide (GetHash blockNode = block_Hash block)) then fail AssertError
      else
      view ← FetchInputUtxos_chain block view;
      stxos ← db_View (fun d => FetchSpendJournalEntry (block_Hash block) (Transactions block) (meta d));
      '(view, stxos) ← DisconnectTransactions_chain block (PrevHash blockNode) stxos view;
      '(rest, view) ← check_detach nodes view;
      mret ((blockNode, block, stxos) :: rest, view)
  end.

(** A block of the new branch that breaks a rule is marked, and all of those after it. *)
Definition mark_failed (n : IBlockNode) (rest : list IBlockNode) (e : go_error) : chainM unit :=
  match e with
  | RuleError _ =>
      _ ← SetStatus_chain n StatusValidateFailed;
      foldr (fun dn m => _ ← SetStatus_chain dn StatusInvalidAncestor; m) (mret tt) rest
  | _ => mret tt
  end.

(** The blocks to attach; the view is only used to check them. *)
Fixpoint check_attach (nodes : list IBlockNode) (view : UtxoViewpoint) : chainM (list (IBlockNode * Block)) :=
  match nodes with
  | [] => mret []
  | n :: nodes =>
      block ← db_View (FetchBlockByNode n);
      b ← get;
      if KnownValid (NodeStatus n (index (blocksDB b))) then
        view ← FetchInputUtxos_chain block view;
        '(view, _) ← lift (ConnectTransactions_block block view None);
        rest ← check_attach nodes view;
        mret ((n, block) :: rest)
      else
      '(view, _) ← on_error (checkConnectBlock n block view None) (mark_failed n nodes);
      _ ← SetStatus_chain n StatusValid;
      rest ← check_attach nodes view;
      mret ((n, block) :: rest)
  end.

Fixpoint detach_blocks (l : list (IBlockNode * Block * list SpentTxOut)) (forkRoot : option IBlockNode) (view : UtxoViewpoint) : chainM UtxoViewpoint :=
  match l with
  | [] => mret view
  | (blockNode, block, stxos) :: l =>
      view ← FetchInputUtxos_chain block view;
      '(view, _) ← DisconnectTransactions_chain block (PrevHash blockNode) stxos view;
      view ← disconnectBlock blockNode block view forkRoot;
      detach_blocks l forkRoot view
  end.

Fixpoint attach_blocks (l : list (IBlockNode * Block)) (view : UtxoViewpoint) : chainM UtxoViewpoint :=
  match l with
  | [] => mret view
  | (n, block) :: l =>
      view ← FetchInputUtxos_chain block view;
      '(view, stxos) ← lift (ConnectTransactions_block block view (Some []));
      view ← connectBlock n block view (default [] stxos);
      attach_blocks l view
  end.

(** The lists fit the end of the best chain and each other. *)
Definition check_lists (detachNodes attachNodes : list IBlockNode) (tip : IBlockNode) : outcome unit :=
  _ ← match detachNodes with
      | [] => Ok ()
      | firstDetachNode :: _ => if bool_decide (GetHash firstDetachNode = GetHash tip) then Ok () else Err AssertError
      end;
  match attachNodes, last detachNodes with
  | firstAttachNode :: _, Some lastDetachNode =>
      match Parent firstAttachNode, Parent lastDetachNode with
      | Some p, Some q => if bool_decide (GetHash p = GetHash q) then Ok () else Err AssertError
      | _, _ => Panic
      end
  | _, _ => Ok ()
  end.

Definition new_view (tip : IBlockNode) : UtxoViewpoint := SetBestHash (GetHash tip) (NewUtxoViewpoint isBeacon).

(** The part of [reorganizeChain] before the chain is changed: the blocks are loaded and checked. *)
Definition check_phase (detachNodes attachNodes : list IBlockNode) (tip : IBlockNode)
    : chainM (list (IBlockNode * Block * list SpentTxOut) * list (IBlockNode * Block)) :=
  _ ← lift (check_lists detachNodes attachNodes tip);
  '(detachBlocks, view) ← check_detach detachNodes (new_view tip);
  attachBlocks ← check_attach attachNodes view;
  mret (detachBlocks, attachBlocks).

Definition reorganizeChain (detachNodes attachNodes : list IBlockNode) : chainM unit :=
  match detachNodes, attachNodes with
  | [], [] => mret tt
  | _, _ =>
      b ← get;
      match view_tip (bestChain (blocksDB b)) with
      | None => crash
      | Some tip =>
          '(detachBlocks, attachBlocks) ← check_phase detachNodes attachNodes tip;
          view ← detach_blocks detachBlocks (last detachNodes ≫= Parent) (new_view tip);
          _ ← attach_blocks attachBlocks view;
          mret tt
      end
  end.

(** * The choice of the best chain *)

Definition is_RuleError (e : go_error) : bool := match e with RuleError _ => true | _ => false end.

(** The block extends the best chain. *)
Definition extend_best (node : IBlockNode) (block : Block) (fastAdd : bool) : chainM bool :=
  b ← get;
  let fastAdd := fastAdd || KnownValid (NodeStatus node (index (blocksDB b))) in
  let view := SetBestHash (PrevHash node) (NewUtxoViewpoint isBeacon) in
  _ ← lift (CountSpentOutputs (Transactions block));
  '(view, stxos) ←
    (if fastAdd then
       view ← FetchInputUtxos_chain block view;
       lift (ConnectTransactions_block block view (Some []))
     else
     r ← on_error (checkConnectBlock node block view (Some []))
           (fun e => if is_RuleError e then _ ← SetStatus_chain node StatusValidateFailed; flushIndexState else mret tt);
     _ ← SetStatus_chain node StatusValid;
     _ ← flushIndexState;
     mret r);
  _ ← on_error (connectBlock node block view (default [] stxos))
        (fun e => _ ← (if is_RuleError e then SetStatus_chain node StatusValidateFailed else mret tt); flushIndexState);
  b ← get;
  _ ← (if fastAdd || negb (KnownValid (NodeStatus node (index (blocksDB b)))) then _ ← SetStatus_chain node StatusValid; flushIndexState else mret tt);
  mret true.

(** [connectBestChain]: whether the block is on the best chain now. *)
Definition connectBestChain (node : IBlockNode) (block : Block) (flags : Z) : chainM bool :=
  let fastAdd := has_flag flags BFFastAdd in
  b ← get;
  match view_tip (bestChain (blocksDB b)) with
  | None => crash
  | Some tip =>
      if Hash_IsEqual (PrevHash node) (GetHash tip) then extend_best node block fastAdd
      else if WorkSum node <=? WorkSum tip then
        match findFork (Some node) (bestChain (blocksDB b)) with None => crash | Some _ => mret false end
      else
      '(detachNodes, attachNodes) ← (fun b =>
         match getReorganizeNodes node (blocksDB b) with
         | Ok (d, a, s) => (Ok (d, a), set_blocksDB s b)
         | Err e => (Err e, b)
         | Panic => (Panic, b)
         end);
      _ ← finally (reorganizeChain detachNodes attachNodes) flushIndexState;
      mret true
  end.

(** * Accepting a block *)

Definition NewNode (header : BlockHeader) (prevNode : IBlockNode) (serialID : Z) : chainM IBlockNode := fun b =>
  (Ok (NewBlockNode (next_node b) (info_of header) (Some prevNode) serialID), add_header header b).

Definition AddNode_chain (node : IBlockNode) : chainM unit := fun b =>
  match AddNode node (index (blocksDB b)) (roots b) with
  | Ok (bi, r) => (Ok tt, set_roots r (set_blocksDB (with_index bi (blocksDB b)) b))
  | Err e => (Err e, b)
  | Panic => (Panic, b)
  end.

(** [newNode.SetStatus], which does not mark the node. *)
Definition SetStatus_node (node : IBlockNode) (status : Z) : chainM unit :=
  modify_index (fun bi => {| bi_index := bi_index bi; bi_dirty := bi_dirty bi; bi_mmrTree := bi_mmrTree bi;
                             bi_status := <[node_ptr (info node) := status]> (bi_status bi) |}).

Definition maybeAcceptBlock (block : Block) (prevNode : IBlockNode) (flags : Z) : chainM bool :=
  _ ← lift (as_rule "ErrInvalidJaxHeaderAux" (ValidateJaxAuxRules block (block_Height block)));
  _ ← checkBlockContext block prevNode flags;
  _ ← (fun b => match DBStoreBlock block (db b) with Ok d => (Ok tt, set_db d b) | Err e => (Err e, b) | Panic => (Panic, b) end);
  _ ← modify (fun b => set_blocksDB (with_serial (swrap 64 (lastSerialID (blocksDB b) + 1)) (blocksDB b)) b);
  b ← get;
  newNode ← NewNode (Header block) prevNode (lastSerialID (blocksDB b));
  _ ← SetStatus_node newNode StatusDataStored;
  _ ← AddNode_chain newNode;
  _ ← flush_index;
  b ← get;
  _ ← db_Update (fun tx =>
        tx ← PutMMRRoot (MMRTreeRoot (index (blocksDB b))) (GetHash newNode) tx;
        PutHashToSerialIDWithPrev (GetHash newNode) (SerialID newNode) (SerialID prevNode) tx);
  connectBestChain newNode block flags.

(** ** Orphans *)

(** One orphan: its hash is checked against the parent found, and it is accepted. *)
Definition process_orphan (orphan : orphanBlock) (flags : Z) : chainM unit :=
  _ ← modify (fun b => set_blocksDB (with_orphans (removeOrphanBlock orphan (orphan_index (blocksDB b))) (blocksDB b)) b);
  b ← get;
  prevBlock ← lift (snd (getBlockParent (ob_prevMMRRoot orphan) (blocksDB b)));
  block ← lift (from_option Ok Panic (orphan_data b !! ob_hash orphan));
  if negb (Hash_IsEqual (GetHash prevBlock) (Header_PrevBlockHash (Header block))) then fail (RuleError "ErrInvalidAncestorBlock")
  else
  _ ← maybeAcceptBlock block prevBlock flags;
  mret tt.

(** The orphans that wait for a root. *)
Definition waiting (root : bytes) (oi : orphanIndex) : list orphanBlock := default [] (mmrRootsOrphans oi !! root).

(** The two loops of [processOrphans]. *)
Fixpoint orphan_loop (fuel : nat) (roots : list bytes) (flags : Z) : chainM unit :=
  match roots with
  | [] => mret tt
  | root :: rest =>
      match fuel with
      | O => crash
      | S fuel =>
          b ← get;
          match waiting root (orphan_index (blocksDB b)) with
          | orphan :: _ => _ ← process_orphan orphan flags; orphan_loop fuel (roots ++ [ob_actualMMR orphan]) flags
          | [] => orphan_loop fuel rest flags
          end
      end
  end.

(** Every turn takes a root from the list or an orphan from the pool and puts a root on the list. *)
Definition num_waiting (oi : orphanIndex) : nat := map_fold (fun _ l n => (length l + n)%nat) O (mmrRootsOrphans oi).

Definition processOrphans (root : bytes) (flags : Z) : chainM unit :=
  b ← get; orphan_loop (2 * num_waiting (orphan_index (blocksDB b)) + 1) [root] flags.

(** ** Processing a block *)

(** [t.Sub(u)] of times in seconds: a duration, cut to the limits of an [int64]. *)
Definition time_Sub (t u : Z) : Z := Z.max (- 2 ^ 63) (Z.min (2 ^ 63 - 1) ((t - u) * time_Second)).

Definition blockExists (hash : bytes) (b : BlockChain) : outcome bool :=
  if HaveBlock hash (index (blocksDB b)) then Ok true
  else
  match block_data (db b) !! hash with
  | None => Ok false
  | Some _ => match FetchHeightByHash hash (meta (db b)) with Ok _ => Ok true | Err _ => Ok false | Panic => Panic end
  end.

(** The block is not older than the last checkpoint found, and has enough work for the time since. *)
Definition check_after_checkpoint (block : Block) (fastAdd : bool) : chainM unit :=
  checkpoint ← findPreviousCheckpoint;
  match checkpoint with
  | None => mret tt
  | Some node =>
      let blockHeader := Header block in
      if Header_Timestamp blockHeader <? Timestamp node then fail (RuleError "ErrCheckpointTimeTooOld")
      else if fastAdd then mret tt
      else
      let duration := time_Sub (Header_Timestamp blockHeader) (Timestamp node) in
      required ← lift (calcEasiestDifficulty pow_Params retarget_Opts (node_Bits node) duration);
      if CompactToBig required <? CompactToBig (Header_Bits blockHeader) then fail (RuleError "ErrDifficultyTooLow") else mret tt
  end.

(** The time and the order of the iteration over the orphans are those of [addOrphanBlock]; the
    result is whether the block is on the best chain and whether it is an orphan. *)
Definition ProcessBlock (now : Z) (order : list orphanBlock) (block : Block) (blockActualMMR : bytes) (flags : Z) : chainM (bool * bool) :=
  let blockHash := block_Hash block in
  b ← get;
  exists_ ← lift (blockExists blockHash b);
  if (exists_ : bool) then fail (RuleError "ErrDuplicateBlock")
  else if IsKnownOrphan blockHash (orphan_index (blocksDB b)) then fail (RuleError "ErrDuplicateBlock")
  else
  _ ← lift (CheckBlockSanityWF block chain_Params AdjustedTime flags);
  _ ← check_after_checkpoint block (has_flag flags BFFastAdd);
  b ← get;
  match getBlockParent (Header_PrevBlocksMMRRoot (Header block)) (blocksDB b) with
  | (false, _) =>
      oi ← lift (addOrphanBlock now order blockHash (Header_PrevBlocksMMRRoot (Header block)) blockActualMMR (orphan_index (blocksDB b)));
      _ ← modify (fun b => add_orphan_data blockHash block (set_blocksDB (with_orphans oi (blocksDB b)) b));
      mret (false, true)
  | (true, prev) =>
      prevBlock ← lift prev;
      if negb (Hash_IsEqual (GetHash prevBlock) (Header_PrevBlockHash (Header block))) then fail (RuleError "ErrInvalidAncestorBlock")
      else
      isMainChain ← maybeAcceptBlock block prevBlock flags;
      b ← get;
      let '(actualMMRRoot, found) := getMMRRootForHash blockHash (blocksDB b) in
      _ ← processOrphans (if (found : bool) then actualMMRRoot else blockActualMMR) flags;
      mret (isMainChain, false)
  end.
End chain.
