(* ===== verification/ChainFacts.v ===== *)
(** What the operations of the chain leave alone: inversion of the monad, the frames of the
    writes to the database, and the phase of a reorganization that only checks. *)

From stdpp Require Import gmap fin_maps.
From S2P Require Import Prelude Big WireEncoding WireTx Chainhash WireHeader WireMsg WireBlock Script Standard Compress Utxo UtxoSet ChainStore StoreFacts StoreUtxo StoreReorg UtxoFlow Validate Pow Mmr MmrStore MmrTree BlockNodes ChainView ChainIndex Threshold Difficulty ChainState ChainRules Chain.

(** * The monad *)

Lemma outcome_bind_ok {A B} (m : outcome A) (f : A -> outcome B) r : (x ← m; f x) = Ok r -> exists a, m = Ok a /\ f a = Ok r.
Proof. destruct m as [a| |]; cbn; [by exists a|done..]. Qed.

Lemma chain_bind_ok {A B} (m : chainM A) (f : A -> chainM B) b r b' : (x ← m; f x) b = (Ok r, b') ->
  exists a b1, m b = (Ok a, b1) /\ f a b1 = (Ok r, b').
Proof. unfold mbind, chainM_bind. destruct (m b) as [[a| |] b1]; [by exists a, b1|done..]. Qed.

Lemma chain_bind_run {A B} (m : chainM A) (f : A -> chainM B) b a b1 : m b = (Ok a, b1) -> (x ← m; f x) b = f a b1.
Proof. unfold mbind, chainM_bind. by intros ->. Qed.

Lemma chain_bind_case {A B} (m : chainM A) (f : A -> chainM B) b r b' : (x ← m; f x) b = (r, b') ->
  (exists a b1, m b = (Ok a, b1) /\ f a b1 = (r, b')) \/ (exists e, m b = (Err e, b') /\ r = Err e) \/ (m b = (Panic, b') /\ r = Panic).
Proof.
  unfold mbind, chainM_bind. destruct (m b) as [[a|e|] b1]; [intros; left; by exists a, b1|intros [= <- <-]; right; left; by exists e|].
  intros [= <- <-]. right. by right.
Qed.

(** One step of a computation that succeeds. *)
Ltac chain_inv H x b1 Hm := apply chain_bind_ok in H as (x & b1 & Hm & H).
Ltac outcome_inv H x Hm := apply outcome_bind_ok in H as (x & Hm & H).

Lemma lift_ok {A} (o : outcome A) b r b' : lift o b = (Ok r, b') -> o = Ok r /\ b' = b.
Proof. by intros [= -> ->]. Qed.

Lemma db_Update_ok f b r b' : db_Update f b = (Ok r, b') -> exists tx, f (meta (db b)) = Ok tx /\ b' = set_db (set_meta_tx tx (db b)) b.
Proof. unfold db_Update. destruct (f _) as [tx| |]; [|done..]. intros [= _ <-]. by exists tx. Qed.

(** * The ages of inputs *)

(** The same inputs, with other ages. *)
Definition aged (ins ins' : list TxIn) : Prop := Forall2 (fun t t' => exists a, t' = set_age t a) ins ins'.
Definition aged_tx (tx tx' : MsgTx) : Prop := exists ins, tx' = set_ins ins tx /\ aged (Tx_TxIn tx) ins.

Lemma aged_refl ins : aged ins ins.
Proof. induction ins as [|[o s w q a] ins IH]; constructor; [by exists a|done]. Qed.

Lemma check_ins_aged params tx h view ins : forall i missed total ins' m t,
  check_ins params tx h view i ins missed total = Ok (ins', m, t) -> aged ins ins'.
Proof.
  induction ins as [|ti ins IH]; intros i missed total ins' m t; cbn [check_ins]; [intros [= <- _ _]; constructor|].
  destruct (LookupEntry view (PreviousOutPoint ti)) as [utxo|].
  - destruct (IsSpent utxo); [done|]. destruct (_ && _); [done|]. intros E. outcome_inv E u Eu. repeat (destruct (_ <? _) in E; [done|]). destruct (_ || _); [done|].
    outcome_inv E p Ep. destruct p as [[l m'] t']. injection E as <- _ _. constructor; [by eexists|by eapply IH].
  - destruct (SwapTx tx); [|done]. intros E. outcome_inv E p Ep. destruct p as [[l m'] t']. injection E as <- _ _. constructor; [|by eapply IH].
    exists (Age ti). by destruct ti.
Qed.

Lemma check_inputs_aged tx h view params fee tx' : CheckTransactionInputs tx h view params = Ok (fee, tx') -> aged_tx tx tx'.
Proof.
  unfold CheckTransactionInputs. destruct (IsCoinBase tx); [intros [= _ <-]; exists (Tx_TxIn tx); split; [by destruct tx|apply aged_refl]|].
  intros E. outcome_inv E p Ep. destruct p as [[ins m] t]. destruct (_ && _); [done|]. injection E as _ <-. exists ins. split; [done|]. by eapply check_ins_aged.
Qed.

Section aged.
Context `{HashFunction} `{NetText} `{RandomId}.

Lemma aged_hash tx tx' : aged_tx tx tx' -> TxHash tx' = TxHash tx.
Proof.
  intros (ins & -> & Ha). unfold TxHash, MsgTx_SerializeNoWitness, MsgTx_BtcEncode. cbn [is_WitnessEncoding andb set_ins Version Tx_TxIn Tx_TxOut LockTime].
  assert (El : len ins = len (Tx_TxIn tx)) by (unfold len; by rewrite (Forall2_length _ _ _ Ha)). rewrite El.
  assert (Ew : wlist writeTxIn ins = wlist writeTxIn (Tx_TxIn tx)) by (clear El; induction Ha as [|t t' l l' [a ->] Ha IH]; [done|]; unfold wlist in *; cbn [foldr]; by rewrite IH).
  by rewrite Ew.
Qed.

Lemma aged_coinbase tx tx' : aged_tx tx tx' -> IsCoinBase tx' = IsCoinBase tx.
Proof.
  intros (ins & -> & Ha). unfold IsCoinBase, IsCoinBaseTx. cbn. destruct Ha as [|t t' l l' [a ->] Ha]; [done|]. by destruct Ha.
Qed.

Lemma aged_spend ins ins' : aged ins ins' -> forall view st, spend_ins ins' view st = spend_ins ins view st.
Proof.
  induction 1 as [|t t' l l' [a ->] Ha IH]; intros view st; [done|]. cbn. by destruct (LookupEntry view _).
Qed.

Lemma aged_swap tx tx' height ins ins' : aged ins ins' -> TxHash tx' = TxHash tx ->
  forall i outs view st, connect_swap_ins tx' height i ins' outs view st = connect_swap_ins tx height i ins outs view st.
Proof.
  intros Ha Eh. induction Ha as [|t t' l l' [a ->] Ha IH]; intros i outs view st; [done|]. cbn. destruct (LookupEntry view _); [|done]. destruct outs; [done|]. by rewrite Eh.
Qed.

Lemma aged_connect tx tx' height view st : aged_tx tx tx' -> ConnectTransaction tx' height view st = ConnectTransaction tx height view st.
Proof.
  intros Ha. pose proof (aged_hash _ _ Ha) as Eh. pose proof (aged_coinbase _ _ Ha) as Ec. destruct Ha as (ins & -> & Ha).
  pose proof (Forall2_length _ _ _ Ha) as El.
  unfold ConnectTransaction, AddTxOuts, connectSwapTransaction, connectEADTransaction, ValidateSwapTxStructure, len, SwapTx in *. rewrite Ec, Eh. cbn [set_ins Version Tx_TxIn Tx_TxOut LockTime] in *.
  rewrite <-El, (aged_swap tx _ height (Tx_TxIn tx) ins) by done. destruct (IsCoinBase tx); [done|]. destruct (Version tx =? TxVerCrossShardSwap); [done|].
  destruct (if Version tx =? TxVerEADAction then _ else _) as [v| |]; cbn; [|done..]. by rewrite (aged_spend (Tx_TxIn tx)).
Qed.
End aged.

(** * Frames of the database *)

(** The buckets that a ledger is read from are the same. *)
Definition kept (names : list bytes) (tx tx' : dbTx) : Prop := forall name, name ∈ names -> meta_buckets tx' !! name = meta_buckets tx !! name.

Lemma kept_refl names tx : kept names tx tx.
Proof. by intros name Hn. Qed.
Lemma kept_trans names tx1 tx2 tx3 : kept names tx1 tx2 -> kept names tx2 tx3 -> kept names tx1 tx3.
Proof. intros H1 H2 name Hn. by rewrite H2, H1. Qed.

Lemma kept_set names name b tx : name ∉ names -> kept names tx (set_bucket name b tx).
Proof. intros Hn name' Hi. cbn. rewrite lookup_insert_ne; [done|]. by intros ->. Qed.

Lemma put_in_kept names name k v tx tx' : name ∉ names -> put_in name k v tx = Ok tx' -> kept names tx tx'.
Proof. intros Hn H. outcome_inv H b Hb. outcome_inv H b' Hb'. injection H as <-. by apply kept_set. Qed.
Lemma delete_in_kept names name k tx tx' : name ∉ names -> delete_in name k tx = Ok tx' -> kept names tx tx'.
Proof. intros Hn H. outcome_inv H b Hb. injection H as <-. by apply kept_set. Qed.

(** The set of unspent outputs and the spend journal. *)
Definition ledger_buckets : list bytes := [UtxoSetBucketName; SpendJournalBucketName].

Section frames.
Context `{HashFunction} `{NetText} `{RandomId} `{ChainConfig}.

Lemma best_kept names s w tx tx' : PutBestState_chain s w tx = Ok tx' -> kept names tx tx'.
Proof. intros H3. outcome_inv H3 m Hm. injection H3 as <-. by intros ??. Qed.

Lemma put_index_kept h z tx tx' : PutBlockIndex h z tx = Ok tx' -> kept ledger_buckets tx tx'.
Proof. intros H3. outcome_inv H3 t Ht. eapply kept_trans; (eapply put_in_kept; [|done]; vm_compute; set_solver). Qed.

Lemma remove_index_kept h z tx tx' : RemoveBlockIndex h z tx = Ok tx' -> kept ledger_buckets tx tx'.
Proof. intros H3. outcome_inv H3 t Ht. eapply kept_trans; (eapply delete_in_kept; [|done]; vm_compute; set_solver). Qed.

Lemma ead_kept l tx tx' : PutEADAddresses l tx = Ok tx' -> kept ledger_buckets tx tx'.
Proof. intros H3. outcome_inv H3 b Hb. outcome_inv H3 b' Hb'. injection H3 as <-. apply kept_set. vm_compute; set_solver. Qed.

Lemma serial_kept h s p tx tx' : PutHashToSerialIDWithPrev h s p tx = Ok tx' -> kept ledger_buckets tx tx'.
Proof. intros H3. outcome_inv H3 t Ht. eapply kept_trans; (eapply put_in_kept; [|done]; vm_compute; set_solver). Qed.
End frames.

(** * Checking a reorganization *)

(** Only statuses of blocks and the caches of the rules have changed. *)
Definition status_only (b b' : BlockChain) : Prop := exists bi rs, b' = set_rule_state rs (set_blocksDB (with_index bi (blocksDB b)) b) /\
  bi_index bi = bi_index (index (blocksDB b)) /\ bi_mmrTree bi = bi_mmrTree (index (blocksDB b)).

Lemma status_only_refl b : status_only b b.
Proof. exists (index (blocksDB b)), (rule_state b). split; [|done]. by destruct b as [[]]. Qed.

Lemma status_only_trans b1 b2 b3 : status_only b1 b2 -> status_only b2 b3 -> status_only b1 b3.
Proof. intros (x & r & -> & H1 & H2) (y & t & -> & H3 & H4). exists y, t. cbn in *. by rewrite H3, H4. Qed.

Abbreviation status_of n b := (NodeStatus n (index (blocksDB b))).
Definition ptr (n : IBlockNode) : Z := node_ptr (info n).

Lemma KnownInvalid_lor s flags : KnownInvalid (Z.lor s flags) = KnownInvalid s || KnownInvalid flags.
Proof.
  unfold KnownInvalid. set (k := Z.lor StatusValidateFailed StatusInvalidAncestor). assert (E : forall z, Z.land z k =? 0 = negb (Z.testbit z 2) && negb (Z.testbit z 3)).
  { intros z. apply eq_true_iff_eq. rewrite Z.eqb_eq, andb_true_iff, !negb_true_iff. split.
    - intros Hz. pose proof (f_equal (fun y => Z.testbit y 2) Hz) as H2. pose proof (f_equal (fun y => Z.testbit y 3) Hz) as H3.
      cbn beta in H2, H3. rewrite Z.land_spec in H2, H3. change (Z.testbit k 2) with true in H2. change (Z.testbit k 3) with true in H3. by rewrite andb_true_r in H2, H3.
    - intros [H2 H3]. apply Z.bits_inj'. intros i Hi. rewrite Z.land_spec, Z.bits_0. destruct (decide (i = 2)) as [->|]; [by rewrite H2|].
      destruct (decide (i = 3)) as [->|]; [by rewrite H3|]. change k with 12. assert (Z.testbit 12 i = false) as ->; [|apply andb_false_r].
      destruct (decide (i = 0)) as [->|]; [done|]. destruct (decide (i = 1)) as [->|]; [done|]. apply Z.bits_above_log2; [lia|]. change (Z.log2 12) with 3. lia. }
  rewrite !E, !Z.lor_spec. by destruct (Z.testbit s 2), (Z.testbit s 3), (Z.testbit flags 2), (Z.testbit flags 3).
Qed.

Lemma set_flags_of n flags bi m : NodeStatus m (SetStatusFlags n flags bi) = if decide (ptr m = ptr n) then Z.lor (NodeStatus n bi) flags else NodeStatus m bi.
Proof.
  unfold SetStatusFlags, set_status, NodeStatus at 1, ptr. cbn [bi_status]. case_decide as E; [by rewrite E, lookup_insert_eq|by rewrite lookup_insert_ne].
Qed.

Lemma same_status n m bi : ptr m = ptr n -> NodeStatus m bi = NodeStatus n bi.
Proof. unfold NodeStatus, ptr. by intros ->. Qed.

(** Every run of a computation relates the states. *)
Definition keeps {A} (R : BlockChain -> BlockChain -> Prop) (m : chainM A) : Prop := forall b, R b (snd (m b)).

Lemma chain_keeps_bind {A B} (R : BlockChain -> BlockChain -> Prop) `{!Transitive R} (m : chainM A) (f : A -> chainM B) :
  keeps R m -> (forall a, keeps R (f a)) -> keeps R (x ← m; f x).
Proof.
  intros Hm Hf b. unfold mbind, chainM_bind. specialize (Hm b). destruct (m b) as [[a|e|] b1]; [|done..]. cbn in *. transitivity b1; [done|apply Hf].
Qed.
Lemma keeps_lift {A} (R : BlockChain -> BlockChain -> Prop) `{!Reflexive R} (o : outcome A) : keeps R (lift o).
Proof. by intros b. Qed.

(** Only the caches of the rules have changed. *)
Definition rules_only (b b' : BlockChain) : Prop := exists rs, b' = set_rule_state rs b.
#[export] Instance rules_only_refl : Reflexive rules_only.
Proof. intros b. exists (rule_state b). by destruct b. Qed.
#[export] Instance rules_only_trans : Transitive rules_only.
Proof. intros b1 b2 b3 [r ->] [t ->]. by exists t. Qed.

Create HintDb chain discriminated.
#[export] Hint Resolve keeps_lift : chain.

(** Walks through a computation. *)
Ltac keeps_step :=
  match goal with
  | |- keeps _ (mbind _ _) => apply chain_keeps_bind; [apply _| |intros ?]
  | |- keeps _ (match ?x with _ => _ end) => destruct x
  | |- keeps _ (let _ := _ in _) => cbv zeta
  | |- keeps _ (mret _) => by intros ?
  | |- keeps _ get => by intros ?
  | |- keeps _ (fail _) => by intros ?
  | |- keeps _ crash => by intros ?
  | |- keeps _ (lift _) => by intros ?
  | _ => solve [auto with chain]
  end.
Ltac keeps_solve := repeat (cbv beta zeta; keeps_step).

Section phase.
Context `{HashFunction} `{NetText} `{RandomId} `{ChainConfig} `{BlockGenerator} `{VoteRules} `{ScriptRules} `{TimeSource} `{IndexManager}.

Lemma rules_modify f : keeps rules_only (modify_rules f).
Proof. intros b. by eexists. Qed.
Lemma rules_deployment n id : keeps rules_only (deploymentState_chain n id).
Proof. intros b. unfold deploymentState_chain. destruct (deploymentState _ _ _ _ _ _ _) as [c r]. by eexists. Qed.
Lemma rules_fetch block view : keeps rules_only (FetchInputUtxos_chain block view).
Proof. intros b. by apply rules_only_refl. Qed.
#[local] Hint Resolve rules_modify rules_deployment rules_fetch : chain.

Lemma checkConnectBlock_rules node block view stxos : keeps rules_only (checkConnectBlock node block view stxos).
Proof. unfold checkConnectBlock. keeps_solve. Qed.

(** Valid blocks stay valid. *)
Definition valid_kept (b b' : BlockChain) : Prop := forall m, KnownValid (status_of m b) = true -> KnownValid (status_of m b') = true.

Lemma KnownValid_lor s flags : KnownValid s = true -> KnownValid (Z.lor s flags) = true.
Proof.
  unfold KnownValid. rewrite !negb_true_iff, !Z.eqb_neq. intros Hs Hz. apply Hs. apply Z.bits_inj'. intros i Hi. apply (f_equal (fun y => Z.testbit y i)) in Hz. cbn beta in Hz.
  rewrite Z.land_spec, Z.lor_spec, Z.bits_0 in Hz. rewrite Z.land_spec, Z.bits_0. by destruct (Z.testbit s i), (Z.testbit flags i), (Z.testbit StatusValid i).
Qed.

Lemma valid_kept_refl b : valid_kept b b.
Proof. by intros m. Qed.

Lemma set_status_run n flags b : exists b', SetStatus_chain n flags b = (Ok tt, b') /\ status_only b b' /\ valid_kept b b' /\
  forall m, status_of m b' = if decide (ptr m = ptr n) then Z.lor (status_of n b) flags else status_of m b.
Proof.
  eexists. split; [done|]. split; [exists (SetStatusFlags n flags (index (blocksDB b))), (rule_state b); by destruct b|]. split; [|intros m; apply set_flags_of].
  intros m Hm. cbn. rewrite set_flags_of. case_decide as E; [|done]. apply KnownValid_lor. by rewrite (same_status n m) in Hm.
Qed.

(** The blocks after a failing one. *)
Lemma mark_rest rest : forall b, exists b', foldr (fun dn m => _ ← SetStatus_chain dn StatusInvalidAncestor; m) (mret tt) rest b = (Ok tt, b') /\
  status_only b b' /\ valid_kept b b' /\ forall m, KnownInvalid (status_of m b') = KnownInvalid (status_of m b) || bool_decide (ptr m ∈ map ptr rest).
Proof.
  induction rest as [|n rest IH]; intros b; cbn [foldr map].
  - exists b. split_and!; [done|apply status_only_refl|apply valid_kept_refl|]. intros m. rewrite bool_decide_eq_false_2; [by rewrite orb_false_r|apply not_elem_of_nil].
  - destruct (set_status_run n StatusInvalidAncestor b) as (b1 & E1 & S1 & V1 & H1s). destruct (IH b1) as (b2 & E2 & S2 & V2 & H2s). exists b2.
    rewrite (chain_bind_run _ _ _ _ _ E1). split_and!; [done|by eapply status_only_trans|by intros m Hm; apply V2, V1|]. intros m. rewrite H2s, H1s.
    destruct (decide (ptr m = ptr n)) as [Ep|Ep].
    + rewrite KnownInvalid_lor. change (KnownInvalid StatusInvalidAncestor) with true. rewrite orb_true_r. cbn [orb].
      rewrite bool_decide_eq_true_2 by (rewrite Ep; left). by rewrite orb_true_r.
    + f_equal. apply bool_decide_ext. rewrite elem_of_cons. tauto.
Qed.

Lemma mark_failed_run n rest e b : is_RuleError e = true -> exists b', mark_failed n rest e b = (Ok tt, b') /\ status_only b b' /\ valid_kept b b' /\
  forall m, KnownInvalid (status_of m b') = KnownInvalid (status_of m b) || bool_decide (ptr m ∈ map ptr (n :: rest)).
Proof.
  intros He. destruct e; try done. unfold mark_failed. destruct (set_status_run n StatusValidateFailed b) as (b1 & E1 & S1 & V1 & H1s).
  destruct (mark_rest rest b1) as (b2 & E2 & S2 & V2 & H2s). exists b2. rewrite (chain_bind_run _ _ _ _ _ E1). split_and!; [done|by eapply status_only_trans|by intros m Hm; apply V2, V1|].
  intros m. rewrite H2s, H1s. cbn [map]. destruct (decide (ptr m = ptr n)) as [Ep|Ep].
  - rewrite KnownInvalid_lor. change (KnownInvalid StatusValidateFailed) with true. rewrite orb_true_r. cbn [orb].
    rewrite bool_decide_eq_true_2 by (rewrite Ep; left). by rewrite orb_true_r.
  - f_equal. apply bool_decide_ext. rewrite elem_of_cons. tauto.
Qed.

Lemma check_detach_state nodes : forall view b, snd (check_detach nodes view b) = b.
Proof.
  induction nodes as [|n nodes IH]; intros view b; [done|]. cbn [check_detach]. unfold mbind, chainM_bind, db_View, FetchInputUtxos_chain, DisconnectTransactions_chain.
  destruct (FetchBlockByNode _ _) as [block| |]; [|done..]. destruct (negb _); [done|]. destruct (FetchInputUtxos _ _ _ _ _) as [v| |]; [|done..].
  destruct (FetchSpendJournalEntry _ _ _) as [st| |]; [|done..]. destruct (DisconnectTransactions _ _ _ _ _ _) as [[v' st']| |]; [|done..].
  specialize (IH v' b). destruct (check_detach nodes v' b) as [[[l w]| |] b']; cbn in *; by subst.
Qed.

(** What a failed check marks: nothing, or a block that breaks a rule in its context and all of those after it. *)
Definition marks (nodes : list IBlockNode) (e : go_error) (after : list IBlockNode) : Prop :=
  exists before, nodes = before ++ after /\ (after = [] \/
    exists n rest block view b1, after = n :: rest /\ fst (checkConnectBlock n block view None b1) = Err e /\ is_RuleError e = true).

Definition invalid_after (b b' : BlockChain) (ns : list IBlockNode) : Prop :=
  forall m, KnownInvalid (status_of m b') = KnownInvalid (status_of m b) || bool_decide (ptr m ∈ map ptr ns).

Lemma invalid_after_refl b : invalid_after b b [].
Proof. intros m. rewrite bool_decide_eq_false_2; [by rewrite orb_false_r|apply not_elem_of_nil]. Qed.

Lemma invalid_after_step b b1 b2 ns : (forall m, KnownInvalid (status_of m b1) = KnownInvalid (status_of m b)) -> invalid_after b1 b2 ns -> invalid_after b b2 ns.
Proof. intros Hi Ha m. by rewrite Ha, Hi. Qed.

Lemma set_valid_run n b : exists b', SetStatus_chain n StatusValid b = (Ok tt, b') /\ status_only b b' /\
  KnownValid (status_of n b') = true /\ valid_kept b b' /\
  (forall m, KnownInvalid (status_of m b') = KnownInvalid (status_of m b)).
Proof.
  destruct (set_status_run n StatusValid b) as (b1 & E1 & S1 & V1 & H1s). exists b1.
  assert (Hv : forall s, KnownValid (Z.lor s StatusValid) = true).
  { intros s. unfold KnownValid. apply negb_true_iff, Z.eqb_neq. intros Hz. pose proof (f_equal (fun y => Z.testbit y 1) Hz) as Hb. cbn beta in Hb.
    rewrite Z.land_spec, Z.lor_spec in Hb. change (Z.testbit StatusValid 1) with true in Hb. by rewrite orb_true_r in Hb. }
  split_and!; [done..| |done|].
  - by rewrite H1s, decide_True.
  - intros m. rewrite H1s. case_decide as E; [|done]. rewrite KnownInvalid_lor, (same_status n m) by done. apply orb_false_r.
Qed.

(** The statuses that the check of the new branch leaves. *)
Definition attach_checked (nodes : list IBlockNode) (b : BlockChain) (r : outcome (list (IBlockNode * Block))) (b' : BlockChain) : Prop :=
  status_only b b' /\ valid_kept b b' /\
  match r with
  | Ok l => map fst l = nodes /\ invalid_after b b' [] /\ Forall (fun n => KnownValid (status_of n b') = true) nodes
  | Err e => exists after, marks nodes e after /\ invalid_after b b' after
  | Panic => True
  end.

Lemma attach_checked_err nodes b e : attach_checked nodes b (Err e) b.
Proof. split_and!; [apply status_only_refl|apply valid_kept_refl|]. exists []. split; [|apply invalid_after_refl]. exists nodes. rewrite app_nil_r. split; [done|by left]. Qed.

Lemma attach_checked_panic nodes b : attach_checked nodes b Panic b.
Proof. split_and!; [apply status_only_refl|apply valid_kept_refl|done]. Qed.

Lemma attach_checked_cons n block nodes b b1 r b' : status_only b b1 -> KnownValid (status_of n b1) = true ->
  valid_kept b b1 ->
  (forall m, KnownInvalid (status_of m b1) = KnownInvalid (status_of m b)) ->
  attach_checked nodes b1 r b' -> attach_checked (n :: nodes) b (rest ← r; Ok ((n, block) :: rest)) b'.
Proof.
  intros Hs Hn Hm Hi (S2 & M2 & R). split_and!; [by eapply status_only_trans|by intros m Hv; apply M2, Hm|]. destruct r as [l|e|]; cbn [mbind outcome_bind]; [| |done].
  - destruct R as (<- & Ha & Hf). split_and!; [done|by eapply invalid_after_step|]. constructor; [by apply M2|done].
  - destruct R as (after & (before & -> & Hr) & Ha). exists after. split; [exists (n :: before); by split|by eapply invalid_after_step].
Qed.

Lemma rules_status b b' : rules_only b b' -> status_only b b' /\ valid_kept b b' /\ forall m, KnownInvalid (status_of m b') = KnownInvalid (status_of m b).
Proof.
  intros [rs ->]. split_and!; [|by intros m|done]. exists (index (blocksDB b)), rs. split; [|done]. by destruct b as [[]].
Qed.

Lemma check_attach_spec nodes : forall view b r b', check_attach nodes view b = (r, b') -> attach_checked nodes b r b'.
Proof.
  induction nodes as [|n nodes IH]; intros view b r b'.
  { intros [= <- <-]. split_and!; [apply status_only_refl|apply valid_kept_refl|done|apply invalid_after_refl|constructor]. }
  assert (Ht : forall v b1 block, status_only b b1 -> KnownValid (status_of n b1) = true ->
    valid_kept b b1 -> (forall m, KnownInvalid (status_of m b1) = KnownInvalid (status_of m b)) ->
    (rest ← check_attach nodes v; mret ((n, block) :: rest)) b1 = (r, b') -> attach_checked (n :: nodes) b r b').
  { intros v b1 block S V M I Er. destruct (check_attach nodes v b1) as [r1 b2] eqn:Ec.
    pose proof (attach_checked_cons n block nodes b b1 r1 b2 S V M I (IH _ _ _ _ Ec)) as Hr.
    unfold mbind, chainM_bind in Er. rewrite Ec in Er. by destruct r1; injection Er as <- <-. }
  cbn [check_attach]. intros E. apply chain_bind_case in E as [(block & b1 & E1 & E)|[(e & E1 & ->)|[E1 ->]]]; injection E1 as Ef <-;
    [|apply attach_checked_err|apply attach_checked_panic]. clear Ef.
  rewrite (chain_bind_run get _ b b b eq_refl) in E. destruct (KnownValid (status_of n b)) eqn:Ek.
  - apply chain_bind_case in E as [(v & b1 & E1 & E)|[(e & E1 & ->)|[E1 ->]]]; injection E1 as Ef <-; [|apply attach_checked_err|apply attach_checked_panic].
    apply chain_bind_case in E as [([v' st] & b1 & E1 & E)|[(e & E1 & ->)|[E1 ->]]]; injection E1 as Eg <-; [|apply attach_checked_err|apply attach_checked_panic].
    by apply (Ht v' b block); [apply status_only_refl|done|apply valid_kept_refl|..].
  - destruct (checkConnectBlock n block view None b) as [o b0] eqn:Ec. pose proof (checkConnectBlock_rules n block view None b) as Hr. rewrite Ec in Hr.
    apply rules_status in Hr as (S0 & V0 & I0). cbn [snd] in *. unfold mbind at 1, chainM_bind at 1, on_error in E. rewrite Ec in E. destruct o as [[v' st]|e|].
    + destruct (set_valid_run n b0) as (b1 & E1 & S1 & V1 & M1 & I1). rewrite (chain_bind_run _ _ _ _ _ E1) in E. apply (Ht v' b1 block); [|done| | |done].
      * by eapply status_only_trans.
      * intros m Hm. by apply M1, V0.
      * intros m. by rewrite I1, I0.
    + destruct (is_RuleError e) eqn:Er.
      * destruct (mark_failed_run n nodes e b0 Er) as (b1 & E1 & S1 & V1 & I1). rewrite (chain_bind_run _ _ _ _ _ E1) in E. injection E as <- <-.
        split_and!; [by eapply status_only_trans|by intros m Hm; apply V1, V0|]. exists (n :: nodes). split; [|intros m; by rewrite I1, I0].
        exists []. split; [done|]. right. exists n, nodes, block, view, b. by rewrite Ec.
      * assert (Em : mark_failed n nodes e b0 = (Ok tt, b0)) by by destruct e. rewrite (chain_bind_run _ _ _ _ _ Em) in E. injection E as <- <-.
        split_and!; [done..|]. exists []. split; [exists (n :: nodes); rewrite app_nil_r; split; [done|by left]|].
        intros m. rewrite I0, bool_decide_eq_false_2; [by rewrite orb_false_r|apply not_elem_of_nil].
    + injection E as <- <-. by split_and!.
Qed.

(** Whatever the check of a reorganization finds, the chain is as it was, the statuses of blocks
    apart; and a check that fails ends the reorganization. *)
Lemma check_phase_spec detach attach tip b r b' : check_phase detach attach tip b = (r, b') ->
  status_only b b' /\ valid_kept b b' /\ match r with
  | Ok (_, a) => map fst a = attach /\ invalid_after b b' [] /\ Forall (fun n => KnownValid (status_of n b') = true) attach
  | Err e => exists after, marks attach e after /\ invalid_after b b' after
  | Panic => True
  end.
Proof.
  assert (He : forall e, status_only b b /\ valid_kept b b /\ exists after, marks attach e after /\ invalid_after b b after) by apply (attach_checked_err attach b).
  assert (Hp : status_only b b /\ valid_kept b b /\ True) by apply (attach_checked_panic attach b).
  intros E. apply chain_bind_case in E as [(u & b1 & E1 & E)|[(e & E1 & ->)|[E1 ->]]]; injection E1 as _ <-; [|apply He|apply Hp].
  apply chain_bind_case in E as [([l v] & b1 & E1 & E)|[(e & E1 & ->)|[E1 ->]]]; pose proof (check_detach_state detach (new_view tip) b) as Hs;
    rewrite E1 in Hs; cbn [snd] in Hs; subst; [|apply He|apply Hp].
  apply chain_bind_case in E as [(a & b1 & E2 & E)|[(e & E2 & ->)|[E2 ->]]]; apply check_attach_spec in E2; [|exact E2..].
  injection E as <- <-. exact E2.
Qed.
End phase.
