(* ===== verification/ChainLedger.v ===== *)
(** The ledger of a chain: the database stores the set of unspent outputs that the blocks of the
    best chain give, and the outputs each of them spent, so that it can be disconnected.
    Connecting, disconnecting and reorganizing keep it. *)

From stdpp Require Import gmap fin_maps.
From S2P Require Import Prelude Big WireEncoding WireTx Chainhash WireHeader WireMsg WireBlock Script Standard Compress Utxo UtxoSet ChainStore StoreFacts StoreUtxo StoreReorg UtxoFlow Validate Pow Mmr MmrStore MmrTree BlockNodes ChainView ViewFacts ChainIndex IndexFacts Threshold Difficulty ChainState ChainRules Chain ChainFacts.

(** The optional indexes keep their own buckets. *)
Class IndexLaws `{IndexManager} := {
  index_connect_kept block prev stxos tx tx' : index_ConnectBlock block prev stxos tx = Ok tx' -> kept ledger_buckets tx tx';
  index_disconnect_kept block prev stxos tx tx' : index_DisconnectBlock block prev stxos tx = Ok tx' -> kept ledger_buckets tx tx'
}.

Section updates.
Context `{HashFunction} `{NetText} `{RandomId} `{ChainConfig} `{BlockGenerator} `{VoteRules} `{ScriptRules} `{TimeSource} `{!IndexManager} `{!IndexLaws}.

(** * What is written for a block *)

Lemma connect_update_inv node block view stxos state tx tx' : connect_update node block view stxos state tx = Ok tx' ->
  exists t1 t2 t3 t4, kept ledger_buckets tx t1 /\ PutUtxoView (map_to_list (entries view)) t1 = Ok t2 /\ kept ledger_buckets t2 t3 /\
    PutSpendJournalEntry (block_Hash block) stxos t3 = Ok t4 /\ kept ledger_buckets t4 tx'.
Proof.
  intros E. outcome_inv E t0 E0. outcome_inv E t1 E1. outcome_inv E t2 E2. outcome_inv E t3 E3. outcome_inv E t4 E4.
  exists t1, t2, t3, t4. split_and!; [|done|by eapply ead_kept|done|by eapply index_connect_kept].
  eapply kept_trans; [|by eapply put_index_kept]. destruct (PutBestState_chain _ _ tx) eqn:Eb; [injection E0 as <-; by eapply best_kept|injection E0 as <-; apply kept_refl|done].
Qed.

Lemma disconnect_update_inv node block view fork state tx tx' : disconnect_update node block view fork state tx = Ok tx' ->
  exists t1 t2 t3 t4, kept ledger_buckets tx t1 /\ PutUtxoView (map_to_list (entries view)) t1 = Ok t2 /\ kept ledger_buckets t2 t3 /\
    RemoveSpendJournalEntry (block_Hash block) t3 = Ok t4 /\ kept ledger_buckets t4 tx'.
Proof.
  intros E. outcome_inv E t0 E0. outcome_inv E t1 E1. outcome_inv E t2 E2. outcome_inv E t3 E3. outcome_inv E st Es. outcome_inv E t4 E4. outcome_inv E t5 E5.
  exists t1, t2, t3, t4. split_and!; [|done|by eapply ead_kept|done|].
  - eapply kept_trans; [by eapply best_kept|by eapply remove_index_kept].
  - eapply kept_trans; [by eapply index_disconnect_kept|]. destruct fork; [by eapply serial_kept|]. injection E as <-. apply kept_refl.
Qed.

Lemma flush_inv b r b' : flush_index b = (Ok r, b') -> kept ledger_buckets (meta (db b)) (meta (db b')) /\ bestChain (blocksDB b') = bestChain (blocksDB b) /\
  roots b' = roots b /\ stateSnapshot b' = stateSnapshot b /\ block_data (db b') = block_data (db b).
Proof.
  unfold flush_index. destruct (flushToDB _ _ _ _) as [[bi tx]| |] eqn:E; [|done..]. intros [= _ <-]. cbn. split_and!; [|done..].
  unfold flushToDB in E. destruct (bool_decide _); [injection E as _ <-; apply kept_refl|]. outcome_inv E t Et. injection E as _ <-.
  revert Et. assert (Hf : forall l o, foldl (fun db node => db ← db; StoreNode (headers b) node (status_of node b) db) o l = Ok t ->
    exists t0, o = Ok t0 /\ kept ledger_buckets t0 t).
  { induction l as [|n l IH]; intros o Eo; [by exists t; split; [|apply kept_refl]|]. cbn in Eo. apply IH in Eo as (t1 & E1 & K1).
    outcome_inv E1 t0 E0. exists t0. split; [done|]. eapply kept_trans; [|exact K1]. unfold StoreNode in E1. destruct (headers b !! _) as [h|]; [|done].
    unfold StoreBlockNode in E1. destruct (Header_Write h) as [w [e|]]; [done|]. eapply put_in_kept; [|exact E1]. vm_compute; set_solver. }
  intros Et. by apply Hf in Et as (t0 & [= <-] & K).
Qed.

Lemma warn_rules node b : rules_only b (snd (warnUnknown node b)).
Proof.
  revert b. change (keeps rules_only (warnUnknown node)). assert (Hw : forall n bit, keeps rules_only (warn_bits n bit node)).
  { induction n as [|n IH]; intros bit; cbn [warn_bits]; [by intros b|]. keeps_solve; try apply rules_modify; apply IH. }
  unfold warnUnknown, warnUnknownRuleActivations, warnUnknownVersions. keeps_solve; try apply Hw; apply rules_modify.
Qed.

(** The tip is set, the database updated and the snapshot replaced. *)
Lemma connectBlock_inv node block view stxos b r b' : connectBlock node block view stxos b = (Ok r, b') ->
  exists tx c' rts rts', kept ledger_buckets (meta (db b)) tx /\ SetTip (Some node) (bestChain (blocksDB b)) rts = Ok (c', rts') /\ bestChain (blocksDB b') = c' /\
    connect_update node block view stxos (stateSnapshot b') tx = Ok (meta (db b')) /\ block_data (db b') = block_data (db b) /\
    bs_Hash (stateSnapshot b') = GetHash node /\ bs_Height (stateSnapshot b') = Height node /\ r = Commit view.
Proof.
  intros E. unfold connectBlock in E. rewrite (chain_bind_run get _ b b b eq_refl) in E. destruct (view_tip _) as [tip|]; [|done].
  destruct (negb _); [done|]. chain_inv E n b1 E1. apply lift_ok in E1 as [_ ->]. destruct (negb _); [done|].
  chain_inv E u b1 E1. pose proof (warn_rules node b) as Hw. rewrite E1 in Hw. destruct Hw as [rs Hw]. cbn [snd] in Hw. subst b1. clear E1.
  chain_inv E u1 b1 E1. apply flush_inv in E1 as (K1 & C1 & R1 & S1 & D1). cbn [set_rule_state db blocksDB roots stateSnapshot] in *.
  chain_inv E u2 b2 E2. unfold SetTip_chain in E2. destruct (SetTip _ _ _) as [[c' rts']| |] eqn:Et; [|done..]. injection E2 as _ <-.
  rewrite (chain_bind_run get _ _ _ _ eq_refl) in E. chain_inv E st b2 E2. apply lift_ok in E2 as [E2 ->]. chain_inv E u3 b3 E3. apply db_Update_ok in E3 as (tx & E3 & ->).
  injection E as <- <-. unfold best_state in E2. outcome_inv E2 mt Em. injection E2 as <-. cbn in *. rewrite C1 in Et. exists (meta (db b1)), c', (roots b1), rts'. split_and!; done.
Qed.

Lemma disconnectBlock_inv node prev block view fork b r b' : Parent node = Some prev -> disconnectBlock node block view fork b = (Ok r, b') ->
  exists tx c' rts rts', kept ledger_buckets (meta (db b)) tx /\ SetTip (Some prev) (bestChain (blocksDB b)) rts = Ok (c', rts') /\ bestChain (blocksDB b') = c' /\
    disconnect_update node block view fork (stateSnapshot b') tx = Ok (meta (db b')) /\ block_data (db b') = block_data (db b) /\
    bs_Hash (stateSnapshot b') = GetHash prev /\ bs_Height (stateSnapshot b') = Height prev /\ r = Commit view.
Proof.
  intros Hp E. unfold disconnectBlock in E. rewrite (chain_bind_run get _ b b b eq_refl) in E. destruct (view_tip _) as [tip|]; [|done].
  destruct (negb _); [done|]. rewrite Hp in E. chain_inv E pb b1 E1. injection E1 as Ef <-.
  chain_inv E u1 b1 E1. apply flush_inv in E1 as (K1 & C1 & R1 & S1 & D1).
  chain_inv E u2 b2 E2. unfold RmBlock_index in E2. destruct (RmBlock _ _ _) as [t| |] eqn:Er; [|done..]. injection E2 as _ <-.
  chain_inv E u3 b3 E3. unfold SetTip_chain in E3. destruct (SetTip _ _ _) as [[c' rts']| |] eqn:Et; [|done..]. injection E3 as _ <-.
  rewrite (chain_bind_run get _ _ _ _ eq_refl) in E. chain_inv E st b2 E2. apply lift_ok in E2 as [E2 ->]. chain_inv E u4 b4 E4. apply db_Update_ok in E4 as (tx & E4 & ->).
  injection E as <- <-. unfold best_state in E2. outcome_inv E2 mt Em. injection E2 as <-. cbn in *. rewrite C1 in Et. exists (meta (db b1)), c', (roots b1), rts'. split_and!; done.
Qed.
End updates.

(** * The ledger *)

(** The journal of a block. *)
Lemma journal_put hash l tx tx' : Forall coin_ok l -> PutSpendJournalEntry hash l tx = Ok tx' ->
  (forall cb txs, num_stxos txs = length l -> FetchSpendJournalEntry hash (cb :: txs) tx' = Ok l) /\
  (forall h txs, h <> hash -> FetchSpendJournalEntry h txs tx' = FetchSpendJournalEntry h txs tx) /\
  forall name, name <> SpendJournalBucketName -> meta_buckets tx' !! name = meta_buckets tx !! name.
Proof.
  intros Hl E. pose proof E as E'. unfold PutSpendJournalEntry, put_in in E'. outcome_inv E' sz Es. outcome_inv E' b Eb. outcome_inv E' b' Ep. injection E' as <-.
  unfold bucket_Put in Ep. destruct (len hash =? 0) eqn:Eh; [done|]. injection Ep as <-. unfold Bucket in Eb. destruct (meta_buckets tx !! SpendJournalBucketName) as [b0|] eqn:Em; [|done].
  injection Eb as ->. destruct (journal_stored hash l tx b Eh Hl Em) as (tx1 & E1 & F1 & O1). rewrite E1 in E. injection E as ->. split_and!; [done| |done].
  intros h txs Hn. unfold FetchSpendJournalEntry, get_in, Bucket, set_bucket. cbn [meta_buckets]. rewrite lookup_insert_eq, Em. cbn [mbind outcome_bind].
  unfold bucket_Get. destruct (len h =? 0); [done|]. by rewrite lookup_insert_ne.
Qed.

Lemma journal_remove hash tx tx' : RemoveSpendJournalEntry hash tx = Ok tx' ->
  (forall h txs, h <> hash -> FetchSpendJournalEntry h txs tx' = FetchSpendJournalEntry h txs tx) /\
  forall name, name <> SpendJournalBucketName -> meta_buckets tx' !! name = meta_buckets tx !! name.
Proof.
  unfold RemoveSpendJournalEntry, delete_in. intros E. outcome_inv E b Eb. injection E as <-. unfold Bucket in Eb.
  destruct (meta_buckets tx !! SpendJournalBucketName) as [b0|] eqn:Em; [|done]. injection Eb as ->. split.
  - intros h txs Hn. unfold FetchSpendJournalEntry, get_in, Bucket, set_bucket. cbn [meta_buckets]. rewrite lookup_insert_eq, Em. cbn [mbind outcome_bind].
    unfold bucket_Get, bucket_Delete. destruct (len h =? 0); [done|]. destruct (len hash =? 0); [done|]. by rewrite lookup_delete_ne.
  - intros name Hn. cbn. by rewrite lookup_insert_ne.
Qed.

Lemma journal_kept tx tx' h txs : kept ledger_buckets tx tx' -> FetchSpendJournalEntry h txs tx' = FetchSpendJournalEntry h txs tx.
Proof. intros K. unfold FetchSpendJournalEntry, get_in, Bucket. rewrite (K SpendJournalBucketName); [done|]. unfold ledger_buckets. right. left. Qed.

Lemma stores_kept tx tx' U : kept ledger_buckets tx tx' -> stores tx U -> stores tx' U.
Proof. intros K. apply stores_other, K. left. Qed.

Section ledger.
Context `{HashFunction} `{NetText} `{RandomId} `{ChainConfig} `{BlockGenerator} `{VoteRules} `{ScriptRules} `{TimeSource} `{!IndexManager} `{!IndexLaws}.
Context (blk : IBlockNode -> Block).

Abbreviation txs_of n := (Transactions (blk n)).

(** The unspent outputs after the blocks of a branch; those of the first block are not in it. *)
Fixpoint utxo_at (n : IBlockNode) : utxo_set :=
  match n with first_node _ => ∅ | child_node _ p => apply_txs (Height n) (txs_of n) (utxo_at p) end.

(** The outputs that a block spends. *)
Definition spent_at (n : IBlockNode) : list SpentTxOut :=
  match n with first_node _ => [] | child_node _ p => all_spent (Height n) (txs_of n) (utxo_at p) end.

(** A valid block on its parent, whose transactions are new and can be stored. *)
Record fits (n p : IBlockNode) : Prop := {
  fit_hash : block_Hash (blk n) = GetHash n;
  fit_height : block_Height (blk n) = Height n;
  fit_int : is_int 32 (Height n);
  fit_txs : Forall tx_ok (txs_of n);
  fit_valid : valid_block (Height n) (txs_of n) (utxo_at p);
  fit_fresh : NoDup (map TxHash (txs_of n));
  fit_unused : unused (txs_of n) (utxo_at p)
}.

Fixpoint good (n : IBlockNode) : Prop := match n with first_node _ => True | child_node _ p => fits n p /\ good p end.

Fixpoint journal_of (n : IBlockNode) (tx : dbTx) : Prop :=
  match n with
  | first_node _ => True
  | child_node _ p => FetchSpendJournalEntry (GetHash n) (txs_of n) tx = Ok (spent_at n) /\ journal_of p tx
  end.

Record ledger (b : BlockChain) (tip : IBlockNode) : Prop := {
  lg_view : view_of tip (bestChain (blocksDB b));
  lg_utxos : stores (meta (db b)) (utxo_at tip);
  lg_journal : journal_of tip (meta (db b));
  lg_hash : bs_Hash (stateSnapshot b) = GetHash tip;
  lg_height : bs_Height (stateSnapshot b) = Height tip
}.

(** A view that stands for the set of the database. *)
Definition over (n : IBlockNode) (view : UtxoViewpoint) : Prop := coherent (utxo_at n) view /\ utxos (utxo_at n) view = utxo_at n.

Definition distinct (n : IBlockNode) : Prop := NoDup (map GetHash (path n)).

Lemma good_coins n : good n -> coins_ok (utxo_at n).
Proof.
  induction n as [i|i p IH]; cbn [good utxo_at]; [intros _; apply map_Forall_empty|]. intros [Hf Hg]. apply coins_ok_apply_txs; [apply Hf|apply Hf|by apply IH].
Qed.

Lemma over_empty n view : entries view = ∅ -> over n view.
Proof.
  intros E. split; [unfold coherent; rewrite E; apply map_Forall_empty|]. apply map_eq. intros o. by rewrite utxos_lookup, E, lookup_empty.
Qed.

Lemma over_commit p n view : coherent (utxo_at p) view -> utxos (utxo_at p) view = utxo_at n -> over n (Commit view).
Proof. intros Hc Hu. pose proof (commit_coherent (utxo_at p) view Hc) as [Hk1 Hk2]. rewrite Hu in Hk1, Hk2. by split. Qed.

Lemma journal_same n tx tx' : (forall m, m ∈ path n -> FetchSpendJournalEntry (GetHash m) (txs_of m) tx' = FetchSpendJournalEntry (GetHash m) (txs_of m) tx) ->
  journal_of n tx -> journal_of n tx'.
Proof.
  induction n as [i|i p IH]; intros Hs; cbn [journal_of]; [done|]. intros [Hf Hj]. split; [rewrite Hs; [done|apply self_in_path]|].
  apply IH; [|done]. intros m Hm. apply Hs. cbn [path]. set_solver.
Qed.

Lemma distinct_parent i p m : distinct (child_node i p) -> m ∈ path p -> GetHash m <> GetHash (child_node i p).
Proof.
  unfold distinct. cbn [path]. rewrite map_app. intros Hn Hm E. apply NoDup_app in Hn as (_ & Hn & _). apply (Hn (GetHash m)).
  - apply list_elem_of_In, in_map, list_elem_of_In, Hm.
  - rewrite E. left.
Qed.

Lemma distinct_up i p : distinct (child_node i p) -> distinct p.
Proof. unfold distinct. cbn [path]. rewrite map_app. intros Hn. by apply NoDup_app in Hn as (Hn & _). Qed.

Lemma put_view_kept U view tx tx' : stores tx U -> coherent U view -> PutUtxoView (map_to_list (entries view)) tx = Ok tx' ->
  stores tx' (utxos U view) /\ forall h txs, FetchSpendJournalEntry h txs tx' = FetchSpendJournalEntry h txs tx.
Proof.
  intros Hs Hc E. destruct (put_view U view _ tx Hs Hc (reflexivity _)) as (tx1 & E1 & S1 & O1). rewrite E1 in E. injection E as <-. split; [done|].
  intros h txs. unfold FetchSpendJournalEntry, get_in, Bucket. by rewrite O1.
Qed.

(** ** Connecting *)

Lemma fits_num n p : fits n p -> exists cb txs, txs_of n = cb :: txs /\ num_stxos txs = length (all_spent (Height n) (txs_of n) (utxo_at p)).
Proof.
  intros Hf. pose proof (fit_valid _ _ Hf) as Hv. destruct (txs_of n) as [|cb txs]; [done|]. exists cb, txs. split; [done|]. destruct Hv as (Hc & Hn & Hv).
  destruct Hv as (_ & _ & _ & Hv). cbn [all_spent]. unfold spent_coins at 1. rewrite Hc. cbn [app]. by apply num_stxos_spent.
Qed.

Lemma connect_ledger i p view b r b' : let n := child_node i p in
  ledger b p -> good n -> sized n -> one_identity p n -> distinct n -> coherent (utxo_at p) view -> utxos (utxo_at p) view = utxo_at n ->
  connectBlock n (blk n) view (spent_at n) b = (Ok r, b') ->
  ledger b' n /\ over n r /\ block_data (db b') = block_data (db b).
Proof.
  intros n Hl [Hf Hg] Hsz Hid Hd Hc Hu E. apply connectBlock_inv in E as (tx & c' & rts & rts' & K0 & Et & Ec & Eu & Ed & Eh & Ez & ->).
  apply connect_update_inv in Eu as (t1 & t2 & t3 & t4 & K1 & E2 & K3 & E4 & K5). rewrite (fit_hash n p Hf) in E4.
  pose proof (stores_kept _ _ _ (kept_trans _ _ _ _ K0 K1) (lg_utxos _ _ Hl)) as S1. destruct (put_view_kept _ _ _ _ S1 Hc E2) as [S2 J2]. rewrite Hu in S2.
  apply (stores_kept _ _ _ K3) in S2. pose proof (good_coins p Hg) as HU.
  assert (Hco : Forall coin_ok (spent_at n)).
  { pose proof (all_spent_ok (Height n) (fit_int n p Hf) (txs_of n) (utxo_at p) (fit_txs n p Hf) HU) as Ha.
    assert (Hv : valid_txs (Height n) (txs_of n) (utxo_at p)) by (pose proof (fit_valid n p Hf) as Hv; destruct (txs_of n); [done|apply Hv]).
    eapply Forall_impl; [by apply Ha|]. by intros ? [? _]. }
  apply journal_put in E4 as (F4 & G4 & O4); [|done].
  split; [|split; [by eapply over_commit|done]]. split; [| | |done|done].
  - rewrite Ec. apply (set_tip_branch (Some p) n false (bestChain (blocksDB b)) rts c' rts'); [exact (lg_view _ _ Hl)|intros t [= <-]; split; [apply Hsz|done]|done|done].
  - eapply stores_kept; [exact K5|]. eapply stores_other; [|exact S2]. by apply O4.
  - split.
    + rewrite (journal_kept _ _ _ _ K5). destruct (fits_num n p Hf) as (cb & txs & Etx & En). fold n. rewrite Etx. apply F4. by rewrite En.
    + eapply journal_same; [|exact (lg_journal _ _ Hl)]. intros m Hm. rewrite (journal_kept _ _ _ _ K5), G4 by by apply (distinct_parent i p m).
      by rewrite (journal_kept _ _ _ _ K3), J2, (journal_kept _ _ _ _ (kept_trans _ _ _ _ K0 K1)).
Qed.

(** ** Disconnecting *)

Lemma disconnect_ledger i p view fork b r b' : let n := child_node i p in
  ledger b n -> good n -> sized n -> one_identity n p -> distinct n -> coherent (utxo_at n) view -> utxos (utxo_at n) view = utxo_at p ->
  disconnectBlock n (blk n) view fork b = (Ok r, b') ->
  ledger b' p /\ over p r /\ block_data (db b') = block_data (db b).
Proof.
  intros n Hl [Hf Hg] Hsz Hid Hd Hc Hu E. apply (disconnectBlock_inv n p) in E as (tx & c' & rts & rts' & K0 & Et & Ec & Eu & Ed & Eh & Ez & ->); [|done].
  apply disconnect_update_inv in Eu as (t1 & t2 & t3 & t4 & K1 & E2 & K3 & E4 & K5). rewrite (fit_hash n p Hf) in E4.
  pose proof (stores_kept _ _ _ (kept_trans _ _ _ _ K0 K1) (lg_utxos _ _ Hl)) as S1. destruct (put_view_kept _ _ _ _ S1 Hc E2) as [S2 J2]. rewrite Hu in S2.
  apply (stores_kept _ _ _ K3) in S2. apply journal_remove in E4 as [G4 O4].
  split; [|split; [by eapply over_commit|done]]. split; [| | |done|done].
  - rewrite Ec. destruct Hsz as [[Hh Hln] Hz]. apply (set_tip_branch (Some n) p false (bestChain (blocksDB b)) rts c' rts'); [exact (lg_view _ _ Hl)|intros t [= <-]; split; [by split|done]|split; [done|unfold n in Hz; lia]|done].
  - eapply stores_kept; [exact K5|]. eapply stores_other; [|exact S2]. by apply O4.
  - eapply journal_same; [|exact (proj2 (lg_journal _ _ Hl))]. intros m Hm. rewrite (journal_kept _ _ _ _ K5), G4 by by apply (distinct_parent i p m).
    by rewrite (journal_kept _ _ _ _ K3), J2, (journal_kept _ _ _ _ (kept_trans _ _ _ _ K0 K1)).
Qed.

(** ** Lists of blocks *)

Lemma connect_loaded i p view view1 view2 st b : let n := child_node i p in
  stores (meta (db b)) (utxo_at p) -> good n -> over p view -> FetchInputUtxos_chain (blk n) view b = (Ok view1, b) ->
  connect_txs (Height n) (txs_of n) view1 (Some []) = Ok (view2, st) ->
  coherent (utxo_at p) view2 /\ utxos (utxo_at p) view2 = utxo_at n /\ st = Some (spent_at n).
Proof.
  intros n Hs [Hf Hg] [Hc Hu] E1 E2. injection E1 as E1. rewrite (fit_height n p Hf) in E1.
  apply (load_inputs (Height n) (meta (db b)) (utxo_at p)) in E1 as [Hc1 Ha]; [|done|by apply good_coins|done|apply (fit_int n p Hf)|apply (fit_txs n p Hf)]. rewrite Hu in Ha.
  split; [by eapply (connect_txs_coherent (utxo_at p) (Height n) (fit_int n p Hf)); [| |exact E2]; [|apply (fit_txs n p Hf)]|].
  apply (connect_ahead (Height n) (utxo_at p) _ _ _ _ _ (utxo_at p)) in E2; [done|apply (fit_fresh n p Hf)|apply (fit_unused n p Hf)| |done].
  pose proof (fit_valid n p Hf) as Hv. destruct (txs_of n); [done|apply Hv].
Qed.

Lemma spent_at_ok i p : good (child_node i p) -> Forall (fun c => coin_ok c /\ st_Height c <> 0) (spent_at (child_node i p)).
Proof.
  set (n := child_node i p). intros [Hf Hg]. pose proof (good_coins p Hg) as HU.
  assert (Hv : valid_txs (Height n) (txs_of n) (utxo_at p)) by (pose proof (fit_valid n p Hf) as Hv; destruct (txs_of n); [done|apply Hv]).
  unfold n, spent_at. by apply all_spent_ok; [apply (fit_int n p Hf)|apply (fit_txs n p Hf)| |].
Qed.

Lemma disconnect_loaded fetch i p view view1 b : let n := child_node i p in
  stores (meta (db b)) (utxo_at n) -> good n -> over n view -> FetchInputUtxos_chain (blk n) view b = (Ok view1, b) ->
  forall view2 l, DisconnectTransactions fetch (block_Height (blk n)) (txs_of n) (PrevHash n) (spent_at n) view1 = Ok (view2, l) ->
  coherent (utxo_at n) view2 /\ utxos (utxo_at n) view2 = utxo_at p.
Proof.
  intros n Hs Hgn [Hc Hu] E1 view2 l E2. pose proof Hgn as [Hf Hg]. injection E1 as E1. rewrite (fit_height n p Hf) in E1, E2.
  pose proof (good_coins p Hg) as HU. assert (Hv : valid_txs (Height n) (txs_of n) (utxo_at p)) by (pose proof (fit_valid n p Hf) as Hv; destruct (txs_of n); [done|apply Hv]).
  apply (load_inputs (Height n) (meta (db b)) (utxo_at n)) in E1 as [Hc1 Ha]; [|done|by apply good_coins|done|apply (fit_int n p Hf)|apply (fit_txs n p Hf)]. rewrite Hu in Ha.
  destruct (disconnect_block_off (Height n) (utxo_at n) fetch (PrevHash n) (txs_of n) (utxo_at p) view1) as (v & E3 & Ev); [apply (fit_valid n p Hf)|by apply ahead_agree in Ha|].
  assert (v = view2) as -> by (unfold spent_at, n in E2; unfold n in E3; congruence). split; [|done].
  unfold DisconnectTransactions in E2. outcome_inv E2 k Ek. destruct (negb _); [done|]. outcome_inv E2 w Ew. destruct w as [w l']. injection E2 as <- _.
  pose proof (spent_at_ok i p Hgn) as Hs1. fold n in Hs1.
  refine (disconnect_txs_coherent (utxo_at n) (Height n) fetch (spent_at n) (rev (txs_of n)) Hs1 _ _ _ _ _ Hc1 Ew). apply Forall_rev, (fit_txs n p Hf).
Qed.

Lemma good_path n m : good n -> m ∈ path n -> good m.
Proof.
  induction n as [i|i p IH]; cbn [path]; intros Hg Hm; [by apply list_elem_of_singleton in Hm as ->|].
  apply elem_of_app in Hm as [Hm|Hm]; [apply IH; [apply Hg|done]|by apply list_elem_of_singleton in Hm as ->].
Qed.

(** A branch that is followed further. *)
Record branch_ok (n : IBlockNode) : Prop := { br_good : good n; br_sized : sized n; br_distinct : distinct n; br_identified : identified (path n) }.

Lemma branch_cut tip p n rest : branch_ok tip -> path tip = path p ++ n :: rest -> branch_ok n /\ exists i, n = child_node i p.
Proof.
  intros [Hg [Hl Hz] Hd Hi] Hp. assert (Hk : path tip !! length (path p) = Some n) by (rewrite Hp; by rewrite lookup_app_r, Nat.sub_diag).
  destruct (path_heights _ _ _ Hl Hk) as (Hh & Hln & Hpn). 
  assert (Epn : path n = path p ++ [n]) by (rewrite Hpn, Hp; replace (path p ++ n :: rest) with ((path p ++ [n]) ++ rest) by (by rewrite <-app_assoc); apply take_app_length'; rewrite length_app; cbn; lia).
  assert (Hin : n ∈ path tip) by by eapply list_elem_of_lookup_2. split.
  - split; [by eapply good_path| |unfold distinct in *; rewrite Hp, map_app in Hd; rewrite Epn, map_app; cbn [map] in *|].
    + split; [done|]. pose proof (path_length _ Hl) as Hle. rewrite Hp, length_app in Hle. cbn [length] in Hle. lia.
    + replace (map GetHash (path p) ++ GetHash n :: map GetHash rest) with ((map GetHash (path p) ++ [GetHash n]) ++ map GetHash rest) in Hd by by rewrite <-app_assoc.
      by apply NoDup_app in Hd as [? _].
    + eapply identified_sub; [exact Hi|]. intros x. rewrite Epn, Hp. set_solver.
  - destruct n as [i|i q]; cbn [path] in Epn.
    + destruct (path p) as [|x l] eqn:Ex; [destruct p; cbn [path] in Ex; [done|by destruct (path p)]|]. by destruct l.
    + apply app_inj_tail in Epn as [Eq _]. assert (q = p) as -> by (pose proof (path_last q) as Hq; rewrite Eq, path_last in Hq; by injection Hq). by exists i.
Qed.

Lemma branch_parent i p : branch_ok (child_node i p) -> branch_ok p.
Proof.
  intros [[_ Hg] [[Hh Hl] Hz] Hd Hi]. split; [done|split; [done|lia]|by eapply distinct_up|]. eapply identified_sub; [exact Hi|]. intros x Hx. cbn [path]. set_solver.
Qed.

Lemma branch_one i p : branch_ok (child_node i p) -> one_identity p (child_node i p) /\ one_identity (child_node i p) p.
Proof. intros [_ _ _ Hi]. split; intros x y Hx Hy; apply Hi; cbn [path]; set_solver. Qed.

Lemma attach_ledger nodes : forall p tip view b r b', path tip = path p ++ nodes -> branch_ok tip -> ledger b p -> over p view ->
  attach_blocks (map (fun n => (n, blk n)) nodes) view b = (Ok r, b') -> ledger b' tip.
Proof.
  induction nodes as [|n nodes IH]; intros p tip view b r b' Hp Hb Hl Hv; cbn [map attach_blocks].
  - intros [= _ <-]. rewrite app_nil_r in Hp. pose proof (path_last tip) as Ht. rewrite Hp, path_last in Ht. by injection Ht as <-.
  - intros E. destruct (branch_cut _ _ _ _ Hb Hp) as [Hbn [i ->]]. pose proof (br_good _ Hbn) as Hg. pose proof Hg as [Hf _].
    chain_inv E v1 b1 E1. pose proof E1 as E1'. injection E1' as _ <-. chain_inv E vs b2 E2. destruct vs as [v2 st]. apply lift_ok in E2 as [E2 ->].
    unfold ConnectTransactions_block, ConnectTransactions in E2. rewrite (fit_height _ _ Hf) in E2. outcome_inv E2 w Ew. destruct w as [w st']. injection E2 as <- <-.
    destruct (connect_loaded i p view v1 w st' b (lg_utxos _ _ Hl) Hg Hv E1 Ew) as (Hc & Hu & ->). cbn [default] in E.
    chain_inv E v3 b3 E3. apply (connect_ledger i p) in E3 as (Hl3 & Hv3 & _); [|done|done|apply Hbn|by apply branch_one|apply Hbn|done|done].
    apply (IH (child_node i p) tip v3 b3 r b'); [|done..]. rewrite Hp. cbn [path]. by rewrite <-app_assoc.
Qed.

Lemma detach_ledger nodes fork : forall n f view b r b', path n = path f ++ rev nodes -> branch_ok n -> ledger b n -> over n view ->
  detach_blocks (map (fun n => (n, blk n, spent_at n)) nodes) fork view b = (Ok r, b') -> ledger b' f /\ over f r /\ branch_ok f.
Proof.
  induction nodes as [|m nodes IH]; intros n f view b r b' Hp Hb Hl Hv; cbn [map detach_blocks].
  - intros [= <- <-]. cbn [rev] in Hp. rewrite app_nil_r in Hp. pose proof (path_last n) as Ht. rewrite Hp, path_last in Ht. by injection Ht as <-.
  - intros E. cbn [rev] in Hp. rewrite app_assoc in Hp. assert (m = n) as -> by (pose proof (path_last n) as Ht; rewrite Hp, last_snoc in Ht; by injection Ht).
    destruct n as [i|i p]; cbn [path] in Hp.
    { destruct (path f) as [|x l] eqn:Ex; [destruct f; cbn [path] in Ex; [done|by destruct (path f)]|]. cbn in Hp. injection Hp as _ Hp. by destruct l, (rev nodes). }
    apply app_inj_tail in Hp as [Hp _]. pose proof (br_good _ Hb) as Hg.
    chain_inv E v1 b1 E1. pose proof E1 as E1'. injection E1' as _ <-. chain_inv E v2 b2 E2. unfold DisconnectTransactions_chain in E2. injection E2 as E2 <-. destruct v2 as [v2 l2].
    apply (disconnect_loaded _ i p view v1 b (lg_utxos _ _ Hl) Hg Hv E1) in E2 as [Hc Hu].
    chain_inv E v3 b3 E3. apply (disconnect_ledger i p) in E3 as (Hl3 & Hv3 & _); [|done|done|apply Hb|by apply branch_one|apply Hb|done|done].
    apply (IH p f v3 b3 r b'); [done|by eapply branch_parent|done..].
Qed.

(** ** What leaves the ledger alone *)

Definition ledger_same (b b' : BlockChain) : Prop :=
  kept ledger_buckets (meta (db b)) (meta (db b')) /\ bestChain (blocksDB b') = bestChain (blocksDB b) /\ stateSnapshot b' = stateSnapshot b /\
  block_data (db b') = block_data (db b).

#[export] Instance ledger_same_refl : Reflexive ledger_same.
Proof. intros b. split_and!; [apply kept_refl|done..]. Qed.
#[export] Instance ledger_same_trans : Transitive ledger_same.
Proof. intros b1 b2 b3 (K1 & C1 & S1 & D1) (K2 & C2 & S2 & D2). split_and!; [by eapply kept_trans|congruence..]. Qed.

Lemma ledger_frame b b' tip : ledger_same b b' -> ledger b tip -> ledger b' tip.
Proof.
  intros (K & C & S & _) [Hv Hu Hj Hh Hz]. split; [by rewrite C|by eapply stores_kept| |by rewrite S|by rewrite S].
  eapply journal_same; [|exact Hj]. intros m _. by apply journal_kept.
Qed.

Lemma same_status_only b b' : status_only b b' -> ledger_same b b'.
Proof. intros (bi & rs & -> & _). split_and!; [apply kept_refl|done..]. Qed.
Lemma same_rules b b' : rules_only b b' -> ledger_same b b'.
Proof. intros [rs ->]. split_and!; [apply kept_refl|done..]. Qed.
Lemma same_set_status n flags : keeps ledger_same (SetStatus_chain n flags).
Proof. intros b. split_and!; [apply kept_refl|done..]. Qed.
Lemma same_flush : keeps ledger_same flushIndexState.
Proof.
  intros b. unfold flushIndexState. destruct (flush_index b) as [[[]|e|] b1] eqn:E; cbn [snd].
  - apply flush_inv in E as (K & C & _ & S & D). by split_and!.
  - unfold flush_index in E. destruct (flushToDB _ _ _ _) as [[bi tx]| |]; [done|injection E as _ <-; reflexivity|done].
  - unfold flush_index in E. destruct (flushToDB _ _ _ _) as [[bi tx]| |]; [done|done|injection E as <-; reflexivity].
Qed.

Lemma keeps_run {A} (m : chainM A) b r b' : keeps ledger_same m -> m b = (r, b') -> ledger_same b b'.
Proof. intros Hk E. specialize (Hk b). by rewrite E in Hk. Qed.

(** ** Reorganizing *)

Lemma check_detach_ok nodes b : forall view l v b', (forall n, n ∈ nodes -> FetchBlockByNode n (db b) = Ok (blk n) /\
    FetchSpendJournalEntry (block_Hash (blk n)) (txs_of n) (meta (db b)) = Ok (spent_at n) /\ Forall (fun c => st_Height c <> 0) (spent_at n)) ->
  check_detach nodes view b = (Ok (l, v), b') -> l = map (fun n => (n, blk n, spent_at n)) nodes.
Proof.
  induction nodes as [|n nodes IH]; intros view l v b' Hf; cbn [check_detach map]; [by intros [= <- _ _]|]. intros E.
  destruct (Hf n ltac:(left)) as (F1 & F2 & F3). chain_inv E bk b1 E1. unfold db_View in E1. rewrite F1 in E1. injection E1 as <- <-. destruct (negb _); [done|].
  chain_inv E v1 b1 E1. injection E1 as _ <-. chain_inv E st b1 E1. unfold db_View in E1. rewrite F2 in E1. injection E1 as <- <-.
  chain_inv E v2 b1 E1. destruct v2 as [v2 l2]. injection E1 as E1 <-. apply DisconnectTransactions_slice in E1 as ->; [|done].
  chain_inv E p b1 E1. destruct p as [l' v']. injection E as <- _ _. f_equal. eapply IH; [|exact E1]. intros m Hm. apply Hf. by right.
Qed.

Lemma check_attach_ok nodes : forall view b l b', (forall n, n ∈ nodes -> FetchBlockByNode n (db b) = Ok (blk n)) ->
  check_attach nodes view b = (Ok l, b') -> l = map (fun n => (n, blk n)) nodes.
Proof.
  induction nodes as [|n nodes IH]; intros view b l b' Hf; cbn [check_attach map]; [by intros [= <- _]|]. intros E.
  chain_inv E bk b1 E1. unfold db_View in E1. rewrite (Hf n) in E1 by left. injection E1 as <- <-. rewrite (chain_bind_run get _ b b b eq_refl) in E.
  assert (Ht : forall v b1, db b1 = db b -> (rest ← check_attach nodes v; mret ((n, blk n) :: rest)) b1 = (Ok l, b') -> l = (n, blk n) :: map (fun n => (n, blk n)) nodes).
  { intros v b1 Ed Er. chain_inv Er rest b2 E2. injection Er as <- _. f_equal. eapply IH; [|exact E2]. intros m Hm. rewrite Ed. apply Hf. by right. }
  destruct (KnownValid _).
  - chain_inv E v1 b1 E1. injection E1 as _ <-. chain_inv E p b1 E1. destruct p as [v2 st]. apply lift_ok in E1 as [_ ->]. by eapply Ht.
  - chain_inv E p b1 E1. destruct p as [v2 st]. unfold on_error in E1. pose proof (checkConnectBlock_rules n (blk n) view None b) as Hr.
    destruct (checkConnectBlock n (blk n) view None b) as [[q|e|] b0]; cbn [snd] in Hr; destruct Hr as [rs ->].
    + injection E1 as -> <-. chain_inv E u b2 E2. injection E2 as _ <-. by eapply Ht; [|exact E].
    + exfalso. apply chain_bind_ok in E1 as (? & ? & _ & E1). done.
    + done.
Qed.

Definition known (b : BlockChain) (ns : list IBlockNode) : Prop := forall n, n ∈ ns -> FetchBlockByNode n (db b) = Ok (blk n).

Lemma journal_in n tx m : journal_of n tx -> m ∈ path n -> (forall i, m <> first_node i) -> FetchSpendJournalEntry (GetHash m) (txs_of m) tx = Ok (spent_at m).
Proof.
  induction n as [i|i p IH]; cbn [path journal_of]; [intros _ Hm%list_elem_of_singleton Hf; by destruct (Hf i)|].
  intros [Hj Hp] [Hm|Hm%list_elem_of_singleton]%elem_of_app Hf; [by apply IH|by subst m].
Qed.

Lemma rev_path_tail tip fork nodes n : branch_ok tip -> path tip = path fork ++ rev nodes -> n ∈ nodes -> exists i p, n = child_node i p /\ fits n p.
Proof.
  intros Hb Hp Hn. assert (Hr : n ∈ rev nodes) by (rewrite rev_alt; by apply elem_of_reverse). apply list_elem_of_split in Hr as (l1 & l2 & Hr). rewrite Hr in Hp.
  destruct l1 as [|x l1 _] using rev_ind.
  - destruct (branch_cut _ _ _ _ Hb Hp) as [Hbn [i ->]]. exists i, fork. split; [done|apply (br_good _ Hbn)].
  - assert (Hx : exists p, path p = path fork ++ l1 ++ [x]).
    { assert (Hk : path tip !! (length (path fork) + length l1)%nat = Some x).
      { rewrite Hp, lookup_app_r by lia. rewrite Nat.add_comm, Nat.add_sub, <-app_assoc, lookup_app_r, Nat.sub_diag by lia. done. }
      destruct (path_heights _ _ _ (proj1 (br_sized _ Hb)) Hk) as (_ & _ & Hpx). exists x. rewrite Hpx, Hp.
      replace (path fork ++ (l1 ++ [x]) ++ n :: l2) with ((path fork ++ l1 ++ [x]) ++ n :: l2) by by rewrite <-!app_assoc. apply take_app_length'. rewrite !length_app. cbn. lia. }
    destruct Hx as [p Hx]. rewrite <-app_assoc in Hp. assert (Hp' : path tip = path p ++ n :: l2) by (rewrite Hp, Hx, <-!app_assoc; done).
    destruct (branch_cut _ _ _ _ Hb Hp') as [Hbn [i ->]]. exists i, p. split; [done|apply (br_good _ Hbn)].
Qed.

Lemma reorganize_keeps detach attach tip fork new b r b' : branch_ok tip -> branch_ok new -> path tip = path fork ++ rev detach -> path new = path fork ++ attach ->
  known b (detach ++ attach) -> ledger b tip -> reorganizeChain detach attach b = (Ok r, b') -> ledger b' new.
Proof.
  intros Ht Hn Hp1 Hp2 Hk Hl E. assert (Ec : (detach = [] /\ attach = []) \/ (
    '(detachBlocks, attachBlocks) ← check_phase detach attach tip; view ← detach_blocks detachBlocks (last detach ≫= Parent) (new_view tip);
    _ ← attach_blocks attachBlocks view; mret tt) b = (Ok r, b')).
  { destruct detach, attach; [by left|right..]; unfold reorganizeChain in E;
      rewrite (chain_bind_run get _ b b b eq_refl), (view_tip_eq tip) in E by (apply Ht || apply Hl); exact E. }
  destruct Ec as [[-> ->]|E']; [|clear E; rename E' into E].
  { cbn [rev] in Hp1. rewrite app_nil_r in Hp1, Hp2. assert (tip = new) as <- by (apply (inj Some); rewrite <-!path_last; by rewrite Hp1, Hp2). by injection E as _ <-. }
  chain_inv E p b1 E1. destruct p as [d a]. pose proof (check_phase_spec _ _ _ _ _ _ E1) as [Hs _]. apply same_status_only in Hs.
  chain_inv E1 u b0 E0. apply lift_ok in E0 as [_ ->]. chain_inv E1 p b0 E0. destruct p as [d' v']. pose proof (check_detach_state detach (new_view tip) b) as Hst.
  rewrite E0 in Hst. cbn [snd] in Hst. subst b0. chain_inv E1 a' b0 E2. injection E1 as <- <- <-.
  apply check_detach_ok in E0 as ->.
  2:{ intros n Hi. split; [apply Hk; apply elem_of_app; by left|]. destruct (rev_path_tail tip fork detach n Ht Hp1 Hi) as (i & q & -> & Hf). rewrite (fit_hash _ _ Hf).
      assert (Hin : child_node i q ∈ path tip) by (rewrite Hp1, elem_of_app; right; rewrite rev_alt; by apply elem_of_reverse).
      split; [by apply (journal_in tip); [apply Hl| |]|]. apply (Forall_impl _ _ _ (spent_at_ok i q (good_path tip _ (br_good _ Ht) Hin))). by intros c [_ ?]. }
  apply check_attach_ok in E2 as ->; [|intros n Hi; apply Hk; apply elem_of_app; by right].
  pose proof (ledger_frame _ _ _ Hs Hl) as Hl1. chain_inv E v b2 E3. apply (detach_ledger detach _ tip fork) in E3 as (Hl2 & Hv2 & Hf2); [|done|done|done|by apply over_empty].
  chain_inv E v3 b3 E4. injection E as _ <-. by eapply attach_ledger.
Qed.

(** ** Choosing the best chain *)

Lemma connect_checked_txs h txs : forall view st fees txs' v' st' f', connect_checked h txs view st fees = Ok (txs', v', st', f') -> connect_txs h txs view st = Ok (v', st').
Proof.
  induction txs as [|tx txs IH]; intros view st fees txs' v' st' f'; cbn [connect_checked connect_txs]; [by intros [= _ <- <- _]|]. intros E.
  outcome_inv E p Ep. destruct p as [fee tx']. destruct (_ <? _); [done|]. apply check_inputs_aged in Ep. outcome_inv E q Eqq. destruct q as [v1 st1].
  rewrite (aged_connect tx tx') in Eqq by done. rewrite Eqq. cbn [mbind outcome_bind]. outcome_inv E q2 E2. destruct q2 as [[[l v2] st2] f2]. injection E as _ <- <- _. by eapply IH.
Qed.

(** What a check that succeeds leaves of a view is what connecting the block leaves. *)
Lemma checkConnectBlock_inv node block view st b v' st' b' : checkConnectBlock node block view st b = (Ok (v', st'), b') ->
  exists v1 v2, FetchInputUtxos_chain block view b = (Ok v1, b) /\ connect_txs (Height node) (Transactions block) v1 st = Ok (v2, st') /\ v' = SetBestHash (GetHash node) v2.
Proof.
  unfold checkConnectBlock. destruct (negb _); [done|]. intros E. chain_inv E v1 b1 E1. pose proof E1 as E1'. injection E1' as _ <-. exists v1.
  chain_inv E sg b2 E2. chain_inv E u b3 E3. chain_inv E p b4 E4. destruct p as [[[l v2] st2] f2]. apply lift_ok in E4 as [E4 ->].
  apply connect_checked_txs in E4. exists v2. chain_inv E o b5 E5. destruct (_ <? _); [done|]. chain_inv E cs b6 E6. chain_inv E l2 b7 E7. chain_inv E u2 b8 E8. by injection E as <- <- _.
Qed.

Lemma status_then_ledger n flags b u b' tip : SetStatus_chain n flags b = (Ok u, b') -> ledger b tip -> ledger b' tip.
Proof. intros E. apply ledger_frame. by eapply keeps_run; [apply same_set_status|]. Qed.
Lemma flush_then_ledger b u b' tip : flushIndexState b = (Ok u, b') -> ledger b tip -> ledger b' tip.
Proof. intros E. apply ledger_frame. by eapply keeps_run; [apply same_flush|]. Qed.

Lemma extend_keeps i tip fast b r b' : let node := child_node i tip in branch_ok node -> ledger b tip ->
  extend_best node (blk node) fast b = (Ok r, b') -> ledger b' node /\ r = true.
Proof.
  intros node Hb Hl E. pose proof (br_good _ Hb) as Hg. pose proof Hg as [Hf _]. unfold extend_best in E. rewrite (chain_bind_run get _ b b b eq_refl) in E.
  chain_inv E cnt b0 E0. apply lift_ok in E0 as [_ ->]. set (view := SetBestHash _ _) in E. set (fa := fast || _) in E.
  assert (Hw : over tip view) by by apply over_empty. chain_inv E p b1 E1. destruct p as [v st].
  assert (Hv : ledger b1 tip /\ coherent (utxo_at tip) v /\ utxos (utxo_at tip) v = utxo_at node /\ st = Some (spent_at node)).
  { destruct fa.
    - chain_inv E1 v1 b2 E2. pose proof E2 as E2'. injection E2' as _ <-. apply lift_ok in E1 as [E1 ->]. split; [done|].
      unfold ConnectTransactions_block, ConnectTransactions in E1. rewrite (fit_height node tip Hf) in E1. outcome_inv E1 q Eqq. destruct q as [v2 st2]. injection E1 as <- <-.
      by apply (connect_loaded i tip view v1 v2 st2 b (lg_utxos _ _ Hl) Hg Hw E2).
    - chain_inv E1 r1 b2 E2. unfold on_error in E2. destruct (checkConnectBlock node (blk node) view (Some []) b) as [[q|e|] b3] eqn:Ec;
        [|exfalso; by apply chain_bind_ok in E2 as (? & ? & _ & E2)|done]. injection E2 as -> ->. destruct r1 as [v1 st1].
      pose proof (same_rules b b2) as Hs. pose proof (checkConnectBlock_rules node (blk node) view (Some []) b) as Hr. rewrite Ec in Hr. specialize (Hs Hr).
      apply checkConnectBlock_inv in Ec as (w1 & w2 & F1 & F2 & ->). chain_inv E1 u1 b4 E4. chain_inv E1 u2 b5 E5. injection E1 as <- <- <-.
      split; [eapply flush_then_ledger; [exact E5|]; eapply status_then_ledger; [exact E4|]; by eapply ledger_frame|].
      by apply (connect_loaded i tip view w1 w2 st1 b (lg_utxos _ _ Hl) Hg Hw F1). }
  destruct Hv as (Hl1 & Hc & Hu & ->). chain_inv E r2 b2 E2. unfold on_error in E2. change (default [] (Some (spent_at node))) with (spent_at node) in E2.
  destruct (connectBlock node (blk node) v (spent_at node) b1) as [[q|e|] b3] eqn:Ec; [|exfalso; by apply chain_bind_ok in E2 as (? & ? & _ & E2)|done]. injection E2 as -> ->.
  apply (connect_ledger i tip) in Ec as (Hl2 & _ & _); [|done|done|apply Hb|by apply branch_one|apply Hb|done|done].
  rewrite (chain_bind_run get _ b2 b2 b2 eq_refl) in E. chain_inv E u3 b4 E4. injection E as <- <-. split; [|done]. destruct (fa || _) in E4.
  - chain_inv E4 u4 b5 E5. eapply flush_then_ledger; [exact E4|]. by eapply status_then_ledger.
  - by injection E4 as _ <-.
Qed.

Lemma common_path tip fork common detached : linked tip -> path tip = common ++ detached -> last common = Some fork -> common = path fork.
Proof.
  intros Hl Hp Hc. rewrite last_lookup in Hc. pose proof (lookup_lt_Some _ _ _ Hc) as Hlt.
  assert (Hk : path tip !! pred (length common) = Some fork) by (rewrite Hp; by apply lookup_app_l_Some).
  destruct (path_heights _ _ _ Hl Hk) as (_ & _ & ->). rewrite Hp. replace (S (pred (length common))) with (length common) by lia. by rewrite take_app_length.
Qed.

(** C1: [connectBestChain] keeps the ledger.  When the database stores the unspent outputs and the journal of the
    branch that the view shows, and a valid block is added on any branch, then after a call that succeeds
    the view, the snapshot, the set of unspent outputs and the journal are those of the branch of the
    block, when the call says that it is on the best chain, and otherwise those of the old tip; and
    the tip is only given up for a branch with more work or for a block on top of it. *)
Theorem best_chain_ledger i parent tip flags b main b' : let node := child_node i parent in
  ledger b tip -> branch_ok tip -> branch_ok node -> identified (path tip ++ path node) ->
  (forall x y, x ∈ path tip ++ path node -> y ∈ path tip ++ path node -> GetHash x = GetHash y -> x = y) ->
  PrevHash node = GetHash parent -> (exists g, g ∈ path tip /\ g ∈ path node) ->
  known b (path tip ++ path node) -> (forall n, n ∈ path node -> ~ invalid_in (index (blocksDB b)) n) ->
  connectBestChain node (blk node) flags b = (Ok main, b') ->
  if main then ledger b' node /\ (parent = tip \/ WorkSum tip < WorkSum node) else ledger b' tip.
Proof.
  intros node Hl Ht Hn Hid Hh Hp (g & Hg1 & Hg2) Hk Hv E. unfold connectBestChain in E.
  rewrite (chain_bind_run get _ b b b eq_refl), (view_tip_eq tip) in E by (apply Ht || apply Hl). unfold Hash_IsEqual in E.
  destruct (bool_decide_reflect (PrevHash node = GetHash tip)) as [Eh|_].
  { assert (parent = tip) as ->.
    { apply Hh; [|apply elem_of_app; left; apply self_in_path|congruence]. apply elem_of_app. right. unfold node. cbn [path]. apply elem_of_app. left. apply self_in_path. }
    apply extend_keeps in E as [Hl' ->]; [|done..]. split; [done|by left]. }
  destruct (Z.leb_spec (WorkSum node) (WorkSum tip)) as [Hw|Hw]; [destruct (findFork _ _); [|done]; by injection E as <- <-|].
  destruct (reorganize_nodes_spec tip node parent (blocksDB b)) as (common & detach & attach & Er & Hq1 & Hq2 & _ & Hlast); [done|apply Ht|apply Hl|apply Hn|done|done|].
  pose proof (find_fork_common tip (bestChain (blocksDB b)) node (br_sized _ Ht) (lg_view _ _ Hl) (proj1 (br_sized _ Hn))) as Hfork.
  destruct (findFork (Some node) (bestChain (blocksDB b))) as [fork|]; [|exfalso; apply (Hfork ltac:(intros x y Hx Hy; apply Hid; set_solver) g Hg1 Hg2)].
  pose proof (common_path tip fork common (rev detach) (proj1 (br_sized _ Ht)) Hq1 Hlast) as ->.
  chain_inv E da b1 E1. rewrite Er in E1. injection E1 as <- <-. assert (Eb : set_blocksDB (blocksDB b) b = b) by by destruct b. rewrite Eb in E.
  chain_inv E u b2 E2. injection E as <- <-. unfold finally in E2. destruct (reorganizeChain detach attach b) as [[q|e|] b3] eqn:Eqq;
    [|exfalso; by apply chain_bind_ok in E2 as (? & ? & _ & E2)|done].
  split; [|by right]. chain_inv E2 u2 b4 E4. injection E2 as _ <-. eapply flush_then_ledger; [exact E4|].
  eapply (reorganize_keeps detach attach tip fork node b); [done..| |done|exact Eqq].
  intros n Hi. apply Hk. rewrite Hq1, Hq2. rewrite !elem_of_app. apply elem_of_app in Hi as [Hi|Hi]; [left; right; rewrite rev_alt; by apply elem_of_reverse|by right; right].
Qed.
End ledger.
