(* ===== verification/ChainExample.v ===== *)
(** A concrete chain that is reorganized: two branches on a first block, run by the model. *)

From stdpp Require Import gmap fin_maps.
From S2P Require Import Prelude Big WireEncoding WireTx Sha256 Chainhash WireHeader WireMsg WireBlock Opcode Script Standard Compress Utxo UtxoSet ChainStore StoreFacts StoreUtxo StoreReorg UtxoFlow Validate Pow Mmr MmrStore MmrTree BlockNodes ChainView ViewFacts ChainIndex IndexFacts Threshold Difficulty ChainState ChainRules Chain ChainFacts ChainLedger.

#[local] Existing Instance sha256_instance.
#[local] Instance fork_text : NetText := {| net_ParseIP := fun _ => None; url_Parse := fun _ => true |}.
#[local] Instance fork_ids : RandomId := fun _ _ _ => 0.

Definition fork_pow : PowParams :=
  {| pp_PowLimit := 2 ^ 255 - 1; PowLimitBits := 0x207fffff; TargetTimespan := 1000 * time_Second; RetargetAdjustmentFactor := 4;
     ReduceMinDifficulty := false; MinDiffReductionTime := 0 |}.

#[local] Instance fork_config : ChainConfig :=
  {| isBeacon := true; Net := SimNet; chain_Params := {| PowLimit := 2 ^ 255 - 1; HashSorting := false; HashSortingSlotNumber := 0; ChainID := 0; CoinbaseMaturity := 1 |};
     pow_Params := fork_pow; retarget_Opts := newRetargetOpts fork_pow 2048; RuleThreshold := 75; ConfirmationWindow := 100; Deployments := []; checkpoints := [];
     AutoExpand := false; InitialExpansionRule := 1024; InitialExpansionLimit := 3 |}.
#[local] Instance fork_generator : BlockGenerator := {| ValidateJaxAuxRules := fun _ _ => Ok (); CalcBlockSubsidy := fun _ _ _ => 100 |}.
#[local] Instance fork_votes : VoteRules :=
  {| CalcMedianVoteK := fun _ => Ok 0; node_ExpansionApproved := fun _ => Ok false; ValidateVoteK := fun _ => Ok (); PackK_K1 := 0 |}.
#[local] Instance fork_scripts : ScriptRules := fun _ _ _ => Ok ().
#[local] Instance fork_time : TimeSource := 2000.
#[local] Instance fork_indexes : IndexManager := {| index_ConnectBlock := fun _ _ _ tx => Ok tx; index_DisconnectBlock := fun _ _ _ tx => Ok tx |}.
#[local] Instance fork_index_laws : IndexLaws.
Proof. split; intros ? ? ? ? ? [= <-]; apply kept_refl. Qed.

(** * Blocks *)

Definition fork_coinbase (tag : Z) : MsgTx :=
  {| Version := 1; Tx_TxIn := [{| PreviousOutPoint := {| Op_Hash := ZeroHash; Op_Index := 0xffffffff |}; SignatureScript := mkbytes [tag; 0]; Witness := None; Sequence := 0; Age := 0 |}];
     Tx_TxOut := [{| Value := 50 + tag; PkScript := mkbytes [OP_1] |}]; LockTime := 0 |}.
Definition fork_spend (o : OutPoint) (v : Z) : MsgTx :=
  {| Version := 1; Tx_TxIn := [{| PreviousOutPoint := o; SignatureScript := mkbytes [0]; Witness := None; Sequence := 0; Age := 0 |}];
     Tx_TxOut := [{| Value := v; PkScript := mkbytes [OP_1] |}]; LockTime := 0 |}.

Definition fork_aux : BTCBlockAux :=
  {| Aux_Version := 1; Aux_PrevBlock := ZeroHash; Aux_MerkleRoot := ZeroHash; Aux_Timestamp := 1600000000; Aux_Bits := 0; Aux_Nonce := 0;
     Aux_CoinbaseAux := {| Ca_Tx := fork_coinbase 9; TxMerkleProof := [] |} |}.
Definition fork_header (height : Z) (root prev : bytes) (tag : Z) : BeaconHeader :=
  {| bh_version := 1; bh_prevMMRRoot := root; bh_height := height; bh_prevBlock := prev; bh_merkleRoot := replicate 32 (byte.of_Z tag); bh_bits := 0x207fffff;
     bh_chainWeight := 2 * height; bh_shards := 0; bh_k := 0; bh_voteK := 0; bh_mergeMiningRoot := ZeroHash; bh_mergeMiningNumber := 0; bh_treeEncoding := [];
     bh_mergeMiningProof := []; bh_treeCodingLengthBits := 0; bh_btcAux := fork_aux |}.
Definition fork_block (height : Z) (root prev : bytes) (tag : Z) (txs : list MsgTx) : Block :=
  {| Header := HBeacon (fork_header height root prev tag); Transactions := fork_coinbase tag :: txs |}.

Definition root_after (n : IBlockNode) : bytes := root_of (branch_values n).
Definition node_for (ptr : Z) (block : Block) (parent : option IBlockNode) : IBlockNode := NewBlockNode ptr (info_of (Header block)) parent ptr.

Definition block_g : Block := Eval vm_compute in fork_block 0 ZeroHash ZeroHash 0 [].
Definition node_g : IBlockNode := Eval vm_compute in node_for 0 block_g None.
(** The old branch. *)
Definition block_a : Block := Eval vm_compute in fork_block 1 (root_after node_g) (GetHash node_g) 1 [].
Definition node_a : IBlockNode := Eval vm_compute in node_for 1 block_a (Some node_g).
(** The new branch, whose second block spends an output of the first one. *)
Definition block_b : Block := Eval vm_compute in fork_block 1 (root_after node_g) (GetHash node_g) 2 [].
Definition node_b : IBlockNode := Eval vm_compute in node_for 2 block_b (Some node_g).
Definition block_c : Block := Eval vm_compute in
  fork_block 2 (root_after node_b) (GetHash node_b) 3 [fork_spend {| Op_Hash := TxHash (fork_coinbase 2); Op_Index := 0 |} 50].
Definition node_c : IBlockNode := Eval vm_compute in node_for 3 block_c (Some node_b).

Definition fork_blk (n : IBlockNode) : Block :=
  let p := node_ptr (info n) in if p =? 0 then block_g else if p =? 1 then block_a else if p =? 2 then block_b else block_c.

(** * The chain before *)

Definition fork_buckets : gmap bytes bucket :=
  list_to_map (map (fun name => (name, ∅)) [BlockIndexBucketName; HashIndexBucketName; HeightIndexBucketName; MMRRootsToHashBucketName; HashToMMRRootBucketName;
    SpendJournalBucketName; UtxoSetBucketName; EADAddressesBucketNameV2; BlockHashToSerialID; SerialIDToPrevBlock]).
Definition fork_data : gmap bytes bytes :=
  list_to_map (map (fun b => (block_Hash b, wbytes (MsgBlock_Serialize b))) [block_g; block_a; block_b; block_c]).

Definition empty_chain : BlockChain :=
  let t := {| tc_tree := match NewTree with Ok t => t | _ => tc_tree (view_mmr (example_view node0)) end; RootToBlock := ∅ |} in
  {| blocksDB := {| index := {| bi_index := ∅; bi_dirty := ∅; bi_mmrTree := t; bi_status := ∅ |}; bestChain := {| view_nodes := []; view_mmr := t |};
       orphan_index := {| orphans := ∅; actualMMRToBlock := ∅; mmrRootsOrphans := ∅; oldestOrphan := None |}; lastSerialID := 0 |};
     roots := ∅; db := {| meta := {| meta_values := ∅; meta_buckets := fork_buckets |}; block_data := fork_data |};
     stateSnapshot := NewBestState node_g (root_after node_g) 0 0 weight_of_view 1 1 1600000000 0;
     rule_state := {| warningCaches := newThresholdCaches vbNumBits; deploymentCaches := newThresholdCaches DefinedDeployments;
       unknownRulesWarned := false; unknownVersionsWarned := false; checkpointNode := None; nextCheckpoint := None |};
     headers := list_to_map (map (fun n => (node_ptr (info n), Header (fork_blk n))) [node_g; node_a; node_b; node_c]);
     next_node := 4; orphan_data := ∅ |}.

Definition chain_g : BlockChain := snd ((_ ← AddNode_chain node_g; SetTip_chain (Some node_g)) empty_chain).

(** The three blocks, one after the other: the node is put into the index, and the chain is chosen. *)
Definition at_a : BlockChain := snd (AddNode_chain node_a chain_g).
Definition run_a := connectBestChain node_a (fork_blk node_a) 0 at_a.
Definition at_b : BlockChain := snd (AddNode_chain node_b (snd run_a)).
Definition run_b := connectBestChain node_b (fork_blk node_b) 0 at_b.
Definition at_c : BlockChain := snd (AddNode_chain node_c (snd run_b)).
Definition run_c := connectBestChain node_c (fork_blk node_c) 0 at_c.

Definition fork_nodes : list IBlockNode := [node_g; node_a; node_b; node_c].

(** What the checks below read of a state. *)
Definition fetched (b : BlockChain) : list (outcome Block) := map (fun n => FetchBlockByNode n (db b)) fork_nodes.
Definition all_valid (b : BlockChain) : bool := forallb (fun n => negb (KnownInvalid (status_of n b))) fork_nodes.
Definition fork_blocks : list (outcome Block) := map (fun n => Ok (fork_blk n)) fork_nodes.

Lemma fork_runs : (fst run_a, fst run_b, fst run_c) = (Ok true, Ok false, Ok true) /\
  (fetched at_a, fetched at_b, fetched at_c) = (fork_blocks, fork_blocks, fork_blocks) /\ all_valid at_a && all_valid at_b && all_valid at_c = true.
Proof. vm_compute. done. Qed.

Lemma fetched_known b ns : fetched b = fork_blocks -> (forall n, n ∈ ns -> n ∈ fork_nodes) -> known fork_blk b ns.
Proof.
  intros Hf Hi n Hn. apply Hi, list_elem_of_In in Hn. unfold fetched, fork_blocks in Hf. revert Hn Hf. generalize fork_nodes. induction l as [|m l IH]; [done|].
  cbn. intros [->|Hn] [= E1 E2]; [done|by apply IH].
Qed.

Lemma all_valid_path b n : all_valid b = true -> (forall m, m ∈ path n -> m ∈ fork_nodes) -> forall m, m ∈ path n -> ~ invalid_in (index (blocksDB b)) m.
Proof.
  unfold all_valid. rewrite forallb_forall. intros Hv Hi m Hm E. apply Hi, list_elem_of_In, Hv in Hm. unfold invalid_in in E. by rewrite E in Hm.
Qed.

(** ** The branches *)

Definition unused_check (txs : list MsgTx) (S : utxo_set) : bool := forallb (fun p => forallb (fun tx => negb (bool_decide (Op_Hash p.1 = TxHash tx))) txs) (map_to_list S).
Lemma unused_check_ok txs S : unused_check txs S = true -> unused txs S.
Proof.
  unfold unused_check. rewrite forallb_forall. intros Hc tx o Hi Ho. destruct (S !! o) as [c|] eqn:E; [|done]. exfalso.
  apply elem_of_map_to_list, list_elem_of_In, Hc in E. rewrite forallb_forall in E. apply list_elem_of_In, E in Hi. cbn in Hi. by rewrite bool_decide_true in Hi.
Qed.

Lemma fork_out_ok v : 0 <= v < 2 ^ 60 -> out_ok {| Value := v; PkScript := mkbytes [OP_1] |}.
Proof. intros Hv. split; [done|vm_compute; discriminate]. Qed.

Lemma fork_coinbase_ok tag : 0 <= tag < 100 -> tx_ok (fork_coinbase tag).
Proof.
  intros Ht. split; [apply Forall_singleton, fork_out_ok; lia|]. apply Forall_singleton. split; [vm_compute; reflexivity|unfold is_uint; cbn; lia].
Qed.

Ltac fork_unspent := apply inputs_check_ok; vm_compute; reflexivity.
Ltac fork_fresh := apply fresh_check_ok; vm_compute; reflexivity.
Ltac fork_coinbase_inputs := split; [intros Hc; discriminate|constructor].

Lemma fits_a : fits fork_blk node_a node_g.
Proof.
  split; [vm_compute; reflexivity|reflexivity|unfold is_int; cbn; lia| | |apply (bool_decide_unpack _); vm_compute; exact I|apply unused_check_ok; vm_compute; reflexivity].
  - apply Forall_singleton, (fork_coinbase_ok 1). lia.
  - split; [vm_compute; reflexivity|]. split; [constructor|]. split; [reflexivity|]. split; [fork_coinbase_inputs|]. split; [fork_fresh|exact I].
Qed.

Lemma fits_b : fits fork_blk node_b node_g.
Proof.
  split; [vm_compute; reflexivity|reflexivity|unfold is_int; cbn; lia| | |apply (bool_decide_unpack _); vm_compute; exact I|apply unused_check_ok; vm_compute; reflexivity].
  - apply Forall_singleton, (fork_coinbase_ok 2). lia.
  - split; [vm_compute; reflexivity|]. split; [constructor|]. split; [reflexivity|]. split; [fork_coinbase_inputs|]. split; [fork_fresh|exact I].
Qed.

Lemma fits_c : fits fork_blk node_c node_b.
Proof.
  split; [vm_compute; reflexivity|reflexivity|unfold is_int; cbn; lia| | |apply (bool_decide_unpack _); vm_compute; exact I|apply unused_check_ok; vm_compute; reflexivity].
  - apply Forall_cons. split; [apply (fork_coinbase_ok 3); lia|]. apply Forall_singleton. split; [apply Forall_singleton, fork_out_ok; lia|].
    apply Forall_singleton. split; [vm_compute; reflexivity|unfold is_uint; cbn; lia].
  - split; [vm_compute; reflexivity|]. split; [repeat constructor|]. split; [reflexivity|]. split; [fork_coinbase_inputs|]. split; [fork_fresh|].
    split; [reflexivity|]. split; [fork_unspent|]. split; [fork_fresh|exact I].
Qed.

Lemma identified_check ns : forallb (fun x => forallb (fun y => negb (ptr x =? ptr y) || bool_decide (x = y)) ns) ns = true -> identified ns.
Proof.
  rewrite forallb_forall. intros Hc x y Hx Hy E. apply list_elem_of_In, Hc in Hx. rewrite forallb_forall in Hx. apply list_elem_of_In, Hx in Hy.
  unfold ptr in Hy. rewrite E, Z.eqb_refl in Hy. cbn in Hy. by apply bool_decide_eq_true in Hy.
Qed.

Lemma hash_check ns : forallb (fun x => forallb (fun y => negb (bool_decide (GetHash x = GetHash y)) || bool_decide (x = y)) ns) ns = true ->
  forall x y, x ∈ ns -> y ∈ ns -> GetHash x = GetHash y -> x = y.
Proof.
  rewrite forallb_forall. intros Hc x y Hx Hy E. apply list_elem_of_In, Hc in Hx. rewrite forallb_forall in Hx. apply list_elem_of_In, Hx in Hy.
  rewrite bool_decide_eq_true_2 in Hy by done. cbn in Hy. by apply bool_decide_eq_true in Hy.
Qed.

Lemma fork_branch n : good fork_blk n -> sized n -> distinct n -> identified (path n) -> branch_ok fork_blk n.
Proof. by split. Qed.

Ltac fork_branch_tac := apply fork_branch; [|by vm_compute|apply (bool_decide_unpack _); vm_compute; exact I|apply identified_check; vm_compute; reflexivity].

Lemma branch_g : branch_ok fork_blk node_g. Proof. by fork_branch_tac. Qed.
Lemma branch_a : branch_ok fork_blk node_a. Proof. fork_branch_tac. split; [exact fits_a|exact I]. Qed.
Lemma branch_b : branch_ok fork_blk node_b. Proof. fork_branch_tac. split; [exact fits_b|exact I]. Qed.
Lemma branch_c : branch_ok fork_blk node_c. Proof. fork_branch_tac. split; [exact fits_c|]. split; [exact fits_b|exact I]. Qed.

(** ** The first block *)

Lemma ledger_g : ledger fork_blk chain_g node_g.
Proof.
  split; [vm_compute; reflexivity| |exact I|vm_compute; reflexivity|vm_compute; reflexivity].
  exists ∅. split; [vm_compute; reflexivity|]. intros o Ho. by rewrite lookup_empty.
Qed.

Lemma add_node_same n b : ledger_same b (snd (AddNode_chain n b)).
Proof. unfold AddNode_chain. destruct (AddNode _ _ _) as [[bi rt]| |]; (split_and!; [apply kept_refl|done..]). Qed.

Lemma at_a_same : ledger_same chain_g at_a.
Proof. exact (add_node_same node_a chain_g). Qed.
Lemma at_b_same : ledger_same (snd run_a) at_b.
Proof. exact (add_node_same node_b (snd run_a)). Qed.
Lemma at_c_same : ledger_same (snd run_b) at_c.
Proof. exact (add_node_same node_c (snd run_b)). Qed.

Lemma in_fork l : bool_decide (Forall (fun m => m ∈ fork_nodes) l) = true -> forall m, m ∈ l -> m ∈ fork_nodes.
Proof. rewrite bool_decide_eq_true, Forall_forall. auto. Qed.

Lemma run_a_eq r : fst run_a = r -> connectBestChain (child_node (info node_a) node_g) (fork_blk (child_node (info node_a) node_g)) 0 at_a = (r, snd run_a).
Proof. intros <-. exact (surjective_pairing run_a). Qed.
Lemma run_b_eq r : fst run_b = r -> connectBestChain (child_node (info node_b) node_g) (fork_blk (child_node (info node_b) node_g)) 0 at_b = (r, snd run_b).
Proof. intros <-. exact (surjective_pairing run_b). Qed.
Lemma run_c_eq r : fst run_c = r -> connectBestChain (child_node (info node_c) node_b) (fork_blk (child_node (info node_c) node_b)) 0 at_c = (r, snd run_c).
Proof. intros <-. exact (surjective_pairing run_c). Qed.

Lemma triple_eq {A B C} (a a' : A) (b b' : B) (c c' : C) : (a, b, c) = (a', b', c') -> a = a' /\ b = b' /\ c = c'.
Proof. by intros [= -> -> ->]. Qed.

#[local] Opaque run_a run_b run_c at_a at_b at_c chain_g.

(** The reorganization: after the last block the ledger is that of the other branch. *)
Lemma best_chain_ledger_witness : exists b', connectBestChain node_c (fork_blk node_c) 0 at_c = (Ok true, b') /\ ledger fork_blk at_c node_a /\
  ledger fork_blk b' node_c /\ (node_b = node_a \/ WorkSum node_a < WorkSum node_c).
Proof.
  destruct fork_runs as (Er & Ef & Ev). apply triple_eq in Er as (Ea & Eb & Ec), Ef as (Fa & Fb & Fc). apply andb_prop in Ev as [[Va Vb]%andb_prop Vc].
  assert (La : ledger fork_blk (snd run_a) node_a).
  { apply (best_chain_ledger fork_blk (info node_a) node_g node_g 0 at_a true (snd run_a)).
    - exact (ledger_frame fork_blk chain_g at_a node_g at_a_same ledger_g).
    - exact branch_g.
    - exact branch_a.
    - apply identified_check. vm_compute. reflexivity.
    - apply hash_check. vm_compute. reflexivity.
    - reflexivity.
    - exists node_g. split; apply (bool_decide_unpack _); vm_compute; exact I.
    - apply fetched_known; [exact Fa|]. apply in_fork. vm_compute. reflexivity.
    - apply (all_valid_path at_a node_a Va). apply in_fork. vm_compute. reflexivity.
    - exact (run_a_eq _ Ea). }
  assert (Lb : ledger fork_blk (snd run_b) node_a).
  { apply (best_chain_ledger fork_blk (info node_b) node_g node_a 0 at_b false (snd run_b)).
    - exact (ledger_frame fork_blk (snd run_a) at_b node_a at_b_same La).
    - exact branch_a.
    - exact branch_b.
    - apply identified_check. vm_compute. reflexivity.
    - apply hash_check. vm_compute. reflexivity.
    - reflexivity.
    - exists node_g. split; apply (bool_decide_unpack _); vm_compute; exact I.
    - apply fetched_known; [exact Fb|]. apply in_fork. vm_compute. reflexivity.
    - apply (all_valid_path at_b node_b Vb). apply in_fork. vm_compute. reflexivity.
    - exact (run_b_eq _ Eb). }
  assert (Lc : ledger fork_blk at_c node_a) by exact (ledger_frame fork_blk (snd run_b) at_c node_a at_c_same Lb).
  exists (snd run_c). split; [exact (run_c_eq _ Ec)|]. split; [exact Lc|].
  apply (best_chain_ledger fork_blk (info node_c) node_b node_a 0 at_c true (snd run_c)).
  - exact Lc.
  - exact branch_a.
  - exact branch_c.
  - apply identified_check. vm_compute. reflexivity.
  - apply hash_check. vm_compute. reflexivity.
  - reflexivity.
  - exists node_g. split; apply (bool_decide_unpack _); vm_compute; exact I.
  - apply fetched_known; [exact Fc|]. apply in_fork. vm_compute. reflexivity.
  - apply (all_valid_path at_c node_c Vc). apply in_fork. vm_compute. reflexivity.
  - exact (run_c_eq _ Ec).
Defined.
