(* ===== verification/ChainTheorems.v ===== *)
(** What happens when the chain refuses a block, what the rules of validate.go let through, and
    the end of the loop over the orphans. *)

From stdpp Require Import gmap fin_maps.
From S2P Require Import Prelude Big WireEncoding WireTx Sha256 Chainhash WireHeader WireMsg WireBlock Opcode Script Standard Compress Utxo UtxoSet ChainStore StoreFacts StoreUtxo StoreReorg UtxoFlow Validate Engine Pow Mmr MmrStore MmrTree BlockNodes ChainView ViewFacts ChainIndex IndexFacts Threshold Difficulty ChainState ChainRules Chain ChainFacts.

Section theorems.
Context `{HashFunction} `{NetText} `{RandomId} `{ChainConfig} `{BlockGenerator} `{VoteRules} `{ScriptRules} `{TimeSource} `{IndexManager}.

(** * A reorganization that fails its check *)

(** C4: A reorganization is checked before the chain is touched.  When the check of the blocks to detach
    and to attach fails, [reorganizeChain] returns that error and has changed nothing but the
    statuses of blocks and the caches of the rule changes: the database, the best chain, the snapshot and the orphans are as they were, no
    valid block is forgotten, and the blocks that became invalid are a block that broke a rule and
    those after it, or none. *)
Theorem reorganize_checked detach attach tip b e b' : view_tip (bestChain (blocksDB b)) = Some tip ->
  check_phase detach attach tip b = (Err e, b') ->
  reorganizeChain detach attach b = (Err e, b') /\
  status_only b b' /\ valid_kept b b' /\ exists after, marks attach e after /\ invalid_after b b' after.
Proof.
  intros Ht E. pose proof (check_phase_spec _ _ _ _ _ _ E) as (Hs & Hv & Ha). split; [|done].
  destruct detach, attach; [by cbn in E| |..]; unfold reorganizeChain; rewrite (chain_bind_run get _ b b b eq_refl), Ht;
    unfold mbind at 1, chainM_bind at 1; by rewrite E.
Qed.

(** ** A block that cannot be written *)

(** Neither the rule caches nor the flush of the index touch the view and the snapshot. *)
Lemma warnUnknown_rules node : keeps rules_only (warnUnknown node).
Proof.
  assert (Hb : forall k bit, keeps rules_only (warn_bits k bit node)).
  { induction k as [|k IH]; intros bit; cbn [warn_bits]; [by intros ?|]. keeps_solve; try apply rules_modify; apply IH. }
  unfold warnUnknown, warnUnknownRuleActivations, warnUnknownVersions. keeps_solve; try apply Hb; apply rules_modify.
Qed.

Lemma before_tip_same node b b1 b2 : warnUnknown node b = (Ok tt, b1) -> flush_index b1 = (Ok tt, b2) ->
  bestChain (blocksDB b2) = bestChain (blocksDB b) /\ stateSnapshot b2 = stateSnapshot b /\ roots b2 = roots b.
Proof.
  intros E1 E2. pose proof (warnUnknown_rules node b) as Hk. rewrite E1 in Hk. destruct Hk as [rs Hrs]. cbn [snd] in Hrs. subst b1.
  unfold flush_index in E2. destruct (flushToDB _ _ _ _) as [[bi tx]| |]; [|done..]. injection E2 as <-. done.
Qed.

(** C38: The view and the snapshot run ahead of the database.  When a block on the tip passes everything before it is
    written, the view is moved to it; if then the write fails, [connectBlock] returns the error with
    the block already the tip of the best chain, while the database is as it was after the index was
    flushed. The fields of the snapshot are those of the old tip, but the weight it points to, which
    was that of the chain up to the old tip, counts the new block. *)
Theorem write_failure_moves_tip tip i block view stxos b n b1 b2 :
  let node := child_node i tip in
  view_of tip (bestChain (blocksDB b)) -> tree_of (branch_values tip) (tc_tree (view_mmr (bestChain (blocksDB b)))) ->
  bs_ChainWeight (stateSnapshot b) = weight_of_view ->
  sized node -> one_identity tip node -> Height tip < 2 ^ 30 - 1 -> GetHash node ∉ map GetHash (path tip) ->
  PrevMMRRoot node = root_of (branch_values tip) -> PrevHash node = GetHash tip ->
  CountSpentOutputs (Transactions block) = Ok n -> len stxos = n ->
  warnUnknown node b = (Ok tt, b1) -> flush_index b1 = (Ok tt, b2) ->
  exists b3, SetTip_chain (Some node) b2 = (Ok tt, b3) /\
  forall state e,
    best_state node block (root_of (branch_values node)) (bs_TotalTxns (stateSnapshot b) + len (Transactions block)) b3 = Ok state ->
    connect_update node block view stxos state (meta (db b2)) = Err e ->
    connectBlock node block view stxos b = (Err e, b3) /\ db b3 = db b2 /\ view_of node (bestChain (blocksDB b3)) /\
    stateSnapshot b3 = stateSnapshot b /\
    snapshot_ChainWeight b = weight_of (branch_values tip) /\ snapshot_ChainWeight b3 = weight_of (branch_values tip) + PowWeight node.
Proof.
  intros node Hv Ht Hw Hsz Hid Hh Hf Hr Hp Hn Hl E1 E2. destruct (before_tip_same _ _ _ _ E1 E2) as (Hc2 & Hs2 & _).
  destruct (SetTip_child tip i (bestChain (blocksDB b2)) (roots b2)) as (c' & roots' & Es & Hv' & Ht' & _); try done; [by rewrite Hc2..|]. fold node in Es, Hv', Ht'.
  eexists. split; [unfold SetTip_chain; by rewrite Es|]. intros state e E4 E5. split_and!; [|done|done|done| |].
  - unfold connectBlock. rewrite (chain_bind_run get _ b b b eq_refl), (view_tip_eq _ _ Hv). unfold Hash_IsEqual. rewrite bool_decide_eq_true_2 by done. cbn [negb].
    rewrite Hn, (chain_bind_run (lift (Ok n)) _ b n b eq_refl). rewrite Hl, Z.eqb_refl. cbn [negb].
    rewrite (chain_bind_run _ _ _ _ _ E1), (chain_bind_run _ _ _ _ _ E2), (chain_bind_run (SetTip_chain (Some node)) _ _ _ _ ltac:(unfold SetTip_chain; by rewrite Es)).
    rewrite (chain_bind_run get _ _ _ _ eq_refl). unfold CurrentRoot. cbn [blocksDB bestChain set_roots set_blocksDB with_view stateSnapshot].
    rewrite (tree_root _ _ Ht'), Hs2, E4, (chain_bind_run (lift (Ok state)) _ _ _ _ eq_refl).
    unfold mbind at 1, chainM_bind at 1, db_Update. cbn [db set_roots set_blocksDB]. by rewrite E5.
  - unfold snapshot_ChainWeight. rewrite Hw. apply (tree_weight _ _ Ht).
  - unfold snapshot_ChainWeight. cbn [stateSnapshot set_roots set_blocksDB blocksDB with_view bestChain]. rewrite Hs2, Hw.
    unfold CurrenWeight. rewrite (tree_weight _ _ Ht'). unfold branch_values, node. cbn [path]. rewrite map_app, weight_app. cbn. lia.
Qed.

(** * What the rules let through *)

(** C39: The relative locks of the inputs are never enforced.  The lock that [checkConnectBlock] asks
    [calcSequenceLock] for is always the one without a constraint, since the call says that it is not for
    the pool, so that no transaction of a block is refused for it, whatever the sequences of its inputs. *)
Theorem sequence_locks_never_bind node txs view medianTime : 0 <= Height node -> 0 <= medianTime ->
  check_sequence_locks node txs view medianTime = Ok txs.
Proof.
  intros Hh Hm. induction txs as [|tx txs IH]; [done|]. cbn [check_sequence_locks].
  assert (Hc : calcSequenceLock node tx view false = Ok ({| Seconds := -1; Sl_BlockHeight := -1 |}, tx)) by (unfold calcSequenceLock; by rewrite andb_false_r).
  rewrite Hc. cbn [mbind outcome_bind]. assert (Hs : SequenceLockActive {| Seconds := -1; Sl_BlockHeight := -1 |} (Height node) medianTime = true).
  { unfold SequenceLockActive. cbn. by rewrite !(proj2 (Z.leb_gt _ _)) by lia. }
  rewrite Hs. cbn [negb]. rewrite andb_false_r, IH. done.
Qed.

(** C40: The rules that depend on the version of a block come and go with the flag of an expansion.  The
    versions the code gives to the blocks of a beacon chain are 1 and, for an expansion, 1 with that flag; compared as
    numbers with 2, 3 and 4, exactly the blocks of an expansion have the height checked in
    their coinbase, and strict signatures and absolute lock times enforced in their scripts. *)
Theorem version_rules_follow_expansion prev v bip16 segwit csv header : isBeacon = true -> calcNextBlockVersion prev = Ok v -> Header_Version header = v ->
  (v = 1 \/ v = 5) /\ ShouldHaveSerializedBlockHeight header = BVersion_ExpansionMade v /\
  has_flag (script_flags bip16 segwit csv v) ScriptVerifyDERSignatures = BVersion_ExpansionMade v /\
  has_flag (script_flags bip16 segwit csv v) ScriptVerifyCheckLockTimeVerify = BVersion_ExpansionMade v.
Proof.
  intros Hb E Ev. assert (Hv : v = 1 \/ v = 5).
  { unfold calcNextBlockVersion in E. rewrite Hb in E. cbn [negb] in E. destruct prev as [p|]; [|by injection E as <-; left].
    outcome_inv E allowed Ea. destruct (AutoExpand && allowed); [by injection E as <-; right|]. destruct (negb _); [by injection E as <-; left|].
    destruct (negb _); [by injection E as <-; left|]. outcome_inv E ok_ Eok_. destruct ok_; injection E as <-; [by right|by left]. }
  split; [done|]. unfold ShouldHaveSerializedBlockHeight. rewrite Ev. destruct Hv as [-> | ->]; by destruct bip16, segwit, csv.
Qed.
End theorems.
