(* ===== verification/ChainWitness.v ===== *)
(** Concrete states for the theorems of ChainTheorems: a branch with a block that spends an output that
    does not exist, an index that refuses a block, and a chain that expands by itself. *)

From stdpp Require Import gmap fin_maps.
From S2P Require Import Prelude Big WireEncoding WireTx Sha256 Chainhash WireHeader WireMsg WireBlock Opcode Script Standard Compress Utxo UtxoSet ChainStore StoreFacts StoreUtxo StoreReorg UtxoFlow Validate Engine Pow Mmr MmrStore MmrTree BlockNodes ChainView ViewFacts ChainIndex IndexFacts Threshold Difficulty ChainState ChainRules Chain ChainFacts ChainLedger ChainExample ChainTheorems.

#[local] Existing Instance sha256_instance.
#[local] Existing Instance fork_text.
#[local] Existing Instance fork_ids.
#[local] Existing Instance fork_generator.
#[local] Existing Instance fork_votes.
#[local] Existing Instance fork_scripts.
#[local] Existing Instance fork_time.

(** * A block that breaks a rule *)

Section refused.
#[local] Existing Instance fork_config.
#[local] Existing Instance fork_indexes.

Definition block_d : Block := Eval vm_compute in
  fork_block 2 (root_after node_b) (GetHash node_b) 4 [fork_spend {| Op_Hash := TxHash (fork_coinbase 7); Op_Index := 0 |} 50].
Definition node_d : IBlockNode := Eval vm_compute in node_for 4 block_d (Some node_b).

Definition with_block_d (b : BlockChain) : BlockChain :=
  let b := set_db {| meta := meta (db b); block_data := <[block_Hash block_d := wbytes (MsgBlock_Serialize block_d)]> (block_data (db b)) |} b in
  {| blocksDB := blocksDB b; roots := roots b; db := db b; stateSnapshot := stateSnapshot b; rule_state := rule_state b;
     headers := <[4 := Header block_d]> (headers b); next_node := 5; orphan_data := orphan_data b |}.

Definition at_d : BlockChain := snd (AddNode_chain node_d (with_block_d at_c)).
Definition run_d := check_phase [node_a] [node_b; node_d] node_a at_d.

Lemma run_d_result : fst run_d = Err (RuleError "ErrMissingTxOut").
Proof. vm_compute. reflexivity. Qed.
Lemma run_d_status : NodeStatus node_d (index (blocksDB (snd run_d))) = StatusValidateFailed.
Proof. vm_compute. reflexivity. Qed.
Lemma tip_d : view_tip (bestChain (blocksDB at_d)) = Some node_a.
Proof. apply (bool_decide_unpack _). vm_compute. exact I. Qed.
Lemma run_d_eq r : fst run_d = r -> check_phase [node_a] [node_b; node_d] node_a at_d = (r, snd run_d).
Proof. intros <-. unfold run_d. by destruct (check_phase _ _ _ _). Qed.

#[local] Opaque run_d at_d.

Lemma reorganize_checked_witness : exists b', check_phase [node_a] [node_b; node_d] node_a at_d = (Err (RuleError "ErrMissingTxOut"), b') /\
  NodeStatus node_d (index (blocksDB b')) = StatusValidateFailed /\
  reorganizeChain [node_a] [node_b; node_d] at_d = (Err (RuleError "ErrMissingTxOut"), b') /\ status_only at_d b'.
Proof.
  exists (snd run_d). split; [exact (run_d_eq _ run_d_result)|]. split; [exact run_d_status|].
  destruct (reorganize_checked [node_a] [node_b; node_d] node_a at_d (RuleError "ErrMissingTxOut") (snd run_d) tip_d (run_d_eq _ run_d_result)) as (Hr & Hs & _).
  split; [exact Hr|exact Hs].
Defined.
End refused.

(** * A block that cannot be written *)

Section unwritten.
#[local] Existing Instance fork_config.
#[local] Instance refusing_indexes : IndexManager := {| index_ConnectBlock := fun _ _ _ _ => Err AssertError; index_DisconnectBlock := fun _ _ _ tx => Ok tx |}.

Definition lone_chain : BlockChain := snd (AddNode_chain node_a chain_g).
Definition warned := warnUnknown node_a lone_chain.
Definition after_warn : BlockChain := snd warned.
Definition flushed := flush_index after_warn.
Definition after_flush : BlockChain := snd flushed.
Definition tip_set := SetTip_chain (Some node_a) after_flush.
Definition after_tip : BlockChain := snd tip_set.
Definition tip_state : BestState :=
  match best_state node_a block_a (CurrentRoot (tc_tree (view_mmr (bestChain (blocksDB after_tip))))) 2 after_tip with Ok s => s | _ => stateSnapshot after_tip end.
Definition empty_view : UtxoViewpoint := new_view node_g.

Lemma unwritten_runs : (fst warned, fst flushed, fst tip_set) = (Ok tt, Ok tt, Ok tt).
Proof. vm_compute. reflexivity. Qed.
Lemma unwritten_view : view_of node_g (bestChain (blocksDB lone_chain)).
Proof. unfold view_of. apply (bool_decide_unpack _). vm_compute. exact I. Qed.
Lemma ok_inj {A} (a b : A) : Ok a = Ok b -> a = b.
Proof. congruence. Qed.
Lemma first_tree x : exists t0 t, NewTree = Ok t0 /\ AppendBlock x.1 x.2 t0 = Ok t /\ tree_of [x] t.
Proof.
  destruct NewTree_empty as (t0 & E0 & H0). exists t0.
  destruct (append_tree [] x t0 H0) as (t & Et & Ht); [apply not_elem_of_nil|done|]. by exists t.
Qed.
Lemma unwritten_tree : tree_of (branch_values node_g) (tc_tree (view_mmr (bestChain (blocksDB lone_chain)))).
Proof.
  destruct (first_tree (node_value node_g)) as (t0 & t & E0 & Et & Ht).
  assert (E : Ok (tc_tree (view_mmr (bestChain (blocksDB lone_chain)))) =
    match NewTree with Ok t0 => AppendBlock (node_value node_g).1 (node_value node_g).2 t0 | r => r end) by (vm_compute; reflexivity).
  rewrite E0, Et in E. apply ok_inj in E. rewrite E. exact Ht.
Qed.
Lemma unwritten_weight : bs_ChainWeight (stateSnapshot lone_chain) = weight_of_view.
Proof. vm_compute. reflexivity. Qed.
Lemma unwritten_sized : sized node_a.
Proof. split; [|vm_compute; reflexivity]. repeat split; vm_compute; done. Qed.
Lemma unwritten_identity : one_identity node_g node_a.
Proof. apply one_identity_check. apply (bool_decide_unpack _). vm_compute. exact I. Qed.
Lemma unwritten_fresh : GetHash node_a ∉ map GetHash (path node_g).
Proof. apply (bool_decide_unpack _). vm_compute. exact I. Qed.
Lemma unwritten_root : PrevMMRRoot node_a = root_of (branch_values node_g).
Proof. vm_compute. reflexivity. Qed.
Lemma unwritten_tip_after : view_tip (bestChain (blocksDB after_tip)) = Some node_a.
Proof. apply (bool_decide_unpack _). vm_compute. exact I. Qed.
Lemma unwritten_count : CountSpentOutputs (Transactions block_a) = Ok 0.
Proof. vm_compute. reflexivity. Qed.
Lemma unwritten_state : best_state node_a block_a (root_of (branch_values node_a))
  (bs_TotalTxns (stateSnapshot lone_chain) + len (Transactions block_a)) after_tip = Ok tip_state.
Proof. vm_compute. reflexivity. Qed.
Lemma unwritten_update : connect_update node_a block_a empty_view [] tip_state (meta (db after_flush)) = Err AssertError.
Proof. vm_compute. reflexivity. Qed.
Lemma warned_eq r : fst warned = r -> warnUnknown node_a lone_chain = (r, after_warn).
Proof. intros <-. unfold after_warn, warned. by destruct (warnUnknown _ _). Qed.
Lemma flushed_eq r : fst flushed = r -> flush_index after_warn = (r, after_flush).
Proof. intros <-. unfold after_flush, flushed. by destruct (flush_index _). Qed.
Lemma tip_set_eq r : fst tip_set = r -> SetTip_chain (Some node_a) after_flush = (r, after_tip).
Proof. intros <-. unfold after_tip, tip_set. by destruct (SetTip_chain _ _). Qed.

#[local] Opaque warned flushed tip_set lone_chain after_warn after_flush after_tip tip_state.

Lemma write_failure_moves_tip_witness : exists b', connectBlock node_a block_a empty_view [] lone_chain = (Err AssertError, b') /\
  view_tip (bestChain (blocksDB b')) = Some node_a /\ db b' = db after_flush /\ stateSnapshot b' = stateSnapshot lone_chain /\
  snapshot_ChainWeight b' = snapshot_ChainWeight lone_chain + PowWeight node_a.
Proof.
  pose proof unwritten_runs as Er. apply triple_eq in Er as (E1 & E2 & E3). exists after_tip.
  destruct (write_failure_moves_tip node_g (info node_a) block_a empty_view [] lone_chain 0 after_warn after_flush unwritten_view unwritten_tree unwritten_weight
    unwritten_sized unwritten_identity ltac:(vm_compute; reflexivity) unwritten_fresh unwritten_root eq_refl unwritten_count eq_refl (warned_eq _ E1) (flushed_eq _ E2)) as (b3 & E3' & Hb).
  pose proof (f_equal snd (eq_trans (eq_sym E3') (tip_set_eq _ E3))) as Eb. cbn [snd] in Eb. subst b3.
  destruct (Hb tip_state AssertError unwritten_state unwritten_update) as (E & Hd & Hv & Hs & Hw & Hw').
  split; [exact E|]. split; [exact unwritten_tip_after|]. split; [exact Hd|]. split; [exact Hs|]. rewrite Hw, Hw'. reflexivity.
Defined.
End unwritten.

(** * Relative locks *)

Section locks.
#[local] Existing Instance fork_config.

(** The input has the relative lock of a thousand blocks, and the block after that of its output is
    accepted. *)
Definition locked_spend : MsgTx :=
  {| Version := 2; Tx_TxIn := [{| PreviousOutPoint := {| Op_Hash := TxHash (fork_coinbase 2); Op_Index := 0 |}; SignatureScript := mkbytes [0]; Witness := None; Sequence := 1000; Age := 0 |}];
     Tx_TxOut := [{| Value := 50; PkScript := mkbytes [OP_1] |}]; LockTime := 0 |}.

Lemma sequence_locks_never_bind_witness : check_sequence_locks node_c [locked_spend] empty_view 1600000000 = Ok [locked_spend].
Proof. apply sequence_locks_never_bind; [cbn; lia|lia]. Defined.
End locks.

(** * Versions *)

Section versions.
#[local] Instance expanding_config : ChainConfig :=
  {| isBeacon := true; Net := SimNet; chain_Params := {| PowLimit := 2 ^ 255 - 1; HashSorting := false; HashSortingSlotNumber := 0; ChainID := 0; CoinbaseMaturity := 1 |};
     pow_Params := fork_pow; retarget_Opts := newRetargetOpts fork_pow 2048; RuleThreshold := 75; ConfirmationWindow := 100; Deployments := []; checkpoints := [];
     AutoExpand := true; InitialExpansionRule := 1; InitialExpansionLimit := 3 |}.

Definition expansion_header : BlockHeader := HBeacon
  {| bh_version := 5; bh_prevMMRRoot := ZeroHash; bh_height := 1; bh_prevBlock := ZeroHash; bh_merkleRoot := ZeroHash; bh_bits := 0x207fffff;
     bh_chainWeight := 0; bh_shards := 0; bh_k := 0; bh_voteK := 0; bh_mergeMiningRoot := ZeroHash; bh_mergeMiningNumber := 0; bh_treeEncoding := [];
     bh_mergeMiningProof := []; bh_treeCodingLengthBits := 0; bh_btcAux := fork_aux |}.

Lemma version_rules_follow_expansion_witness : calcNextBlockVersion (Some node_a) = Ok 5 /\ ShouldHaveSerializedBlockHeight expansion_header = true /\ has_flag (script_flags true true true 5) ScriptVerifyDERSignatures = true.
Proof.
  assert (E : calcNextBlockVersion (Some node_a) = Ok 5) by (vm_compute; reflexivity). split; [exact E|].
  destruct (version_rules_follow_expansion (Some node_a) 5 true true true expansion_header) as (_ & Hh & Hd & _); [reflexivity|exact E|reflexivity|].
  split; [exact Hh|exact Hd].
Defined.
End versions.
